(* ===== verification/_CoqProject ===== *)
-Q . S2P
Prelude.v
Json.v
Queue.v
HostCapacity.v
Timer.v
Controller.v
TaskState.v
TaskTree.v
Transaction.v
ResourceStore.v
StoreInvariant.v
StoreCommit.v
StoreEffects.v
RecoveryIndex.v
Recovery.v
Snapshot.v
Context.v
Approval.v
Conditions.v
Records.v
Time.v
TaskInputs.v
TaskEvents.v
TaskIntent.v
TaskMutation.v
TaskOutcome.v
TaskAdmission.v
TaskLease.v
OutputPaths.v
TaskClaim.v
TaskContract.v
TaskActions.v
TaskSettle.v
TaskRelease.v
TaskControl.v
TaskQueries.v
TaskLaws.v
TaskScenario.v
TaskOwnership.v
TaskReconciler.v
TaskBatches.v
TaskProgress.v
ClaimEffect.v
TaskReplay.v
TaskAnswers.v
TaskOrder.v
ContractLaws.v
Containment.v
Effects.v
Keyset.v
InboxStore.v
ConversationRequests.v
ConversationTopics.v
RequestLaws.v
EventAdmission.v
EventAdmissionLaws.v
EventSelector.v
InboxAdmission.v
InboxHost.v
InboxLaws.v
InboxPages.v
HostLaws.v
DependencyAdmission.v
DependencyLaws.v
TaskCommunication.v
CommunicationLaws.v
TaskChanges.v
ChangesLaws.v
EventEnvelope.v
EventLog.v
EventTraces.v
EventProjections.v
EventJournal.v
EventBus.v
TaskEmissions.v
JournalLaws.v
EmissionLaws.v
BusLaws.v
EventInterface.v
InterfaceLaws.v
