(* ===== verification/Prelude.v ===== *)
(** * May Host: inbox, Task scheduling and durable Task state

    May Host runs many Apps in one process.  An App owns durable Tasks; a Task
    is a desired outcome that workers reconcile in attempts until it converges,
    waits for an observable Condition, or needs attention.  This library models
    the part of the Host that admits input for Apps, that decides which Task is
    worked on and when, that keeps Task state, and that hands attempts out and
    accepts their results: the inbox ([src/app/core/state/app-inbox-store.ts],
    [src/app/core/inbox]), the in-memory scheduler ([src/app/core/scheduling],
    [src/app/core/tasks]), the resource store behind it ([src/app/core/state],
    [src/lib/db]), the Task reconciler
    ([src/app/core/tasks/app-task-reconciler.ts]), the contract of worker
    results ([packages/sdk/src/task-contract.ts]) and the changes, requests and
    messages of a running attempt ([tasks/task-changes.ts],
    [tasks/dependency-admission.ts], [tasks/task-communication.ts]), and the
    events that connect all of them: the bus ([events/bus.ts]), the journal it
    writes to ([src/lib/db-writer.ts], [src/lib/db/event-traces.ts]), the facts
    Tasks publish ([tasks/app-task-emitter.ts]) and the interface through which
    people and other processes publish ([events/interface.ts]).

    ** How the parts interact

    A write goes through one fenced [commit] of the resource store, inside a
    state transaction.  An event first reaches the Condition tracker, which
    marks the Conditions it proves and appends it to the pending input of the
    Tasks that wait for them.  Woken Tasks, and those the recovery scheduler
    finds in the recovery index of the store, are enqueued on their App's
    controller.  The controller takes one Task per turn of the Host pump queue,
    if its own limit and the capacity all Apps share allow, and runs its
    reconciliation.  That claims the Task: it reads a bounded context of the
    store and commits a new running attempt with a lease and a batch of the
    pending input.  The worker's result is admitted by the contract and settles
    the attempt: it converges and answers the input it covers, waits for the
    Conditions it declares, reports incomplete work, or fails and is paced.
    Leases that run out, other runtimes and stale results give the attempt's
    input back.

    Input reaches an App as a row of its inbox, created by a transport, by an
    event the App subscribed to (through the admission journal) or by a request
    of another App's Task.  The inbox Host lets the App choose a Task for the
    row, admits the row to that Task in one transaction with the Task's intent,
    paces what fails, and projects the Task's answer back into the row.  A
    running attempt may declare requests to other Apps, Conditions, actions and
    communication; these are admitted in one transaction, each at most once.
    Communication updates the Topics and the Requests of a Conversation.

    Every event is first written to the journal, once per idempotency key, in one
    transaction with its trace, the lifecycle pairs it opens and closes, its
    projections and the wake of the exact Task it is addressed to.  Then the bus
    offers it to the durable routes and to the subscribers and records in its row
    who accepted it; listeners are notified later.  An attempt publishes facts
    under keys of its own and reads them back after a restart.  Callers outside
    the Host publish through the event interface, which checks each type's
    contract, stamps a human's decision with the authority of its channel and
    checks that a Task waits for it.

    ** Files

    - [Prelude]: results of fallible code, JavaScript numbers, strings, sets and
      arrays, shared tactics and lemmas.
    - [Json]: JavaScript objects and JSON values, [Number], [String] and
      [isDeepStrictEqual].
    - [Queue] ([tasks/queue.ts]): the level-triggered work queue of one App,
      its representation invariant, and a refinement of the work queue its
      comment promises.
    - [HostCapacity] ([scheduling/host-capacity.ts]): the limit all Apps share,
      with release closures and cancellable acquisitions as objects of a store.
    - [Timer] ([scheduling/timer.ts]): timers owned by one component.
    - [Controller] ([tasks/controller.ts]): the worker pool of one App over its
      queue, the Host pump queue and the capacity, with other Apps as an
      environment that may act between any two steps.
    - [TaskState] ([tasks/app-task-state.ts], [packages/sdk/src/task.ts]): the
      persisted records and retry pacing.
    - [TaskTree] ([tasks/app-task-store.ts]): the tree projection, readiness,
      inherited owners, children and integrity findings.
    - [Transaction] ([src/lib/db/transaction.ts]): nested state transactions and
      deliveries after the commit.
    - [ResourceStore] ([state/app-task-resource-store.ts],
      [src/lib/db/task-resource-schema.ts]): the tables of one App and every
      operation that writes them, in a small state and error monad.
      [StoreInvariant] holds the consistency of the tables, [StoreCommit] what
      one commit does.
    - [RecoveryIndex] (the recovery queries of the store) and [Recovery]
      ([tasks/app-task-recovery.ts]): the scheduler is proved against the class
      [RecoverySourceLaws], which the store's queries satisfy.
    - [Snapshot] ([readSnapshot], [readTaskSnapshot], [commitTaskMutation]): the
      whole-App read and its cache keyed by the store's revision.
    - [Context] ([readTaskContext]): the bounded read of a reconciliation.
    - [Approval] ([packages/sdk/src/approval.ts], [tasks/human-condition.ts]) and
      [Conditions] ([tasks/app-task-condition-tracker.ts]): which events prove a
      Condition, and what one event does to a Task tree and to the store.
    - [StoreEffects]: what one commit leaves in each table, for the reconciler.
    - [Records] and [Time]: record updates, and [toISOString] with its inverse.
    - The reconciler's operations: [TaskInputs] ([tasks/app-task-inputs.ts]),
      [TaskEvents] (pending input and its order), [TaskIntent] (specifications,
      hashes and validation, [app-agent-selection.ts]), [TaskMutation] (touching
      Tasks, Conditions and the exact write set of a change), [TaskOutcome]
      (answers and reports of admitted input), [TaskAdmission] (observing
      intents, recording wakes), [TaskLease] (leases, claim identity and the
      failure sequence), [OutputPaths] ([tasks/app-task-output-paths.ts]),
      [TaskClaim] (claiming), [TaskActions], [TaskSettle] (complete, defer,
      report, fail, running changes), [TaskRelease] (sessions, workspaces, stops,
      recovery of interrupted attempts, repairs), [TaskControl] (retry, reopen,
      close) and [TaskQueries] (queue order and the contexts workers are given).
    - [TaskContract] ([packages/sdk/src/task-contract.ts]): schemas, normalization
      and admission of results, changes and verifications.
    - The reconciler's theorems: [TaskLaws] and [TaskOwnership] relate a changed
      tree to the store it was read from; [TaskReconciler] composes all
      operations into histories; [TaskBatches], [TaskProgress], [ClaimEffect],
      [TaskReplay], [TaskAnswers], [TaskOrder] and [ContractLaws] hold one group
      of properties each; [TaskScenario] is a concrete App used to evaluate the
      operations, with a run in which a shared Condition is lost.
    - [Containment] ([validateParentReference] of the reconciler): the containment of Tasks and groups stays a forest.
    - [Effects]: the monad of code that runs in a transaction and may throw
      errors of several classes; [Keyset]: reading an index page by page.
    - [InboxStore] ([state/app-inbox-store.ts]): the inbox table with its unique
      indexes and every operation on it.  [InboxAdmission]
      ([state/inbox.ts]): admission, rejection and completion of a
      row in one transaction with the Task store.  [InboxHost]
      ([inbox/app-inbox-host.ts]): registration, pacing, recovery pages and
      projection.  Their theorems are in [InboxLaws], [InboxPages], [HostLaws].
    - [EventAdmission] ([state/app-event-admission-store.ts]) and [EventSelector]
      ([packages/sdk/src/event.ts]): the journal of events that Apps subscribed
      to, with [EventAdmissionLaws].
    - [ConversationRequests] ([state/conversation-requests.ts]) with
      [RequestLaws], and [ConversationTopics] ([state/conversations.ts]): the
      Requests and Topics of a Conversation.
    - [DependencyAdmission] ([tasks/dependency-admission.ts]) with
      [DependencyLaws]: requests of a running attempt to other Apps.
    - [TaskCommunication] ([tasks/task-communication.ts]) with
      [CommunicationLaws], proved against the class [Facts] of an event journal.
    - [TaskChanges] ([tasks/task-changes.ts]) with [ChangesLaws]: the one
      admission path of an attempt's changes.
    - [EventEnvelope] ([packages/control/src/event-envelope.ts],
      [events/task-target.ts]): canonical envelopes, owners and Task addresses.
    - [EventLog] (the rows of the journal and what is computed for one),
      [EventTraces] ([src/lib/db/event-traces.ts]), [EventProjections]
      ([src/lib/db/sessions.ts], [evaluations.ts], [metric-mutation.ts],
      [src/lib/escalation-feedback.ts]) and [EventJournal]
      ([src/lib/db-writer.ts]): the journal, with [JournalLaws].
    - [EventBus] ([events/bus.ts]): emission, fan-out and listener queues, with
      [BusLaws], which also composes the bus with the journal.
    - [TaskEmissions] ([tasks/app-task-emitter.ts], [state/task-emissions.ts],
      [events/persisted.ts]): facts of an attempt over the journal, with
      [EmissionLaws].
    - [EventInterface] ([events/interface.ts], [events/approval.ts]): what callers
      may publish, formal approvals, receipts and views, with [InterfaceLaws],
      proved against the class [DurableBus], which the bus over the journal
      satisfies ([host_bus]).

    A method with state is a function from the state to its result and the next
    state; a thrown error is [Throw] with the message the code builds.  Reads of
    the clock, of options and of other services are arguments.

    ** What the theorems show

    - Scheduling: the queue refines its abstract work queue (wakes collapse, a
      wake during a pass owes exactly one more), selects the first best eligible
      task and respects its limits; the capacity counts exactly the handles that
      are held, is work-conserving, keeps a slot for human input and leaks
      nothing, also when acquisitions are cancelled at any moment; the
      controller never loses a wake, runs a Task at most once at a time, backs
      off with one timer per Task, and after [close] does nothing more.
    - Store: transactions are atomic and deliver after the commit; the tables
      are consistent after any sequence of operations; a commit is all or
      nothing and rejects stale writers; creators, closures and delivery
      receipts are durable; the revision tells whether anything a snapshot shows
      has changed, so cached reads are current; a context read is exact and
      closed and its loops end.
    - Recovery: pages list every candidate once, backoff is respected, due times
      are armed, and repeated recoveries reach every pending Task.
    - Conditions: one event has exactly the stated effect and applying it again
      has none; a human approval counts only when it is verified and answers
      exactly the Condition.
    - Reconciler: through any history of operations, refused and throwing ones
      included, a Task runs exactly when it owns a stored running attempt, and a
      claim has an effect only until it is settled.  A claim that is handed out
      is current, its batch is a bounded, ordered part of the pending input, and
      claiming always decides.  A failure spends one allowance and returns its
      input; a covered input is answered with the result that was given; retries,
      reopenings and admissions can be sent again.  The runnable queue is exact
      and waiting work ages.
    - Contract: whatever a worker returns, what is admitted is well formed.
    - Inbox: through any history of Host operations rows keep their identity, and
      a completed row keeps its result; an input sent again finds its first row;
      an attempt to admit a due row hands it over, rejects it or paces it; a row
      is answered only with the answer of the Task it was handed to.  The event
      admission journal is consistent through any history, and a plan reads back
      as it was written.
    - Changes of an attempt: they are admitted once and all or nothing; a request
      is submitted once per generation, whichever attempt repeats it;
      communication is replayed from its receipts and reaches only what the Task
      accepted; Requests are updated in the order of their revisions.
    - Events: through any history of events, receipts and sweeps the journal is
      append-only and consistent, and a key names one row; an event sent again is
      answered with its first row.  Only the attempt that owns a Task publishes
      for it; the Task an event is addressed to is woken in the same transaction;
      a fact reads back as it was published.  An emission persists first, runs
      subscribers whatever their errors, and the receipt in the journal says
      exactly what they did.  Listener queues are bounded and ordered and do not
      stall.
    - Event interface: a formal approval, published or given as a reply, carries
      the stamp of an authorized channel and decides a Condition that waits for a
      human; a receipt under a key can be asked for again.

    ** Modelling choices

    A finite JavaScript number is a rational, so arithmetic does not round;
    safe-integer tests are kept.  Strings are sequences of Latin-1 code units
    with the trimming, case folding and code-unit order of JavaScript in that
    range.  Timestamps are parsed in the format the Host writes.  Objects are
    association lists with one entry per key; keys that spell array indices or
    members of [Object.prototype] do not occur.  A JSON column holds the record
    it encodes; the parsers that upgrade rows of older versions are not
    modelled.  Rows of a query without [ORDER BY] come in the order of the
    table.  Promise callbacks, timeouts and pumps are explicit steps that may
    happen in any order the platform allows.

    The reconciler changes the tree it read in place and commits it; here each
    step is a function on the tree, and where the code keeps a reference to a
    record across steps the model reads that record from the tree again.  The
    clock is read once per operation.  [localeCompare] is code-unit order.  The
    identifiers [randomUUID] returns are arguments; the histories assume that a
    claim's id is not the id of a stored attempt ([generates_fresh]).  The order
    of attempt rows by insertion is an argument of the legacy failure count.
    SHA-256 ([Crypto]), the file system ([FileSystem]) and the schema library
    ([SchemaChecker], with [SchemaLaws]) are parameters; no theorem assumes
    that hashes do not collide.  Only the request theorem assumes something of
    a hash: that it is written in hexadecimal digits ([hexDigest]).

    In the inbox an error is a class and a message ([Effects]): the code tells
    validation errors, unregistered Apps and other errors apart.  A method of the
    inbox Host that awaits is split at its awaits, and other steps may happen in
    between.  App callbacks (the resolver of input, [observe], subscriptions) are
    arguments and may throw.  What is published after a commit is part of the
    result.  The journal behind a Task's events is a record of operations
    ([AppTaskEvents]) with the laws [Facts]: a published emission is read back
    under its key and publishing leaves the Tasks and the inbox alone.  The
    display references of Topics are left out.

    The journal, the Task stores of all Apps and the projected tables are one
    state ([EventJournal.Hub]).  A failed write rolls the tables back; files of
    long event bodies stay, as in the source.  Subscribers, routes and the
    recorder of the bus are programs on the state of the bus and the Host, so that
    a subscriber may emit; loops run over the subscribers registered when they
    start.  [EmissionLaws] states what the journal gives an attempt under explicit
    premises (no other body is stored under the same digest); the class [Facts]
    that [CommunicationLaws] assumes is stronger and is not derived from it.
    Retries of a locked database are not modelled.

    The event interface takes JSON values; what the composition knows of Apps,
    agents, sessions and input schemas is a record of functions
    ([InterfaceOptions]), and its theorems hold for any.  A target keeps which of
    its fields are [undefined], because a spread copies them.

    Loops that are not structural have fuel.  [HostCapacity.drainLoop] uses the
    number of waiters, of which each turn drops one; [TaskTree.ownerWalk] the
    number of groups and Tasks, which bounds a path without repetition;
    [Context.closeTasks] and [Context.closeGroups] the size of the table, since
    a round that adds nothing is the last; [TaskIntent.parentWalk] the number of
    groups and Tasks again.  In each case a lemma shows that the loop has ended
    by itself when the fuel is used up.  [TaskClaim.claimLoop] makes two passes:
    a pass asks for another one only when it adopted a retained failure
    sequence, and after that it does not ask again ([TaskProgress]).

    ** Not modelled

    Worker processes, Git workspaces, model calls and tools, sockets, HTTP, the
    CLI and the web interface are I/O.  The migrations and repairs of older
    databases and of event rows without an envelope or a trace are left out.  The
    App Task runtime that composes reconciler, controller and recovery
    ([tasks/app-task-runtime.ts]) and the messages of Conversations
    ([state/conversations.ts]) are not modelled. *)
From Stdlib Require Export Ascii ZArith Lia QArith.
From Stdlib Require Export Qround.
From stdpp Require Export base tactics strings pretty gmap fin_maps sets sorting option list.
#[global] Open Scope Z_scope.

(** ** Results of fallible code *)

(** A call either returns a value or throws; the message is the one the source
    builds. *)
Inductive res (A : Type) : Type :=
| Ok (a : A)
| Throw (msg : string).
Arguments Ok {A} a.
Arguments Throw {A} msg.

Definition is_ok {A} (r : res A) : bool :=
  match r with Ok _ => true | Throw _ => false end.

(** ** JavaScript numbers

    A finite double is a rational, so a number is a rational, an infinity or
    NaN.  [-0] is identified with [0]. *)
Inductive number : Type :=
| Fin (q : Q)
| NaN
| PosInfinity
| NegInfinity.

Definition num (z : Z) : number := Fin (inject_Z z).

Definition MAX_SAFE_INTEGER : Z := 9007199254740991.

Definition Q_is_int (q : Q) : bool := Z.eqb (Qnum q mod Zpos (Qden q)) 0.

(** [Number.isFinite], [Number.isInteger] and [Number.isSafeInteger]. *)
Definition isFinite (n : number) : bool :=
  match n with Fin _ => true | _ => false end.

Definition isInteger (n : number) : bool :=
  match n with Fin q => Q_is_int q | _ => false end.

Definition isSafeInteger (n : number) : bool :=
  match n with
  | Fin q => Q_is_int q && (Z.abs (Qfloor q) <=? MAX_SAFE_INTEGER)
  | _ => false
  end.

(** The integer an integral number denotes. *)
Definition number_to_Z (n : number) : Z :=
  match n with Fin q => Qfloor q | _ => 0 end.

(** The comparisons [<], [<=], [===] on numbers: every one is false on NaN. *)
Definition number_ltb (a b : number) : bool :=
  match a, b with
  | Fin p, Fin q => negb (Qle_bool q p)
  | NaN, _ | _, NaN => false
  | NegInfinity, NegInfinity | PosInfinity, PosInfinity => false
  | NegInfinity, _ => true
  | _, PosInfinity => true
  | _, _ => false
  end.

Definition number_eqb (a b : number) : bool :=
  match a, b with
  | Fin p, Fin q => Qeq_bool p q
  | PosInfinity, PosInfinity | NegInfinity, NegInfinity => true
  | _, _ => false
  end.

Definition number_leb (a b : number) : bool := number_ltb a b || number_eqb a b.

(** ** Strings

    Strings are sequences of Latin-1 code units ([String.string]). *)

Definition chr (c : ascii) : Z := Z.of_nat (nat_of_ascii c).

(** The code units [String.prototype.trim] strips, within Latin-1. *)
Definition is_ws (c : ascii) : bool :=
  let n := chr c in
  ((9 <=? n) && (n <=? 13)) || (n =? 32) || (n =? 160).

Fixpoint drop_ws (l : list ascii) : list ascii :=
  match l with
  | c :: l' => if is_ws c then drop_ws l' else l
  | [] => []
  end.

Definition chars : string -> list ascii := String.list_ascii_of_string.
Definition unchars : list ascii -> string := String.string_of_list_ascii.

Definition trim (s : string) : string :=
  unchars (reverse (drop_ws (reverse (drop_ws (chars s))))).

Definition nonblank (s : string) : bool := negb (String.eqb (trim s) "").

(** [String.prototype.toLowerCase], within Latin-1. *)
Definition lower_char (c : ascii) : ascii :=
  let n := chr c in
  if ((65 <=? n) && (n <=? 90)) || ((192 <=? n) && (n <=? 222) && negb (n =? 215))
  then ascii_of_nat (Z.to_nat (n + 32)) else c.

Definition toLowerCase (s : string) : string := unchars (map lower_char (chars s)).

(** [startsWith], [endsWith], [includes]. *)
Definition startsWith (s p : string) : bool := String.prefix p s.

Definition endsWith (s p : string) : bool :=
  bool_decide (reverse (chars p) `prefix_of` reverse (chars s)).

Fixpoint includes (s p : string) : bool :=
  String.prefix p s ||
  match s with String.String _ s' => includes s' p | String.EmptyString => false end.

(** ** JavaScript sets and arrays

    A [Set] iterates in insertion order: a duplicate-free list. *)
Definition set_has (k : string) (l : list string) : bool := bool_decide (k ∈ l).

Definition set_add (k : string) (l : list string) : list string :=
  if set_has k l then l else l ++ [k].

Definition set_remove (k : string) (l : list string) : list string :=
  filter (fun x => x <> k) l.

(** [new Set(l)]: the first occurrence of each element. *)
Definition set_of (l : list string) : list string := fold_left (fun s k => set_add k s) l [].

(** [Array.prototype.sort] on strings: by code units. *)
Definition js_sort (l : list string) : list string := merge_sort String.le l.

(** [Array.prototype.join(", ")] and the decimal text of an integer. *)
Definition join (l : list string) : string := String.concat ", " l.
Definition show_Z (z : Z) : string := pretty z.

(** [s || undefined] on an optional string: the empty string is dropped. *)
Definition nonempty (s : option string) : option string :=
  match s with Some s => if String.eqb s "" then None else Some s | None => None end.

(** [Array.prototype.indexOf] and the two uses of [splice]. *)
Definition indexOf (x : string) (l : list string) : option nat :=
  fst <$> list_find (fun y => y = x) l.

Definition splice_insert {A} (i : nat) (x : A) (l : list A) : list A :=
  take i l ++ x :: drop i l.

Create HintDb may.

(** ** Tactics *)

Ltac split_ands := repeat match goal with |- _ /\ _ => split end.

(** Case analysis on the condition of an [if] or the scrutinee of a [match]. *)
Ltac case_cond :=
  match goal with
  | |- context [if ?b then _ else _] => destruct b eqn:?
  | |- context [match ?x with _ => _ end] => destruct x eqn:?
  end.

Ltac case_cond_in H :=
  match type of H with
  | context [if ?b then _ else _] => destruct b eqn:?
  | context [match ?x with _ => _ end] => destruct x eqn:?
  end.

(** Boolean hypotheses to propositions. *)
Ltac reflect_bools :=
  repeat match goal with
  | H : _ && _ = true |- _ => apply andb_true_iff in H as [? ?]
  | H : _ || _ = false |- _ => apply orb_false_iff in H as [? ?]
  | H : negb _ = true |- _ => apply negb_true_iff in H
  | H : negb _ = false |- _ => apply negb_false_iff in H
  | H : bool_decide _ = true |- _ => apply bool_decide_eq_true_1 in H
  | H : bool_decide _ = false |- _ => apply bool_decide_eq_false_1 in H
  | H : String.eqb _ _ = true |- _ => apply String.eqb_eq in H
  | H : String.eqb _ _ = false |- _ => apply String.eqb_neq in H
  | H : Z.ltb _ _ = true |- _ => apply Z.ltb_lt in H
  | H : Z.ltb _ _ = false |- _ => apply Z.ltb_ge in H
  | H : Z.leb _ _ = true |- _ => apply Z.leb_le in H
  | H : Z.leb _ _ = false |- _ => apply Z.leb_gt in H
  | H : Z.eqb _ _ = true |- _ => apply Z.eqb_eq in H
  | H : Z.eqb _ _ = false |- _ => apply Z.eqb_neq in H
  end.

(** ** Lemmas on strings *)

Lemma chars_unchars l : chars (unchars l) = l.
Proof. apply String.list_ascii_of_string_of_list_ascii. Qed.

Lemma unchars_chars s : unchars (chars s) = s.
Proof. apply String.string_of_list_ascii_of_string. Qed.

Lemma chars_append a b : chars (a +:+ b) = chars a ++ chars b.
Proof. induction a as [|c a IH]; [done|]. change (chars (String.String c a +:+ b)) with (c :: chars (a +:+ b)). by rewrite IH. Qed.

Definition no_lead_ws (l : list ascii) : Prop :=
  match l with c :: _ => is_ws c = false | [] => True end.

Lemma drop_ws_no_lead l : no_lead_ws (drop_ws l).
Proof. induction l as [|c l IH]; simpl; [done|]. destruct (is_ws c) eqn:E; done. Qed.

Lemma drop_ws_id l : no_lead_ws l -> drop_ws l = l.
Proof. destruct l as [|c l]; simpl; [done|]. by intros ->. Qed.

Lemma drop_ws_suffix l : drop_ws l `suffix_of` l.
Proof.
  induction l as [|c l IH]; simpl; [done|].
  destruct (is_ws c); [by apply suffix_cons_r | done].
Qed.

Lemma no_lead_ws_prefix l k : k `prefix_of` l -> no_lead_ws l -> no_lead_ws k.
Proof. intros [m ->]. by destruct k. Qed.

(** Trimming twice is trimming once. *)
Lemma trim_idemp s : trim (trim s) = trim s.
Proof.
  unfold trim. rewrite chars_unchars.
  set (l := drop_ws (chars s)).
  set (m := drop_ws (reverse l)).
  assert (no_lead_ws (reverse m)) as Hm.
  { eapply no_lead_ws_prefix; [|apply (drop_ws_no_lead (chars s))].
    fold l. rewrite <- (reverse_involutive l).
    destruct (drop_ws_suffix (reverse l)) as [k Hk]. fold m in Hk.
    exists (reverse k). by rewrite <- reverse_app, <- Hk. }
  rewrite (drop_ws_id (reverse m)) by done.
  rewrite reverse_involutive, (drop_ws_id m); [done | apply drop_ws_no_lead].
Qed.

(** A trimmed text neither starts nor ends with white space. *)
Lemma trim_fixed s : trim s = s <-> no_lead_ws (chars s) /\ no_lead_ws (reverse (chars s)).
Proof.
  split.
  - intros H. assert (chars s = reverse (drop_ws (reverse (drop_ws (chars s))))) as Hs by (rewrite <- H at 1; apply chars_unchars).
    split; [|rewrite Hs, reverse_involutive; apply drop_ws_no_lead].
    rewrite Hs. eapply no_lead_ws_prefix; [|apply (drop_ws_no_lead (chars s))].
    destruct (drop_ws_suffix (reverse (drop_ws (chars s)))) as [k Hk]. exists (reverse k).
    by rewrite <- reverse_app, <- Hk, reverse_involutive.
  - intros [H1 H2]. unfold trim. rewrite (drop_ws_id _ H1), (drop_ws_id _ H2), reverse_involutive. apply unchars_chars.
Qed.

Lemma drop_ws_nil l : drop_ws l = [] <-> Forall (fun c => is_ws c = true) l.
Proof.
  induction l as [|c l IH]; simpl; [by split|]. rewrite Forall_cons, <- IH. destruct (is_ws c); [naive_solver|]. naive_solver.
Qed.

(** A text is blank exactly when all its characters are white space. *)
Lemma nonblank_false s : nonblank s = false <-> Forall (fun c => is_ws c = true) (chars s).
Proof.
  unfold nonblank, trim. rewrite negb_false_iff, String.eqb_eq, <- drop_ws_nil. split.
  - intros H. apply (f_equal chars) in H. rewrite chars_unchars in H. simpl in H.
    assert (drop_ws (reverse (drop_ws (chars s))) = []) as Hd by (apply (f_equal reverse) in H; by rewrite reverse_involutive in H).
    rewrite drop_ws_nil, Forall_reverse in Hd. pose proof (drop_ws_no_lead (chars s)) as Hn.
    destruct (drop_ws (chars s)) as [|c l]; [done|]. apply Forall_cons in Hd as [Hc _]. simpl in Hn. congruence.
  - by intros ->.
Qed.

Lemma nonblank_append p s : nonblank p = true -> nonblank (p +:+ s) = true.
Proof.
  intros Hp. destruct (nonblank (p +:+ s)) eqn:E; [done|]. apply nonblank_false in E.
  rewrite chars_append, Forall_app in E. destruct E as [E _]. apply nonblank_false in E. congruence.
Qed.

Lemma trim_append p s : no_lead_ws (chars p) -> p <> "" -> nonblank s = true -> trim s = s -> trim (p +:+ s) = p +:+ s.
Proof.
  intros Hp Hne Hs [_ Ht]%trim_fixed. apply trim_fixed. rewrite chars_append, reverse_app. split.
  - destruct p as [|c p]; [done|]. exact Hp.
  - destruct (reverse (chars s)) as [|c l] eqn:E; [|exact Ht].
    apply (f_equal reverse) in E. rewrite reverse_involutive in E. simpl in E.
    assert (nonblank s = false) by (apply nonblank_false; by rewrite E). congruence.
Qed.

Lemma nonempty_Some v k : nonempty v = Some k -> v = Some k /\ k <> "".
Proof.
  destruct v as [x|]; [|done]. simpl. destruct (String.eqb_spec x ""); [done|]. intros [= <-]. done.
Qed.

Lemma nonempty_idemp s : nonempty (nonempty s) = nonempty s.
Proof. destruct s as [s|]; [|done]. simpl. destruct (String.eqb s "") eqn:E; simpl; by rewrite ?E. Qed.

(** ** Lemmas on JavaScript sets and arrays *)

Lemma set_has_true k l : set_has k l = true <-> k ∈ l.
Proof. unfold set_has. apply bool_decide_eq_true. Qed.

Lemma set_has_false k l : set_has k l = false <-> k ∉ l.
Proof. unfold set_has. apply bool_decide_eq_false. Qed.

Lemma elem_of_set_add x k l : x ∈ set_add k l <-> x = k \/ x ∈ l.
Proof.
  unfold set_add. destruct (set_has k l) eqn:E.
  - apply set_has_true in E. set_solver.
  - set_solver.
Qed.

Lemma NoDup_set_add k l : NoDup l -> NoDup (set_add k l).
Proof.
  unfold set_add. destruct (set_has k l) eqn:E; [done|].
  apply set_has_false in E. intros. apply NoDup_app. split_ands; [done| |].
  - set_solver.
  - apply NoDup_singleton.
Qed.

Lemma elem_of_set_remove x k l : x ∈ set_remove k l <-> x ∈ l /\ x <> k.
Proof. unfold set_remove. rewrite list_elem_of_filter. tauto. Qed.

Lemma NoDup_set_remove k l : NoDup l -> NoDup (set_remove k l).
Proof. apply NoDup_filter. Qed.

Lemma set_remove_absent k l : k ∉ l -> set_remove k l = l.
Proof.
  unfold set_remove. induction l as [|x l IH]; [done|]. intros [Hx Hl]%not_elem_of_cons.
  rewrite filter_cons_True by done. by rewrite IH.
Qed.

Lemma set_remove_app k l1 l2 : set_remove k (l1 ++ l2) = set_remove k l1 ++ set_remove k l2.
Proof. apply filter_app. Qed.

Lemma length_set_add k l :
  length (set_add k l) = if set_has k l then length l else S (length l).
Proof. unfold set_add. destruct (set_has k l); [done|]. rewrite length_app. simpl. lia. Qed.

Lemma length_set_remove k l :
  NoDup l -> k ∈ l -> S (length (set_remove k l)) = length l.
Proof.
  intros Hnd. induction Hnd as [|x l Hx Hl IH]; [set_solver|].
  intros [->|Hk]%elem_of_cons; unfold set_remove in *.
  - rewrite filter_cons_False by (intros H; by apply H). simpl. f_equal.
    by rewrite <- (set_remove_absent x l) at 2.
  - rewrite filter_cons_True by set_solver. simpl. by rewrite IH.
Qed.

Lemma elem_of_set_of x l : x ∈ set_of l <-> x ∈ l.
Proof.
  induction l as [|k l IH] using rev_ind; [done|].
  unfold set_of in *. rewrite fold_left_app. simpl. rewrite elem_of_set_add. set_solver.
Qed.

Lemma sublist_map {A B} (f : A -> B) l k : sublist l k -> sublist (map f l) (map f k).
Proof. induction 1; simpl; by constructor. Qed.

Lemma NoDup_set_of l : NoDup (set_of l).
Proof.
  induction l as [|k l IH] using rev_ind; [constructor|].
  unfold set_of in *. rewrite fold_left_app. simpl. by apply NoDup_set_add.
Qed.

Lemma elem_of_js_sort x l : x ∈ js_sort l <-> x ∈ l.
Proof. unfold js_sort. by rewrite (merge_sort_Permutation String.le l). Qed.

Lemma js_sort_Sorted l : StronglySorted String.le (js_sort l).
Proof. apply (StronglySorted_merge_sort String.le). Qed.

Lemma NoDup_js_sort l : NoDup l -> NoDup (js_sort l).
Proof. unfold js_sort. by rewrite (merge_sort_Permutation String.le l). Qed.

Lemma indexOf_Some x l i : indexOf x l = Some i -> l !! i = Some x.
Proof.
  unfold indexOf. destruct (list_find _ l) as [[j y]|] eqn:E; [|done].
  apply list_find_Some in E as (? & ? & _). simpl. intros [= ->]. by subst.
Qed.

Lemma indexOf_elem x l : x ∈ l -> exists i, indexOf x l = Some i.
Proof.
  intros Hx. unfold indexOf.
  destruct (list_find_elem_of (fun y => y = x) l x Hx eq_refl) as [[i y] ->]. by exists i.
Qed.

Lemma indexOf_None x l : indexOf x l = None -> x ∉ l.
Proof. intros H Hx. by destruct (indexOf_elem x l Hx) as [i Hi]; rewrite Hi in H. Qed.

(** Deleting at the index of an element of a duplicate-free array removes it. *)
Lemma delete_indexOf x l i :
  NoDup l -> indexOf x l = Some i -> delete i l = set_remove x l.
Proof.
  intros Hnd Hi%indexOf_Some.
  rewrite <- (take_drop_middle l i x Hi) in Hnd |- * at 2.
  rewrite delete_take_drop, set_remove_app.
  apply NoDup_app in Hnd as (_ & Ht & [Hx _]%NoDup_cons).
  rewrite (set_remove_absent x (take i l)) by set_solver.
  f_equal. unfold set_remove. rewrite filter_cons_False by (intros H; by apply H).
  by rewrite <- (set_remove_absent x (drop (S i) l)) at 1.
Qed.

Lemma splice_insert_app {A} (x : A) l1 l2 :
  splice_insert (length l1) x (l1 ++ l2) = l1 ++ x :: l2.
Proof. unfold splice_insert. by rewrite take_app_length, drop_app_length. Qed.

(** ** Lemmas on lists *)

Lemma filter_nil_iff {A} (P : A -> Prop) `{forall x, Decision (P x)} (l : list A) :
  filter P l = [] <-> forall x, x ∈ l -> ~ P x.
Proof.
  split.
  - intros Hf x Hx Hp. assert (x ∈ filter P l) as Hin by (by apply list_elem_of_filter).
    rewrite Hf in Hin. set_solver.
  - intros Hn. apply elem_of_nil_inv. intros x [Hp Hx]%list_elem_of_filter. by apply (Hn x).
Qed.

Lemma elem_of_flat_map {A B} (f : A -> list B) (l : list A) y :
  y ∈ flat_map f l <-> exists x, x ∈ l /\ y ∈ f x.
Proof.
  rewrite list_elem_of_In, in_flat_map. split; intros (x & ? & ?); exists x;
    by rewrite ?list_elem_of_In in *.
Qed.

Lemma flat_map_nil_iff {A B} (f : A -> list B) (l : list A) :
  flat_map f l = [] <-> forall x, x ∈ l -> f x = [].
Proof.
  induction l as [|a l IH]; simpl; [set_solver|].
  split.
  - intros [Ha Hl]%app_eq_nil. rewrite IH in Hl. set_solver.
  - intros H. rewrite (H a) by set_solver. apply IH. set_solver.
Qed.

#[export] Hint Resolve NoDup_set_add NoDup_set_remove NoDup_set_of NoDup_js_sort : may.
