(* ===== verification/Json.v ===== *)
(** JavaScript objects and JSON values, as the Host's records, events and
    worker results use them.

    An object with string keys is an association list in insertion order, with
    at most one entry per key; [undefined] is the absence of an entry.  Keys
    that spell array indices, which JavaScript enumerates first, do not occur
    in the modelled records.  [unknown] values read from JSON text are [json]
    trees, and an optional [json] where the source distinguishes
    [undefined]. *)
From S2P Require Import Prelude.

(** ** Objects used as maps *)

Definition obj (V : Type) : Type := list (string * V).

Fixpoint obj_get {V} (k : string) (o : obj V) : option V :=
  match o with
  | [] => None
  | (k', v) :: o' => if String.eqb k' k then Some v else obj_get k o'
  end.

(** Assignment [o[k] = v]: an existing key keeps its place. *)
Fixpoint obj_set {V} (k : string) (v : V) (o : obj V) : obj V :=
  match o with
  | [] => [(k, v)]
  | (k', v') :: o' => if String.eqb k' k then (k', v) :: o' else (k', v') :: obj_set k v o'
  end.

(** [delete o[k]]. *)
Definition obj_delete {V} (k : string) (o : obj V) : obj V :=
  filter (fun e => e.1 <> k) o.

Definition obj_keys {V} (o : obj V) : list string := map fst o.
Definition obj_values {V} (o : obj V) : list V := map snd o.

Definition obj_has {V} (k : string) (o : obj V) : bool :=
  match obj_get k o with Some _ => true | None => false end.

(** [Object.fromEntries]. *)
Definition fromEntries {V} (l : list (string * V)) : obj V :=
  fold_left (fun o e => obj_set e.1 e.2 o) l [].

(** An object has one entry per key. *)
Definition obj_wf {V} (o : obj V) : Prop := NoDup (obj_keys o).

(** ** JSON values *)

Inductive json : Type :=
| JNull
| JBool (b : bool)
| JNum (n : number)
| JStr (s : string)
| JArr (l : list json)
| JObj (o : list (string * json)).

(** [isRecord]: a non-null object that is not an array. *)
Definition isRecord (v : option json) : bool :=
  match v with Some (JObj _) => true | _ => false end.

(** Property access on a value already known to be a record. *)
Definition prop (v : json) (k : string) : option json :=
  match v with JObj o => obj_get k o | _ => None end.

(** JavaScript truthiness of an optional value. *)
Definition truthy (v : option json) : bool :=
  match v with
  | None | Some JNull => false
  | Some (JBool b) => b
  | Some (JNum n) => negb (number_eqb n (num 0)) && match n with NaN => false | _ => true end
  | Some (JStr s) => negb (String.eqb s "")
  | Some (JArr _) | Some (JObj _) => true
  end.

(** [Object.is] on numbers, with the two zeros identified. *)
Definition number_is (a b : number) : bool :=
  match a, b with NaN, NaN => true | _, _ => number_eqb a b end.

(** [isDeepStrictEqual]: structural, ignoring the order of keys. *)
Fixpoint deep_eqb (a b : json) {struct a} : bool :=
  match a, b with
  | JNull, JNull => true
  | JBool x, JBool y => Bool.eqb x y
  | JNum x, JNum y => number_is x y
  | JStr x, JStr y => String.eqb x y
  | JArr l, JArr m =>
      (fix go (l m : list json) : bool :=
         match l, m with
         | [], [] => true
         | x :: l', y :: m' => deep_eqb x y && go l' m'
         | _, _ => false
         end) l m
  | JObj o, JObj p =>
      Nat.eqb (length o) (length p) &&
      (fix go (o : list (string * json)) : bool :=
         match o with
         | [] => true
         | (k, x) :: o' =>
             match obj_get k p with Some y => deep_eqb x y | None => false end && go o'
         end) o
  | _, _ => false
  end.

(** [===] and [isDeepStrictEqual] on optional values. *)
Definition opt_deep_eqb (a b : option json) : bool :=
  match a, b with
  | Some x, Some y => deep_eqb x y
  | None, None => true
  | _, _ => false
  end.

Definition str_is (v : option json) (s : string) : bool :=
  match v with Some (JStr t) => String.eqb t s | _ => false end.

(** ** [Number(value)]

    The string grammar of StringToNumber: decimal literals with sign, fraction
    and exponent, [Infinity], and the unsigned radix prefixes. *)
Definition digit_val (radix : Z) (c : ascii) : option Z :=
  let n := chr c in
  let d := if (48 <=? n) && (n <=? 57) then n - 48
           else if (97 <=? n) && (n <=? 122) then n - 87
           else if (65 <=? n) && (n <=? 90) then n - 55 else radix in
  if d <? radix then Some d else None.

(** The longest digit prefix: its value, its length and the rest. *)
Fixpoint take_digits (radix : Z) (l : list ascii) (acc : Z) (n : nat) : Z * nat * list ascii :=
  match l with
  | c :: l' =>
      match digit_val radix c with
      | Some d => take_digits radix l' (radix * acc + d) (S n)
      | None => (acc, n, l)
      end
  | [] => (acc, n, l)
  end.

Definition pow10 (e : Z) : Q :=
  if 0 <=? e then inject_Z (10 ^ e) else 1 # Z.to_pos (10 ^ (- e)).

Definition take_sign (l : list ascii) : Z * list ascii :=
  match l with
  | "+"%char :: l' => (1, l')
  | "-"%char :: l' => (-1, l')
  | _ => (1, l)
  end.

(** The exponent part of a decimal literal; [None] when the text is not one. *)
Definition take_exponent (l : list ascii) : option Z :=
  match l with
  | [] => Some 0
  | c :: l' =>
      if Ascii.eqb c "e" || Ascii.eqb c "E" then
        let '(sg, l') := take_sign l' in
        match take_digits 10 l' 0 0 with
        | (e, S _, []) => Some (sg * e)
        | _ => None
        end
      else None
  end.

Definition decimal_literal (l : list ascii) : number :=
  let '(sg, l) := take_sign l in
  if bool_decide (l = chars "Infinity") then (if sg <? 0 then NegInfinity else PosInfinity) else
  let '(ip, ni, l) := take_digits 10 l 0 0 in
  let '(fp, nf, l) := match l with
                      | "."%char :: l' => take_digits 10 l' 0 0
                      | _ => (0, O, l)
                      end in
  if Nat.eqb (ni + nf) 0 then NaN else
  match take_exponent l with
  | Some e => Fin ((inject_Z (sg * (ip * 10 ^ Z.of_nat nf + fp))) * pow10 (e - Z.of_nat nf))
  | None => NaN
  end.

Definition radix_literal (radix : Z) (l : list ascii) : number :=
  match take_digits radix l 0 0 with (v, S _, []) => num v | _ => NaN end.

Definition Number_of_string (s : string) : number :=
  match chars (trim s) with
  | [] => num 0
  | "0"%char :: c :: l =>
      if Ascii.eqb c "x" || Ascii.eqb c "X" then radix_literal 16 l
      else if Ascii.eqb c "o" || Ascii.eqb c "O" then radix_literal 8 l
      else if Ascii.eqb c "b" || Ascii.eqb c "B" then radix_literal 2 l
      else decimal_literal ("0"%char :: c :: l)
  | l => decimal_literal l
  end.

(** [Number] of a value; an array is the number of its joined text. *)
Fixpoint Number_of_json (v : json) : number :=
  match v with
  | JNull => num 0
  | JBool b => num (if b then 1 else 0)
  | JNum n => n
  | JStr s => Number_of_string s
  | JArr [] => num 0
  | JArr [x] => match x with JNull => num 0 | JBool _ => NaN | _ => Number_of_json x end
  | JArr _ | JObj _ => NaN
  end.

Definition Number_of (v : option json) : number :=
  match v with Some v => Number_of_json v | None => NaN end.

(** ** [String(value)]

    A number prints as an integer or as its terminating decimal expansion; the
    exponent notation of very large and very small numbers is not modelled.  An
    array is its elements joined by commas, a null element being empty. *)
Definition pad_left (n : nat) (s : string) : string :=
  unchars (replicate (n - String.length s) "0"%char) +:+ s.

(** The first [k] at or after [from] for which [q * 10^k] is an integer. *)
Fixpoint decimals (fuel from : nat) (q : Q) : option nat :=
  if Q_is_int (q * inject_Z (10 ^ Z.of_nat from)) then Some from
  else match fuel with O => None | S fuel => decimals fuel (S from) q end.

Definition String_of_number (n : number) : string :=
  match n with
  | NaN => "NaN"
  | PosInfinity => "Infinity"
  | NegInfinity => "-Infinity"
  | Fin q =>
      match decimals 1074 0 q with
      | Some O | None => show_Z (Qfloor q)
      | Some k =>
          let scaled := Qfloor (q * inject_Z (10 ^ Z.of_nat k)) in
          let base := 10 ^ Z.of_nat k in
          (if scaled <? 0 then "-" else "") +:+ show_Z (Z.abs scaled / base) +:+ "." +:+
          pad_left k (show_Z (Z.abs scaled mod base))
      end
  end.

Fixpoint String_of_json (v : json) : string :=
  match v with
  | JNull => "null"
  | JBool b => if b then "true" else "false"
  | JNum n => String_of_number n
  | JStr s => s
  | JArr l =>
      String.concat "," (map (fun x => match x with JNull => "" | _ => String_of_json x end) l)
  | JObj _ => "[object Object]"
  end.

Definition String_of (v : option json) : string :=
  match v with Some v => String_of_json v | None => "undefined" end.

Example string_of_values :
  map String_of_json [JNum (num 42); JNum (Fin (5 # 4)); JNum (Fin (-1 # 100)); JArr [JNull; JStr "a"]] =
  ["42"; "1.25"; "-0.01"; ",a"].
Proof. vm_compute. reflexivity. Qed.

(** ** [JSON.stringify(value)]

    The text of a value without undefined members; the exponent notation of
    very large and very small numbers is not modelled. *)
Definition hex_digit (n : Z) : ascii :=
  ascii_of_nat (Z.to_nat (if n <? 10 then 48 + n else 87 + n)).

Definition escape_char (c : ascii) : list ascii :=
  let n := chr c in
  if n =? 34 then ["\"%char; c] else if n =? 92 then ["\"%char; c]
  else if n =? 8 then ["\"%char; "b"%char] else if n =? 12 then ["\"%char; "f"%char]
  else if n =? 10 then ["\"%char; "n"%char] else if n =? 13 then ["\"%char; "r"%char]
  else if n =? 9 then ["\"%char; "t"%char]
  else if n <? 32 then ["\"%char; "u"%char; "0"%char; "0"%char; hex_digit (n / 16); hex_digit (n mod 16)]
  else [c].

Definition quote_char : ascii := ascii_of_nat 34.

Definition JSON_string (s : string) : string :=
  unchars (quote_char :: flat_map escape_char (chars s) ++ [quote_char]).

Fixpoint JSON_stringify (v : json) : string :=
  match v with
  | JNull => "null"
  | JBool b => if b then "true" else "false"
  | JNum n => if isFinite n then String_of_number n else "null"
  | JStr s => JSON_string s
  | JArr l => "[" +:+ String.concat "," (map JSON_stringify l) +:+ "]"
  | JObj o => "{" +:+ String.concat "," (map (fun e => JSON_string e.1 +:+ ":" +:+ JSON_stringify e.2) o) +:+ "}"
  end.

Example stringify_value :
  JSON_stringify (JObj [("a", JArr [JNull; JBool true]); ("n", JNum (num (-3)))]) =
  "{" +:+ JSON_string "a" +:+ ":[null,true]," +:+ JSON_string "n" +:+ ":-3}".
Proof. vm_compute. reflexivity. Qed.

(** ** Lemmas on objects *)

Lemma obj_get_set_eq {V} k (v : V) o : obj_get k (obj_set k v o) = Some v.
Proof.
  induction o as [|[k' v'] o IH]; simpl; [by rewrite String.eqb_refl|].
  destruct (String.eqb k' k) eqn:E; simpl; by rewrite E.
Qed.

Lemma obj_get_set_ne {V} k k' (v : V) o :
  k <> k' -> obj_get k (obj_set k' v o) = obj_get k o.
Proof.
  intros Hk. induction o as [|[j w] o IH]; simpl.
  - destruct (String.eqb_spec k' k); [congruence|done].
  - destruct (String.eqb_spec j k'); simpl; [subst|].
    + destruct (String.eqb_spec k' k); [congruence|done].
    + by rewrite IH.
Qed.

Lemma obj_get_Some_elem {V} k (v : V) o : obj_get k o = Some v -> (k, v) ∈ o.
Proof.
  induction o as [|[j w] o IH]; simpl; [done|].
  destruct (String.eqb_spec j k); [|set_solver].
  intros [= ->]. subst. set_solver.
Qed.

Lemma obj_get_None {V} k (o : obj V) : obj_get k o = None <-> k ∉ obj_keys o.
Proof.
  induction o as [|[j w] o IH]; simpl; [set_solver|].
  destruct (String.eqb_spec j k); subst; [set_solver|]. rewrite IH. set_solver.
Qed.

Lemma obj_get_wf {V} k (v : V) o : obj_wf o -> (k, v) ∈ o -> obj_get k o = Some v.
Proof.
  unfold obj_wf. induction o as [|[j w] o IH]; simpl; [set_solver|].
  intros [Hj Hnd]%NoDup_cons [[= -> ->]|Hin]%elem_of_cons.
  - by rewrite String.eqb_refl.
  - destruct (String.eqb_spec j k); subst; [|by apply IH].
    contradict Hj. apply list_elem_of_fmap. by exists (k, v).
Qed.

Lemma obj_keys_set {V} k (v : V) o :
  obj_keys (obj_set k v o) = if obj_has k o then obj_keys o else obj_keys o ++ [k].
Proof.
  unfold obj_has. induction o as [|[j w] o IH]; simpl; [done|].
  destruct (String.eqb_spec j k); simpl; [done|]. rewrite IH. by destruct (obj_get k o).
Qed.

Lemma obj_set_wf {V} k (v : V) o : obj_wf o -> obj_wf (obj_set k v o).
Proof.
  unfold obj_wf. intros H. rewrite obj_keys_set. unfold obj_has.
  destruct (obj_get k o) eqn:E; [done|]. apply obj_get_None in E.
  apply NoDup_app. split_ands; [done|set_solver|apply NoDup_singleton].
Qed.

Lemma fromEntries_app {V} (l : list (string * V)) e :
  fromEntries (l ++ [e]) = obj_set e.1 e.2 (fromEntries l).
Proof. unfold fromEntries. by rewrite fold_left_app. Qed.

Lemma fromEntries_wf {V} (l : list (string * V)) : obj_wf (fromEntries l).
Proof.
  induction l as [|e l IH] using rev_ind; [constructor|].
  rewrite fromEntries_app. by apply obj_set_wf.
Qed.

(** A map keeps one entry per input with distinct keys: [Object.fromEntries]
    finds each of them. *)
Lemma fromEntries_get {V} (l : list (string * V)) k v :
  NoDup (map fst l) -> (k, v) ∈ l -> obj_get k (fromEntries l) = Some v.
Proof.
  induction l as [|[j w] l IH] using rev_ind; [set_solver|].
  rewrite map_app, fromEntries_app. simpl.
  intros (Hnd & Hd & _)%NoDup_app [Hin|[= -> ->]%list_elem_of_singleton]%elem_of_app.
  - rewrite obj_get_set_ne; [by apply IH|].
    intros ->. apply (Hd j); [|set_solver]. apply list_elem_of_fmap. by exists (j, v).
  - apply obj_get_set_eq.
Qed.

Lemma fromEntries_get_None {V} (l : list (string * V)) k :
  k ∉ map fst l -> obj_get k (fromEntries l) = None.
Proof.
  induction l as [|[j w] l IH] using rev_ind; [done|].
  rewrite map_app, fromEntries_app. simpl. intros Hk.
  rewrite obj_get_set_ne by set_solver. apply IH. set_solver.
Qed.

(** Setting every entry of [o], transformed by [f], on top of [acc]. *)
Lemma obj_get_fold_set {V W} (f : string -> V -> W) (o : obj V) acc k :
  obj_wf o ->
  obj_get k (fold_left (fun t e => obj_set e.1 (f e.1 e.2) t) o acc) =
  match obj_get k o with Some v => Some (f k v) | None => obj_get k acc end.
Proof.
  unfold obj_wf. revert acc. induction o as [|[j v] o IH]; simpl; [done|].
  intros acc [Hj Hnd]%NoDup_cons. rewrite IH by done.
  destruct (String.eqb_spec j k); subst.
  - rewrite (proj2 (obj_get_None k o)) by done. apply obj_get_set_eq.
  - destruct (obj_get k o); [done|]. by apply obj_get_set_ne.
Qed.

Lemma obj_wf_fold_set {V W} (f : string -> V -> W) (o : obj V) acc :
  obj_wf acc -> obj_wf (fold_left (fun t e => obj_set e.1 (f e.1 e.2) t) o acc).
Proof. revert acc. induction o as [|[j v] o IH]; simpl; auto using obj_set_wf. Qed.

Lemma elem_of_obj_values {V} (o : obj V) v :
  obj_wf o -> v ∈ obj_values o <-> exists k, obj_get k o = Some v.
Proof.
  intros Hwf. unfold obj_values. rewrite list_elem_of_fmap. split.
  - intros ([k w] & -> & Hin). exists k. by apply obj_get_wf.
  - intros (k & Hk%obj_get_Some_elem). by exists (k, v).
Qed.

Lemma obj_has_true {V} k (o : obj V) : obj_has k o = true <-> exists v, obj_get k o = Some v.
Proof.
  unfold obj_has. destruct (obj_get k o); split; [eauto|done|done|]. by intros [? ?].
Qed.

(** ** Induction on JSON values *)

Lemma json_ind' (P : json -> Prop) :
  P JNull -> (forall b, P (JBool b)) -> (forall n, P (JNum n)) -> (forall s, P (JStr s)) ->
  (forall l, Forall P l -> P (JArr l)) ->
  (forall o, Forall (fun e => P e.2) o -> P (JObj o)) ->
  forall v, P v.
Proof.
  intros Hn Hb Hm Hs Ha Ho. fix IH 1. intros [| | | |l|o]; [done..| |].
  - apply Ha. induction l; constructor; [apply IH|done].
  - apply Ho. induction o as [|[k x] o]; constructor; [apply IH|done].
Qed.

Lemma number_is_refl n : number_is n n = true.
Proof. destruct n; simpl; try done. apply Qeq_bool_refl. Qed.

(** Every value whose objects have one entry per key. *)
Fixpoint json_wf (v : json) : Prop :=
  match v with
  | JArr l => (fix go l := match l with [] => True | x :: l' => json_wf x /\ go l' end) l
  | JObj o => NoDup (map fst o) /\
      (fix go o := match o with [] => True | (_, x) :: o' => json_wf x /\ go o' end) o
  | _ => True
  end.

#[export] Hint Resolve obj_set_wf fromEntries_wf number_is_refl : may.
