(* ===== verification/Queue.v ===== *)
(** * The App task queue

    [src/app/core/tasks/queue.ts]: the level-triggered work queue of one App.
    The class's private fields are the fields of [AppTaskQueue]; every method is
    a function from a queue to its result and the next queue.  The two closures
    [isReady] and [isForeground] the constructor receives read the controller's
    state, so [peek] and [take] receive them as arguments. *)
From S2P Require Import Prelude.

Module AppTaskQueue.

(** ** Data *)

Inductive AppTaskPriority : Type := P0 | P1 | P2 | P3.

Inductive AppTaskLane : Type := human | normal.

#[export] Instance priority_eq_dec : EqDecision AppTaskPriority.
Proof. solve_decision. Defined.

#[export] Instance lane_eq_dec : EqDecision AppTaskLane.
Proof. solve_decision. Defined.

Record AppTaskQueueOptions : Type := Options {
  opt_promote : bool;
  opt_priority : option AppTaskPriority;
  opt_lane : option AppTaskLane
}.

Definition no_options : AppTaskQueueOptions := Options false None None.

Record queue : Type := mkQueue {
  pending : list string;
  queued : gset string;
  promotedQueued : gset string;
  running : list string;
  foregroundRunning : gset string;
  dirty : list string;
  dirtyPromote : gset string;
  priorities : gmap string AppTaskPriority;
  dirtyPriorities : gmap string AppTaskPriority;
  lanes : gmap string AppTaskLane;
  dirtyLanes : gmap string AppTaskLane;
  concurrency : Z
}.

Record selection : Type := Selection {
  sel_taskId : string;
  sel_lane : AppTaskLane;
  sel_foreground : bool
}.

(** ** Operations *)

Definition strongerLane (current incoming : option AppTaskLane) : AppTaskLane :=
  match current, incoming with
  | Some human, _ | _, Some human => human
  | _, _ => normal
  end.

Definition priorityRank (p : AppTaskPriority) : Z :=
  match p with P0 => 0 | P1 => 1 | P2 => 2 | P3 => 3 end.

Definition validateMaxConcurrent (maxConcurrent : number) : res Z :=
  if negb (isInteger maxConcurrent) || number_ltb maxConcurrent (num 1)
  then Throw "AppTaskQueue maxConcurrent must be a positive integer"
  else Ok (number_to_Z maxConcurrent).

(** The constructor. *)
Definition newQueue (maxConcurrent : number) : res queue :=
  match validateMaxConcurrent maxConcurrent with
  | Throw e => Throw e
  | Ok c => Ok (mkQueue [] ∅ ∅ [] ∅ [] ∅ ∅ ∅ ∅ ∅ c)
  end.

Definition updateMaxConcurrent (maxConcurrent : number) (q : queue) : res () * queue :=
  match validateMaxConcurrent maxConcurrent with
  | Throw e => (Throw e, q)
  | Ok c =>
      (Ok (), mkQueue (pending q) (queued q) (promotedQueued q) (running q) (foregroundRunning q)
                (dirty q) (dirtyPromote q) (priorities q) (dirtyPriorities q)
                (lanes q) (dirtyLanes q) c)
  end.

(** The wake of a task that is being reconciled: one fresh pass is recorded. *)
Definition enqueue_running (key : string) (opts : AppTaskQueueOptions)
    (priority : AppTaskPriority) (lane : AppTaskLane) (q : queue) : bool * queue :=
  (negb (set_has key (dirty q)),
   mkQueue (pending q) (queued q) (promotedQueued q) (running q) (foregroundRunning q)
     (set_add key (dirty q))
     (if opt_promote opts then {[key]} ∪ dirtyPromote q else dirtyPromote q)
     (priorities q)
     (<[key := priority]> (dirtyPriorities q))
     (lanes q)
     (<[key := strongerLane (dirtyLanes q !! key) (Some lane)]> (dirtyLanes q))
     (concurrency q)).

(** The wake of a task that is already pending. *)
Definition enqueue_queued (key : string) (opts : AppTaskQueueOptions)
    (priority : AppTaskPriority) (lane : AppTaskLane) (q : queue) : bool * queue :=
  let priorityChanged := bool_decide (priorities q !! key <> Some priority) in
  let laneChanged := bool_decide (lanes q !! key <> Some lane) in
  let priorities' := <[key := priority]> (priorities q) in
  let lanes' := <[key := lane]> (lanes q) in
  if opt_promote opts && bool_decide (key ∉ promotedQueued q) then
    let pending' :=
      match indexOf key (pending q) with
      | Some index => delete index (pending q)
      | None => pending q
      end in
    (true,
     mkQueue (splice_insert (size (promotedQueued q)) key pending') (queued q)
       ({[key]} ∪ promotedQueued q) (running q) (foregroundRunning q)
       (dirty q) (dirtyPromote q) priorities' (dirtyPriorities q)
       lanes' (dirtyLanes q) (concurrency q))
  else
    (priorityChanged || laneChanged,
     mkQueue (pending q) (queued q) (promotedQueued q) (running q) (foregroundRunning q)
       (dirty q) (dirtyPromote q) priorities' (dirtyPriorities q)
       lanes' (dirtyLanes q) (concurrency q)).

(** The wake of a task the queue does not hold. *)
Definition enqueue_new (key : string) (opts : AppTaskQueueOptions)
    (priority : AppTaskPriority) (lane : AppTaskLane) (q : queue) : bool * queue :=
  (true,
   mkQueue
     (if opt_promote opts then splice_insert (size (promotedQueued q)) key (pending q)
      else pending q ++ [key])
     ({[key]} ∪ queued q)
     (if opt_promote opts then {[key]} ∪ promotedQueued q else promotedQueued q)
     (running q) (foregroundRunning q) (dirty q) (dirtyPromote q)
     (<[key := priority]> (priorities q)) (dirtyPriorities q)
     (<[key := lane]> (lanes q)) (dirtyLanes q) (concurrency q)).

Definition enqueue (taskId : string) (opts : AppTaskQueueOptions) (q : queue)
    : res bool * queue :=
  let key := trim taskId in
  if String.eqb key "" then (Throw "AppTaskQueue requires a non-empty task ID", q) else
  let priority :=
    match opt_priority opts with
    | Some p => p
    | None => default P2 (priorities q !! key)
    end in
  let lane := strongerLane (lanes q !! key) (opt_lane opts) in
  let out :=
    if set_has key (running q) then enqueue_running key opts priority lane q
    else if bool_decide (key ∈ queued q) then enqueue_queued key opts priority lane q
    else enqueue_new key opts priority lane q in
  (Ok out.1, out.2).

Section Selection.
Context (isReady isForeground : string -> bool).

(** Whether a foreground or background slot is free for the task. *)
Definition slot_full (q : queue) (foreground : bool) : bool :=
  if foreground then 1 <=? Z.of_nat (size (foregroundRunning q))
  else concurrency q <=?
       Z.of_nat (length (running q)) - Z.of_nat (size (foregroundRunning q)).

Definition rank (q : queue) (taskId : string) : Z :=
  (if isForeground taskId then 0 else 8)
  + (if decide (default normal (lanes q !! taskId) = human) then 0 else 4)
  + priorityRank (default P2 (priorities q !! taskId)).

(** One iteration of the loop of [peek]; the accumulator holds [selected],
    [selectedRank] and [selectedPromoted]. *)
Definition peek_step (q : queue) (acc : option (selection * Z * bool)) (taskId : string)
    : option (selection * Z * bool) :=
  if String.eqb taskId "" || negb (isReady taskId) then acc else
  let foreground := isForeground taskId in
  if slot_full q foreground then acc else
  let lane := default normal (lanes q !! taskId) in
  let r := rank q taskId in
  let promoted := bool_decide (taskId ∈ promotedQueued q) in
  let better :=
    match acc with
    | None => true
    | Some (_, selectedRank, selectedPromoted) =>
        (r <? selectedRank) || ((r =? selectedRank) && promoted && negb selectedPromoted)
    end in
  if better then Some (Selection taskId lane foreground, r, promoted) else acc.

Definition peek (q : queue) : option selection :=
  (fun x => x.1.1) <$> foldl (peek_step q) None (pending q).

Definition nextLane (q : queue) : option AppTaskLane := sel_lane <$> peek q.

Definition take (q : queue) : option string * queue :=
  match peek q with
  | None => (None, q)
  | Some next =>
      match indexOf (sel_taskId next) (pending q) with
      | None => (None, q)
      | Some takeIndex =>
          let taskId := sel_taskId next in
          let pending' := delete takeIndex (pending q) in
          if String.eqb taskId "" then
            (None, mkQueue pending' (queued q) (promotedQueued q) (running q)
                     (foregroundRunning q) (dirty q) (dirtyPromote q) (priorities q)
                     (dirtyPriorities q) (lanes q) (dirtyLanes q) (concurrency q))
          else
            (Some taskId,
             mkQueue pending' (queued q ∖ {[taskId]}) (promotedQueued q ∖ {[taskId]})
               (set_add taskId (running q))
               (if sel_foreground next then {[taskId]} ∪ foregroundRunning q
                else foregroundRunning q)
               (dirty q) (dirtyPromote q) (priorities q) (dirtyPriorities q)
               (lanes q) (dirtyLanes q) (concurrency q))
      end
  end.
End Selection.

Definition complete (taskId : string) (q : queue) : res () * queue :=
  if negb (set_has taskId (running q))
  then (Throw (String.append "AppTaskQueue cannot complete task that is not running: " taskId), q)
  else
  let running' := set_remove taskId (running q) in
  let foreground' := foregroundRunning q ∖ {[taskId]} in
  if set_has taskId (dirty q) then
    let promote := bool_decide (taskId ∈ dirtyPromote q) in
    let priority :=
      match dirtyPriorities q !! taskId with
      | Some p => Some p
      | None => priorities q !! taskId
      end in
    let lane := strongerLane (lanes q !! taskId) (dirtyLanes q !! taskId) in
    let q' :=
      mkQueue (pending q) (queued q) (promotedQueued q) running' foreground'
        (set_remove taskId (dirty q)) (dirtyPromote q ∖ {[taskId]}) (priorities q)
        (delete taskId (dirtyPriorities q)) (lanes q) (delete taskId (dirtyLanes q))
        (concurrency q) in
    match enqueue taskId (Options promote priority (Some lane)) q' with
    | (Ok _, q'') => (Ok (), q'')
    | (Throw e, q'') => (Throw e, q'')
    end
  else
    (Ok (),
     mkQueue (pending q) (queued q) (promotedQueued q) running' foreground'
       (dirty q) (dirtyPromote q) (delete taskId (priorities q)) (dirtyPriorities q)
       (delete taskId (lanes q)) (dirtyLanes q) (concurrency q)).

Definition pendingCount (q : queue) : nat := length (pending q).
Definition runningCount (q : queue) : nat := length (running q).
Definition hasWork (q : queue) : bool :=
  bool_decide (0 < pendingCount q)%nat || bool_decide (0 < runningCount q)%nat.

Record snapshot_t : Type := Snapshot {
  snap_pending : list string;
  snap_running : list string;
  snap_dirty : list string
}.

Definition snapshot (q : queue) : snapshot_t :=
  Snapshot (pending q) (running q) (dirty q).

(** ** Well-formedness *)

(** The representation invariant: a task is pending at most once, pending and
    running tasks are disjoint, promoted tasks form a prefix of the pending
    list, and each map has an entry exactly for the tasks it describes. *)
Record wf (q : queue) : Prop := mkWf {
  wf_pending : NoDup (pending q);
  wf_queued : queued q = list_to_set (pending q);
  wf_promoted : exists l1 l2,
    pending q = l1 ++ l2 /\ promotedQueued q = list_to_set l1;
  wf_running : NoDup (running q);
  wf_disjoint : forall k, k ∈ pending q -> k ∉ running q;
  wf_foreground : forall k, k ∈ foregroundRunning q -> k ∈ running q;
  wf_foreground_cap : (size (foregroundRunning q) <= 1)%nat;
  wf_dirty_nodup : NoDup (dirty q);
  wf_dirty : forall k, k ∈ dirty q -> k ∈ running q;
  wf_dirtyPromote : forall k, k ∈ dirtyPromote q -> k ∈ dirty q;
  wf_priorities : forall k, k ∈ dom (priorities q) <-> k ∈ pending q \/ k ∈ running q;
  wf_lanes : forall k, k ∈ dom (lanes q) <-> k ∈ pending q \/ k ∈ running q;
  wf_dirtyPriorities : forall k, k ∈ dom (dirtyPriorities q) <-> k ∈ dirty q;
  wf_dirtyLanes : forall k, k ∈ dom (dirtyLanes q) <-> k ∈ dirty q;
  wf_keys : forall k, k ∈ pending q \/ k ∈ running q -> trim k = k /\ k <> "";
  wf_concurrency : 1 <= concurrency q
}.

(** ** Lemmas on the operations *)

Lemma validateMaxConcurrent_pos n c : validateMaxConcurrent n = Ok c -> 1 <= c.
Proof.
  unfold validateMaxConcurrent, isInteger, number_ltb, num.
  destruct n as [q| | |]; simpl; try done.
  destruct (Q_is_int q); simpl; [|done].
  destruct (Qle_bool (inject_Z 1) q) eqn:E; simpl; [|done].
  intros [= <-]. apply Qle_bool_iff in E.
  apply Qround.Qfloor_resp_le in E. by rewrite Qround.Qfloor_Z in E.
Qed.

Lemma newQueue_wf n q : newQueue n = Ok q -> wf q.
Proof.
  unfold newQueue. destruct (validateMaxConcurrent n) eqn:E; [|done].
  apply validateMaxConcurrent_pos in E. intros [= <-].
  constructor; simpl; try set_solver; try by constructor.
  exists [], []. done.
Qed.

Lemma promoted_size q l1 l2 :
  wf q -> pending q = l1 ++ l2 -> promotedQueued q = list_to_set l1 ->
  size (promotedQueued q) = length l1.
Proof.
  intros Hwf Hp ->. apply size_list_to_set.
  pose proof (wf_pending q Hwf) as Hnd. rewrite Hp in Hnd. by apply NoDup_app in Hnd as [? _].
Qed.

(** Inserting a task after the promoted prefix. *)
Lemma promote_insert l1 l2 (P : gset string) key :
  NoDup (l1 ++ l2) -> P = list_to_set l1 -> key ∉ l1 ++ l2 ->
  splice_insert (size P) key (l1 ++ l2) = (l1 ++ [key]) ++ l2 /\
  NoDup ((l1 ++ [key]) ++ l2) /\
  {[key]} ∪ P = list_to_set (l1 ++ [key]).
Proof.
  intros Hnd -> Hk. split_ands.
  - rewrite size_list_to_set by (by apply NoDup_app in Hnd as [? _]).
    by rewrite splice_insert_app, <- app_assoc.
  - rewrite <- app_assoc. simpl. rewrite <- Permutation_middle. by constructor.
  - rewrite list_to_set_app_L. set_solver.
Qed.

Lemma list_to_set_remove k l :
  list_to_set (set_remove k l) =@{gset string} list_to_set l ∖ {[k]}.
Proof.
  apply set_eq. intros x.
  rewrite elem_of_list_to_set, elem_of_set_remove, elem_of_difference,
    elem_of_list_to_set, elem_of_singleton. done.
Qed.

(** Dropping a task from the pending list keeps the promoted prefix. *)
Lemma promoted_remove q key :
  wf q -> exists l1 l2,
    set_remove key (pending q) = l1 ++ l2 /\ promotedQueued q ∖ {[key]} = list_to_set l1.
Proof.
  intros [_ _ (l1 & l2 & -> & ->) _ _ _ _ _ _ _ _ _ _ _ _ _].
  exists (set_remove key l1), (set_remove key l2).
  by rewrite set_remove_app, list_to_set_remove.
Qed.

Ltac queue_wf Hwf :=
  constructor; simpl; auto with may; try apply Hwf.

Lemma enqueue_running_wf key opts p l q :
  wf q -> key ∈ running q -> wf (enqueue_running key opts p l q).2.
Proof.
  intros Hwf Hr. queue_wf Hwf.
  - apply NoDup_set_add, Hwf.
  - intros k [->|Hk]%elem_of_set_add; [done | by apply (wf_dirty q Hwf)].
  - intros k. rewrite elem_of_set_add. pose proof (wf_dirtyPromote q Hwf k).
    destruct (opt_promote opts); set_solver.
  - intros k. rewrite dom_insert, elem_of_set_add, elem_of_union, elem_of_singleton.
    by rewrite (wf_dirtyPriorities q Hwf).
  - intros k. rewrite dom_insert, elem_of_set_add, elem_of_union, elem_of_singleton.
    by rewrite (wf_dirtyLanes q Hwf).
Qed.

Lemma dom_insert_present {V} (m : gmap string V) key v (A : string -> Prop) :
  (forall k, k ∈ dom m <-> A k) -> A key -> forall k, k ∈ dom (<[key := v]> m) <-> A k.
Proof. intros Hm Hk k. rewrite dom_insert, elem_of_union, elem_of_singleton, Hm. naive_solver. Qed.

Lemma enqueue_queued_wf key opts p l q :
  wf q -> key ∈ pending q -> wf (enqueue_queued key opts p l q).2.
Proof.
  intros Hwf Hk. unfold enqueue_queued.
  destruct (opt_promote opts && bool_decide (key ∉ promotedQueued q)) eqn:Hpr.
  2:{ queue_wf Hwf; apply dom_insert_present; auto; apply Hwf. }
  reflect_bools.
  destruct (indexOf_elem key (pending q) Hk) as [i Hi]. rewrite Hi.
  rewrite (delete_indexOf key (pending q) i) by (apply Hwf || done).
  destruct (promoted_remove q key Hwf) as (l1 & l2 & Hrem & Hp).
  assert (promotedQueued q ∖ {[key]} = promotedQueued q) as Hsame by set_solver.
  rewrite Hsame in Hp.
  assert (forall k, k ∈ l1 ++ l2 <-> k ∈ pending q /\ k <> key) as Hmem.
  { intros k. rewrite <- Hrem. apply elem_of_set_remove. }
  destruct (promote_insert l1 l2 (promotedQueued q) key) as (Hins & Hnd & Hset).
  { rewrite <- Hrem. apply NoDup_set_remove, Hwf. }
  { done. }
  { rewrite Hmem. tauto. }
  assert (forall k, k ∈ (l1 ++ [key]) ++ l2 <-> k ∈ pending q) as Hall.
  { intros k. specialize (Hmem k). destruct (decide (k = key)); set_solver. }
  simpl. rewrite Hrem, Hins. queue_wf Hwf.
  - rewrite (wf_queued q Hwf). apply set_eq. intros k.
    rewrite !elem_of_list_to_set. by rewrite Hall.
  - exists (l1 ++ [key]), l2. done.
  - intros k ?%Hall. by apply (wf_disjoint q Hwf).
  - intros k. rewrite Hall. revert k. apply dom_insert_present; [apply (wf_priorities q Hwf) | auto].
  - intros k. rewrite Hall. revert k. apply dom_insert_present; [apply (wf_lanes q Hwf) | auto].
  - intros k. rewrite Hall. apply (wf_keys q Hwf).
Qed.

Lemma enqueue_new_wf key opts p l q :
  wf q -> trim key = key -> key <> "" -> key ∉ running q -> key ∉ pending q ->
  wf (enqueue_new key opts p l q).2.
Proof.
  intros Hwf Htrim Hne Hnr Hnp. unfold enqueue_new. simpl.
  destruct (wf_promoted q Hwf) as (l1 & l2 & Hp & Hpr).
  destruct (promote_insert l1 l2 (promotedQueued q) key) as (Hins & Hnd & Hset); auto.
  { rewrite <- Hp. apply Hwf. } { by rewrite <- Hp. }
  set (pending' := if opt_promote opts then _ else _).
  assert (NoDup pending' /\ (forall k, k ∈ pending' <-> k = key \/ k ∈ pending q) /\
    exists a b, pending' = a ++ b /\
    (if opt_promote opts then {[key]} ∪ promotedQueued q else promotedQueued q)
      = list_to_set a) as (Hnd' & Hmem & Hpre).
  { subst pending'. destruct (opt_promote opts).
    - rewrite Hp, Hins. split_ands; [done| |by exists (l1 ++ [key]), l2].
      intros k. set_solver.
    - split_ands.
      + apply NoDup_app. split_ands; [apply Hwf| |apply NoDup_singleton]. set_solver.
      + set_solver.
      + exists l1, (l2 ++ [key]). by rewrite Hp, <- app_assoc. }
  clearbody pending'.
  assert (forall V (m : gmap string V) v,
    (forall k, k ∈ dom m <-> k ∈ pending q \/ k ∈ running q) ->
    forall k, k ∈ dom (<[key := v]> m) <-> k ∈ pending' \/ k ∈ running q) as Hdom.
  { intros V m v Hm k. rewrite dom_insert, elem_of_union, elem_of_singleton, Hm, Hmem. tauto. }
  queue_wf Hwf.
  - rewrite (wf_queued q Hwf). apply set_eq. intros k.
    rewrite elem_of_union, elem_of_singleton, !elem_of_list_to_set. by rewrite Hmem.
  - intros k [->|Hk]%Hmem; [done | by apply (wf_disjoint q Hwf)].
  - apply Hdom, Hwf.
  - apply Hdom, Hwf.
  - intros k. rewrite Hmem. intros [[->|Hk]|Hk]; [done|..]; apply (wf_keys q Hwf); auto.
Qed.

Lemma enqueue_wf taskId opts q : wf q -> wf (enqueue taskId opts q).2.
Proof.
  intros Hwf. unfold enqueue.
  destruct (String.eqb (trim taskId) "") eqn:E; [done|]. simpl.
  destruct (set_has (trim taskId) (running q)) eqn:Hr.
  { apply set_has_true in Hr. by apply enqueue_running_wf. }
  apply set_has_false in Hr. case_bool_decide as Hq; simpl.
  - apply enqueue_queued_wf; [done|]. rewrite (wf_queued q Hwf) in Hq. set_solver.
  - apply enqueue_new_wf; auto using trim_idemp.
    + by apply String.eqb_neq.
    + rewrite (wf_queued q Hwf) in Hq. set_solver.
Qed.

Lemma updateMaxConcurrent_wf n q : wf q -> wf (updateMaxConcurrent n q).2.
Proof.
  intros Hwf. unfold updateMaxConcurrent.
  destruct (validateMaxConcurrent n) eqn:E; [|done].
  apply validateMaxConcurrent_pos in E. by queue_wf Hwf.
Qed.

(** *** Selection *)

Section SelectionLemmas.
Context (isReady isForeground : string -> bool).

(** A pending task that [peek] may select now. *)
Definition eligible (q : queue) (k : string) : bool :=
  negb (String.eqb k "") && isReady k && negb (slot_full q (isForeground k)).

(** The order of [peek]: the rank, and promotion among equal ranks. *)
Definition score (q : queue) (k : string) : Z :=
  2 * rank isForeground q k + (if bool_decide (k ∈ promotedQueued q) then 0 else 1).

Definition selection_of (q : queue) (k : string) : selection :=
  Selection k (default normal (lanes q !! k)) (isForeground k).

(** [k] is the first best eligible task of [l]. *)
Definition best_of (q : queue) (l : list string) (k : string) : Prop :=
  exists l1 l2, l = l1 ++ k :: l2 /\ eligible q k = true /\
    (forall j, j ∈ l1 -> eligible q j = true -> score q k < score q j) /\
    (forall j, j ∈ l2 -> eligible q j = true -> score q k <= score q j).

Definition peek_inv (q : queue) (l : list string) (acc : option (selection * Z * bool)) : Prop :=
  match acc with
  | None => forall j, j ∈ l -> eligible q j = false
  | Some (s, r, p) =>
      exists k, s = selection_of q k /\ r = rank isForeground q k /\
        p = bool_decide (k ∈ promotedQueued q) /\ best_of q l k
  end.

Lemma best_of_snoc_ineligible q l k j :
  best_of q l k -> eligible q j = false -> best_of q (l ++ [j]) k.
Proof.
  intros (l1 & l2 & -> & He & H1 & H2) Hj. exists l1, (l2 ++ [j]).
  split_ands; auto.
  - by rewrite <- app_assoc.
  - intros i [Hi| ->%list_elem_of_singleton]%elem_of_app ?; [auto|congruence].
Qed.

Lemma best_of_snoc_worse q l k j :
  best_of q l k -> score q k <= score q j -> best_of q (l ++ [j]) k.
Proof.
  intros (l1 & l2 & -> & He & H1 & H2) Hj. exists l1, (l2 ++ [j]).
  split_ands; auto.
  - by rewrite <- app_assoc.
  - intros i [Hi| ->%list_elem_of_singleton]%elem_of_app ?; auto.
Qed.

Lemma best_of_snoc_better q l k j :
  best_of q l k -> eligible q j = true -> score q j < score q k -> best_of q (l ++ [j]) j.
Proof.
  intros (l1 & l2 & -> & He & H1 & H2) Hj Hlt. exists (l1 ++ k :: l2), [].
  split_ands; auto; [|set_solver].
  intros i Hi Hie. apply elem_of_app in Hi as [Hi|[->|Hi]%elem_of_cons].
  - specialize (H1 i Hi Hie). lia.
  - done.
  - specialize (H2 i Hi Hie). lia.
Qed.

Lemma peek_step_inv q l acc j :
  peek_inv q l acc -> peek_inv q (l ++ [j]) (peek_step isReady isForeground q acc j).
Proof.
  intros Hinv. unfold peek_step. destruct (eligible q j) eqn:Hj.
  2:{ enough (peek_inv q (l ++ [j]) acc) as Hacc.
      { unfold eligible in Hj.
        destruct (String.eqb j ""), (isReady j), (slot_full q (isForeground j));
          simpl in *; done. }
      destruct acc as [[[s r] p]|]; simpl in *.
      - destruct Hinv as (k & -> & -> & -> & Hb). exists k. split_ands; auto.
        by apply best_of_snoc_ineligible.
      - intros i [Hi| ->%list_elem_of_singleton]%elem_of_app; auto. }
  assert (String.eqb j "" || negb (isReady j) = false /\ slot_full q (isForeground j) = false)
    as [-> ->].
  { unfold eligible in Hj.
    by destruct (String.eqb j ""), (isReady j), (slot_full q (isForeground j)). }
  destruct acc as [[[s r] p]|]; simpl in *.
  - destruct Hinv as (k & -> & -> & -> & Hb).
    assert (score q j < score q k <->
      (rank isForeground q j <? rank isForeground q k)
      || ((rank isForeground q j =? rank isForeground q k)
          && bool_decide (j ∈ promotedQueued q)
          && negb (bool_decide (k ∈ promotedQueued q))) = true) as Hscore.
    { unfold score. rewrite orb_true_iff, !andb_true_iff, Z.ltb_lt, Z.eqb_eq.
      destruct (bool_decide (j ∈ _)), (bool_decide (k ∈ _)); simpl; lia. }
    destruct (_ || _) eqn:Hbetter.
    + exists j. split_ands; auto. eapply best_of_snoc_better; [done..|]. by apply Hscore.
    + exists k. split_ands; auto. apply best_of_snoc_worse; [done|].
      apply Z.nlt_ge. rewrite Hscore. congruence.
  - exists j. split_ands; auto. exists l, []. split_ands; auto; [|set_solver].
    intros i Hi Hie. rewrite (Hinv i Hi) in Hie. done.
Qed.

Lemma peek_fold_inv q l :
  peek_inv q l (foldl (peek_step isReady isForeground q) None l).
Proof.
  induction l as [|j l IH] using rev_ind; [simpl; set_solver|].
  rewrite foldl_snoc. by apply peek_step_inv.
Qed.

Lemma peek_Some q s :
  peek isReady isForeground q = Some s ->
  s = selection_of q (sel_taskId s) /\ best_of q (pending q) (sel_taskId s).
Proof.
  unfold peek. pose proof (peek_fold_inv q (pending q)) as Hinv.
  destruct (foldl _ _ _) as [[[s' r] p]|]; simpl in *; [|done].
  intros [= <-]. destruct Hinv as (k & -> & _ & _ & Hb). done.
Qed.

Lemma peek_None q :
  peek isReady isForeground q = None <-> forall k, k ∈ pending q -> eligible q k = false.
Proof.
  unfold peek. pose proof (peek_fold_inv q (pending q)) as Hinv.
  destruct (foldl _ _ _) as [[[s' r] p]|]; simpl in *; [|done].
  split; [done|]. intros Hnone. destruct Hinv as (k & _ & _ & _ & l1 & l2 & Hl & He & _).
  rewrite Hnone in He; [done|]. rewrite Hl. set_solver.
Qed.

Lemma peek_eligible q s :
  peek isReady isForeground q = Some s ->
  sel_taskId s ∈ pending q /\ eligible q (sel_taskId s) = true.
Proof. intros (_ & l1 & l2 & -> & He & _)%peek_Some. set_solver. Qed.

(** [take] moves the selected task from the pending list to the running set. *)
Lemma take_Some q k q' :
  wf q -> take isReady isForeground q = (Some k, q') ->
  peek isReady isForeground q = Some (selection_of q k) /\
  q' = mkQueue (set_remove k (pending q)) (queued q ∖ {[k]}) (promotedQueued q ∖ {[k]})
         (running q ++ [k])
         (if isForeground k then {[k]} ∪ foregroundRunning q else foregroundRunning q)
         (dirty q) (dirtyPromote q) (priorities q) (dirtyPriorities q)
         (lanes q) (dirtyLanes q) (concurrency q).
Proof.
  intros Hwf. unfold take.
  destruct (peek isReady isForeground q) as [s|] eqn:Hp; [|done].
  destruct (peek_Some q s Hp) as [Hs _].
  destruct (peek_eligible q s Hp) as [Hin _].
  destruct (indexOf (sel_taskId s) (pending q)) as [i|] eqn:Hi; [|done].
  destruct (String.eqb (sel_taskId s) "") eqn:E; [done|]. intros [= <- <-].
  split; [by f_equal|].
  rewrite (delete_indexOf _ _ _ (wf_pending q Hwf) Hi).
  unfold set_add. rewrite (proj2 (set_has_false _ _)) by (by apply (wf_disjoint q Hwf)).
  rewrite Hs at 5. done.
Qed.

Lemma take_None q q' :
  take isReady isForeground q = (None, q') ->
  q' = q /\ peek isReady isForeground q = None.
Proof.
  unfold take. destruct (peek isReady isForeground q) as [s|] eqn:Hp; [|by intros [= <-]].
  destruct (peek_eligible q s Hp) as [Hin He].
  destruct (indexOf_elem _ _ Hin) as [i ->].
  unfold eligible in He. destruct (String.eqb (sel_taskId s) ""); done.
Qed.

Lemma take_wf q : wf q -> wf (take isReady isForeground q).2.
Proof.
  intros Hwf. destruct (take isReady isForeground q) as [[k|] q'] eqn:Ht.
  2:{ by apply take_None in Ht as [-> _]. }
  destruct (take_Some q k q' Hwf Ht) as [Hp ->]. simpl.
  destruct (peek_eligible _ _ Hp) as [Hin He]. simpl in *.
  pose proof (wf_disjoint q Hwf k Hin) as Hnr.
  assert (forall x, x ∈ set_remove k (pending q) \/ x ∈ running q ++ [k] <->
    x ∈ pending q \/ x ∈ running q) as Hall.
  { intros x. rewrite elem_of_set_remove, elem_of_app, list_elem_of_singleton.
    destruct (decide (x = k)); naive_solver. }
  queue_wf Hwf.
  - apply NoDup_set_remove, Hwf.
  - by rewrite (wf_queued q Hwf), list_to_set_remove.
  - by apply promoted_remove.
  - apply NoDup_app. split_ands; [apply Hwf | set_solver | apply NoDup_singleton].
  - intros x [Hx ?]%elem_of_set_remove. pose proof (wf_disjoint q Hwf x Hx). set_solver.
  - intros x. pose proof (wf_foreground q Hwf x). destruct (isForeground k); set_solver.
  - unfold eligible, slot_full in He. destruct (isForeground k); [|apply Hwf].
    reflect_bools. rewrite size_union, size_singleton; [lia|].
    intros x ->%elem_of_singleton ?%(wf_foreground q Hwf). done.
  - intros x Hx%(wf_dirty q Hwf). set_solver.
  - intros x. rewrite Hall. apply Hwf.
  - intros x. rewrite Hall. apply Hwf.
  - intros x. rewrite Hall. apply (wf_keys q Hwf).
Qed.
End SelectionLemmas.

(** *** Completion *)

(** The queue after [complete] has dropped the running task and its dirty marks. *)
Definition drop_dirty (k : string) (q : queue) : queue :=
  mkQueue (pending q) (queued q) (promotedQueued q) (set_remove k (running q))
    (foregroundRunning q ∖ {[k]}) (set_remove k (dirty q)) (dirtyPromote q ∖ {[k]})
    (priorities q) (delete k (dirtyPriorities q)) (lanes q) (delete k (dirtyLanes q))
    (concurrency q).

Definition dirty_options (k : string) (q : queue) : AppTaskQueueOptions :=
  Options (bool_decide (k ∈ dirtyPromote q))
    (match dirtyPriorities q !! k with Some p => Some p | None => priorities q !! k end)
    (Some (strongerLane (lanes q !! k) (dirtyLanes q !! k))).

(** A dirty task is re-queued as a new task: the re-enqueue never throws. *)
Lemma complete_dirty k q :
  wf q -> k ∈ dirty q -> exists p l,
    complete k q = (Ok (), (enqueue_new k (dirty_options k q) p l (drop_dirty k q)).2) /\
    l = strongerLane (lanes q !! k) (Some (strongerLane (lanes q !! k) (dirtyLanes q !! k))).
Proof.
  intros Hwf Hd. pose proof (wf_dirty q Hwf k Hd) as Hr.
  destruct (wf_keys q Hwf k) as [Htrim Hne]; [auto|].
  unfold complete. rewrite (proj2 (set_has_true _ _) Hr), (proj2 (set_has_true _ _) Hd). simpl.
  unfold enqueue. rewrite Htrim, (proj2 (String.eqb_neq _ _) Hne). simpl.
  rewrite (proj2 (set_has_false _ _)) by (rewrite elem_of_set_remove; tauto).
  rewrite bool_decide_eq_false_2.
  2:{ rewrite (wf_queued q Hwf), elem_of_list_to_set. intros Hp.
      by apply (wf_disjoint q Hwf k Hp). }
  eexists _, _. split; reflexivity.
Qed.

Lemma complete_clean k q :
  k ∈ running q -> k ∉ dirty q ->
  complete k q = (Ok (),
    mkQueue (pending q) (queued q) (promotedQueued q) (set_remove k (running q))
      (foregroundRunning q ∖ {[k]}) (dirty q) (dirtyPromote q) (delete k (priorities q))
      (dirtyPriorities q) (delete k (lanes q)) (dirtyLanes q) (concurrency q)).
Proof.
  intros Hr Hd. unfold complete.
  by rewrite (proj2 (set_has_true _ _) Hr), (proj2 (set_has_false _ _) Hd).
Qed.

Lemma size_difference_le (X Y : gset string) : (size (X ∖ Y) <= size X)%nat.
Proof. apply subseteq_size. set_solver. Qed.

(** Everything of [wf] survives dropping a running task, except that the task
    keeps its priority and lane. *)
Lemma drop_dirty_new_wf k q p l opts :
  wf q -> k ∈ dirty q -> wf (enqueue_new k opts p l (drop_dirty k q)).2.
Proof.
  intros Hwf Hd. pose proof (wf_dirty q Hwf k Hd) as Hr.
  destruct (wf_keys q Hwf k) as [Htrim Hne]; [auto|].
  assert (k ∉ pending q) as Hnp.
  { intros Hp. by apply (wf_disjoint q Hwf k Hp). }
  set (q1 := mkQueue (pending q) (queued q) (promotedQueued q) (set_remove k (running q))
    (foregroundRunning q ∖ {[k]}) (set_remove k (dirty q)) (dirtyPromote q ∖ {[k]})
    (delete k (priorities q)) (delete k (dirtyPriorities q)) (delete k (lanes q))
    (delete k (dirtyLanes q)) (concurrency q)).
  replace (enqueue_new k opts p l (drop_dirty k q)).2 with (enqueue_new k opts p l q1).2.
  2:{ unfold enqueue_new. simpl. by rewrite !insert_delete_eq. }
  apply enqueue_new_wf; auto; [|simpl; rewrite elem_of_set_remove; tauto].
  queue_wf Hwf.
  - apply NoDup_set_remove, Hwf.
  - intros x Hx. rewrite elem_of_set_remove. pose proof (wf_disjoint q Hwf x Hx). tauto.
  - intros x. rewrite elem_of_set_remove. pose proof (wf_foreground q Hwf x). set_solver.
  - etrans; [apply size_difference_le | apply Hwf].
  - apply NoDup_set_remove, Hwf.
  - intros x. rewrite !elem_of_set_remove. pose proof (wf_dirty q Hwf x). tauto.
  - intros x. rewrite elem_of_set_remove. pose proof (wf_dirtyPromote q Hwf x). set_solver.
  - intros x. rewrite dom_delete, elem_of_set_remove, elem_of_difference, elem_of_singleton,
      (wf_priorities q Hwf). destruct (decide (x = k)); naive_solver.
  - intros x. rewrite dom_delete, elem_of_set_remove, elem_of_difference, elem_of_singleton,
      (wf_lanes q Hwf). destruct (decide (x = k)); naive_solver.
  - intros x. by rewrite dom_delete, elem_of_set_remove, elem_of_difference, elem_of_singleton,
      (wf_dirtyPriorities q Hwf).
  - intros x. by rewrite dom_delete, elem_of_set_remove, elem_of_difference, elem_of_singleton,
      (wf_dirtyLanes q Hwf).
  - intros x. rewrite elem_of_set_remove. pose proof (wf_keys q Hwf x). tauto.
Qed.

Lemma complete_clean_wf k q :
  wf q -> k ∈ running q -> k ∉ dirty q -> wf (complete k q).2.
Proof.
  intros Hwf Hr Hd. rewrite complete_clean by done. simpl.
  assert (k ∉ pending q) as Hnp.
  { intros Hp. by apply (wf_disjoint q Hwf k Hp). }
  queue_wf Hwf.
  - apply NoDup_set_remove, Hwf.
  - intros x Hx. rewrite elem_of_set_remove. pose proof (wf_disjoint q Hwf x Hx). tauto.
  - intros x. rewrite elem_of_set_remove. pose proof (wf_foreground q Hwf x). set_solver.
  - etrans; [apply size_difference_le | apply Hwf].
  - intros x Hx. rewrite elem_of_set_remove. pose proof (wf_dirty q Hwf x Hx). naive_solver.
  - intros x. rewrite dom_delete, elem_of_set_remove, elem_of_difference, elem_of_singleton,
      (wf_priorities q Hwf). destruct (decide (x = k)); naive_solver.
  - intros x. rewrite dom_delete, elem_of_set_remove, elem_of_difference, elem_of_singleton,
      (wf_lanes q Hwf). destruct (decide (x = k)); naive_solver.
  - intros x. rewrite elem_of_set_remove. pose proof (wf_keys q Hwf x). tauto.
Qed.

Lemma complete_wf k q : wf q -> wf (complete k q).2.
Proof.
  intros Hwf. destruct (set_has k (running q)) eqn:Hr.
  2:{ unfold complete. by rewrite Hr. }
  apply set_has_true in Hr. destruct (decide (k ∈ dirty q)) as [Hd|Hd].
  - destruct (complete_dirty k q Hwf Hd) as (p & l & -> & _). by apply drop_dirty_new_wf.
  - by apply complete_clean_wf.
Qed.

(** ** Operations and reachable queues *)

Inductive op : Type :=
| OEnqueue (taskId : string) (opts : AppTaskQueueOptions)
| OTake (isReady isForeground : string -> bool)
| OComplete (taskId : string)
| OUpdate (maxConcurrent : number).

Definition run_op (o : op) (q : queue) : queue :=
  match o with
  | OEnqueue taskId opts => (enqueue taskId opts q).2
  | OTake isReady isForeground => (take isReady isForeground q).2
  | OComplete taskId => (complete taskId q).2
  | OUpdate n => (updateMaxConcurrent n q).2
  end.

Inductive reachable : queue -> Prop :=
| reach_new n q : newQueue n = Ok q -> reachable q
| reach_op o q : reachable q -> reachable (run_op o q).

Lemma queue_run_op_wf o q : wf q -> wf (run_op o q).
Proof.
  destruct o; simpl; eauto using enqueue_wf, take_wf, complete_wf, updateMaxConcurrent_wf.
Qed.

Lemma reachable_queue_wf q : reachable q -> wf q.
Proof. induction 1; eauto using newQueue_wf, queue_run_op_wf. Qed.

(** ** Abstract specification

    What the class comment promises: a task is idle, pending, running, or
    running with one fresh pass owed.  Wakes collapse; a wake during a pass
    owes exactly one more. *)

Inductive status : Type := Idle | Pending | Running | RunningDirty.

#[export] Instance status_eq_dec : EqDecision status.
Proof. solve_decision. Defined.

Definition wake (s : status) : status :=
  match s with Idle | Pending => Pending | Running | RunningDirty => RunningDirty end.

Definition finish (s : status) : status :=
  match s with Running => Idle | RunningDirty => Pending | s => s end.

(** The abstract step an operation makes on the status of every task. *)
Definition abstract_step (o : op) (st st' : string -> status) : Prop :=
  match o with
  | OEnqueue taskId _ =>
      forall k, st' k = if decide (k = trim taskId /\ k <> "") then wake (st k) else st k
  | OTake _ _ =>
      (forall k, st' k = st k) \/
      exists t, st t = Pending /\ forall k, st' k = if decide (k = t) then Running else st k
  | OComplete taskId => forall k, st' k = if decide (k = taskId) then finish (st k) else st k
  | OUpdate _ => forall k, st' k = st k
  end.

Definition status_of (q : queue) (k : string) : status :=
  if set_has k (running q) then (if set_has k (dirty q) then RunningDirty else Running)
  else if set_has k (pending q) then Pending else Idle.

(** The status is determined by three memberships. *)
Lemma status_of_ext q q' k :
  (k ∈ running q' <-> k ∈ running q) -> (k ∈ dirty q' <-> k ∈ dirty q) ->
  (k ∈ pending q' <-> k ∈ pending q) -> status_of q' k = status_of q k.
Proof.
  intros Hr Hd Hp. unfold status_of, set_has.
  rewrite (bool_decide_ext _ _ Hr), (bool_decide_ext _ _ Hd), (bool_decide_ext _ _ Hp). done.
Qed.

Lemma status_of_Running q k :
  k ∈ running q -> status_of q k = if set_has k (dirty q) then RunningDirty else Running.
Proof. intros H. unfold status_of. by rewrite (proj2 (set_has_true _ _) H). Qed.

Lemma status_of_Pending q k : wf q -> k ∈ pending q -> status_of q k = Pending.
Proof.
  intros Hwf Hp. unfold status_of. rewrite (proj2 (set_has_true k (pending q)) Hp).
  by rewrite (proj2 (set_has_false _ _) (wf_disjoint q Hwf k Hp)).
Qed.

Lemma status_of_Idle q k : k ∉ running q -> k ∉ pending q -> status_of q k = Idle.
Proof.
  intros Hr Hp. unfold status_of.
  by rewrite (proj2 (set_has_false _ _) Hr), (proj2 (set_has_false _ _) Hp).
Qed.

Lemma elem_of_splice_insert i (x k : string) l :
  k ∈ splice_insert i x l <-> k = x \/ k ∈ l.
Proof.
  unfold splice_insert. rewrite <- (take_drop i l) at 3. rewrite !elem_of_app, elem_of_cons.
  naive_solver.
Qed.

Lemma enqueue_queued_pending key opts p l q k :
  wf q -> key ∈ pending q ->
  k ∈ pending (enqueue_queued key opts p l q).2 <-> k ∈ pending q.
Proof.
  intros Hwf Hk. unfold enqueue_queued. destruct (_ && _); [|done]. simpl.
  destruct (indexOf key (pending q)) as [i|] eqn:Hi; rewrite elem_of_splice_insert.
  - rewrite (delete_indexOf _ _ _ (wf_pending q Hwf) Hi), elem_of_set_remove.
    destruct (decide (k = key)); naive_solver.
  - naive_solver.
Qed.

Lemma enqueue_new_pending key opts p l q k :
  k ∈ pending (enqueue_new key opts p l q).2 <-> k = key \/ k ∈ pending q.
Proof.
  unfold enqueue_new. simpl. destruct (opt_promote opts).
  - apply elem_of_splice_insert.
  - rewrite elem_of_app, list_elem_of_singleton. tauto.
Qed.

Lemma enqueue_refines taskId opts q :
  wf q -> abstract_step (OEnqueue taskId opts) (status_of q) (status_of (enqueue taskId opts q).2).
Proof.
  intros Hwf k. unfold enqueue.
  destruct (String.eqb (trim taskId) "") eqn:E; reflect_bools; simpl.
  { case_decide as Hd; [|done]. destruct Hd as [-> ?]. done. }
  set (key := trim taskId) in *. clearbody key.
  destruct (set_has key (running q)) eqn:Hr;
    [apply set_has_true in Hr | apply set_has_false in Hr;
     case_bool_decide as Hq; rewrite (wf_queued q Hwf), elem_of_list_to_set in Hq].
  - case_decide as Hd.
    + destruct Hd as [-> _]. rewrite !status_of_Running by done. simpl.
      rewrite (proj2 (set_has_true key (set_add key (dirty q)))) by (rewrite elem_of_set_add; auto).
      by destruct (set_has key (dirty q)).
    + apply status_of_ext; try done. simpl. rewrite elem_of_set_add. naive_solver.
  - assert (status_of (enqueue_queued key opts
       match opt_priority opts with Some p => p | None => default P2 (priorities q !! key) end
       (strongerLane (lanes q !! key) (opt_lane opts)) q).2 k = status_of q k) as ->.
    { apply status_of_ext; [| |by apply enqueue_queued_pending];
        unfold enqueue_queued; destruct (_ && _); done. }
    case_decide as Hd; [|done]. destruct Hd as [-> _]. by rewrite status_of_Pending.
  - case_decide as Hd.
    + destruct Hd as [-> _]. rewrite (status_of_Idle q key) by done.
      unfold status_of. rewrite (proj2 (set_has_false key (running _))) by done.
      rewrite (proj2 (set_has_true _ _)); [done|]. rewrite enqueue_new_pending. auto.
    + apply status_of_ext; try done. rewrite enqueue_new_pending. naive_solver.
Qed.

Lemma take_refines isReady isForeground q :
  wf q -> abstract_step (OTake isReady isForeground) (status_of q)
            (status_of (take isReady isForeground q).2).
Proof.
  intros Hwf. destruct (take isReady isForeground q) as [[t|] q'] eqn:Ht; simpl.
  2:{ apply take_None in Ht as [-> _]. by left. }
  destruct (take_Some _ _ q t q' Hwf Ht) as [Hp ->].
  destruct (peek_eligible _ _ _ _ Hp) as [Hin _]. simpl in Hin.
  right. exists t. split; [by apply status_of_Pending|]. intros k. case_decide as Hk.
  - subst k. rewrite status_of_Running by (simpl; set_solver). simpl.
    rewrite (proj2 (set_has_false _ _)); [done|].
    intros ?%(wf_dirty q Hwf). by apply (wf_disjoint q Hwf t Hin).
  - apply status_of_ext; simpl; [set_solver | done |]. rewrite elem_of_set_remove. tauto.
Qed.

Lemma complete_refines taskId q :
  wf q -> abstract_step (OComplete taskId) (status_of q) (status_of (complete taskId q).2).
Proof.
  intros Hwf k. destruct (decide (taskId ∈ running q)) as [Hr|Hr].
  2:{ unfold complete. rewrite (proj2 (set_has_false _ _) Hr). simpl.
      case_decide; [|done]. subst k. unfold status_of.
      rewrite (proj2 (set_has_false _ _) Hr). by destruct (set_has taskId (pending q)). }
  assert (taskId ∉ pending q) as Hnp.
  { intros Hp. by apply (wf_disjoint q Hwf taskId Hp). }
  destruct (decide (taskId ∈ dirty q)) as [Hd|Hd].
  - destruct (complete_dirty taskId q Hwf Hd) as (p & l & -> & _). cbn [snd]. case_decide as Hk.
    + subst k. rewrite (status_of_Running q taskId), (proj2 (set_has_true _ _) Hd) by done.
      unfold status_of.
      rewrite (proj2 (set_has_false taskId (running _)))
        by (simpl; rewrite elem_of_set_remove; tauto).
      rewrite (proj2 (set_has_true _ _)); [done|]. rewrite enqueue_new_pending. auto.
    + apply status_of_ext; try (simpl; rewrite elem_of_set_remove; tauto).
      rewrite enqueue_new_pending. simpl. naive_solver.
  - rewrite complete_clean by done. simpl. case_decide as Hk.
    + subst k. rewrite (status_of_Running q taskId), (proj2 (set_has_false _ _) Hd) by done. simpl.
      apply status_of_Idle; simpl; [rewrite elem_of_set_remove; tauto | done].
    + apply status_of_ext; simpl; try done. rewrite elem_of_set_remove. tauto.
Qed.

Lemma run_op_refines o q :
  wf q -> abstract_step o (status_of q) (status_of (run_op o q)).
Proof.
  intros Hwf. destruct o; simpl run_op.
  - by apply enqueue_refines.
  - by apply take_refines.
  - by apply complete_refines.
  - intros k. unfold updateMaxConcurrent. by destruct (validateMaxConcurrent _).
Qed.

(** ** Concurrency *)

Definition background_running (q : queue) : Z :=
  Z.of_nat (length (running q)) - Z.of_nat (size (foregroundRunning q)).

Definition is_update (o : op) : bool := match o with OUpdate _ => true | _ => false end.

Lemma enqueue_fields taskId opts q :
  let q' := (enqueue taskId opts q).2 in
  running q' = running q /\ foregroundRunning q' = foregroundRunning q /\
  concurrency q' = concurrency q.
Proof.
  unfold enqueue. destruct (String.eqb _ _); [done|]. simpl.
  destruct (set_has _ _); [done|]. destruct (bool_decide _); [|done].
  unfold enqueue_queued. by destruct (_ && _).
Qed.

Lemma take_background isReady isForeground q :
  wf q -> background_running q <= concurrency q ->
  let q' := (take isReady isForeground q).2 in
  background_running q' <= concurrency q' /\ concurrency q' = concurrency q.
Proof.
  intros Hwf Hb. destruct (take isReady isForeground q) as [[t|] q'] eqn:Ht; simpl.
  2:{ by apply take_None in Ht as [-> _]. }
  destruct (take_Some _ _ q t q' Hwf Ht) as [Hp ->].
  destruct (peek_eligible _ _ _ _ Hp) as [Hin He]. split; [|done].
  unfold background_running, eligible, slot_full in *. simpl in *.
  rewrite length_app. simpl. destruct (isForeground t); reflect_bools; [|lia].
  rewrite size_union, size_singleton; [lia|].
  intros x ->%elem_of_singleton ?%(wf_foreground q Hwf). by apply (wf_disjoint q Hwf t Hin).
Qed.

Lemma size_remove_fg (X : gset string) k : (size X <= S (size (X ∖ {[k]})))%nat.
Proof.
  destruct (decide (k ∈ X)) as [Hk|Hk].
  - rewrite size_difference, size_singleton by set_solver. lia.
  - replace (X ∖ {[k]}) with X by set_solver. lia.
Qed.

Lemma complete_background k q :
  wf q -> background_running q <= concurrency q ->
  let q' := (complete k q).2 in
  background_running q' <= concurrency q' /\ concurrency q' = concurrency q.
Proof.
  intros Hwf Hb. destruct (decide (k ∈ running q)) as [Hr|Hr].
  2:{ unfold complete. by rewrite (proj2 (set_has_false _ _) Hr). }
  pose proof (length_set_remove k (running q) (wf_running q Hwf) Hr).
  pose proof (size_remove_fg (foregroundRunning q) k).
  destruct (decide (k ∈ dirty q)) as [Hd|Hd].
  - destruct (complete_dirty k q Hwf Hd) as (p & l & -> & _).
    unfold background_running in *. simpl. lia.
  - rewrite complete_clean by done. unfold background_running in *. simpl. lia.
Qed.

Lemma run_op_background o q :
  wf q -> is_update o = false -> background_running q <= concurrency q ->
  background_running (run_op o q) <= concurrency (run_op o q) /\
  concurrency (run_op o q) = concurrency q.
Proof.
  intros Hwf Ho Hb. destruct o as [taskId opts| |taskId|n]; simpl run_op; [| | |done].
  - destruct (enqueue_fields taskId opts q) as (H1 & H2 & H3). unfold background_running.
    by rewrite H1, H2, H3.
  - by apply take_background.
  - by apply complete_background.
Qed.

Definition run_ops (ops : list op) (q : queue) : queue := foldl (fun q o => run_op o q) q ops.

Lemma queue_reachable_run_ops ops q : reachable q -> reachable (run_ops ops q).
Proof.
  revert q. induction ops as [|o ops IH]; intros q Hq; [done|].
  apply IH. by constructor.
Qed.

Lemma run_ops_background ops q :
  wf q -> forallb (fun o => negb (is_update o)) ops = true ->
  background_running q <= concurrency q ->
  background_running (run_ops ops q) <= concurrency q /\ wf (run_ops ops q).
Proof.
  revert q. induction ops as [|o ops IH]; intros q Hwf Hops Hb; [done|].
  simpl in Hops. reflect_bools. unfold run_ops. simpl. fold (run_ops ops (run_op o q)).
  destruct (run_op_background o q) as [Hb' Hc]; auto. rewrite <- Hc.
  apply IH; auto using queue_run_op_wf.
Qed.

(** ** Lanes *)

Lemma strongerLane_human_l o : strongerLane (Some human) o = human.
Proof. by destruct o as [[]|]. Qed.

Lemma enqueue_lanes taskId opts q k :
  lanes q !! k = Some human -> lanes (enqueue taskId opts q).2 !! k = Some human.
Proof.
  intros Hk. unfold enqueue. destruct (String.eqb _ _); [done|]. simpl.
  assert (forall x, <[x := strongerLane (lanes q !! x) (opt_lane opts)]> (lanes q) !! k
    = Some human) as Hins.
  { intros x. rewrite lookup_insert. case_decide; [|done]. subst.
    by rewrite Hk, strongerLane_human_l. }
  destruct (set_has _ _); [done|]. destruct (bool_decide _); [|apply Hins].
  unfold enqueue_queued. destruct (_ && _); apply Hins.
Qed.

Lemma run_op_lanes o q k :
  wf q -> lanes q !! k = Some human ->
  (o = OComplete k -> k ∈ dirty q) -> lanes (run_op o q) !! k = Some human.
Proof.
  intros Hwf Hk Ho. destruct o as [taskId opts|isReady isForeground|taskId|n]; simpl run_op.
  - by apply enqueue_lanes.
  - destruct (take isReady isForeground q) as [[t|] q'] eqn:Ht.
    + destruct (take_Some _ _ q t q' Hwf Ht) as [_ ->]. done.
    + by apply take_None in Ht as [-> _].
  - destruct (decide (taskId ∈ running q)) as [Hr|Hr].
    2:{ unfold complete. by rewrite (proj2 (set_has_false _ _) Hr). }
    destruct (decide (taskId ∈ dirty q)) as [Hd|Hd].
    + destruct (complete_dirty taskId q Hwf Hd) as (p & l & -> & ->). simpl.
      rewrite lookup_insert. case_decide; [|done]. subst. by rewrite Hk, strongerLane_human_l.
    + rewrite complete_clean by done. simpl. rewrite lookup_delete_ne; [done|]. naive_solver.
  - unfold updateMaxConcurrent. by destruct (validateMaxConcurrent n).
Qed.

(** ** Properties *)

(** Every queue built by the constructor and any sequence of [enqueue],
    [take], [complete] and [updateMaxConcurrent] calls is well formed: no task
    is pending twice, no task is both pending and running, promoted tasks are
    the head of the pending list, at most one foreground task runs, dirty tasks
    are running, and priorities and lanes are kept exactly for the tasks held. *)
Theorem queue_well_formed q : reachable q -> wf q.
Proof. apply reachable_queue_wf. Qed.

(** C35. The queue refines the level-triggered work queue of its class comment:
    repeated wakes of a pending task collapse, a wake during a pass owes exactly
    one fresh pass, [take] starts one pending task, and completing a task makes
    it idle or, when a wake arrived during the pass, pending again. *)
Theorem queue_refines_work_queue o q :
  reachable q -> abstract_step o (status_of q) (status_of (run_op o q)).
Proof. intros Hq%reachable_queue_wf. by apply run_op_refines. Qed.

(** [peek] returns nothing exactly when no pending task is ready with a free
    slot; otherwise it returns the earliest pending task of the best rank
    (foreground, then human lane, then priority), promoted tasks first among
    equal ranks. *)
Theorem peek_selects_first_best isReady isForeground q :
  match peek isReady isForeground q with
  | None => forall k, k ∈ pending q -> eligible isReady isForeground q k = false
  | Some s =>
      s = selection_of isForeground q (sel_taskId s) /\
      best_of isReady isForeground q (pending q) (sel_taskId s)
  end.
Proof.
  destruct (peek isReady isForeground q) as [s|] eqn:Hp.
  - by apply peek_Some.
  - by apply peek_None.
Qed.

(** However wakes, dispatches and completions interleave, a queue created
    with limit [c] never has more than [c] background tasks running, and never
    more than one foreground task beside them. *)
Theorem queue_concurrency_bounded n q ops :
  newQueue n = Ok q -> forallb (fun o => negb (is_update o)) ops = true ->
  background_running (run_ops ops q) <= concurrency q /\
  (size (foregroundRunning (run_ops ops q)) <= 1)%nat.
Proof.
  intros Hq Hops. pose proof (newQueue_wf n q Hq) as Hwf.
  destruct (run_ops_background ops q Hwf Hops) as [Hb Hw].
  - unfold newQueue in Hq. destruct (validateMaxConcurrent n) eqn:E; [|done].
    apply validateMaxConcurrent_pos in E. injection Hq as <-. unfold background_running.
    cbn [running foregroundRunning concurrency length]. rewrite size_empty. lia.
  - split; [done | apply Hw].
Qed.

(** A task that has entered the human lane keeps it through every later
    wake, dispatch and completion, until it completes with no wake owed. *)
Theorem human_lane_is_sticky o q k :
  reachable q -> lanes q !! k = Some human ->
  (o = OComplete k -> k ∈ dirty q) -> lanes (run_op o q) !! k = Some human.
Proof. intros Hq%reachable_queue_wf. by apply run_op_lanes. Qed.

(** [enqueue] throws exactly on a blank id and [complete] exactly on a task
    that is not running (in particular re-queueing a dirty task never throws);
    a call that throws leaves the queue as it was. *)
Lemma queue_error_paths taskId opts q :
  reachable q ->
  (is_ok (enqueue taskId opts q).1 = nonblank taskId) /\
  (is_ok (enqueue taskId opts q).1 = false -> (enqueue taskId opts q).2 = q) /\
  (is_ok (complete taskId q).1 = set_has taskId (running q)) /\
  (is_ok (complete taskId q).1 = false -> (complete taskId q).2 = q).
Proof.
  intros Hq%reachable_queue_wf. unfold nonblank.
  assert (is_ok (complete taskId q).1 = set_has taskId (running q)) as Hc.
  { destruct (set_has taskId (running q)) eqn:Hr; [|unfold complete; by rewrite Hr].
    apply set_has_true in Hr. destruct (decide (taskId ∈ dirty q)) as [Hd|Hd].
    - by destruct (complete_dirty taskId q Hq Hd) as (p & l & -> & _).
    - by rewrite complete_clean. }
  split_ands; [| |done|].
  - unfold enqueue. by destruct (String.eqb (trim taskId) "").
  - unfold enqueue. by destruct (String.eqb (trim taskId) "").
  - rewrite Hc. intros Hr. unfold complete. by rewrite Hr.
Qed.

(** ** Witnesses *)

(** A queue of limit 1 with a foreground task running and woken again, and two
    background tasks pending, the second promoted. *)
Definition sample_ops : list op :=
  [OEnqueue " chat " (Options false (Some P1) (Some human));
   OTake (fun _ => true) (fun k => String.eqb k "chat");
   OEnqueue "chat" no_options;
   OEnqueue "batch" no_options;
   OEnqueue "fresh" (Options true (Some P0) None)].

Definition empty_queue (c : Z) : queue := mkQueue [] ∅ ∅ [] ∅ [] ∅ ∅ ∅ ∅ ∅ c.

Definition sample_queue : queue := run_ops sample_ops (empty_queue 1).

Lemma sample_queue_reachable : reachable sample_queue.
Proof.
  apply queue_reachable_run_ops, (reach_new (num 1)). reflexivity.
Qed.

Lemma queue_well_formed_witness : reachable sample_queue /\ wf sample_queue.
Proof.
  split; [exact sample_queue_reachable|]. apply queue_well_formed, sample_queue_reachable.
Defined.

Lemma queue_refines_work_queue_witness :
  status_of sample_queue "chat" = RunningDirty /\
  status_of (run_op (OComplete "chat") sample_queue) "chat" = Pending.
Proof.
  split; [vm_compute; reflexivity|].
  pose proof (queue_refines_work_queue (OComplete "chat") sample_queue sample_queue_reachable "chat")
    as H.
  rewrite H. vm_compute. reflexivity.
Defined.

Lemma queue_concurrency_bounded_witness :
  background_running (run_ops (sample_ops ++ [OTake (fun _ => true) (fun _ => false);
    OTake (fun _ => true) (fun _ => false)]) (empty_queue 1)) <= 1.
Proof.
  apply (queue_concurrency_bounded (num 1) (empty_queue 1)); vm_compute; reflexivity.
Defined.

Lemma human_lane_is_sticky_witness :
  lanes (run_op (OComplete "chat") sample_queue) !! "chat" = Some human.
Proof.
  apply human_lane_is_sticky.
  - exact sample_queue_reachable.
  - vm_compute. reflexivity.
  - intros _. apply (bool_decide_eq_true_1 _). vm_compute. reflexivity.
Defined.

Lemma queue_error_paths_witness : is_ok (complete "batch" sample_queue).1 = false.
Proof.
  destruct (queue_error_paths "batch" no_options sample_queue sample_queue_reachable)
    as (_ & _ & H & _).
  rewrite H. vm_compute. reflexivity.
Defined.

End AppTaskQueue.
