(* ===== verification/HostCapacity.v ===== *)
(** * Host capacity

    [src/app/core/scheduling/host-capacity.ts]: the one limit App request owners
    and task attempts share.  The class hands out closures: a release handle has
    a [released] flag, a cancellable acquisition has the flags [active] and
    [reservedRelease] of its closure.  They are objects of an explicit store,
    named by numbers; the [setTimeout(..., 0)] callbacks that are armed are a
    list, and [outs] records the handles given to callers, oldest first. *)
From S2P Require Import Prelude.

Module HostCapacity.

(** ** Data *)

(** How a waiter is told: a resolved promise, or the callback of a cancellable
    acquisition. *)
Inductive waiterKind : Type := Promise | Cancellable.

#[export] Instance waiterKind_eq_dec : EqDecision waiterKind.
Proof. solve_decision. Defined.

(** [CapacityWaiter]. *)
Record waiter : Type := Waiter {
  w_active : bool;
  w_foreground : bool;
  w_kind : waiterKind
}.

(** The closure [releaseHandle] returns. *)
Record handle : Type := Handle {
  h_foreground : bool;
  h_released : bool
}.

(** The variables [active] and [reservedRelease] of [acquireCancellableLane]. *)
Record cell : Type := Cell {
  c_active : bool;
  c_reserved : option nat
}.

Record capacity : Type := mkCapacity {
  limit : Z;
  backgroundLimit : Z;
  running : Z;
  backgroundRunning : Z;
  waiters : list nat;
  waiterOf : gmap nat waiter;
  cells : gmap nat cell;
  handles : gmap nat handle;
  timeouts : list (nat * nat);
  outs : list (option nat * nat);
  nextId : nat
}.

(** ** Field updates *)

Definition set_counts (r b : Z) (c : capacity) : capacity :=
  mkCapacity (limit c) (backgroundLimit c) r b (waiters c) (waiterOf c) (cells c)
    (handles c) (timeouts c) (outs c) (nextId c).
Definition set_waiters (l : list nat) (c : capacity) : capacity :=
  mkCapacity (limit c) (backgroundLimit c) (running c) (backgroundRunning c) l (waiterOf c)
    (cells c) (handles c) (timeouts c) (outs c) (nextId c).
Definition put_waiter (w : nat) (x : waiter) (c : capacity) : capacity :=
  mkCapacity (limit c) (backgroundLimit c) (running c) (backgroundRunning c) (waiters c)
    (<[w := x]> (waiterOf c)) (cells c) (handles c) (timeouts c) (outs c) (nextId c).
Definition put_cell (w : nat) (x : cell) (c : capacity) : capacity :=
  mkCapacity (limit c) (backgroundLimit c) (running c) (backgroundRunning c) (waiters c)
    (waiterOf c) (<[w := x]> (cells c)) (handles c) (timeouts c) (outs c) (nextId c).
Definition put_handle (h : nat) (x : handle) (c : capacity) : capacity :=
  mkCapacity (limit c) (backgroundLimit c) (running c) (backgroundRunning c) (waiters c)
    (waiterOf c) (cells c) (<[h := x]> (handles c)) (timeouts c) (outs c) (nextId c).
Definition set_timeouts (l : list (nat * nat)) (c : capacity) : capacity :=
  mkCapacity (limit c) (backgroundLimit c) (running c) (backgroundRunning c) (waiters c)
    (waiterOf c) (cells c) (handles c) l (outs c) (nextId c).
Definition give (w : option nat) (h : nat) (c : capacity) : capacity :=
  mkCapacity (limit c) (backgroundLimit c) (running c) (backgroundRunning c) (waiters c)
    (waiterOf c) (cells c) (handles c) (timeouts c) (outs c ++ [(w, h)]) (nextId c).
Definition fresh_id (c : capacity) : nat * capacity :=
  (nextId c,
   mkCapacity (limit c) (backgroundLimit c) (running c) (backgroundRunning c) (waiters c)
     (waiterOf c) (cells c) (handles c) (timeouts c) (outs c) (S (nextId c))).

(** ** Operations *)

Definition newCapacity (maxConcurrent : number) : res capacity :=
  if negb (isInteger maxConcurrent) || number_ltb maxConcurrent (num 1)
  then Throw "HostCapacity maxConcurrent must be a positive integer"
  else
    let n := number_to_Z maxConcurrent in
    Ok (mkCapacity n (Z.max 1 (n - 1)) 0 0 [] ∅ ∅ ∅ [] [] 0).

(** [releaseHandle]: a new closure whose [released] flag is false. *)
Definition releaseHandle (foreground : bool) (c : capacity) : nat * capacity :=
  let (h, c) := fresh_id c in (h, put_handle h (Handle foreground false) c).

(** Count one more holder and make its handle: the common part of the two
    [tryAcquire] methods and of the loop of [drainWaiters]. *)
Definition occupy (foreground : bool) (c : capacity) : nat * capacity :=
  releaseHandle foreground
    (set_counts (running c + 1) (backgroundRunning c + if foreground then 0 else 1) c).

Definition tryAcquire (c : capacity) : option nat * capacity :=
  if (limit c <=? running c) || (backgroundLimit c <=? backgroundRunning c) then (None, c)
  else let (h, c) := occupy false c in (Some h, c).

Definition tryAcquireForeground (c : capacity) : option nat * capacity :=
  if limit c <=? running c then (None, c)
  else let (h, c) := occupy true c in (Some h, c).

Definition tryAcquireLane (foreground : bool) (c : capacity) : option nat * capacity :=
  if foreground then tryAcquireForeground c else tryAcquire c.

(** [waiter.grant(release)]: a promise resolves; a cancellable acquisition
    reserves the handle and arms its timeout. *)
Definition grant (w h : nat) (c : capacity) : capacity :=
  match waiterOf c !! w with
  | Some (Waiter _ _ Cancellable) =>
      let c :=
        match cells c !! w with
        | Some x => put_cell w (Cell (c_active x) (Some h)) c
        | None => c
        end in
      set_timeouts (timeouts c ++ [(w, h)]) c
  | _ => give (Some w) h c
  end.

(** [acquire] and [acquireForeground]: a handle at once, or a queued promise. *)
Definition acquireLane (foreground : bool) (c : capacity) : (nat + nat) * capacity :=
  match tryAcquireLane foreground c with
  | (Some h, c) => (inl h, give None h c)
  | (None, c) =>
      let (w, c) := fresh_id c in
      (inr w, set_waiters (waiters c ++ [w]) (put_waiter w (Waiter true foreground Promise) c))
  end.

Definition acquire : capacity -> (nat + nat) * capacity := acquireLane false.
Definition acquireForeground : capacity -> (nat + nat) * capacity := acquireLane true.

(** A caller's own [tryAcquire] call: the handle is given to it. *)
Definition callTry (foreground : bool) (c : capacity) : option nat * capacity :=
  match tryAcquireLane foreground c with
  | (Some h, c) => (Some h, give None h c)
  | (None, c) => (None, c)
  end.

Definition acquireCancellableLane (foreground : bool) (c : capacity) : nat * capacity :=
  let (w, c) := fresh_id c in
  let c := put_cell w (Cell true None) (put_waiter w (Waiter true foreground Cancellable) c) in
  match tryAcquireLane foreground c with
  | (Some h, c) => (w, grant w h c)
  | (None, c) => (w, set_waiters (waiters c ++ [w]) c)
  end.

(** The first active waiter of a lane. *)
Definition wants (foreground : bool) (c : capacity) (w : nat) : Prop :=
  match waiterOf c !! w with
  | Some x => w_active x = true /\ w_foreground x = foreground
  | None => False
  end.

#[export] Instance wants_dec foreground c w : Decision (wants foreground c w).
Proof. unfold wants. destruct (waiterOf c !! w); apply _. Defined.

Definition findWaiter (foreground : bool) (c : capacity) : option (nat * nat) :=
  list_find (wants foreground c) (waiters c).

Definition nextWaiter (c : capacity) : option (nat * nat) :=
  match findWaiter true c with
  | Some x => Some x
  | None =>
      if backgroundRunning c <? backgroundLimit c then findWaiter false c else None
  end.

(** The body of the loop of [drainWaiters] for the waiter [w] at [index]. *)
Definition serve (index w : nat) (c : capacity) : capacity :=
  let c := set_waiters (delete index (waiters c)) c in
  match waiterOf c !! w with
  | None => c
  | Some next =>
      if negb (w_active next) then c else
      let c := put_waiter w (Waiter false (w_foreground next) (w_kind next)) c in
      let (h, c) := occupy (w_foreground next) c in
      grant w h c
  end.

(** [drainWaiters]; each turn of the loop drops one waiter, so the number of
    waiters bounds the turns. *)
Fixpoint drainLoop (fuel : nat) (c : capacity) : capacity :=
  match fuel with
  | O => c
  | S fuel =>
      if limit c <=? running c then c else
      match nextWaiter c with
      | None => c
      | Some (index, w) => drainLoop fuel (serve index w c)
      end
  end.

Definition drainWaiters (c : capacity) : capacity := drainLoop (length (waiters c)) c.

(** A call of a release closure. *)
Definition release (h : nat) (c : capacity) : capacity :=
  match handles c !! h with
  | None => c
  | Some x =>
      if h_released x then c else
      let c := put_handle h (Handle (h_foreground x) true) c in
      drainWaiters
        (set_counts (running c - 1) (backgroundRunning c - if h_foreground x then 0 else 1) c)
  end.

(** [reservedRelease?.(); reservedRelease = undefined]. *)
Definition releaseReserved (w : nat) (c : capacity) : capacity :=
  match cells c !! w with
  | Some (Cell a (Some h)) =>
      let c := release h c in
      match cells c !! w with
      | Some x => put_cell w (Cell (c_active x) None) c
      | None => c
      end
  | _ => c
  end.

(** The armed timeout at position [i] fires. *)
Definition fireTimeout (i : nat) (c : capacity) : capacity :=
  match timeouts c !! i with
  | None => c
  | Some (w, h) =>
      let c := set_timeouts (delete i (timeouts c)) c in
      match cells c !! w with
      | None => c
      | Some x =>
          if negb (c_active x) then releaseReserved w c
          else give (Some w) h (put_cell w (Cell false None) c)
      end
  end.

(** The canceller a cancellable acquisition returns. *)
Definition cancel (w : nat) (c : capacity) : capacity :=
  match cells c !! w with
  | None => c
  | Some x =>
      if negb (c_active x) then c else
      let c := put_cell w (Cell false (c_reserved x)) c in
      let c :=
        match waiterOf c !! w with
        | Some y =>
            if w_active y then
              let c := put_waiter w (Waiter false (w_foreground y) (w_kind y)) c in
              match list_find (fun v => v = w) (waiters c) with
              | Some (index, _) => set_waiters (delete index (waiters c)) c
              | None => c
              end
            else c
        | None => c
        end in
      releaseReserved w c
  end.

Definition snapshot (c : capacity) : Z * nat := (running c, length (waiters c)).

(** [run] and [runForeground]: acquire before the work, and release its handle
    in the [finally] clause whatever the work did. *)
Definition runStart (foreground : bool) (c : capacity) : (nat + nat) * capacity :=
  acquireLane foreground c.
Definition runFinish {A} (h : nat) (outcome : res A) (c : capacity) : res A * capacity :=
  (outcome, release h c).

(** ** Counting held handles *)

Definition held (x : nat * handle) : Prop := h_released x.2 = false.
Definition held_background (x : nat * handle) : Prop :=
  h_released x.2 = false /\ h_foreground x.2 = false.

#[export] Instance held_dec x : Decision (held x).
Proof. unfold held. apply _. Defined.
#[export] Instance held_background_dec x : Decision (held_background x).
Proof. unfold held_background. apply _. Defined.

Definition count_held (m : gmap nat handle) : Z := Z.of_nat (size (filter held m)).
Definition count_background (m : gmap nat handle) : Z :=
  Z.of_nat (size (filter held_background m)).

Lemma size_filter_new (P : nat * handle -> Prop) `{forall x, Decision (P x)}
    (m : gmap nat handle) h x :
  m !! h = None ->
  Z.of_nat (size (filter P (<[h := x]> m))) =
  Z.of_nat (size (filter P m)) + if decide (P (h, x)) then 1 else 0.
Proof.
  intros Hm. case_decide.
  - rewrite map_filter_insert_True by done. rewrite map_size_insert_None; [lia|].
    by apply map_lookup_filter_None_2; left.
  - rewrite map_filter_insert_not' by naive_solver. lia.
Qed.

Lemma size_filter_drop (P : nat * handle -> Prop) `{forall x, Decision (P x)}
    (m : gmap nat handle) h x y :
  m !! h = Some x -> (~ P (h, y)) ->
  Z.of_nat (size (filter P (<[h := y]> m))) =
  Z.of_nat (size (filter P m)) - if decide (P (h, x)) then 1 else 0.
Proof.
  intros Hm Hy. rewrite map_filter_insert_False by done. rewrite map_filter_delete.
  case_decide as Hx.
  - assert (filter P m !! h = Some x) as Hf by (by apply map_lookup_filter_Some).
    rewrite map_size_delete, Hf.
    assert (size (filter P m) <> 0%nat) as Hne.
    { intros E. apply map_size_empty_inv in E. rewrite E in Hf. done. }
    simpl. lia.
  - rewrite delete_id; [lia|]. apply map_lookup_filter_None_2. right. naive_solver.
Qed.

Lemma count_held_new (m : gmap nat handle) h f :
  m !! h = None -> count_held (<[h := Handle f false]> m) = count_held m + 1.
Proof. intros Hm. unfold count_held. by rewrite size_filter_new. Qed.

Lemma count_background_new (m : gmap nat handle) h f :
  m !! h = None ->
  count_background (<[h := Handle f false]> m) = count_background m + if f then 0 else 1.
Proof.
  intros Hm. unfold count_background. rewrite size_filter_new by done.
  unfold held_background. simpl. destruct f; case_decide; naive_solver lia.
Qed.

Lemma count_held_release (m : gmap nat handle) h f :
  m !! h = Some (Handle f false) -> count_held (<[h := Handle f true]> m) = count_held m - 1.
Proof. intros Hm. unfold count_held. by rewrite (size_filter_drop held m h _ _ Hm). Qed.

Lemma count_background_release (m : gmap nat handle) h f :
  m !! h = Some (Handle f false) ->
  count_background (<[h := Handle f true]> m) = count_background m - if f then 0 else 1.
Proof.
  intros Hm. unfold count_background.
  rewrite (size_filter_drop held_background m h _ _ Hm) by (unfold held_background; naive_solver).
  unfold held_background. simpl. destruct f; case_decide; naive_solver lia.
Qed.

(** ** Invariant *)

(** Who holds a handle: a caller, or a reservation whose timeout is armed. *)
Definition owned (c : capacity) (h : nat) : Prop :=
  (exists o, (o, h) ∈ outs c) \/
  (exists w y, (w, h) ∈ timeouts c /\ cells c !! w = Some y /\
     c_active y = true /\ c_reserved y = Some h).

Definition waiting_cell (c : capacity) (w : nat) (x : waiter) : Prop :=
  w_kind x = Cancellable -> cells c !! w = Some (Cell true None).

(** The state between two calls, except that the handles of [ex] may have no
    owner yet. *)
Record core (ex : nat -> Prop) (c : capacity) : Prop := mkCore {
  core_limit : 1 <= limit c;
  core_blimit : backgroundLimit c = Z.max 1 (limit c - 1);
  core_running : running c = count_held (handles c);
  core_background : backgroundRunning c = count_background (handles c);
  core_running_le : running c <= limit c;
  core_background_le : backgroundRunning c <= backgroundLimit c;
  core_nodup : NoDup (waiters c);
  core_waiters : forall w, w ∈ waiters c -> exists x,
    waiterOf c !! w = Some x /\ w_active x = true /\ waiting_cell c w x;
  core_waiter_ids : forall w, is_Some (waiterOf c !! w) -> (w < nextId c)%nat;
  core_cell_ids : forall w, is_Some (cells c !! w) -> (w < nextId c)%nat;
  core_handle_ids : forall h, is_Some (handles c !! h) -> (h < nextId c)%nat;
  core_owner : forall h x, handles c !! h = Some x -> h_released x = false ->
    (~ ex h) -> owned c h;
  core_timeouts : forall w h, (w, h) ∈ timeouts c -> (w ∉ waiters c) /\
    exists y, cells c !! w = Some y /\ (c_active y = true -> c_reserved y = Some h)
}.

Definition nobody : nat -> Prop := fun _ => False.

(** The condition on which the loop of [drainWaiters] stops. *)
Definition drained (c : capacity) : Prop :=
  limit c <= running c \/ nextWaiter c = None.

Definition inv (c : capacity) : Prop := core nobody c /\ drained c.

Lemma newCapacity_inv n c : newCapacity n = Ok c -> inv c.
Proof.
  unfold newCapacity. destruct n as [q| | |]; simpl; try done.
  destruct (Q_is_int q); simpl; [|done].
  destruct (Qle_bool (inject_Z 1) q) eqn:E; simpl; [|done].
  intros [= <-]. apply Qle_bool_iff, Qround.Qfloor_resp_le in E.
  rewrite Qround.Qfloor_Z in E. split; [|right; unfold nextWaiter; simpl; by case_match].
  constructor; simpl; try done; try lia; try set_solver; try by constructor.
  all: try (intros ? [? Hx]; by rewrite lookup_empty in Hx).
  all: intros ? ? Hx; by rewrite lookup_empty in Hx.
Qed.

(** *** One more holder *)

Lemma occupy_core f c :
  core nobody c -> running c < limit c -> (f = false -> backgroundRunning c < backgroundLimit c) ->
  core (fun h => h = nextId c) (occupy f c).2 /\
  (occupy f c).1 = nextId c /\ handles (occupy f c).2 !! nextId c = Some (Handle f false).
Proof.
  intros Hc Hr Hb.
  assert (handles c !! nextId c = None) as Hnew.
  { destruct (handles c !! nextId c) eqn:E; [|done].
    assert (nextId c < nextId c)%nat; [|lia]. apply (core_handle_ids _ _ Hc). by rewrite E. }
  split_ands; [|done|by simpl; rewrite lookup_insert_eq].
  constructor; simpl; try apply Hc.
  - rewrite count_held_new by done. by rewrite (core_running _ _ Hc).
  - rewrite count_background_new by done. by rewrite (core_background _ _ Hc).
  - lia.
  - destruct f; [|specialize (Hb eq_refl); lia]. pose proof (core_background_le _ _ Hc). lia.
  - intros w Hw%(core_waiter_ids _ _ Hc). lia.
  - intros w Hw%(core_cell_ids _ _ Hc). lia.
  - intros h [x Hx]. rewrite lookup_insert in Hx. case_decide; [lia|].
    assert (h < nextId c)%nat; [|lia]. apply (core_handle_ids _ _ Hc). by rewrite Hx.
  - intros h x Hx Hrel Hne. rewrite lookup_insert_ne in Hx by done.
    exact (core_owner _ _ Hc h x Hx Hrel (fun H => H)).
Qed.

Lemma owned_give c o h h' : owned c h' \/ h' = h -> owned (give o h c) h'.
Proof.
  intros [[[o' Ho]|(w & y & Hw)]| ->]; unfold owned; simpl.
  - left. exists o'. set_solver.
  - right. eauto.
  - left. exists o. set_solver.
Qed.

Lemma give_core ex c o h : core (fun x => x = h \/ ex x) c -> core ex (give o h c).
Proof.
  intros Hc. constructor; simpl; try apply Hc.
  intros h' x Hx Hrel Hex. apply owned_give.
  destruct (decide (h' = h)); [by right|left].
  apply (core_owner _ _ Hc h' x Hx Hrel). naive_solver.
Qed.

(** Granting a handle to a waiter that waits no more. *)
Lemma grant_core c w h x :
  core (fun x => x = h) c -> waiterOf c !! w = Some x -> waiting_cell c w x -> w ∉ waiters c ->
  (forall h', (w, h') ∉ timeouts c) -> core nobody (grant w h c).
Proof.
  intros Hc Hw Hcell Hnw Hnt. unfold grant. rewrite Hw. destruct x as [a f []].
  { apply give_core. destruct Hc. constructor; auto. unfold nobody. naive_solver. }
  rewrite (Hcell eq_refl). simpl. constructor; simpl; try apply Hc.
  - intros v Hv. destruct (core_waiters _ _ Hc v Hv) as (y & ? & ? & Hy).
    exists y. split_ands; auto. intros Hk. simpl. rewrite lookup_insert_ne; [by apply Hy|].
    intros ->. done.
  - intros v [y Hv]. rewrite lookup_insert in Hv. case_decide.
    + subst. apply (core_waiter_ids _ _ Hc). by rewrite Hw.
    + apply (core_cell_ids _ _ Hc). by rewrite Hv.
  - intros h' y Hy Hrel _. destruct (decide (h' = h)) as [->|Hne].
    + right. exists w, (Cell true (Some h)). simpl. rewrite lookup_insert_eq.
      split_ands; auto. set_solver.
    + destruct (core_owner _ _ Hc h' y Hy Hrel Hne) as [Ho|(v & z & Hv & Hz & Ha & Hres)].
      * by left.
      * right. exists v, z. simpl. rewrite lookup_insert_ne; [split_ands; auto; set_solver|].
        intros ->. by apply (Hnt h').
  - intros v h' [Hv|[= -> ->]%list_elem_of_singleton]%elem_of_app.
    + destruct (core_timeouts _ _ Hc v h' Hv) as [? (y & Hy & Hres)]. split; [done|].
      exists y. rewrite lookup_insert_ne; [done|]. intros ->. by apply (Hnt h').
    + split; [done|]. exists (Cell true (Some h)). by rewrite lookup_insert_eq.
Qed.

(** *** Waiters *)

(** Dropping the waiter found at an index removes it from the array. *)
Lemma delete_found (l : list nat) i w :
  NoDup l -> l !! i = Some w ->
  NoDup (delete i l) /\ (forall v, v ∈ delete i l <-> v ∈ l /\ v <> w) /\
  S (length (delete i l)) = length l.
Proof.
  intros Hnd Hi. rewrite delete_take_drop.
  rewrite <- (take_drop_middle l i w Hi) in Hnd.
  assert (forall v, v ∈ l <-> v ∈ take i l ++ w :: drop (S i) l) as Hall.
  { by rewrite (take_drop_middle l i w Hi). }
  apply NoDup_app in Hnd as (H1 & H2 & [H3 H4]%NoDup_cons). split_ands.
  - apply NoDup_app. split_ands; auto. set_solver.
  - intros v. rewrite Hall. set_solver.
  - rewrite <- (take_drop_middle l i w Hi) at 3. rewrite !length_app. simpl. lia.
Qed.

Lemma set_waiters_core ex c l :
  core ex c -> NoDup l -> (forall w, w ∈ l -> w ∈ waiters c) -> core ex (set_waiters l c).
Proof.
  intros Hc Hnd Hl. constructor; simpl; try apply Hc; auto.
  - intros w Hw. exact (core_waiters _ _ Hc w (Hl w Hw)).
  - intros w h Hw. destruct (core_timeouts _ _ Hc w h Hw) as [Hn ?]. auto.
Qed.

Lemma put_waiter_core ex c w x :
  core ex c -> w ∉ waiters c -> (w < nextId c)%nat -> core ex (put_waiter w x c).
Proof.
  intros Hc Hn Hid. constructor; simpl; try apply Hc.
  - intros v Hv. rewrite lookup_insert_ne by (intros ->; done). exact (core_waiters _ _ Hc v Hv).
  - intros v [y Hv]. rewrite lookup_insert in Hv. case_decide; [by subst|].
    apply (core_waiter_ids _ _ Hc). by rewrite Hv.
Qed.

Lemma findWaiter_Some f c i w :
  findWaiter f c = Some (i, w) ->
  waiters c !! i = Some w /\ exists x,
    waiterOf c !! w = Some x /\ w_active x = true /\ w_foreground x = f.
Proof.
  unfold findWaiter. intros (Hi & Hw & _)%list_find_Some. split; [done|].
  unfold wants in Hw. destruct (waiterOf c !! w) as [x|]; [|done]. exists x. tauto.
Qed.

Lemma nextWaiter_Some c i w :
  nextWaiter c = Some (i, w) ->
  waiters c !! i = Some w /\ exists x, waiterOf c !! w = Some x /\ w_active x = true /\
    (w_foreground x = false -> backgroundRunning c < backgroundLimit c).
Proof.
  unfold nextWaiter. destruct (findWaiter true c) as [[j v]|] eqn:E.
  - intros [= -> ->]. apply findWaiter_Some in E as (? & x & ? & ? & Hf).
    split; [done|]. exists x. split_ands; auto. by rewrite Hf.
  - destruct (_ <? _) eqn:Hb; [|done]. intros (? & x & ? & ? & Hf)%findWaiter_Some.
    reflect_bools. split; [done|]. exists x. auto.
Qed.

Lemma serve_eq i w c x :
  waiterOf c !! w = Some x -> w_active x = true ->
  serve i w c = grant w (nextId c)
    (occupy (w_foreground x)
       (put_waiter w (Waiter false (w_foreground x) (w_kind x))
          (set_waiters (delete i (waiters c)) c))).2.
Proof. intros Hx Ha. unfold serve. cbn [set_waiters waiterOf]. by rewrite Hx, Ha. Qed.

Lemma grant_waiters w h c : waiters (grant w h c) = waiters c.
Proof.
  unfold grant. destruct (waiterOf c !! w) as [[? ? []]|]; try done. by destruct (cells c !! w).
Qed.

(** One turn of the loop keeps the state consistent and drops one waiter. *)
Lemma serve_core c i w :
  core nobody c -> running c < limit c -> nextWaiter c = Some (i, w) ->
  core nobody (serve i w c) /\ S (length (waiters (serve i w c))) = length (waiters c).
Proof.
  intros Hc Hr Hn. destruct (nextWaiter_Some c i w Hn) as (Hi & x & Hx & Ha & Hb).
  destruct (delete_found (waiters c) i w (core_nodup _ _ Hc) Hi) as (Hnd & Hmem & Hlen).
  rewrite (serve_eq i w c x Hx Ha).
  set (c1 := set_waiters (delete i (waiters c)) c).
  set (c2 := put_waiter w (Waiter false (w_foreground x) (w_kind x)) c1).
  assert (w ∉ waiters c1) as Hnw by (simpl; rewrite Hmem; tauto).
  assert (core nobody c2) as Hc2.
  { apply put_waiter_core; [|done|].
    - apply set_waiters_core; auto. intros v Hv%Hmem. tauto.
    - apply (core_waiter_ids _ _ Hc). by rewrite Hx. }
  destruct (occupy_core (w_foreground x) c2 Hc2 Hr Hb) as (Hoc & _ & _).
  assert (w ∈ waiters c) as Hwin by (by eapply list_elem_of_lookup_2).
  assert (waiting_cell c w x) as Hcell.
  { destruct (core_waiters _ _ Hc w Hwin) as (x' & Hx' & _ & Hcell).
    rewrite Hx in Hx'. by injection Hx' as <-. }
  split; [|by rewrite grant_waiters].
  apply (grant_core _ w (nextId c) (Waiter false (w_foreground x) (w_kind x))); auto.
  - simpl. by rewrite lookup_insert_eq.
  - intros h' Hh'. by destruct (core_timeouts _ _ Hc w h' Hh') as [? _].
Qed.

Lemma drainLoop_core fuel c : core nobody c -> core nobody (drainLoop fuel c).
Proof.
  revert c. induction fuel as [|fuel IH]; intros c Hc; simpl; [done|].
  destruct (limit c <=? running c) eqn:Hr; [done|]. reflect_bools.
  destruct (nextWaiter c) as [[i w]|] eqn:Hn; [|done].
  apply IH. by apply serve_core.
Qed.

Lemma nextWaiter_nil c : waiters c = [] -> nextWaiter c = None.
Proof.
  intros Hw. unfold nextWaiter, findWaiter. rewrite Hw. simpl. by destruct (_ <? _).
Qed.

(** As many turns as there are waiters run the loop to its end. *)
Lemma drainLoop_drained fuel c :
  core nobody c -> (length (waiters c) <= fuel)%nat -> drained (drainLoop fuel c).
Proof.
  revert c. induction fuel as [|fuel IH]; intros c Hc Hlen; simpl.
  - right. apply nextWaiter_nil. by destruct (waiters c); simpl in *; [|lia].
  - destruct (limit c <=? running c) eqn:Hr; reflect_bools; [by left|].
    destruct (nextWaiter c) as [[i w]|] eqn:Hn; [|by right].
    destruct (serve_core c i w Hc Hr Hn) as [Hc' Hlen']. apply IH; [done|lia].
Qed.

Lemma drainWaiters_inv c : core nobody c -> inv (drainWaiters c).
Proof. intros Hc. split; [by apply drainLoop_core | by apply drainLoop_drained]. Qed.

(** *** Release *)

(** Marking a held handle released and giving its slot back. *)
Definition unhold (h : nat) (f : bool) (c : capacity) : capacity :=
  set_counts (running c - 1) (backgroundRunning c - if f then 0 else 1)
    (put_handle h (Handle f true) c).

Lemma unhold_core ex c h f :
  core (fun x => x = h \/ ex x) c -> handles c !! h = Some (Handle f false) ->
  core ex (unhold h f c).
Proof.
  intros Hc Hh. constructor; simpl; try apply Hc.
  - rewrite (count_held_release _ _ _ Hh). by rewrite (core_running _ _ Hc).
  - rewrite (count_background_release _ _ _ Hh). by rewrite (core_background _ _ Hc).
  - pose proof (core_running_le _ _ Hc). lia.
  - pose proof (core_background_le _ _ Hc). destruct f; lia.
  - intros h' [x Hx]. apply (core_handle_ids _ _ Hc). rewrite lookup_insert in Hx.
    case_decide; [by subst; rewrite Hh | by rewrite Hx].
  - intros h' x Hx Hrel Hex. rewrite lookup_insert in Hx. case_decide; [by injection Hx as <-|].
    apply (core_owner _ _ Hc h' x Hx Hrel). naive_solver.
Qed.

Lemma release_unfold h c f :
  handles c !! h = Some (Handle f false) -> release h c = drainWaiters (unhold h f c).
Proof. intros Hh. unfold release. by rewrite Hh. Qed.

Lemma core_weaken ex ex' c : (forall h, ex h -> ex' h) -> core ex c -> core ex' c.
Proof.
  intros Hex Hc. constructor; try apply Hc.
  intros h x Hx Hrel Hne. apply (core_owner _ _ Hc h x Hx Hrel). auto.
Qed.

(** A release re-establishes the invariant even when only its handle had no
    owner. *)
Lemma release_core h c :
  core (fun x => x = h) c -> drained c -> inv (release h c).
Proof.
  intros Hc Hd. destruct (handles c !! h) as [[f r]|] eqn:Hh.
  - destruct r.
    + unfold release. rewrite Hh. simpl. split; [|done].
      constructor; try apply Hc. intros h' x Hx Hrel _. apply (core_owner _ _ Hc h' x Hx Hrel).
      intros ->. rewrite Hh in Hx. by injection Hx as <-.
    + rewrite (release_unfold h c f Hh). apply drainWaiters_inv, unhold_core; [|done].
      apply (core_weaken (fun x => x = h)); auto.
  - unfold release. rewrite Hh. split; [|done]. constructor; try apply Hc.
    intros h' x Hx Hrel _. apply (core_owner _ _ Hc h' x Hx Hrel).
    intros ->. by rewrite Hh in Hx.
Qed.

Lemma release_inv h c : inv c -> inv (release h c).
Proof.
  intros [Hc Hd]. apply release_core; [|done]. apply (core_weaken nobody); [|done].
  unfold nobody. tauto.
Qed.

(** *** Reservations *)

Lemma drainLoop_cells fuel c w :
  core nobody c -> w ∉ waiters c ->
  cells (drainLoop fuel c) !! w = cells c !! w /\ w ∉ waiters (drainLoop fuel c).
Proof.
  revert c. induction fuel as [|fuel IH]; intros c Hc Hw; simpl; [done|].
  destruct (limit c <=? running c) eqn:Hr; [done|]. reflect_bools.
  destruct (nextWaiter c) as [[i v]|] eqn:Hn; [|done].
  destruct (serve_core c i v Hc Hr Hn) as [Hc' _].
  destruct (nextWaiter_Some c i v Hn) as (Hi & x & Hx & Ha & _).
  assert (v <> w) as Hne by (intros ->; apply Hw; by eapply list_elem_of_lookup_2).
  destruct (delete_found (waiters c) i v (core_nodup _ _ Hc) Hi) as (_ & Hmem & _).
  assert (waiters (serve i v c) = delete i (waiters c)) as Hws.
  { rewrite (serve_eq i v c x Hx Ha), grant_waiters. done. }
  assert (cells (serve i v c) !! w = cells c !! w) as Hcs.
  { rewrite (serve_eq i v c x Hx Ha). unfold grant. simpl. rewrite lookup_insert_eq.
    destruct (w_kind x); simpl; [done|].
    destruct (cells c !! v); simpl; [|done]. by rewrite lookup_insert_ne. }
  rewrite <- Hcs. apply IH; [done|]. rewrite Hws, Hmem. tauto.
Qed.

Lemma release_cells h c w :
  core (fun x => x = h) c -> w ∉ waiters c ->
  cells (release h c) !! w = cells c !! w /\ w ∉ waiters (release h c).
Proof.
  intros Hc Hw. unfold release. destruct (handles c !! h) as [[f []]|] eqn:Hh; try done.
  apply (drainLoop_cells _ (unhold h f c)); [|done].
  apply unhold_core; [|done]. apply (core_weaken (fun x => x = h)); auto.
Qed.

(** Deactivating a cell leaves its reserved handle without an owner. *)
Lemma put_cell_core ex c w y :
  core ex c -> w ∉ waiters c -> is_Some (cells c !! w) -> c_active y = false ->
  core (fun h => ex h \/ exists z, cells c !! w = Some z /\ c_active z = true /\
                   c_reserved z = Some h) (put_cell w y c).
Proof.
  intros Hc Hw Hsome Hy. constructor; simpl; try apply Hc.
  - intros v Hv. destruct (core_waiters _ _ Hc v Hv) as (x & ? & ? & Hx).
    exists x. split_ands; auto. intros Hk. simpl. rewrite lookup_insert_ne; [by apply Hx|].
    by intros ->.
  - intros v [z Hz]. apply (core_cell_ids _ _ Hc). rewrite lookup_insert in Hz.
    case_decide; [by subst | by rewrite Hz].
  - intros h x Hx Hrel Hex.
    destruct (core_owner _ _ Hc h x Hx Hrel) as [Ho|(v & z & Hv & Hz & Ha & Hres)].
    + tauto.
    + by left.
    + right. exists v, z. simpl. rewrite lookup_insert_ne; [by split_ands|].
      intros ->. apply Hex. right. eauto.
  - intros v h Hv. destruct (core_timeouts _ _ Hc v h Hv) as [? (z & Hz & Hres)].
    split; [done|]. rewrite lookup_insert. case_decide; [|by exists z].
    exists y. split; [done|]. congruence.
Qed.

Lemma del_timeout_core ex c i w h :
  core ex c -> timeouts c !! i = Some (w, h) ->
  core (fun x => ex x \/ (x = h /\ exists z, cells c !! w = Some z /\ c_active z = true))
    (set_timeouts (delete i (timeouts c)) c).
Proof.
  intros Hc Hi. constructor; simpl; try apply Hc.
  - intros h' x Hx Hrel Hex.
    destruct (core_owner _ _ Hc h' x Hx Hrel) as [Ho|(v & z & Hv & Hz & Ha & Hres)].
    + tauto.
    + by left.
    + right. exists v, z. simpl. split_ands; auto.
      rewrite delete_take_drop.
      rewrite <- (take_drop_middle _ i (w, h) Hi) in Hv.
      apply elem_of_app in Hv as [Hv|[[= -> ->]|Hv]%elem_of_cons]; [set_solver| |set_solver].
      exfalso. apply Hex. right. eauto.
  - intros v h' Hv. apply (core_timeouts _ _ Hc).
    rewrite delete_take_drop in Hv. rewrite <- (take_drop_middle _ i (w, h) Hi). set_solver.
Qed.

Lemma releaseReserved_inv w c r :
  core (fun h => r = Some h) c -> drained c -> w ∉ waiters c ->
  cells c !! w = Some (Cell false r) -> inv (releaseReserved w c).
Proof.
  intros Hc Hd Hw Hcell. unfold releaseReserved. rewrite Hcell. destruct r as [h|].
  2:{ split; [|done]. apply (core_weaken (fun h => @None nat = Some h)); [done|apply Hc]. }
  assert (core (fun x => x = h) c) as Hc'.
  { apply (core_weaken (fun x => Some h = Some x)); [naive_solver|done]. }
  destruct (release_cells h c w Hc' Hw) as [Hcells Hw']. rewrite Hcells, Hcell. simpl.
  destruct (release_core h c Hc' Hd) as [Hrc Hrd]. split; [|done].
  eapply core_weaken; [|apply (put_cell_core _ _ w (Cell false None) Hrc Hw'); [|done]].
  - simpl. intros x [?|(z & Hz & Ha & _)]; [done|]. rewrite Hcells, Hcell in Hz.
    by injection Hz as <-.
  - by rewrite Hcells, Hcell.
Qed.

Lemma fireTimeout_inv i c : inv c -> inv (fireTimeout i c).
Proof.
  intros [Hc Hd]. unfold fireTimeout. destruct (timeouts c !! i) as [[w h]|] eqn:Hi; [|done].
  assert ((w, h) ∈ timeouts c) as Hin by (by eapply list_elem_of_lookup_2).
  destruct (core_timeouts _ _ Hc w h Hin) as (Hw & z & Hz & Hres). simpl. rewrite Hz.
  pose proof (del_timeout_core _ c i w h Hc Hi) as Hdel. destruct z as [[] r]; simpl in *.
  - split; [|done]. apply give_core. eapply core_weaken;
      [|apply (put_cell_core _ _ w (Cell false None) Hdel); simpl; auto; by rewrite Hz].
    intros x [[?|[-> _]]|(z & Hz' & _ & Hr)]; [by right|by left|]. simpl in Hz'.
    rewrite Hz in Hz'. injection Hz' as <-. simpl in Hr. rewrite Hres in Hr by done.
    left. by injection Hr.
  - apply (releaseReserved_inv w _ r); [|done|done|done].
    eapply core_weaken; [|exact Hdel]. intros x [?|[-> (z' & Hz' & Ha)]]; [done|].
    rewrite Hz in Hz'. by injection Hz' as <-.
Qed.

(** *** Cancellation *)

Lemma wants_ext c c' f w : waiterOf c' !! w = waiterOf c !! w -> wants f c' w <-> wants f c w.
Proof. intros H. unfold wants. by rewrite H. Qed.

(** [nextWaiter] stays empty when waiters only leave and no background slot
    becomes free. *)
Lemma nextWaiter_mono c c' :
  nextWaiter c = None -> backgroundRunning c <= backgroundRunning c' ->
  backgroundLimit c' = backgroundLimit c ->
  (forall w, w ∈ waiters c' -> w ∈ waiters c /\ waiterOf c' !! w = waiterOf c !! w) ->
  nextWaiter c' = None.
Proof.
  intros Hn Hb Hl Hw.
  assert (forall f, findWaiter f c = None -> findWaiter f c' = None) as Hfind.
  { intros f. unfold findWaiter. rewrite !list_find_None, !Forall_forall.
    intros H w Hin. destruct (Hw w Hin) as [Hin' Heq].
    rewrite (wants_ext c c' f w Heq). by apply H. }
  unfold nextWaiter in *. destruct (findWaiter true c) eqn:E; [done|].
  rewrite (Hfind true E). rewrite Hl.
  destruct (backgroundRunning c' <? backgroundLimit c) eqn:Hb'; [|done].
  reflect_bools. rewrite (proj2 (Z.ltb_lt _ _)) in Hn by lia. auto.
Qed.

(** Cancelling takes the waiter out of the queue, whatever its state. *)
Definition unqueue (w : nat) (y : waiter) (c : capacity) : capacity :=
  if w_active y then
    let c := put_waiter w (Waiter false (w_foreground y) (w_kind y)) c in
    match list_find (fun v => v = w) (waiters c) with
    | Some (index, _) => set_waiters (delete index (waiters c)) c
    | None => c
    end
  else c.

Lemma unqueue_spec ex w y c :
  core ex c -> waiterOf c !! w = Some y ->
  (forall v, v ∈ waiters (unqueue w y c) <-> v ∈ waiters c /\ v <> w) /\
  core ex (unqueue w y c) /\ cells (unqueue w y c) = cells c /\
  (drained c -> drained (unqueue w y c)).
Proof.
  intros Hc Hy. unfold unqueue.
  assert (w < nextId c)%nat as Hid by (apply (core_waiter_ids _ _ Hc); by rewrite Hy).
  destruct (w_active y) eqn:Ha.
  2:{ split_ands; auto. intros v. split; [|tauto]. intros Hv. split; [done|]. intros ->.
      destruct (core_waiters _ _ Hc w Hv) as (x & Hx & Hxa & _).
      rewrite Hy in Hx. injection Hx as <-. congruence. }
  simpl. destruct (list_find (fun v => v = w) (waiters c)) as [[i v]|] eqn:Hf.
  - apply list_find_Some in Hf as (Hi & -> & _).
    destruct (delete_found (waiters c) i w (core_nodup _ _ Hc) Hi) as (Hnd & Hmem & _).
    split_ands; auto.
    + assert (core ex (put_waiter w (Waiter false (w_foreground y) (w_kind y))
        (set_waiters (delete i (waiters c)) c))) as H; [|exact H].
      apply put_waiter_core; [|simpl; rewrite Hmem; tauto|done].
      apply set_waiters_core; auto. intros v Hv%Hmem. tauto.
    + intros [?|Hn]; [by left|]. right. apply (nextWaiter_mono c); simpl; auto; [lia|].
      intros v [Hv Hne]%Hmem. by rewrite lookup_insert_ne.
  - apply list_find_None in Hf. rewrite Forall_forall in Hf.
    assert (w ∉ waiters c) as Hw by (intros Hw; by apply (Hf w Hw)).
    split_ands; auto.
    + intros v. simpl. naive_solver.
    + by apply put_waiter_core.
    + intros [?|Hn]; [by left|]. right. apply (nextWaiter_mono c); simpl; auto; [lia|].
      intros v Hv. rewrite lookup_insert_ne; [done|]. by intros ->.
Qed.

Lemma unqueue_put_cell w y v z c :
  unqueue w y (put_cell v z c) = put_cell v z (unqueue w y c).
Proof.
  unfold unqueue. destruct (w_active y); [|done]. simpl.
  by destruct (list_find _ (waiters c)) as [[]|].
Qed.

Lemma cancel_eq w c r y :
  cells c !! w = Some (Cell true r) -> waiterOf c !! w = Some y ->
  cancel w c = releaseReserved w (put_cell w (Cell false r) (unqueue w y c)).
Proof.
  intros Hc Hy. unfold cancel. rewrite Hc. simpl. rewrite Hy, <- unqueue_put_cell. done.
Qed.

Lemma cancel_inv w c : inv c -> inv (cancel w c).
Proof.
  intros [Hc Hd]. destruct (cells c !! w) as [[[] r]|] eqn:Hcell.
  2,3: unfold cancel; by rewrite Hcell.
  assert (forall c', core nobody c' -> drained c' -> w ∉ waiters c' -> cells c' = cells c ->
    inv (releaseReserved w (put_cell w (Cell false r) c'))) as Hgen.
  { intros c' Hc' Hd' Hw' Hcells. apply (releaseReserved_inv w _ r); [|done|done|].
    - eapply core_weaken; [|apply (put_cell_core _ _ w (Cell false r) Hc' Hw'); [|done]].
      + intros h [?|(z & Hz & _ & Hr)]; [done|]. rewrite Hcells, Hcell in Hz.
        by injection Hz as <-.
      + by rewrite Hcells, Hcell.
    - simpl. by rewrite lookup_insert_eq. }
  destruct (waiterOf c !! w) as [y|] eqn:Hy.
  - rewrite (cancel_eq w c r y Hcell Hy).
    destruct (unqueue_spec nobody w y c Hc Hy) as (Hmem & Hcu & Hcells & Hdu).
    apply Hgen; auto. rewrite Hmem. tauto.
  - unfold cancel. rewrite Hcell. simpl. rewrite Hy. apply Hgen; auto.
    intros Hw. destruct (core_waiters _ _ Hc w Hw) as (x & Hx & _). congruence.
Qed.

(** *** Acquisition *)

Lemma occupy_drained f c : drained c -> drained (occupy f c).2.
Proof.
  intros [?|Hn]; [left; simpl; lia|]. right. apply (nextWaiter_mono c); simpl; auto.
  destruct f; lia.
Qed.

Lemma fresh_core ex c : core ex c -> core ex (fresh_id c).2.
Proof.
  intros Hc. constructor; simpl; try apply Hc.
  - intros w Hw%(core_waiter_ids _ _ Hc). lia.
  - intros w Hw%(core_cell_ids _ _ Hc). lia.
  - intros w Hw%(core_handle_ids _ _ Hc). lia.
Qed.

(** A lane's acquisition either occupies a slot or finds the lane full. *)
Lemma tryAcquireLane_spec f c :
  inv c ->
  match tryAcquireLane f c with
  | (Some h, c') =>
      h = nextId c /\ c' = (occupy f c).2 /\ running c < limit c /\
      (f = false -> backgroundRunning c < backgroundLimit c)
  | (None, c') =>
      c' = c /\ (limit c <= running c \/ (f = false /\ backgroundLimit c <= backgroundRunning c))
  end.
Proof.
  intros _. unfold tryAcquireLane, tryAcquire, tryAcquireForeground.
  destruct f.
  - destruct (limit c <=? running c) eqn:E; reflect_bools; split_ands; auto. done.
  - destruct (limit c <=? running c) eqn:E; reflect_bools; simpl; [auto|].
    destruct (backgroundLimit c <=? backgroundRunning c) eqn:E'; reflect_bools;
      split_ands; auto.
Qed.

Lemma occupy_give_inv f c :
  inv c -> running c < limit c -> (f = false -> backgroundRunning c < backgroundLimit c) ->
  inv (give None (nextId c) (occupy f c).2).
Proof.
  intros [Hc Hd] Hr Hb. destruct (occupy_core f c Hc Hr Hb) as (Ho & _ & _).
  split; [|exact (occupy_drained f c Hd)].
  apply give_core. apply (core_weaken (fun h => h = nextId c)); auto.
Qed.

(** Queueing a new waiter of a lane that is full. *)
Lemma enqueue_waiter_inv f w k c :
  core nobody c -> drained c -> w ∉ waiters c ->
  waiterOf c !! w = Some (Waiter true f k) -> waiting_cell c w (Waiter true f k) ->
  (forall h, (w, h) ∉ timeouts c) ->
  limit c <= running c \/ (f = false /\ backgroundLimit c <= backgroundRunning c) ->
  inv (set_waiters (waiters c ++ [w]) c).
Proof.
  intros Hc Hd Hw Hx Hcell Ht Hfull. split.
  - constructor; simpl; try apply Hc.
    + apply NoDup_app. split_ands; [apply Hc | set_solver | apply NoDup_singleton].
    + intros v [Hv| ->%list_elem_of_singleton]%elem_of_app.
      * exact (core_waiters _ _ Hc v Hv).
      * eauto.
    + intros v h Hv. destruct (core_timeouts _ _ Hc v h Hv) as [Hn ?]. split; [|done].
      intros [?| ->%list_elem_of_singleton]%elem_of_app; [done|]. by apply (Ht h).
  - destruct Hd as [?|Hn]; [by left|]. destruct Hfull as [?|[-> Hb]]; [by left|]. right.
    unfold nextWaiter in *. destruct (findWaiter true c) eqn:E; [done|].
    unfold findWaiter in *. simpl.
    assert (list_find (wants true (set_waiters (waiters c ++ [w]) c)) (waiters c ++ [w]) = None)
      as ->.
    { apply list_find_None, Forall_app. split; [by apply list_find_None in E|].
      constructor; [|constructor]. unfold wants. simpl. rewrite Hx. simpl. naive_solver. }
    by rewrite (proj2 (Z.ltb_ge _ _)).
Qed.

(** The identity a new object takes is free. *)
Lemma fresh_free ex c :
  core ex c -> waiterOf c !! nextId c = None /\ cells c !! nextId c = None /\
  (nextId c ∉ waiters c) /\ forall h, (nextId c, h) ∉ timeouts c.
Proof.
  intros Hc. assert (cells c !! nextId c = None) as Hcell.
  { destruct (cells c !! nextId c) eqn:E; [|done].
    assert (nextId c < nextId c)%nat; [apply (core_cell_ids _ _ Hc); by rewrite E|lia]. }
  assert (waiterOf c !! nextId c = None) as Hw.
  { destruct (waiterOf c !! nextId c) eqn:E; [|done].
    assert (nextId c < nextId c)%nat; [apply (core_waiter_ids _ _ Hc); by rewrite E|lia]. }
  split_ands; auto.
  - intros Hin. destruct (core_waiters _ _ Hc _ Hin) as (x & Hx & _). congruence.
  - intros h Hin. destruct (core_timeouts _ _ Hc _ _ Hin) as (_ & y & Hy & _). congruence.
Qed.

Lemma new_waiter_drained w x c :
  w ∉ waiters c -> drained c -> drained (put_waiter w x (fresh_id c).2).
Proof.
  intros Hw [?|Hn]; [by left|]. right. apply (nextWaiter_mono c); simpl; auto; [lia|].
  intros v Hv. rewrite lookup_insert_ne; [done|]. by intros ->.
Qed.

Lemma acquireLane_inv f c : inv c -> inv (acquireLane f c).2.
Proof.
  intros Hinv. pose proof (tryAcquireLane_spec f c Hinv) as Hs. unfold acquireLane.
  destruct (tryAcquireLane f c) as [[h|] c'].
  - destruct Hs as (-> & -> & Hr & Hb). by apply occupy_give_inv.
  - destruct Hs as (-> & Hfull), Hinv as [Hc Hd].
    destruct (fresh_free _ c Hc) as (Hw & Hcell & Hn & Ht). simpl.
    apply (enqueue_waiter_inv f (nextId c) Promise (put_waiter _ _ (fresh_id c).2)); auto.
    + apply put_waiter_core; [by apply fresh_core | done | simpl; lia].
    + by apply new_waiter_drained.
    + simpl. by rewrite lookup_insert_eq.
    + done.
Qed.

Lemma callTry_inv f c : inv c -> inv (callTry f c).2.
Proof.
  intros Hinv. pose proof (tryAcquireLane_spec f c Hinv) as Hs. unfold callTry.
  destruct (tryAcquireLane f c) as [[h|] c'].
  - destruct Hs as (-> & -> & Hr & Hb). by apply occupy_give_inv.
  - by destruct Hs as (-> & _).
Qed.

Definition new_cancellable (f : bool) (c : capacity) : capacity :=
  put_cell (nextId c) (Cell true None)
    (put_waiter (nextId c) (Waiter true f Cancellable) (fresh_id c).2).

Lemma new_cancellable_inv f c : inv c -> inv (new_cancellable f c).
Proof.
  intros [Hc Hd]. destruct (fresh_free _ c Hc) as (Hw & Hcell & Hn & Ht).
  split; [|exact (new_waiter_drained _ (Waiter true f Cancellable) c Hn Hd)].
  assert (core nobody (put_waiter (nextId c) (Waiter true f Cancellable) (fresh_id c).2)) as Hc1.
  { apply put_waiter_core; [by apply fresh_core | done | simpl; lia]. }
  constructor; simpl; try apply Hc1.
  - intros v Hv. destruct (core_waiters _ _ Hc1 v Hv) as (x & ? & ? & Hx).
    exists x. split_ands; auto. intros Hk. simpl. rewrite lookup_insert_ne; [by apply Hx|].
    by intros <-.
  - intros v [z Hz]. rewrite lookup_insert in Hz. case_decide; [lia|].
    apply (core_cell_ids _ _ Hc1). simpl. by rewrite Hz.
  - intros h x Hx Hrel Hex.
    destruct (core_owner _ _ Hc1 h x Hx Hrel Hex) as [?|(v & z & Hv & Hz & Ha & Hres)].
    + by left.
    + right. exists v, z. simpl. rewrite lookup_insert_ne; [by split_ands|].
      intros <-. by apply (Ht h).
  - intros v h Hv. destruct (core_timeouts _ _ Hc1 v h Hv) as [? (z & Hz & Hres)].
    split; [done|]. rewrite lookup_insert_ne; [by exists z|]. intros <-. by apply (Ht h).
Qed.

Lemma acquireCancellableLane_eq f c :
  acquireCancellableLane f c =
  match tryAcquireLane f (new_cancellable f c) with
  | (Some h, c') => (nextId c, grant (nextId c) h c')
  | (None, c') => (nextId c, set_waiters (waiters c' ++ [nextId c]) c')
  end.
Proof. reflexivity. Qed.

Lemma acquireCancellableLane_inv f c : inv c -> inv (acquireCancellableLane f c).2.
Proof.
  intros Hinv. pose proof Hinv as [Hc Hd].
  destruct (fresh_free _ c Hc) as (Hw & Hcell & Hn & Ht).
  pose proof (new_cancellable_inv f c Hinv) as Hinv1.
  pose proof (tryAcquireLane_spec f _ Hinv1) as Hs. rewrite acquireCancellableLane_eq.
  destruct (tryAcquireLane f (new_cancellable f c)) as [[h|] c'].
  - destruct Hs as (-> & -> & Hr & Hb), Hinv1 as [Hc1 Hd1].
    destruct (occupy_core f _ Hc1 Hr Hb) as (Ho & _ & _). cbn [snd]. split.
    + apply (grant_core _ (nextId c) _ (Waiter true f Cancellable)); auto.
      * simpl. by rewrite lookup_insert_eq.
      * intros _. simpl. by rewrite lookup_insert_eq.
    + assert (drained (occupy f (new_cancellable f c)).2) as Hd' by (by apply occupy_drained).
      unfold grant. simpl. rewrite !lookup_insert_eq. exact Hd'.
  - destruct Hs as (-> & Hfull), Hinv1 as [Hc1 Hd1]. cbn [snd].
    apply (enqueue_waiter_inv f _ Cancellable); auto.
    + simpl. by rewrite lookup_insert_eq.
    + intros _. simpl. by rewrite lookup_insert_eq.
Qed.

(** ** Operations and reachable states *)

Inductive op : Type :=
| OTry (foreground : bool)
| OAcquire (foreground : bool)
| OAcquireCancellable (foreground : bool)
| OCancel (w : nat)
| OFire (i : nat)
| ORelease (h : nat).

Definition run_op (o : op) (c : capacity) : capacity :=
  match o with
  | OTry f => (callTry f c).2
  | OAcquire f => (acquireLane f c).2
  | OAcquireCancellable f => (acquireCancellableLane f c).2
  | OCancel w => cancel w c
  | OFire i => fireTimeout i c
  | ORelease h => release h c
  end.

Definition run_ops (ops : list op) (c : capacity) : capacity := foldl (fun c o => run_op o c) c ops.

Inductive reachable : capacity -> Prop :=
| reach_new n c : newCapacity n = Ok c -> reachable c
| reach_op o c : reachable c -> reachable (run_op o c).

Lemma run_op_inv o c : inv c -> inv (run_op o c).
Proof.
  destruct o; simpl; eauto using callTry_inv, acquireLane_inv, acquireCancellableLane_inv,
    cancel_inv, fireTimeout_inv, release_inv.
Qed.

Lemma reachable_inv c : reachable c -> inv c.
Proof. induction 1; eauto using newCapacity_inv, run_op_inv. Qed.

Lemma capacity_reachable_run_ops ops c : reachable c -> reachable (run_ops ops c).
Proof.
  revert c. induction ops as [|o ops IH]; intros c Hc; [done|]. apply IH. by constructor.
Qed.

(** ** Cancelled acquisitions *)

Definition dead (w : nat) (c : capacity) : Prop :=
  (exists y, cells c !! w = Some y /\ c_active y = false) /\
  (exists x, waiterOf c !! w = Some x /\ w_kind x = Cancellable).

(** From [c] to [c'] the acquisition [w], once dead, stays dead and is given
    nothing. *)
Definition keeps (w : nat) (c c' : capacity) : Prop :=
  dead w c -> dead w c' /\ forall h, (Some w, h) ∈ outs c' -> (Some w, h) ∈ outs c.

Lemma keeps_refl w c c' :
  cells c' = cells c -> waiterOf c' = waiterOf c -> outs c' = outs c -> keeps w c c'.
Proof. intros Hc Hw Ho Hd. unfold dead. rewrite Hc, Hw, Ho. auto. Qed.

Lemma keeps_trans w c1 c2 c3 : keeps w c1 c2 -> keeps w c2 c3 -> keeps w c1 c3.
Proof.
  intros H12 H23 Hd. destruct (H12 Hd) as [Hd2 Ho2]. destruct (H23 Hd2) as [Hd3 Ho3]. auto.
Qed.

Lemma keeps_put_waiter w v x f a c :
  waiterOf c !! v = Some x -> keeps w c (put_waiter v (Waiter a f (w_kind x)) c).
Proof.
  intros Hv [Hcell (y & Hy & Hk)]. split; [|auto]. split; [done|]. simpl.
  rewrite lookup_insert. case_decide; [|eauto]. subst. rewrite Hv in Hy. injection Hy as <-.
  by eexists.
Qed.

Lemma keeps_put_cell w v y c :
  (v = w -> c_active y = false) -> keeps w c (put_cell v y c).
Proof.
  intros Hv [(z & Hz & Ha) Hw]. split; [|auto]. split; [|done]. simpl.
  rewrite lookup_insert. case_decide; [|eauto]. exists y. auto.
Qed.

Lemma keeps_give w o h c : o <> Some w -> keeps w c (give o h c).
Proof.
  intros Ho Hd. split; [done|]. intros h' [?|Heq%list_elem_of_singleton]%elem_of_app; [done|congruence].
Qed.

Lemma keeps_grant w v h c : keeps w c (grant v h c).
Proof.
  intros Hd. pose proof Hd as [(y & Hy & Ha) (x & Hx & Hk)]. revert Hd. unfold grant.
  destruct (waiterOf c !! v) as [[a f []]|] eqn:Hv.
  - apply keeps_give. intros [= ->]. rewrite Hx in Hv. injection Hv as ->. done.
  - destruct (cells c !! v) as [z|] eqn:Hz; [|by apply keeps_refl].
    eapply keeps_trans; [|by apply keeps_refl]. apply keeps_put_cell. intros ->.
    rewrite Hy in Hz. by injection Hz as <-.
  - apply keeps_give. intros [= ->]. by rewrite Hx in Hv.
Qed.

Lemma keeps_serve w i v c : keeps w c (serve i v c).
Proof.
  destruct (waiterOf c !! v) as [x|] eqn:Hx.
  2:{ unfold serve. simpl. rewrite Hx. by apply keeps_refl. }
  destruct (w_active x) eqn:Ha.
  2:{ unfold serve. simpl. rewrite Hx, Ha. by apply keeps_refl. }
  rewrite (serve_eq i v c x Hx Ha). eapply keeps_trans; [|apply keeps_grant].
  eapply keeps_trans; [apply (keeps_put_waiter w v x (w_foreground x) false c Hx)|].
  by apply keeps_refl.
Qed.

Lemma keeps_drainLoop w fuel c : keeps w c (drainLoop fuel c).
Proof.
  revert c. induction fuel as [|fuel IH]; intros c; simpl; [by apply keeps_refl|].
  destruct (limit c <=? running c); [by apply keeps_refl|].
  destruct (nextWaiter c) as [[i v]|]; [|by apply keeps_refl].
  eapply keeps_trans; [apply keeps_serve | apply IH].
Qed.

Lemma keeps_release w h c : keeps w c (release h c).
Proof.
  unfold release. destruct (handles c !! h) as [[f []]|]; try by apply keeps_refl.
  eapply keeps_trans; [|apply keeps_drainLoop]. by apply keeps_refl.
Qed.

Lemma keeps_releaseReserved w v c : keeps w c (releaseReserved v c).
Proof.
  unfold releaseReserved. destruct (cells c !! v) as [[a [h|]]|]; try by apply keeps_refl.
  eapply keeps_trans; [apply keeps_release|]. intros Hd. revert Hd.
  destruct (cells (release h c) !! v) as [z|] eqn:Hz; [|by apply keeps_refl].
  intros Hd. pose proof Hd as [(y & Hy & Ha) _]. revert Hd. apply keeps_put_cell. intros ->.
  rewrite Hy in Hz. by injection Hz as <-.
Qed.

Lemma keeps_fireTimeout w i c : keeps w c (fireTimeout i c).
Proof.
  unfold fireTimeout. destruct (timeouts c !! i) as [[v h]|]; [|by apply keeps_refl].
  simpl. destruct (cells c !! v) as [z|] eqn:Hz; [|by apply keeps_refl].
  destruct (c_active z) eqn:Ha; simpl.
  2:{ eapply keeps_trans; [|apply keeps_releaseReserved]. by apply keeps_refl. }
  intros Hd. pose proof Hd as [(y & Hy & Hya) _]. revert Hd.
  assert (v <> w) by (intros ->; rewrite Hy in Hz; injection Hz as <-; congruence).
  eapply keeps_trans; [|apply keeps_give; congruence].
  eapply keeps_trans; [by apply (keeps_refl w c (set_timeouts (delete i (timeouts c)) c))|].
  apply keeps_put_cell. done.
Qed.

Lemma keeps_unqueue w v y c : waiterOf c !! v = Some y -> keeps w c (unqueue v y c).
Proof.
  intros Hy. unfold unqueue. destruct (w_active y); [|by apply keeps_refl].
  destruct (list_find _ _) as [[j ?]|].
  - eapply keeps_trans; [by apply (keeps_put_waiter w v y (w_foreground y) false)|].
    by apply keeps_refl.
  - by apply keeps_put_waiter.
Qed.

Lemma keeps_cancel w v c : keeps w c (cancel v c).
Proof.
  unfold cancel. destruct (cells c !! v) as [z|] eqn:Hz; [|by apply keeps_refl].
  destruct (c_active z) eqn:Ha; simpl; [|by apply keeps_refl].
  eapply keeps_trans; [apply (keeps_put_cell w v (Cell false (c_reserved z))); done|].
  destruct (waiterOf c !! v) as [y|] eqn:Hy.
  - eapply keeps_trans; [by apply (keeps_unqueue w v y)|]. apply keeps_releaseReserved.
  - apply keeps_releaseReserved.
Qed.

Lemma keeps_fresh_waiter w x c :
  inv c -> dead w c -> keeps w c (put_waiter (nextId c) x (fresh_id c).2) /\ w <> nextId c.
Proof.
  intros [Hc _] [_ (y & Hy & _)].
  assert (w <> nextId c) as Hne.
  { intros ->. by rewrite (proj1 (fresh_free _ c Hc)) in Hy. }
  split; [|done]. intros [Hcell (z & Hz & Hk)]. split; [|auto]. split; [done|]. simpl.
  rewrite lookup_insert_ne by done. eauto.
Qed.

Lemma keeps_tryAcquireLane w f c : keeps w c (tryAcquireLane f c).2.
Proof.
  unfold tryAcquireLane, tryAcquire, tryAcquireForeground. destruct f.
  - destruct (_ <=? _); by apply keeps_refl.
  - destruct (_ || _); by apply keeps_refl.
Qed.

Lemma keeps_run_op w o c : inv c -> keeps w c (run_op o c).
Proof.
  intros Hinv Hd. revert Hd. destruct o as [f|f|f|v|i|h]; simpl run_op.
  - unfold callTry. pose proof (keeps_tryAcquireLane w f c) as Hk.
    destruct (tryAcquireLane f c) as [[h|] c']; [|done].
    eapply keeps_trans; [exact Hk|]. by apply keeps_give.
  - unfold acquireLane. pose proof (keeps_tryAcquireLane w f c) as Hk.
    pose proof (tryAcquireLane_spec f c Hinv) as Hs.
    destruct (tryAcquireLane f c) as [[h|] c'].
    + eapply keeps_trans; [exact Hk|]. by apply keeps_give.
    + destruct Hs as [-> _]. intros Hd.
      destruct (keeps_fresh_waiter w (Waiter true f Promise) c Hinv Hd) as [Hk' _]. revert Hd.
      eapply keeps_trans; [exact Hk'|]. by apply keeps_refl.
  - intros Hd. rewrite acquireCancellableLane_eq.
    destruct (keeps_fresh_waiter w (Waiter true f Cancellable) c Hinv Hd) as [Hk' Hne].
    assert (keeps w c (new_cancellable f c)) as Hn.
    { eapply keeps_trans; [exact Hk'|]. apply keeps_put_cell. congruence. }
    pose proof (keeps_tryAcquireLane w f (new_cancellable f c)) as Hk. revert Hd.
    destruct (tryAcquireLane f (new_cancellable f c)) as [[h|] c']; simpl snd in *.
    + eapply keeps_trans; [exact Hn|]. eapply keeps_trans; [exact Hk|]. apply keeps_grant.
    + eapply keeps_trans; [exact Hn|]. eapply keeps_trans; [exact Hk|]. by apply keeps_refl.
  - apply keeps_cancel.
  - apply keeps_fireTimeout.
  - apply keeps_release.
Qed.

Lemma keeps_run_ops w ops c : inv c -> keeps w c (run_ops ops c).
Proof.
  revert c. induction ops as [|o ops IH]; intros c Hc; [by apply keeps_refl|].
  unfold run_ops. simpl. fold (run_ops ops (run_op o c)).
  eapply keeps_trans; [by apply keeps_run_op|]. apply IH. by apply run_op_inv.
Qed.

(** ** Repeated releases *)

(** ** Live acquisitions *)

(** The acquisition [w] is neither cancelled nor delivered. *)
Definition live (w : nat) (c : capacity) : Prop :=
  exists y, cells c !! w = Some y /\ c_active y = true.

Lemma live_put_cell w v y c :
  live w c -> (v = w -> c_active y = true) -> live w (put_cell v y c).
Proof.
  intros (z & Hz & Ha) Hv. unfold live. simpl. destruct (decide (v = w)) as [->|Hne].
  - exists y. rewrite lookup_insert_eq. auto.
  - exists z. by rewrite lookup_insert_ne.
Qed.

Lemma live_grant w v h c : live w c -> live w (grant v h c).
Proof.
  intros Hl. unfold grant. destruct (waiterOf c !! v) as [[? ? []]|]; try exact Hl.
  destruct (cells c !! v) as [y|] eqn:Hy; [|exact Hl].
  apply (live_put_cell w v (Cell (c_active y) (Some h)) c Hl). intros ->. simpl.
  destruct Hl as (z & Hz & Ha). rewrite Hy in Hz. by injection Hz as ->.
Qed.

Lemma live_serve w i v c : live w c -> live w (serve i v c).
Proof.
  intros Hl. unfold serve. simpl. destruct (waiterOf c !! v) as [x|]; [|exact Hl].
  destruct (w_active x); simpl; [|exact Hl]. apply live_grant. exact Hl.
Qed.

Lemma live_drainLoop w fuel c : live w c -> live w (drainLoop fuel c).
Proof.
  revert c. induction fuel as [|fuel IH]; intros c Hl; simpl; [done|].
  destruct (limit c <=? running c); [done|]. destruct (nextWaiter c) as [[i v]|]; [|done].
  by apply IH, live_serve.
Qed.

Lemma live_release w h c : live w c -> live w (release h c).
Proof.
  intros Hl. unfold release. destruct (handles c !! h) as [x|]; [|done].
  destruct (h_released x); [done|]. apply live_drainLoop. exact Hl.
Qed.

Lemma live_releaseReserved w v c : live w c -> live w (releaseReserved v c).
Proof.
  intros Hl. unfold releaseReserved. destruct (cells c !! v) as [[a [h|]]|]; try done.
  pose proof (live_release w h c Hl) as Hl'.
  destruct (cells (release h c) !! v) as [x|] eqn:Hx; [|done].
  apply live_put_cell; [done|]. intros ->. destruct Hl' as (z & Hz & Ha).
  rewrite Hx in Hz. by injection Hz as ->.
Qed.

Lemma live_cancel w v c : live w c -> v <> w -> live w (cancel v c).
Proof.
  intros Hl Hne. unfold cancel. destruct (cells c !! v) as [x|]; [|done].
  destruct (c_active x); simpl; [|done]. apply live_releaseReserved.
  pose proof (live_put_cell w v (Cell false (c_reserved x)) c Hl) as Hp.
  destruct (waiterOf c !! v) as [y|]; [|by apply Hp].
  destruct (w_active y); [|by apply Hp]. destruct (list_find _ _) as [[]|]; by apply Hp.
Qed.

Lemma live_fireTimeout w i c :
  live w c -> (forall h, timeouts c !! i <> Some (w, h)) -> live w (fireTimeout i c).
Proof.
  intros Hl Hi. unfold fireTimeout. destruct (timeouts c !! i) as [[v h]|]; [|done].
  simpl. destruct (cells c !! v) as [x|]; [|done]. destruct (c_active x); simpl.
  - apply (live_put_cell w v (Cell false None) c Hl). intros ->. by destruct (Hi h).
  - by apply (live_releaseReserved w v (set_timeouts _ c)).
Qed.

Lemma live_tryAcquireLane w f c : live w c -> live w (tryAcquireLane f c).2.
Proof.
  intros Hl. unfold tryAcquireLane, tryAcquireForeground, tryAcquire.
  destruct f; destruct (_ <=? _); try exact Hl. simpl. destruct (_ <=? _); exact Hl.
Qed.

Lemma live_callTry w f c : live w c -> live w (callTry f c).2.
Proof.
  intros Hl. unfold callTry. pose proof (live_tryAcquireLane w f c Hl) as H.
  destruct (tryAcquireLane f c) as [[h|] c']; exact H.
Qed.

Lemma live_acquireLane w f c : live w c -> live w (acquireLane f c).2.
Proof.
  intros Hl. unfold acquireLane. pose proof (live_tryAcquireLane w f c Hl) as H.
  destruct (tryAcquireLane f c) as [[h|] c']; exact H.
Qed.

(** A new cancellable acquisition is live, and so stays any other. *)
Lemma live_acquireCancellableLane w f c :
  live w c \/ w = nextId c -> live w (acquireCancellableLane f c).2.
Proof.
  intros Hl. rewrite acquireCancellableLane_eq.
  assert (live w (new_cancellable f c)) as Hn.
  { destruct Hl as [Hl|Heq].
    - apply (live_put_cell w (nextId c) (Cell true None)); [exact Hl | done].
    - rewrite Heq. exists (Cell true None). simpl. by rewrite lookup_insert_eq. }
  pose proof (live_tryAcquireLane w f _ Hn) as H.
  destruct (tryAcquireLane f _) as [[h|] c']; simpl in *; [by apply live_grant | exact H].
Qed.

Lemma drainLoop_handles fuel c h x :
  core nobody c -> handles c !! h = Some x -> handles (drainLoop fuel c) !! h = Some x.
Proof.
  revert c. induction fuel as [|fuel IH]; intros c Hc Hh; simpl; [done|].
  destruct (limit c <=? running c) eqn:Hr; [done|]. reflect_bools.
  destruct (nextWaiter c) as [[i v]|] eqn:Hn; [|done].
  destruct (serve_core c i v Hc Hr Hn) as [Hc' _]. apply IH; [done|].
  destruct (nextWaiter_Some c i v Hn) as (Hi & y & Hy & Ha & _).
  rewrite (serve_eq i v c y Hy Ha).
  assert (forall c0, handles (grant v (nextId c) c0) = handles c0) as ->.
  { intros c0. unfold grant. destruct (waiterOf c0 !! v) as [[? ? []]|]; try done.
    by destruct (cells c0 !! v). }
  simpl. rewrite lookup_insert_ne; [done|]. intros <-.
  assert (nextId c < nextId c)%nat; [|lia]. apply (core_handle_ids _ _ Hc). by rewrite Hh.
Qed.

Lemma release_released h c :
  inv c -> is_Some (handles c !! h) ->
  exists f, handles (release h c) !! h = Some (Handle f true).
Proof.
  intros [Hc Hd] [[f r] Hh]. destruct r.
  - exists f. unfold release. by rewrite Hh.
  - exists f. rewrite (release_unfold h c f Hh).
    apply drainLoop_handles; [|simpl; by rewrite lookup_insert_eq].
    apply unhold_core; [|done]. eapply core_weaken; [|exact Hc]. unfold nobody. tauto.
Qed.

Lemma count_background_le (m : gmap nat handle) : count_background m <= count_held m.
Proof.
  unfold count_background, count_held. apply inj_le, map_subseteq_size, map_filter_subseteq_ext.
  intros i x _ [H _]. exact H.
Qed.

(** ** Properties *)

(** C36. In every state the calls can reach, [running] and [backgroundRunning]
    count exactly the release handles that are still held, the total stays
    within the limit, and background holders leave one lane free unless the
    limit is one. *)
Theorem capacity_accounting c :
  reachable c ->
  running c = count_held (handles c) /\ backgroundRunning c = count_background (handles c) /\
  0 <= backgroundRunning c <= running c /\ running c <= limit c /\
  backgroundRunning c <= Z.max 1 (limit c - 1).
Proof.
  intros [Hc _]%reachable_inv. pose proof (core_background_le _ _ Hc) as Hb.
  rewrite (core_blimit _ _ Hc) in Hb. pose proof (core_running_le _ _ Hc).
  pose proof (count_background_le (handles c)).
  rewrite <- (core_running _ _ Hc), <- (core_background _ _ Hc) in *.
  split_ands; auto; try apply Hc. rewrite (core_background _ _ Hc).
  unfold count_background. lia.
Qed.

(** No acquisition waits while its lane has room: a foreground waiter waits
    only when every slot is held, a background waiter only when every slot or
    every background slot is held.  So a free slot is never left unused, and no
    later call overtakes a waiter of its lane. *)
Theorem capacity_work_conserving c w x :
  reachable c -> w ∈ waiters c -> waiterOf c !! w = Some x ->
  if w_foreground x then running c = limit c
  else running c = limit c \/ backgroundRunning c = backgroundLimit c.
Proof.
  intros [Hc Hd]%reachable_inv Hw Hx.
  pose proof (core_running_le _ _ Hc). pose proof (core_background_le _ _ Hc).
  destruct (core_waiters _ _ Hc w Hw) as (x' & Hx' & Ha & _).
  rewrite Hx in Hx'. injection Hx' as <-.
  destruct Hd as [Hd|Hn]; [destruct (w_foreground x); [|left]; lia|].
  assert (forall f, findWaiter f c = None -> w_foreground x <> f) as Hfind.
  { intros f Hf <-. unfold findWaiter in Hf. apply list_find_None in Hf.
    rewrite Forall_forall in Hf. apply (Hf w Hw). unfold wants. by rewrite Hx. }
  unfold nextWaiter in Hn. destruct (findWaiter true c) eqn:E; [done|].
  destruct (w_foreground x) eqn:Ef; [by destruct (Hfind true E)|].
  destruct (_ <? _) eqn:Hb in Hn; reflect_bools; [by destruct (Hfind false Hn)|right; lia].
Qed.

(** With a limit of at least two, a foreground caller gets a slot at once
    whenever no other foreground work holds one, however much background work
    runs or waits. *)
Theorem capacity_foreground_reserve c :
  reachable c -> 2 <= limit c -> count_held (handles c) = count_background (handles c) ->
  exists h, (tryAcquireForeground c).1 = Some h.
Proof.
  intros [Hc _]%reachable_inv Hl Heq. unfold tryAcquireForeground.
  assert (running c < limit c) as Hr.
  { rewrite (core_running _ _ Hc), Heq, <- (core_background _ _ Hc).
    pose proof (core_background_le _ _ Hc) as Hb. rewrite (core_blimit _ _ Hc) in Hb. lia. }
  rewrite (proj2 (Z.leb_gt _ _) Hr). simpl. by eexists.
Qed.

(** Capacity never leaks: every handle that is still held was given to a
    caller, or is reserved for a live cancellable acquisition whose timeout is
    armed to deliver it. *)
Theorem capacity_never_leaks c h x :
  reachable c -> handles c !! h = Some x -> h_released x = false -> owned c h.
Proof. intros [Hc _]%reachable_inv Hx Hr. exact (core_owner _ _ Hc h x Hx Hr (fun H => H)). Qed.

(** After its canceller has been called, a cancellable acquisition is never
    delivered, whatever is called or fires later. *)
Theorem cancelled_acquisition_never_delivered c w r x ops h :
  reachable c -> cells c !! w = Some (Cell true r) ->
  waiterOf c !! w = Some x -> w_kind x = Cancellable ->
  (Some w, h) ∈ outs (run_ops ops (cancel w c)) -> (Some w, h) ∈ outs (cancel w c).
Proof.
  intros Hr%reachable_inv Hcell Hx Hk. apply keeps_run_ops; [by apply cancel_inv|].
  rewrite (cancel_eq w c r x Hcell Hx).
  apply keeps_releaseReserved. split.
  - exists (Cell false r). simpl. by rewrite lookup_insert_eq.
  - unfold unqueue. destruct (w_active x); [|simpl; eauto]. simpl.
    destruct (list_find _ _) as [[]|]; simpl; rewrite lookup_insert_eq;
      by eexists (Waiter false _ _).
Qed.

(** Calling a release closure again does nothing: the slot is given back
    once. *)
Lemma release_idempotent c h :
  reachable c -> release h (release h c) = release h c.
Proof.
  intros Hinv%reachable_inv. destruct (handles c !! h) as [y|] eqn:Hh.
  - destruct (release_released h c Hinv) as [f Hf]; [by rewrite Hh|].
    unfold release at 1. by rewrite Hf.
  - unfold release at 2 3. rewrite Hh. unfold release. by rewrite Hh.
Qed.

(** ** Witnesses *)

(** A capacity of two: one background handle is held, a second background
    acquisition waits, and a third was cancelled. *)
Definition empty_capacity (n : Z) : capacity :=
  mkCapacity n (Z.max 1 (n - 1)) 0 0 [] ∅ ∅ ∅ [] [] 0.

Definition sample_ops : list op :=
  [OTry false; OAcquireCancellable false; OAcquire false].

Definition sample_capacity : capacity := run_ops sample_ops (empty_capacity 2).

Lemma sample_capacity_reachable : reachable sample_capacity.
Proof. apply capacity_reachable_run_ops, (reach_new (num 2)). reflexivity. Qed.

Lemma capacity_accounting_witness : running sample_capacity = 1 /\ running sample_capacity <= 2.
Proof.
  split; [vm_compute; reflexivity|].
  destruct (capacity_accounting _ sample_capacity_reachable) as (_ & _ & _ & H & _).
  exact H.
Defined.

Lemma capacity_work_conserving_witness :
  waiters sample_capacity = [1%nat; 2%nat] /\
  (running sample_capacity = 2 \/ backgroundRunning sample_capacity = 1).
Proof.
  split; [vm_compute; reflexivity|].
  apply (capacity_work_conserving sample_capacity 2%nat (Waiter true false Promise)
           sample_capacity_reachable).
  - apply (bool_decide_eq_true_1 _). vm_compute. reflexivity.
  - vm_compute. reflexivity.
Defined.

Lemma capacity_foreground_reserve_witness :
  exists h, (tryAcquireForeground sample_capacity).1 = Some h.
Proof.
  apply (capacity_foreground_reserve _ sample_capacity_reachable).
  - vm_compute. discriminate.
  - vm_compute. reflexivity.
Defined.

Lemma capacity_never_leaks_witness : owned sample_capacity 0.
Proof.
  apply (capacity_never_leaks _ 0%nat (Handle false false) sample_capacity_reachable);
    vm_compute; reflexivity.
Defined.

Lemma cancelled_acquisition_never_delivered_witness :
  (Some 1%nat, 0%nat) ∉ outs (run_ops [ORelease 0; OFire 0] (cancel 1 sample_capacity)).
Proof.
  intros H. apply (cancelled_acquisition_never_delivered _ 1%nat None
    (Waiter true false Cancellable)) in H.
  - revert H. apply (bool_decide_eq_false_1 _). vm_compute. reflexivity.
  - exact sample_capacity_reachable.
  - vm_compute. reflexivity.
  - vm_compute. reflexivity.
  - reflexivity.
Defined.

Lemma release_idempotent_witness :
  release 0 (release 0 sample_capacity) = release 0 sample_capacity.
Proof. apply release_idempotent, sample_capacity_reachable. Defined.

End HostCapacity.
