(* ===== verification/Timer.v ===== *)
(** * Owned timers

    [src/app/core/scheduling/timer.ts]: a class that owns at most one JavaScript
    timer.  The timers the event loop holds for it are the map [scheduled]; each
    remembers whether it repeats and the generation its callback captured.
    [fire] is the event loop running one of them; its first result says whether
    the callback reached [run()]. *)
From S2P Require Import Prelude.

Module OwnedTimer.

Record jsTimer : Type := JsTimer {
  t_delay : Q;
  t_recurring : bool;
  t_generation : Z
}.

Record timer : Type := mkTimer {
  label : string;
  handle : option nat;
  generation : Z;
  closed : bool;
  scheduled : gmap nat jsTimer;
  nextHandle : nat
}.

Definition newTimer (label : string) : timer := mkTimer label None 0 false ∅ 0.

Definition armed (t : timer) : bool := bool_decide (is_Some (handle t)).

(** [cancel]: a new generation, and the platform timer is cleared. *)
Definition cancel (t : timer) : timer :=
  mkTimer (label t) None (generation t + 1) (closed t)
    (match handle t with Some h => delete h (scheduled t) | None => scheduled t end)
    (nextHandle t).

Definition close (t : timer) : timer :=
  cancel (mkTimer (label t) (handle t) (generation t) true (scheduled t) (nextHandle t)).

Definition replace (delayMs : number) (recurring : bool) (t : timer) : res () * timer :=
  if closed t then (Ok (), t) else
  match delayMs with
  | Fin d =>
      if number_ltb (Fin d) (num 0) || (recurring && number_eqb (Fin d) (num 0))
      then (Throw (label t ++ ": timer delay must be "
                   ++ (if recurring then "positive" else "non-negative")), t)
      else
        let t := cancel t in
        (Ok (), mkTimer (label t) (Some (nextHandle t)) (generation t) (closed t)
                  (<[nextHandle t := JsTimer d recurring (generation t)]> (scheduled t))
                  (S (nextHandle t)))
  | _ => (Throw (label t ++ ": timer delay must be "
                 ++ (if recurring then "positive" else "non-negative")), t)
  end.

Definition after (delayMs : number) (t : timer) : res () * timer := replace delayMs false t.
Definition every (intervalMs : number) (t : timer) : res () * timer := replace intervalMs true t.

(** The platform runs timer [h]: a one-shot timer leaves the event loop first. *)
Definition fire (h : nat) (t : timer) : bool * timer :=
  match scheduled t !! h with
  | None => (false, t)
  | Some x =>
      let t :=
        if t_recurring x then t
        else mkTimer (label t) (handle t) (generation t) (closed t)
               (delete h (scheduled t)) (nextHandle t) in
      if closed t || negb (generation t =? t_generation x) then (false, t) else
      (true,
       if t_recurring x then t
       else mkTimer (label t) None (generation t) (closed t) (scheduled t) (nextHandle t))
  end.

(** ** Invariant: the object owns exactly the timer its handle names. *)
Record wf (t : timer) : Prop := mkWf {
  wf_scheduled : forall h x, scheduled t !! h = Some x ->
    handle t = Some h /\ t_generation x = generation t /\ (0 <= t_delay x)%Q /\
    (t_recurring x = true -> (0 < t_delay x)%Q);
  wf_handle : forall h, handle t = Some h -> is_Some (scheduled t !! h);
  wf_fresh : forall h, is_Some (scheduled t !! h) -> (h < nextHandle t)%nat;
  wf_closed : closed t = true -> handle t = None
}.

Lemma wf_unscheduled t : wf t -> handle t = None -> scheduled t = ∅.
Proof.
  intros Hwf Hn. apply map_eq. intros h. rewrite lookup_empty.
  destruct (scheduled t !! h) as [x|] eqn:E; [|done].
  destruct (wf_scheduled t Hwf h x E) as [Hh _]. congruence.
Qed.

Lemma newTimer_wf l : wf (newTimer l).
Proof.
  constructor; simpl; try done. intros h [x Hx]. by rewrite lookup_empty in Hx.
Qed.

Lemma cancel_scheduled t : wf t -> scheduled (cancel t) = ∅.
Proof.
  intros Hwf. simpl. destruct (handle t) as [h|] eqn:Hh; [|by apply wf_unscheduled].
  apply map_eq. intros i. rewrite lookup_empty, lookup_delete. case_decide; [done|].
  destruct (scheduled t !! i) as [x|] eqn:E; [|done].
  destruct (wf_scheduled t Hwf i x E) as [Hi _]. congruence.
Qed.

Lemma cancel_wf t : wf t -> wf (cancel t).
Proof.
  intros Hwf. pose proof (cancel_scheduled t Hwf) as He. constructor.
  - intros h x. by rewrite He, lookup_empty.
  - done.
  - intros h [x Hx]. by rewrite He, lookup_empty in Hx.
  - done.
Qed.

Lemma close_wf t : wf t -> wf (close t) /\ scheduled (close t) = ∅ /\ closed (close t) = true.
Proof.
  intros Hwf. pose proof (cancel_scheduled t Hwf) as He. simpl in He.
  assert (scheduled (close t) = ∅) as He' by exact He. split_ands; auto.
  constructor; rewrite ?He'; try done. intros h [x Hx]. by rewrite lookup_empty in Hx.
Qed.

Lemma replace_wf d r t : wf t -> wf (replace d r t).2.
Proof.
  intros Hwf. unfold replace. destruct (closed t) eqn:Hcl; [done|].
  destruct d as [d| | |]; try done.
  destruct (number_ltb (Fin d) (num 0) || (r && number_eqb (Fin d) (num 0))) eqn:Hd; [done|].
  pose proof (cancel_scheduled t Hwf) as He. cbn [snd].
  unfold number_ltb, number_eqb, num in Hd. reflect_bools.
  apply Qle_bool_iff in H. constructor; simpl in *.
  - intros h x Hx. rewrite He, lookup_insert in Hx.
    case_decide; [|by rewrite lookup_empty in Hx]. injection Hx as <-. subst. simpl.
    split_ands; auto. intros ->. simpl in H0. apply Qle_lteq in H as [?|Heq]; [done|].
    rewrite (proj2 (Qeq_bool_iff d (inject_Z 0))) in H0; [done|by symmetry].
  - intros h [= <-]. by rewrite lookup_insert_eq.
  - intros h [x Hx]. rewrite He, lookup_insert in Hx. case_decide; [lia|].
    by rewrite lookup_empty in Hx.
  - congruence.
Qed.

Lemma fire_wf h t : wf t -> wf (fire h t).2.
Proof.
  intros Hwf. unfold fire. destruct (scheduled t !! h) as [x|] eqn:Hx; [|done].
  destruct (wf_scheduled t Hwf h x Hx) as (Hh & Hg & Hd & Hr).
  assert (closed t = false) as Hcl.
  { destruct (closed t) eqn:E; [|done]. rewrite (wf_closed t Hwf E) in Hh. done. }
  destruct (t_recurring x); simpl; rewrite Hcl, Hg, Z.eqb_refl; [done|]. simpl.
  assert (delete h (scheduled t) = ∅) as He.
  { pose proof (cancel_scheduled t Hwf) as He. simpl in He. by rewrite Hh in He. }
  constructor; simpl; rewrite ?He; try done. intros i [y Hy]. by rewrite lookup_empty in Hy.
Qed.

(** ** Operations and reachable timers *)

Inductive op : Type :=
| OAfter (d : number) | OEvery (d : number) | OCancel | OClose | OFire (h : nat).

Definition run_op (o : op) (t : timer) : timer :=
  match o with
  | OAfter d => (after d t).2
  | OEvery d => (every d t).2
  | OCancel => cancel t
  | OClose => close t
  | OFire h => (fire h t).2
  end.

Definition run_ops (ops : list op) (t : timer) : timer := foldl (fun t o => run_op o t) t ops.

Lemma timer_run_op_wf o t : wf t -> wf (run_op o t).
Proof.
  intros Hwf. destruct o; simpl; auto using cancel_wf, fire_wf.
  - by apply replace_wf.
  - by apply replace_wf.
  - by apply close_wf.
Qed.

Lemma run_ops_wf ops t : wf t -> wf (run_ops ops t).
Proof.
  revert t. induction ops as [|o ops IH]; intros t Hwf; [done|].
  apply IH. by apply timer_run_op_wf.
Qed.

Lemma close_run_op o t : wf t -> closed t = true -> closed (run_op o t) = true.
Proof.
  intros Hwf Hcl. destruct o; simpl; try done.
  - unfold after, replace. by rewrite Hcl.
  - unfold every, replace. by rewrite Hcl.
  - unfold fire. destruct (scheduled t !! h) as [x|] eqn:Hx; [|done].
    by destruct (t_recurring x); simpl; rewrite Hcl.
Qed.

Lemma close_run_ops ops t : wf t -> closed t = true -> closed (run_ops ops t) = true.
Proof.
  revert t. induction ops as [|o ops IH]; intros t Hwf Hcl; [done|].
  apply IH; [by apply timer_run_op_wf | by apply close_run_op].
Qed.

(** ** Properties *)

(** An owned timer holds at most one platform timer, the one its handle
    names, whatever sequence of [after], [every], [cancel], [close] and firings
    preceded; it is armed exactly when it holds one, and a firing of any other
    timer never reaches the callback. *)
Theorem timer_owns_one_timer l ops h :
  let t := run_ops ops (newTimer l) in
  (armed t = true <-> exists h', dom (scheduled t) = {[h']}) /\
  ((fire h t).1 = true <-> handle t = Some h).
Proof.
  intros t. pose proof (run_ops_wf ops (newTimer l) (newTimer_wf l)) as Hwf. fold t in Hwf.
  assert (forall h, handle t = Some h -> dom (scheduled t) = {[h]}) as Hdom.
  { intros i Hi. apply set_eq. intros j. rewrite elem_of_dom, elem_of_singleton. split.
    - intros [x Hx]. destruct (wf_scheduled t Hwf j x Hx) as [Hj _]. congruence.
    - intros ->. by apply (wf_handle t Hwf). }
  split.
  - unfold armed. rewrite bool_decide_eq_true. split.
    + intros [i Hi]. exists i. auto.
    + intros [i Hi]. assert (i ∈ dom (scheduled t)) as [x Hx]%elem_of_dom by set_solver.
      destruct (wf_scheduled t Hwf i x Hx) as [-> _]. by eexists.
  - unfold fire. split.
    + destruct (scheduled t !! h) as [x|] eqn:Hx; [|done].
      by destruct (wf_scheduled t Hwf h x Hx) as [-> _].
    + intros Hh. destruct (wf_handle t Hwf h Hh) as [x Hx]. rewrite Hx.
      destruct (wf_scheduled t Hwf h x Hx) as (_ & Hg & _).
      destruct (closed t) eqn:Hcl; [by rewrite (wf_closed t Hwf Hcl) in Hh|].
      by destruct (t_recurring x); simpl; rewrite ?Hcl, Hg, Z.eqb_refl.
Qed.

(** After [close], no callback ever runs and no platform timer is left,
    whatever is called later. *)
Theorem timer_close_is_final l before later h :
  let t := run_ops later (close (run_ops before (newTimer l))) in
  scheduled t = ∅ /\ armed t = false /\ (fire h t).1 = false.
Proof.
  intros t. set (t0 := run_ops before (newTimer l)) in t.
  pose proof (run_ops_wf before (newTimer l) (newTimer_wf l)) as Hwf0. fold t0 in Hwf0.
  destruct (close_wf t0 Hwf0) as (Hwf1 & _ & Hcl1).
  assert (wf t) as Hwf by (by apply run_ops_wf).
  assert (closed t = true) as Hcl by (by apply close_run_ops).
  pose proof (wf_closed t Hwf Hcl) as Hh.
  assert (scheduled t = ∅) as He by (by apply wf_unscheduled).
  split_ands; [done| |].
  - unfold armed. rewrite Hh. apply bool_decide_eq_false. intros [? [=]].
  - unfold fire. by rewrite He, lookup_empty.
Qed.

(** [after] and [every] throw exactly on a delay that is not finite, is
    negative, or is zero for a repeating timer (and never on a closed timer,
    where they do nothing); a rejected call leaves the armed timer alone. *)
Lemma timer_delay_validation d r t :
  let bad :=
    match d with
    | Fin q => negb (Qle_bool 0 q) || (r && Qeq_bool q 0)
    | _ => true
    end in
  is_ok (replace d r t).1 = closed t || negb bad /\
  (is_ok (replace d r t).1 = false -> (replace d r t).2 = t).
Proof.
  unfold replace. destruct (closed t) eqn:Hcl; [done|].
  destruct d as [q| | |]; try done. simpl. unfold inject_Z.
  by destruct (Qle_bool 0 q), r, (Qeq_bool q 0).
Qed.

End OwnedTimer.
