(* ===== verification/Controller.v ===== *)
(** The App task controller ([src/app/core/tasks/controller.ts]): one
    level-based reconciliation worker pool for one App, and the Host-wide queue
    of pumps it shares with the other Apps.

    A [world] is one controller with what it touches: its [AppTaskQueue], the
    Host pump queue, the shared [HostCapacity], the platform timers of its
    retries and the reconciliations in flight.  Pumps of other controllers are
    other owners in the pump queue.  What the code reads from outside is an
    argument of the call that reads it: the clock, the outcome of
    [options.readScheduling] and the outcome of a reconciliation. *)
From S2P Require Import Prelude Queue HostCapacity.

Module Controller.
Import AppTaskQueue.

(** ** Host pump queue *)

Record hostPumps : Type := mkPumps { pumpQueue : list nat; pumpScheduled : bool }.

Definition armHostPump (p : hostPumps) : hostPumps :=
  if pumpScheduled p then p else mkPumps (pumpQueue p) true.

Definition scheduleHostPump (owner : nat) (p : hostPumps) : hostPumps :=
  armHostPump (mkPumps (pumpQueue p ++ [owner]) (pumpScheduled p)).

Definition cancelHostPumps (owner : nat) (p : hostPumps) : hostPumps :=
  mkPumps (filter (fun o => o <> owner) (pumpQueue p)) (pumpScheduled p).

(** The timeout fires: one pump leaves the queue; the queue re-arms after it ran. *)
Definition pumpTurn (p : hostPumps) : option nat * hostPumps :=
  match pumpQueue p with
  | [] => (None, mkPumps [] false)
  | o :: rest => (Some o, mkPumps rest false)
  end.

Definition pumpRearm (p : hostPumps) : hostPumps :=
  match pumpQueue p with [] => p | _ => armHostPump p end.

(** ** State *)

Record AppTaskDispatch : Type := mkDispatch {
  d_enqueuedAt : Z; d_startedAt : Z; d_readyWaitMs : Z; d_lane : AppTaskLane }.

(** One reconciliation in flight; [r_settled] once its promise chain has passed
    the [then]/[catch] callbacks and only [finally] is left. *)
Record run_t : Type := mkRun {
  r_task : string; r_release : option nat; r_lane : AppTaskLane; r_settled : bool }.

Record controller : Type := mkController {
  queue_ : queue;
  failures : gmap string Z;
  retryTimers : gmap string nat;
  readySince : gmap string Z;
  scheduled : bool;
  closed : bool;
  enabled : bool;
  startReady : bool;
  waitingForCapacity : bool;
  waitingCapacityLane : option AppTaskLane;
  waitingCapacityForeground : option bool;
  cancelCapacityWait : option nat;
  drainWaiters : list nat;
  drained : list nat;
  backgroundPaused : bool;
  foregroundTaskIds : gset string }.

Record world : Type := mkWorld {
  ctl : controller;
  pumps : hostPumps;
  cap : option HostCapacity.capacity;
  timers : gmap nat (string * AppTaskLane * Z);
  nextTimer : nat;
  runs : gmap nat run_t;
  nextRun : nat;
  dispatched : list (string * AppTaskDispatch) }.

(** The owner of this controller's pumps. *)
Definition me : nat := 0.

(** ** Field updates *)

Definition upd (f : controller -> controller) (w : world) : world :=
  mkWorld (f (ctl w)) (pumps w) (cap w) (timers w) (nextTimer w) (runs w) (nextRun w) (dispatched w).
Definition set_pumps (p : hostPumps) (w : world) : world :=
  mkWorld (ctl w) p (cap w) (timers w) (nextTimer w) (runs w) (nextRun w) (dispatched w).
Definition set_cap (c : option HostCapacity.capacity) (w : world) : world :=
  mkWorld (ctl w) (pumps w) c (timers w) (nextTimer w) (runs w) (nextRun w) (dispatched w).
Definition set_timers (t : gmap nat (string * AppTaskLane * Z)) (n : nat) (w : world) : world :=
  mkWorld (ctl w) (pumps w) (cap w) t n (runs w) (nextRun w) (dispatched w).
Definition set_runs (r : gmap nat run_t) (n : nat) (d : list (string * AppTaskDispatch)) (w : world) : world :=
  mkWorld (ctl w) (pumps w) (cap w) (timers w) (nextTimer w) r n d.

Definition set_queue (q : queue) (c : controller) : controller :=
  mkController q (failures c) (retryTimers c) (readySince c) (scheduled c) (closed c) (enabled c)
    (startReady c) (waitingForCapacity c) (waitingCapacityLane c) (waitingCapacityForeground c)
    (cancelCapacityWait c) (drainWaiters c) (drained c) (backgroundPaused c) (foregroundTaskIds c).
Definition set_retry (f : gmap string Z) (t : gmap string nat) (r : gmap string Z) (c : controller) : controller :=
  mkController (queue_ c) f t r (scheduled c) (closed c) (enabled c)
    (startReady c) (waitingForCapacity c) (waitingCapacityLane c) (waitingCapacityForeground c)
    (cancelCapacityWait c) (drainWaiters c) (drained c) (backgroundPaused c) (foregroundTaskIds c).
Definition set_flags (sch cl en st : bool) (c : controller) : controller :=
  mkController (queue_ c) (failures c) (retryTimers c) (readySince c) sch cl en st
    (waitingForCapacity c) (waitingCapacityLane c) (waitingCapacityForeground c)
    (cancelCapacityWait c) (drainWaiters c) (drained c) (backgroundPaused c) (foregroundTaskIds c).
Definition set_wait (b : bool) (l : option AppTaskLane) (f : option bool) (k : option nat) (c : controller) : controller :=
  mkController (queue_ c) (failures c) (retryTimers c) (readySince c) (scheduled c) (closed c) (enabled c)
    (startReady c) b l f k (drainWaiters c) (drained c) (backgroundPaused c) (foregroundTaskIds c).
Definition set_drain (ws done_ : list nat) (c : controller) : controller :=
  mkController (queue_ c) (failures c) (retryTimers c) (readySince c) (scheduled c) (closed c) (enabled c)
    (startReady c) (waitingForCapacity c) (waitingCapacityLane c) (waitingCapacityForeground c)
    (cancelCapacityWait c) ws done_ (backgroundPaused c) (foregroundTaskIds c).
Definition set_scheduling (p : bool) (f : gset string) (c : controller) : controller :=
  mkController (queue_ c) (failures c) (retryTimers c) (readySince c) (scheduled c) (closed c) (enabled c)
    (startReady c) (waitingForCapacity c) (waitingCapacityLane c) (waitingCapacityForeground c)
    (cancelCapacityWait c) (drainWaiters c) (drained c) p f.

Definition set_scheduled (b : bool) (c : controller) : controller :=
  set_flags b (closed c) (enabled c) (startReady c) c.

(** ** Helpers *)

(** The two closures the constructor gives to the queue. *)
Definition isForeground (c : controller) (taskId : string) : bool := bool_decide (taskId ∈ foregroundTaskIds c).
Definition isReady (c : controller) (taskId : string) : bool :=
  bool_decide (retryTimers c !! taskId = None) && (negb (backgroundPaused c) || isForeground c taskId).

Definition peekNext (c : controller) : option selection := peek (isReady c) (isForeground c) (queue_ c).

Definition isDrained (c : controller) : bool :=
  closed c && startReady c && Nat.eqb (length (running (queue_ c))) 0.

Definition resolveDrainWaiters (w : world) : world :=
  if isDrained (ctl w) then upd (fun c => set_drain [] (drained c ++ drainWaiters c) c) w else w.

(** [whenDrained]: the promise is numbered; [true] when already resolved. *)
Definition whenDrained (promise : nat) (w : world) : bool * world :=
  if isDrained (ctl w) then (true, w)
  else (false, upd (fun c => set_drain (drainWaiters c ++ [promise]) (drained c) c) w).

Definition schedulePump (w : world) : world :=
  let c := ctl w in
  if scheduled c || closed c || negb (enabled c) || negb (startReady c) then w
  else set_pumps (scheduleHostPump me (pumps w)) (upd (set_scheduled true) w).

(** [cancelCapacityWait?.()] and the reset of the four wait fields. *)
Definition dropCapacityWait (w : world) : world :=
  let w := match cancelCapacityWait (ctl w), cap w with
           | Some k, Some hc => set_cap (Some (HostCapacity.cancel k hc)) w
           | _, _ => w
           end in
  upd (set_wait false None None None) w.

Section Options.
(** [options.retryDelayMs]: [None] where it is absent. *)
Context (retryDelayMs : option (Z -> Z)).

Definition retryDelay (attempt : Z) : Z :=
  Z.max 0 (match retryDelayMs with
           | Some f => f attempt
           | None => Z.min 30000 (250 * 2 ^ (attempt - 1))
           end).

Definition recordFailure (taskId : string) (lane : AppTaskLane) (w : world) : world :=
  let c := ctl w in
  let attempt := default 0 (failures c !! taskId) + 1 in
  let willRetry := negb (closed c) in
  let f := <[taskId := attempt]> (failures c) in
  if willRetry then
    set_timers (<[nextTimer w := (taskId, lane, retryDelay attempt)]> (timers w)) (S (nextTimer w))
      (upd (set_retry f (<[taskId := nextTimer w]> (retryTimers c)) (readySince c)) w)
  else upd (set_retry f (retryTimers c) (readySince c)) w.

(** [readScheduling] returned, or threw and the first pending Task backs off. *)
Definition refreshScheduling (read : res (bool * gset string)) (w : world) : bool * world :=
  match read with
  | Ok (paused, fg) => (true, upd (set_scheduling paused fg) w)
  | Throw _ =>
      match pending (queue_ (ctl w)) with
      | taskId :: _ =>
          if negb (String.eqb taskId "") && bool_decide (retryTimers (ctl w) !! taskId = None)
          then (false, recordFailure taskId normal w) else (false, w)
      | [] => (false, w)
      end
  end.

Definition run (taskId : string) (release : option nat) (lane : AppTaskLane) (now : Z) (w : world) : world :=
  let c := ctl w in
  let enqueuedAt := default now (readySince c !! taskId) in
  let dispatch := mkDispatch enqueuedAt now (Z.max 0 (now - enqueuedAt)) lane in
  let w := upd (set_retry (failures c) (retryTimers c) (delete taskId (readySince c))) w in
  set_runs (<[nextRun w := mkRun taskId release lane false]> (runs w)) (S (nextRun w))
    (if closed c then dispatched w else dispatched w ++ [(taskId, dispatch)]) w.

(** [enqueue] after the queue took the wake: a wait for the wrong lane is dropped. *)
Definition rescan (read : res (bool * gset string)) (w : world) : world :=
  let '(ok, w) := refreshScheduling read w in
  if negb ok then w else
  let c := ctl w in
  let w :=
    match peekNext c with
    | Some next =>
        if waitingForCapacity c &&
           (negb (bool_decide (waitingCapacityForeground c = Some (sel_foreground next))) ||
            (bool_decide (waitingCapacityLane c = Some normal) && bool_decide (sel_lane next = human)))
        then dropCapacityWait w else w
    | None => w
    end in
  schedulePump w.

Definition enqueue (taskId : string) (opts : AppTaskQueueOptions) (now : Z)
    (read : res (bool * gset string)) (w : world) : res bool * world :=
  if closed (ctl w) then (Ok false, w) else
  match AppTaskQueue.enqueue taskId opts (queue_ (ctl w)) with
  | (Throw e, q) => (Throw e, upd (set_queue q) w)
  | (Ok added, q) =>
      let w := upd (set_queue q) w in
      let w := if added && bool_decide (readySince (ctl w) !! taskId = None)
               then upd (fun c => set_retry (failures c) (retryTimers c) (<[taskId := now]> (readySince c)) c) w
               else w in
      (Ok added, rescan read w)
  end.

Definition updateMaxConcurrent (n : number) (w : world) : res unit * world :=
  if closed (ctl w) then (Ok tt, w) else
  match AppTaskQueue.updateMaxConcurrent n (queue_ (ctl w)) with
  | (Throw e, q) => (Throw e, upd (set_queue q) w)
  | (Ok _, q) => (Ok tt, schedulePump (upd (set_queue q) w))
  end.

Definition setEnabled (b : bool) (w : world) : world :=
  let c := ctl w in
  if closed c || Bool.eqb (enabled c) b then w else
  let w := upd (fun c => set_flags (scheduled c) (closed c) b (startReady c) c) w in
  if b then schedulePump w
  else dropCapacityWait (set_pumps (cancelHostPumps me (pumps w)) (upd (set_scheduled false) w)).

(** [clearTimeout] of every retry timer. *)
Definition clearTimers (w : world) : world :=
  set_timers (filter (fun e => e.1 ∉ map snd (map_to_list (retryTimers (ctl w)))) (timers w)) (nextTimer w) w.

Definition close (w : world) : world :=
  let w := upd (fun c => set_flags (scheduled c) true (enabled c) (startReady c) c) w in
  let w := clearTimers w in
  let w := upd (fun c => set_retry (failures c) ∅ (readySince c) c) w in
  let w := set_pumps (cancelHostPumps me (pumps w)) w in
  let w := dropCapacityWait w in
  let w := upd (fun c => set_retry (failures c) (retryTimers c) ∅ c) w in
  resolveDrainWaiters w.

Definition waitForCapacity (lane : AppTaskLane) (foreground : bool) (w : world) : world :=
  let c := ctl w in
  match cap w with
  | None => w
  | Some hc =>
      if waitingForCapacity c || closed c || negb (enabled c) || negb (startReady c) then w else
      let '(k, hc) := HostCapacity.acquireCancellableLane foreground hc in
      set_cap (Some hc) (upd (set_wait true (Some lane) (Some foreground) (Some k)) w)
  end.

Definition releaseCapacity (h : nat) (w : world) : world :=
  match cap w with Some hc => set_cap (Some (HostCapacity.release h hc)) w | None => w end.

(** The callback of the capacity wait; [foreground] is the lane it asked for. *)
Definition acquired (h : nat) (foreground : bool) (now : Z) (read : res (bool * gset string)) (w : world) : world :=
  let w := upd (set_wait false None None None) w in
  let c := ctl w in
  if closed c || negb (enabled c) || negb (startReady c)
  then resolveDrainWaiters (releaseCapacity h w)
  else
    let '(ok, w) := refreshScheduling read w in
    if negb ok then releaseCapacity h w else
    let c := ctl w in
    let next := peekNext c in
    match next with
    | Some n =>
        if Bool.eqb (sel_foreground n) foreground then
          match take (isReady c) (isForeground c) (queue_ c) with
          | (Some taskId, q) => schedulePump (run taskId (Some h) (sel_lane n) now (upd (set_queue q) w))
          | (None, q) => schedulePump (releaseCapacity h (upd (set_queue q) w))
          end
        else schedulePump (releaseCapacity h w)
    | None => schedulePump (releaseCapacity h w)
    end.

(** After a dispatch: another turn if more work is eligible. *)
Definition pumpMore (w : world) : world :=
  match peekNext (ctl w) with Some _ => schedulePump w | None => w end.

Definition pump (now : Z) (read : res (bool * gset string)) (w : world) : world :=
  if closed (ctl w) || negb (enabled (ctl w)) then w else
  let '(ok, w) := refreshScheduling read w in
  if negb ok then w else
  let c := ctl w in
  match peekNext c with
  | None => w
  | Some next =>
      match cap w with
      | Some hc =>
          match HostCapacity.callTry (sel_foreground next) hc with
          | (None, hc) => waitForCapacity (sel_lane next) (sel_foreground next) (set_cap (Some hc) w)
          | (Some h, hc) =>
              let w := set_cap (Some hc) w in
              match take (isReady c) (isForeground c) (queue_ c) with
              | (None, q) => releaseCapacity h (upd (set_queue q) w)
              | (Some taskId, q) => pumpMore (run taskId (Some h) (sel_lane next) now (upd (set_queue q) w))
              end
          end
      | None =>
          match take (isReady c) (isForeground c) (queue_ c) with
          | (None, q) => upd (set_queue q) w
          | (Some taskId, q) => pumpMore (run taskId None (sel_lane next) now (upd (set_queue q) w))
          end
      end
  end.

(** One turn of the Host pump timeout: the first owner runs; ours calls [pump]. *)
Definition hostTurn (now : Z) (read : res (bool * gset string)) (w : world) : world :=
  if negb (pumpScheduled (pumps w)) then w else
  let '(owner, p) := pumpTurn (pumps w) in
  let w := set_pumps p w in
  let w := match owner with
           | Some o => if Nat.eqb o me then pump now read (upd (set_scheduled false) w) else w
           | None => w
           end in
  set_pumps (pumpRearm (pumps w)) w.

(** The promise chain of a reconciliation: [then] or [catch] ... *)
Definition settle (r : nat) (failed : bool) (w : world) : world :=
  match runs w !! r with
  | Some x =>
      if r_settled x then w else
      let w := set_runs (<[r := mkRun (r_task x) (r_release x) (r_lane x) true]> (runs w)) (nextRun w) (dispatched w) w in
      if failed then recordFailure (r_task x) (r_lane x) w
      else upd (fun c => set_retry (delete (r_task x) (failures c)) (retryTimers c) (readySince c) c) w
  | None => w
  end.

(** ... then [finally]: the Task completes, its capacity is released. *)
Definition finish (r : nat) (w : world) : res unit * world :=
  match runs w !! r with
  | Some x =>
      if negb (r_settled x) then (Ok tt, w) else
      let w := set_runs (delete r (runs w)) (nextRun w) (dispatched w) w in
      match complete (r_task x) (queue_ (ctl w)) with
      | (Throw e, q) => (Throw e, upd (set_queue q) w)
      | (Ok _, q) =>
          let w := upd (set_queue q) w in
          let w := match r_release x with Some h => releaseCapacity h w | None => w end in
          (Ok tt, schedulePump (resolveDrainWaiters w))
      end
  | None => (Ok tt, w)
  end.

(** A retry timer fires. *)
Definition fireRetry (t : nat) (now : Z) (read : res (bool * gset string)) (w : world) : res bool * world :=
  match timers w !! t with
  | Some (taskId, lane, _) =>
      let w := set_timers (delete t (timers w)) (nextTimer w) w in
      let w := upd (fun c => set_retry (failures c) (delete taskId (retryTimers c)) (readySince c) c) w in
      enqueue taskId (Options false None (Some lane)) now read w
  | None => (Ok false, w)
  end.

Definition releaseStartGate (w : world) : world :=
  schedulePump (resolveDrainWaiters (upd (fun c => set_flags (scheduled c) (closed c) (enabled c) true c) w)).

(** The Host capacity's timeout at position [i] fires; the handle of our wait
    reaches [acquired]. *)
Definition capacityTimeout (i : nat) (now : Z) (read : res (bool * gset string)) (w : world) : world :=
  match cap w with
  | None => w
  | Some hc =>
      match HostCapacity.timeouts hc !! i with
      | None => w
      | Some (k, h) =>
          let live := match HostCapacity.cells hc !! k with Some x => HostCapacity.c_active x | None => false end in
          let foreground := waitingCapacityForeground (ctl w) in
          let w := set_cap (Some (HostCapacity.fireTimeout i hc)) w in
          if live && bool_decide (cancelCapacityWait (ctl w) = Some k)
          then acquired h (default false foreground) now read w else w
      end
  end.

End Options.

(** The constructor; [startAfter] tells whether a predecessor must drain first. *)
Definition newController (maxConcurrent : number) (startAfter : bool) : res controller :=
  match newQueue maxConcurrent with
  | Throw e => Throw e
  | Ok q => Ok (mkController q ∅ ∅ ∅ false false true (negb startAfter) false None None None [] [] false ∅)
  end.

(** ** Operations and reachable worlds *)

Inductive op : Type :=
| OpEnqueue (taskId : string) (opts : AppTaskQueueOptions) (now : Z) (read : res (bool * gset string))
| OpUpdate (n : number)
| OpEnable (b : bool)
| OpClose
| OpWhenDrained (promise : nat)
| OpTurn (now : Z) (read : res (bool * gset string))
| OpSettle (r : nat) (failed : bool)
| OpFinish (r : nat)
| OpFire (t : nat) (now : Z) (read : res (bool * gset string))
| OpGate
| OpCapacity (i : nat) (now : Z) (read : res (bool * gset string))
| EnvPump (owner : nat)
| EnvCancelPumps (owner : nat)
| EnvCapacity (o : HostCapacity.op).

(** What the other holders of the Host capacity may do: anything but cancel
    this controller's wait; timeouts fire through [OpCapacity]. *)
Definition foreign (w : world) (o : HostCapacity.op) : bool :=
  match o with
  | HostCapacity.OCancel k => negb (bool_decide (cancelCapacityWait (ctl w) = Some k))
  | HostCapacity.OFire _ => false
  | _ => true
  end.

Definition run_op (delay : option (Z -> Z)) (o : op) (w : world) : world :=
  match o with
  | OpEnqueue t opts now read => (enqueue delay t opts now read w).2
  | OpUpdate n => (updateMaxConcurrent n w).2
  | OpEnable b => setEnabled b w
  | OpClose => close w
  | OpWhenDrained p => (whenDrained p w).2
  | OpTurn now read => hostTurn delay now read w
  | OpSettle r failed => settle delay r failed w
  | OpFinish r => (finish r w).2
  | OpFire t now read => (fireRetry delay t now read w).2
  | OpGate => releaseStartGate w
  | OpCapacity i now read => capacityTimeout delay i now read w
  | EnvPump o => if Nat.eqb o me then w else set_pumps (scheduleHostPump o (pumps w)) w
  | EnvCancelPumps o => if Nat.eqb o me then w else set_pumps (cancelHostPumps o (pumps w)) w
  | EnvCapacity o =>
      match cap w with
      | Some hc => if foreign w o then set_cap (Some (HostCapacity.run_op o hc)) w else w
      | None => w
      end
  end.

Definition run_ops (delay : option (Z -> Z)) (ops : list op) (w : world) : world :=
  foldl (fun w o => run_op delay o w) w ops.

(** A new controller beside the pumps of other Apps and the Host capacity. *)
Definition initial (w : world) : Prop :=
  (exists n startAfter, newController n startAfter = Ok (ctl w)) /\
  me ∉ pumpQueue (pumps w) /\ (pumpQueue (pumps w) <> [] -> pumpScheduled (pumps w) = true) /\
  (forall hc, cap w = Some hc -> HostCapacity.reachable hc) /\
  timers w = ∅ /\ runs w = ∅ /\ dispatched w = [].

Inductive reachable (delay : option (Z -> Z)) : world -> Prop :=
| reach_initial w : initial w -> reachable delay w
| reach_op o w : reachable delay w -> reachable delay (run_op delay o w).

(** ** Invariant *)

(** The running tasks of the queue are the reconciliations in flight, one each. *)
Record runs_rec (q : queue) (rs : gmap nat run_t) (next : nat) : Prop := mkRunsOk {
  ro_queue : wf q;
  ro_running : forall t, t ∈ running q <-> exists r x, rs !! r = Some x /\ r_task x = t;
  ro_inj : forall r1 r2 x1 x2, rs !! r1 = Some x1 -> rs !! r2 = Some x2 ->
    r_task x1 = r_task x2 -> r1 = r2;
  ro_ids : forall r, is_Some (rs !! r) -> (r < next)%nat }.

(** Each retry entry is one armed timer, and a task in its pass has none. *)
Record timers_rec (rt : gmap string nat) (tm : gmap nat (string * AppTaskLane * Z)) (next : nat)
    (cl : bool) (rs : gmap nat run_t) : Prop := mkTimersOk {
  to_iff : forall t n, rt !! t = Some n <-> exists l d, tm !! n = Some (t, l, d);
  to_ids : forall n, is_Some (tm !! n) -> (n < next)%nat;
  to_keys : forall t, is_Some (rt !! t) -> trim t = t /\ t <> "";
  to_closed : cl = true -> rt = ∅;
  to_backoff : forall r x, rs !! r = Some x -> r_settled x = false -> rt !! r_task x = None }.

Definition runs_ok (w : world) : Prop := runs_rec (queue_ (ctl w)) (runs w) (nextRun w).
Definition timers_ok (w : world) : Prop :=
  timers_rec (retryTimers (ctl w)) (timers w) (nextTimer w) (closed (ctl w)) (runs w).

Section Armed.
(** Whether the pump queue is armed when it is not empty: always, except inside
    its own timeout callback. *)
Context (armed : bool).

(** The flag [scheduled] of an open controller is its one pump in the queue. *)
Definition pumps_ok (w : world) : Prop :=
  (armed = true -> pumpQueue (pumps w) <> [] -> pumpScheduled (pumps w) = true) /\
  filter (fun o => o = me) (pumpQueue (pumps w)) =
    if negb (closed (ctl w)) && scheduled (ctl w) then [me] else [].

(** A capacity wait is a live acquisition of an open, enabled, started controller. *)
Definition wait_ok (w : world) : Prop :=
  (forall hc, cap w = Some hc -> HostCapacity.inv hc) /\
  if waitingForCapacity (ctl w) then
    closed (ctl w) = false /\ enabled (ctl w) = true /\ startReady (ctl w) = true /\
    exists hc k, cap w = Some hc /\ cancelCapacityWait (ctl w) = Some k /\ HostCapacity.live k hc
  else cancelCapacityWait (ctl w) = None.

(** A drained controller keeps nobody waiting for its drain. *)
Definition drain_ok (w : world) : Prop := isDrained (ctl w) = true -> drainWaiters (ctl w) = [].

Record base (w : world) : Prop := mkBase {
  b_runs : runs_ok w; b_timers : timers_ok w; b_pumps : pumps_ok w; b_wait : wait_ok w }.

(** Something will look at the queue again. *)
Definition awake (w : world) : Prop :=
  scheduled (ctl w) = true \/ waitingForCapacity (ctl w) = true \/
  exists t, t ∈ pending (queue_ (ctl w)) /\ is_Some (retryTimers (ctl w) !! t).

Definition work_ok (w : world) : Prop :=
  closed (ctl w) = false -> enabled (ctl w) = true -> startReady (ctl w) = true ->
  peekNext (ctl w) <> None -> awake w.

Record inv (w : world) : Prop := mkInv { i_base : base w; i_drain : drain_ok w; i_work : work_ok w }.

(** An unchanged part of the state keeps its invariant by conversion. *)
Ltac base_by H := constructor; [try exact (b_runs _ H) | try exact (b_timers _ H)
  | try exact (b_pumps _ H) | try exact (b_wait _ H)].

Lemma schedulePump_base w : base w -> base (schedulePump w).
Proof.
  intros H. unfold schedulePump. destruct (_ || _) eqn:E; [done|]. reflect_bools.
  base_by H. destruct (b_pumps _ H) as [Ha Hf]. split; simpl.
  - intros _ _. unfold scheduleHostPump, armHostPump. simpl. by destruct (pumpScheduled (pumps w)) eqn:E'.
  - replace (pumpQueue (scheduleHostPump me (pumps w))) with (pumpQueue (pumps w) ++ [me])
      by (unfold scheduleHostPump, armHostPump; simpl; by destruct (pumpScheduled _)).
    rewrite filter_app, Hf. destruct (closed (ctl w)), (scheduled (ctl w)); done.
Qed.

Lemma schedulePump_work w : work_ok (schedulePump w).
Proof.
  intros Hc He Hs _. unfold schedulePump in *. destruct (_ || _) eqn:E; [|by left].
  rewrite Hc, He, Hs in E. simpl in E. rewrite !orb_false_r in E. by left.
Qed.

(** [schedulePump] touches the pumps and [scheduled] only. *)
Lemma schedulePump_drain w : drain_ok w -> drain_ok (schedulePump w).
Proof. unfold schedulePump. by destruct (_ || _). Qed.

Lemma schedulePump_inv w : base w -> drain_ok w -> inv (schedulePump w).
Proof. constructor; eauto using schedulePump_base, schedulePump_work, schedulePump_drain. Qed.

Lemma dropCapacityWait_any w :
  runs_ok w -> timers_ok w -> pumps_ok w -> (forall hc, cap w = Some hc -> HostCapacity.inv hc) ->
  base (dropCapacityWait w).
Proof.
  intros Hr Ht Hp Hc. unfold dropCapacityWait.
  destruct (cancelCapacityWait (ctl w)) as [k|], (cap w) as [hc|] eqn:E; constructor; try done;
    (split; [|done]); simpl; try rewrite E; try done.
  intros ? [= <-]. apply HostCapacity.cancel_inv. auto.
Qed.

Lemma dropCapacityWait_base w : base w -> base (dropCapacityWait w).
Proof. intros [? ? ? [? _]]. by apply dropCapacityWait_any. Qed.

Lemma dropCapacityWait_drain w : drain_ok w -> drain_ok (dropCapacityWait w).
Proof. unfold dropCapacityWait. by destruct (cancelCapacityWait _), (cap w). Qed.

Lemma releaseCapacity_base h w : base w -> base (releaseCapacity h w).
Proof.
  intros H. unfold releaseCapacity. destruct (cap w) as [hc|] eqn:E; [|done].
  base_by H. destruct (b_wait _ H) as [Hc Hw]. split; simpl.
  - intros ? [= <-]. apply HostCapacity.release_inv. auto.
  - destruct (waitingForCapacity (ctl w)); [|done]. destruct Hw as (? & ? & ? & hc' & k & E' & ? & ?).
    split_ands; auto. eexists _, k. rewrite E in E'. injection E' as <-.
    split_ands; eauto using HostCapacity.live_release.
Qed.

Lemma releaseCapacity_ctl h w : ctl (releaseCapacity h w) = ctl w.
Proof. unfold releaseCapacity. by destruct (cap w). Qed.

Lemma resolveDrainWaiters_base w : base w -> base (resolveDrainWaiters w).
Proof. intros H. unfold resolveDrainWaiters. destruct (isDrained _); [|done]. base_by H. Qed.

Lemma resolveDrainWaiters_drain w : drain_ok (resolveDrainWaiters w).
Proof. unfold resolveDrainWaiters, drain_ok. by destruct (isDrained (ctl w)) eqn:E; simpl; [|rewrite E]. Qed.

(** *** Backoff *)

Lemma recordFailure_base delay t l w :
  base w -> retryTimers (ctl w) !! t = None -> trim t = t -> t <> "" ->
  (forall r x, runs w !! r = Some x -> r_settled x = false -> r_task x <> t) ->
  base (recordFailure delay t l w).
Proof.
  intros H Hnone Htrim Hne Hruns. unfold recordFailure.
  destruct (closed (ctl w)) eqn:Hcl; simpl; [base_by H; by destruct (b_timers _ H)|].
  base_by H. destruct (b_timers _ H) as [Hiff Hids Hkeys _ Hback]. constructor; simpl.
  - intros t' n. rewrite !lookup_insert. destruct (decide (t = t')) as [->|Hd].
    + case_decide as Hn; [naive_solver|]. split; [naive_solver|].
      intros Hin%Hiff. by rewrite Hnone in Hin.
    + rewrite Hiff. case_decide as Hn; [|done]. subst n. split; [|naive_solver].
      intros (l' & d & Hin). pose proof (Hids _ (mk_is_Some _ _ Hin)). lia.
  - intros n [z Hz]. rewrite lookup_insert in Hz. case_decide; [lia|].
    pose proof (Hids _ (mk_is_Some _ _ Hz)). lia.
  - intros t' [z Hz]. rewrite lookup_insert in Hz. case_decide; [by subst|]. apply Hkeys. eauto.
  - by rewrite Hcl.
  - intros r x Hr Hs. rewrite lookup_insert_ne by (intros ->; by apply (Hruns r x Hr Hs)). eauto.
Qed.

(** [recordFailure] leaves everything but the retry state. *)
Lemma recordFailure_same delay t l w :
  let w' := recordFailure delay t l w in
  queue_ (ctl w') = queue_ (ctl w) /\ closed (ctl w') = closed (ctl w) /\
  enabled (ctl w') = enabled (ctl w) /\ startReady (ctl w') = startReady (ctl w) /\
  drainWaiters (ctl w') = drainWaiters (ctl w) /\ runs w' = runs w /\ dispatched w' = dispatched w /\
  (closed (ctl w) = false -> is_Some (retryTimers (ctl w') !! t)).
Proof.
  unfold recordFailure. destruct (closed (ctl w)) eqn:E; simpl; split_ands; try done.
  intros _. rewrite lookup_insert_eq. eauto.
Qed.

(** A task that backs off is not eligible: backing off more tasks keeps nothing awake. *)
Lemma peek_mono isReady isReady' isForeground q :
  (forall k, isReady' k = true -> isReady k = true) ->
  peek isReady' isForeground q <> None -> peek isReady isForeground q <> None.
Proof.
  intros Hr Hn Hnone. apply Hn, peek_None. intros k Hk.
  pose proof (proj1 (peek_None _ _ _) Hnone k Hk) as He. unfold eligible in *.
  destruct (isReady' k) eqn:E; [|by rewrite andb_false_r]. by rewrite (Hr k E) in He.
Qed.

Lemma recordFailure_work delay t l w : work_ok w -> work_ok (recordFailure delay t l w).
Proof.
  intros Hw. unfold recordFailure. destruct (closed (ctl w)) eqn:Hcl; simpl.
  { intros Ho. simpl in Ho. by rewrite Hcl in Ho. }
  intros Ho He Hs Hn. simpl in Ho, He, Hs.
  destruct Hw as [?|[?|(u & Hu & Ht)]]; auto.
  - revert Hn. unfold peekNext. simpl. apply peek_mono. intros k. unfold isReady. simpl.
    intros Hk. reflect_bools. rewrite lookup_insert in *. case_decide; [done|].
    by rewrite bool_decide_eq_true_2.
  - by left.
  - right. by left.
  - right. right. exists u. split; [done|]. simpl. rewrite lookup_insert. case_decide; eauto.
Qed.

Lemma peek_pending_nil isReady isForeground q : pending q = [] -> peek isReady isForeground q = None.
Proof. intros Hp. apply peek_None. rewrite Hp. set_solver. Qed.

(** A failed scheduling read leaves the first pending task in backoff. *)
Lemma refreshScheduling_spec delay read w ok w' :
  base w -> refreshScheduling delay read w = (ok, w') ->
  base w' /\ (drain_ok w -> drain_ok w') /\ (ok = false -> work_ok w') /\
  closed (ctl w') = closed (ctl w) /\ enabled (ctl w') = enabled (ctl w) /\
  startReady (ctl w') = startReady (ctl w) /\ queue_ (ctl w') = queue_ (ctl w) /\
  runs w' = runs w /\ dispatched w' = dispatched w.
Proof.
  intros H. unfold refreshScheduling. destruct read as [[p f]|e].
  { intros [= <- <-]. split_ands; try done. base_by H. }
  destruct (pending (queue_ (ctl w))) as [|t rest] eqn:Hp.
  { intros [= <- <-]. split_ands; try done. intros _ _ _ _ Hn. destruct Hn. by apply peek_pending_nil. }
  assert (t ∈ pending (queue_ (ctl w))) as Hin by (rewrite Hp; set_solver).
  destruct (b_runs _ H) as [Hq Hrun _ _].
  destruct (wf_keys _ Hq t) as [Htrim Hne]; [by left|].
  rewrite (proj2 (String.eqb_neq _ _) Hne). simpl. case_bool_decide as Hno; intros [= <- <-].
  - pose proof (recordFailure_same delay t normal w) as (-> & Ec & -> & -> & Ed & -> & -> & Hs).
    split_ands; try done.
    + apply recordFailure_base; auto. intros r x Hr _ Heq.
      apply (wf_disjoint _ Hq t Hin). apply Hrun. by exists r, x.
    + unfold drain_ok, isDrained. rewrite Ec, Ed. unfold recordFailure. by destruct (closed (ctl w)).
    + intros _ Ho _ _ _. rewrite Ec in Ho. right. right. exists t. split; [|by apply Hs].
      unfold recordFailure. rewrite Ho. done.
  - split_ands; try done. intros _ _ _ _ _. right. right. exists t. split; [done|].
    by apply not_eq_None_Some.
Qed.

(** *** Dispatch *)

Lemma run_take_base t q rel l now w :
  base w -> take (isReady (ctl w)) (isForeground (ctl w)) (queue_ (ctl w)) = (Some t, q) ->
  base (run t rel l now (upd (set_queue q) w)).
Proof.
  intros H Ht. destruct (b_runs _ H) as [Hq Hrun Hinj Hids].
  pose proof (take_wf (isReady (ctl w)) (isForeground (ctl w)) _ Hq) as Hwf. rewrite Ht in Hwf.
  destruct (take_Some _ _ _ _ _ Hq Ht) as [Hp ->].
  destruct (peek_eligible _ _ _ _ Hp) as [Hin He]. simpl in Hin, He, Hwf.
  assert (forall r x, runs w !! r = Some x -> r_task x <> t) as Hfresh.
  { intros r x Hr Heq. apply (wf_disjoint _ Hq t Hin), Hrun. eauto. }
  base_by H.
  - constructor; simpl.
    + done.
    + intros u. rewrite elem_of_app, list_elem_of_singleton, Hrun. split.
      * intros [(r & x & Hr & Hx)| ->].
        -- exists r, x. rewrite lookup_insert_ne; [done|]. intros <-.
           pose proof (Hids _ (mk_is_Some _ _ Hr)). lia.
        -- eexists _, _. by rewrite lookup_insert_eq.
      * intros (r & x & Hr & Hx). rewrite lookup_insert in Hr. case_decide; [|eauto].
        injection Hr as <-. auto.
    + intros r1 r2 x1 x2 H1 H2. rewrite lookup_insert in H1, H2. repeat case_decide; simplify_eq; eauto.
      all: intros Heq; simpl in Heq; exfalso; eapply Hfresh; eauto.
    + intros r [x Hr]. rewrite lookup_insert in Hr. case_decide; [lia|].
      pose proof (Hids _ (mk_is_Some _ _ Hr)). lia.
  - destruct (b_timers _ H) as [Hiff Htid Hkeys Hcl Hback]. constructor; simpl; auto.
    intros r x Hr Hs. rewrite lookup_insert in Hr. case_decide; [|eauto].
    injection Hr as <-. simpl. unfold eligible, isReady in He. by reflect_bools.
Qed.

(** [run] after [take] changes neither flags nor drain state of an open controller. *)
Lemma pumpMore_inv w : base w -> closed (ctl w) = false -> inv (pumpMore w).
Proof.
  intros H Ho. unfold pumpMore.
  assert (drain_ok w) as Hd by (unfold drain_ok, isDrained; by rewrite Ho).
  destruct (peekNext (ctl w)) eqn:E; [by apply schedulePump_inv|]. constructor; try done.
  intros _ _ _ Hn. by rewrite E in Hn.
Qed.

Lemma open_inv w : closed (ctl w) = false -> base w -> work_ok w -> inv w.
Proof. intros Ho Hb Hw. constructor; auto. unfold drain_ok, isDrained. by rewrite Ho. Qed.

Lemma waitForCapacity_inv l f w :
  base w -> closed (ctl w) = false -> cap w <> None -> inv (waitForCapacity l f w).
Proof.
  intros H Ho Hcap. unfold waitForCapacity. destruct (cap w) as [hc|] eqn:Ec; [|done]. rewrite Ho.
  destruct (waitingForCapacity (ctl w)) eqn:Ew; simpl.
  { apply open_inv; auto. intros _ _ _ _. right. by left. }
  destruct (enabled (ctl w)) eqn:Ee; simpl; [|apply open_inv; auto; intros _ He; by rewrite Ee in He].
  destruct (startReady (ctl w)) eqn:Es; simpl; [|apply open_inv; auto; intros _ _ Hs; by rewrite Es in Hs].
  destruct (HostCapacity.acquireCancellableLane f hc) as [k hc'] eqn:Ea.
  destruct (b_wait _ H) as [Hinv _].
  pose proof (HostCapacity.acquireCancellableLane_inv f hc (Hinv _ Ec)) as Hinv'. rewrite Ea in Hinv'.
  assert (HostCapacity.live k hc') as Hl.
  { pose proof (HostCapacity.live_acquireCancellableLane k f hc) as Hl. rewrite Ea in Hl.
    apply Hl. right. rewrite HostCapacity.acquireCancellableLane_eq in Ea.
    destruct (HostCapacity.tryAcquireLane _ _) as [[?|] ?]; by injection Ea. }
  apply open_inv; [done | base_by H | intros _ _ _ _; right; by left].
  split; simpl; [by intros ? [= <-]|]. split_ands; try done. by exists hc', k.
Qed.

Lemma pump_inv delay now read w : base w -> drain_ok w -> inv (pump delay now read w).
Proof.
  intros H Hd. unfold pump. destruct (closed (ctl w)) eqn:Hcl; simpl.
  { constructor; auto. intros Ho. by rewrite Hcl in Ho. }
  destruct (enabled (ctl w)) eqn:He; simpl.
  2:{ constructor; auto. intros _ Hen. by rewrite He in Hen. }
  destruct (refreshScheduling delay read w) as [ok w1] eqn:Hr.
  destruct (refreshScheduling_spec _ _ _ _ _ H Hr) as (H1 & Hd1 & Hw1 & Hc1 & He1 & Hs1 & Hq1 & _).
  rewrite Hcl in Hc1. destruct ok; simpl; [|by constructor; auto].
  destruct (peekNext (ctl w1)) as [next|] eqn:Hp.
  2:{ apply open_inv; auto. intros _ _ _ Hn. by rewrite Hp in Hn. }
  destruct (cap w1) as [hc|] eqn:Ec.
  - pose proof (b_wait _ H1) as [Hinv Hwait].
    pose proof (HostCapacity.callTry_inv (sel_foreground next) hc (Hinv _ Ec)) as Hinv2.
    pose proof (fun k => HostCapacity.live_callTry k (sel_foreground next) hc) as Hlive.
    destruct (HostCapacity.callTry (sel_foreground next) hc) as [h hc2] eqn:Et. simpl in *.
    assert (base (set_cap (Some hc2) w1)) as H2.
    { base_by H1. split; simpl; [by intros ? [= <-]|].
      destruct (waitingForCapacity (ctl w1)); [|done].
      destruct Hwait as (? & ? & ? & hc' & k & E' & ? & ?). rewrite Ec in E'. injection E' as <-.
      split_ands; auto. exists hc2, k. auto. }
    destruct h as [h|]; [|by apply waitForCapacity_inv].
    destruct (take _ _ _) as [[t|] q] eqn:Ht.
    + apply pumpMore_inv; [|exact Hc1]. by apply (run_take_base t q _ _ _ (set_cap (Some hc2) w1)).
    + apply take_None in Ht as [_ Hn]. unfold peekNext in Hp. by rewrite Hn in Hp.
  - destruct (take _ _ _) as [[t|] q] eqn:Ht.
    + apply pumpMore_inv; [|exact Hc1]. by apply run_take_base.
    + apply take_None in Ht as [_ Hn]. unfold peekNext in Hp. by rewrite Hn in Hp.
Qed.

Lemma acquired_inv delay h f now read w :
  base (upd (set_wait false None None None) w) -> drain_ok w -> inv (acquired delay h f now read w).
Proof.
  unfold acquired. set (w0 := upd _ w). intros H Hd.
  assert (drain_ok w0) as Hd0 by exact Hd. clearbody w0. clear Hd w. cbv zeta.
  destruct (_ || _) eqn:Hg.
  { pose proof (releaseCapacity_base h _ H) as H1. constructor.
    - by apply resolveDrainWaiters_base.
    - apply resolveDrainWaiters_drain.
    - intros Ho He Hs. unfold resolveDrainWaiters in *. rewrite releaseCapacity_ctl in *.
      destruct (isDrained (ctl w0)); simpl in *; rewrite ?releaseCapacity_ctl in *;
        by rewrite Ho, He, Hs in Hg. }
  reflect_bools. destruct (refreshScheduling delay read w0) as [ok w1] eqn:Hr.
  destruct (refreshScheduling_spec _ _ _ _ _ H Hr) as (H1' & Hd1 & Hw1 & Hc1 & _).
  assert (forall w, base w -> closed (ctl w) = false -> inv (schedulePump w)) as Hsp.
  { intros w Hb Ho. apply schedulePump_inv; [done|]. unfold drain_ok, isDrained. by rewrite Ho. }
  assert (closed (ctl w1) = false) as Hc2 by congruence.
  destruct ok; simpl.
  2:{ apply open_inv; rewrite ?releaseCapacity_ctl; auto using releaseCapacity_base.
      intros Ho He Hs Hn. specialize (Hw1 eq_refl). unfold work_ok, awake in *.
      rewrite releaseCapacity_ctl in *. auto. }
  assert (inv (schedulePump (releaseCapacity h w1))) as Hfail.
  { apply Hsp; rewrite ?releaseCapacity_ctl; auto using releaseCapacity_base. }
  destruct (peekNext (ctl w1)) as [n|] eqn:Hp; [|done]. destruct (Bool.eqb _ _); [|done].
  destruct (take _ _ _) as [[t|] q] eqn:Ht.
  - apply Hsp; [by apply run_take_base | exact Hc2].
  - apply take_None in Ht as [_ Hn]. unfold peekNext in Hp. by rewrite Hn in Hp.
Qed.

(** A queue operation that keeps the running tasks keeps the base invariant. *)
Lemma set_queue_base q w :
  base w -> wf q -> (forall t, t ∈ running q <-> t ∈ running (queue_ (ctl w))) ->
  base (upd (set_queue q) w).
Proof.
  intros H Hq Hr. base_by H. destruct (b_runs _ H) as [_ Hrun Hinj Hids].
  constructor; simpl; auto. intros t. by rewrite Hr.
Qed.

Lemma rescan_inv delay read w : base w -> closed (ctl w) = false -> inv (rescan delay read w).
Proof.
  intros H Hcl. unfold rescan. destruct (refreshScheduling delay read w) as [ok w1] eqn:Hr.
  destruct (refreshScheduling_spec _ _ _ _ _ H Hr) as (H1 & _ & Hw1 & Hc1 & _).
  rewrite Hcl in Hc1. destruct ok; simpl; [|by apply open_inv; auto].
  assert (drain_ok w1) as Hd1 by (unfold drain_ok, isDrained; by rewrite Hc1).
  destruct (peekNext (ctl w1)) as [next|]; [|by apply schedulePump_inv].
  destruct (_ && _); apply schedulePump_inv; auto using dropCapacityWait_base, dropCapacityWait_drain.
Qed.

(** A wake with a usable task ID ends with the queue looked after again. *)
Lemma enqueue_wakes delay t opts now read w :
  base w -> closed (ctl w) = false -> trim t <> "" -> inv (enqueue delay t opts now read w).2.
Proof.
  intros H Ho Hne. unfold enqueue. rewrite Ho.
  pose proof (enqueue_wf t opts _ (ro_queue _ _ _ (b_runs _ H))) as Hwf.
  destruct (enqueue_fields t opts (queue_ (ctl w))) as (Hrun & _).
  destruct (AppTaskQueue.enqueue t opts (queue_ (ctl w))) as [[added|e] q] eqn:Eq; simpl in *.
  2:{ unfold AppTaskQueue.enqueue in Eq. by rewrite (proj2 (String.eqb_neq _ _) Hne) in Eq. }
  pose proof (set_queue_base q w H Hwf ltac:(by rewrite Hrun)) as H1.
  destruct (added && _); apply rescan_inv; auto. base_by H1.
Qed.

Lemma enqueue_inv delay t opts now read w : inv w -> inv (enqueue delay t opts now read w).2.
Proof.
  intros Hi. pose proof Hi as [H Hd Hw]. destruct (closed (ctl w)) eqn:Hcl.
  { unfold enqueue. by rewrite Hcl. }
  destruct (decide (trim t = "")) as [E|E]; [|by apply enqueue_wakes].
  unfold enqueue, AppTaskQueue.enqueue. rewrite Hcl, E. simpl.
  constructor; [apply set_queue_base; auto; apply (b_runs _ H) | done..].
Qed.

Lemma updateMaxConcurrent_inv n w : inv w -> inv (updateMaxConcurrent n w).2.
Proof.
  intros [H Hd Hw]. unfold updateMaxConcurrent. destruct (closed (ctl w)) eqn:Hcl; [done|].
  pose proof (updateMaxConcurrent_wf n _ (ro_queue _ _ _ (b_runs _ H))) as Hwf.
  unfold AppTaskQueue.updateMaxConcurrent in *. destruct (validateMaxConcurrent n); simpl in *.
  - apply schedulePump_inv; [by apply set_queue_base|]. unfold drain_ok, isDrained. simpl. by rewrite Hcl.
  - constructor; [by apply set_queue_base | done..].
Qed.

Lemma cancelHostPumps_queue (o : nat) p :
  filter (fun x => x = me) (pumpQueue (cancelHostPumps o p)) =
  if Nat.eqb o me then [] else filter (fun x => x = me) (pumpQueue p).
Proof.
  simpl. rewrite list_filter_filter. destruct (Nat.eqb_spec o me) as [->|Hne].
  - apply filter_nil_iff. naive_solver.
  - apply list_filter_iff. intros x. naive_solver.
Qed.

(** Dropping this controller's pumps while [scheduled] is or becomes irrelevant. *)
Lemma cancel_pumps_base f w :
  base w -> (forall c, closed c = false -> closed (f c) = true \/ scheduled (f c) = false) ->
  (forall c, closed c = true -> closed (f c) = true) ->
  pumps_ok (set_pumps (cancelHostPumps me (pumps w)) (upd f w)).
Proof.
  intros H Hf Hc. destruct (b_pumps _ H) as [Ha _]. split.
  - intros ? Hne. apply Ha; [done|]. intros Hnil. apply Hne. simpl. by rewrite Hnil.
  - cbn [pumps set_pumps]. rewrite cancelHostPumps_queue, Nat.eqb_refl. simpl.
    destruct (closed (ctl w)) eqn:E; [by rewrite (Hc _ E)|].
    destruct (Hf _ E) as [-> | ->]; [done|]. by rewrite andb_false_r.
Qed.

Lemma setEnabled_inv b w : inv w -> inv (setEnabled b w).
Proof.
  intros [H Hd Hw]. unfold setEnabled. destruct (closed (ctl w)) eqn:Hcl; [done|].
  destruct (Bool.eqb (enabled (ctl w)) b) eqn:Hb; [done|]. simpl.
  apply eqb_false_iff in Hb.
  assert (forall w', closed (ctl w') = false -> drain_ok w') as Hdr.
  { intros w' Ho. unfold drain_ok, isDrained. by rewrite Ho. }
  destruct b.
  - apply schedulePump_inv; [|by apply Hdr]. base_by H.
    destruct (b_wait _ H) as [Hc Hwait]. split; [done|]. simpl.
    destruct (waitingForCapacity (ctl w)); [|done]. naive_solver.
  - constructor.
    + apply dropCapacityWait_any; try apply H.
      apply (cancel_pumps_base (fun c => set_flags false (closed c) false (startReady c) c) w H);
        simpl; auto.
    + apply dropCapacityWait_drain, Hdr, Hcl.
    + intros _ He. exfalso. revert He. unfold dropCapacityWait. simpl.
      by destruct (cancelCapacityWait (ctl w)), (cap w).
Qed.

(** Clearing the timer of every retry entry leaves no timer. *)
Lemma clearTimers_empty w :
  (forall t n, retryTimers (ctl w) !! t = Some n <-> exists l d, timers w !! n = Some (t, l, d)) ->
  timers (clearTimers w) = ∅.
Proof.
  intros Ht. apply map_empty. intros n. simpl. apply map_lookup_filter_None. right.
  intros [[t l] d] Hn. simpl. intros Hnot. apply Hnot.
  apply list_elem_of_fmap. exists (t, n). split; [done|]. apply elem_of_map_to_list.
  apply Ht. eauto.
Qed.

Lemma close_inv w : inv w -> inv (close w).
Proof.
  intros [H Hd Hw]. pose proof (b_timers _ H) as Ht. unfold close.
  set (w0 := upd (fun c => set_flags _ true _ _ c) w).
  pose proof (clearTimers_empty w0 (to_iff _ _ _ _ _ Ht)) as He.
  set (w1 := set_pumps _ _).
  assert (base (dropCapacityWait w1)) as H1.
  { apply dropCapacityWait_any.
    - apply H.
    - constructor; simpl; try done; try (intros; by rewrite lookup_empty).
      + intros t n. rewrite lookup_empty. split; [done|]. intros (l & d & Hn).
        change (timers (clearTimers w0) !! n = Some (t, l, d)) in Hn. by rewrite He, lookup_empty in Hn.
      + intros n Hn. change (is_Some (timers (clearTimers w0) !! n)) in Hn.
        rewrite He, lookup_empty in Hn. by destruct Hn.
      + intros t [? Hn]. by rewrite lookup_empty in Hn.
    - apply (cancel_pumps_base (fun c => set_flags (scheduled c) true (enabled c) (startReady c) c) w H);
        simpl; auto.
    - apply (b_wait _ H). }
  constructor.
  - apply resolveDrainWaiters_base. base_by H1.
  - apply resolveDrainWaiters_drain.
  - intros Ho. exfalso. revert Ho. unfold resolveDrainWaiters, dropCapacityWait.
    simpl. by destruct (cancelCapacityWait (ctl w)), (cap w); simpl; destruct (isDrained _).
Qed.

Lemma whenDrained_inv p w : inv w -> inv (whenDrained p w).2.
Proof.
  intros [H Hd Hw]. unfold whenDrained. destruct (isDrained (ctl w)) eqn:E; [done|].
  constructor; [base_by H | | done]. intros Hdr. change (isDrained (ctl w) = true) in Hdr.
  by rewrite E in Hdr.
Qed.

Lemma settle_inv delay r failed w : inv w -> inv (settle delay r failed w).
Proof.
  intros [H Hd Hw]. unfold settle. destruct (runs w !! r) as [x|] eqn:Hr; [|done].
  destruct (r_settled x) eqn:Hs; [done|].
  set (w1 := set_runs _ _ _ w).
  destruct (b_runs _ H) as [Hq Hrun Hinj Hids]. destruct (b_timers _ H) as [Hiff Htid Hkeys Hcl Hback].
  assert (base w1) as H1.
  { base_by H.
    - constructor; simpl; auto.
      + intros t. rewrite Hrun. split; intros (r' & y & Hy & Hty).
        * destruct (decide (r = r')) as [<-|Hne].
          -- rewrite Hr in Hy. injection Hy as <-. eexists r, _. by rewrite lookup_insert_eq.
          -- exists r', y. by rewrite lookup_insert_ne.
        * rewrite lookup_insert in Hy. case_decide; [injection Hy as <-|]; subst; eauto.
      + intros r1 r2 x1 x2 E1 E2. rewrite lookup_insert in E1, E2.
        repeat case_decide; simplify_eq; simpl; eauto.
      + intros r' [y Hy]. rewrite lookup_insert in Hy. case_decide; subst; eauto.
    - constructor; simpl; auto. intros r' y Hy Hsy. rewrite lookup_insert in Hy.
      case_decide; [by injection Hy as <-|]. eauto. }
  destruct failed.
  - destruct (wf_keys _ Hq (r_task x)) as [Htrim Hne]; [right; apply Hrun; eauto|].
    pose proof (recordFailure_same delay (r_task x) (r_lane x) w1) as (Eq & Ec & Ee & Es & Ed & _).
    constructor.
    + apply recordFailure_base; auto; [by apply (Hback r)|]. simpl.
      intros r' y Hy Hsy. rewrite lookup_insert in Hy. case_decide as Hd'; [by injection Hy as <-|].
      intros Heq. apply Hd'. eapply Hinj; eauto.
    + unfold drain_ok, isDrained. rewrite Ec, Es, Ed, Eq. exact Hd.
    + by apply recordFailure_work.
  - constructor; [base_by H1 | exact Hd | exact Hw].
Qed.

(** The reconciliation in flight is a running task of the queue: [complete] succeeds. *)
Lemma complete_ok t q : wf q -> t ∈ running q ->
  (complete t q).1 = Ok tt /\ (forall u, u ∈ running (complete t q).2 <-> u ∈ running q /\ u <> t).
Proof.
  intros Hq Ht. destruct (decide (t ∈ dirty q)) as [Hd|Hd].
  - destruct (complete_dirty t q Hq Hd) as (p & l & -> & _). split; [done|]. intros u. simpl.
    apply elem_of_set_remove.
  - rewrite complete_clean by done. split; [done|]. intros u. simpl. apply elem_of_set_remove.
Qed.

Lemma finish_spec r w : inv w -> (finish r w).1 = Ok tt /\ inv (finish r w).2.
Proof.
  intros [H Hd Hw]. unfold finish. destruct (runs w !! r) as [x|] eqn:Hr; [|done].
  destruct (r_settled x) eqn:Hs; simpl; [|done].
  destruct (b_runs _ H) as [Hq Hrun Hinj Hids]. destruct (b_timers _ H) as [Hiff Htid Hkeys Hcl Hback].
  assert (r_task x ∈ running (queue_ (ctl w))) as Hin by (apply Hrun; eauto).
  destruct (complete_ok _ _ Hq Hin) as [Hok Hrest].
  pose proof (complete_wf (r_task x) _ Hq) as Hwf.
  destruct (complete (r_task x) (queue_ (ctl w))) as [o q] eqn:Ec. simpl in *. subst o. split; [done|].
  set (w1 := upd (set_queue q) _).
  assert (base w1) as H1.
  { base_by H.
    - constructor; simpl; auto.
      + intros t. rewrite Hrest, Hrun. setoid_rewrite lookup_delete_Some. split.
        * intros [(r' & y & Hy & <-) Hne]. exists r', y. split_ands; auto. intros <-.
          rewrite Hr in Hy. by injection Hy as <-.
        * intros (r' & y & [Hne Hy] & <-). split; [eauto|]. intros Heq. apply Hne. eapply Hinj; eauto.
      + intros r1 r2 x1 x2 [_ E1]%lookup_delete_Some [_ E2]%lookup_delete_Some. eauto.
      + intros r' [y [_ Hy]%lookup_delete_Some]. eauto.
    - constructor; simpl; auto. intros r' y [_ Hy]%lookup_delete_Some. eauto. }
  apply schedulePump_inv; [|apply resolveDrainWaiters_drain].
  apply resolveDrainWaiters_base. destruct (r_release x); [by apply releaseCapacity_base | done].
Qed.

Lemma fireRetry_inv delay t now read w : inv w -> inv (fireRetry delay t now read w).2.
Proof.
  intros [H Hd Hw]. unfold fireRetry. destruct (timers w !! t) as [[[taskId l] d]|] eqn:Ht; [|done].
  destruct (b_timers _ H) as [Hiff Htid Hkeys Hcl Hback].
  assert (retryTimers (ctl w) !! taskId = Some t) as Hre by (apply Hiff; eauto).
  destruct (Hkeys taskId) as [Htrim Hne]; [eauto|].
  set (w1 := upd _ _).
  assert (closed (ctl w) = false) as Ho.
  { destruct (closed (ctl w)) eqn:E; [|done]. by rewrite Hcl, lookup_empty in Hre. }
  assert (base w1) as H1.
  { base_by H. constructor; simpl; auto.
    - intros u n. rewrite lookup_delete_Some, Hiff. setoid_rewrite lookup_delete_Some. split.
      + intros (Hu & l' & d' & Hn). exists l', d'. split; [|done]. intros <-. naive_solver.
      + intros (l' & d' & Hn & Hn'). split; [|eauto]. intros <-.
        assert (Some t = Some n) as [= ?]; [|done]. rewrite <- Hre. apply Hiff. eauto.
    - intros n [y [_ Hy]%lookup_delete_Some]. eauto.
    - intros u [y [_ Hy]%lookup_delete_Some]. eauto.
    - intros E. by rewrite Ho in E.
    - intros r x Hr Hs. apply lookup_delete_None. right. eauto. }
  assert (closed (ctl w1) = false) as Ho1 by exact Ho. clearbody w1.
  apply enqueue_wakes; auto. by rewrite Htrim.
Qed.

Lemma releaseStartGate_inv w : inv w -> inv (releaseStartGate w).
Proof.
  intros [H Hd Hw]. unfold releaseStartGate.
  apply schedulePump_inv; [|apply resolveDrainWaiters_drain]. apply resolveDrainWaiters_base.
  base_by H. destruct (b_wait _ H) as [Hc Hwait]. split; [done|]. simpl.
  destruct (waitingForCapacity (ctl w)); [|done]. naive_solver.
Qed.

(** A step of the capacity that keeps this controller's acquisition live. *)
Lemma set_cap_inv hc hc' w :
  inv w -> cap w = Some hc -> HostCapacity.inv hc' ->
  (forall k, cancelCapacityWait (ctl w) = Some k -> HostCapacity.live k hc -> HostCapacity.live k hc') ->
  inv (set_cap (Some hc') w).
Proof.
  intros [H Hd Hw] Hc Hinv Hl. constructor; [|exact Hd | exact Hw].
  base_by H. destruct (b_wait _ H) as [_ Hwait]. split; simpl; [by intros ? [= <-]|].
  destruct (waitingForCapacity (ctl w)); [|done].
  destruct Hwait as (? & ? & ? & hc0 & k & E & ? & ?). rewrite Hc in E. injection E as <-.
  split_ands; auto. exists hc', k. auto.
Qed.

Lemma capacityTimeout_inv delay i now read w : inv w -> inv (capacityTimeout delay i now read w).
Proof.
  intros Hi. unfold capacityTimeout. destruct (cap w) as [hc|] eqn:Hc; [|done].
  destruct (HostCapacity.timeouts hc !! i) as [[k h]|] eqn:Ht; [|done].
  pose proof (b_wait _ (i_base _ Hi)) as [Hcap Hwait].
  pose proof (HostCapacity.fireTimeout_inv i hc (Hcap _ Hc)) as Hinv.
  cbv zeta. destruct (_ && _) eqn:E.
  - apply acquired_inv; [|exact (i_drain _ Hi)].
    base_by (i_base _ Hi). split; [by intros ? [= <-] | done].
  - apply (set_cap_inv hc); auto. intros k' Hk Hl. apply HostCapacity.live_fireTimeout; [done|].
    intros h' Heq. rewrite Ht in Heq. injection Heq as -> ->. destruct Hl as (y & Hy & Ha).
    rewrite Hy, Ha in E. simpl in E. by rewrite bool_decide_eq_true_2 in E.
Qed.

End Armed.

Ltac base_by H := constructor; [try exact (b_runs _ _ H) | try exact (b_timers _ _ H)
  | try exact (b_pumps _ _ H) | try exact (b_wait _ _ H)].

Lemma hostTurn_inv delay now read w : inv true w -> inv true (hostTurn delay now read w).
Proof.
  intros [H Hd Hw]. unfold hostTurn. destruct (pumpScheduled (pumps w)) eqn:Hs; [|done]. simpl.
  assert (forall w', inv false w' -> inv true (set_pumps (pumpRearm (pumps w')) w')) as Hrearm.
  { intros w' [H' Hd' Hw']. constructor; [|exact Hd' | exact Hw'].
    base_by H'. destruct (b_pumps _ _ H') as [_ Hf].
    unfold pumpRearm, armHostPump. split; simpl.
    - intros _. destruct (pumpQueue (pumps w')) eqn:E; [by rewrite E|].
      by destruct (pumpScheduled (pumps w')) eqn:E'.
    - destruct (pumpQueue (pumps w')) eqn:E; [by rewrite E|].
      destruct (pumpScheduled (pumps w')) eqn:E'; simpl; rewrite ?E; done. }
  destruct (b_pumps _ _ H) as [_ Hf]. unfold pumpTurn.
  destruct (pumpQueue (pumps w)) as [|o rest] eqn:Hq.
  { apply Hrearm. constructor; [|exact Hd | exact Hw]. base_by H. done. }
  destruct (Nat.eqb_spec o me) as [->|Hne]; simpl in Hf.
  - rewrite filter_cons_True in Hf by done. destruct (_ && _) eqn:E; [|done]. injection Hf as Hf.
    apply Hrearm, pump_inv; [|exact Hd]. base_by H. split; simpl; [done|]. by rewrite andb_false_r.
  - rewrite filter_cons_False in Hf by done.
    apply Hrearm. constructor; [|exact Hd | exact Hw]. base_by H. done.
Qed.

Lemma env_inv delay o w :
  match o with EnvPump _ | EnvCancelPumps _ | EnvCapacity _ => True | _ => False end ->
  inv true w -> inv true (run_op delay o w).
Proof.
  intros Ho Hi. pose proof Hi as [H Hd Hw]. destruct (b_pumps _ _ H) as [Ha Hf].
  destruct o as [| | | | | | | | | | | o|o|o]; try done; simpl.
  - destruct (Nat.eqb_spec o me) as [->|Hne]; [done|]. constructor; [|exact Hd | exact Hw].
    base_by H. unfold scheduleHostPump, armHostPump. split; simpl.
    + intros _ _. by destruct (pumpScheduled (pumps w)) eqn:E.
    + rewrite <- Hf. destruct (pumpScheduled (pumps w)); simpl;
        rewrite filter_app, (filter_cons_False _ o) by done; by rewrite app_nil_r.
  - destruct (Nat.eqb_spec o me) as [->|Hne]; [done|]. constructor; [|exact Hd | exact Hw].
    base_by H. split.
    + intros _ Hq. apply Ha; [done|]. intros E. apply Hq. simpl. by rewrite E.
    + cbn [pumps set_pumps]. rewrite cancelHostPumps_queue. by destruct (Nat.eqb_spec o me).
  - destruct (cap w) as [hc|] eqn:Hc; [|done]. destruct (foreign w o) eqn:Hfo; [|done].
    apply (set_cap_inv true hc); auto.
    + apply HostCapacity.run_op_inv. by apply (b_wait _ _ H).
    + intros k Hk Hl. destruct o as [f|f|f|v|i|h]; simpl in *; try done.
      * by apply HostCapacity.live_callTry.
      * by apply HostCapacity.live_acquireLane.
      * apply HostCapacity.live_acquireCancellableLane. by left.
      * apply HostCapacity.live_cancel; [done|]. intros ->. by rewrite bool_decide_eq_true_2 in Hfo.
      * by apply HostCapacity.live_release.
Qed.

Lemma controller_run_op_inv delay o w : inv true w -> inv true (run_op delay o w).
Proof.
  intros Hi. destruct o; try (by apply env_inv); simpl;
    auto using enqueue_inv, updateMaxConcurrent_inv, setEnabled_inv, close_inv, whenDrained_inv,
      hostTurn_inv, settle_inv, fireRetry_inv, releaseStartGate_inv, capacityTimeout_inv.
  by apply finish_spec.
Qed.

Lemma initial_inv w : initial w -> inv true w.
Proof.
  intros ((n & st & Hn) & Hme & Ha & Hcap & Ht & Hr & _). unfold newController in Hn.
  destruct (newQueue n) as [q|] eqn:Hq; [|done]. injection Hn as Hn.
  pose proof (newQueue_wf n q Hq) as Hwf.
  assert (pending q = [] /\ running q = []) as [Hp Hrun].
  { unfold newQueue in Hq. destruct (validateMaxConcurrent n); [|done]. by injection Hq as <-. }
  constructor.
  - constructor.
    + constructor; rewrite <- ?Hn, ?Hr; simpl; try done.
      * intros t. rewrite Hrun. split; [set_solver|]. intros (r & x & Hx & _). by rewrite lookup_empty in Hx.
      * intros r [x Hx]. by rewrite lookup_empty in Hx.
    + constructor; rewrite <- ?Hn, ?Ht, ?Hr; simpl; try done.
      * intros t k. rewrite lookup_empty. split; [done|]. intros (l & d & Hx). by rewrite lookup_empty in Hx.
      * intros k [x Hx]. by rewrite lookup_empty in Hx.
      * intros k [x Hx]. by rewrite lookup_empty in Hx.
    + split; [done|]. rewrite <- Hn. simpl. apply filter_nil_iff. intros x Hx ->. done.
    + split; [intros hc Hc; apply HostCapacity.reachable_inv; auto|]. by rewrite <- Hn.
  - intros _. by rewrite <- Hn.
  - intros _ _ _ Hne. destruct Hne. rewrite <- Hn. by apply peek_pending_nil.
Qed.

Lemma controller_reachable_inv delay w : reachable delay w -> inv true w.
Proof. induction 1; eauto using initial_inv, controller_run_op_inv. Qed.

(** *** After [close] *)

Definition ended (d : list (string * AppTaskDispatch)) (w : world) : Prop :=
  closed (ctl w) = true /\ dispatched w = d.

Lemma ended_schedulePump d w : ended d w -> ended d (schedulePump w).
Proof. intros [Hc Hd]. unfold schedulePump. rewrite Hc, orb_true_r. done. Qed.

Lemma ended_resolve d w : ended d w -> ended d (resolveDrainWaiters w).
Proof. unfold resolveDrainWaiters. by destruct (isDrained _). Qed.

Lemma ended_drop d w : ended d w -> ended d (dropCapacityWait w).
Proof. unfold dropCapacityWait. by destruct (cancelCapacityWait _), (cap w). Qed.

Lemma ended_releaseCapacity d h w : ended d w -> ended d (releaseCapacity h w).
Proof. unfold releaseCapacity. by destruct (cap w). Qed.

Lemma ended_enqueue delay t opts now read d w :
  ended d w -> ended d (enqueue delay t opts now read w).2.
Proof. intros [Hc Hd]. unfold enqueue. by rewrite Hc. Qed.

Lemma ended_finish r d w : ended d w -> ended d (finish r w).2.
Proof.
  intros He. unfold finish. destruct (runs w !! r) as [x|]; [|done].
  destruct (r_settled x); simpl; [|done]. destruct (complete _ _) as [[]]; simpl; [|done].
  apply ended_schedulePump, ended_resolve. destruct (r_release x); [|done]. by apply ended_releaseCapacity.
Qed.

Lemma ended_hostTurn delay now read d w : ended d w -> ended d (hostTurn delay now read w).
Proof.
  intros [Hc Hd]. unfold hostTurn, pumpTurn. destruct (pumpScheduled (pumps w)); simpl; [|done].
  destruct (pumpQueue (pumps w)) as [|o rest]; [done|]. destruct (Nat.eqb o me); [|done].
  unfold pump. simpl. by rewrite Hc.
Qed.

Lemma ended_capacityTimeout delay i now read d w :
  ended d w -> ended d (capacityTimeout delay i now read w).
Proof.
  intros He. unfold capacityTimeout. destruct (cap w) as [hc|]; [|done].
  destruct (_ !! i) as [[k h]|]; [|done]. cbv zeta. destruct (_ && _); [|done].
  unfold acquired. cbv zeta. simpl. rewrite (proj1 He). simpl.
  apply ended_resolve, ended_releaseCapacity. done.
Qed.

Lemma ended_settle delay r failed d w : ended d w -> ended d (settle delay r failed w).
Proof.
  intros [Hc Hd]. unfold settle. destruct (runs w !! r) as [x|]; [|done].
  destruct (r_settled x); [done|]. destruct failed; [|done].
  unfold recordFailure. simpl. by rewrite Hc.
Qed.

Lemma ended_run_op delay o d w : ended d w -> ended d (run_op delay o w).
Proof.
  intros He. pose proof He as [Hc Hd]. destruct o; simpl;
    auto using ended_enqueue, ended_hostTurn, ended_settle, ended_finish, ended_capacityTimeout.
  - unfold updateMaxConcurrent. by rewrite Hc.
  - unfold setEnabled. by rewrite Hc.
  - unfold close. apply ended_resolve.
    assert (forall w', ended d w' -> ended d (upd (fun c => set_retry (failures c) (retryTimers c) ∅ c) w'))
      as Hr by done. by apply Hr, ended_drop.
  - unfold whenDrained. by destruct (isDrained _).
  - unfold fireRetry. destruct (_ !! t) as [[[]]|]; [|done]. by apply ended_enqueue.
  - unfold releaseStartGate. by apply ended_schedulePump, ended_resolve.
  - by destruct (Nat.eqb _ _).
  - by destruct (Nat.eqb _ _).
  - destruct (cap w); [|done]. by destruct (foreign w o).
Qed.

Lemma ended_run_ops delay ops d w : ended d w -> ended d (run_ops delay ops w).
Proof. revert w. induction ops as [|o ops IH]; intros w He; [done|]. by apply IH, ended_run_op. Qed.

Lemma reachable_run_ops delay ops w : reachable delay w -> reachable delay (run_ops delay ops w).
Proof. revert w. induction ops as [|o ops IH]; intros w Hr; [done|]. by apply IH, reach_op. Qed.

(** ** Properties *)

(** C1.  No wake is lost: whenever an open, enabled, started controller has a
    task its queue would select, either its pump is in the armed Host pump
    queue, or it holds a live acquisition of the Host capacity, or the retry
    timer of a pending task is armed, whatever the other Apps do in between. *)
Theorem controller_no_lost_wakeup delay w :
  reachable delay w ->
  closed (ctl w) = false -> enabled (ctl w) = true -> startReady (ctl w) = true ->
  peekNext (ctl w) <> None ->
  (me ∈ pumpQueue (pumps w) /\ pumpScheduled (pumps w) = true) \/
  (exists hc k, cap w = Some hc /\ cancelCapacityWait (ctl w) = Some k /\ HostCapacity.live k hc) \/
  (exists t n l d, t ∈ pending (queue_ (ctl w)) /\ retryTimers (ctl w) !! t = Some n /\
     timers w !! n = Some (t, l, d)).
Proof.
  intros Hr Hc He Hs Hn. destruct (controller_reachable_inv delay w Hr) as [H _ Hw].
  destruct (Hw Hc He Hs Hn) as [Hsch|[Hwt|(t & Ht & n & Hrt)]].
  - left. destruct (b_pumps _ _ H) as [Ha Hf]. rewrite Hc, Hsch in Hf. simpl in Hf.
    assert (me ∈ pumpQueue (pumps w)) as Hin.
    { apply (list_elem_of_filter (fun o => o = me)). rewrite Hf. set_solver. }
    split; [done|]. apply Ha; [done|]. intros E. rewrite E in Hin. set_solver.
  - right. left. destruct (b_wait _ _ H) as [_ Hw']. rewrite Hwt in Hw'. naive_solver.
  - right. right. destruct (proj1 (to_iff _ _ _ _ _ (b_timers _ _ H) t n) Hrt) as (l & d & Hd). eauto 8.
Qed.

(** C34.  The queue's running tasks are exactly the reconciliations in flight,
    each task in at most one; so the [finally] clause never fails to complete
    its task; every retry entry is exactly one armed timer, and a task whose
    pass has not settled has no retry armed. *)
Theorem controller_single_flight delay w :
  reachable delay w ->
  (forall t, t ∈ running (queue_ (ctl w)) <-> exists r x, runs w !! r = Some x /\ r_task x = t) /\
  (forall r1 r2 x1 x2, runs w !! r1 = Some x1 -> runs w !! r2 = Some x2 ->
     r_task x1 = r_task x2 -> r1 = r2) /\
  (forall r, (finish r w).1 = Ok tt) /\
  (forall t n, retryTimers (ctl w) !! t = Some n <-> exists l d, timers w !! n = Some (t, l, d)) /\
  (forall r x, runs w !! r = Some x -> r_settled x = false -> retryTimers (ctl w) !! r_task x = None).
Proof.
  intros Hr. pose proof (controller_reachable_inv delay w Hr) as Hi. pose proof (i_base _ _ Hi) as H.
  split_ands.
  - apply (b_runs _ _ H).
  - apply (b_runs _ _ H).
  - intros r. by apply (finish_spec true).
  - apply (b_timers _ _ H).
  - apply (b_timers _ _ H).
Qed.

(** [close] is final: whatever happens later, a closed controller
    dispatches nothing more, arms no retry timer, has no pump in the Host queue
    and no capacity wait, and once the last pass is over nobody is left waiting
    for [whenDrained]. *)
Theorem controller_close_is_final delay w ops :
  reachable delay w -> closed (ctl w) = true ->
  let w' := run_ops delay ops w in
  closed (ctl w') = true /\ dispatched w' = dispatched w /\ timers w' = ∅ /\
  me ∉ pumpQueue (pumps w') /\ cancelCapacityWait (ctl w') = None /\
  (startReady (ctl w') = true -> runs w' = ∅ -> drainWaiters (ctl w') = []).
Proof.
  intros Hr Hc w'. destruct (ended_run_ops delay ops (dispatched w) w (conj Hc eq_refl)) as [Hc' Hd'].
  fold w' in Hc', Hd'.
  destruct (controller_reachable_inv delay w' (reachable_run_ops delay ops w Hr)) as [H Hd _].
  split_ands; auto.
  - destruct (b_timers _ _ H) as [Hiff _ _ Hcl _]. apply map_empty. intros n.
    destruct (timers w' !! n) as [[[t l] d]|] eqn:E; [|done].
    assert (retryTimers (ctl w') !! t = Some n) as Hx by (apply Hiff; eauto).
    by rewrite Hcl, lookup_empty in Hx.
  - intros Hin. destruct (b_pumps _ _ H) as [_ Hf]. rewrite Hc' in Hf. simpl in Hf.
    by apply (proj1 (filter_nil_iff _ _) Hf me Hin).
  - destruct (b_wait _ _ H) as [_ Hwt]. destruct (waitingForCapacity _); [|done].
    destruct Hwt as [Ho _]. by rewrite Hc' in Ho.
  - intros Hs Hruns. apply Hd. unfold isDrained. rewrite Hc', Hs. simpl.
    destruct (running (queue_ (ctl w'))) as [|t rest] eqn:E; [done|]. exfalso.
    destruct (proj1 (ro_running _ _ _ (b_runs _ _ H) t)) as (r & x & Hx & _); [rewrite E; set_solver|].
    by rewrite Hruns, lookup_empty in Hx.
Qed.

(** ** Witnesses *)

(** A started controller without Host capacity, one pass in flight and one task
    pending behind it. *)
Definition sample_start : world :=
  mkWorld (mkController (mkQueue [] ∅ ∅ [] ∅ [] ∅ ∅ ∅ ∅ ∅ 2) ∅ ∅ ∅ false false true true false
             None None None [] [] false ∅)
    (mkPumps [7%nat] true) None ∅ 0 ∅ 0 [].

Definition sample_ops : list op :=
  [OpEnqueue "a" no_options 10 (Ok (false, ∅)); OpEnqueue "b" no_options 11 (Ok (false, ∅));
   OpTurn 12 (Ok (false, ∅)); OpTurn 13 (Ok (false, ∅))].

Definition sample_world : world := run_ops None sample_ops sample_start.

Lemma sample_world_reachable : reachable None sample_world.
Proof.
  apply reachable_run_ops, reach_initial. unfold initial.
  split; [exists (num 2), false; reflexivity|].
  split; [intros Hin; by apply list_elem_of_singleton in Hin|]. by split_ands.
Qed.

Lemma controller_no_lost_wakeup_witness : me ∈ pumpQueue (pumps sample_world).
Proof.
  assert (size (retryTimers (ctl sample_world)) = 0%nat) as E1 by (vm_compute; reflexivity).
  assert (cap sample_world = None) as E2 by (vm_compute; reflexivity).
  assert (peekNext (ctl sample_world) <> None) as Hp by (vm_compute; discriminate).
  apply map_size_empty_iff in E1.
  destruct (controller_no_lost_wakeup None sample_world sample_world_reachable
    ltac:(vm_compute; reflexivity) ltac:(vm_compute; reflexivity) ltac:(vm_compute; reflexivity) Hp)
    as [[Hin _]|[(hc & k & Hc & _)|(t & n & l & d & _ & Hr & _)]]; [exact Hin | |].
  - pose proof (eq_trans (eq_sym E2) Hc) as E. discriminate E.
  - pose proof (eq_trans (eq_sym (f_equal (lookup t) E1)) Hr) as E. rewrite lookup_empty in E. discriminate E.
Defined.

Lemma controller_single_flight_witness :
  running (queue_ (ctl sample_world)) = ["a"] /\ (finish 0 sample_world).1 = Ok tt.
Proof.
  split; [vm_compute; reflexivity|].
  exact (proj1 (proj2 (proj2 (controller_single_flight None sample_world sample_world_reachable))) 0%nat).
Defined.

Definition closed_world : world := run_op None OpClose sample_world.

Lemma closed_world_reachable : reachable None closed_world.
Proof. apply reach_op, sample_world_reachable. Qed.

Lemma controller_close_is_final_witness :
  dispatched (run_ops None [OpSettle 0 true; OpFinish 0; OpTurn 20 (Ok (false, ∅))] closed_world)
  = dispatched closed_world.
Proof.
  exact (proj1 (proj2 (controller_close_is_final None closed_world
    [OpSettle 0 true; OpFinish 0; OpTurn 20 (Ok (false, ∅))] closed_world_reachable
    ltac:(vm_compute; reflexivity)))).
Defined.

End Controller.
