(* ===== verification/TaskState.v ===== *)
(** The Host's Task records ([src/app/core/tasks/app-task-state.ts], the Task
    types of [packages/sdk/src/task.ts] and the persisted records of
    [src/app/core/tasks/app-task-store.ts]), and the retry pacing computed from
    them.

    Optional fields are [option]s; integral fields ([generation],
    [resourceVersion], deadlines in milliseconds) are [Z]; timestamps are the
    strings the Host stores, read back with [Date_parse]. *)
From S2P Require Import Prelude Json.

(** ** Timestamps

    [Date.parse] on the format [Date.prototype.toISOString] writes,
    [YYYY-MM-DDTHH:mm:ss.sssZ]; any other text is not a stored timestamp and
    parses to NaN. *)
Definition digit (c : ascii) : option Z :=
  let n := chr c - 48 in if (0 <=? n) && (n <=? 9) then Some n else None.

Fixpoint digits (l : list ascii) (acc : Z) : option Z :=
  match l with
  | [] => Some acc
  | c :: l' => match digit c with Some d => digits l' (10 * acc + d) | None => None end
  end.

(** Days from 1970-01-01 to a civil date. *)
Definition days_from_civil (y m d : Z) : Z :=
  let y' := if m <=? 2 then y - 1 else y in
  let era := y' / 400 in
  let yoe := y' - era * 400 in
  let doy := (153 * (if m >? 2 then m - 3 else m + 9) + 2) / 5 + d - 1 in
  let doe := yoe * 365 + yoe / 4 - yoe / 100 + doy in
  era * 146097 + doe - 719468.

Definition days_in_month (y m : Z) : Z :=
  if m =? 2 then (if ((y mod 4 =? 0) && negb (y mod 100 =? 0)) || (y mod 400 =? 0) then 29 else 28)
  else if (m =? 4) || (m =? 6) || (m =? 9) || (m =? 11) then 30 else 31.

Definition field (l : list ascii) (from len : nat) : option Z := digits (take len (drop from l)) 0.

Definition char_at (l : list ascii) (i : nat) (c : ascii) : bool :=
  match l !! i with Some x => Ascii.eqb x c | None => false end.

Definition Date_parse (s : string) : number :=
  let l := chars s in
  match field l 0 4, field l 5 2, field l 8 2, field l 11 2, field l 14 2, field l 17 2, field l 20 3 with
  | Some y, Some mo, Some d, Some h, Some mi, Some se, Some ms =>
      if Nat.eqb (length l) 24 && char_at l 4 "-" && char_at l 7 "-" && char_at l 10 "T" &&
         char_at l 13 ":" && char_at l 16 ":" && char_at l 19 "." && char_at l 23 "Z" &&
         (1 <=? mo) && (mo <=? 12) && (1 <=? d) && (d <=? days_in_month y mo) &&
         (h <=? 23) && (mi <=? 59) && (se <=? 59)
      then num (((days_from_civil y mo d * 24 + h) * 60 + mi) * 60000 + se * 1000 + ms)
      else NaN
  | _, _, _, _, _, _, _ => NaN
  end.

Example date_parse_epoch : Date_parse "2024-02-29T12:34:56.789Z" = num 1709210096789.
Proof. vm_compute. reflexivity. Qed.

(** ** Task intent and Conditions ([packages/sdk/src/task.ts]) *)

Inductive TaskPriority : Type := P0 | P1 | P2 | P3.

(** Stable creating context assigned by the Host. *)
Record ResourceCreator : Type := mkCreator {
  creator_appId : string;
  creator_taskId : option string }.

(** [Omit<TaskIntent, "id">], the desired specification of a Task. *)
Record TaskSpec : Type := mkSpec {
  spec_parentId : string;
  spec_outcome : string;
  spec_acceptance : list string;
  spec_agent : option string;
  spec_owner : option string;
  spec_workflow : option string;
  spec_executor : option string;
  spec_input : option (obj json);
  spec_outputs : option (list string);
  spec_dependsOn : option (list string);
  spec_priority : option TaskPriority;
  spec_category : option string }.

Inductive ProgressInterest : Type := immediate | next_wake.

(** [Omit<Condition, "id">], an observable fact that can wake durable work. *)
Record ConditionSpec : Type := mkConditionSpec {
  cs_type : string;
  cs_subject : string;
  cs_expected : json;
  cs_requestedAction : option string;
  cs_owner : option string;
  cs_reviewAfterMs : option Z;
  cs_progress : option ProgressInterest }.

(** ** Persisted state ([app-task-state.ts]) *)

Definition CONDITION_RECOVERY_INTERVAL_MS : Z := 300000.

Record AppTaskTriggerEvent : Type := mkTriggerEvent {
  te_event : obj json;
  te_observedAt : string }.

Record WaitRef : Type := mkWaitRef { wr_id : string; wr_generation : Z }.

(** Return correlation for admitted input. *)
Record AppTaskInputWait : Type := mkInputWait {
  iw_taskGeneration : Z;
  iw_pending : bool;
  iw_conditions : list WaitRef;
  iw_reviewAt : option Z }.

Inductive ConditionState : Type := cs_unknown | cs_false | cs_true.

Record ConditionReports : Type := mkReports {
  rep_progress : option (obj json);
  rep_failure : option (obj json);
  rep_unknown : option (obj json) }.

Record AppTaskCondition : Type := mkCondition {
  cond_id : string;
  cond_generation : Z;
  cond_resourceVersion : Z;
  cond_spec : ConditionSpec;
  cond_observedGeneration : Z;
  cond_state : ConditionState;
  cond_createdAt : option string;
  cond_observed : option json;
  cond_reports : option ConditionReports;
  cond_observedAt : option string;
  cond_facts : option (list string) }.

Inductive WorkspaceDisposition : Type := ws_active | ws_retained | ws_branch_retained | ws_removed.

Record DirtyObservation : Type := mkDirty {
  dirty_observedAt : string; dirty_status : string; dirty_truncated : bool }.

(** Observed Git workspace lineage of one attempt. *)
Record AppTaskWorkspace : Type := mkWorkspace {
  ws_path : string;
  ws_baseRef : string;
  ws_baseCommit : string;
  ws_branch : string;
  ws_headCommit : string;
  ws_released : bool;
  ws_disposition : WorkspaceDisposition;
  ws_dirtyObservation : option DirtyObservation;
  ws_cleanupError : option string }.

Inductive Phase : Type := pending | running | converged | waiting | attention.
Inductive Lane : Type := human | normal.

(** [TaskView["retryExhausted"]]. *)
Record AppTaskRetryExhaustion : Type := mkExhaustion {
  re_generation : Z;
  re_attemptId : string;
  re_failures : Z;
  re_limit : Z;
  re_exhaustedAt : string }.

Record TaskMetadata : Type := mkMetadata {
  md_id : string;
  md_creator : option ResourceCreator;
  md_generation : Z;
  md_resourceVersion : Z;
  md_reopenedAfterEventId : option Z }.

Record TaskStatus : Type := mkStatus {
  st_observedGeneration : Z;
  st_phase : Phase;
  st_lane : option Lane;
  st_currentAttemptId : option string;
  st_observedAttemptId : option string;
  st_workspaceAttemptId : option string;
  st_executionFailures : option Z;
  (** [None] is absent (legacy), [Some None] an empty sequence. *)
  st_executionFailureAttemptId : option (option string);
  st_admissionFailures : option Z;
  st_retryExhausted : option AppTaskRetryExhaustion;
  st_executionRetryAt : option number;
  st_reviewAt : option Z;
  st_freshHumanInput : bool;
  st_summary : option string;
  st_response : option string;
  st_result : option (obj json);
  st_facts : option (list string);
  st_conditionIds : option (list string);
  st_inputWaits : option (obj AppTaskInputWait);
  st_updatedAt : string }.

Record AppTaskResource : Type := mkResource {
  metadata : TaskMetadata;
  spec : TaskSpec;
  status : TaskStatus }.

(** The lease that keeps an attempt running. *)
Record AppTaskAttemptLease : Type := mkLease {
  lease_id : string;
  lease_version : Z;
  lease_lastActivityAt : string;
  lease_expiresAt : string;
  lease_runtimeId : string;
  lease_sessionId : option string }.

Inductive AttemptState : Type := at_running | at_completed | at_failed | at_interrupted.
Inductive ResultState : Type := r_converged | r_waiting | r_incomplete.

Inductive AcceptanceMethod : Type := deterministic | workflow_contract | agent_judgment.

Record TaskAcceptanceBasis : Type := mkBasis {
  ab_method : AcceptanceMethod; ab_verifier : option string; ab_facts : list string }.

Record AcceptedResult : Type := mkAccepted {
  ar_state : ResultState;
  ar_reviewAt : option Z;
  ar_continue : bool;
  ar_report : bool;
  ar_summary : string;
  ar_response : option string;
  ar_result : option (obj json);
  ar_facts : list string;
  ar_acceptanceBasis : option TaskAcceptanceBasis;
  ar_acceptedLiveEventIds : option (list Z);
  ar_inputKeys : option (list string) }.

Record RequestReceipt : Type := mkRequestReceipt { rr_id : string; rr_requestId : string }.

(** Durable admission of typed changes. *)
Record TaskChangeReceipt : Type := mkChangeReceipt {
  cr_requests : list RequestReceipt;
  cr_conditionIds : list string;
  cr_actionsApplied : list string;
  cr_communication : option json }.

(** Who decided a closure. *)
Inductive Decider : Type :=
| by_human
| by_app (agent attemptId : string)
| by_app_policy
| by_creator (creator : ResourceCreator).

Inductive ClosureKind : Type := ck_closed | ck_cancelled.

(** Immutable closure facts. *)
Record AppTaskCancellation : Type := mkCancellation {
  can_kind : option ClosureKind;
  can_acceptedResultAttemptId : option string;
  can_appId : string;
  can_taskId : string;
  can_generation : Z;
  can_resourceVersion : Z;
  can_outcome : string;
  can_reason : string;
  can_summary : string;
  can_cancelledAt : string;
  can_decidedBy : option Decider;
  can_response : option string;
  can_result : option (obj json);
  can_facts : option (list string) }.

Record AppTaskAttempt : Type := mkAttempt {
  att_id : string;
  att_resourceVersion : Z;
  att_taskId : string;
  att_taskGeneration : Z;
  att_specHash : string;
  att_owner : string;
  att_handler : string;
  att_failoverFromAttemptId : option string;
  att_runtimeId : string;
  att_state : AttemptState;
  att_reason : string;
  att_changeReceipts : option (obj TaskChangeReceipt);
  att_events : option (list AppTaskTriggerEvent);
  att_eventsTruncated : option bool;
  att_continuedInputKeys : option (list string);
  att_acceptedResult : option AcceptedResult;
  att_trigger : option (obj json);
  att_startedAt : string;
  att_finishedAt : option string;
  att_summary : option string;
  att_failureReason : option string;
  att_retryExhausted : option AppTaskRetryExhaustion;
  att_unacceptedResult : option json;
  att_sessionId : option string;
  att_lease : option AppTaskAttemptLease;
  att_workspace : option AppTaskWorkspace;
  att_retiredCancellation : option AppTaskCancellation }.

(** Pending input of a Task. *)
Record AppTaskTrigger : Type := mkTrigger {
  tr_taskId : string;
  tr_taskGeneration : Z;
  tr_resourceVersion : Z;
  tr_events : option (list AppTaskTriggerEvent);
  tr_event : obj json;
  tr_observedAt : string }.

(** The ordered events of a trigger, with its compatibility projection. *)
Definition triggerEvents (t : AppTaskTrigger) : list AppTaskTriggerEvent :=
  match tr_events t with
  | Some events => events
  | None => [mkTriggerEvent (tr_event t) (tr_observedAt t)]
  end.

(** ** Persisted records of [app-task-store.ts] *)

(** A structural container; [parent_id] may be absent or [null]. *)
Record TaskGroup : Type := mkGroup {
  grp_id : string;
  grp_parent_id : option (option string);
  grp_owner : option string }.

Record TaskCompletionReceipt : Type := mkReceipt {
  rcp_id : string;
  rcp_generation : Z;
  rcp_resourceVersion : Z;
  rcp_specHash : string;
  rcp_parentId : string;
  rcp_outcome : string;
  rcp_acceptance : list string;
  rcp_owner : string;
  rcp_workflow : option string;
  rcp_executor : option string;
  rcp_input : option (obj json);
  rcp_priority : option TaskPriority;
  rcp_handler : string;
  rcp_summary : string;
  rcp_response : option string;
  rcp_result : option (obj json);
  rcp_facts : list string;
  rcp_acceptanceBasis : TaskAcceptanceBasis;
  rcp_failureFingerprints : list string;
  rcp_completedAt : string;
  rcp_workspace : option AppTaskWorkspace;
  rcp_compactedDetailSha256 : option string;
  rcp_compactedPayloadSha256 : option string }.

Record Feedback : Type := mkFeedback {
  fb_attemptId : string; fb_revision : Z; fb_legacyBlocked : bool }.

(** Retry fence of one admitted App input. *)
Record AppTaskAdmission : Type := mkAdmission {
  adm_taskId : string;
  adm_taskGeneration : Z;
  adm_specHash : string;
  adm_admittedAt : string;
  adm_inputEvent : option (obj json);
  adm_resultAttemptId : option string;
  adm_progress : option Feedback;
  adm_failure : option Feedback;
  adm_reportAttemptId : option string;
  adm_reportRevision : option Z }.

(** ** Retry pacing *)

Definition taskExecutionRetryExhausted (r : AppTaskResource) : bool :=
  match st_retryExhausted (status r) with Some _ => true | None => false end
  && negb (st_freshHumanInput (status r)).

Definition taskAdmissionRetryDelay (failures : Z) : Z :=
  Z.min (60 * 60000) (250 * 2 ^ Z.min 14 (Z.max 0 (failures - 1))).

Definition taskExecutionRetryDelay (failures : Z) : Z :=
  Z.min (60 * 60000) (30000 * 2 ^ Z.min 7 (Z.max 0 (failures - 1))).

Definition pendingTaskExecutionRetryAt (r : AppTaskResource) (now : Z) : option number :=
  match st_executionRetryAt (status r) with
  | Some at_ => if isFinite at_ && number_ltb (num now) at_ then Some at_ else None
  | None => None
  end.

Definition taskEventPredatesReopening (r : option AppTaskResource) (event : option (obj json)) : bool :=
  match r ≫= fun r => md_reopenedAfterEventId (metadata r) with
  | Some fence =>
      match event ≫= obj_get "eventId" with
      | Some (JNum n) => number_leb n (num fence)
      | _ => false
      end
  | None => false
  end.

(** [assertResourceCreator] ([src/app/core/state/resource-creator.ts]). *)
Definition assertResourceCreator (creator : option ResourceCreator) (actor : ResourceCreator) : res unit :=
  match creator with
  | Some c =>
      if String.eqb (creator_appId c) (creator_appId actor) &&
         bool_decide (creator_taskId c = creator_taskId actor)
      then Ok tt else Throw "Only the recorded creator may change this resource's spec"
  | None => Throw "Only the recorded creator may change this resource's spec"
  end.

(** ** Decidable equality *)

#[export] Instance TaskPriority_eq_dec : EqDecision TaskPriority.
Proof. solve_decision. Defined.
#[export] Instance ResourceCreator_eq_dec : EqDecision ResourceCreator.
Proof. solve_decision. Defined.
#[export] Instance Phase_eq_dec : EqDecision Phase.
Proof. solve_decision. Defined.
#[export] Instance Lane_eq_dec : EqDecision Lane.
Proof. solve_decision. Defined.
#[export] Instance ConditionState_eq_dec : EqDecision ConditionState.
Proof. solve_decision. Defined.
#[export] Instance AttemptState_eq_dec : EqDecision AttemptState.
Proof. solve_decision. Defined.
#[export] Instance ResultState_eq_dec : EqDecision ResultState.
Proof. solve_decision. Defined.
#[export] Instance Decider_eq_dec : EqDecision Decider.
Proof. solve_decision. Defined.
#[export] Instance ClosureKind_eq_dec : EqDecision ClosureKind.
Proof. solve_decision. Defined.
#[export] Instance ProgressInterest_eq_dec : EqDecision ProgressInterest.
Proof. solve_decision. Defined.

(** [isDeepStrictEqual] on two closure records. *)
Definition cancellation_eqb (a b : AppTaskCancellation) : bool :=
  bool_decide (can_kind a = can_kind b) &&
  bool_decide (can_acceptedResultAttemptId a = can_acceptedResultAttemptId b) &&
  String.eqb (can_appId a) (can_appId b) && String.eqb (can_taskId a) (can_taskId b) &&
  Z.eqb (can_generation a) (can_generation b) && Z.eqb (can_resourceVersion a) (can_resourceVersion b) &&
  String.eqb (can_outcome a) (can_outcome b) && String.eqb (can_reason a) (can_reason b) &&
  String.eqb (can_summary a) (can_summary b) && String.eqb (can_cancelledAt a) (can_cancelledAt b) &&
  bool_decide (can_decidedBy a = can_decidedBy b) && bool_decide (can_response a = can_response b) &&
  opt_deep_eqb (JObj <$> can_result a) (JObj <$> can_result b) &&
  bool_decide (can_facts a = can_facts b).

(** ** Lemmas *)

Lemma backoff_bounds (base top cap f : Z) :
  0 < base <= top -> 0 <= cap ->
  base <= Z.min top (base * 2 ^ Z.min cap (Z.max 0 (f - 1))) <= top.
Proof.
  intros Hb Hc. assert (0 < 2 ^ Z.min cap (Z.max 0 (f - 1))) by (apply Z.pow_pos_nonneg; lia). nia.
Qed.

Lemma backoff_monotone (base top cap f g : Z) :
  0 <= base -> 0 <= cap -> f <= g ->
  Z.min top (base * 2 ^ Z.min cap (Z.max 0 (f - 1))) <=
  Z.min top (base * 2 ^ Z.min cap (Z.max 0 (g - 1))).
Proof.
  intros Hb Hc Hfg.
  assert (2 ^ Z.min cap (Z.max 0 (f - 1)) <= 2 ^ Z.min cap (Z.max 0 (g - 1)))
    by (apply Z.pow_le_mono_r; lia). nia.
Qed.

(** Past the exponent the cap is reached: the delay saturates. *)
Lemma backoff_saturates (base top cap f : Z) :
  0 <= cap -> top <= base * 2 ^ cap -> cap < f ->
  Z.min top (base * 2 ^ Z.min cap (Z.max 0 (f - 1))) = top.
Proof. intros Hc Ht Hf. rewrite (Z.min_l cap) by lia. lia. Qed.

(** ** Properties *)

(** Retry pacing: both delays are monotone in the number of consecutive
    failures, start at 250 ms and 30 s, never exceed one hour and stay there
    after 15 and 8 failures. *)
Lemma retry_pacing :
  (forall f, 250 <= taskAdmissionRetryDelay f <= 3600000) /\
  (forall f, 30000 <= taskExecutionRetryDelay f <= 3600000) /\
  (forall f g, f <= g -> taskAdmissionRetryDelay f <= taskAdmissionRetryDelay g) /\
  (forall f g, f <= g -> taskExecutionRetryDelay f <= taskExecutionRetryDelay g) /\
  (forall f, 14 < f -> taskAdmissionRetryDelay f = 3600000) /\
  (forall f, 7 < f -> taskExecutionRetryDelay f = 3600000).
Proof.
  unfold taskAdmissionRetryDelay, taskExecutionRetryDelay. change (60 * 60000) with 3600000.
  split_ands; intros;
    first [apply backoff_bounds | apply backoff_monotone | apply backoff_saturates]; lia.
Qed.
