(* ===== verification/TaskTree.v ===== *)
(** The Task tree projection ([src/app/core/tasks/app-task-store.ts]): the
    in-memory tree of an App's Task records, its normalization, the readiness of
    every Task, owner inheritance, children, and the integrity findings that a
    projection reports. *)
From S2P Require Import Prelude Json TaskState.

Module TaskTree.

(** ** Data *)

Record TaskTree : Type := mkTree {
  version : option Z;
  project : option string;
  updated_at : option string;
  project_lifecycle : option string;
  root_task_id : option string;
  conditions : obj AppTaskCondition;
  resources : obj AppTaskResource;
  attempts : obj AppTaskAttempt;
  taskTriggers : obj AppTaskTrigger;
  appTaskAdmissions : obj AppTaskAdmission;
  receipts : obj TaskCompletionReceipt;
  cancellations : obj AppTaskCancellation;
  groups : obj TaskGroup }.

Inductive ReadinessState : Type :=
| ready
| dependency_blocked
| condition_blocked
| capacity_blocked
| paused
| not_applicable.

Record AppTaskReadiness : Type := mkReadiness {
  rd_state : ReadinessState;
  rd_reason : string;
  rd_related_ids : list string }.

Inductive ItemType : Type := item_group | item_task.

Record ActiveAttempt : Type := mkActive {
  aa_id : string; aa_handler : string; aa_state : AttemptState;
  aa_reason : string; aa_started_at : string }.

Record AppTaskProjectionItem : Type := mkItem {
  it_type : ItemType;
  it_id : string;
  it_parent_id : option string;
  it_children : list string;
  it_outcome : option string;
  it_category : option string;
  it_priority : option TaskPriority;
  it_owner : option string;
  it_workflow : option string;
  it_executor : option string;
  it_generation : option Z;
  it_resource_version : option Z;
  it_phase : option Phase;
  it_observed_generation : option Z;
  it_synchronized : option bool;
  it_readiness : option AppTaskReadiness;
  it_depends_on : option (list string);
  it_outputs : option (list string);
  it_acceptance : option (list string);
  it_input : option (obj json);
  it_trigger : option (obj json);
  it_summary : option string;
  it_facts : option (list string);
  it_condition_ids : option (list string);
  it_status_updated_at : option string;
  it_attempt_count : option Z;
  it_active_attempt : option ActiveAttempt }.

Inductive FindingCode : Type :=
| missing_parent
| missing_dependency
| missing_condition
| waiting_without_condition
| running_without_attempt
| generation_inversion.

Record AppTaskIntegrityFinding : Type := mkFinding {
  f_code : FindingCode;
  f_task_id : string;
  f_related_ids : list string;
  f_message : string }.

Record AppTaskTreeProjection : Type := mkProjection {
  pr_project : option string;
  pr_project_lifecycle : option string;
  pr_root_task_id : option string;
  pr_updated_at : option string;
  pr_max_concurrent : Z;
  pr_active_task_ids : list string;
  pr_conditions : obj AppTaskCondition;
  pr_satisfied_dependency_ids : list string;
  pr_integrity : list AppTaskIntegrityFinding;
  pr_tasks : obj AppTaskProjectionItem }.

(** ** Normalization *)

(** A trimmed owner, when there is one. *)
Definition trimmed (s : option string) : option string := nonempty (trim <$> s).

Definition normalizeTaskGroup (id : string) (group : TaskGroup) : TaskGroup :=
  mkGroup id (grp_parent_id group) (trimmed (grp_owner group)).

Definition normalizeTaskStateInPlace (tree : TaskTree) : TaskTree :=
  let groups' := fromEntries (map (fun e => (e.1, normalizeTaskGroup e.1 e.2)) (groups tree)) in
  let root :=
    match root_task_id tree with
    | Some r => Some r
    | None =>
        grp_id <$> head (filter (fun g => grp_parent_id g = Some None) (obj_values groups'))
    end in
  mkTree (version tree) (project tree) (updated_at tree) (project_lifecycle tree) root
    (conditions tree) (resources tree) (attempts tree) (taskTriggers tree)
    (appTaskAdmissions tree) (receipts tree) (cancellations tree) groups'.

(** ** Owner inheritance *)

(** The walk up the parents; [None] is an exhausted fuel. *)
Fixpoint ownerWalk (fuel : nat) (groups : obj TaskGroup) (resources : obj AppTaskResource)
    (parentId : option string) (seen : list string) : option (option string) :=
  match fuel with
  | O => None
  | S fuel =>
      match nonempty parentId with
      | None => Some None
      | Some p =>
          if set_has p seen then Some None else
          let seen := set_add p seen in
          match obj_get p resources with
          | Some parentResource =>
              match trimmed (spec_owner (spec parentResource)) with
              | Some owner => Some (Some owner)
              | None => ownerWalk fuel groups resources (Some (spec_parentId (spec parentResource))) seen
              end
          | None =>
              let group := obj_get p groups in
              match group ≫= fun g => trimmed (grp_owner g) with
              | Some owner => Some (Some owner)
              | None =>
                  ownerWalk fuel groups resources
                    (group ≫= fun g => grp_parent_id g ≫= fun x => x) seen
              end
          end
      end
  end.

(** Every iteration but the last visits another key of the two objects. *)
Definition ownerFuel (groups : obj TaskGroup) (resources : obj AppTaskResource) : nat :=
  S (S (length (obj_keys groups ++ obj_keys resources))).

Definition projectedTaskOwner (resource : AppTaskResource) (groups : obj TaskGroup)
    (resources : obj AppTaskResource) : option string :=
  match trimmed (spec_owner (spec resource)) with
  | Some owner => Some owner
  | None =>
      match ownerWalk (ownerFuel groups resources) groups resources
              (Some (spec_parentId (spec resource))) [] with
      | Some r => r
      | None => None
      end
  end.

(** ** Children *)

Definition addChild (parentId : option string) (childId : string) (sets : obj (list string)) :
    obj (list string) :=
  match nonempty parentId with
  | None => sets
  | Some p =>
      obj_set p (set_add childId (match obj_get p sets with Some s => s | None => [] end)) sets
  end.

Definition projectedTaskChildren (groups : obj TaskGroup) (resources : obj AppTaskResource) :
    obj (list string) :=
  let sets := fold_left (fun sets e => addChild (grp_parent_id e.2 ≫= fun x => x) e.1 sets) groups [] in
  let sets := fold_left (fun sets e => addChild (Some (spec_parentId (spec e.2))) e.1 sets) resources sets in
  fromEntries (map (fun e => (e.1, js_sort e.2)) sets).

(** ** Dependencies and readiness *)

(** A dependency is satisfied by a converged Task that observed its current
    generation. *)
Definition dependencySatisfied (tree : TaskTree) (id : string) : bool :=
  match obj_get id (resources tree) with
  | Some d =>
      bool_decide (st_phase (status d) = converged) &&
      Z.eqb (st_observedGeneration (status d)) (md_generation (metadata d))
  | None => false
  end.

Definition dependsOn (r : AppTaskResource) : list string := default [] (spec_dependsOn (spec r)).
Definition conditionIds (r : AppTaskResource) : list string := default [] (st_conditionIds (status r)).

Definition satisfiedDependencyIds (tree : TaskTree) : list string :=
  js_sort (set_of (filter (fun id => dependencySatisfied tree id = true)
    (flat_map dependsOn (obj_values (resources tree))))).

Definition conditionIsTrue (tree : TaskTree) (id : string) : bool :=
  match obj_get id (conditions tree) with
  | Some c => bool_decide (cond_state c = cs_true)
  | None => false
  end.

Definition phaseName (p : Phase) : string :=
  match p with
  | pending => "pending" | running => "running" | converged => "converged"
  | waiting => "waiting" | attention => "attention"
  end.

Definition appTaskReadiness (tree : TaskTree) (resource : AppTaskResource) (satisfied : list string)
    (maxConcurrent activeCount : Z) : AppTaskReadiness :=
  let conditionIds := conditionIds resource in
  let satisfiedConditionIds := filter (fun id => conditionIsTrue tree id = true) conditionIds in
  let isWaiting := bool_decide (st_phase (status resource) = waiting) in
  let conditionWokeTask := isWaiting && negb (Nat.eqb (length satisfiedConditionIds) 0) in
  if isWaiting && negb conditionWokeTask then
    mkReadiness condition_blocked
      (match conditionIds with
       | [] => "Waiting without a linked Condition"
       | _ => "Waiting for " +:+ join conditionIds
       end) conditionIds
  else if negb (bool_decide (st_phase (status resource) = pending)) && negb conditionWokeTask then
    mkReadiness not_applicable ("Task phase is " +:+ phaseName (st_phase (status resource))) []
  else if bool_decide (project_lifecycle tree = Some "paused") then
    mkReadiness paused "Project task reconciliation is paused" []
  else
    let unmet := filter (fun id => set_has id satisfied = false) (dependsOn resource) in
    match unmet with
    | _ :: _ => mkReadiness dependency_blocked ("Waiting for " +:+ join unmet) unmet
    | [] =>
        if maxConcurrent <=? activeCount then
          mkReadiness capacity_blocked
            ("Concurrency " +:+ show_Z activeCount +:+ "/" +:+ show_Z maxConcurrent +:+ " is full") []
        else if conditionWokeTask then
          mkReadiness ready ("Condition satisfied: " +:+ join satisfiedConditionIds) satisfiedConditionIds
        else mkReadiness ready "Dependencies and capacity allow claim" []
    end.

Definition configuredLimit (configured : number) : Z :=
  if isInteger configured && number_ltb (num 0) configured then number_to_Z configured else 1.

Definition isRunning (r : AppTaskResource) : bool := bool_decide (st_phase (status r) = running).

Definition activeCount (tree : TaskTree) : Z :=
  Z.of_nat (length (filter (fun r => isRunning r = true) (obj_values (resources tree)))).

Definition appTaskReadinessById (tree : TaskTree) (configuredMaxConcurrent : number) :
    obj AppTaskReadiness :=
  let maxConcurrent := configuredLimit configuredMaxConcurrent in
  let satisfied := set_of (satisfiedDependencyIds tree) in
  let activeCount := activeCount tree in
  fromEntries (map (fun r => (md_id (metadata r),
      appTaskReadiness tree r satisfied maxConcurrent activeCount)) (obj_values (resources tree))).

(** ** The projection *)

Definition attemptsByTask (tree : TaskTree) (taskId : string) : list AppTaskAttempt :=
  filter (fun a => att_taskId a = taskId) (obj_values (attempts tree)).

Definition groupItem (childrenById : obj (list string)) (id : string) (group : TaskGroup) :
    AppTaskProjectionItem :=
  mkItem item_group id (grp_parent_id group ≫= fun x => x) (default [] (obj_get id childrenById))
    None None None (nonempty (grp_owner group)) None None None None None None None None None None
    None None None None None None None None None.

(** A projected parent is a string, possibly empty. *)
Definition activeAttemptOf (tree : TaskTree) (r : AppTaskResource) : option AppTaskAttempt :=
  nonempty (st_currentAttemptId (status r)) ≫= fun id => obj_get id (attempts tree).

Definition taskItem (tree : TaskTree) (childrenById : obj (list string))
    (readinessById : obj AppTaskReadiness) (taskId : string) (resource : AppTaskResource) :
    AppTaskProjectionItem :=
  let md := metadata resource in
  let sp := spec resource in
  let st := status resource in
  mkItem item_task taskId (Some (spec_parentId sp)) (default [] (obj_get taskId childrenById))
    (Some (spec_outcome sp)) (nonempty (spec_category sp)) (Some (default P2 (spec_priority sp)))
    (nonempty (projectedTaskOwner resource (groups tree) (resources tree)))
    (nonempty (spec_workflow sp)) (nonempty (spec_executor sp))
    (Some (md_generation md)) (Some (md_resourceVersion md)) (Some (st_phase st))
    (Some (st_observedGeneration st)) (Some (Z.eqb (st_observedGeneration st) (md_generation md)))
    (obj_get taskId readinessById) (Some (dependsOn resource)) (Some (default [] (spec_outputs sp)))
    (Some (spec_acceptance sp)) (spec_input sp)
    (tr_event <$> obj_get taskId (taskTriggers tree)) (nonempty (st_summary st)) (st_facts st)
    (Some (conditionIds resource)) (Some (st_updatedAt st))
    (Some (Z.of_nat (length (filter (fun a => att_runtimeId a <> "retired:task-receipt")
       (attemptsByTask tree taskId)))))
    ((fun a => mkActive (att_id a) (att_handler a) (att_state a) (att_reason a) (att_startedAt a))
       <$> activeAttemptOf tree resource).

Definition projectedTasks (tree : TaskTree) (configured : number) : obj AppTaskProjectionItem :=
  let readinessById := appTaskReadinessById tree (num (configuredLimit configured)) in
  let childrenById := projectedTaskChildren (groups tree) (resources tree) in
  let tasks := fold_left (fun t e => obj_set e.1 (groupItem childrenById e.1 e.2) t) (groups tree) [] in
  fold_left (fun t e => obj_set e.1 (taskItem tree childrenById readinessById e.1 e.2) t)
    (resources tree) tasks.

(** The findings of one projected item, in the order the code pushes them. *)
Definition itemFindings (tree : TaskTree) (tasks : obj AppTaskProjectionItem) (satisfied : list string)
    (task : AppTaskProjectionItem) : list AppTaskIntegrityFinding :=
  match nonempty (it_parent_id task) with
  | Some p =>
      if obj_has p tasks then [] else
      [mkFinding missing_parent (it_id task) [p] ("Parent " +:+ p +:+ " is missing")]
  | None => []
  end ++
  match it_type task with
  | item_group => []
  | item_task =>
      let observed := default 0 (it_observed_generation task) in
      let generation := default 0 (it_generation task) in
      let missingDependencies :=
        filter (fun id => (obj_has id tasks || set_has id satisfied) = false)
          (default [] (it_depends_on task)) in
      let conditionIds := default [] (it_condition_ids task) in
      let missingConditions := filter (fun id => obj_has id (conditions tree) = false) conditionIds in
      (if generation <? observed then
         [mkFinding generation_inversion (it_id task) []
            ("Observed generation " +:+ show_Z observed +:+ " exceeds desired generation "
             +:+ show_Z generation)] else []) ++
      match missingDependencies with
      | [] => []
      | _ => [mkFinding missing_dependency (it_id task) missingDependencies
                ("Dependencies are missing: " +:+ join missingDependencies)]
      end ++
      match it_phase task, it_active_attempt task with
      | Some running, None =>
          [mkFinding running_without_attempt (it_id task) [] "Running task has no current attempt"]
      | _, _ => []
      end ++
      match it_phase task, conditionIds with
      | Some waiting, [] =>
          [mkFinding waiting_without_condition (it_id task) [] "Waiting task has no linked Condition"]
      | _, _ => []
      end ++
      match missingConditions with
      | [] => []
      | _ => [mkFinding missing_condition (it_id task) missingConditions
                ("Conditions are missing: " +:+ join missingConditions)]
      end
  end.

Definition buildAppTaskTreeProjection (tree : TaskTree) (configured : number) : AppTaskTreeProjection :=
  let satisfiedIds := satisfiedDependencyIds tree in
  let tasks := projectedTasks tree configured in
  mkProjection (nonempty (project tree)) (nonempty (project_lifecycle tree))
    (nonempty (root_task_id tree)) (updated_at tree) (configuredLimit configured)
    (js_sort (map (fun r => md_id (metadata r))
       (filter (fun r => isRunning r = true) (obj_values (resources tree)))))
    (conditions tree) satisfiedIds
    (flat_map (itemFindings tree tasks (set_of satisfiedIds)) (obj_values tasks)) tasks.

(** ** Well-formed trees *)

(** Objects have one entry per key, and Task records are filed under their own
    id: what [readSnapshot] and [readTaskContext] build. *)
Record tree_wf (tree : TaskTree) : Prop := mkTreeWf {
  wf_groups : obj_wf (groups tree);
  wf_resources : obj_wf (resources tree);
  wf_keyed : forall id r, obj_get id (resources tree) = Some r -> md_id (metadata r) = id }.

(** ** Specifications *)

(** The abstract rule for a claim. *)
Record claimable (tree : TaskTree) (limit : Z) (r : AppTaskResource) : Prop := mkClaimable {
  cl_phase : st_phase (status r) = pending \/
             (st_phase (status r) = waiting /\
              exists id, id ∈ conditionIds r /\ conditionIsTrue tree id = true);
  cl_active : project_lifecycle tree <> Some "paused";
  cl_deps : forall d, d ∈ dependsOn r -> dependencySatisfied tree d = true;
  cl_capacity : activeCount tree < limit }.

(** The owner and the parent of a node of the tree, resources first. *)
Definition node_owner (groups : obj TaskGroup) (resources : obj AppTaskResource) (p : string) :
    option string :=
  match obj_get p resources with
  | Some r => trimmed (spec_owner (spec r))
  | None => obj_get p groups ≫= fun g => trimmed (grp_owner g)
  end.

Definition node_parent (groups : obj TaskGroup) (resources : obj AppTaskResource) (p : string) :
    option string :=
  nonempty match obj_get p resources with
  | Some r => Some (spec_parentId (spec r))
  | None => obj_get p groups ≫= fun g => grp_parent_id g ≫= fun x => x
  end.

(** [inherits n p o]: the nearest owner at or above [p] is [o], [n] links up. *)
Inductive inherits (groups : obj TaskGroup) (resources : obj AppTaskResource) :
    nat -> string -> string -> Prop :=
| inherits_here p o :
    node_owner groups resources p = Some o -> inherits groups resources 0 p o
| inherits_up n p q o :
    node_owner groups resources p = None -> node_parent groups resources p = Some q ->
    inherits groups resources n q o -> inherits groups resources (S n) p o.

(** A tree with nothing to report. *)
Record task_sound (tree : TaskTree) (r : AppTaskResource) : Prop := mkSound {
  so_generation : st_observedGeneration (status r) <= md_generation (metadata r);
  so_deps : forall d, d ∈ dependsOn r -> obj_has d (resources tree) || obj_has d (groups tree) = true;
  so_running : st_phase (status r) = running -> activeAttemptOf tree r <> None;
  so_waiting : st_phase (status r) = waiting -> conditionIds r <> [];
  so_conditions : forall c, c ∈ conditionIds r -> obj_has c (conditions tree) = true }.

Definition parent_known (tree : TaskTree) (p : option string) : Prop :=
  forall q, nonempty p = Some q -> obj_has q (resources tree) || obj_has q (groups tree) = true.

Definition tree_sound (tree : TaskTree) : Prop :=
  (forall id r, obj_get id (resources tree) = Some r ->
     parent_known tree (Some (spec_parentId (spec r))) /\ task_sound tree r) /\
  (forall id g, obj_get id (resources tree) = None -> obj_get id (groups tree) = Some g ->
     parent_known tree (grp_parent_id g ≫= fun x => x)).

(** ** Dependencies *)

Lemma elem_of_satisfied tree d :
  d ∈ satisfiedDependencyIds tree <->
  dependencySatisfied tree d = true /\ exists r, r ∈ obj_values (resources tree) /\ d ∈ dependsOn r.
Proof.
  unfold satisfiedDependencyIds. rewrite elem_of_js_sort, elem_of_set_of, list_elem_of_filter.
  rewrite elem_of_flat_map. naive_solver.
Qed.

(** ** Readiness *)

Lemma readiness_ready tree r limit :
  r ∈ obj_values (resources tree) ->
  rd_state (appTaskReadiness tree r (set_of (satisfiedDependencyIds tree)) limit (activeCount tree)) = ready
  <-> claimable tree limit r.
Proof.
  intros Hr. unfold appTaskReadiness.
  set (sat := filter _ (conditionIds r)).
  assert (negb (Nat.eqb (length sat) 0) = true <->
          exists id, id ∈ conditionIds r /\ conditionIsTrue tree id = true) as Hwoke.
  { rewrite negb_true_iff, Nat.eqb_neq, length_zero_iff_nil. unfold sat. split.
    - intros Hne. destruct (filter _ _) as [|x l] eqn:E; [done|]. exists x.
      assert (x ∈ filter (fun id => conditionIsTrue tree id = true) (conditionIds r)) as Hx
        by (rewrite E; set_solver).
      apply list_elem_of_filter in Hx. tauto.
    - intros (id & Hid & Ht) Hnil. rewrite filter_nil_iff in Hnil. by apply (Hnil id). }
  assert (filter (fun id => set_has id (set_of (satisfiedDependencyIds tree)) = false) (dependsOn r) = [] <->
          (forall d, d ∈ dependsOn r -> dependencySatisfied tree d = true)) as Hdeps.
  { rewrite filter_nil_iff. apply forall_proper. intros d. rewrite set_has_false, elem_of_set_of.
    rewrite elem_of_satisfied. split; intros H Hd; specialize (H Hd).
    - destruct (decide (dependencySatisfied tree d = true)) as [|Hn]; [done|].
      contradict H. tauto.
    - intros Hn. apply Hn. eauto. }
  split.
  - intros H.
    destruct (negb (Nat.eqb (length sat) 0)) eqn:Es;
      destruct (bool_decide (st_phase (status r) = waiting)) eqn:Ew;
      destruct (bool_decide (st_phase (status r) = pending)) eqn:Ep; simpl in H; try discriminate H.
    all: destruct (bool_decide (project_lifecycle tree = Some "paused")) eqn:El; [discriminate H|].
    all: destruct (filter _ (dependsOn r)) as [|? ?] eqn:Eu; [|discriminate H].
    all: destruct (limit <=? activeCount tree) eqn:Ec; [discriminate H|].
    all: clear H; reflect_bools; pose proof (proj1 Hdeps eq_refl);
      constructor; [|done|done|lia];
      first [by left | right; split; [done|]; by apply Hwoke].
  - intros [Hp Hl Hd Hc]. apply Hdeps in Hd. rewrite Hd, (bool_decide_eq_false_2 _ Hl).
    rewrite (proj2 (Z.leb_gt _ _) Hc).
    destruct Hp as [Hp|[Hp Hw]].
    + by rewrite Hp.
    + apply Hwoke in Hw. rewrite Hp, Hw. done.
Qed.

Lemma readinessById_get tree c id r :
  tree_wf tree -> obj_get id (resources tree) = Some r ->
  obj_get id (appTaskReadinessById tree c) =
  Some (appTaskReadiness tree r (set_of (satisfiedDependencyIds tree)) (configuredLimit c) (activeCount tree)).
Proof.
  intros Hwf Hr. unfold appTaskReadinessById. apply fromEntries_get.
  - rewrite map_map. simpl.
    replace (map (fun x => md_id (metadata x)) (obj_values (resources tree)))
      with (obj_keys (resources tree)); [apply Hwf|].
    unfold obj_keys, obj_values. rewrite map_map. apply map_ext_in. intros [k x] Hin%list_elem_of_In.
    simpl. symmetry. apply (wf_keyed tree Hwf). apply obj_get_wf; [apply Hwf|done].
  - apply list_elem_of_fmap. exists r. rewrite (wf_keyed tree Hwf id r Hr). split; [done|].
    apply elem_of_obj_values; [apply Hwf|]. by exists id.
Qed.

(** ** Owner inheritance *)

Lemma ownerWalk_unfold fuel gs rs p seen :
  ownerWalk (S fuel) gs rs (Some p) seen =
  match nonempty (Some p) with
  | None => Some None
  | Some p =>
      if set_has p seen then Some None else
      match node_owner gs rs p with
      | Some o => Some (Some o)
      | None => ownerWalk fuel gs rs (node_parent gs rs p) (set_add p seen)
      end
  end.
Proof.
  assert (forall fuel' q s, ownerWalk fuel' gs rs (nonempty q) s = ownerWalk fuel' gs rs q s) as Hn.
  { intros [|fuel'] q s; [done|]. simpl. destruct q as [q|]; [|done]. simpl.
    destruct (String.eqb q "") eqn:E; simpl; [done|]. by rewrite E. }
  cbn [ownerWalk nonempty]. destruct (String.eqb p ""); [done|].
  destruct (set_has p seen); [done|].
  unfold node_owner, node_parent. rewrite Hn. by destruct (obj_get p rs).
Qed.

Lemma node_parent_known gs rs p q :
  node_parent gs rs p = Some q -> p ∈ obj_keys gs ++ obj_keys rs.
Proof.
  unfold node_parent. intros H. apply elem_of_app.
  destruct (obj_get p rs) as [r|] eqn:Er.
  - right. destruct (decide (p ∈ obj_keys rs)) as [|Hn]; [done|]. by apply obj_get_None in Hn; rewrite Hn in Er.
  - left. destruct (decide (p ∈ obj_keys gs)) as [|Hn]; [done|].
    apply obj_get_None in Hn. by rewrite Hn in H.
Qed.

(** The walk never runs out of fuel. *)
Lemma ownerWalk_total gs rs fuel p seen :
  NoDup seen -> (forall s, s ∈ seen -> s ∈ obj_keys gs ++ obj_keys rs) ->
  (S (length (obj_keys gs ++ obj_keys rs)) < fuel + length seen)%nat ->
  ownerWalk fuel gs rs p seen <> None.
Proof.
  revert p seen. induction fuel as [|fuel IH]; intros p seen Hnd Hsub Hf.
  - assert (length seen <= length (obj_keys gs ++ obj_keys rs))%nat; [|lia].
    by apply submseteq_length, NoDup_submseteq.
  - destruct p as [p|]; [|done]. rewrite ownerWalk_unfold.
    destruct (nonempty (Some p)) as [p'|]; [|done].
    destruct (set_has p' seen) eqn:Es; [done|].
    destruct (node_owner gs rs p'); [done|].
    destruct (node_parent gs rs p') as [q|] eqn:Eq; [|destruct fuel; [|done]].
    + apply IH; [by apply NoDup_set_add| |rewrite length_set_add, Es; lia].
      intros s [->|Hs]%elem_of_set_add; [by eapply node_parent_known|auto].
    + exfalso. assert (length seen <= length (obj_keys gs ++ obj_keys rs))%nat; [|lia].
      by apply submseteq_length, NoDup_submseteq.
Qed.

Lemma inherits_fun gs rs n m p o o' :
  inherits gs rs n p o -> inherits gs rs m p o' -> n = m /\ o = o'.
Proof.
  intros H. revert m. induction H as [p o Ho|n p q o Ho Hq H IH]; intros m H'; inversion H'; subst.
  - split; congruence.
  - congruence.
  - congruence.
  - assert (q = q0) as -> by congruence. destruct (IH n0) as [-> ->]; done.
Qed.

(** What the walk returns is inherited. *)
Lemma ownerWalk_sound gs rs fuel p seen o :
  ownerWalk fuel gs rs p seen = Some (Some o) -> exists q n, nonempty p = Some q /\ inherits gs rs n q o.
Proof.
  revert p seen. induction fuel as [|fuel IH]; intros p seen; [done|].
  destruct p as [p|]; [|done]. rewrite ownerWalk_unfold.
  destruct (nonempty (Some p)) as [q|] eqn:Eq; [|done]. destruct (set_has q seen); [done|].
  destruct (node_owner gs rs q) as [o'|] eqn:Eo.
  - intros [= ->]. exists q, 0%nat. split; [done|]. by constructor.
  - intros (q' & n & Hq' & Hi)%IH. exists q, (S n). split; [done|].
    apply (inherits_up _ _ _ _ q'); [done| |done].
    unfold node_parent in *. by rewrite nonempty_idemp in Hq'.
Qed.

(** An inherited owner is found: the nodes already visited lie further from it. *)
Lemma ownerWalk_complete gs rs fuel p q seen n o :
  nonempty p = Some q -> inherits gs rs n q o ->
  (forall s, s ∈ seen -> exists m, (n < m)%nat /\ inherits gs rs m s o) ->
  ownerWalk fuel gs rs p seen = None \/ ownerWalk fuel gs rs p seen = Some (Some o).
Proof.
  intros Hq Hi. revert fuel p seen Hq.
  induction Hi as [q o Ho|n q q' o Ho Hq' Hi IH]; intros [|fuel] p seen Hq Hseen; try by left.
  all: destruct p as [p|]; [|done]; rewrite ownerWalk_unfold, Hq.
  all: destruct (set_has q seen) eqn:Es;
    [apply set_has_true in Es; destruct (Hseen q Es) as (m & Hm & Hmi);
     (assert (0%nat = m) as <- by (eapply inherits_fun; [by apply inherits_here|done]); lia) ||
     (assert (S n = m) as <- by (eapply inherits_fun; [by eapply inherits_up|done]); lia)|].
  - rewrite Ho. by right.
  - rewrite Ho. apply IH.
    + unfold node_parent in *. by rewrite nonempty_idemp.
    + intros s [->|Hs]%elem_of_set_add.
      * exists (S n). split; [lia|]. by eapply inherits_up.
      * destruct (Hseen s Hs) as (m & ? & ?). exists m. split; [lia|done].
Qed.

Lemma projectedTaskOwner_spec gs rs r o :
  projectedTaskOwner r gs rs = Some o <->
  trimmed (spec_owner (spec r)) = Some o \/
  (trimmed (spec_owner (spec r)) = None /\
   exists p n, nonempty (Some (spec_parentId (spec r))) = Some p /\ inherits gs rs n p o).
Proof.
  unfold projectedTaskOwner. destruct (trimmed (spec_owner (spec r))) as [o'|]; [naive_solver|].
  assert (ownerWalk (ownerFuel gs rs) gs rs (Some (spec_parentId (spec r))) [] <> None) as Ht.
  { apply ownerWalk_total; [constructor|set_solver|]. unfold ownerFuel. simpl. lia. }
  destruct (ownerWalk _ _ _ _ _) as [x|] eqn:E; [|done]. split.
  - intros ->. right. apply ownerWalk_sound in E. naive_solver.
  - intros [?|(_ & p & n & Hp & Hi)]; [done|].
    destruct (ownerWalk_complete gs rs (ownerFuel gs rs) _ p [] n o Hp Hi); [set_solver|congruence..].
Qed.

(** ** Children *)

Lemma addChild_get p parent child sets :
  p <> "" ->
  default [] (obj_get p (addChild parent child sets)) =
  if decide (parent = Some p) then set_add child (default [] (obj_get p sets))
  else default [] (obj_get p sets).
Proof.
  intros Hp. unfold addChild. destruct parent as [x|]; simpl.
  - destruct (String.eqb_spec x ""); subst.
    + by rewrite decide_False by congruence.
    + destruct (decide (Some x = Some p)) as [[= ->]|Hne].
      * rewrite obj_get_set_eq. by destruct (obj_get p sets).
      * by rewrite obj_get_set_ne by congruence.
  - done.
Qed.

Section Children.
Context {V : Type} (parent : V -> option string) (p : string) (Hp : p <> "").

Lemma fold_children_elem (o : obj V) sets q :
  q ∈ default [] (obj_get p (fold_left (fun s e => addChild (parent e.2) e.1 s) o sets)) <->
  q ∈ default [] (obj_get p sets) \/ exists v, (q, v) ∈ o /\ parent v = Some p.
Proof.
  revert sets. induction o as [|[k v] o IH]; intros sets; simpl; [set_solver|].
  rewrite IH, addChild_get by done. simpl. setoid_rewrite elem_of_cons.
  case_decide; [rewrite elem_of_set_add|]; naive_solver.
Qed.

Lemma fold_children_NoDup (o : obj V) sets :
  NoDup (default [] (obj_get p sets)) ->
  NoDup (default [] (obj_get p (fold_left (fun s e => addChild (parent e.2) e.1 s) o sets))).
Proof.
  revert sets. induction o as [|[k v] o IH]; intros sets Hnd; simpl; [done|].
  apply IH. rewrite addChild_get by done. case_decide; [by apply NoDup_set_add|done].
Qed.
End Children.

Lemma fold_children_wf {V} (parent : V -> option string) (o : obj V) (sets : obj (list string)) :
  obj_wf sets -> obj_wf (fold_left (fun s e => addChild (parent e.2) e.1 s) o sets).
Proof.
  revert sets. induction o as [|[k v] o IH]; intros sets Hwf; simpl; [done|].
  apply IH. unfold addChild. destruct (nonempty (parent v)); [by apply obj_set_wf|done].
Qed.

(** Sorting the entries of an object keeps the lookups. *)
Lemma fromEntries_map_get {V W} (f : V -> W) (o : obj V) k :
  obj_wf o -> obj_get k (fromEntries (map (fun e => (e.1, f e.2)) o)) = f <$> obj_get k o.
Proof.
  intros Hwf. assert (map fst (map (fun e => (e.1, f e.2)) o) = obj_keys o) as Hk
    by (rewrite map_map; done).
  destruct (obj_get k o) as [v|] eqn:E; simpl.
  - apply fromEntries_get; [by rewrite Hk|]. apply list_elem_of_fmap. exists (k, v).
    split; [done|]. by apply obj_get_Some_elem.
  - apply fromEntries_get_None. rewrite Hk. by apply obj_get_None.
Qed.

(** ** The projection *)

Lemma projectedTasks_wf tree c : obj_wf (projectedTasks tree c).
Proof.
  unfold projectedTasks.
  apply (obj_wf_fold_set (taskItem tree _ _)), (obj_wf_fold_set (groupItem _)). constructor.
Qed.

Lemma projectedTasks_get tree c id :
  tree_wf tree ->
  obj_get id (projectedTasks tree c) =
  match obj_get id (resources tree) with
  | Some r =>
      Some (taskItem tree (projectedTaskChildren (groups tree) (resources tree))
              (appTaskReadinessById tree (num (configuredLimit c))) id r)
  | None =>
      groupItem (projectedTaskChildren (groups tree) (resources tree)) id <$> obj_get id (groups tree)
  end.
Proof.
  intros Hwf. unfold projectedTasks.
  rewrite (obj_get_fold_set (taskItem tree _ _)) by apply Hwf.
  rewrite (obj_get_fold_set (groupItem _)) by apply Hwf.
  by destruct (obj_get id (resources tree)), (obj_get id (groups tree)).
Qed.

Lemma projectedTasks_has tree c id :
  tree_wf tree ->
  obj_has id (projectedTasks tree c) = obj_has id (resources tree) || obj_has id (groups tree).
Proof.
  intros Hwf. unfold obj_has. rewrite projectedTasks_get by done.
  by destruct (obj_get id (resources tree)), (obj_get id (groups tree)).
Qed.

(** ** Integrity findings *)

Lemma parent_finding tree c (it : AppTaskProjectionItem) :
  tree_wf tree ->
  match nonempty (it_parent_id it) with
  | Some p =>
      if obj_has p (projectedTasks tree c) then [] else
      [mkFinding missing_parent (it_id it) [p] ("Parent " +:+ p +:+ " is missing")]
  | None => []
  end = [] <-> parent_known tree (it_parent_id it).
Proof.
  intros Hwf. unfold parent_known. destruct (nonempty (it_parent_id it)) as [p|]; [|naive_solver].
  rewrite projectedTasks_has by done.
  destruct (obj_has p (resources tree) || obj_has p (groups tree)) eqn:E; [naive_solver|].
  split; [done|]. intros H. by rewrite (H p) in E.
Qed.

Lemma list_finding {A B} (l : list A) (x : B) : match l with [] => [] | _ => [x] end = [] <-> l = [].
Proof. by destruct l. Qed.

Lemma task_findings tree c ch rd id r :
  tree_wf tree ->
  itemFindings tree (projectedTasks tree c) (set_of (satisfiedDependencyIds tree)) (taskItem tree ch rd id r) = []
  <-> parent_known tree (Some (spec_parentId (spec r))) /\ task_sound tree r.
Proof.
  intros Hwf. unfold itemFindings.
  rewrite !app_nil, parent_finding by done. simpl. apply and_iff_compat_l.
  rewrite !app_nil, !list_finding, !filter_nil_iff.
  assert (forall d, (obj_has d (projectedTasks tree c) || set_has d (set_of (satisfiedDependencyIds tree)) = false)
    <-> obj_has d (resources tree) || obj_has d (groups tree) = false) as Hd.
  { intros d. rewrite projectedTasks_has by done.
    destruct (set_has d _) eqn:Es; [|by rewrite orb_false_r].
    apply set_has_true, elem_of_set_of, elem_of_satisfied in Es as [Hs _].
    unfold dependencySatisfied in Hs. unfold obj_has at 1 3.
    by destruct (obj_get d (resources tree)). }
  split.
  - intros (Hg & Hdep & Hrun & Hwait & Hcond). constructor.
    + destruct (_ <? _) eqn:E; [done|]. by apply Z.ltb_ge in E.
    + intros d Hin. specialize (Hdep d Hin). rewrite Hd in Hdep. by apply not_false_is_true.
    + intros Hp Hn. by rewrite Hp, Hn in Hrun.
    + intros Hp Hn. by rewrite Hp, Hn in Hwait.
    + intros x Hin. specialize (Hcond x Hin). by apply not_false_is_true.
  - intros [Hg Hdep Hrun Hwait Hcond]. split_ands.
    + by rewrite (proj2 (Z.ltb_ge _ _) Hg).
    + intros d Hin. rewrite Hd. by rewrite Hdep.
    + destruct (st_phase (status r)); try done. by destruct (activeAttemptOf tree r); [|specialize (Hrun eq_refl)].
    + destruct (st_phase (status r)); try done. by destruct (conditionIds r); [specialize (Hwait eq_refl)|].
    + intros x Hin. by rewrite Hcond.
Qed.

Lemma group_findings tree c ch sat id g :
  tree_wf tree ->
  itemFindings tree (projectedTasks tree c) sat (groupItem ch id g) = []
  <-> parent_known tree (grp_parent_id g ≫= fun x => x).
Proof.
  intros Hwf. unfold itemFindings. cbn [it_type groupItem]. rewrite app_nil_r.
  by rewrite parent_finding.
Qed.

(** ** Properties *)

(** The readiness projected for a Task says [ready] exactly when the Task
    may be claimed: it is pending, or waits with a linked Condition observed
    true; the App is not paused; every dependency is a converged Task that
    observed its current generation; and the running Tasks are fewer than the
    limit (one when the configured limit is not a positive integer). *)
Theorem readiness_is_claimable tree configured id r :
  tree_wf tree -> obj_get id (resources tree) = Some r ->
  exists rd, obj_get id (appTaskReadinessById tree configured) = Some rd /\
    (rd_state rd = ready <-> claimable tree (configuredLimit configured) r).
Proof.
  intros Hwf Hr. eexists. split; [by apply readinessById_get|].
  apply readiness_ready, elem_of_obj_values; [apply Hwf|]. by exists id.
Qed.

(** The owner projected for a Task is its own trimmed owner, or else the
    owner of the nearest ancestor that has one, Tasks before groups; a Task
    whose ancestors have none, or form a cycle, has no owner.  The walk always
    terminates. *)
Theorem projected_owner_is_nearest gs rs r :
  (forall o, projectedTaskOwner r gs rs = Some o <->
     trimmed (spec_owner (spec r)) = Some o \/
     (trimmed (spec_owner (spec r)) = None /\
      exists p n, nonempty (Some (spec_parentId (spec r))) = Some p /\ inherits gs rs n p o)) /\
  ownerWalk (ownerFuel gs rs) gs rs (Some (spec_parentId (spec r))) [] <> None.
Proof.
  split; [intros o; apply projectedTaskOwner_spec|].
  apply ownerWalk_total; [constructor|set_solver|]. unfold ownerFuel. simpl. lia.
Qed.

(** The children projected under an id are exactly the groups and Tasks
    that name it as their parent, sorted and without duplicates. *)
Theorem projected_children gs rs p q :
  p <> "" ->
  let children := default [] (obj_get p (projectedTaskChildren gs rs)) in
  (q ∈ children <->
     (exists g, (q, g) ∈ gs /\ (grp_parent_id g ≫= fun x => x) = Some p) \/
     (exists r, (q, r) ∈ rs /\ spec_parentId (spec r) = p)) /\
  NoDup children /\ StronglySorted String.le children.
Proof.
  intros Hp children. subst children. unfold projectedTaskChildren.
  set (s1 := fold_left _ gs _). set (s2 := fold_left _ rs s1).
  assert (obj_wf s2) as Hwf.
  { unfold s2. apply (fold_children_wf (fun r => Some (spec_parentId (spec r)))).
    apply (fold_children_wf (fun g => grp_parent_id g ≫= fun x => x)). constructor. }
  rewrite (fromEntries_map_get js_sort) by done.
  replace (default [] (js_sort <$> obj_get p s2)) with (js_sort (default [] (obj_get p s2)))
    by (by destruct (obj_get p s2)).
  split_ands; [|apply NoDup_js_sort|apply js_sort_Sorted].
  - rewrite elem_of_js_sort. unfold s2, s1.
    rewrite (fold_children_elem (fun r => Some (spec_parentId (spec r))) p Hp).
    rewrite (fold_children_elem (fun g => grp_parent_id g ≫= fun x => x) p Hp). simpl.
    split; [intros [[?|?]|(r & ? & [= ?])]|intros [?|(r & ? & <-)]]; [set_solver|eauto..].
  - unfold s2. apply (fold_children_NoDup (fun r => Some (spec_parentId (spec r))) p Hp).
    apply (fold_children_NoDup (fun g => grp_parent_id g ≫= fun x => x) p Hp). constructor.
Qed.

(** C40.  A projection reports no integrity finding exactly when the tree is
    sound: every named parent and dependency is a known Task or group, no Task
    observed a generation beyond its desired one, running Tasks have their
    current attempt, waiting Tasks name a Condition, and every named Condition
    exists. *)
Theorem integrity_sound_and_complete tree configured :
  tree_wf tree ->
  pr_integrity (buildAppTaskTreeProjection tree configured) = [] <-> tree_sound tree.
Proof.
  intros Hwf. cbn [pr_integrity buildAppTaskTreeProjection]. rewrite flat_map_nil_iff.
  setoid_rewrite elem_of_obj_values; [|apply projectedTasks_wf]. split.
  - intros H. split.
    + intros id r Hr. eapply task_findings; [done|]. eapply H. exists id.
      rewrite projectedTasks_get, Hr by done. done.
    + intros id g Hr Hg.
      eapply (group_findings tree configured); [done|]. eapply H. exists id.
      by rewrite projectedTasks_get, Hr, Hg by done.
  - intros [Hrs Hgs] it (id & Hid). rewrite projectedTasks_get in Hid by done.
    destruct (obj_get id (resources tree)) as [r|] eqn:Hr; simplify_eq.
    + by apply task_findings, (Hrs id).
    + destruct (obj_get id (groups tree)) as [g|] eqn:Hg; simplify_eq/=.
      by apply group_findings, (Hgs id).
Qed.

(** ** Witnesses *)

Definition sample_spec (parent : string) (owner : option string) (deps : list string) : TaskSpec :=
  mkSpec parent "outcome" ["done"] None owner None None None None (Some deps) None None.

Definition sample_status (phase : Phase) (conds : list string) : TaskStatus :=
  mkStatus 1 phase None None None None None None None None None None false None None None None
    (Some conds) None "2024-02-29T12:34:56.789Z".

Definition sample_task (id parent : string) (owner : option string) (phase : Phase)
    (deps conds : list string) : AppTaskResource :=
  mkResource (mkMetadata id None 1 1 None) (sample_spec parent owner deps) (sample_status phase conds).

Definition sample_tree : TaskTree :=
  mkTree None (Some "demo") None (Some "active") (Some "root") []
    [("a", sample_task "a" "root" None converged [] []);
     ("b", sample_task "b" "a" (Some " lead ") pending ["a"] [])] [] [] [] [] []
    [("root", mkGroup "root" (Some None) (Some "boss"))].

Lemma sample_tree_wf : tree_wf sample_tree.
Proof.
  constructor.
  - apply NoDup_singleton.
  - apply (bool_decide_eq_true_1 (NoDup ["a"; "b"])). vm_compute. reflexivity.
  - intros id r H. apply obj_get_Some_elem in H. simpl in H.
    repeat (apply elem_of_cons in H as [H|H]; [injection H as -> ->; reflexivity|]). set_solver.
Defined.

(** The claim at a tree whose Task [b] depends on the converged Task [a]. *)
Lemma readiness_is_claimable_witness :
  exists rd, obj_get "b" (appTaskReadinessById sample_tree (num 2)) = Some rd /\
    (rd_state rd = ready <-> claimable sample_tree 2 (sample_task "b" "a" (Some " lead ") pending ["a"] [])).
Proof.
  apply (readiness_is_claimable sample_tree (num 2) "b"); [apply sample_tree_wf | reflexivity].
Defined.

(** The children of the sample's root group. *)
Lemma projected_children_witness :
  "a" ∈ default [] (obj_get "root" (projectedTaskChildren (groups sample_tree) (resources sample_tree))).
Proof.
  apply (projected_children (groups sample_tree) (resources sample_tree) "root" "a"); [done|].
  right. eexists. split; [left; reflexivity | reflexivity].
Defined.

(** The sample tree is sound, and its projection reports nothing. *)
Lemma integrity_sound_and_complete_witness : tree_sound sample_tree.
Proof.
  apply (integrity_sound_and_complete sample_tree (num 2)); [apply sample_tree_wf|].
  vm_compute. reflexivity.
Defined.

End TaskTree.
