(* ===== verification/Transaction.v ===== *)
(** State transactions ([src/lib/db/transaction.ts]).

    One connection carries the working image of the database and, while a
    transaction is open, the deliveries to run after the outer commit.  Nested
    transactions join the outer one through savepoints.  The statements
    [BEGIN]/[SAVEPOINT] and [COMMIT]/[RELEASE] may fail: their outcome is given by
    [execBegin] and [execCommit], with the nesting flag and the working image.
    Rollback restores the image at the matching begin, as SQLite documents. *)
From S2P Require Import Prelude.

Module StateTransaction.

Section Model.
Context {D Delivery : Type}.
Context (execBegin execCommit : bool -> D -> option string).
Context (deliver : Delivery -> D -> res unit * D).

(** A connection: [active] is the entry of the [WeakMap]. *)
Record conn : Type := mkConn { data : D; active : option (list Delivery) }.

Definition inStateTransaction (c : conn) : bool :=
  match active c with Some _ => true | None => false end.

Definition afterStateCommit (dl : Delivery) (c : conn) : res unit * conn :=
  match active c with
  | Some pending => (Ok tt, mkConn (data c) (Some (pending ++ [dl])))
  | None => let '(r, d) := deliver dl (data c) in (r, mkConn d None)
  end.

(** Every delivery runs, whatever the others do; the errors are collected. *)
Fixpoint deliverAll (pending : list Delivery) (d : D) : list string * D :=
  match pending with
  | [] => ([], d)
  | dl :: pending =>
      let '(r, d) := deliver dl d in
      let '(errors, d) := deliverAll pending d in
      (match r with Ok _ => errors | Throw e => e :: errors end, d)
  end.

Definition stateTransaction {T} (thenable : T -> bool) (operation : conn -> res T * conn) (c : conn) :
    res T * conn :=
  let nested := inStateTransaction c in
  let pending := default [] (active c) in
  let checkpoint := length pending in
  match execBegin nested (data c) with
  | Some e => (Throw e, c)
  | None =>
      let '(r, c2) := operation (mkConn (data c) (Some pending)) in
      let pending2 := default [] (active c2) in
      let r :=
        match r with
        | Ok v =>
            if thenable v then Throw "State transactions must be synchronous" else
            match execCommit nested (data c2) with Some e => Throw e | None => Ok v end
        | Throw e => Throw e
        end in
      match r with
      | Throw e => (Throw e, mkConn (data c) (if nested then Some (take checkpoint pending2) else None))
      | Ok v =>
          if nested then (Ok v, c2) else
          let '(errors, d) := deliverAll pending2 (data c2) in
          match errors with
          | [] => (Ok v, mkConn d None)
          | _ => (Throw "State committed, but event delivery failed", mkConn d None)
          end
      end
  end.

(** ** Store operations

    What the stores run inside a transaction: SQL statements, deliveries
    registered for after the commit, and nested transactions whose error the
    caller either lets through or catches. *)
Inductive op : Type :=
| Sql (f : D -> res D)
| After (dl : Delivery)
| Nested (caught : bool) (body : list op).

Definition never {T} (_ : T) : bool := false.

Fixpoint run_op (o : op) (c : conn) {struct o} : res unit * conn :=
  match o with
  | Sql f =>
      match f (data c) with
      | Ok d => (Ok tt, mkConn d (active c))
      | Throw e => (Throw e, c)
      end
  | After dl => afterStateCommit dl c
  | Nested caught body =>
      let '(r, c) := stateTransaction never
        ((fix run_ops (ops : list op) (c : conn) : res unit * conn :=
            match ops with
            | [] => (Ok tt, c)
            | o :: ops =>
                let '(r, c) := run_op o c in
                match r with Ok _ => run_ops ops c | Throw e => (Throw e, c) end
            end) body) c in
      (if caught then Ok tt else r, c)
  end.

Fixpoint run_ops (ops : list op) (c : conn) : res unit * conn :=
  match ops with
  | [] => (Ok tt, c)
  | o :: ops =>
      let '(r, c) := run_op o c in
      match r with Ok _ => run_ops ops c | Throw e => (Throw e, c) end
  end.

(** ** Specification

    What an operation means: a change of the image and an ordered list of
    deliveries, or an error that leaves nothing behind. *)
Definition effect : Type := D -> res (D * list Delivery).

(** A transaction around an effect: [begin], the effect, [commit]. *)
Definition tx (nested : bool) (e : effect) : effect := fun d =>
  match execBegin nested d with
  | Some m => Throw m
  | None =>
      match e d with
      | Ok (d', ls) =>
          match execCommit nested d' with Some m => Throw m | None => Ok (d', ls) end
      | Throw m => Throw m
      end
  end.

Definition seq (e1 e2 : effect) : effect := fun d =>
  match e1 d with
  | Ok (d', ls) => match e2 d' with Ok (d'', ls') => Ok (d'', ls ++ ls') | Throw m => Throw m end
  | Throw m => Throw m
  end.

Definition catch (e : effect) : effect := fun d =>
  match e d with Ok x => Ok x | Throw _ => Ok (d, []) end.

Fixpoint denote_op (o : op) : effect :=
  match o with
  | Sql f => fun d => match f d with Ok d' => Ok (d', []) | Throw m => Throw m end
  | After dl => fun d => Ok (d, [dl])
  | Nested caught body =>
      let e := tx true ((fix go ops := match ops with
                                       | [] => fun d => Ok (d, [])
                                       | o :: ops => seq (denote_op o) (go ops)
                                       end) body) in
      if caught then catch e else e
  end.

Fixpoint denote (ops : list op) : effect :=
  match ops with
  | [] => fun d => Ok (d, [])
  | o :: ops => seq (denote_op o) (denote ops)
  end.

(** ** Lemmas *)

Lemma run_op_nested caught body c :
  run_op (Nested caught body) c =
  let '(r, c) := stateTransaction never (run_ops body) c in (if caught then Ok tt else r, c).
Proof. done. Qed.

Lemma denote_op_nested caught body :
  denote_op (Nested caught body) =
  if caught then catch (tx true (denote body)) else tx true (denote body).
Proof. done. Qed.

(** Inside a transaction, running an operation agrees with its meaning: the
    pending deliveries grow by those of the effect; on an error they have grown
    by something that the enclosing rollback cuts off. *)
Definition agrees (r : res unit * conn) (p : list Delivery) (e : res (D * list Delivery)) : Prop :=
  match e with
  | Ok (d', ls) => r = (Ok tt, mkConn d' (Some (p ++ ls)))
  | Throw m => exists d' ls, r = (Throw m, mkConn d' (Some (p ++ ls)))
  end.

Lemma nested_agrees body d p :
  agrees (run_ops body (mkConn d (Some p))) p (denote body d) ->
  stateTransaction never (run_ops body) (mkConn d (Some p)) =
  match tx true (denote body) d with
  | Ok (d', ls) => (Ok tt, mkConn d' (Some (p ++ ls)))
  | Throw m => (Throw m, mkConn d (Some p))
  end.
Proof.
  intros H. unfold stateTransaction, tx, inStateTransaction. simpl. destruct (execBegin true d); [done|].
  destruct (denote body d) as [[d' ls]|m]; simpl in H.
  - rewrite H. simpl. destruct (execCommit true d'); [|done]. by rewrite take_app_length.
  - destruct H as (d' & ls & ->). simpl. by rewrite take_app_length.
Qed.

Lemma seq_agrees o body d p :
  agrees (run_op o (mkConn d (Some p))) p (denote_op o d) ->
  (forall d p, agrees (run_ops body (mkConn d (Some p))) p (denote body d)) ->
  agrees (run_ops (o :: body) (mkConn d (Some p))) p (denote (o :: body) d).
Proof.
  intros Ho Hb. cbn [run_ops denote]. unfold seq.
  destruct (denote_op o d) as [[d1 l1]|m]; simpl in Ho.
  - rewrite Ho. cbv zeta beta iota. specialize (Hb d1 (p ++ l1)).
    destruct (denote body d1) as [[d2 l2]|m]; simpl in *.
    + by rewrite Hb, <- app_assoc.
    + destruct Hb as (d2 & l2 & ->). exists d2, (l1 ++ l2). by rewrite <- app_assoc.
  - destruct Ho as (d1 & l1 & ->). simpl. eauto.
Qed.

Lemma run_op_agrees o d p : agrees (run_op o (mkConn d (Some p))) p (denote_op o d).
Proof.
  revert o d p. fix IH 1. intros [f|dl|caught body] d p.
  - simpl. destruct (f d); simpl; [by rewrite app_nil_r|]. exists d, []. by rewrite app_nil_r.
  - done.
  - rewrite run_op_nested, denote_op_nested, nested_agrees.
    + destruct caught; unfold catch; destruct (tx true (denote body) d) as [[d' ls]|m]; simpl; try done.
      * by rewrite app_nil_r.
      * exists d, []. by rewrite app_nil_r.
    + revert d p. induction body as [|o body IHb]; intros d p.
      * simpl. by rewrite app_nil_r.
      * by apply seq_agrees.
Qed.

Lemma run_ops_agrees body d p : agrees (run_ops body (mkConn d (Some p))) p (denote body d).
Proof.
  revert d p. induction body as [|o body IH]; intros d p.
  - simpl. by rewrite app_nil_r.
  - apply seq_agrees; [apply run_op_agrees|done].
Qed.

(** ** Properties *)

(** C38.  An outermost state transaction is atomic: it either throws the first
    error with the database exactly as before and no delivery run, or commits
    the combined change of its operations (nested transactions that failed and
    were caught contribute nothing) and then runs exactly the deliveries of the
    surviving operations, in order, outside the rollback boundary. *)
Theorem transaction_atomic body d :
  stateTransaction never (run_ops body) (mkConn d None) =
  match tx false (denote body) d with
  | Throw m => (Throw m, mkConn d None)
  | Ok (d', ls) =>
      let '(errors, d'') := deliverAll ls d' in
      (match errors with [] => Ok tt | _ => Throw "State committed, but event delivery failed" end,
       mkConn d'' None)
  end.
Proof.
  unfold stateTransaction, tx, inStateTransaction. simpl. destruct (execBegin false d); [done|].
  pose proof (run_ops_agrees body d []) as H.
  destruct (denote body d) as [[d' ls]|m]; simpl in H.
  - rewrite H. simpl. destruct (execCommit false d'); [done|].
    destruct (deliverAll ls d') as [[|e es] d'']; done.
  - destruct H as (d' & ls & ->). done.
Qed.

(** A nested state transaction that fails rolls back to its savepoint: the
    image and the pending deliveries of the enclosing transaction are as before
    it; one that succeeds only appends its own deliveries, none of them run. *)
Theorem nested_transaction_joins body d p :
  stateTransaction never (run_ops body) (mkConn d (Some p)) =
  match tx true (denote body) d with
  | Ok (d', ls) => (Ok tt, mkConn d' (Some (p ++ ls)))
  | Throw m => (Throw m, mkConn d (Some p))
  end.
Proof. apply nested_agrees, run_ops_agrees. Qed.

End Model.

(** ** The atomic wrapper the stores rely on *)

(** A body run as one outermost transaction whose statements succeed. *)
Definition atomically {D T} (body : D -> res T * D) (d : D) : res T * D :=
  match body d with
  | (Ok v, d') => (Ok v, d')
  | (Throw e, _) => (Throw e, d)
  end.

(** [stateTransaction] around a synchronous body that registers no delivery is
    the atomic wrapper, when [BEGIN] and [COMMIT] succeed. *)
Lemma stateTransaction_atomically {D Delivery T} (deliver : Delivery -> D -> res unit * D)
    (body : D -> res T * D) (d : D) :
  stateTransaction (fun _ _ => None) (fun _ _ => None) deliver never
    (fun c => let '(r, d') := body (data c) in (r, mkConn d' (active c))) (mkConn d None) =
  let '(r, d') := atomically body d in (r, mkConn d' None).
Proof. unfold stateTransaction, atomically. simpl. by destruct (body d) as [[v|e] d']. Qed.

End StateTransaction.
