(* ===== verification/ResourceStore.v ===== *)
(** The Task resource store ([src/app/core/state/app-task-resource-store.ts],
    with [task-reference-index.ts], [task-view-phase.ts] and the tables of
    [src/lib/db/task-resource-schema.ts]).

    A [store] holds the rows of one App.  Tables with a primary key are finite
    maps, link tables finite sets; a JSON column holds the record it encodes.
    Foreign keys cascade as the schema declares.  The order in which SQLite
    returns rows of a query without [ORDER BY] is the enumeration order of the
    finite map.  Mutations run inside [stateTransaction]; [atomically] is that
    wrapper ([Transaction]). *)
From S2P Require Import Prelude Json TaskState TaskTree Transaction.

Module ResourceStore.
Import StateTransaction.

(** ** Rows *)

Record TaskRow : Type := mkRow {
  row_generation : Z;
  row_resource_version : Z;
  row_observed_generation : Z;
  row_phase : Phase;
  row_lane : Lane;
  row_changed : bool;
  row_ready : bool;
  row_next_check_at : option Z;
  row_lease_until : option Z;
  row_current_attempt_id : option string;
  row_updated_at : Z;
  row_resource : AppTaskResource;
  row_trigger : option AppTaskTrigger }.

Inductive RelationKind : Type := rel_parent | rel_dependency.

#[export] Instance RelationKind_eq_dec : EqDecision RelationKind.
Proof. solve_decision. Defined.
#[export] Instance RelationKind_countable : Countable RelationKind.
Proof.
  refine (inj_countable' (fun k => match k with rel_parent => true | rel_dependency => false end)
    (fun b : bool => if b then rel_parent else rel_dependency) _).
  by intros [].
Defined.

Record AttemptRow : Type := mkAttemptRow {
  ar_task_id : string;
  ar_task_generation : Z;
  ar_attempt_state : AttemptState;
  ar_lease_until : option Z;
  ar_started_at : Z;
  ar_attempt : AppTaskAttempt }.

Record ReceiptRow : Type := mkReceiptRow {
  rw_parent_id : string; rw_completed_at : Z; rw_receipt : TaskCompletionReceipt }.

Record CancellationRow : Type := mkCancellationRow {
  cw_requested_at : Z; cw_reason : string; cw_cancellation : AppTaskCancellation }.

Inductive ControlAction : Type := act_retry | act_cancel | act_reopen.

#[export] Instance ControlAction_eq_dec : EqDecision ControlAction.
Proof. solve_decision. Defined.

(** The [result] of a control receipt: the fields the store reads. *)
Record ControlResult : Type := mkControlResult {
  cres_closure : option AppTaskCancellation;
  cres_previousAttemptId : option string;
  cres_other : option json }.

Record AppTaskControlReceipt : Type := mkControl {
  ctl_controlKey : string;
  ctl_appId : string;
  ctl_taskId : string;
  ctl_action : ControlAction;
  ctl_expectedGeneration : Z;
  ctl_expectedResourceVersion : Z;
  ctl_appliedResourceVersion : Z;
  ctl_appliedAt : Z;
  ctl_result : option ControlResult }.

(** The rows of one App. [humanInput] are the Tasks with unfinished human
    conversation input in [app_inbox_items]; [foreignControlKeys] are control
    keys other Apps hold in the shared table. *)
Record store : Type := mkStore {
  appId : string;
  m_authority : option string;
  m_source_revision : option string;
  m_activated_at : option string;
  m_app_metadata : option (obj json);
  m_revision : Z;
  tasks : gmap string TaskRow;
  events : gmap (string * string) Z;
  relations : gset (string * RelationKind * string);
  attempts : gmap string AttemptRow;
  conditions : gmap string AppTaskCondition;
  routes : gset (string * string);
  receipts : gmap string ReceiptRow;
  cancellations : gmap string CancellationRow;
  controls : gmap string AppTaskControlReceipt;
  foreignControlKeys : gset string;
  groups : gmap string TaskGroup;
  admissions : gmap string AppTaskAdmission;
  refs : gset string;
  humanInput : gset string }.

(** ** Field updates *)

Definition set_meta (auth src act : option string) (md : option (obj json)) (s : store) : store :=
  mkStore (appId s) auth src act md (m_revision s) (tasks s) (events s) (relations s) (attempts s)
    (conditions s) (routes s) (receipts s) (cancellations s) (controls s) (foreignControlKeys s)
    (groups s) (admissions s) (refs s) (humanInput s).

Definition set_metadata (md : obj json) (s : store) : store :=
  set_meta (m_authority s) (m_source_revision s) (m_activated_at s) (Some md) s.

Definition set_revision (n : Z) (s : store) : store :=
  mkStore (appId s) (m_authority s) (m_source_revision s) (m_activated_at s) (m_app_metadata s) n
    (tasks s) (events s) (relations s) (attempts s) (conditions s) (routes s) (receipts s)
    (cancellations s) (controls s) (foreignControlKeys s) (groups s) (admissions s) (refs s) (humanInput s).

(** The Task table and the link tables that cascade with it. *)
Definition set_graph (ts : gmap string TaskRow) (ev : gmap (string * string) Z)
    (rl : gset (string * RelationKind * string)) (rt : gset (string * string)) (rf : gset string)
    (s : store) : store :=
  mkStore (appId s) (m_authority s) (m_source_revision s) (m_activated_at s) (m_app_metadata s)
    (m_revision s) ts ev rl (attempts s) (conditions s) rt (receipts s) (cancellations s) (controls s)
    (foreignControlKeys s) (groups s) (admissions s) rf (humanInput s).

Definition set_conditions (cs : gmap string AppTaskCondition) (rt : gset (string * string)) (s : store) : store :=
  mkStore (appId s) (m_authority s) (m_source_revision s) (m_activated_at s) (m_app_metadata s)
    (m_revision s) (tasks s) (events s) (relations s) (attempts s) cs rt (receipts s) (cancellations s)
    (controls s) (foreignControlKeys s) (groups s) (admissions s) (refs s) (humanInput s).

(** The history tables. *)
Definition set_history (at_ : gmap string AttemptRow) (rc : gmap string ReceiptRow)
    (cn : gmap string CancellationRow) (ct : gmap string AppTaskControlReceipt)
    (gr : gmap string TaskGroup) (ad : gmap string AppTaskAdmission) (rf : gset string) (s : store) : store :=
  mkStore (appId s) (m_authority s) (m_source_revision s) (m_activated_at s) (m_app_metadata s)
    (m_revision s) (tasks s) (events s) (relations s) at_ (conditions s) (routes s) rc cn ct
    (foreignControlKeys s) gr ad rf (humanInput s).

Definition set_tasks (ts : gmap string TaskRow) (s : store) : store :=
  set_graph ts (events s) (relations s) (routes s) (refs s) s.
Definition set_events (ev : gmap (string * string) Z) (s : store) : store :=
  set_graph (tasks s) ev (relations s) (routes s) (refs s) s.
Definition set_relations (rl : gset (string * RelationKind * string)) (s : store) : store :=
  set_graph (tasks s) (events s) rl (routes s) (refs s) s.
Definition set_routes (rt : gset (string * string)) (s : store) : store :=
  set_graph (tasks s) (events s) (relations s) rt (refs s) s.
Definition set_refs (rf : gset string) (s : store) : store :=
  set_graph (tasks s) (events s) (relations s) (routes s) rf s.
Definition set_attempts (x : gmap string AttemptRow) (s : store) : store :=
  set_history x (receipts s) (cancellations s) (controls s) (groups s) (admissions s) (refs s) s.
Definition set_receipts (x : gmap string ReceiptRow) (s : store) : store :=
  set_history (attempts s) x (cancellations s) (controls s) (groups s) (admissions s) (refs s) s.
Definition set_cancellations (x : gmap string CancellationRow) (s : store) : store :=
  set_history (attempts s) (receipts s) x (controls s) (groups s) (admissions s) (refs s) s.
Definition set_controls (x : gmap string AppTaskControlReceipt) (s : store) : store :=
  set_history (attempts s) (receipts s) (cancellations s) x (groups s) (admissions s) (refs s) s.
Definition set_groups (x : gmap string TaskGroup) (s : store) : store :=
  set_history (attempts s) (receipts s) (cancellations s) (controls s) x (admissions s) (refs s) s.
Definition set_admissions (x : gmap string AppTaskAdmission) (s : store) : store :=
  set_history (attempts s) (receipts s) (cancellations s) (controls s) (groups s) x (refs s) s.

(** ** A small error-and-state monad for statements *)

Definition M (A : Type) : Type := store -> res A * store.

Definition ret {A} (a : A) : M A := fun s => (Ok a, s).
Definition fail {A} (e : string) : M A := fun s => (Throw e, s).
Definition bind {A B} (x : M A) (f : A -> M B) : M B := fun s =>
  match x s with (Ok a, s') => f a s' | (Throw e, s') => (Throw e, s') end.
Definition modify (f : store -> store) : M unit := fun s => (Ok tt, f s).

Fixpoint each {A} (f : A -> M unit) (l : list A) : M unit :=
  match l with
  | [] => ret tt
  | a :: l => bind (f a) (fun _ => each f l)
  end.

(** ** Helpers *)

Definition epoch (value : option string) : option Z :=
  match nonempty value with
  | Some v => match Date_parse v with Fin _ as n => Some (number_to_Z n) | _ => None end
  | None => None
  end.

(** A durable event has a positive safe integer id. *)
Definition eventIdOf (event : obj json) : option Z :=
  let n := Number_of (obj_get "eventId" event) in
  if isSafeInteger n && number_ltb (num 0) n then Some (number_to_Z n) else None.

Definition eventKey (event : obj json) : option string :=
  (fun n => "event:" +:+ show_Z n) <$> eventIdOf event.

Definition taskChanged (resource : AppTaskResource) (trigger : option AppTaskTrigger) : bool :=
  match trigger with Some _ => true | None => false end ||
  (negb (bool_decide (st_phase (status resource) = running)) &&
   (st_observedGeneration (status resource) <? md_generation (metadata resource))).

Definition isCancelled (s : store) (taskId : string) : bool :=
  match cancellations s !! taskId with Some _ => true | None => false end.

Definition live (s : store) (taskId : string) : bool := negb (isCancelled s taskId).

Definition readTask (s : store) (taskId : string) : option AppTaskResource :=
  row_resource <$> tasks s !! taskId.
Definition readTrigger (s : store) (taskId : string) : option AppTaskTrigger :=
  tasks s !! taskId ≫= row_trigger.
Definition readAttempt (s : store) (attemptId : string) : option AppTaskAttempt :=
  ar_attempt <$> attempts s !! attemptId.
Definition readReceipt (s : store) (taskId : string) : option TaskCompletionReceipt :=
  rw_receipt <$> receipts s !! taskId.
Definition readCancellation (s : store) (taskId : string) : option AppTaskCancellation :=
  cw_cancellation <$> cancellations s !! taskId.
Definition readControlReceipt (s : store) (key : string) : option AppTaskControlReceipt :=
  controls s !! key.

Definition hasTaskEvent (s : store) (taskId : string) (event : obj json) : bool :=
  match eventKey event with
  | Some key => match events s !! (taskId, key) with Some _ => true | None => false end
  | None => false
  end.

(** [indexTaskReference]: the digest of a trimmed id, once. *)
Definition indexTaskReference (taskId : string) : M unit := fun s =>
  if nonblank taskId then (Ok tt, set_refs ({[trim taskId]} ∪ refs s) s)
  else (Throw "Task reference requires App and Task ids", s).

(** ** Single-row writes *)

Definition declaredRelations (resource : AppTaskResource) : gset (string * RelationKind * string) :=
  let taskId := md_id (metadata resource) in
  let parentId := trim (spec_parentId (spec resource)) in
  let deps := filter (fun d => d <> "") (map trim (default [] (spec_dependsOn (spec resource)))) in
  (if String.eqb parentId "" then ∅ else {[(taskId, rel_parent, parentId)]}) ∪
  list_to_set (map (fun d => (taskId, rel_dependency, d)) deps).

Definition putTaskRelations (resource : AppTaskResource) (s : store) : store :=
  let taskId := md_id (metadata resource) in
  set_relations (filter (fun r => r.1.1 <> taskId) (relations s) ∪ declaredRelations resource) s.

Definition leaseOf (s : store) (attemptId : option string) : option Z :=
  nonempty attemptId ≫= fun id => attempts s !! id ≫= ar_lease_until.

(** The row [putTask] writes. *)
Definition taskRow (now : Z) (resource : AppTaskResource) (trigger : option AppTaskTrigger)
    (ready : bool) (nextCheckAt : option Z) (lease : option Z) : TaskRow :=
  let st := status resource in
  let retryAt := pendingTaskExecutionRetryAt resource now in
  let retrying := match retryAt with Some r => negb (number_eqb r (num 0)) | None => false end in
  let exhausted := taskExecutionRetryExhausted resource in
  mkRow (md_generation (metadata resource)) (md_resourceVersion (metadata resource))
    (st_observedGeneration st) (st_phase st) (default normal (st_lane st))
    (negb retrying && negb exhausted && taskChanged resource trigger)
    (negb retrying && negb exhausted && ready)
    (match retryAt with Some r => Some (number_to_Z r) | None => nextCheckAt end)
    lease (st_currentAttemptId st)
    (default now (epoch (Some (st_updatedAt st)))) resource trigger.

Definition putTask (now : Z) (resource : AppTaskResource) (trigger : option AppTaskTrigger)
    (ready : bool) (nextCheckAt : option Z) : M unit := fun s =>
  let id := md_id (metadata resource) in
  let lease := leaseOf s (st_currentAttemptId (status resource)) in
  let s := set_tasks (<[id := taskRow now resource trigger ready nextCheckAt lease]> (tasks s)) s in
  bind (indexTaskReference id) (fun _ => modify (putTaskRelations resource)) s.

Definition putTaskConditionRoutes (resource : AppTaskResource) (s : store) : store :=
  let taskId := md_id (metadata resource) in
  let linked := filter (fun c => is_Some (conditions s !! c)) (default [] (st_conditionIds (status resource))) in
  set_routes (filter (fun r => r.1 <> taskId) (routes s) ∪
              list_to_set (map (fun c => (taskId, c)) linked)) s.

Definition putCancellation (c : AppTaskCancellation) : M unit := fun s =>
  if negb (String.eqb (can_appId c) (appId s)) then (Throw "Task cancellation belongs to another App", s)
  else match cancellations s !! can_taskId c with
       | Some _ => (Throw "UNIQUE constraint failed: app_task_cancellations.app_id, app_task_cancellations.task_id", s)
       | None =>
           (Ok tt, set_cancellations (<[can_taskId c :=
              mkCancellationRow (default 0 (epoch (Some (can_cancelledAt c)))) (can_reason c) c]> (cancellations s)) s)
       end.

(** [INSERT OR IGNORE INTO app_task_events] for every event of a trigger. *)
Definition putEvents (taskId : string) (trigger : option AppTaskTrigger) (s : store) : store :=
  fold_left (fun s entry =>
      match eventKey (te_event entry) with
      | None => s
      | Some key =>
          match events s !! (taskId, key) with
          | Some _ => s
          | None => set_events (<[(taskId, key) := default 0 (epoch (Some (te_observedAt entry)))]> (events s)) s
          end
      end)
    (match trigger with Some t => triggerEvents t | None => [] end) s.

(** Deleting a Task row cascades to its events, relations and routes. *)
Definition deleteTask (taskId : string) (s : store) : store :=
  set_graph (delete taskId (tasks s))
    (filter (fun e => e.1.1 <> taskId) (events s))
    (filter (fun r => r.1.1 <> taskId) (relations s))
    (filter (fun r => r.1 <> taskId) (routes s)) (refs s) s.

Definition attemptRow (a : AppTaskAttempt) : AttemptRow :=
  mkAttemptRow (att_taskId a) (att_taskGeneration a) (att_state a)
    (epoch (lease_expiresAt <$> att_lease a)) (default 0 (epoch (Some (att_startedAt a)))) a.

Definition set_lease (lease : option Z) (row : TaskRow) : TaskRow :=
  mkRow (row_generation row) (row_resource_version row) (row_observed_generation row) (row_phase row)
    (row_lane row) (row_changed row) (row_ready row) (row_next_check_at row) lease
    (row_current_attempt_id row) (row_updated_at row) (row_resource row) (row_trigger row).

(** The lease of a running attempt is mirrored on the Task it is current for. *)
Definition putAttempt (a : AppTaskAttempt) (s : store) : store :=
  let s := set_attempts (<[att_id a := attemptRow a]> (attempts s)) s in
  if bool_decide (att_state a = at_running) then
    set_tasks (alter (fun row =>
        if bool_decide (row_current_attempt_id row = Some (att_id a))
        then set_lease (epoch (lease_expiresAt <$> att_lease a)) row else row)
      (att_taskId a) (tasks s)) s
  else s.

Definition deleteCondition (c : string) (s : store) : store :=
  set_conditions (delete c (conditions s)) (filter (fun r => r.2 <> c) (routes s)) s.

Definition putCondition (c : AppTaskCondition) (s : store) : store :=
  set_conditions (<[cond_id c := c]> (conditions s)) (routes s) s.

(** A Condition no Task links to any more is dropped. *)
Definition pruneCondition (c : string) (s : store) : store :=
  if existsb (fun r => String.eqb r.2 c) (elements (routes s)) then s
  else set_conditions (delete c (conditions s)) (routes s) s.

Definition putReceipt (r : TaskCompletionReceipt) : M unit :=
  bind (modify (fun s => set_receipts (<[rcp_id r :=
      mkReceiptRow (rcp_parentId r) (default 0 (epoch (Some (rcp_completedAt r)))) r]> (receipts s)) s))
    (fun _ => indexTaskReference (rcp_id r)).

Definition putControl (r : AppTaskControlReceipt) : M unit := fun s =>
  if negb (String.eqb (ctl_appId r) (appId s)) then (Throw "Task control receipt belongs to another App", s)
  else if bool_decide (is_Some (controls s !! ctl_controlKey r)) || bool_decide (ctl_controlKey r ∈ foreignControlKeys s)
  then (Throw "UNIQUE constraint failed: app_task_control_receipts.control_key", s)
  else (Ok tt, set_controls (<[ctl_controlKey r := r]> (controls s)) s).

Definition bumpRevision (s : store) : store := set_revision (m_revision s + 1) s.

(** ** App metadata *)

Definition isActive (s : store) : bool := bool_decide (m_authority s = Some "resources").

Definition revision (s : store) : Z :=
  if (0 <=? m_revision s) && (m_revision s <=? MAX_SAFE_INTEGER) then m_revision s else 0.

Inductive Lifecycle : Type := active_app | paused_app.

Definition lifecycleText (l : Lifecycle) : string :=
  match l with active_app => "active" | paused_app => "paused" end.

Definition setProjectLifecycle (l : Lifecycle) : store -> res unit * store :=
  atomically (fun s =>
    if negb (isActive s) then (Throw "Task resource lifecycle requires active resource authority", s) else
    match m_app_metadata s with
    | None => (Throw "Task resource store has no App metadata", s)
    | Some md =>
        (Ok tt, bumpRevision (set_metadata (obj_set "project_lifecycle" (JStr (lifecycleText l)) md) s))
    end).

Definition setConfiguredMaxConcurrent (maxConcurrent : number) (s : store) : res unit * store :=
  if negb (isSafeInteger maxConcurrent) || number_ltb maxConcurrent (num 1) then
    (Throw "Task resource maxConcurrent must be a positive safe integer", s)
  else atomically (fun s =>
    if negb (isActive s) then (Throw "Task resource configuration requires active resource authority", s) else
    match m_app_metadata s with
    | None => (Throw "Task resource store has no App metadata", s)
    | Some md =>
        match obj_get "max_concurrent" md with
        | Some (JNum n) =>
            if number_eqb n maxConcurrent then (Ok tt, s)
            else (Ok tt, bumpRevision (set_metadata (obj_set "max_concurrent" (JNum maxConcurrent) md) s))
        | _ => (Ok tt, bumpRevision (set_metadata (obj_set "max_concurrent" (JNum maxConcurrent) md) s))
        end
    end) s.

Definition projectLifecycle (s : store) : option Lifecycle :=
  match m_app_metadata s with
  | None => None
  | Some md =>
      if str_is (obj_get "project_lifecycle" md) "active" then Some active_app
      else if str_is (obj_get "project_lifecycle" md) "paused" then Some paused_app else None
  end.

Definition rootTaskId (s : store) : option string :=
  match m_app_metadata s ≫= obj_get "root_task_id" with
  | Some (JStr v) => if nonblank v then Some v else None
  | _ => None
  end.

Definition hasPendingHumanConversationInput (s : store) (taskId : string) : bool :=
  bool_decide (taskId ∈ humanInput s).

Definition allowsTaskExecution (s : store) (taskId : string) : bool :=
  match projectLifecycle s with Some active_app => true | _ => false end ||
  hasPendingHumanConversationInput s taskId.

(** ** Mutations *)

Record TaskMutationFence : Type := mkFence {
  fence_taskId : string;
  fence_resourceVersion : Z;
  fence_generation : option Z;
  (** [Some None] is an explicit [null]. *)
  fence_currentAttemptId : option (option string) }.

Record TaskResourceWrite : Type := mkWrite {
  w_resource : AppTaskResource;
  w_trigger : option AppTaskTrigger;
  w_ready : bool;
  w_nextCheckAt : option Z }.

Record AppTaskResourceMutation : Type := mkMutation {
  mu_fences : list TaskMutationFence;
  mu_requireUnpausedTask : option string;
  mu_expectMissingTaskIds : list string;
  mu_tasks : list TaskResourceWrite;
  mu_deleteTaskIds : list string;
  mu_attempts : list AppTaskAttempt;
  mu_deleteAttemptIds : list string;
  mu_conditions : list AppTaskCondition;
  mu_deleteConditionIds : list string;
  mu_pruneConditionIds : list string;
  mu_receipts : list TaskCompletionReceipt;
  mu_deleteReceiptIds : list string;
  mu_admissions : list (string * AppTaskAdmission);
  mu_deleteAdmissionIds : list string;
  mu_cancellations : list AppTaskCancellation;
  mu_reopenTaskIds : list string;
  mu_controlReceipts : list AppTaskControlReceipt }.

Definition w_id (w : TaskResourceWrite) : string := md_id (metadata (w_resource w)).

(** ** Checks *)

Definition fenceHolds (s : store) (f : TaskMutationFence) : bool :=
  match tasks s !! fence_taskId f with
  | None => false
  | Some row =>
      Z.eqb (row_resource_version row) (fence_resourceVersion f) &&
      match fence_generation f with None => true | Some g => Z.eqb (row_generation row) g end &&
      match fence_currentAttemptId f with
      | None => true
      | Some a => bool_decide (row_current_attempt_id row = a)
      end
  end.

(** A Task an App stops must have no live child. *)
Definition hasLiveChild (s : store) (taskId : string) : bool :=
  existsb (fun r => bool_decide (r.1.2 = rel_parent) && String.eqb r.2 taskId &&
      bool_decide (is_Some (tasks s !! r.1.1)) && live s r.1.1) (elements (relations s)).

Definition leafRuleBroken (s : store) (c : AppTaskCancellation) : bool :=
  match can_decidedBy c with Some (by_app _ _) => hasLiveChild s (can_taskId c) | _ => false end.

Definition restoredClosure (s : store) (m : AppTaskResourceMutation) (r : AppTaskResource) : bool :=
  match readTask s (md_id (metadata r)) with
  | Some _ => false
  | None =>
      existsb (fun c =>
        String.eqb (can_taskId c) (md_id (metadata r)) &&
        bool_decide (can_kind c = Some ck_closed) &&
        Z.eqb (can_generation c) (md_generation (metadata r)) &&
        match readReceipt s (md_id (metadata r)) with
        | Some rc => Z.eqb (rcp_generation rc) (can_generation c)
        | None => false
        end) (mu_cancellations m)
  end.

(** Creators are immutable, and a closed parent takes no new child. *)
Fixpoint checkWrites (s : store) (m : AppTaskResourceMutation) (ws : list TaskResourceWrite) : res bool :=
  match ws with
  | [] => Ok true
  | w :: ws =>
      let r := w_resource w in
      let previous := readTask s (md_id (metadata r)) in
      if match previous with
         | Some p => negb (bool_decide (md_creator (metadata p) = md_creator (metadata r)))
         | None => false
         end
      then Throw "Task creator is immutable"
      else if negb (bool_decide ((fun p => spec_parentId (spec p)) <$> previous = Some (spec_parentId (spec r)))) &&
              isCancelled s (spec_parentId (spec r)) && negb (restoredClosure s m r)
      then Ok false
      else checkWrites s m ws
  end.

Definition reopenTask (m : AppTaskResourceMutation) (taskId : string) : M unit := fun s =>
  let closure := readCancellation s taskId in
  let receipt := list_find (fun e => ctl_taskId e = taskId /\ ctl_action e = act_reopen) (mu_controlReceipts m) in
  let next := list_find (fun w => w_id w = taskId) (mu_tasks m) in
  match closure, receipt, next with
  | Some closure, Some (_, receipt), Some (_, next) =>
      if match ctl_result receipt ≫= cres_closure with
         | Some c => cancellation_eqb c closure
         | None => false
         end &&
         Z.eqb (ctl_expectedGeneration receipt) (can_generation closure) &&
         Z.eqb (ctl_expectedResourceVersion receipt) (can_resourceVersion closure) &&
         Z.eqb (md_generation (metadata (w_resource next))) (can_generation closure + 1) &&
         existsb (fun f => String.eqb (fence_taskId f) taskId &&
                           Z.eqb (fence_resourceVersion f) (can_resourceVersion closure)) (mu_fences m)
      then (Ok tt, set_cancellations (delete taskId (cancellations s)) s)
      else (Throw "Task reopening requires its exact closure, next generation and durable control receipt", s)
  | _, _, _ =>
      (Throw "Task reopening requires its exact closure, next generation and durable control receipt", s)
  end.

(** ** Commit *)

Definition writeTask (now : Z) (w : TaskResourceWrite) : M unit :=
  bind (putTask now (w_resource w) (w_trigger w) (w_ready w) (w_nextCheckAt w))
    (fun _ => modify (putEvents (w_id w) (w_trigger w))).

(** Attempts and Conditions, deletions first. *)
Definition writeAttemptsAndConditions (m : AppTaskResourceMutation) : M unit :=
  bind (each (fun a => modify (fun s => set_attempts (delete a (attempts s)) s))
          (set_of (mu_deleteAttemptIds m))) (fun _ =>
  bind (each (fun a => modify (putAttempt a)) (mu_attempts m)) (fun _ =>
  bind (each (fun c => modify (deleteCondition c)) (set_of (mu_deleteConditionIds m))) (fun _ =>
  each (fun c => modify (putCondition c)) (mu_conditions m)))).

(** Task rows, then attempts and Conditions, then the routes of the written Tasks. *)
Definition writeTasks (now : Z) (m : AppTaskResourceMutation) : M unit :=
  bind (each (writeTask now) (mu_tasks m)) (fun _ =>
  bind (writeAttemptsAndConditions m) (fun _ =>
  each (fun w => modify (putTaskConditionRoutes (w_resource w))) (mu_tasks m))).

(** Receipts, admissions, closures and control receipts. *)
Definition writeHistory (m : AppTaskResourceMutation) : M unit :=
  bind (each (fun r => modify (fun s => set_receipts (delete r (receipts s)) s))
          (set_of (mu_deleteReceiptIds m))) (fun _ =>
  bind (each putReceipt (mu_receipts m)) (fun _ =>
  bind (each (fun a => modify (fun s => set_admissions (delete a (admissions s)) s))
          (set_of (mu_deleteAdmissionIds m))) (fun _ =>
  bind (each (fun a => modify (fun s => set_admissions (<[a.1 := a.2]> (admissions s)) s))
          (mu_admissions m)) (fun _ =>
  bind (each putCancellation (mu_cancellations m)) (fun _ =>
  each putControl (mu_controlReceipts m)))))).

(** The writes of an admitted mutation, in the order of the code. *)
Definition applyMutation (now : Z) (m : AppTaskResourceMutation) : M bool :=
  bind (each (reopenTask m) (set_of (mu_reopenTaskIds m))) (fun _ =>
  bind (each (fun t => modify (deleteTask t)) (set_of (mu_deleteTaskIds m))) (fun _ =>
  bind (writeTasks now m) (fun _ =>
  bind (each (fun c => modify (pruneCondition c)) (set_of (mu_pruneConditionIds m))) (fun _ =>
  bind (writeHistory m) (fun _ =>
  bind (modify bumpRevision) (fun _ => ret true)))))).

(** What has to hold for the writes to be applied. *)
Definition admissible (s : store) (m : AppTaskResourceMutation) : res bool :=
  if match nonempty (mu_requireUnpausedTask m) with
     | Some t => negb (allowsTaskExecution s t)
     | None => false
     end then Ok false
  else if negb (forallb (fenceHolds s) (mu_fences m)) then Ok false
  else if existsb (fun t => bool_decide (is_Some (tasks s !! t))) (set_of (mu_expectMissingTaskIds m)) then Ok false
  else if existsb (leafRuleBroken s) (mu_cancellations m) then Ok false
  else checkWrites s m (mu_tasks m).

Definition commitBody (now : Z) (m : AppTaskResourceMutation) : M bool := fun s =>
  match admissible s m with
  | Throw e => (Throw e, s)
  | Ok false => (Ok false, s)
  | Ok true => applyMutation now m s
  end.

Definition commit (now : Z) (m : AppTaskResourceMutation) (s : store) : res bool * store :=
  match mu_fences m, mu_expectMissingTaskIds m with
  | [], [] => (Throw "Task resource mutation requires at least one existing or missing-task fence", s)
  | _, _ => atomically (commitBody now m) s
  end.

Definition replaceTask (now : Z) (expectedResourceVersion : Z) (w : TaskResourceWrite) : store -> res bool * store :=
  commit now (mkMutation [mkFence (w_id w) expectedResourceVersion None None] None [] [w]
    [] [] [] [] [] [] [] [] [] [] [] [] []).

(** ** Recovery state *)

Definition set_recovery (ready changed : bool) (next : option Z) (row : TaskRow) : TaskRow :=
  mkRow (row_generation row) (row_resource_version row) (row_observed_generation row) (row_phase row)
    (row_lane row) changed ready next (row_lease_until row)
    (row_current_attempt_id row) (row_updated_at row) (row_resource row) (row_trigger row).

Record RecoveryInput : Type := mkRecovery {
  ri_ready : option bool;
  ri_changed : option bool;
  ri_nextCheckAt : option (option Z);
  ri_expectedRevision : option Z }.

Definition setRecoveryState (now : Z) (taskId : string) (input : RecoveryInput) : store -> res bool * store :=
  atomically (fun s =>
    let resource := readTask s taskId in
    let input :=
      match resource ≫= fun r => pendingTaskExecutionRetryAt r now with
      | Some retryAt =>
          if number_eqb retryAt (num 0) then input
          else mkRecovery (Some false) (Some false) (Some (Some (number_to_Z retryAt))) (ri_expectedRevision input)
      | None => input
      end in
    let input :=
      if match resource with Some r => taskExecutionRetryExhausted r | None => false end
      then mkRecovery (Some false) (Some false) (ri_nextCheckAt input) (ri_expectedRevision input)
      else input in
    match ri_ready input, ri_changed input, ri_nextCheckAt input with
    | None, None, None => (Ok false, s)
    | _, _, _ =>
        match tasks s !! taskId with
        | None => (Ok false, s)
        | Some row =>
            let ready := default (row_ready row) (ri_ready input) in
            let changed := default (row_changed row) (ri_changed input) in
            let next := default (row_next_check_at row) (ri_nextCheckAt input) in
            if (negb (Bool.eqb ready (row_ready row)) || negb (Bool.eqb changed (row_changed row)) ||
                negb (bool_decide (next = row_next_check_at row))) &&
               match ri_expectedRevision input with None => true | Some r => Z.eqb r (m_revision s) end &&
               live s taskId
            then (Ok true, set_tasks (<[taskId := set_recovery ready changed next row]> (tasks s)) s)
            else (Ok false, s)
        end
    end).

(** The earliest recovery time of a waiting Task, after its execution retry. *)
Definition recoveryFloor (base : Z) (row : TaskRow) (now : Z) : Z :=
  Z.max base (match st_executionRetryAt (status (row_resource row)) with
              | Some r => number_to_Z r
              | None => now
              end).

Definition hasOpenCondition (s : store) (taskId : string) : bool :=
  existsb (fun r => String.eqb r.1 taskId &&
      match conditions s !! r.2 with
      | Some c => negb (bool_decide (cond_state c = cs_true))
      | None => false
      end) (elements (routes s)).

Definition needsRepair (now : Z) (s : store) (taskId : string) (row : TaskRow) : bool :=
  bool_decide (row_phase row = waiting) &&
  match row_next_check_at row with
  | None => true
  | Some n => recoveryFloor (now + CONDITION_RECOVERY_INTERVAL_MS) row now <? n
  end && live s taskId && hasOpenCondition s taskId.

Definition repairWaitingConditionRecovery (now : Z) (s : store) : Z * store :=
  (Z.of_nat (size (filter (fun e => needsRepair now s e.1 e.2 = true) (tasks s))),
   set_tasks (map_imap (fun id row => Some
      (if needsRepair now s id row
       then set_recovery (row_ready row) (row_changed row) (Some (recoveryFloor now row now)) row
       else row)) (tasks s)) s).

(** ** Bootstrap *)

Definition stripAppSuffix (s : string) : string :=
  if endsWith s ".app" then String.substring 0 (String.length s - 4) s else s.

Definition clearTables (s : store) : store :=
  mkStore (appId s) (m_authority s) (m_source_revision s) (m_activated_at s) (m_app_metadata s)
    (m_revision s) ∅ ∅ ∅ ∅ ∅ ∅ ∅ ∅ (controls s) (foreignControlKeys s) ∅ ∅ (refs s) (humanInput s).

(** Event identities retained by attempts and triggers ([backfillTaskEventReceipts]). *)
Definition eventNumber (v : option json) : option Z :=
  match v with
  | Some (JNum n) => if isSafeInteger n && number_ltb (num 0) n then Some (number_to_Z n) else None
  | _ => None
  end.

Definition putEventNumber (taskId : string) (at_ : Z) (n : option Z) (s : store) : store :=
  match n with
  | None => s
  | Some n =>
      let key := (taskId, "event:" +:+ show_Z n) in
      match tasks s !! taskId, events s !! key with
      | Some _, None => set_events (<[key := at_]> (events s)) s
      | _, _ => s
      end
  end.

Definition attemptEventNumbers (a : AppTaskAttempt) : list (option Z) :=
  map (fun e => eventNumber (obj_get "eventId" (te_event e))) (default [] (att_events a)) ++
  [eventNumber (att_trigger a ≫= obj_get "eventId")] ++
  map (fun n => if (0 <? n) && (n <=? MAX_SAFE_INTEGER) then Some n else None)
    (default [] (att_acceptedResult a ≫= ar_acceptedLiveEventIds)).

Definition triggerEventNumbers (t : AppTaskTrigger) : list (option Z) :=
  map (fun e => eventNumber (obj_get "eventId" (te_event e))) (default [] (tr_events t)) ++
  [eventNumber (obj_get "eventId" (tr_event t))].

Definition backfillTaskEventReceipts (s : store) : store :=
  let s := fold_left (fun s a =>
      fold_left (fun s n => putEventNumber (ar_task_id a) (ar_started_at a) n s)
        (attemptEventNumbers (ar_attempt a)) s) (map snd (map_to_list (attempts s))) s in
  fold_left (fun s e =>
      fold_left (fun s n => putEventNumber e.1 (row_updated_at e.2) n s)
        (match row_trigger e.2 with Some t => triggerEventNumbers t | None => [] end) s)
    (map_to_list (tasks s)) s.

Definition seedAttempt (a : AppTaskAttempt) : M unit := fun s =>
  match attempts s !! att_id a with
  | Some _ => (Throw "UNIQUE constraint failed: app_task_attempts.app_id, app_task_attempts.attempt_id", s)
  | None =>
      let s := set_attempts (<[att_id a := attemptRow a]> (attempts s)) s in
      let lease := lease_expiresAt <$> att_lease a in
      match nonempty lease with
      | Some _ =>
          if bool_decide (att_state a = at_running)
          then (Ok tt, set_tasks (alter (set_lease (epoch lease)) (att_taskId a) (tasks s)) s)
          else (Ok tt, s)
      | None => (Ok tt, s)
      end
  end.

Definition seedCondition (c : AppTaskCondition) : M unit := fun s =>
  match conditions s !! cond_id c with
  | Some _ => (Throw "UNIQUE constraint failed: app_task_conditions.app_id, app_task_conditions.condition_id", s)
  | None => (Ok tt, putCondition c s)
  end.

Definition seedReceipt (r : TaskCompletionReceipt) : M unit := fun s =>
  match receipts s !! rcp_id r with
  | Some _ => (Throw "UNIQUE constraint failed: app_task_receipts.app_id, app_task_receipts.receipt_id", s)
  | None => putReceipt r s
  end.

Definition seedTask (now : Z) (tree : TaskTree.TaskTree) (ready : list string) (r : AppTaskResource) : M unit :=
  let id := md_id (metadata r) in
  let trigger := obj_get id (TaskTree.taskTriggers tree) in
  bind (putTask now r trigger (set_has id ready) None) (fun _ => modify (putEvents id trigger)).

(** The metadata row: present fields only. *)
Definition seedMetadata (tree : TaskTree.TaskTree) : obj json :=
  let text k v := match v with Some s => [(k, JStr s)] | None => [] end in
  text "project" (TaskTree.project tree) ++
  [("project_lifecycle",
    JStr (if bool_decide (TaskTree.project_lifecycle tree = Some "paused") then "paused" else "active"))] ++
  text "root_task_id" (TaskTree.root_task_id tree) ++
  text "updated_at" (TaskTree.updated_at tree) ++
  match TaskTree.version tree with Some v => [("version", JNum (num v))] | None => [] end.

(** Task rows, then attempts and Conditions, then every Task's routes. *)
Definition seedTasks (now : Z) (tree : TaskTree.TaskTree) (ready : list string) : M unit :=
  bind (each (seedTask now tree ready) (obj_values (TaskTree.resources tree))) (fun _ =>
  bind (bind (each seedAttempt (obj_values (TaskTree.attempts tree))) (fun _ =>
        each seedCondition (obj_values (TaskTree.conditions tree)))) (fun _ =>
  each (fun r => modify (putTaskConditionRoutes r)) (obj_values (TaskTree.resources tree)))).

Definition bootstrapBody (now : Z) (nowText sourceRevision : string) (tree : TaskTree.TaskTree)
    (ready : list string) : M unit :=
  bind (modify clearTables) (fun _ =>
  bind (each putCancellation (obj_values (TaskTree.cancellations tree))) (fun _ =>
  bind (seedTasks now tree ready) (fun _ =>
  bind (each seedReceipt (obj_values (TaskTree.receipts tree))) (fun _ =>
  bind (each (fun g => modify (fun s => set_groups (<[g.1 := g.2]> (groups s)) s))
          (TaskTree.groups tree)) (fun _ =>
  bind (each (fun a => modify (fun s => set_admissions (<[a.1 := a.2]> (admissions s)) s))
          (TaskTree.appTaskAdmissions tree)) (fun _ =>
  modify (fun s =>
    bumpRevision (set_meta (Some "resources") (Some sourceRevision) (Some nowText) (Some (seedMetadata tree))
      (backfillTaskEventReceipts s))))))))).

Definition bootstrapSnapshot (now : Z) (nowText sourceRevision : string) (treeInput : TaskTree.TaskTree)
    (ready : list string) (s : store) : res unit * store :=
  let tree := TaskTree.normalizeTaskStateInPlace treeInput in
  if match nonempty (TaskTree.project tree) with
     | Some p => negb (String.eqb (stripAppSuffix p) (appId s))
     | None => false
     end
  then (Throw ("Task snapshot project " +:+ default "" (TaskTree.project tree) +:+ " does not match App "
               +:+ appId s), s)
  else atomically (fun s =>
    match nonempty (m_authority s) with
    | Some a =>
        (Throw ("Task resource bootstrap for " +:+ appId s +:+ " found existing " +:+ a +:+ " authority"), s)
    | None => bootstrapBody now nowText sourceRevision tree ready s
    end) s.

(** A store just opened for an App with no rows ([fromDb]). *)
Definition emptyStore (app : string) (foreign human : gset string) : store :=
  mkStore app None None None None 0 ∅ ∅ ∅ ∅ ∅ ∅ ∅ ∅ ∅ foreign ∅ ∅ ∅ human.

(** [fromDb]: the App id is trimmed and loses its [.app] suffix. *)
Definition fromDb (app : string) (foreign human : gset string) : res store :=
  let normalized := stripAppSuffix (trim app) in
  if String.eqb normalized "" then Throw "Task resource store requires an App id"
  else Ok (emptyStore normalized foreign human).

(** ** Invariant *)

(** The indexed columns repeat the stored record. *)
Record row_ok (id : string) (row : TaskRow) : Prop := mkRowOk {
  ro_id : md_id (metadata (row_resource row)) = id;
  ro_generation : row_generation row = md_generation (metadata (row_resource row));
  ro_version : row_resource_version row = md_resourceVersion (metadata (row_resource row));
  ro_observed : row_observed_generation row = st_observedGeneration (status (row_resource row));
  ro_phase : row_phase row = st_phase (status (row_resource row));
  ro_lane : row_lane row = default normal (st_lane (status (row_resource row)));
  ro_current : row_current_attempt_id row = st_currentAttemptId (status (row_resource row)) }.

(** What every statement keeps. *)
Record store_ok (s : store) : Prop := mkStoreOk {
  ok_rows : map_Forall row_ok (tasks s);
  ok_events : forall t k, is_Some (events s !! (t, k)) -> is_Some (tasks s !! t);
  ok_relations : forall r, r ∈ relations s <->
     exists row, tasks s !! r.1.1 = Some row /\ r ∈ declaredRelations (row_resource row);
  ok_routes : forall t c, (t, c) ∈ routes s -> is_Some (tasks s !! t) /\ is_Some (conditions s !! c);
  ok_attempts : map_Forall (fun id a => att_id (ar_attempt a) = id) (attempts s);
  ok_conditions : map_Forall (fun id c => cond_id c = id) (conditions s);
  ok_receipts : map_Forall (fun id r => rcp_id (rw_receipt r) = id) (receipts s);
  ok_cancellations : map_Forall (fun id c =>
      can_taskId (cw_cancellation c) = id /\ can_appId (cw_cancellation c) = appId s) (cancellations s);
  ok_controls : map_Forall (fun k c => ctl_controlKey c = k /\ ctl_appId c = appId s) (controls s) }.

(** Routes lead only to Conditions the Task still names. *)
Definition routes_declared (s : store) : Prop :=
  forall t c, (t, c) ∈ routes s ->
    exists row, tasks s !! t = Some row /\ c ∈ default [] (st_conditionIds (status (row_resource row))).

Definition store_wf (s : store) : Prop := store_ok s /\ routes_declared s.

End ResourceStore.
