(* ===== verification/StoreInvariant.v ===== *)
(** The Task resource store keeps its tables consistent: every statement, and
    so every committed mutation, bootstrap, recovery update and repair,
    preserves the invariant of [ResourceStore]. *)
From S2P Require Import Prelude Json TaskState TaskTree Transaction ResourceStore.

Module StoreInvariant.
Import StateTransaction ResourceStore.

(** ** Statements as a monad *)

(** [keeps P x]: when [x] returns, [P] still holds. *)
Definition keeps (P : store -> Prop) {A} (x : M A) : Prop :=
  forall s a s', P s -> x s = (Ok a, s') -> P s'.

Lemma keeps_bind {A B} P (x : M A) (f : A -> M B) :
  keeps P x -> (forall a, keeps P (f a)) -> keeps P (bind x f).
Proof.
  intros Hx Hf s b s' Hs. unfold bind. destruct (x s) as [[a|e] s1] eqn:E; [|done].
  intros H. eapply Hf; [|exact H]. by eapply Hx.
Qed.

Lemma keeps_each {A} P (f : A -> M unit) l :
  (forall a, a ∈ l -> keeps P (f a)) -> keeps P (each f l).
Proof.
  induction l as [|a l IH]; intros Hf; simpl.
  - intros s b s' Hs [= _ <-]. done.
  - apply keeps_bind; [apply Hf; set_solver|]. intros _. apply IH. intros b Hb. apply Hf. set_solver.
Qed.

Lemma keeps_snd {A} P (x : M A) : (forall s, P s -> P (snd (x s))) -> keeps P x.
Proof. intros H s a s' Hs E. specialize (H s Hs). by rewrite E in H. Qed.

Lemma keeps_modify P f : (forall s, P s -> P (f s)) -> keeps P (modify f).
Proof. intros H. by apply keeps_snd. Qed.

Lemma keeps_ret {A} P (a : A) : keeps P (ret a).
Proof. by apply keeps_snd. Qed.

Lemma keeps_atomically {A} P (body : M A) s :
  keeps P body -> P s -> P (snd (atomically body s)).
Proof.
  intros Hk Hs. unfold atomically. destruct (body s) as [[v|e] s'] eqn:E; [|done]. by eapply Hk.
Qed.

(** A statement that cannot throw. *)
Lemma each_modify {A} (f : A -> store -> store) l s :
  each (fun a => modify (f a)) l s = (Ok tt, fold_left (fun s a => f a s) l s).
Proof. revert s. induction l as [|a l IH]; intros s; [done|]. simpl. unfold bind. simpl. apply IH. Qed.

Lemma fold_left_inv {A} (P : store -> Prop) (f : store -> A -> store) l s :
  (forall s' a, a ∈ l -> P s' -> P (f s' a)) -> P s -> P (fold_left f l s).
Proof.
  revert s. induction l as [|a l IH]; intros s Hf Hs; [done|]. simpl.
  apply IH; [|apply Hf; [set_solver|done]]. intros s' b Hb. apply Hf. set_solver.
Qed.

(** ** Rows *)

Lemma taskRow_ok now r tr ready nc lease : row_ok (md_id (metadata r)) (taskRow now r tr ready nc lease).
Proof. constructor; done. Qed.

Lemma set_lease_ok id row l : row_ok id row -> row_ok id (set_lease l row).
Proof. intros []. constructor; done. Qed.

Lemma set_recovery_ok id row a b c : row_ok id row -> row_ok id (set_recovery a b c row).
Proof. intros []. constructor; done. Qed.

Lemma declaredRelations_src r x : x ∈ declaredRelations r -> x.1.1 = md_id (metadata r).
Proof.
  unfold declaredRelations. rewrite elem_of_union, elem_of_list_to_set, list_elem_of_fmap.
  intros [H|(d & -> & _)]; [|done].
  destruct (String.eqb _ _); [set_solver|]. apply elem_of_singleton in H. by subst.
Qed.

(** Rewriting Task rows without touching the stored records. *)
Lemma set_tasks_ok s ts :
  store_ok s -> map_Forall row_ok ts ->
  (forall t, row_resource <$> ts !! t = row_resource <$> tasks s !! t) ->
  store_ok (set_tasks ts s).
Proof.
  intros [] Hrows Hsame.
  assert (forall t, is_Some (tasks s !! t) -> is_Some (ts !! t)) as Hdom.
  { intros t [row Hrow]. specialize (Hsame t). rewrite Hrow in Hsame. simpl in Hsame.
    destruct (ts !! t); [eauto|done]. }
  constructor; simpl; try done.
  - intros t k H. apply Hdom. eauto.
  - intros r. rewrite ok_relations0. specialize (Hsame r.1.1). split.
    + intros (row & Hrow & Hr). rewrite Hrow in Hsame. simpl in Hsame.
      destruct (ts !! r.1.1) as [row'|]; [|done]. injection Hsame as He. exists row'. by rewrite He.
    + intros (row & Hrow & Hr). rewrite Hrow in Hsame. simpl in Hsame.
      destruct (tasks s !! r.1.1) as [row'|]; [|done]. injection Hsame as He. exists row'. by rewrite <- He.
  - intros t c Hr. destruct (ok_routes0 t c Hr). auto.
Qed.

Lemma alter_row_resource (f : TaskRow -> TaskRow) (id : string) (m : gmap string TaskRow) (t : string) :
  (forall row, row_resource (f row) = row_resource row) ->
  row_resource <$> alter f id m !! t = row_resource <$> m !! t.
Proof.
  intros Hf. destruct (decide (id = t)) as [->|Hne].
  - rewrite lookup_alter_eq. destruct (m !! t); simpl; by rewrite ?Hf.
  - by rewrite lookup_alter_ne.
Qed.

Lemma alter_rows_ok (f : TaskRow -> TaskRow) (id : string) (m : gmap string TaskRow) :
  (forall k row, row_ok k row -> row_ok k (f row)) -> map_Forall row_ok m ->
  map_Forall row_ok (alter f id m).
Proof.
  intros Hf Hm k row. destruct (decide (id = k)) as [->|Hne].
  - rewrite lookup_alter_eq. destruct (m !! k) eqn:E; simpl; [|done]. intros [= <-]. apply Hf. by apply Hm.
  - rewrite lookup_alter_ne by done. apply Hm.
Qed.

(** ** Statements preserve the invariant *)

Lemma indexTaskReference_ok id s : store_ok s -> store_ok (snd (indexTaskReference id s)).
Proof. intros []. unfold indexTaskReference. case_cond; simpl; constructor; done. Qed.

(** The write of a Task row followed by its relations. *)
Lemma putTaskRow_ok r row s :
  row_resource row = r -> row_ok (md_id (metadata r)) row -> store_ok s ->
  store_ok (putTaskRelations r (set_tasks (<[md_id (metadata r) := row]> (tasks s)) s)).
Proof.
  intros Hres Hrow []. set (id := md_id (metadata r)) in *. constructor; simpl; try done.
  - by apply map_Forall_insert_2.
  - intros t k H. destruct (decide (id = t)) as [->|Hne]; [by rewrite lookup_insert_eq|].
    rewrite lookup_insert_ne by done. eauto.
  - intros x. rewrite elem_of_union, elem_of_filter, ok_relations0. fold id.
    destruct (decide (id = x.1.1)) as [He|Hne].
    + rewrite He, lookup_insert_eq. split.
      * intros [[? _]|Hx]; [done|]. exists row. by rewrite Hres.
      * intros (row' & [= <-] & Hx). right. by rewrite Hres in Hx.
    + rewrite lookup_insert_ne by done. split.
      * intros [[_ ?]|Hx%declaredRelations_src]; [done|]. by rewrite Hx in Hne.
      * auto.
  - intros t c Hr. destruct (ok_routes0 t c Hr) as [Ht Hc]. split; [|done].
    destruct (decide (id = t)) as [->|Hne]; [by rewrite lookup_insert_eq|]. by rewrite lookup_insert_ne.
Qed.

Lemma putTask_run now r tr ready nc s a s' :
  putTask now r tr ready nc s = (Ok a, s') ->
  exists lease, s' = putTaskRelations r (set_refs ({[trim (md_id (metadata r))]} ∪ refs s)
    (set_tasks (<[md_id (metadata r) := taskRow now r tr ready nc lease]> (tasks s)) s)).
Proof.
  unfold putTask, bind, indexTaskReference. destruct (nonblank _); [|done]. simpl.
  intros [= _ <-]. eexists. reflexivity.
Qed.

Lemma putTask_ok now r tr ready nc : keeps store_ok (putTask now r tr ready nc).
Proof.
  intros s a s' Hs [lease ->]%putTask_run.
  pose proof (putTaskRow_ok r (taskRow now r tr ready nc lease) s eq_refl (taskRow_ok _ _ _ _ _ _) Hs) as [].
  constructor; done.
Qed.

Lemma putEvents_tasks id tr s : tasks (putEvents id tr s) = tasks s.
Proof.
  unfold putEvents. apply fold_left_inv; [|done].
  intros s' e _ H. repeat case_cond; done.
Qed.

Lemma putEvents_ok id tr s :
  store_ok s -> is_Some (tasks s !! id) -> store_ok (putEvents id tr s).
Proof.
  intros Hs Hid. unfold putEvents.
  apply (fold_left_inv (fun s' => store_ok s' /\ is_Some (tasks s' !! id))); [|done].
  intros s' e _ [[] Hid']. case_cond; [|done]. case_cond; [done|].
  split; [|done]. constructor; simpl; try done.
  intros t k. destruct (decide ((id, s0) = (t, k))) as [[= -> ->]|Hne]; [done|].
  rewrite lookup_insert_ne by done. apply ok_events0.
Qed.

Lemma deleteTask_ok id s : store_ok s -> store_ok (deleteTask id s).
Proof.
  intros []. constructor; simpl; try done.
  - by apply map_Forall_delete.
  - intros t k [v [Hv Hne]%map_lookup_filter_Some]. simpl in Hne.
    rewrite lookup_delete_ne by done. eauto.
  - intros r. rewrite elem_of_filter, ok_relations0.
    destruct (decide (id = r.1.1)) as [->|Hne].
    + rewrite lookup_delete_eq. naive_solver.
    + rewrite lookup_delete_ne by done. naive_solver.
  - intros t c [Hne Hr]%elem_of_filter. simpl in Hne. rewrite lookup_delete_ne by done. auto.
Qed.

Lemma putAttempt_ok a s : store_ok s -> store_ok (putAttempt a s).
Proof.
  intros Hs. unfold putAttempt.
  assert (store_ok (set_attempts (<[att_id a := attemptRow a]> (attempts s)) s)) as Ha.
  { destruct Hs. constructor; simpl; try done. by apply map_Forall_insert_2. }
  case_cond; [|done]. apply set_tasks_ok; [done| |].
  - apply alter_rows_ok; [|apply Hs]. intros k row Hrow. case_cond; [by apply set_lease_ok|done].
  - intros t. apply alter_row_resource. intros row. by case_cond.
Qed.

Lemma putCondition_ok c s : store_ok s -> store_ok (putCondition c s).
Proof.
  intros []. constructor; simpl; try done; [|by apply map_Forall_insert_2].
  intros t d Hr. destruct (ok_routes0 t d Hr) as [? ?]. split; [done|].
  destruct (decide (cond_id c = d)) as [->|]; [by rewrite lookup_insert_eq|by rewrite lookup_insert_ne].
Qed.

Lemma deleteCondition_ok c s : store_ok s -> store_ok (deleteCondition c s).
Proof.
  intros []. constructor; simpl; try done; [|by apply map_Forall_delete].
  intros t d [Hne Hr]%elem_of_filter. simpl in Hne. rewrite lookup_delete_ne by done. auto.
Qed.

Lemma pruneCondition_ok c s : store_ok s -> store_ok (pruneCondition c s).
Proof.
  intros Hs. unfold pruneCondition. case_cond; [done|]. destruct Hs.
  constructor; simpl; try done; [|by apply map_Forall_delete].
  intros t d Hr. destruct (ok_routes0 t d Hr) as [? ?]. split; [done|].
  destruct (decide (c = d)) as [->|]; [|by rewrite lookup_delete_ne].
  assert (existsb (fun r => String.eqb r.2 d) (elements (routes s)) = true) as Hb; [|congruence].
  apply existsb_exists. exists (t, d). split; [|apply String.eqb_refl].
  by apply list_elem_of_In, elem_of_elements.
Qed.

Lemma putTaskConditionRoutes_ok r s :
  store_ok s -> is_Some (tasks s !! md_id (metadata r)) -> store_ok (putTaskConditionRoutes r s).
Proof.
  intros [] Hid. constructor; simpl; try done.
  intros t c [[_ Hr]%elem_of_filter|Hr]%elem_of_union; [auto|].
  apply elem_of_list_to_set, list_elem_of_fmap in Hr as (d & [= -> ->] & [Hd _]%list_elem_of_filter). auto.
Qed.

Lemma history_ok (f : store -> store) s :
  store_ok s ->
  tasks (f s) = tasks s -> events (f s) = events s -> relations (f s) = relations s ->
  routes (f s) = routes s -> conditions (f s) = conditions s -> appId (f s) = appId s ->
  map_Forall (fun id a => att_id (ar_attempt a) = id) (attempts (f s)) ->
  map_Forall (fun id r => rcp_id (rw_receipt r) = id) (receipts (f s)) ->
  map_Forall (fun id c => can_taskId (cw_cancellation c) = id /\ can_appId (cw_cancellation c) = appId s)
    (cancellations (f s)) ->
  map_Forall (fun k c => ctl_controlKey c = k /\ ctl_appId c = appId s) (controls (f s)) ->
  store_ok (f s).
Proof. intros [] H1 H2 H3 H4 H5 H6 H7 H8 H9 H10. constructor; rewrite ?H1, ?H2, ?H3, ?H4, ?H5, ?H6; done. Qed.

Lemma putReceipt_ok r s : store_ok s -> store_ok (snd (putReceipt r s)).
Proof.
  intros Hs. unfold putReceipt, bind. simpl. apply indexTaskReference_ok.
  apply (history_ok (fun s => set_receipts _ s)); try done; try apply Hs.
  simpl. apply map_Forall_insert_2; [done|apply Hs].
Qed.

Lemma putCancellation_ok c s : store_ok s -> store_ok (snd (putCancellation c s)).
Proof.
  intros Hs. unfold putCancellation. destruct (String.eqb_spec (can_appId c) (appId s)); simpl; [|done].
  case_cond; [done|]. simpl.
  apply (history_ok (fun s => set_cancellations _ s)); try done; try apply Hs.
  simpl. apply map_Forall_insert_2; [done|apply Hs].
Qed.

Lemma putControl_ok c s : store_ok s -> store_ok (snd (putControl c s)).
Proof.
  intros Hs. unfold putControl. destruct (String.eqb_spec (ctl_appId c) (appId s)); simpl; [|done].
  case_cond; [done|]. simpl.
  apply (history_ok (fun s => set_controls _ s)); try done; try apply Hs.
  simpl. apply map_Forall_insert_2; [done|apply Hs].
Qed.

Lemma reopenTask_ok m t s : store_ok s -> store_ok (snd (reopenTask m t s)).
Proof.
  intros Hs. unfold reopenTask. repeat case_cond; simpl; try done.
  apply (history_ok (fun s => set_cancellations _ s)); try done; try apply Hs.
  simpl. apply map_Forall_delete, Hs.
Qed.

Lemma bumpRevision_ok s : store_ok s -> store_ok (bumpRevision s).
Proof. intros []. constructor; done. Qed.

Lemma set_meta_ok a b c d s : store_ok s -> store_ok (set_meta a b c d s).
Proof. intros []. constructor; done. Qed.

#[export] Hint Resolve deleteTask_ok putAttempt_ok putCondition_ok deleteCondition_ok pruneCondition_ok
  putReceipt_ok putCancellation_ok putControl_ok reopenTask_ok bumpRevision_ok set_meta_ok
  indexTaskReference_ok : may.

(** ** Condition routes across a mutation

    Between the writes of a mutation and the refresh of its routes, the routes of
    the written Tasks may be stale. *)

(** The last write of a mutation to a Task. *)
Fixpoint lastWrite (ws : list AppTaskResource) (t : string) : option AppTaskResource :=
  match ws with
  | [] => None
  | r :: ws =>
      match lastWrite ws t with
      | Some x => Some x
      | None => if String.eqb (md_id (metadata r)) t then Some r else None
      end
  end.

Lemma lastWrite_id ws t r : lastWrite ws t = Some r -> r ∈ ws /\ md_id (metadata r) = t.
Proof.
  induction ws as [|x ws IH]; simpl; [done|]. destruct (lastWrite ws t).
  - intros [= ->]. destruct IH; [done|]. split; [set_solver|done].
  - destruct (String.eqb_spec (md_id (metadata x)) t); [|done]. intros [= ->]. set_solver.
Qed.

Lemma lastWrite_None ws t r : lastWrite ws t = None -> r ∈ ws -> md_id (metadata r) <> t.
Proof.
  induction ws as [|x ws IH]; simpl; [set_solver|]. destruct (lastWrite ws t); [done|].
  destruct (String.eqb_spec (md_id (metadata x)) t); [done|].
  intros _ [->|Hr]%elem_of_cons; [done|auto].
Qed.

Definition named (r : AppTaskResource) : list string := default [] (st_conditionIds (status r)).

(** Routes of Tasks outside [ws] are declared. *)
Definition fresh_except (ws : list AppTaskResource) (s : store) : Prop :=
  forall t c, (t, c) ∈ routes s -> lastWrite ws t = None ->
    exists row, tasks s !! t = Some row /\ c ∈ named (row_resource row).

(** The rows of the Tasks in [ws] hold their last write. *)
Definition written (ws : list AppTaskResource) (s : store) : Prop :=
  forall t r, lastWrite ws t = Some r -> row_resource <$> tasks s !! t = Some r.

(** Changes that leave the stored records and add no route. *)
Lemma fresh_except_mono ws s s' :
  (forall t, row_resource <$> tasks s' !! t = row_resource <$> tasks s !! t) ->
  routes s' ⊆ routes s -> fresh_except ws s -> fresh_except ws s'.
Proof.
  intros Hsame Hsub Hf t c Hr Hl. destruct (Hf t c (Hsub _ Hr) Hl) as (row & Hrow & Hc).
  specialize (Hsame t). rewrite Hrow in Hsame. simpl in Hsame.
  destruct (tasks s' !! t) as [row'|]; [|done]. injection Hsame as He. exists row'. by rewrite He.
Qed.

Lemma written_mono ws s s' :
  (forall t, row_resource <$> tasks s' !! t = row_resource <$> tasks s !! t) ->
  written ws s -> written ws s'.
Proof. intros Hsame Hw t r Hl. rewrite Hsame. auto. Qed.

Lemma fresh_except_delete ws id s : fresh_except ws s -> fresh_except ws (deleteTask id s).
Proof.
  intros Hf t c [Hne Hr]%elem_of_filter Hl. simpl in *. rewrite lookup_delete_ne by done. eauto.
Qed.

(** Writing the Tasks of a list one after the other. *)
Section Writes.
Context {A : Type} (f : A -> M unit) (res_of : A -> AppTaskResource).

Definition writes_row (w : A) : Prop :=
  keeps store_ok (f w) /\
  forall s a s', f w s = (Ok a, s') -> routes s' = routes s /\
    exists row, row_resource row = res_of w /\
      tasks s' = <[md_id (metadata (res_of w)) := row]> (tasks s).

Lemma each_writes l s a s' :
  (forall w, w ∈ l -> writes_row w) -> each f l s = (Ok a, s') ->
  routes s' = routes s /\
  forall t, row_resource <$> tasks s' !! t =
    match lastWrite (map res_of l) t with
    | Some r => Some r
    | None => row_resource <$> tasks s !! t
    end.
Proof.
  revert s. induction l as [|w l IH]; intros s Hw; simpl.
  - intros [= _ <-]. done.
  - unfold bind. destruct (f w s) as [[[]|e] s1] eqn:E; [|done]. intros H.
    destruct (Hw w) as [_ Hrow]; [set_solver|]. destruct (Hrow s tt s1 E) as (Hr & row & Hres & Ht).
    destruct (IH s1) as [Hr' Ht']; [intros w' Hin; apply Hw; set_solver|done|].
    split; [congruence|]. intros t. rewrite Ht'. destruct (lastWrite _ t); [done|].
    rewrite Ht. destruct (String.eqb_spec (md_id (metadata (res_of w))) t) as [->|Hne].
    + rewrite lookup_insert_eq. simpl. by rewrite Hres.
    + by rewrite lookup_insert_ne.
Qed.
End Writes.

Lemma writeTask_writes now w : writes_row (writeTask now) w_resource w.
Proof.
  split.
  - intros s a s' Hs. unfold writeTask, bind.
    destruct (putTask _ _ _ _ _ s) as [[[]|e] s1] eqn:E; [|done]. simpl. intros [= _ <-].
    apply putEvents_ok; [by eapply putTask_ok|].
    apply putTask_run in E as [lease ->]. simpl. by rewrite lookup_insert_eq.
  - intros s a s'. unfold writeTask, bind.
    destruct (putTask _ _ _ _ _ s) as [[[]|e] s1] eqn:E; [|done]. simpl. intros [= _ <-].
    apply putTask_run in E as [lease ->]. split.
    + unfold putEvents. apply (fold_left_inv (fun s' => routes s' = routes s)); [|done].
      intros s' e _ H. repeat case_cond; done.
    + eexists. rewrite putEvents_tasks. split; [|reflexivity]. done.
Qed.

(** Refreshing the routes of a list of records. *)
Lemma routes_refresh ws s t c :
  (t, c) ∈ routes (fold_left (fun s r => putTaskConditionRoutes r s) ws s) ->
  match lastWrite ws t with Some r => c ∈ named r | None => (t, c) ∈ routes s end.
Proof.
  revert s. induction ws as [|r ws IH]; intros s; simpl; [done|]. intros H%IH.
  destruct (lastWrite ws t); [done|]. simpl in H.
  apply elem_of_union in H as [[Hne H]%elem_of_filter|H].
  - simpl in Hne. destruct (String.eqb_spec (md_id (metadata r)) t); [congruence|done].
  - apply elem_of_list_to_set, list_elem_of_fmap in H as (d & [= -> ->] & [_ Hd]%list_elem_of_filter).
    by rewrite String.eqb_refl.
Qed.

Lemma putTaskConditionRoutes_tasks ws s :
  tasks (fold_left (fun s r => putTaskConditionRoutes r s) ws s) = tasks s.
Proof. apply (fold_left_inv (fun s' => tasks s' = tasks s)); [|done]. intros s' r _ H. done. Qed.

Lemma routes_refresh_ok ws s :
  store_ok s -> written ws s -> store_ok (fold_left (fun s r => putTaskConditionRoutes r s) ws s).
Proof.
  intros Hs Hw.
  apply (fold_left_inv (fun s' => store_ok s' /\ tasks s' = tasks s)); [|done].
  intros s' r Hr [Hs' Ht]. split; [|done]. apply putTaskConditionRoutes_ok; [done|]. rewrite Ht.
  destruct (lastWrite ws (md_id (metadata r))) as [x|] eqn:E.
  - apply Hw in E. by destruct (tasks s !! md_id (metadata r)).
  - by eapply lastWrite_None in E.
Qed.

Lemma routes_refresh_declared ws s :
  fresh_except ws s -> written ws s ->
  routes_declared (fold_left (fun s r => putTaskConditionRoutes r s) ws s).
Proof.
  intros Hf Hw t c Hr%routes_refresh. rewrite putTaskConditionRoutes_tasks.
  destruct (lastWrite ws t) as [r|] eqn:E; [|by apply Hf].
  apply Hw in E. destruct (tasks s !! t) as [row|]; [|done]. injection E as <-. by exists row.
Qed.

Lemma routes_declared_mono s s' :
  (forall t, row_resource <$> tasks s' !! t = row_resource <$> tasks s !! t) ->
  routes s' ⊆ routes s -> routes_declared s -> routes_declared s'.
Proof. intros H1 H2 Hd t c Hr. eapply (fresh_except_mono []); eauto. intros t' c' Hr' _. by apply Hd. Qed.

(** ** Whole operations *)

Lemma bind_Ok {A B} (x : M A) (f : A -> M B) s b s' :
  bind x f s = (Ok b, s') -> exists a s1, x s = (Ok a, s1) /\ f a s1 = (Ok b, s').
Proof. unfold bind. destruct (x s) as [[a|e] s1]; [eauto|done]. Qed.

(** The state between the writes and the refresh of the routes. *)
Definition mid (ws : list AppTaskResource) (s : store) : Prop :=
  store_ok s /\ fresh_except ws s /\ written ws s.

Lemma mid_frame ws (f : store -> store) s :
  store_ok (f s) -> (forall t, row_resource <$> tasks (f s) !! t = row_resource <$> tasks s !! t) ->
  routes (f s) ⊆ routes s -> mid ws s -> mid ws (f s).
Proof.
  intros Hok Ht Hr (_ & Hf & Hw). unfold mid. split_ands; [done|by eapply fresh_except_mono|by eapply written_mono].
Qed.

Lemma wf_frame (f : store -> store) s :
  store_ok (f s) -> (forall t, row_resource <$> tasks (f s) !! t = row_resource <$> tasks s !! t) ->
  routes (f s) ⊆ routes s -> store_wf s -> store_wf (f s).
Proof. intros Hok Ht Hr [_ Hd]. split; [done|by eapply routes_declared_mono]. Qed.

Lemma putAttempt_resources a s t :
  row_resource <$> tasks (putAttempt a s) !! t = row_resource <$> tasks s !! t.
Proof.
  unfold putAttempt. case_cond; [|done]. simpl. apply alter_row_resource. intros row. by case_cond.
Qed.

Lemma putAttempt_routes a s : routes (putAttempt a s) = routes s.
Proof. unfold putAttempt. by case_cond. Qed.

Lemma set_attempts_ok s x :
  store_ok s -> map_Forall (fun id a => att_id (ar_attempt a) = id) x -> store_ok (set_attempts x s).
Proof. intros Hs Hx. apply (history_ok (set_attempts x)); try done; apply Hs. Qed.

Lemma set_receipts_ok s x :
  store_ok s -> map_Forall (fun id r => rcp_id (rw_receipt r) = id) x -> store_ok (set_receipts x s).
Proof. intros Hs Hx. apply (history_ok (set_receipts x)); try done; apply Hs. Qed.

Lemma set_admissions_ok s x : store_ok s -> store_ok (set_admissions x s).
Proof. intros Hs. apply (history_ok (set_admissions x)); try done; apply Hs. Qed.

Lemma set_groups_ok s x : store_ok s -> store_ok (set_groups x s).
Proof. intros Hs. apply (history_ok (set_groups x)); try done; apply Hs. Qed.

(** Statements on history tables keep the whole invariant. *)
Lemma keeps_wf_history {A} (x : M A) :
  (forall s, store_ok s -> store_ok (snd (x s))) ->
  (forall s, tasks (snd (x s)) = tasks s /\ routes (snd (x s)) = routes s) -> keeps store_wf x.
Proof.
  intros Hok Hsame. apply keeps_snd. intros s Hs. destruct (Hsame s) as [Ht Hr].
  apply (wf_frame (fun s => snd (x s))); [apply Hok, Hs| | |done].
  - intros t. by rewrite Ht.
  - by rewrite Hr.
Qed.

Lemma putReceipt_frame r s : tasks (snd (putReceipt r s)) = tasks s /\ routes (snd (putReceipt r s)) = routes s.
Proof. unfold putReceipt, bind, indexTaskReference. simpl. by case_cond. Qed.

Lemma putCancellation_frame c s :
  tasks (snd (putCancellation c s)) = tasks s /\ routes (snd (putCancellation c s)) = routes s.
Proof. unfold putCancellation. repeat case_cond; done. Qed.

Lemma putControl_frame c s : tasks (snd (putControl c s)) = tasks s /\ routes (snd (putControl c s)) = routes s.
Proof. unfold putControl. repeat case_cond; done. Qed.

Lemma reopenTask_frame m t s :
  tasks (snd (reopenTask m t s)) = tasks s /\ routes (snd (reopenTask m t s)) = routes s.
Proof. unfold reopenTask. repeat case_cond; done. Qed.

Lemma pruneCondition_frame c s :
  tasks (pruneCondition c s) = tasks s /\ routes (pruneCondition c s) = routes s.
Proof. unfold pruneCondition. by case_cond. Qed.

Lemma map_map_resource {A} (f : A -> AppTaskResource) ws s :
  fold_left (fun s w => putTaskConditionRoutes (f w) s) ws s =
  fold_left (fun s r => putTaskConditionRoutes r s) (map f ws) s.
Proof. revert s. induction ws as [|w ws IH]; intros s; simpl; auto. Qed.

(** From the writes of a list of Tasks to the refresh of their routes. *)
Section Refresh.
Context {A : Type} (write : A -> M unit) (res_of : A -> AppTaskResource) (middle : M unit).
Context (Hwrite : forall w, writes_row write res_of w).

Lemma write_then_refresh l :
  keeps (mid (map res_of l)) middle ->
  keeps store_wf
    (bind (each write l) (fun _ => bind middle (fun _ =>
       each (fun w => modify (putTaskConditionRoutes (res_of w))) l))).
Proof.
  intros Hmid s b s' [Hok Hd] H.
  apply bind_Ok in H as ([] & s1 & H1 & H). apply bind_Ok in H as ([] & s2 & H2 & H).
  rewrite each_modify, map_map_resource in H. injection H as _ <-.
  destruct (each_writes write res_of l s tt s1) as [Hr Ht]; [auto|done|].
  assert (mid (map res_of l) s1) as Hm1.
  { unfold mid. split_ands.
    - eapply (keeps_each store_ok); [|exact Hok|exact H1]. intros w _. apply Hwrite.
    - intros t c Hin Hl. rewrite Hr in Hin. destruct (Hd t c Hin) as (row & Hrow & Hc).
      specialize (Ht t). rewrite Hl, Hrow in Ht. simpl in Ht.
      destruct (tasks s1 !! t) as [row'|]; [|done]. injection Ht as He. exists row'.
      unfold named. by rewrite He.
    - intros t r Hl. by rewrite Ht, Hl. }
  destruct (Hmid _ _ _ Hm1 H2) as (Hok2 & Hf2 & Hw2).
  split; [by apply routes_refresh_ok|by apply routes_refresh_declared].
Qed.
End Refresh.

(** Statements between the writes and the refresh. *)
Lemma keeps_mid_modify ws (f : store -> store) :
  (forall s, store_ok s -> store_ok (f s)) ->
  (forall s t, row_resource <$> tasks (f s) !! t = row_resource <$> tasks s !! t) ->
  (forall s, routes (f s) ⊆ routes s) -> keeps (mid ws) (modify f).
Proof.
  intros Hok Ht Hr. apply keeps_modify. intros s Hs. apply mid_frame; auto. apply Hok, Hs.
Qed.

Lemma writeAttemptsAndConditions_mid ws m : keeps (mid ws) (writeAttemptsAndConditions m).
Proof.
  unfold writeAttemptsAndConditions.
  repeat (apply keeps_bind; [|intros _]); apply keeps_each; intros x _; apply keeps_mid_modify; try done.
  - intros s Hs. apply set_attempts_ok; [done|]. apply map_Forall_delete, Hs.
  - intros s Hs. by apply putAttempt_ok.
  - intros s t. apply putAttempt_resources.
  - intros s. by rewrite putAttempt_routes.
  - intros s Hs. by apply deleteCondition_ok.
  - intros s r [_ Hr]%elem_of_filter. done.
  - intros s Hs. by apply putCondition_ok.
Qed.

Lemma keeps_wf_modify (f : store -> store) :
  (forall s, store_ok s -> store_ok (f s)) -> (forall s, tasks (f s) = tasks s /\ routes (f s) = routes s) ->
  keeps store_wf (modify f).
Proof. intros Hok Hf. by apply keeps_wf_history. Qed.

Lemma writeHistory_wf m : keeps store_wf (writeHistory m).
Proof.
  unfold writeHistory.
  repeat (apply keeps_bind; [|intros _]); apply keeps_each; intros x _.
  - apply keeps_wf_modify; [|done]. intros s Hs. apply set_receipts_ok; [done|]. apply map_Forall_delete, Hs.
  - apply keeps_wf_history; [intros s; apply putReceipt_ok|intros s; apply putReceipt_frame].
  - apply keeps_wf_modify; [|done]. intros s. apply set_admissions_ok.
  - apply keeps_wf_modify; [|done]. intros s. apply set_admissions_ok.
  - apply keeps_wf_history; [intros s; apply putCancellation_ok|intros s; apply putCancellation_frame].
  - apply keeps_wf_history; [intros s; apply putControl_ok|intros s; apply putControl_frame].
Qed.

Lemma deleteTask_wf t : keeps store_wf (modify (deleteTask t)).
Proof.
  apply keeps_modify. intros s [Hok Hd]. split; [by apply deleteTask_ok|].
  intros x c Hr. apply (fresh_except_delete [] t s); [|exact Hr|done].
  intros x' c' Hr' _. by apply Hd.
Qed.

Lemma applyMutation_wf now m : keeps store_wf (applyMutation now m).
Proof.
  unfold applyMutation. apply keeps_bind; [|intros _].
  { apply keeps_each. intros t _.
    apply keeps_wf_history; [intros s; apply reopenTask_ok|intros s; apply reopenTask_frame]. }
  apply keeps_bind; [|intros _]. { apply keeps_each. intros t _. apply deleteTask_wf. }
  apply keeps_bind; [|intros _].
  { apply (write_then_refresh (writeTask now) w_resource); [apply writeTask_writes|].
    apply writeAttemptsAndConditions_mid. }
  apply keeps_bind; [|intros _].
  { apply keeps_each. intros c _. apply keeps_wf_modify; [intros s; apply pruneCondition_ok|].
    intros s. apply pruneCondition_frame. }
  apply keeps_bind; [apply writeHistory_wf|intros _].
  apply keeps_bind; [|intros _; apply keeps_ret].
  apply keeps_wf_modify; [apply bumpRevision_ok|done].
Qed.

Lemma commitBody_wf now m : keeps store_wf (commitBody now m).
Proof.
  intros s b s' Hs. unfold commitBody. destruct (admissible s m) as [[]|e]; [|intros [= _ <-]; done|done].
  by apply applyMutation_wf.
Qed.

Lemma commit_wf now m s : store_wf s -> store_wf (snd (commit now m s)).
Proof.
  intros Hs. unfold commit.
  destruct (mu_fences m), (mu_expectMissingTaskIds m); try exact Hs;
    (apply keeps_atomically; [apply commitBody_wf|done]).
Qed.

(** ** Bootstrap *)

Lemma seedTask_writes now tree ready r : writes_row (seedTask now tree ready) (fun r => r) r.
Proof.
  pose proof (writeTask_writes now (mkWrite r (obj_get (md_id (metadata r)) (TaskTree.taskTriggers tree))
    (set_has (md_id (metadata r)) ready) None)) as H. exact H.
Qed.

Lemma seedAttempt_mid ws a : keeps (mid ws) (seedAttempt a).
Proof.
  apply keeps_snd. intros s Hs. unfold seedAttempt. case_cond; [done|].
  assert (mid ws (set_attempts (<[att_id a := attemptRow a]> (attempts s)) s)) as Ha.
  { apply (mid_frame ws (set_attempts _)); [|done..]. apply set_attempts_ok; [apply Hs|].
    apply map_Forall_insert_2; [done|apply Hs]. }
  case_cond; [|done]. case_cond; [|done]. simpl.
  apply (mid_frame ws (fun s' => set_tasks (alter (set_lease (epoch (lease_expiresAt <$> att_lease a)))
    (att_taskId a) (tasks s)) s')); [|intros t; by apply alter_row_resource|done|done].
  apply set_tasks_ok; [apply Ha| |intros t; by apply alter_row_resource].
  apply alter_rows_ok; [|apply Hs]. intros k row. apply set_lease_ok.
Qed.

Lemma seedCondition_mid ws c : keeps (mid ws) (seedCondition c).
Proof.
  apply keeps_snd. intros s Hs. unfold seedCondition. case_cond; [done|]. simpl.
  apply (mid_frame ws (putCondition c)); [apply putCondition_ok, Hs|done|done|done].
Qed.

Lemma clearTables_wf s : store_wf s -> store_wf (clearTables s).
Proof.
  intros [[] _]. split; [|intros t c Hr; simpl in Hr; set_solver].
  constructor; simpl; try done; try apply map_Forall_empty.
  - intros t k [v Hv]. by rewrite lookup_empty in Hv.
  - intros r. split; [set_solver|]. intros (row & Hrow & _). by rewrite lookup_empty in Hrow.
Qed.

Lemma putEventNumber_wf t a n s : store_wf s -> store_wf (putEventNumber t a n s).
Proof.
  intros Hs. unfold putEventNumber. destruct n as [z|]; [|done].
  destruct (tasks s !! t) as [row|] eqn:Et; [|done]. destruct (events s !! _); [done|].
  apply (wf_frame (set_events _)); try done. destruct Hs as [[] _]. constructor; simpl; try done.
  intros t' k. destruct (decide ((t, "event:" +:+ show_Z z) = (t', k))) as [[= <- <-]|Hne]; [by rewrite Et|].
  rewrite lookup_insert_ne by done. apply ok_events0.
Qed.

Lemma backfill_wf s : store_wf s -> store_wf (backfillTaskEventReceipts s).
Proof.
  intros Hs. unfold backfillTaskEventReceipts.
  apply fold_left_inv; [|apply fold_left_inv; [|done]]; intros s' a _ Hs';
    (apply fold_left_inv; [|done]; intros; by apply putEventNumber_wf).
Qed.

Lemma bootstrapBody_wf now nowText src tree ready : keeps store_wf (bootstrapBody now nowText src tree ready).
Proof.
  unfold bootstrapBody. apply keeps_bind; [apply keeps_modify, clearTables_wf|intros _].
  apply keeps_bind; [|intros _].
  { apply keeps_each. intros c _.
    apply keeps_wf_history; [intros s; apply putCancellation_ok|intros s; apply putCancellation_frame]. }
  apply keeps_bind; [|intros _].
  { unfold seedTasks. apply (write_then_refresh (seedTask now tree ready) (fun r => r)).
    - apply seedTask_writes.
    - apply keeps_bind; [|intros _]; apply keeps_each; intros x _; [apply seedAttempt_mid|apply seedCondition_mid]. }
  apply keeps_bind; [|intros _].
  { apply keeps_each. intros r _. apply keeps_wf_history; intros s; unfold seedReceipt; case_cond; try done.
    - apply putReceipt_ok.
    - apply putReceipt_frame. }
  apply keeps_bind; [|intros _].
  { apply keeps_each. intros g _. apply keeps_wf_modify; [|done]. intros s. apply set_groups_ok. }
  apply keeps_bind; [|intros _].
  { apply keeps_each. intros a _. apply keeps_wf_modify; [|done]. intros s. apply set_admissions_ok. }
  apply keeps_modify. intros s Hs. apply (wf_frame bumpRevision); try done.
  - apply bumpRevision_ok, set_meta_ok, backfill_wf, Hs.
  - apply (wf_frame (set_meta _ _ _ _)); try done; [apply set_meta_ok|]; apply backfill_wf, Hs.
Qed.

(** ** Recovery updates *)

Lemma set_tasks_wf s ts :
  store_wf s -> map_Forall row_ok ts ->
  (forall t, row_resource <$> ts !! t = row_resource <$> tasks s !! t) -> store_wf (set_tasks ts s).
Proof.
  intros Hs Hrows Hsame. apply (wf_frame (set_tasks ts)); [|done|done|done].
  apply set_tasks_ok; [apply Hs|done|done].
Qed.

Lemma setRecoveryState_wf now t input s : store_wf s -> store_wf (snd (setRecoveryState now t input s)).
Proof.
  intros Hs. unfold setRecoveryState. apply keeps_atomically; [|done].
  apply keeps_snd. clear s Hs. intros s Hs. cbv zeta.
  match goal with |- context [ri_ready ?x] => generalize x; intros i end.
  destruct (tasks s !! t) as [row|] eqn:Et; [|by destruct (ri_ready i), (ri_changed i), (ri_nextCheckAt i)].
  assert (forall a b c, store_wf (set_tasks (<[t := set_recovery a b c row]> (tasks s)) s)) as Hset.
  { intros a b c. apply set_tasks_wf; [done| |].
    - apply map_Forall_insert_2; [|apply Hs]. apply set_recovery_ok. by apply Hs.
    - intros x. destruct (decide (t = x)) as [->|Hne]; [by rewrite lookup_insert_eq, Et|].
      by rewrite lookup_insert_ne. }
  destruct (ri_ready i), (ri_changed i), (ri_nextCheckAt i); try done; cbv iota; case_cond; try done; apply Hset.
Qed.

Lemma repair_wf now s : store_wf s -> store_wf (snd (repairWaitingConditionRecovery now s)).
Proof.
  intros Hs. simpl. apply set_tasks_wf; [done| |].
  - intros k row. rewrite map_lookup_imap. destruct (tasks s !! k) as [row0|] eqn:E; simpl; [|done].
    intros [= <-]. assert (row_ok k row0) by (by apply Hs). case_cond; [by apply set_recovery_ok|done].
  - intros t. rewrite map_lookup_imap. destruct (tasks s !! t); simpl; [|done]. by case_cond.
Qed.

Lemma meta_wf s md : store_wf s -> store_wf (bumpRevision (set_metadata md s)).
Proof.
  intros Hs. apply (wf_frame bumpRevision); try done.
  - apply bumpRevision_ok, set_meta_ok, Hs.
  - apply (wf_frame (set_metadata md)); try done. apply set_meta_ok, Hs.
Qed.

(** ** Reachable stores *)

(** The operations that write Task state. *)
Inductive store_op : Type :=
| Bootstrap (now : Z) (nowText sourceRevision : string) (tree : TaskTree.TaskTree) (ready : list string)
| Commit (now : Z) (m : AppTaskResourceMutation)
| Replace (now expectedResourceVersion : Z) (w : TaskResourceWrite)
| SetRecovery (now : Z) (taskId : string) (input : RecoveryInput)
| Repair (now : Z)
| SetLifecycle (l : Lifecycle)
| SetMaxConcurrent (n : number).

Definition run_store_op (s : store) (o : store_op) : store :=
  match o with
  | Bootstrap now nowText src tree ready => snd (bootstrapSnapshot now nowText src tree ready s)
  | Commit now m => snd (commit now m s)
  | Replace now v w => snd (replaceTask now v w s)
  | SetRecovery now t input => snd (setRecoveryState now t input s)
  | Repair now => snd (repairWaitingConditionRecovery now s)
  | SetLifecycle l => snd (setProjectLifecycle l s)
  | SetMaxConcurrent n => snd (setConfiguredMaxConcurrent n s)
  end.

Lemma lifecycle_wf l s : store_wf s -> store_wf (snd (setProjectLifecycle l s)).
Proof.
  intros Hs. unfold setProjectLifecycle. apply keeps_atomically; [|done]. apply keeps_snd. intros y Hy.
  case_cond; [done|]. case_cond; [|done]. by apply meta_wf.
Qed.

Lemma maxConcurrent_wf n s : store_wf s -> store_wf (snd (setConfiguredMaxConcurrent n s)).
Proof.
  intros Hs. unfold setConfiguredMaxConcurrent. case_cond; [done|].
  apply keeps_atomically; [|done]. apply keeps_snd. intros y Hy.
  case_cond; [done|]. case_cond; [|done]. repeat case_cond; try done; by apply meta_wf.
Qed.

Lemma bootstrap_wf now nowText src tree ready s :
  store_wf s -> store_wf (snd (bootstrapSnapshot now nowText src tree ready s)).
Proof.
  intros Hs. unfold bootstrapSnapshot. cbv zeta. case_cond; [done|].
  apply keeps_atomically; [|done]. intros y b y' Hy. case_cond; [done|]. by apply bootstrapBody_wf.
Qed.

Lemma run_store_op_wf s o : store_wf s -> store_wf (run_store_op s o).
Proof.
  destruct o; simpl; auto using bootstrap_wf, commit_wf, setRecoveryState_wf, lifecycle_wf, maxConcurrent_wf.
  - intros Hs. by apply commit_wf.
  - apply repair_wf.
Qed.

Lemma emptyStore_wf app foreign human : store_wf (emptyStore app foreign human).
Proof.
  split; [|intros t c Hr; simpl in Hr; set_solver].
  constructor; simpl; try apply map_Forall_empty.
  - intros t k [v Hv]. by rewrite lookup_empty in Hv.
  - intros r. split; [set_solver|]. intros (row & Hrow & _). by rewrite lookup_empty in Hrow.
  - intros t c Hr. set_solver.
Qed.

(** ** Properties *)

(** C8.  Whatever sequence of bootstraps, commits, replacements, recovery
    updates, repairs and configuration changes runs on a new App's store, its
    tables stay consistent: indexed columns repeat the stored Task record,
    events, relations and routes belong to existing Tasks, the relation table
    holds exactly the links the current records declare, routes lead only to
    existing Conditions that the Task still names, and every record is filed
    under its own id in its own App. *)
Theorem store_tables_consistent app foreign human ops :
  store_wf (fold_left run_store_op ops (emptyStore app foreign human)).
Proof.
  apply (fold_left_inv store_wf).
  - intros s o _. apply run_store_op_wf.
  - apply emptyStore_wf.
Qed.

End StoreInvariant.
