(* ===== verification/StoreCommit.v ===== *)
(** What a commit to the Task resource store does: fences, atomicity, lost
    updates, immutable creators and closures, and delivery receipts. *)
From S2P Require Import Prelude Json TaskState TaskTree Transaction ResourceStore StoreInvariant.

Module StoreCommit.
Import StateTransaction ResourceStore StoreInvariant.

(** ** What a commit changes *)

Lemma reopen_keeps_tasks m l ts : keeps (fun x => tasks x = ts) (each (reopenTask m) l).
Proof. apply keeps_each. intros x _. apply keeps_snd. intros y <-. apply reopenTask_frame. Qed.

Lemma deletes_tasks l s t :
  tasks (fold_left (fun s a => deleteTask a s) l s) !! t = if set_has t l then None else tasks s !! t.
Proof.
  revert s. induction l as [|x l IH]; intros y; simpl; [done|]. rewrite IH. unfold set_has. simpl.
  destruct (decide (x = t)) as [->|Hne].
  - rewrite lookup_delete_eq, (bool_decide_eq_true_2 (t ∈ t :: l)) by set_solver. by case_bool_decide.
  - rewrite lookup_delete_ne by done.
    by rewrite (bool_decide_ext (t ∈ x :: l) (t ∈ l)) by set_solver.
Qed.

Lemma middle_keeps_resources m (g : string -> option AppTaskResource) :
  keeps (fun x => forall z, row_resource <$> tasks x !! z = g z) (writeAttemptsAndConditions m).
Proof.
  unfold writeAttemptsAndConditions.
  repeat (apply keeps_bind; [|intros _]); apply keeps_each; intros x _; apply keeps_modify; try done.
  intros y Hy z. by rewrite putAttempt_resources.
Qed.

Lemma history_keeps_tasks m ts : keeps (fun x => tasks x = ts) (writeHistory m).
Proof.
  unfold writeHistory.
  repeat (apply keeps_bind; [|intros _]); apply keeps_each; intros x _; apply keeps_snd; intros y <-;
    try done; [apply putReceipt_frame|apply putCancellation_frame|apply putControl_frame].
Qed.

Lemma prune_keeps_tasks l ts : keeps (fun x => tasks x = ts) (each (fun c => modify (pruneCondition c)) l).
Proof. apply keeps_each. intros c _. apply keeps_modify. intros y <-. apply pruneCondition_frame. Qed.

(** The records after the writes of a mutation. *)
Lemma writeTasks_resources now m s s' t :
  writeTasks now m s = (Ok tt, s') ->
  readTask s' t = match lastWrite (map w_resource (mu_tasks m)) t with
                  | Some r => Some r
                  | None => readTask s t
                  end.
Proof.
  intros ([] & a1 & A1 & H)%bind_Ok. apply bind_Ok in H as ([] & a2 & A2 & H).
  rewrite each_modify, map_map_resource in H. injection H as <-.
  destruct (each_writes (writeTask now) w_resource (mu_tasks m) s tt a1) as [_ E];
    [intros; apply writeTask_writes|done|].
  unfold readTask. rewrite putTaskConditionRoutes_tasks.
  by rewrite (middle_keeps_resources m _ a1 tt a2 (fun _ => eq_refl) A2 t), E.
Qed.

(** The record a mutation leaves under an id. *)
Lemma applyMutation_resources now m s b s' t :
  applyMutation now m s = (Ok b, s') ->
  readTask s' t =
  match lastWrite (map w_resource (mu_tasks m)) t with
  | Some r => Some r
  | None => if set_has t (mu_deleteTaskIds m) then None else readTask s t
  end.
Proof.
  unfold applyMutation. intros ([] & s1 & H1 & H)%bind_Ok.
  apply bind_Ok in H as ([] & s2 & H2 & H). apply bind_Ok in H as ([] & s3 & H3 & H).
  apply bind_Ok in H as ([] & s4 & H4 & H). apply bind_Ok in H as ([] & s5 & H5 & H).
  injection H as _ <-.
  pose proof (reopen_keeps_tasks m _ _ s tt s1 eq_refl H1) as E1.
  rewrite each_modify in H2. injection H2 as <-.
  pose proof (writeTasks_resources now m _ s3 t H3) as E3.
  pose proof (prune_keeps_tasks _ _ s3 tt s4 eq_refl H4) as E4.
  pose proof (history_keeps_tasks m _ s4 tt s5 eq_refl H5) as E5.
  unfold readTask in *. simpl. rewrite E5, E4, E3, deletes_tasks, E1.
  destruct (lastWrite _ t); [done|]. unfold set_has.
  rewrite (bool_decide_ext _ (t ∈ mu_deleteTaskIds m)) by apply elem_of_set_of. by case_bool_decide.
Qed.

(** ** Frames over all the statements of a mutation *)

(** A predicate every statement of a mutation keeps, but for the reopenings and
    Task deletions, which are given separately. *)
Record framed (P : store -> Prop) : Prop := mkFramed {
  fr_putTask : forall now r tr ready nc, keeps P (putTask now r tr ready nc);
  fr_events : forall id tr s, P s -> P (putEvents id tr s);
  fr_attempts : forall x s, P s -> P (set_attempts x s);
  fr_putAttempt : forall a s, P s -> P (putAttempt a s);
  fr_deleteCondition : forall c s, P s -> P (deleteCondition c s);
  fr_putCondition : forall c s, P s -> P (putCondition c s);
  fr_routes : forall r s, P s -> P (putTaskConditionRoutes r s);
  fr_prune : forall c s, P s -> P (pruneCondition c s);
  fr_receipts : forall x s, P s -> P (set_receipts x s);
  fr_putReceipt : forall r, keeps P (putReceipt r);
  fr_admissions : forall x s, P s -> P (set_admissions x s);
  fr_putCancellation : forall c, keeps P (putCancellation c);
  fr_putControl : forall c, keeps P (putControl c) }.

Lemma framed_writeTasks P now m : framed P -> keeps P (writeTasks now m).
Proof.
  intros []. unfold writeTasks, writeAttemptsAndConditions, writeTask.
  repeat (apply keeps_bind; [|intros _]);
    apply keeps_each; intros x _; try (apply keeps_modify; auto).
  apply keeps_bind; [auto|]. intros _. apply keeps_modify. auto.
Qed.

(** The statements of [writeTasks] after the Task rows. *)
Lemma keeps_after_writes {P m} :
  framed P -> keeps P (bind (writeAttemptsAndConditions m) (fun _ =>
    each (fun w => modify (putTaskConditionRoutes (w_resource w))) (mu_tasks m))).
Proof.
  intros []. unfold writeAttemptsAndConditions.
  repeat (apply keeps_bind; [|intros _]); apply keeps_each; intros x _; apply keeps_modify; auto.
Qed.

Lemma framed_writeHistory P m : framed P -> keeps P (writeHistory m).
Proof.
  intros []. unfold writeHistory.
  repeat (apply keeps_bind; [|intros _]); apply keeps_each; intros x _; auto; apply keeps_modify; auto.
Qed.

Lemma framed_prune P l : framed P -> keeps P (each (fun c => modify (pruneCondition c)) l).
Proof. intros []. apply keeps_each. intros c _. apply keeps_modify. auto. Qed.

(** The statements after the reopenings and deletions, but for the revision. *)
Lemma applyMutation_framed P now m s b s' :
  framed P -> applyMutation now m s = (Ok b, s') ->
  exists s1 s2 s5,
    each (reopenTask m) (set_of (mu_reopenTaskIds m)) s = (Ok tt, s1) /\
    s2 = fold_left (fun s a => deleteTask a s) (set_of (mu_deleteTaskIds m)) s1 /\
    (P s2 -> P s5) /\ s' = bumpRevision s5 /\ b = true.
Proof.
  intros HP. unfold applyMutation. intros ([] & s1 & H1 & H)%bind_Ok.
  apply bind_Ok in H as ([] & s2 & H2 & H). apply bind_Ok in H as ([] & s3 & H3 & H).
  apply bind_Ok in H as ([] & s4 & H4 & H). apply bind_Ok in H as ([] & s5 & H5 & H).
  injection H as <- <-. rewrite each_modify in H2. injection H2 as <-.
  eexists s1, _, s5. split_ands; try done. intros Hp.
  eapply framed_writeHistory; [done| |exact H5]. eapply framed_prune; [done| |exact H4].
  by eapply framed_writeTasks.
Qed.

(** Tables the Task writes do not touch. *)
Lemma putEvents_frame {X} (g : store -> X) id tr s :
  (forall ev s, g (set_events ev s) = g s) -> g (putEvents id tr s) = g s.
Proof.
  intros Hg. unfold putEvents. apply (fold_left_inv (fun s' => g s' = g s)); [|done].
  intros s' e _ <-. repeat case_cond; auto.
Qed.

Ltac frame_solve :=
  intros; unfold putAttempt, pruneCondition, putReceipt, putControl, putCancellation, putTask,
    indexTaskReference, bind in *; simpl in *; repeat case_cond; simpl in *; try done.

Lemma framed_revision n : framed (fun x => m_revision x = n).
Proof.
  constructor; try (intros; apply keeps_snd; by frame_solve); try (by frame_solve).
  intros. by rewrite (putEvents_frame m_revision).
Qed.

(** A recorded closure survives every statement but its own reopening. *)
Lemma framed_closure t c : framed (fun x => cancellations x !! t = Some c).
Proof.
  constructor; try (intros; apply keeps_snd; by frame_solve); try (by frame_solve).
  - intros. by rewrite (putEvents_frame cancellations).
  - intros d. apply keeps_snd. intros s Hs. unfold putCancellation. case_cond; [done|].
    case_cond; [done|]. simpl. rewrite lookup_insert_ne; [done|]. congruence.
Qed.

(** A delivery receipt survives every statement but the deletion of its Task. *)
Lemma framed_event t k : framed (fun x => is_Some (events x !! (t, k))).
Proof.
  constructor; try (intros; apply keeps_snd; by frame_solve); try (by frame_solve).
  intros id tr s Hs. unfold putEvents.
  apply (fold_left_inv (fun x => is_Some (events x !! (t, k)))); [|done].
  intros s' e _ H. repeat case_cond; try done. simpl.
  destruct (decide ((id, s0) = (t, k))) as [->|Hne]; [by rewrite lookup_insert_eq|].
  by rewrite lookup_insert_ne.
Qed.

(** A control receipt, once archived, stays. *)
Lemma framed_control k c : framed (fun x => controls x !! k = Some c).
Proof.
  constructor; try (intros; apply keeps_snd; by frame_solve); try (by frame_solve).
  - intros. by rewrite (putEvents_frame controls).
  - intros d. apply keeps_snd. intros s Hs. unfold putControl. case_cond; [done|].
    case_cond; [done|]. simpl. rewrite lookup_insert_ne; [done|]. intros <-.
    apply orb_false_iff in Heqb0 as [Hn _]. apply bool_decide_eq_false_1 in Hn.
    apply Hn. by exists c.
Qed.

Lemma deletes_frame {X} (g : store -> X) l s :
  (forall t s, g (deleteTask t s) = g s) -> g (fold_left (fun s a => deleteTask a s) l s) = g s.
Proof. intros Hg. apply (fold_left_inv (fun x => g x = g s)); [|done]. intros s' a _ <-. apply Hg. Qed.

Lemma reopen_keeps {X} (g : store -> X) m l v :
  (forall x s, g (set_cancellations x s) = g s) -> keeps (fun x => g x = v) (each (reopenTask m) l).
Proof.
  intros Hg. apply keeps_each. intros t _. apply keeps_snd. intros s <-.
  unfold reopenTask. repeat case_cond; simpl; auto.
Qed.

(** Reopening other Tasks leaves a closure. *)
Lemma reopen_keeps_closure m l t c :
  t ∉ l -> keeps (fun x => cancellations x !! t = Some c) (each (reopenTask m) l).
Proof.
  intros Hl. apply keeps_each. intros x Hx. apply keeps_snd. intros s Hs.
  unfold reopenTask. repeat case_cond; simpl; try done.
  rewrite lookup_delete_ne; [done|]. set_solver.
Qed.

(** ** Admission *)

Lemma commit_cases now m s r s' :
  commit now m s = (r, s') ->
  (r = Ok true /\ admissible s m = Ok true /\ applyMutation now m s = (Ok true, s')) \/
  (r <> Ok true /\ s' = s).
Proof.
  unfold commit, atomically, commitBody.
  destruct (mu_fences m) as [|f fs] eqn:Ef, (mu_expectMissingTaskIds m) as [|e es] eqn:Ee;
    [intros [= <- <-]; by right|..];
    (destruct (admissible s m) as [[]|msg]; [|intros [= <- <-]; by right..];
     destruct (applyMutation now m s) as [[b|msg] s1] eqn:E; [|intros [= <- <-]; by right];
     intros [= <- <-]; left;
     destruct (applyMutation_framed _ now m s b s1 (framed_revision 0) E) as (? & ? & ? & _ & _ & _ & _ & ->);
     done).
Qed.

Lemma admissible_fences s m : admissible s m = Ok true -> forallb (fenceHolds s) (mu_fences m) = true.
Proof.
  unfold admissible. case_cond; [done|]. destruct (forallb _ _); [done|]. done.
Qed.

Lemma admissible_writes s m : admissible s m = Ok true -> checkWrites s m (mu_tasks m) = Ok true.
Proof. unfold admissible. repeat (case_cond; [done|]). done. Qed.

Lemma checkWrites_creator s m ws w p :
  checkWrites s m ws = Ok true -> w ∈ ws -> readTask s (w_id w) = Some p ->
  md_creator (metadata p) = md_creator (metadata (w_resource w)).
Proof.
  induction ws as [|x ws IH]; [set_solver|]. simpl. intros H [->|Hw]%elem_of_cons Hp.
  - unfold w_id in Hp. rewrite Hp in H. case_bool_decide; [done|]. by simpl in H.
  - case_cond_in H; [done|]. case_cond_in H; [done|]. by apply IH.
Qed.

Lemma reopenTask_Ok m t s s' :
  reopenTask m t s = (Ok tt, s') ->
  exists c w f ctl, readCancellation s t = Some c /\
    w ∈ mu_tasks m /\ w_id w = t /\ md_generation (metadata (w_resource w)) = can_generation c + 1 /\
    f ∈ mu_fences m /\ fence_taskId f = t /\ fence_resourceVersion f = can_resourceVersion c /\
    ctl ∈ mu_controlReceipts m /\ ctl_taskId ctl = t /\ ctl_action ctl = act_reopen /\
    (exists c', (ctl_result ctl ≫= cres_closure) = Some c' /\ cancellation_eqb c' c = true).
Proof.
  unfold reopenTask. destruct (readCancellation s t) as [c|]; [|done].
  destruct (list_find _ (mu_controlReceipts m)) as [[i ctl]|] eqn:Ec; [|done].
  destruct (list_find _ (mu_tasks m)) as [[j w]|] eqn:Ew; [|done].
  apply list_find_Some in Ec as (Hc & [Hct Hca] & _). apply list_find_Some in Ew as (Hw & Hwt & _).
  destruct (ctl_result ctl ≫= cres_closure) as [c'|] eqn:Er; [|done].
  case_cond; [|done]. intros _. reflect_bools.
  match goal with H : existsb _ _ = true |- _ =>
    apply existsb_exists in H as (f & Hf%list_elem_of_In & ?) end. reflect_bools.
  exists c, w, f, ctl. split_ands; try done; [by eapply list_elem_of_lookup_2..|]. eauto.
Qed.

(** ** Receipts of written events *)

Lemma putEvents_receipt id tr e k s :
  e ∈ triggerEvents tr -> eventKey (te_event e) = Some k ->
  is_Some (events (putEvents id (Some tr) s) !! (id, k)).
Proof.
  intros He Hk. unfold putEvents.
  destruct (list_elem_of_split _ _ He) as (l1 & l2 & ->). rewrite fold_left_app. simpl.
  set (s1 := fold_left _ l1 s). rewrite Hk.
  apply (fold_left_inv (fun x => is_Some (events x !! (id, k)))).
  - intros s' e' _ H. repeat case_cond; try done. simpl.
    match goal with |- is_Some (<[(id, ?k') := _]> _ !! _) =>
      destruct (decide ((id, k') = (id, k))) as [->|Hne] end;
      [by rewrite lookup_insert_eq|by rewrite lookup_insert_ne].
  - case_cond; [done|]. simpl. by rewrite lookup_insert_eq.
Qed.

Lemma writes_receipt now l w tr e k s s' :
  w ∈ l -> w_trigger w = Some tr -> e ∈ triggerEvents tr -> eventKey (te_event e) = Some k ->
  each (writeTask now) l s = (Ok tt, s') -> is_Some (events s' !! (w_id w, k)).
Proof.
  intros Hw Htr He Hk. revert s. induction l as [|x l IH]; intros s; [set_solver|]. simpl.
  intros ([] & s1 & H1 & H)%bind_Ok. apply elem_of_cons in Hw as [<-|Hw]; [|eauto].
  eapply (keeps_each (fun y => is_Some (events y !! (w_id w, k)))); [| |exact H].
  - intros y _. unfold writeTask. apply keeps_bind; [apply (framed_event (w_id w) k)|].
    intros _. apply keeps_modify. apply (framed_event (w_id w) k).
  - apply bind_Ok in H1 as ([] & s0 & _ & [= <-]). rewrite Htr. by eapply putEvents_receipt.
Qed.

(** ** Reopenings and control receipts *)

(** What a reopening in [m] of the closure [c] of [t] carries. *)
Definition reopens (m : AppTaskResourceMutation) (t : string) (c : AppTaskCancellation)
    (ctl : AppTaskControlReceipt) : Prop :=
  (exists w, w ∈ mu_tasks m /\ w_id w = t /\
     md_generation (metadata (w_resource w)) = can_generation c + 1) /\
  (exists f, f ∈ mu_fences m /\ fence_taskId f = t /\ fence_resourceVersion f = can_resourceVersion c) /\
  ctl_taskId ctl = t /\ ctl_action ctl = act_reopen /\
  (exists c', (ctl_result ctl ≫= cres_closure) = Some c' /\ cancellation_eqb c' c = true).

Lemma each_reopens m l s s' t c :
  each (reopenTask m) l s = (Ok tt, s') -> t ∈ l -> cancellations s !! t = Some c ->
  exists ctl, ctl ∈ mu_controlReceipts m /\ reopens m t (cw_cancellation c) ctl.
Proof.
  revert s. induction l as [|x l IH]; intros s; [set_solver|]. simpl.
  intros ([] & s1 & H1 & H)%bind_Ok Ht Hc.
  destruct (decide (x = t)) as [->|Hne].
  - apply reopenTask_Ok in H1 as (c1 & w & f & ctl & Hr & H1). unfold readCancellation in Hr.
    rewrite Hc in Hr. injection Hr as <-. exists ctl. unfold reopens. split; [tauto|].
    split_ands; try tauto; [exists w; tauto|exists f; tauto].
  - apply (IH s1); [done|set_solver|].
    eapply (reopen_keeps_closure m [x] t c); [set_solver|exact Hc|]. simpl. unfold bind. by rewrite H1.
Qed.

Lemma each_putControl l ctl s s' :
  each putControl l s = (Ok tt, s') -> ctl ∈ l -> controls s' !! ctl_controlKey ctl = Some ctl.
Proof.
  revert s. induction l as [|x l IH]; intros s; [set_solver|]. simpl.
  intros ([] & s1 & H1 & H)%bind_Ok [->|Hin]%elem_of_cons; [|eauto].
  eapply (keeps_each (fun y => controls y !! ctl_controlKey x = Some x)); [| |exact H].
  - intros y _. apply (framed_control (ctl_controlKey x) x).
  - unfold putControl in H1. case_cond_in H1; [done|]. case_cond_in H1; [done|].
    injection H1 as <-. simpl. by rewrite lookup_insert_eq.
Qed.

Lemma applyMutation_controls now m s b s' ctl :
  applyMutation now m s = (Ok b, s') -> ctl ∈ mu_controlReceipts m ->
  controls s' !! ctl_controlKey ctl = Some ctl.
Proof.
  unfold applyMutation. intros ([] & s1 & _ & H)%bind_Ok Hin.
  do 3 apply bind_Ok in H as ([] & ? & _ & H). apply bind_Ok in H as ([] & s5 & H5 & [= _ <-]).
  unfold writeHistory in H5. do 5 apply bind_Ok in H5 as ([] & ? & _ & H5).
  simpl. by eapply each_putControl.
Qed.

(** ** Properties *)

(** C4.  A commit is fenced and atomic.  It returns [true] only when every fence
    names an existing Task at exactly the fenced version (and generation and
    current attempt, where given); then the store's revision advances by one and
    each Task holds its last write, is gone if deleted, and is otherwise
    unchanged.  On any other outcome, [false] or an exception, the store is
    unchanged. *)
Theorem commit_all_or_nothing now m s r s' :
  commit now m s = (r, s') ->
  (r = Ok true /\ forallb (fenceHolds s) (mu_fences m) = true /\ m_revision s' = m_revision s + 1 /\
   forall t, readTask s' t =
     match lastWrite (map w_resource (mu_tasks m)) t with
     | Some x => Some x
     | None => if set_has t (mu_deleteTaskIds m) then None else readTask s t
     end) \/
  (r <> Ok true /\ s' = s).
Proof.
  intros [(-> & Ha & Hm)|H]%commit_cases; [left|by right]. split_ands; [done|by apply admissible_fences| |].
  - destruct (applyMutation_framed _ now m s true s' (framed_revision (m_revision s)) Hm)
      as (s1 & s2 & s5 & H1 & -> & Hp & -> & _). simpl. rewrite Hp; [done|].
    rewrite (deletes_frame m_revision) by done.
    by apply (reopen_keeps m_revision m (set_of (mu_reopenTaskIds m)) (m_revision s) (fun _ _ => eq_refl) s tt s1).
  - intros t. by eapply applyMutation_resources.
Qed.

(** C5.  No lost update: once a commit has written a Task at a new resource
    version, any later mutation fenced on another version of that Task is
    rejected with [false] and changes nothing. *)
Theorem stale_writer_rejected now now' m1 m2 s s1 t r f :
  store_wf s -> commit now m1 s = (Ok true, s1) ->
  lastWrite (map w_resource (mu_tasks m1)) t = Some r ->
  f ∈ mu_fences m2 -> fence_taskId f = t -> fence_resourceVersion f <> md_resourceVersion (metadata r) ->
  commit now' m2 s1 = (Ok false, s1).
Proof.
  intros Hwf Hc Hl Hf Hft Hv.
  assert (store_wf s1) as [[Hrows _ _ _ _ _ _ _ _] _] by (pose proof (commit_wf now m1 s Hwf) as H; by rewrite Hc in H).
  destruct (commit_cases _ _ _ _ _ Hc) as [(_ & _ & Hm)|[? _]]; [|done].
  pose proof (applyMutation_resources now m1 s true s1 t Hm) as Hr. rewrite Hl in Hr.
  assert (forallb (fenceHolds s1) (mu_fences m2) = false) as Hno.
  { apply not_true_is_false. intros Hall. rewrite forallb_forall in Hall.
    specialize (Hall f (proj1 (list_elem_of_In _ _) Hf)). unfold fenceHolds in Hall. rewrite Hft in Hall.
    unfold readTask in Hr. destruct (tasks s1 !! t) as [row|] eqn:Et; [|done]. injection Hr as <-.
    apply Hrows in Et as [_ _ Hver _ _ _ _]. rewrite Hver in Hall. reflect_bools. congruence. }
  assert (admissible s1 m2 = Ok false) as Ha by (unfold admissible; rewrite Hno; by case_cond).
  unfold commit, atomically, commitBody. rewrite Ha.
  destruct (mu_fences m2); [set_solver|]. by destruct (mu_expectMissingTaskIds m2).
Qed.

(** The creator of a Task never changes: a Task present before and after a
    commit has the same creator. *)
Theorem creator_immutable now m s s' t p p' :
  commit now m s = (Ok true, s') -> readTask s t = Some p -> readTask s' t = Some p' ->
  md_creator (metadata p') = md_creator (metadata p).
Proof.
  intros Hc Hp Hp'. destruct (commit_cases _ _ _ _ _ Hc) as [(_ & Ha & Hm)|[? _]]; [|done].
  rewrite (applyMutation_resources now m s true s' t Hm) in Hp'.
  destruct (lastWrite _ t) as [r|] eqn:El.
  - injection Hp' as <-. apply lastWrite_id in El as [Hr Hid].
    apply list_elem_of_fmap in Hr as (w & -> & Hw). symmetry.
    eapply (checkWrites_creator s m _ w); [by apply admissible_writes|done|].
    unfold w_id. by rewrite Hid.
  - destruct (set_has t _); [done|]. congruence.
Qed.

(** Closures are durable: after a commit a closed Task is still closed by
    the same record, unless the commit reopened it.  A reopening writes the
    Task's next generation, is fenced on the version the closure recorded, and
    keeps the exact closure in a control receipt of the resulting store. *)
Theorem closure_is_durable now m s s' t c :
  commit now m s = (Ok true, s') -> cancellations s !! t = Some c ->
  cancellations s' !! t = Some c \/
  (t ∈ mu_reopenTaskIds m /\ exists ctl,
     reopens m t (cw_cancellation c) ctl /\ controls s' !! ctl_controlKey ctl = Some ctl).
Proof.
  intros Hc Ht. destruct (commit_cases _ _ _ _ _ Hc) as [(_ & _ & Hm)|[? _]]; [|done].
  destruct (applyMutation_framed _ now m s true s' (framed_closure t c) Hm)
    as (s1 & s2 & s5 & H1 & -> & Hp & -> & _).
  destruct (decide (t ∈ mu_reopenTaskIds m)) as [Hin|Hnin]; [right; split; [done|]|left].
  - destruct (each_reopens m _ s s1 t c H1) as (ctl & Hctl & Hr); [by apply elem_of_set_of|done|].
    exists ctl. split; [done|]. by eapply applyMutation_controls.
  - apply Hp. rewrite (deletes_frame cancellations) by done.
    eapply reopen_keeps_closure; [|exact Ht|exact H1]. by rewrite elem_of_set_of.
Qed.

(** Delivery is recorded once and for all: an event with a durable id that a
    committed mutation links to a Task is recorded as delivered to it, and a
    recorded delivery survives every later commit that does not delete the Task;
    so a redelivered event can be recognised. *)
Theorem event_receipts_durable now m s s' :
  commit now m s = (Ok true, s') ->
  (forall w tr e, w ∈ mu_tasks m -> w_trigger w = Some tr -> e ∈ triggerEvents tr ->
     is_Some (eventKey (te_event e)) -> hasTaskEvent s' (w_id w) (te_event e) = true) /\
  (forall t ev, hasTaskEvent s t ev = true -> t ∉ mu_deleteTaskIds m -> hasTaskEvent s' t ev = true).
Proof.
  intros Hc. destruct (commit_cases _ _ _ _ _ Hc) as [(_ & _ & Hm)|[? _]]; [|done]. split.
  - intros w tr e Hw Htr He [k Hk]. unfold hasTaskEvent. rewrite Hk.
    assert (is_Some (events s' !! (w_id w, k))) as [v ->]; [|done].
    unfold applyMutation in Hm. do 2 apply bind_Ok in Hm as ([] & ? & _ & Hm).
    apply bind_Ok in Hm as ([] & s3 & H3 & Hm). apply bind_Ok in Hm as ([] & s4 & H4 & Hm).
    apply bind_Ok in Hm as ([] & s5 & H5 & [= <-]). simpl.
    eapply (framed_writeHistory _ m (framed_event (w_id w) k)); [|exact H5].
    eapply (framed_prune _ _ (framed_event (w_id w) k)); [|exact H4].
    unfold writeTasks in H3. apply bind_Ok in H3 as ([] & a1 & A1 & H3).
    eapply (keeps_after_writes (framed_event (w_id w) k)); [|exact H3]. by eapply writes_receipt.
  - intros t ev. unfold hasTaskEvent. destruct (eventKey ev) as [k|]; [|done].
    intros H Hd. destruct (events s !! (t, k)) as [v|] eqn:Ev; [|done].
    assert (is_Some (events s' !! (t, k))) as [v' ->]; [|done].
    destruct (applyMutation_framed _ now m s true s' (framed_event t k) Hm)
      as (s1 & s2 & s5 & H1 & -> & Hp & -> & _). apply Hp.
    apply fold_left_inv.
    + intros y x Hx [z Hz]. exists z. apply map_lookup_filter_Some. split; [done|]. simpl.
      apply (proj1 (elem_of_set_of _ _)) in Hx. intros <-. done.
    + pose proof (reopen_keeps events m _ (events s) (fun _ _ => eq_refl) s tt s1 eq_refl H1) as ->. eauto.
Qed.

(** ** Witnesses *)

Definition demo_task (id : string) (generation version : Z) : AppTaskResource :=
  mkResource (mkMetadata id (Some (mkCreator "demo" None)) generation version None)
    (mkSpec "root" "outcome" ["done"] None None None None None None None None None)
    (mkStatus 0 pending None None None None None None None None None None false None None None None
       None None "2024-02-29T12:34:56.789Z").

Definition demo_event : obj json := [("eventId", JNum (num 7)); ("type", JStr "demo.event")].

Definition demo_trigger (id : string) : AppTaskTrigger :=
  mkTrigger id 1 1 (Some [mkTriggerEvent demo_event "2024-02-29T12:34:56.789Z"]) demo_event
    "2024-02-29T12:34:56.789Z".

Definition demo_mutation (fences : list TaskMutationFence) (missing : list string)
    (ws : list TaskResourceWrite) (cs : list AppTaskCancellation) (reopen : list string)
    (cts : list AppTaskControlReceipt) : AppTaskResourceMutation :=
  mkMutation fences None missing ws [] [] [] [] [] [] [] [] [] [] cs reopen cts.

Definition demo_create : AppTaskResourceMutation :=
  demo_mutation [] ["a"] [mkWrite (demo_task "a" 1 1) (Some (demo_trigger "a")) true None] [] [] [].

Definition demo_update : AppTaskResourceMutation :=
  demo_mutation [mkFence "a" 1 None None] [] [mkWrite (demo_task "a" 1 2) None true None] [] [] [].

Definition demo_closure : AppTaskCancellation :=
  mkCancellation (Some ck_closed) None "demo" "a" 1 1 "outcome" "done" "summary"
    "2024-02-29T12:34:56.789Z" (Some by_human) None None None.

Definition demo_close : AppTaskResourceMutation :=
  demo_mutation [mkFence "a" 1 None None] [] [] [demo_closure] [] [].

Definition demo_reopen : AppTaskResourceMutation :=
  demo_mutation [mkFence "a" 1 None None] [] [mkWrite (demo_task "a" 2 2) None true None] [] ["a"]
    [mkControl "key" "demo" "a" act_reopen 1 1 2 0 (Some (mkControlResult (Some demo_closure) None None))].

Definition demo0 : store := emptyStore "demo" ∅ ∅.
Definition demo1 : store := snd (commit 0 demo_create demo0).
Definition demo2 : store := snd (commit 0 demo_update demo1).
Definition demoClosed : store := snd (commit 0 demo_close demo1).
Definition demoReopened : store := snd (commit 0 demo_reopen demoClosed).

Lemma commit_fst now m s r : fst (commit now m s) = r -> commit now m s = (r, snd (commit now m s)).
Proof. intros <-. apply surjective_pairing. Qed.

(** The first update of a new Task. *)
Lemma commit_all_or_nothing_witness :
  commit 0 demo_update demo1 = (Ok true, demo2) /\
  ((Ok true = Ok true /\ forallb (fenceHolds demo1) (mu_fences demo_update) = true /\
    m_revision demo2 = m_revision demo1 + 1 /\
    forall t, readTask demo2 t =
      match lastWrite (map w_resource (mu_tasks demo_update)) t with
      | Some x => Some x
      | None => if set_has t (mu_deleteTaskIds demo_update) then None else readTask demo1 t
      end) \/ (Ok true <> Ok true /\ demo2 = demo1)).
Proof.
  assert (commit 0 demo_update demo1 = (Ok true, demo2)) as H
    by (apply commit_fst; vm_compute; reflexivity).
  split; [exact H | exact (commit_all_or_nothing 0 demo_update demo1 (Ok true) demo2 H)].
Defined.

(** A second writer that read version 1. *)
Lemma stale_writer_rejected_witness : commit 0 demo_update demo2 = (Ok false, demo2).
Proof.
  apply (stale_writer_rejected 0 0 demo_update demo_update demo1 demo2 "a" (demo_task "a" 1 2)
           (mkFence "a" 1 None None)).
  - apply commit_wf, emptyStore_wf.
  - apply commit_fst. vm_compute. reflexivity.
  - reflexivity.
  - apply list_elem_of_singleton. reflexivity.
  - reflexivity.
  - discriminate.
Defined.

(** The creator across the update. *)
Lemma creator_immutable_witness :
  md_creator (metadata (demo_task "a" 1 2)) = md_creator (metadata (demo_task "a" 1 1)).
Proof.
  apply (creator_immutable 0 demo_update demo1 demo2 "a").
  - apply commit_fst. vm_compute. reflexivity.
  - vm_compute. reflexivity.
  - vm_compute. reflexivity.
Defined.

(** The reopening of a closed Task. *)
Lemma closure_is_durable_witness :
  exists c, cancellations demoReopened !! "a" = Some c \/
  ("a" ∈ mu_reopenTaskIds demo_reopen /\ exists ctl,
     reopens demo_reopen "a" (cw_cancellation c) ctl /\ controls demoReopened !! ctl_controlKey ctl = Some ctl).
Proof.
  eexists. apply (closure_is_durable 0 demo_reopen demoClosed demoReopened "a").
  - apply commit_fst. vm_compute. reflexivity.
  - vm_compute. reflexivity.
Defined.

(** The event of the created Task is recorded and survives the update. *)
Lemma event_receipts_durable_witness :
  hasTaskEvent demo1 "a" demo_event = true /\ hasTaskEvent demo2 "a" demo_event = true.
Proof.
  assert (hasTaskEvent demo1 "a" demo_event = true) as H1.
  { eapply (proj1 (event_receipts_durable 0 demo_create demo0 demo1
      ltac:(apply commit_fst; vm_compute; reflexivity))
      (mkWrite (demo_task "a" 1 1) (Some (demo_trigger "a")) true None) (demo_trigger "a")
      (mkTriggerEvent demo_event "2024-02-29T12:34:56.789Z")).
    - apply list_elem_of_singleton. reflexivity.
    - reflexivity.
    - apply list_elem_of_singleton. reflexivity.
    - eexists. vm_compute. reflexivity. }
  split; [exact H1|].
  apply (proj2 (event_receipts_durable 0 demo_update demo1 demo2
    ltac:(apply commit_fst; vm_compute; reflexivity))); [exact H1|].
  apply not_elem_of_nil.
Defined.

End StoreCommit.
