(* ===== verification/StoreEffects.v ===== *)
(** What a committed mutation leaves behind, table by table: the record and the
    pending input of every Task, every attempt, every admission, every closure.
    The reconciler's theorems read a committed write back through these lemmas. *)
From S2P Require Import Prelude Json TaskState TaskTree Transaction ResourceStore StoreInvariant StoreCommit.

Module StoreEffects.
Import StateTransaction ResourceStore StoreInvariant StoreCommit.

(** ** The last write under a key *)

Fixpoint lastBy {A} (key : A -> string) (l : list A) (k : string) : option A :=
  match l with
  | [] => None
  | a :: l =>
      match lastBy key l k with
      | Some x => Some x
      | None => if String.eqb (key a) k then Some a else None
      end
  end.

Lemma lastBy_Some {A} (key : A -> string) l k a : lastBy key l k = Some a -> a ∈ l /\ key a = k.
Proof.
  induction l as [|x l IH]; simpl; [done|]. destruct (lastBy key l k).
  - intros [= ->]. destruct IH; [done|]. split; [by right|done].
  - destruct (String.eqb_spec (key x) k); [|done]. intros [= ->]. split; [by left|done].
Qed.

Lemma lastBy_None {A} (key : A -> string) l k a : lastBy key l k = None -> a ∈ l -> key a <> k.
Proof.
  induction l as [|x l IH]; simpl; [intros _ H; by apply not_elem_of_nil in H|].
  destruct (lastBy key l k); [done|]. destruct (String.eqb_spec (key x) k); [done|].
  intros _ [->|Ha]%elem_of_cons; [done|auto].
Qed.

Lemma lastBy_unique {A} (key : A -> string) l a :
  a ∈ l -> (forall b, b ∈ l -> key b = key a -> b = a) -> lastBy key l (key a) = Some a.
Proof.
  intros Ha Hu. destruct (lastBy key l (key a)) as [b|] eqn:E.
  - apply lastBy_Some in E as [Hb Hk]. f_equal. auto.
  - by destruct (lastBy_None key l (key a) a E Ha).
Qed.

Lemma lastWrite_lastBy ws t : lastWrite (map w_resource ws) t = w_resource <$> lastBy w_id ws t.
Proof.
  induction ws as [|w ws IH]; [done|]. simpl. rewrite IH. destruct (lastBy w_id ws t); [done|]. simpl.
  unfold w_id. by destruct (String.eqb _ t).
Qed.

Lemma fold_insert {A B} (key : A -> string) (f : A -> B) l (m : gmap string B) k :
  fold_left (fun m a => <[key a := f a]> m) l m !! k =
  match lastBy key l k with Some a => Some (f a) | None => m !! k end.
Proof.
  revert m. induction l as [|a l IH]; intros m; [done|]. simpl. rewrite IH.
  destruct (lastBy key l k); [done|]. destruct (String.eqb_spec (key a) k) as [->|Hne].
  - by rewrite lookup_insert_eq.
  - by rewrite lookup_insert_ne.
Qed.

Lemma fold_delete {B} (l : list string) (m : gmap string B) k :
  fold_left (fun m a => delete a m) l m !! k = if set_has k l then None else m !! k.
Proof.
  revert m. induction l as [|a l IH]; intros m; [done|]. simpl. rewrite IH. unfold set_has.
  destruct (decide (a = k)) as [->|Hne].
  - rewrite lookup_delete_eq, (bool_decide_eq_true_2 (k ∈ k :: l)) by (by left). by case_bool_decide.
  - rewrite lookup_delete_ne by done. by rewrite (bool_decide_ext (k ∈ a :: l) (k ∈ l)) by set_solver.
Qed.

(** Projecting a loop of statements onto one table. *)
Lemma fold_project {A X} (g : store -> X) (f : A -> store -> store) (h : X -> A -> X) l s :
  (forall a s, g (f a s) = h (g s) a) -> g (fold_left (fun s a => f a s) l s) = fold_left h l (g s).
Proof. intros Hf. revert s. induction l as [|a l IH]; intros s; [done|]. simpl. by rewrite IH, Hf. Qed.

(** ** Statements that leave a table alone *)

Section Frames.
Context {X : Type} (g : store -> X).

Definition unchanged {A} (x : M A) : Prop := forall v, keeps (fun s => g s = v) x.

Lemma unchanged_run {A} (x : M A) s a s' : unchanged x -> x s = (Ok a, s') -> g s' = g s.
Proof. intros Hx E. exact (Hx (g s) s a s' eq_refl E). Qed.

Lemma unchanged_each {A} (f : A -> M unit) l : (forall a, unchanged (f a)) -> unchanged (each f l).
Proof. intros Hf v. apply keeps_each. intros a _. apply Hf. Qed.

Lemma unchanged_modify f : (forall s, g (f s) = g s) -> unchanged (modify f).
Proof. intros Hf v. apply keeps_modify. intros s <-. apply Hf. Qed.

Lemma unchanged_bind {A B} (x : M A) (f : A -> M B) : unchanged x -> (forall a, unchanged (f a)) -> unchanged (bind x f).
Proof. intros Hx Hf v. apply keeps_bind; [apply Hx|]. intros a. apply Hf. Qed.

Lemma unchanged_snd {A} (x : M A) : (forall s, g (snd (x s)) = g s) -> unchanged x.
Proof. intros Hx v. apply keeps_snd. intros s <-. apply Hx. Qed.
End Frames.

Ltac step H s := let H1 := fresh "E" in apply bind_Ok in H as ([] & s & H1 & H).

Ltac leaves_alone :=
  repeat first [apply unchanged_each; intros ? | apply unchanged_bind; [|intros ?] | apply unchanged_modify; intros ?];
  try done; try (apply unchanged_snd; by frame_solve); try by frame_solve.

(** The six phases of a mutation. *)
Lemma applyMutation_phases now m s b s' :
  applyMutation now m s = (Ok b, s') ->
  exists s1 s2 s3 s4 s5,
    each (reopenTask m) (set_of (mu_reopenTaskIds m)) s = (Ok tt, s1) /\
    s2 = fold_left (fun s t => deleteTask t s) (set_of (mu_deleteTaskIds m)) s1 /\
    writeTasks now m s2 = (Ok tt, s3) /\
    each (fun c => modify (pruneCondition c)) (set_of (mu_pruneConditionIds m)) s3 = (Ok tt, s4) /\
    writeHistory m s4 = (Ok tt, s5) /\ s' = bumpRevision s5 /\ b = true.
Proof.
  unfold applyMutation. intros H. step H s1. step H s2. step H s3. step H s4. step H s5. injection H as <- <-.
  rewrite each_modify in E0. injection E0 as <-. eauto 12.
Qed.

(** A table that no statement of a mutation touches. *)
Lemma applyMutation_unchanged {X} (g : store -> X) now m s b s' :
  applyMutation now m s = (Ok b, s') ->
  unchanged g (each (reopenTask m) (set_of (mu_reopenTaskIds m))) -> (forall t s, g (deleteTask t s) = g s) ->
  unchanged g (writeTasks now m) -> unchanged g (each (fun c => modify (pruneCondition c)) (set_of (mu_pruneConditionIds m))) ->
  unchanged g (writeHistory m) -> (forall s, g (bumpRevision s) = g s) -> g s' = g s.
Proof.
  intros (s1 & s2 & s3 & s4 & s5 & H1 & -> & H3 & H4 & H5 & -> & _)%applyMutation_phases U1 U2 U3 U4 U5 U6.
  rewrite U6, (unchanged_run g _ _ _ _ U5 H5), (unchanged_run g _ _ _ _ U4 H4), (unchanged_run g _ _ _ _ U3 H3).
  rewrite deletes_frame by done. by apply (unchanged_run g _ _ _ _ U1 H1).
Qed.

(** ** Attempts *)

Lemma reopens_unchanged {X} (g : store -> X) m l :
  (forall x s, g (set_cancellations x s) = g s) -> unchanged g (each (reopenTask m) l).
Proof. intros Hg v. by apply reopen_keeps. Qed.

Lemma putEvents_unchanged {X} (g : store -> X) id tr :
  (forall ev s, g (set_events ev s) = g s) -> unchanged g (modify (putEvents id tr)).
Proof. intros Hg. apply unchanged_modify. intros s. by apply putEvents_frame. Qed.

Lemma writeTask_unchanged {X} (g : store -> X) now w :
  (forall ev s, g (set_events ev s) = g s) -> (forall r tr ready nc, unchanged g (putTask now r tr ready nc)) ->
  unchanged g (writeTask now w).
Proof. intros He Hp. apply unchanged_bind; [apply Hp|]. intros _. by apply putEvents_unchanged. Qed.

Lemma putAttempt_attempts a s : attempts (putAttempt a s) = <[att_id a := attemptRow a]> (attempts s).
Proof. unfold putAttempt. by case_bool_decide. Qed.

Lemma writeTasks_attempts now m s s' :
  writeTasks now m s = (Ok tt, s') ->
  attempts s' = fold_left (fun x a => <[att_id a := attemptRow a]> x) (mu_attempts m)
    (fold_left (fun x a => delete a x) (set_of (mu_deleteAttemptIds m)) (attempts s)).
Proof.
  intros H. step H s1. unfold writeTasks in *. apply bind_Ok in H as ([] & s2 & H2 & H).
  unfold writeAttemptsAndConditions in H2. step H2 s3. step H2 s4. step H2 s5.
  assert (attempts s' = attempts s2) as ->.
  { eapply (unchanged_run attempts); [|exact H]. leaves_alone. }
  assert (attempts s2 = attempts s5) as ->.
  { eapply (unchanged_run attempts); [|exact H2]. leaves_alone. }
  assert (attempts s5 = attempts s4) as ->.
  { eapply (unchanged_run attempts); [|exact E2]. leaves_alone. }
  rewrite each_modify in E1. injection E1 as <-.
  rewrite (fold_project attempts putAttempt (fun x a => <[att_id a := attemptRow a]> x))
    by (intros; apply putAttempt_attempts).
  rewrite each_modify in E0. injection E0 as <-.
  rewrite (fold_project attempts (fun a s => set_attempts (delete a (attempts s)) s) (fun x a => delete a x)) by done.
  do 2 f_equal. eapply (unchanged_run attempts); [|exact E].
  apply unchanged_each. intros w. apply writeTask_unchanged; [done|]. intros. leaves_alone.
Qed.

(** The attempt row a mutation leaves under an id. *)
Lemma applyMutation_attempt_rows now m s b s' a :
  applyMutation now m s = (Ok b, s') ->
  attempts s' !! a =
  match lastBy att_id (mu_attempts m) a with
  | Some x => Some (attemptRow x)
  | None => if set_has a (mu_deleteAttemptIds m) then None else attempts s !! a
  end.
Proof.
  intros (s1 & s2 & s3 & s4 & s5 & H1 & -> & H3 & H4 & H5 & -> & _)%applyMutation_phases.
  change (attempts (bumpRevision s5)) with (attempts s5).
  assert (attempts s5 = attempts s3) as ->.
  { transitivity (attempts s4); [eapply (unchanged_run attempts); [|exact H5]|eapply (unchanged_run attempts); [|exact H4]];
      unfold writeHistory; leaves_alone. }
  rewrite (writeTasks_attempts _ _ _ _ H3), fold_insert. destruct (lastBy _ _ a); [done|].
  rewrite fold_delete, (deletes_frame attempts) by done.
  rewrite (unchanged_run attempts _ _ _ _ (reopens_unchanged attempts _ _ (fun _ _ => eq_refl)) H1).
  unfold set_has. rewrite (bool_decide_ext _ (a ∈ mu_deleteAttemptIds m)) by apply elem_of_set_of.
  by case_bool_decide.
Qed.

(** The attempt a mutation leaves under an id. *)
Lemma applyMutation_attempts now m s b s' a :
  applyMutation now m s = (Ok b, s') ->
  readAttempt s' a =
  match lastBy att_id (mu_attempts m) a with
  | Some x => Some x
  | None => if set_has a (mu_deleteAttemptIds m) then None else readAttempt s a
  end.
Proof.
  intros H. unfold readAttempt. rewrite (applyMutation_attempt_rows _ _ _ _ _ _ H). destruct (lastBy _ _ a); [done|]. by case_cond.
Qed.

(** ** Pending input *)

Definition rowTrigger (s : store) (t : string) : option (option AppTaskTrigger) := row_trigger <$> tasks s !! t.

Lemma readTrigger_row s t : readTrigger s t = mjoin (rowTrigger s t).
Proof. unfold readTrigger, rowTrigger. by destruct (tasks s !! t). Qed.

Lemma writeTask_trigger now w s a s' t :
  writeTask now w s = (Ok a, s') ->
  rowTrigger s' t = if String.eqb (w_id w) t then Some (w_trigger w) else rowTrigger s t.
Proof.
  unfold writeTask. intros ([] & s1 & [lease ->]%putTask_run & [= _ <-])%bind_Ok.
  unfold rowTrigger. rewrite putEvents_tasks. simpl. unfold w_id.
  destruct (String.eqb_spec (md_id (metadata (w_resource w))) t) as [->|Hne].
  - by rewrite lookup_insert_eq.
  - by rewrite lookup_insert_ne.
Qed.

Lemma writes_trigger now ws s s' t :
  each (writeTask now) ws s = (Ok tt, s') ->
  rowTrigger s' t = match lastBy w_id ws t with Some w => Some (w_trigger w) | None => rowTrigger s t end.
Proof.
  revert s. induction ws as [|w ws IH]; intros s; simpl; [by intros [= <-]|].
  intros ([] & s1 & H1 & H)%bind_Ok. rewrite (IH _ H). destruct (lastBy w_id ws t); [done|].
  rewrite (writeTask_trigger _ _ _ _ _ _ H1). by destruct (String.eqb _ t).
Qed.

Lemma putAttempt_triggers a s t : rowTrigger (putAttempt a s) t = rowTrigger s t.
Proof.
  unfold putAttempt, rowTrigger. case_bool_decide; [|done]. simpl.
  destruct (decide (att_taskId a = t)) as [->|Hne].
  - rewrite lookup_alter_eq. destruct (tasks s !! t); [|done]. simpl. by case_bool_decide.
  - by rewrite lookup_alter_ne.
Qed.

(** The pending input a mutation leaves. *)
Lemma applyMutation_triggers now m s b s' t :
  applyMutation now m s = (Ok b, s') ->
  readTrigger s' t =
  match lastBy w_id (mu_tasks m) t with
  | Some w => w_trigger w
  | None => if set_has t (mu_deleteTaskIds m) then None else readTrigger s t
  end.
Proof.
  intros (s1 & s2 & s3 & s4 & s5 & H1 & -> & H3 & H4 & H5 & -> & _)%applyMutation_phases.
  rewrite !readTrigger_row.
  assert (rowTrigger (bumpRevision s5) t = rowTrigger s3 t) as ->.
  { transitivity (rowTrigger s4 t);
      [change (rowTrigger s5 t = rowTrigger s4 t); eapply (unchanged_run (fun s => rowTrigger s t)); [|exact H5]
      |eapply (unchanged_run (fun s => rowTrigger s t)); [|exact H4]]; unfold writeHistory; leaves_alone. }
  unfold writeTasks in H3. apply bind_Ok in H3 as ([] & a1 & W1 & H3). apply bind_Ok in H3 as ([] & a2 & W2 & W3).
  assert (rowTrigger s3 t = rowTrigger a1 t) as ->.
  { transitivity (rowTrigger a2 t);
      [eapply (unchanged_run (fun s => rowTrigger s t)); [|exact W3]
      |eapply (unchanged_run (fun s => rowTrigger s t)); [|exact W2]]; unfold writeAttemptsAndConditions; leaves_alone.
    all: intros; apply putAttempt_triggers. }
  rewrite (writes_trigger _ _ _ _ _ W1). destruct (lastBy w_id (mu_tasks m) t); [done|].
  unfold rowTrigger at 1. rewrite deletes_tasks.
  rewrite (unchanged_run tasks _ _ _ _ (reopens_unchanged tasks _ _ (fun _ _ => eq_refl)) H1).
  unfold set_has. rewrite (bool_decide_ext _ (t ∈ mu_deleteTaskIds m)) by apply elem_of_set_of.
  by case_bool_decide.
Qed.

(** ** Admissions and closures *)

Lemma applyMutation_admissions now m s b s' k :
  applyMutation now m s = (Ok b, s') ->
  admissions s' !! k =
  match lastBy fst (mu_admissions m) k with
  | Some a => Some a.2
  | None => if set_has k (mu_deleteAdmissionIds m) then None else admissions s !! k
  end.
Proof.
  intros (s1 & s2 & s3 & s4 & s5 & H1 & -> & H3 & H4 & H5 & -> & _)%applyMutation_phases.
  change (admissions (bumpRevision s5)) with (admissions s5).
  unfold writeHistory in H5. step H5 a1. step H5 a2. step H5 a3. step H5 a4. step H5 a5.
  assert (admissions s5 = admissions a4) as ->.
  { transitivity (admissions a5); [eapply (unchanged_run admissions); [|exact H5]|eapply (unchanged_run admissions); [|exact E3]];
      leaves_alone. }
  rewrite each_modify in E2. injection E2 as <-.
  rewrite (fold_project admissions (fun a s => set_admissions (<[a.1 := a.2]> (admissions s)) s)
    (fun x a => <[a.1 := a.2]> x)), fold_insert by done.
  destruct (lastBy _ _ k); [done|]. rewrite each_modify in E1. injection E1 as <-.
  rewrite (fold_project admissions (fun a s => set_admissions (delete a (admissions s)) s) (fun x a => delete a x)),
    fold_delete by done.
  assert (admissions a2 = admissions s) as ->.
  { transitivity (admissions a1); [eapply (unchanged_run admissions); [|exact E0]; leaves_alone|].
    transitivity (admissions s4); [eapply (unchanged_run admissions); [|exact E]; leaves_alone|].
    transitivity (admissions s3); [eapply (unchanged_run admissions); [|exact H4]; leaves_alone|].
    transitivity (admissions (fold_left (fun s t => deleteTask t s) (set_of (mu_deleteTaskIds m)) s1)).
    - eapply (unchanged_run admissions); [|exact H3]. unfold writeTasks, writeAttemptsAndConditions.
      apply unchanged_bind; [|intros ?; leaves_alone]. apply unchanged_each. intros w.
      apply writeTask_unchanged; [done|]. intros. leaves_alone.
    - rewrite (deletes_frame admissions) by done.
      apply (unchanged_run admissions _ _ _ _ (reopens_unchanged admissions _ _ (fun _ _ => eq_refl)) H1). }
  unfold set_has. rewrite (bool_decide_ext _ (k ∈ mu_deleteAdmissionIds m)) by apply elem_of_set_of.
  by case_bool_decide.
Qed.

(** A closure that was committed is recorded. *)
Lemma each_putCancellation l c s s' :
  each putCancellation l s = (Ok tt, s') -> c ∈ l -> readCancellation s' (can_taskId c) = Some c.
Proof.
  revert s. induction l as [|x l IH]; intros s; [intros _ Hin; by apply not_elem_of_nil in Hin|]. simpl.
  intros ([] & s1 & H1 & H)%bind_Ok [->|Hin]%elem_of_cons; [|eauto].
  unfold putCancellation in H1. case_cond_in H1; [done|]. case_cond_in H1; [done|]. injection H1 as <-.
  unfold readCancellation.
  assert (cancellations s' !! can_taskId x = Some (mkCancellationRow (default 0 (epoch (Some (can_cancelledAt x)))) (can_reason x) x)) as ->;
    [|done].
  eapply (keeps_each (fun y => cancellations y !! can_taskId x = Some _)); [| |exact H].
  - intros y _. apply framed_closure.
  - simpl. by rewrite lookup_insert_eq.
Qed.

Lemma applyMutation_closures now m s b s' c :
  applyMutation now m s = (Ok b, s') -> c ∈ mu_cancellations m -> readCancellation s' (can_taskId c) = Some c.
Proof.
  intros (s1 & s2 & s3 & s4 & s5 & _ & _ & _ & _ & H5 & -> & _)%applyMutation_phases Hc.
  unfold writeHistory in H5. step H5 a1. step H5 a2. step H5 a3. step H5 a4. step H5 a5.
  change (readCancellation (bumpRevision s5)) with (readCancellation s5).
  assert (cancellations s5 = cancellations a5) as Eq.
  { eapply (unchanged_run cancellations); [|exact H5]. leaves_alone. }
  unfold readCancellation. rewrite Eq. by apply (each_putCancellation _ _ _ _ E3).
Qed.

(** ** What never changes *)

Ltac never_touched :=
  match goal with H : applyMutation _ _ _ = _ |- ?g _ = ?g _ =>
    apply (applyMutation_unchanged g _ _ _ _ _ H);
      [by apply reopens_unchanged|done| |leaves_alone|unfold writeHistory; leaves_alone|done];
      unfold writeTasks, writeAttemptsAndConditions; apply unchanged_bind; [|intros ?; leaves_alone];
      apply unchanged_each; intros ?; apply writeTask_unchanged; [done|]; intros; leaves_alone
  end.

Lemma applyMutation_appId now m s b s' : applyMutation now m s = (Ok b, s') -> appId s' = appId s.
Proof. intros H. never_touched. Qed.

Lemma applyMutation_metadata now m s b s' : applyMutation now m s = (Ok b, s') -> m_app_metadata s' = m_app_metadata s.
Proof. intros H. never_touched. Qed.

(** ** Control receipts *)

Lemma putControls_run l s s' :
  each putControl l s = (Ok tt, s') ->
  (forall k c, controls s !! k = Some c -> controls s' !! k = Some c) /\
  (forall c, c ∈ l -> controls s' !! ctl_controlKey c = Some c).
Proof.
  revert s. induction l as [|x l IH]; intros s; [intros [= <-]; split; [done|]; by intros c Hc%not_elem_of_nil|]. simpl.
  intros ([] & s1 & H1 & H)%bind_Ok. unfold putControl in H1. case_cond_in H1; [done|]. case_cond_in H1; [done|]. injection H1 as <-.
  apply orb_false_iff in Heqb0 as [Hk%bool_decide_eq_false _]. apply eq_None_not_Some in Hk.
  destruct (IH _ H) as [Hkeep Hin]. split.
  - intros k c Hc. apply Hkeep. simpl. rewrite lookup_insert_ne; [done|]. congruence.
  - intros c [->|Hc]%elem_of_cons; [|by apply Hin]. apply Hkeep. simpl. by rewrite lookup_insert_eq.
Qed.

(** A control receipt is never changed or removed, and a committed one is there. *)
Lemma applyMutation_controlRows now m s b s' :
  applyMutation now m s = (Ok b, s') ->
  (forall k c, controls s !! k = Some c -> controls s' !! k = Some c) /\
  (forall c, c ∈ mu_controlReceipts m -> controls s' !! ctl_controlKey c = Some c).
Proof.
  intros (s1 & s2 & s3 & s4 & s5 & H1 & -> & H3 & H4 & H5 & -> & _)%applyMutation_phases.
  change (controls (bumpRevision s5)) with (controls s5).
  unfold writeHistory in H5. step H5 a1. step H5 a2. step H5 a3. step H5 a4. step H5 a5.
  assert (controls a5 = controls s) as Eq.
  { transitivity (controls a4); [eapply (unchanged_run controls); [|exact E3]; leaves_alone|].
    transitivity (controls a3); [eapply (unchanged_run controls); [|exact E2]; leaves_alone|].
    transitivity (controls a2); [eapply (unchanged_run controls); [|exact E1]; leaves_alone|].
    transitivity (controls a1); [eapply (unchanged_run controls); [|exact E0]; leaves_alone|].
    transitivity (controls s4); [eapply (unchanged_run controls); [|exact E]; leaves_alone|].
    transitivity (controls s3); [eapply (unchanged_run controls); [|exact H4]; leaves_alone|].
    transitivity (controls (fold_left (fun s t => deleteTask t s) (set_of (mu_deleteTaskIds m)) s1)).
    - eapply (unchanged_run controls); [|exact H3]. unfold writeTasks, writeAttemptsAndConditions.
      apply unchanged_bind; [|intros ?; leaves_alone]. apply unchanged_each. intros w.
      apply writeTask_unchanged; [done|]. intros. leaves_alone.
    - rewrite (deletes_frame controls) by done.
      apply (unchanged_run controls _ _ _ _ (reopens_unchanged controls _ _ (fun _ _ => eq_refl)) H1). }
  rewrite <- Eq. by apply (putControls_run (mu_controlReceipts m)).
Qed.

End StoreEffects.
