(* ===== verification/RecoveryIndex.v ===== *)
(** The read side of the Task resource store that schedules recovery
    ([listRecoveryCandidates], [nextDueAt] and the Task listings of
    [src/app/core/state/app-task-resource-store.ts]), and the interface it
    offers to the recovery scheduler.

    Queries filter the Task table, order by the columns of the [ORDER BY] clause
    and cut at the limit.  Task ids compare by code unit, as SQLite's binary
    collation does. *)
From S2P Require Import Prelude Json TaskState TaskTree Transaction ResourceStore StoreInvariant.

Module RecoveryIndex.
Import ResourceStore.

(** ** Pages *)

Record IndexedTaskCandidate : Type := mkCandidate {
  ca_taskId : string;
  ca_lane : Lane;
  ca_ready : bool;
  ca_changed : bool;
  ca_nextCheckAt : option Z;
  ca_leaseUntil : option Z }.

Record IndexedTaskRecoveryCursor : Type := mkCursor {
  cu_lane : Lane; cu_updatedAt : Z; cu_taskId : string }.

Record IndexedTaskCandidatePage : Type := mkPage {
  items : list IndexedTaskCandidate;
  nextCursor : option IndexedTaskRecoveryCursor }.

Definition laneRank (l : Lane) : Z := match l with human => 0 | normal => 1 end.

(** ** Ordering *)

Definition key : Type := Z * Z * string.

Definition key_leb (a b : key) : bool :=
  let '(r1, u1, t1) := a in
  let '(r2, u2, t2) := b in
  (r1 <? r2) || ((r1 =? r2) && ((u1 <? u2) || ((u1 =? u2) && String.leb t1 t2))).

Abbreviation entry := (string * TaskRow)%type.
Definition entry_key (e : entry) : key := (laneRank (row_lane e.2), row_updated_at e.2, e.1).
Definition entry_le (a b : entry) : Prop := key_leb (entry_key a) (entry_key b) = true.

#[export] Instance entry_le_dec : RelDecision entry_le.
Proof. intros a b. unfold entry_le. apply _. Defined.

Definition cursor_key (c : IndexedTaskRecoveryCursor) : key :=
  (laneRank (cu_lane c), cu_updatedAt c, cu_taskId c).

(** The [afterClause]: strictly after the cursor. *)
Definition afterCursor (after : option IndexedTaskRecoveryCursor) (e : entry) : bool :=
  match after with
  | None => true
  | Some c =>
      let '(r, u, t) := entry_key e in
      let '(ar, au, at_) := cursor_key c in
      (ar <? r) || ((ar =? r) && (au <? u)) || ((ar =? r) && (au =? u) && String.ltb at_ t)
  end.

(** ** Recovery candidates *)

Definition dueBy (now : Z) (at_ : option Z) : bool :=
  match at_ with Some a => a <=? now | None => false end.

(** The union of the four indexed branches, without closed Tasks. *)
Definition isCandidate (s : store) (now : Z) (e : entry) : bool :=
  (row_ready e.2 || row_changed e.2 || dueBy now (row_next_check_at e.2) || dueBy now (row_lease_until e.2)) &&
  live s e.1.

Definition boundedLimit (limit top : Z) : Z := Z.max 1 (Z.min top limit).

Definition toCandidate (e : entry) : IndexedTaskCandidate :=
  mkCandidate e.1 (row_lane e.2) (row_ready e.2) (row_changed e.2) (row_next_check_at e.2) (row_lease_until e.2).

Definition toCursor (e : entry) : IndexedTaskRecoveryCursor :=
  mkCursor (row_lane e.2) (row_updated_at e.2) e.1.

Definition listRecoveryCandidates (s : store) (now limit : Z) (after : option IndexedTaskRecoveryCursor) :
    IndexedTaskCandidatePage :=
  let bound := Z.to_nat (boundedLimit limit 10000) in
  let rows := take bound (merge_sort entry_le
      (filter (fun e => isCandidate s now e && afterCursor after e = true) (map_to_list (tasks s)))) in
  mkPage (map toCandidate rows)
    (if Nat.eqb (length rows) bound then toCursor <$> last rows else None).

Definition minOption (a b : option Z) : option Z :=
  match a, b with
  | Some x, Some y => Some (Z.min x y)
  | Some x, None => Some x
  | None, y => y
  end.

(** [MIN(next_check_at)] over the live Tasks. *)
Definition nextDueAt (s : store) : option Z :=
  foldr (fun e acc => minOption (if live s e.1 then row_next_check_at e.2 else None) acc) None
    (map_to_list (tasks s)).

(** ** Listings *)

Definition byUpdated (a b : entry) : Prop :=
  (row_updated_at a.2 <? row_updated_at b.2) ||
  ((row_updated_at a.2 =? row_updated_at b.2) && String.leb a.1 b.1) = true.

Definition byUpdatedDesc (a b : entry) : Prop :=
  (row_updated_at b.2 <? row_updated_at a.2) ||
  ((row_updated_at a.2 =? row_updated_at b.2) && String.leb a.1 b.1) = true.

#[export] Instance byUpdated_dec : RelDecision byUpdated.
Proof. intros a b. unfold byUpdated. apply _. Defined.
#[export] Instance byUpdatedDesc_dec : RelDecision byUpdatedDesc.
Proof. intros a b. unfold byUpdatedDesc. apply _. Defined.

Definition listTaskIdsByPhase (s : store) (phases : list Phase) (limit : Z) : list string :=
  match phases with
  | [] => []
  | _ => map fst (take (Z.to_nat (boundedLimit limit 10000)) (merge_sort byUpdated
           (filter (fun e => bool_decide (row_phase e.2 ∈ phases) && live s e.1 = true) (map_to_list (tasks s)))))
  end.

Definition unfinished (s : store) (e : entry) : bool :=
  negb (bool_decide (row_phase e.2 = converged)) && live s e.1.

Definition hasUnfinishedTasks (s : store) : bool := existsb (unfinished s) (map_to_list (tasks s)).

Definition listLiveTaskIds (s : store) (excludeTaskId : string) (limit : Z) : list string :=
  map fst (take (Z.to_nat (boundedLimit limit 1000)) (merge_sort byUpdatedDesc
    (filter (fun e => negb (String.eqb e.1 excludeTaskId) && unfinished s e = true) (map_to_list (tasks s))))).

(** ** View phase ([task-view-phase.ts]) *)

Definition dependencyMet (s : store) (d : string) : bool :=
  match tasks s !! d with
  | Some row => bool_decide (row_phase row = converged) && (row_observed_generation row =? row_generation row)
  | None => false
  end.

Definition taskViewPhase (s : store) (row : TaskRow) : Phase :=
  match row_phase row with
  | converged => if row_ready row || row_changed row then pending else converged
  | waiting =>
      if row_ready row && forallb (dependencyMet s) (default [] (spec_dependsOn (spec (row_resource row))))
      then pending else waiting
  | p => p
  end.

Definition readTaskForView (s : store) (taskId : string) : option (AppTaskResource * Phase * bool) :=
  (fun row => (row_resource row, taskViewPhase s row, isCancelled s taskId)) <$> tasks s !! taskId.

(** ** Lemmas on the order *)

Lemma key_leb_total a b : key_leb a b = true \/ key_leb b a = true.
Proof.
  destruct a as [[r1 u1] t1], b as [[r2 u2] t2]. simpl.
  destruct (Z.ltb_spec r1 r2), (Z.ltb_spec r2 r1), (Z.eqb_spec r1 r2), (Z.eqb_spec r2 r1); simpl; auto; try lia.
  destruct (Z.ltb_spec u1 u2), (Z.ltb_spec u2 u1), (Z.eqb_spec u1 u2), (Z.eqb_spec u2 u1); simpl; auto; try lia.
  apply String.leb_total.
Qed.

Lemma key_leb_antisym a b : key_leb a b = true -> key_leb b a = true -> a = b.
Proof.
  destruct a as [[r1 u1] t1], b as [[r2 u2] t2]. simpl.
  destruct (Z.ltb_spec r1 r2), (Z.ltb_spec r2 r1), (Z.eqb_spec r1 r2), (Z.eqb_spec r2 r1); simpl; try done; try lia.
  destruct (Z.ltb_spec u1 u2), (Z.ltb_spec u2 u1), (Z.eqb_spec u1 u2), (Z.eqb_spec u2 u1); simpl; try done; try lia.
  intros Ha Hb. subst. by rewrite (String.leb_antisym t1 t2 Ha Hb).
Qed.

Lemma string_leb_trans a b c : String.leb a b = true -> String.leb b c = true -> String.leb a c = true.
Proof.
  intros H1 H2. apply Is_true_true, (transitivity (R := String.le) (y := b)); by apply Is_true_true.
Qed.

Lemma key_leb_trans a b c : key_leb a b = true -> key_leb b c = true -> key_leb a c = true.
Proof.
  destruct a as [[r1 u1] t1], b as [[r2 u2] t2], c as [[r3 u3] t3]. simpl.
  destruct (Z.ltb_spec r1 r2), (Z.ltb_spec r2 r3), (Z.ltb_spec r1 r3); simpl; try done; try lia;
    destruct (Z.eqb_spec r1 r2), (Z.eqb_spec r2 r3), (Z.eqb_spec r1 r3); simpl; try done; try lia.
  destruct (Z.ltb_spec u1 u2), (Z.ltb_spec u2 u3), (Z.ltb_spec u1 u3); simpl; try done; try lia;
    destruct (Z.eqb_spec u1 u2), (Z.eqb_spec u2 u3), (Z.eqb_spec u1 u3); simpl; try done; try lia.
  apply string_leb_trans.
Qed.

#[export] Instance entry_le_total : Total entry_le.
Proof. intros a b. apply key_leb_total. Qed.
#[export] Instance entry_le_trans : Transitive entry_le.
Proof. intros a b c. apply key_leb_trans. Qed.

Lemma entry_le_antisym a b : entry_le a b -> entry_le b a -> a.1 = b.1.
Proof. intros H1 H2. pose proof (key_leb_antisym _ _ H1 H2) as H. unfold entry_key in H. congruence. Qed.

(** [afterCursor] is the strict order. *)
Lemma afterCursor_key c e :
  afterCursor (Some c) e = negb (key_leb (entry_key e) (cursor_key c)).
Proof.
  unfold afterCursor, key_leb. destruct (entry_key e) as [[r u] t], (cursor_key c) as [[r' u'] t'].
  destruct (Z.ltb_spec r' r), (Z.ltb_spec r r'), (Z.eqb_spec r' r), (Z.eqb_spec r r'); simpl; try done; try lia.
  destruct (Z.ltb_spec u' u), (Z.ltb_spec u u'), (Z.eqb_spec u' u), (Z.eqb_spec u u'); simpl; try done; try lia.
  unfold String.ltb, String.leb. rewrite (String.compare_antisym t t'). by destruct (String.compare t' t).
Qed.

(** ** Pagination *)

(** All candidates, in recovery order. *)
Definition candidates (s : store) (now : Z) : list entry :=
  merge_sort entry_le (filter (fun e => isCandidate s now e = true) (map_to_list (tasks s))).

(** Reading page after page until there is no cursor. *)
Fixpoint scan (fuel : nat) (s : store) (now limit : Z) (after : option IndexedTaskRecoveryCursor) :
    list IndexedTaskCandidate :=
  match fuel with
  | O => []
  | S fuel =>
      let page := listRecoveryCandidates s now limit after in
      items page ++ match nextCursor page with
                    | Some c => scan fuel s now limit (Some c)
                    | None => []
                    end
  end.

Lemma rows_unique s (e e' : entry) :
  e ∈ map_to_list (tasks s) -> e' ∈ map_to_list (tasks s) -> e.1 = e'.1 -> e = e'.
Proof.
  destruct e as [k r], e' as [k' r']. rewrite !elem_of_map_to_list. simpl. intros H1 H2 ->. congruence.
Qed.

Lemma elem_of_candidates s now e :
  e ∈ candidates s now <-> tasks s !! e.1 = Some e.2 /\ isCandidate s now e = true.
Proof.
  unfold candidates. rewrite (merge_sort_Permutation entry_le), list_elem_of_filter.
  destruct e as [k r]. rewrite elem_of_map_to_list. simpl. tauto.
Qed.

Lemma candidates_sorted s now : StronglySorted entry_le (candidates s now).
Proof. apply (StronglySorted_merge_sort entry_le). Qed.

Lemma candidates_NoDup s now : NoDup (map fst (candidates s now)).
Proof.
  unfold candidates. rewrite (merge_sort_Permutation entry_le).
  apply (sublist_NoDup _ (map fst (map_to_list (tasks s)))).
  - apply NoDup_fst_map_to_list.
  - apply fmap_sublist. apply sublist_filter.
Qed.

Lemma sorted_filter (B : entry -> bool) l :
  StronglySorted entry_le l -> StronglySorted entry_le (filter (fun e => B e = true) l).
Proof.
  induction 1 as [|e l Hl IH He]; [constructor|]. rewrite filter_cons. case_decide; [|done].
  constructor; [done|]. apply Forall_forall. intros x [_ Hx]%list_elem_of_filter.
  rewrite Forall_forall in He. auto.
Qed.

(** Filtering before or after the sort selects the same rows. *)
Lemma sort_filter s now (B : entry -> bool) :
  merge_sort entry_le (filter (fun e => isCandidate s now e && B e = true) (map_to_list (tasks s))) =
  filter (fun e => B e = true) (candidates s now).
Proof.
  apply (StronglySorted_unique_strong entry_le).
  - intros x y Hx Hy H1 H2.
    rewrite (merge_sort_Permutation entry_le) in Hx. apply list_elem_of_filter in Hx as [_ Hx].
    apply list_elem_of_filter in Hy as [_ Hy]. unfold candidates in Hy.
    rewrite (merge_sort_Permutation entry_le) in Hy. apply list_elem_of_filter in Hy as [_ Hy].
    apply (rows_unique s); [done|done|]. by apply entry_le_antisym.
  - apply (StronglySorted_merge_sort entry_le).
  - apply sorted_filter, candidates_sorted.
  - rewrite (merge_sort_Permutation entry_le). unfold candidates.
    rewrite (merge_sort_Permutation entry_le), list_filter_filter.
    rewrite (list_filter_iff _ (fun e => B e = true /\ isCandidate s now e = true)); [done|].
    intros e. rewrite andb_true_iff. tauto.
Qed.

(** The cursor a scan holds after reading [l]. *)
Definition cursorAfter (l : list entry) : option IndexedTaskRecoveryCursor := toCursor <$> last l.

Lemma cursor_key_of e : cursor_key (toCursor e) = entry_key e.
Proof. done. Qed.

(** What lies strictly after the cursor is the unread rest. *)
Lemma filter_after s now l1 l2 :
  candidates s now = l1 ++ l2 ->
  filter (fun e => afterCursor (cursorAfter l1) e = true) (candidates s now) = l2.
Proof.
  intros Hc. pose proof (candidates_sorted s now) as Hs. pose proof (candidates_NoDup s now) as Hnd.
  rewrite Hc in *. clear Hc. destruct l1 as [|x l1 _] using rev_ind.
  - simpl. induction l2 as [|e l2 IH]; [done|]. rewrite filter_cons_True by done. f_equal. apply IH.
    + by inversion Hs.
    + simpl in Hnd. by apply NoDup_cons in Hnd as [_ ?].
  - unfold cursorAfter. rewrite last_snoc. cbn [fmap option_fmap option_map].
    rewrite filter_app. rewrite (proj2 (filter_nil_iff _ (l1 ++ [x]))).
    + rewrite map_app in Hnd. apply NoDup_app in Hnd as (_ & Hd & _). simpl.
      assert (forall e, e ∈ l2 -> afterCursor (Some (toCursor x)) e = true) as Ha.
      { intros e He. rewrite afterCursor_key, cursor_key_of. apply negb_true_iff, not_true_is_false.
        intros Hle. apply (Hd x.1).
        - apply list_elem_of_fmap. exists x. set_solver.
        - rewrite (entry_le_antisym x e); [apply list_elem_of_fmap; by exists e| |exact Hle].
          eapply (StronglySorted_app_1_elem_of entry_le); [exact Hs|set_solver|done]. }
      clear -Ha. induction l2 as [|e l2 IH]; [done|].
      rewrite filter_cons_True by (apply Ha; set_solver). f_equal. apply IH. set_solver.
    + intros e He. rewrite afterCursor_key, cursor_key_of. apply StronglySorted_app_1_l in Hs.
      apply elem_of_app in He as [He| ->%list_elem_of_singleton].
      * rewrite (StronglySorted_app_1_elem_of entry_le l1 [x] e x Hs He) by set_solver. done.
      * destruct (key_leb_total (entry_key x) (entry_key x)) as [->| ->]; done.
Qed.

Lemma page_after s now limit l1 l2 :
  candidates s now = l1 ++ l2 ->
  let n := Z.to_nat (boundedLimit limit 10000) in
  listRecoveryCandidates s now limit (cursorAfter l1) =
  mkPage (map toCandidate (take n l2))
    (if Nat.eqb (length (take n l2)) n then cursorAfter (l1 ++ take n l2) else None).
Proof.
  intros Hc n. unfold listRecoveryCandidates. rewrite sort_filter, (filter_after s now l1 l2 Hc).
  fold n. f_equal. destruct (Nat.eqb_spec (length (take n l2)) n) as [He|]; [|done].
  unfold cursorAfter. rewrite last_app. destruct (last (take n l2)) as [e|] eqn:El; [done|].
  apply last_None in El. rewrite El in He. simpl in He. unfold n, boundedLimit in He. lia.
Qed.

Lemma scan_after fuel s now limit l1 l2 :
  candidates s now = l1 ++ l2 -> (length l2 < fuel)%nat ->
  scan fuel s now limit (cursorAfter l1) = map toCandidate l2.
Proof.
  revert l1 l2. induction fuel as [|fuel IH]; intros l1 l2 Hc Hf; [lia|]. cbn [scan].
  rewrite (page_after s now limit l1 l2 Hc). cbn [items nextCursor].
  set (n := Z.to_nat (boundedLimit limit 10000)).
  assert (0 < n)%nat as Hn by (unfold n, boundedLimit; lia).
  destruct (Nat.eqb_spec (length (take n l2)) n) as [He|Hne].
  - assert (cursorAfter (l1 ++ take n l2) <> None) as Hcur.
    { unfold cursorAfter. rewrite last_app. destruct (take n l2) as [|x k] eqn:Et; [simpl in He; lia|].
      destruct (last (x :: k)) eqn:El; [done|]. by apply last_None in El. }
    destruct (cursorAfter (l1 ++ take n l2)) as [c|] eqn:Ec; [|done]. rewrite <- Ec.
    rewrite (IH (l1 ++ take n l2) (drop n l2)).
    + by rewrite <- map_app, take_drop.
    + by rewrite <- app_assoc, take_drop.
    + rewrite length_drop. rewrite length_take in He. lia.
  - rewrite app_nil_r. rewrite length_take in Hne. by rewrite take_ge by lia.
Qed.

(** ** Progress of one page *)

Lemma elem_of_take_1 {A} (x : A) n l : x ∈ take n l -> x ∈ l.
Proof. intros H. rewrite <- (take_drop n l). set_solver. Qed.

Lemma elem_of_page s now limit after c :
  c ∈ items (listRecoveryCandidates s now limit after) ->
  exists e, toCandidate e = c /\ e ∈ candidates s now.
Proof.
  unfold listRecoveryCandidates. simpl. rewrite list_elem_of_fmap.
  intros (e & -> & He). exists e. split; [done|]. apply elem_of_take_1 in He.
  rewrite sort_filter in He. apply list_elem_of_filter in He. tauto.
Qed.

(** A candidate after the cursor is on the page, or after the next cursor. *)
Lemma page_progress s now limit after e :
  e ∈ candidates s now -> afterCursor after e = true ->
  let page := listRecoveryCandidates s now limit after in
  toCandidate e ∈ items page \/
  exists c, nextCursor page = Some c /\ afterCursor (Some c) e = true.
Proof.
  intros He Ha page. subst page. unfold listRecoveryCandidates. rewrite sort_filter.
  set (n := Z.to_nat (boundedLimit limit 10000)). set (L := filter _ (candidates s now)).
  assert (e ∈ L) as HL by (by apply list_elem_of_filter).
  assert (StronglySorted entry_le L) as Hs by (apply sorted_filter, candidates_sorted).
  assert (NoDup (map fst L)) as Hnd.
  { eapply sublist_NoDup; [apply (candidates_NoDup s now)|]. apply fmap_sublist, sublist_filter. }
  rewrite <- (take_drop n L) in HL, Hs, Hnd. cbn [items nextCursor]. clearbody L.
  apply elem_of_app in HL as [HL|HL]; [left; apply list_elem_of_fmap; by exists e|right].
  assert (length (take n L) = n) as Hlen.
  { rewrite length_take. destruct (decide (n <= length L)%nat); [lia|]. rewrite drop_ge in HL by lia. set_solver. }
  rewrite Hlen, Nat.eqb_refl.
  destruct (last (take n L)) as [x|] eqn:El.
  - exists (toCursor x). split; [done|]. rewrite afterCursor_key, cursor_key_of.
    apply negb_true_iff, not_true_is_false. intros Hle.
    assert (x ∈ take n L) as Hx by (apply last_Some in El as [l' ->]; set_solver).
    rewrite map_app in Hnd. apply NoDup_app in Hnd as (_ & Hd & _).
    apply (Hd x.1); [apply list_elem_of_fmap; by exists x|].
    rewrite (entry_le_antisym x e); [apply list_elem_of_fmap; by exists e| |exact Hle].
    by eapply (StronglySorted_app_1_elem_of entry_le).
  - apply last_None in El. rewrite El in Hlen. simpl in Hlen. unfold n, boundedLimit in Hlen. lia.
Qed.

(** The rows after a cursor; every further page has fewer of them. *)
Definition remaining (s : store) (after : option IndexedTaskRecoveryCursor) : nat :=
  length (filter (fun e => afterCursor after e = true) (map_to_list (tasks s))).

Lemma page_advances s now limit after c :
  nextCursor (listRecoveryCandidates s now limit after) = Some c ->
  (remaining s (Some c) < remaining s after)%nat.
Proof.
  unfold listRecoveryCandidates. rewrite sort_filter. cbn [nextCursor]. case_cond; [|done].
  destruct (last _) as [x|] eqn:El; [|done]. intros [= <-].
  assert (x ∈ filter (fun e => afterCursor after e = true) (candidates s now)) as Hx.
  { apply last_Some in El as [l' El]. assert (x ∈ l' ++ [x]) as Hin by set_solver. rewrite <- El in Hin.
    by eapply elem_of_take_1. }
  apply list_elem_of_filter in Hx as [Hax Hx]. apply elem_of_candidates in Hx as [Hx _].
  assert (forall e, afterCursor (Some (toCursor x)) e = true -> afterCursor after e = true) as Himp.
  { intros e. destruct after as [a|]; [|done]. rewrite !afterCursor_key, cursor_key_of in *.
    rewrite !negb_true_iff in *. intros He. apply not_true_is_false. intros Hle.
    assert (key_leb (entry_key e) (entry_key x) = true); [|congruence].
    destruct (key_leb_total (cursor_key a) (entry_key x)) as [Hl|Hl]; [by eapply key_leb_trans|congruence]. }
  unfold remaining. rewrite (list_filter_iff (fun e => afterCursor (Some (toCursor x)) e = true)
    (fun e => afterCursor (Some (toCursor x)) e = true /\ afterCursor after e = true)) by naive_solver.
  rewrite <- list_filter_filter. apply (length_filter_lt _ _ x).
  - apply list_elem_of_filter. split; [done|]. destruct x. by apply elem_of_map_to_list.
  - rewrite afterCursor_key, cursor_key_of.
    destruct (key_leb_total (entry_key x) (entry_key x)) as [->| ->]; done.
Qed.

(** ** Due times *)

Lemma nextDueAt_spec s d :
  nextDueAt s = Some d ->
  (exists t row, tasks s !! t = Some row /\ live s t = true /\ row_next_check_at row = Some d) /\
  (forall t row d', tasks s !! t = Some row -> live s t = true -> row_next_check_at row = Some d' -> d <= d').
Proof.
  unfold nextDueAt. intros H. setoid_rewrite <- elem_of_map_to_list.
  revert d H. induction (map_to_list (tasks s)) as [|[t row] l IH]; intros d; simpl; [done|].
  destruct (foldr _ None l) as [x|] eqn:E.
  - destruct (IH x eq_refl) as [(t' & r' & Hin & Hl & Hn) Hmin].
    destruct (live s t) eqn:Elive; [destruct (row_next_check_at row) as [y|] eqn:En|]; simpl; intros [= <-].
    + split.
      * destruct (Z.min_spec y x) as [[? ->]|[? ->]].
        -- exists t, row. set_solver.
        -- exists t', r'. set_solver.
      * intros t0 r0 d' [[= -> ->]|Hin']%elem_of_cons Hl' Hn'; [assert (d' = y) by congruence; lia|].
        specialize (Hmin _ _ _ Hin' Hl' Hn'). lia.
    + split; [exists t', r'; set_solver|].
      intros t0 r0 d' [[= -> ->]|Hin']%elem_of_cons Hl' Hn'; [congruence|eauto].
    + split; [exists t', r'; set_solver|].
      intros t0 r0 d' [[= -> ->]|Hin']%elem_of_cons Hl' Hn'; [congruence|eauto].
  - assert (forall t0 r0 d', (t0, r0) ∈ l -> live s t0 = true -> row_next_check_at r0 = Some d' -> False) as Hno.
    { clear IH. revert E. induction l as [|[t1 r1] l IH]; simpl; [set_solver|].
      destruct (live s t1) eqn:E1; [destruct (row_next_check_at r1) eqn:E2|]; simpl.
      - by destruct (foldr _ None l).
      - intros E t0 r0 d' [[= -> ->]|Hin]%elem_of_cons ? ?; [congruence|by eapply IH].
      - intros E t0 r0 d' [[= -> ->]|Hin]%elem_of_cons ? ?; [congruence|by eapply IH]. }
    destruct (live s t) eqn:Elive; [|done]. destruct (row_next_check_at row) as [y|] eqn:En; [|done].
    simpl. intros [= <-]. split; [exists t, row; set_solver|].
    intros t0 r0 d' [[= -> ->]|Hin]%elem_of_cons Hl' Hn'; [assert (d' = y) by congruence; lia|].
    by edestruct Hno.
Qed.

Lemma nextDueAt_None s t row :
  nextDueAt s = None -> tasks s !! t = Some row -> live s t = true -> row_next_check_at row = None.
Proof.
  unfold nextDueAt. rewrite <- elem_of_map_to_list.
  induction (map_to_list (tasks s)) as [|[t1 r1] l IH]; simpl; [set_solver|].
  destruct (foldr _ None l) as [x|] eqn:E; simpl.
  - by destruct (live s t1), (row_next_check_at r1).
  - intros H [[= -> ->]|Hin]%elem_of_cons Hl; [|by apply IH].
    rewrite Hl in H. by destruct (row_next_check_at r1).
Qed.

Lemma isCandidate_mono s now now' e :
  now <= now' -> isCandidate s now e = true -> isCandidate s now' e = true.
Proof.
  intros Hn. unfold isCandidate, dueBy. rewrite !andb_true_iff, !orb_true_iff.
  intros [H ->]. split; [|done].
  destruct H as [[[H|H]|H]|H]; [auto..| |];
    (destruct (row_next_check_at e.2), (row_lease_until e.2); try done; reflect_bools;
     rewrite ?Z.leb_le in *; first [right; lia | left; right; lia]).
Qed.

(** ** The interface offered to the recovery scheduler *)

(** [IndexedTaskRecoverySource]. *)
Class RecoverySource (S : Type) : Type := {
  rs_list : S -> Z -> Z -> option IndexedTaskRecoveryCursor -> IndexedTaskCandidatePage;
  rs_nextDueAt : S -> option Z }.

(** What a source promises.  [rs_pending s now t] holds of the Tasks that need
    recovery, [rs_ahead s cur t] of those a scan at [cur] has still to reach. *)
Class RecoverySourceLaws (S : Type) `{RecoverySource S} : Type := {
  rs_pending : S -> Z -> string -> Prop;
  rs_ahead : S -> option IndexedTaskRecoveryCursor -> string -> Prop;
  rs_remaining : S -> option IndexedTaskRecoveryCursor -> nat;
  (** only Tasks that need recovery are listed *)
  rs_sound : forall s now limit cur c,
    c ∈ items (rs_list s now limit cur) -> rs_pending s now (ca_taskId c);
  (** a fresh scan has everything ahead *)
  rs_fresh : forall s now t, rs_pending s now t -> rs_ahead s None t;
  (** a page lists what is ahead or keeps it ahead *)
  rs_progress : forall s now limit cur t,
    rs_pending s now t -> rs_ahead s cur t ->
    t ∈ map ca_taskId (items (rs_list s now limit cur)) \/
    exists c, nextCursor (rs_list s now limit cur) = Some c /\ rs_ahead s (Some c) t;
  (** a scan ends *)
  rs_advance : forall s now limit cur c,
    nextCursor (rs_list s now limit cur) = Some c -> (rs_remaining s (Some c) < rs_remaining s cur)%nat;
  (** time only adds work *)
  rs_monotone : forall s now now' t, now <= now' -> rs_pending s now t -> rs_pending s now' t;
  (** the nearest due time belongs to a Task that needs recovery from then on *)
  rs_due : forall s d, rs_nextDueAt s = Some d -> exists t, rs_pending s d t }.

(** The store implements it. *)
#[export] Instance store_source : RecoverySource store := {
  rs_list := listRecoveryCandidates;
  rs_nextDueAt := nextDueAt }.

Definition store_pending (s : store) (now : Z) (t : string) : Prop :=
  exists row, tasks s !! t = Some row /\ isCandidate s now (t, row) = true.

Definition store_ahead (s : store) (cur : option IndexedTaskRecoveryCursor) (t : string) : Prop :=
  exists row, tasks s !! t = Some row /\ afterCursor cur (t, row) = true.

#[export] Instance store_source_laws : RecoverySourceLaws store.
Proof.
  refine {| rs_pending := store_pending; rs_ahead := store_ahead; rs_remaining := remaining |}; simpl.
  - intros s now limit cur c (e & <- & [He Hc]%elem_of_candidates)%elem_of_page.
    exists e.2. split; [done|]. by destruct e.
  - intros s now t (row & Hrow & _). by exists row.
  - intros s now limit cur t (row & Hrow & Hc) (row' & Hrow' & Ha).
    assert (row' = row) as -> by congruence.
    destruct (page_progress s now limit cur (t, row)) as [Hin|(c & Hn & Hc')].
    + by apply elem_of_candidates.
    + done.
    + left. apply list_elem_of_fmap. by exists (toCandidate (t, row)).
    + right. exists c. split; [done|]. by exists row.
  - intros s now limit cur c. apply page_advances.
  - intros s now now' t Hn (row & Hrow & Hc). exists row. split; [done|]. by eapply isCandidate_mono.
  - intros s d [(t & row & Hrow & Hl & Hd) _]%nextDueAt_spec. exists t, row. split; [done|].
    unfold isCandidate. simpl. rewrite Hd, Hl. simpl. rewrite Z.leb_refl. by rewrite !orb_true_r.
Defined.

(** ** Properties *)

(** Keyset pagination of the recovery index is complete and duplicate-free:
    reading page after page, whatever the limit, ends and lists exactly the live
    Tasks that are ready, changed, due or past their lease, each once, the human
    lane first and the oldest first within a lane. *)
Theorem recovery_pagination_complete s now limit :
  scan (S (length (candidates s now))) s now limit None = map toCandidate (candidates s now) /\
  (forall t row, (t, row) ∈ candidates s now <->
     tasks s !! t = Some row /\ live s t = true /\
     (row_ready row = true \/ row_changed row = true \/
      (exists d, row_next_check_at row = Some d /\ d <= now) \/
      (exists d, row_lease_until row = Some d /\ d <= now))) /\
  NoDup (map fst (candidates s now)) /\ StronglySorted entry_le (candidates s now).
Proof.
  split_ands; [|intros t row|apply candidates_NoDup|apply candidates_sorted].
  - apply (scan_after _ s now limit [] (candidates s now)); [done|lia].
  - rewrite elem_of_candidates. simpl. unfold isCandidate, dueBy. simpl.
    rewrite andb_true_iff, !orb_true_iff.
    assert (forall o : option Z, match o with Some a => a <=? now | None => false end = true <->
      exists d, o = Some d /\ d <= now) as Hdue.
    { intros [d|]; [rewrite Z.leb_le|]; naive_solver. }
    rewrite !Hdue. tauto.
Qed.

(** Backoff is honoured: a Task written while its execution retry is pending
    is neither ready nor changed and is due at the retry time, so it is not a
    recovery candidate before then unless its lease has expired; a Task whose
    retries are exhausted is no candidate unless a check time or a lease is
    due. *)
Theorem cooldown_respected now r tr ready nc s s' a :
  putTask now r tr ready nc s = (Ok a, s') ->
  exists row, tasks s' !! md_id (metadata r) = Some row /\
    (forall retryAt now', 0 <= now -> pendingTaskExecutionRetryAt r now = Some retryAt ->
       now' < number_to_Z retryAt -> dueBy now' (row_lease_until row) = false ->
       isCandidate s' now' (md_id (metadata r), row) = false) /\
    (forall now', taskExecutionRetryExhausted r = true -> dueBy now' (row_next_check_at row) = false ->
       dueBy now' (row_lease_until row) = false ->
       isCandidate s' now' (md_id (metadata r), row) = false).
Proof.
  intros [lease ->]%StoreInvariant.putTask_run. eexists.
  split; [simpl; apply lookup_insert_eq|]. split.
  - intros retryAt now' Hnow Hr Hlt Hlease. unfold isCandidate. cbn [fst snd]. rewrite Hlease.
    unfold taskRow in *. cbn [row_ready row_changed row_next_check_at]. rewrite Hr.
    unfold pendingTaskExecutionRetryAt in Hr. destruct (st_executionRetryAt (status r)) as [x|]; [|done].
    destruct x as [q| | |]; try done. cbn [isFinite andb] in Hr. case_cond_in Hr; [|done].
    injection Hr as <-.
    assert (number_eqb (Fin q) (num 0) = false) as Hz.
    { apply not_true_is_false. intros Hq. simpl in Hq. apply Qeq_bool_iff in Hq.
      simpl in Heqb. apply negb_true_iff, not_true_iff_false in Heqb. apply Heqb.
      apply Qle_bool_iff. rewrite Hq, <- Zle_Qle. lia. }
    rewrite Hz. unfold dueBy. rewrite (proj2 (Z.leb_gt _ _) Hlt). done.
  - intros now' Hex Hn Hl. unfold isCandidate. cbn [fst snd]. rewrite Hn, Hl.
    unfold taskRow. cbn [row_ready row_changed]. rewrite Hex.
    by destruct (pendingTaskExecutionRetryAt r now) as [x|]; [destruct (number_eqb x (num 0))|].
Qed.

(** ** Witnesses *)

Definition cooling_task : AppTaskResource :=
  mkResource (mkMetadata "a" None 1 1 None)
    (mkSpec "root" "outcome" ["done"] None None None None None None None None None)
    (mkStatus 0 pending None None None None (Some 1) None None None (Some (num 31000)) None false
       None None None None None None "2024-02-29T12:34:56.789Z").

Definition cooling_store : store :=
  snd (putTask 1000 cooling_task None true None (emptyStore "demo" ∅ ∅)).

(** A Task that failed once and retries at 31000 is not listed at 20000. *)
Lemma cooldown_respected_witness :
  exists row, tasks cooling_store !! "a" = Some row /\ isCandidate cooling_store 20000 ("a", row) = false.
Proof.
  destruct (cooldown_respected 1000 cooling_task None true None (emptyStore "demo" ∅ ∅) cooling_store tt)
    as (row & Hrow & Hc & _); [vm_compute; reflexivity|].
  exists row. split; [exact Hrow|]. apply (Hc (num 31000) 20000).
  - lia.
  - reflexivity.
  - reflexivity.
  - assert (tasks cooling_store !! "a" = Some row) as H by exact Hrow.
    vm_compute in H. injection H as <-. reflexivity.
Defined.

End RecoveryIndex.
