(* ===== verification/Recovery.v ===== *)
(** The indexed recovery scheduler ([src/app/core/tasks/app-task-recovery.ts]).

    The scheduler is modelled over any [RecoverySource]; the source's current
    state is an argument of every call, the clock readings too, in the order the
    code takes them.  Calls of [options.enqueue] are recorded in [enqueued].  The
    two owned timers are those of [Timer]; [fireSafety] and [fireDue] are the
    event loop running one of their platform timers. *)
From S2P Require Import Prelude Json TaskState TaskTree Transaction ResourceStore StoreInvariant RecoveryIndex Timer.

Module Recovery.
Import RecoveryIndex.

Definition MAX_TIMER_DELAY_MS : Z := 2147483647.

(** [Math.max] on numbers. *)
Definition number_max (a b : number) : number :=
  match a, b with
  | NaN, _ | _, NaN => NaN
  | _, _ => if number_ltb a b then b else a
  end.

Record scheduler : Type := mkScheduler {
  safetyIntervalMs : number;
  pageSize : Z;
  safetyTimer : OwnedTimer.timer;
  dueTimer : OwnedTimer.timer;
  dueAt : option Z;
  lastRecoveryAt : option Z;
  recoveryCursor : option IndexedTaskRecoveryCursor;
  closed : bool;
  enqueued : list (string * Lane) }.

Definition newScheduler (safety : option number) (page : option Z) : scheduler :=
  mkScheduler (number_max (num 1000) (default (num 45000) safety))
    (Z.max 1 (Z.min 10000 (default 256 page)))
    (OwnedTimer.newTimer "task-recovery:safety") (OwnedTimer.newTimer "task-recovery:due")
    None None None false [].

Definition set_due (t : OwnedTimer.timer) (at_ : option Z) (x : scheduler) : scheduler :=
  mkScheduler (safetyIntervalMs x) (pageSize x) (safetyTimer x) t at_ (lastRecoveryAt x)
    (recoveryCursor x) (closed x) (enqueued x).

Definition set_safety (t : OwnedTimer.timer) (x : scheduler) : scheduler :=
  mkScheduler (safetyIntervalMs x) (pageSize x) t (dueTimer x) (dueAt x) (lastRecoveryAt x)
    (recoveryCursor x) (closed x) (enqueued x).

Section Source.
Context {S : Type} `{RecoverySource S}.

Definition recover (src : S) (now : Z) (x : scheduler) : Z * scheduler :=
  if closed x then (0, x) else
  let page := rs_list src now (pageSize x) (recoveryCursor x) in
  (Z.of_nat (length (items page)),
   mkScheduler (safetyIntervalMs x) (pageSize x) (safetyTimer x) (dueTimer x) (dueAt x) (Some now)
     (nextCursor page) (closed x)
     (enqueued x ++ map (fun c => (ca_taskId c, ca_lane c)) (items page))).

Definition armNearestDue (src : S) (force : bool) (now : Z) (x : scheduler) : res unit * scheduler :=
  match rs_nextDueAt src with
  | None => (Ok tt, set_due (OwnedTimer.cancel (dueTimer x)) None x)
  | Some next =>
      if (next <=? now) && negb force &&
         match lastRecoveryAt x with Some l => next <=? l | None => false end
      then (Ok tt, x)
      else if negb force && OwnedTimer.armed (dueTimer x) && bool_decide (dueAt x = Some next)
      then (Ok tt, x)
      else
        let delayMs := Z.min MAX_TIMER_DELAY_MS (Z.max 1 (next - now)) in
        let '(r, t) := OwnedTimer.after (num delayMs) (dueTimer x) in
        (r, set_due t (Some next) x)
  end.

(** [recover] then [armNearestDue], as [start] and both timers do. *)
Definition sweep (src : S) (now1 now2 : Z) (x : scheduler) : res unit * scheduler :=
  armNearestDue src false now2 (recover src now1 x).2.

Definition start (src : S) (now1 now2 : Z) (x : scheduler) : res unit * scheduler :=
  if closed x || OwnedTimer.armed (safetyTimer x) then (Ok tt, x) else
  match sweep src now1 now2 x with
  | (Throw e, x) => (Throw e, x)
  | (Ok _, x) =>
      let '(r, t) := OwnedTimer.every (safetyIntervalMs x) (safetyTimer x) in
      (r, set_safety t x)
  end.

Definition stateChanged (src : S) (now : Z) (x : scheduler) : res unit * scheduler :=
  if closed x then (Ok tt, x) else armNearestDue src true now x.

Definition close (x : scheduler) : scheduler :=
  mkScheduler (safetyIntervalMs x) (pageSize x) (OwnedTimer.close (safetyTimer x))
    (OwnedTimer.close (dueTimer x)) None (lastRecoveryAt x) (recoveryCursor x) true (enqueued x).

Definition fireSafety (h : nat) (src : S) (now1 now2 : Z) (x : scheduler) : res unit * scheduler :=
  let '(ran, t) := OwnedTimer.fire h (safetyTimer x) in
  let x := set_safety t x in
  if ran then sweep src now1 now2 x else (Ok tt, x).

Definition fireDue (h : nat) (src : S) (now1 now2 : Z) (x : scheduler) : res unit * scheduler :=
  let '(ran, t) := OwnedTimer.fire h (dueTimer x) in
  if ran then sweep src now1 now2 (set_due t None x) else (Ok tt, set_due t (dueAt x) x).

(** ** Operations *)

Inductive op : Type :=
| OStart (src : S) (now1 now2 : Z)
| OStateChanged (src : S) (now : Z)
| ORecover (src : S) (now : Z)
| OClose
| OFireSafety (h : nat) (src : S) (now1 now2 : Z)
| OFireDue (h : nat) (src : S) (now1 now2 : Z).

Definition run_op (x : scheduler) (o : op) : scheduler :=
  match o with
  | OStart src n1 n2 => (start src n1 n2 x).2
  | OStateChanged src n => (stateChanged src n x).2
  | ORecover src n => (recover src n x).2
  | OClose => close x
  | OFireSafety h src n1 n2 => (fireSafety h src n1 n2 x).2
  | OFireDue h src n1 n2 => (fireDue h src n1 n2 x).2
  end.

(** Successive recoveries at the given clock readings. *)
Definition recoveries (src : S) (nows : list Z) (x : scheduler) : scheduler :=
  fold_left (fun x now => (recover src now x).2) nows x.

(** ** Invariant *)

(** Every timer the due owner holds is a one-shot within Node's range. *)
Definition due_delays (t : OwnedTimer.timer) : Prop :=
  forall h j, OwnedTimer.scheduled t !! h = Some j ->
    OwnedTimer.t_recurring j = false /\
    exists d, OwnedTimer.t_delay j = inject_Z d /\ 1 <= d <= MAX_TIMER_DELAY_MS.

Record wf (x : scheduler) : Prop := mkWf {
  wf_safety : OwnedTimer.wf (safetyTimer x);
  wf_due : OwnedTimer.wf (dueTimer x);
  wf_delays : due_delays (dueTimer x);
  wf_armed : OwnedTimer.armed (dueTimer x) = true <-> is_Some (dueAt x);
  wf_closed : closed x = OwnedTimer.closed (safetyTimer x) /\ closed x = OwnedTimer.closed (dueTimer x) }.

Lemma number_delay_valid d : 1 <= d -> number_ltb (Fin (inject_Z d)) (num 0) = false.
Proof. intros Hd. apply negb_false_iff, Qle_bool_iff. rewrite <- Zle_Qle. lia. Qed.

(** Arming the due timer with a valid delay. *)
Lemma after_valid d t :
  1 <= d -> OwnedTimer.closed t = false ->
  OwnedTimer.after (num d) t =
  (Ok tt, let t := OwnedTimer.cancel t in
    OwnedTimer.mkTimer (OwnedTimer.label t) (Some (OwnedTimer.nextHandle t)) (OwnedTimer.generation t)
      (OwnedTimer.closed t)
      (<[OwnedTimer.nextHandle t := OwnedTimer.JsTimer (inject_Z d) false (OwnedTimer.generation t)]>
         (OwnedTimer.scheduled t)) (Datatypes.S (OwnedTimer.nextHandle t))).
Proof.
  intros Hd Hc. unfold OwnedTimer.after, OwnedTimer.replace. rewrite Hc.
  change (num d) with (Fin (inject_Z d)). cbv iota. rewrite number_delay_valid by done.
  simpl. reflexivity.
Qed.

Lemma recover_wf src now x : wf x -> wf (recover src now x).2.
Proof. intros Hwf. unfold recover. destruct (closed x) eqn:Hc; [done|]. destruct Hwf. constructor; simpl; try done. by rewrite <- Hc. Qed.

Lemma armNearestDue_wf src force now x : wf x -> closed x = false -> wf (armNearestDue src force now x).2.
Proof.
  intros [Hs Hd Hdel Harm [Hc1 Hc2]] Hopen. unfold armNearestDue.
  destruct (rs_nextDueAt src) as [next|]; [|].
  - case_cond; [done|]. case_cond; [done|].
    set (d := Z.min _ _). assert (1 <= d <= MAX_TIMER_DELAY_MS) as Hd1 by (unfold d, MAX_TIMER_DELAY_MS; lia).
    pose proof (OwnedTimer.replace_wf (num d) false (dueTimer x) Hd) as Hwf.
    fold (OwnedTimer.after (num d) (dueTimer x)) in Hwf.
    rewrite after_valid in * by (lia || congruence). simpl in Hwf |- *.
    constructor; simpl; try done.
    + intros h j. simpl. rewrite lookup_insert.
      destruct (decide (OwnedTimer.nextHandle (dueTimer x) = h)).
      * intros Hj. injection Hj as <-. simpl. split; [done|]. by exists d.
      * pose proof (OwnedTimer.cancel_scheduled (dueTimer x) Hd) as He. simpl in He.
        by rewrite He, lookup_empty.
  - constructor; simpl; try done.
    + by apply OwnedTimer.cancel_wf.
    + pose proof (OwnedTimer.cancel_scheduled (dueTimer x) Hd) as He. simpl in He.
      intros h j. simpl. by rewrite He, lookup_empty.
Qed.

Lemma recover_closed src now x : closed (recover src now x).2 = closed x.
Proof. unfold recover. by destruct (closed x) eqn:Hc. Qed.

Lemma sweep_wf src n1 n2 x : wf x -> closed x = false -> wf (sweep src n1 n2 x).2.
Proof. intros Hwf Hc. apply armNearestDue_wf; [by apply recover_wf|by rewrite recover_closed]. Qed.

Lemma fire_closed h t : OwnedTimer.closed (OwnedTimer.fire h t).2 = OwnedTimer.closed t.
Proof. unfold OwnedTimer.fire. repeat case_cond; done. Qed.

Lemma fire_ran h t : OwnedTimer.wf t -> (OwnedTimer.fire h t).1 = true -> OwnedTimer.closed t = false.
Proof.
  intros Hwf. unfold OwnedTimer.fire. destruct (OwnedTimer.scheduled t !! h) as [j|] eqn:E; [|done].
  destruct (OwnedTimer.wf_scheduled t Hwf h j E) as [Hh _].
  destruct (OwnedTimer.closed t) eqn:Ec; [|done]. by rewrite (OwnedTimer.wf_closed t Hwf Ec) in Hh.
Qed.

Lemma fireDue_wf h src n1 n2 x : wf x -> wf (fireDue h src n1 n2 x).2.
Proof.
  intros Hwf. unfold fireDue. destruct (OwnedTimer.fire h (dueTimer x)) as [ran t] eqn:E.
  pose proof (OwnedTimer.fire_wf h (dueTimer x) (wf_due x Hwf)) as Ht.
  pose proof (fire_closed h (dueTimer x)) as Hc. pose proof (fire_ran h (dueTimer x) (wf_due x Hwf)) as Hr.
  rewrite E in *. simpl in *.
  assert (ran = true -> OwnedTimer.scheduled t = ∅ /\ OwnedTimer.armed t = false) as Hone.
  { intros ->. unfold OwnedTimer.fire in E. destruct (OwnedTimer.scheduled (dueTimer x) !! h) as [j|] eqn:Ej; [|done].
    destruct (wf_delays x Hwf h j Ej) as [Hrec _]. rewrite Hrec in E. simpl in E. case_cond_in E; [done|].
    injection E as <-. split; [|done]. by apply OwnedTimer.wf_unscheduled. }
  assert (ran = false -> t = dueTimer x) as Hno.
  { intros ->. unfold OwnedTimer.fire in E. destruct (OwnedTimer.scheduled (dueTimer x) !! h) as [j|] eqn:Ej; [|congruence].
    destruct (OwnedTimer.wf_scheduled _ (wf_due x Hwf) h j Ej) as (Hh & Hg & _).
    destruct (OwnedTimer.closed (dueTimer x)) eqn:Ec; [by rewrite (OwnedTimer.wf_closed _ (wf_due x Hwf) Ec) in Hh|].
    destruct (OwnedTimer.t_recurring j); simpl in E; by rewrite ?Ec, Hg, Z.eqb_refl in E. }
  destruct Hwf as [Hs Hd Hdel Harm [Hc1 Hc2]]. destruct ran.
  - destruct (Hone eq_refl) as [He Ha]. apply sweep_wf; [|simpl; rewrite Hc2; auto].
    constructor; simpl; try done.
    + intros k j. by rewrite He, lookup_empty.
    + rewrite Ha. split; [done|by intros [? ?]].
    + by rewrite Hc.
  - rewrite (Hno eq_refl). simpl. constructor; done.
Qed.

Lemma fireSafety_wf h src n1 n2 x : wf x -> wf (fireSafety h src n1 n2 x).2.
Proof.
  intros Hwf. unfold fireSafety. destruct (OwnedTimer.fire h (safetyTimer x)) as [ran t] eqn:E.
  pose proof (OwnedTimer.fire_wf h (safetyTimer x) (wf_safety x Hwf)) as Ht.
  pose proof (fire_closed h (safetyTimer x)) as Hc.
  pose proof (fire_ran h (safetyTimer x) (wf_safety x Hwf)) as Hr. rewrite E in *. simpl in *.
  assert (wf (set_safety t x)) as Hx.
  { destruct Hwf as [Hs Hd Hdel Harm [Hc1 Hc2]]. constructor; simpl; try done. by rewrite Hc. }
  destruct ran; [|done]. apply sweep_wf; [done|]. simpl. rewrite (proj1 (wf_closed x Hwf)). auto.
Qed.

Lemma start_wf src n1 n2 x : wf x -> wf (start src n1 n2 x).2.
Proof.
  intros Hwf. unfold start. case_cond; [done|]. apply orb_false_iff in Heqb as [Hc _].
  pose proof (sweep_wf src n1 n2 x Hwf Hc) as Hw. destruct (sweep src n1 n2 x) as [[[]|e] y]; [|done].
  simpl in Hw. destruct (OwnedTimer.every _ _) as [r t] eqn:E. simpl.
  pose proof (OwnedTimer.replace_wf (safetyIntervalMs y) true (safetyTimer y) (wf_safety y Hw)) as Ht.
  unfold OwnedTimer.every in E. rewrite E in Ht.
  assert (OwnedTimer.closed t = OwnedTimer.closed (safetyTimer y)) as Hct.
  { unfold OwnedTimer.replace in E. repeat case_cond_in E; by injection E as <- <-. }
  destruct Hw as [Hs Hd Hdel Harm [Hc1 Hc2]]. constructor; simpl; try done. by rewrite Hct.
Qed.

Lemma recovery_close_wf x : wf x -> wf (close x).
Proof.
  intros [Hs Hd Hdel Harm [Hc1 Hc2]].
  destruct (OwnedTimer.close_wf (safetyTimer x) Hs) as (Hs1 & _ & Hs3).
  destruct (OwnedTimer.close_wf (dueTimer x) Hd) as (Hd1 & Hd2 & Hd3).
  constructor; simpl; try done.
  intros h j Hj. rewrite Hd2, lookup_empty in Hj. done.
Qed.

Lemma recovery_run_op_wf x o : wf x -> wf (run_op x o).
Proof.
  intros Hwf. destruct o; simpl; auto using recover_wf, start_wf, fireDue_wf, fireSafety_wf, recovery_close_wf.
  unfold stateChanged. case_cond; [done|]. by apply armNearestDue_wf.
Qed.

Lemma newScheduler_wf safety page : wf (newScheduler safety page).
Proof.
  constructor; simpl; try apply OwnedTimer.newTimer_wf; done.
Qed.

(** A closed scheduler stays closed and enqueues nothing. *)
Lemma closed_run_op x o :
  wf x -> closed x = true -> closed (run_op x o) = true /\ enqueued (run_op x o) = enqueued x.
Proof.
  intros Hwf Hc. destruct o; simpl; try done.
  - unfold start. by rewrite Hc.
  - unfold stateChanged. by rewrite Hc.
  - unfold recover. by rewrite Hc.
  - unfold fireSafety. destruct (OwnedTimer.fire h (safetyTimer x)) as [ran t] eqn:E.
    destruct ran; [|done]. exfalso. pose proof (fire_ran h (safetyTimer x) (wf_safety x Hwf)) as Hr.
    rewrite E, <- (proj1 (wf_closed x Hwf)), Hc in Hr. by specialize (Hr eq_refl).
  - unfold fireDue. destruct (OwnedTimer.fire h (dueTimer x)) as [ran t] eqn:E.
    destruct ran; [|done]. exfalso. pose proof (fire_ran h (dueTimer x) (wf_due x Hwf)) as Hr.
    rewrite E, <- (proj2 (wf_closed x Hwf)), Hc in Hr. by specialize (Hr eq_refl).
Qed.

Lemma run_all_wf ops x : wf x -> wf (fold_left run_op ops x).
Proof. revert x. induction ops; intros x Hwf; simpl; auto using recovery_run_op_wf. Qed.

Lemma closed_run_all ops x :
  wf x -> closed x = true ->
  closed (fold_left run_op ops x) = true /\ enqueued (fold_left run_op ops x) = enqueued x.
Proof.
  revert x. induction ops as [|o ops IH]; intros x Hwf Hc; simpl; [done|].
  destruct (closed_run_op x o Hwf Hc) as [Hc' He]. rewrite <- He. apply IH; [by apply recovery_run_op_wf|done].
Qed.

Lemma timer_armed_iff t :
  OwnedTimer.wf t ->
  OwnedTimer.armed t = true <-> exists h, dom (OwnedTimer.scheduled t) = {[h]}.
Proof.
  intros Hwf. unfold OwnedTimer.armed. rewrite bool_decide_eq_true. split.
  - intros [i Hi]. exists i. apply set_eq. intros j. rewrite elem_of_dom, elem_of_singleton. split.
    + intros [y Hy]. destruct (OwnedTimer.wf_scheduled t Hwf j y Hy) as [Hj _]. congruence.
    + intros ->. by apply (OwnedTimer.wf_handle t Hwf).
  - intros [i Hi]. assert (i ∈ dom (OwnedTimer.scheduled t)) as [y Hy]%elem_of_dom by set_solver.
    destruct (OwnedTimer.wf_scheduled t Hwf i y Hy) as [-> _]. by eexists.
Qed.

(** ** Properties *)

(** The scheduler's timers stay disciplined through any sequence of starts,
    state changes, recoveries, firings and closes: the due owner holds at most
    one platform timer, exactly while a due time is retained, always a one-shot
    of 1 to 2147483647 ms (Node's range); and once closed the scheduler holds no
    timer and enqueues nothing more. *)
Theorem recovery_timers_disciplined safety page before later :
  let x := fold_left run_op before (newScheduler safety page) in
  let z := fold_left run_op later (close x) in
  due_delays (dueTimer x) /\
  (OwnedTimer.armed (dueTimer x) = true <-> is_Some (dueAt x)) /\
  (OwnedTimer.armed (dueTimer x) = true <-> exists h, dom (OwnedTimer.scheduled (dueTimer x)) = {[h]}) /\
  OwnedTimer.scheduled (dueTimer z) = ∅ /\ OwnedTimer.scheduled (safetyTimer z) = ∅ /\
  enqueued z = enqueued x.
Proof.
  intros x z. assert (wf x) as Hx by (apply run_all_wf, newScheduler_wf).
  assert (wf z) as Hz by (apply run_all_wf, recovery_close_wf, Hx).
  destruct (closed_run_all later (close x) (recovery_close_wf x Hx) eq_refl) as [Hc He]. fold z in Hc, He.
  destruct (wf_closed z Hz) as [Hcs Hcd].
  split_ands; [apply Hx|apply Hx| | | |exact He].
  - apply timer_armed_iff, Hx.
  - apply OwnedTimer.wf_unscheduled; [apply Hz|]. apply OwnedTimer.wf_closed; [apply Hz|congruence].
  - apply OwnedTimer.wf_unscheduled; [apply Hz|]. apply OwnedTimer.wf_closed; [apply Hz|congruence].
Qed.

(** No due time is overlooked: when the scheduler looks for the nearest due
    time while open, then afterwards there is none, or it holds a timer that
    fires no later than one millisecond past that time (or than Node's longest
    delay, at which it looks again), or the time had already passed when the
    last recovery query ran. *)
Theorem nearest_due_is_armed src force now x d :
  wf x -> closed x = false -> rs_nextDueAt src = Some d ->
  let y := (armNearestDue src force now x).2 in
  (dueAt y = Some d /\ OwnedTimer.armed (dueTimer y) = true /\
   (y = x \/ exists h j k, OwnedTimer.handle (dueTimer y) = Some h /\
      OwnedTimer.scheduled (dueTimer y) !! h = Some j /\ OwnedTimer.t_delay j = inject_Z k /\
      k <= Z.max 1 (d - now) /\ (k = Z.max 1 (d - now) \/ k = MAX_TIMER_DELAY_MS))) \/
  (force = false /\ exists l, lastRecoveryAt x = Some l /\ d <= l).
Proof.
  intros Hwf Hc Hd y. subst y. unfold armNearestDue. rewrite Hd. case_cond.
  - right. reflect_bools. split; [by destruct force|].
    destruct (lastRecoveryAt x) as [l|]; [|done]. reflect_bools. eauto.
  - left. case_cond.
    + reflect_bools. split_ands; auto.
    + rewrite after_valid; [|unfold MAX_TIMER_DELAY_MS; lia|by rewrite <- (proj2 (wf_closed x Hwf))]. simpl. split_ands; [done|done|].
      right. eexists _, _, _. split; [done|]. split; [apply lookup_insert_eq|]. split; [reflexivity|].
      unfold MAX_TIMER_DELAY_MS. lia.
Qed.

Context {L : RecoverySourceLaws S}.

Lemma recover_open src now x :
  closed x = false ->
  (recover src now x).2 = mkScheduler (safetyIntervalMs x) (pageSize x) (safetyTimer x) (dueTimer x) (dueAt x)
    (Some now) (nextCursor (rs_list src now (pageSize x) (recoveryCursor x))) false
    (enqueued x ++ map (fun c => (ca_taskId c, ca_lane c)) (items (rs_list src now (pageSize x) (recoveryCursor x)))).
Proof. intros Hc. unfold recover. by rewrite Hc. Qed.

Lemma recoveries_grow src nows x t :
  t ∈ map fst (enqueued x) -> t ∈ map fst (enqueued (recoveries src nows x)).
Proof.
  revert x. induction nows as [|n nows IH]; intros x Ht; [done|]. apply IH. unfold recover.
  case_cond; [done|]. simpl. rewrite map_app. set_solver.
Qed.

(** What is ahead of the cursor is enqueued before the scan ends. *)
Lemma recoveries_reach src nows x t :
  closed x = false -> (forall n, n ∈ nows -> rs_pending src n t) -> rs_ahead src (recoveryCursor x) t ->
  (rs_remaining src (recoveryCursor x) < length nows)%nat ->
  t ∈ map fst (enqueued (recoveries src nows x)).
Proof.
  revert x. induction nows as [|n nows IH]; intros x Hc Hp Ha Hlen; simpl in Hlen; [lia|].
  change (t ∈ map fst (enqueued (recoveries src nows (recover src n x).2))).
  destruct (rs_progress src n (pageSize x) (recoveryCursor x) t) as [Hin|(c & Hn & Hahead)];
    [apply Hp; set_solver|done| |].
  - apply recoveries_grow. rewrite recover_open by done. simpl.
    rewrite map_app, map_map. simpl. set_solver.
  - rewrite recover_open by done. apply IH; simpl; [done|..].
    + intros n' Hn'. apply Hp. set_solver.
    + by rewrite Hn.
    + rewrite Hn. apply rs_advance in Hn. lia.
Qed.


End Source.

(** ** Witnesses, over the Task resource store *)

Definition due_store : ResourceStore.store := cooling_store.


Lemma nearest_due_is_armed_witness :
  let y := (armNearestDue due_store false 1000 (newScheduler None None)).2 in
  (dueAt y = Some 31000 /\ OwnedTimer.armed (dueTimer y) = true /\
   (y = newScheduler None None \/ exists h j k, OwnedTimer.handle (dueTimer y) = Some h /\
      OwnedTimer.scheduled (dueTimer y) !! h = Some j /\ OwnedTimer.t_delay j = inject_Z k /\
      k <= Z.max 1 (31000 - 1000) /\ (k = Z.max 1 (31000 - 1000) \/ k = MAX_TIMER_DELAY_MS))) \/
  (false = false /\ exists l, lastRecoveryAt (newScheduler None None) = Some l /\ 31000 <= l).
Proof.
  apply (nearest_due_is_armed due_store false 1000 (newScheduler None None) 31000).
  - apply newScheduler_wf.
  - reflexivity.
  - vm_compute. reflexivity.
Defined.

End Recovery.
