(* ===== verification/Snapshot.v ===== *)
(** Reading an App's whole Task state: [readSnapshot] of
    [src/app/core/state/app-task-resource-store.ts], and the snapshot cache of
    [src/app/core/tasks/app-task-store.ts] ([cacheTaskSnapshots],
    [readTaskSnapshot], [commitTaskMutation]), which trusts the store's
    revision to tell whether a cached tree is still current. *)
From S2P Require Import Prelude Json TaskState TaskTree Transaction ResourceStore StoreInvariant StoreCommit.

Module Snapshot.
Import StateTransaction ResourceStore StoreInvariant StoreCommit.

(** ** Reading the store *)

(** [Object.fromEntries] of the rows of one table; rows without a key are skipped. *)
Definition jsonMap {A} (m : gmap string A) : obj A :=
  filter (fun e => e.1 <> "") (map_to_list m).

Definition metaText (md : obj json) (k : string) : option string :=
  match obj_get k md with Some (JStr s) => Some s | _ => None end.

Definition metaNumber (md : obj json) (k : string) : option Z :=
  match obj_get k md with Some (JNum n) => Some (number_to_Z n) | _ => None end.

Definition readSnapshot (s : store) : res TaskTree.TaskTree :=
  match m_app_metadata s with
  | None => Throw "Task resource store has no imported App metadata"
  | Some md =>
      Ok (TaskTree.mkTree (metaNumber md "version") (metaText md "project") (metaText md "updated_at")
        (metaText md "project_lifecycle") (metaText md "root_task_id")
        (jsonMap (conditions s))
        (jsonMap (row_resource <$> tasks s))
        (jsonMap (ar_attempt <$> attempts s))
        (jsonMap (omap row_trigger (tasks s)))
        (jsonMap (admissions s))
        (jsonMap (rw_receipt <$> receipts s))
        (jsonMap (cw_cancellation <$> cancellations s))
        (map (fun e => (e.1, TaskTree.normalizeTaskGroup e.1 e.2)) (jsonMap (groups s))))
  end.

(** ** The cache *)

(** [TaskSnapshotCache] of a context: absent until [cacheTaskSnapshots]. *)
Record TaskSnapshotCache : Type := mkCache {
  cache_tree : option TaskTree.TaskTree;
  cache_revision : option Z }.

Definition cacheTaskSnapshots : option TaskSnapshotCache := Some (mkCache None None).

(** [readTaskSnapshot] without a scope. *)
Definition readTaskSnapshot (cache : option TaskSnapshotCache) (s : store)
    : res TaskTree.TaskTree * option TaskSnapshotCache :=
  let rev := revision s in
  match cache with
  | Some (mkCache (Some tree) (Some r)) =>
      if r =? rev then (Ok tree, cache) else
      match readSnapshot s with
      | Ok tree => (Ok tree, Some (mkCache (Some tree) (Some rev)))
      | Throw e => (Throw e, cache)
      end
  | Some _ =>
      match readSnapshot s with
      | Ok tree => (Ok tree, Some (mkCache (Some tree) (Some rev)))
      | Throw e => (Throw e, cache)
      end
  | None => (readSnapshot s, None)
  end.

Definition set_updated_at (now : option string) (tree : TaskTree.TaskTree) : TaskTree.TaskTree :=
  TaskTree.mkTree (TaskTree.version tree) (TaskTree.project tree) now (TaskTree.project_lifecycle tree)
    (TaskTree.root_task_id tree) (TaskTree.conditions tree) (TaskTree.resources tree)
    (TaskTree.attempts tree) (TaskTree.taskTriggers tree) (TaskTree.appTaskAdmissions tree)
    (TaskTree.receipts tree) (TaskTree.cancellations tree) (TaskTree.groups tree).

(** [commitTaskMutation]: [scoped] tells whether the tree is a scoped read,
    [inTransaction] whether an outer transaction is open. *)
Definition commitTaskMutation (now : Z) (nowText : string) (tree : TaskTree.TaskTree) (scoped inTransaction : bool)
    (m : AppTaskResourceMutation) (cache : option TaskSnapshotCache) (s : store)
    : res unit * option TaskSnapshotCache * store :=
  match commit now m s with
  | (Throw e, s) => (Throw e, cache, s)
  | (Ok false, s) => (Throw "Resource-backed task mutation was rejected by a stale fence", cache, s)
  | (Ok true, s) =>
      (Ok tt,
       match cache with
       | None => None
       | Some _ =>
           if scoped || inTransaction then Some (mkCache None None)
           else Some (mkCache (Some (set_updated_at (Some nowText) tree)) (Some (revision s)))
       end, s)
  end.

(** ** Revisions *)

(** One operation keeps the revision and everything a snapshot shows, or moves
    to the next revision. *)
Definition tracked (s s' : store) : Prop :=
  (m_revision s' = m_revision s /\ readSnapshot s' = readSnapshot s) \/ m_revision s' = m_revision s + 1.

Lemma tracked_refl s : tracked s s.
Proof. by left. Qed.

(** A change of Task rows that keeps the stored records is invisible. *)
Lemma set_tasks_tracked ts s :
  row_resource <$> ts = row_resource <$> tasks s -> omap row_trigger ts = omap row_trigger (tasks s) ->
  tracked s (set_tasks ts s).
Proof. intros Hr Ht. left. unfold readSnapshot. simpl. by rewrite Hr, Ht. Qed.

(** The two parts of a row a snapshot shows. *)
Definition shown (row : TaskRow) : AppTaskResource * option AppTaskTrigger := (row_resource row, row_trigger row).

Lemma shown_tracked ts s : shown <$> ts = shown <$> tasks s -> tracked s (set_tasks ts s).
Proof.
  intros H. apply set_tasks_tracked.
  - apply (f_equal (fmap fst)) in H. by rewrite <- !map_fmap_compose in H.
  - apply map_eq. intros t. rewrite !lookup_omap.
    assert (shown <$> ts !! t = shown <$> tasks s !! t) as Ht by (by rewrite <- !lookup_fmap, H).
    destruct (ts !! t) as [r|], (tasks s !! t) as [r'|]; try discriminate Ht; simpl; [|done].
    by injection Ht.
Qed.

Lemma atomically_tracked {A} (f : M A) s :
  (forall a s', f s = (Ok a, s') -> tracked s s') -> tracked s (snd (atomically f s)).
Proof.
  intros H. unfold atomically. destruct (f s) as [[a|e] s'] eqn:E; [by eapply H | apply tracked_refl].
Qed.

Lemma commit_tracked now m s : tracked s (snd (commit now m s)).
Proof.
  destruct (commit now m s) as [r s'] eqn:E. simpl.
  destruct (commit_cases now m s r s' E) as [(_ & _ & Ha)|[_ ->]]; [|apply tracked_refl].
  right. destruct (applyMutation_framed _ now m s true s' (framed_revision (m_revision s)) Ha)
    as (s1 & s2 & s5 & H1 & H2 & H5 & -> & _). simpl. rewrite H5; [done|].
  rewrite H2, (deletes_frame m_revision) by done.
  exact (reopen_keeps m_revision m _ (m_revision s) (fun _ _ => eq_refl) s tt s1 eq_refl H1).
Qed.

(** *** Bootstrap *)

Lemma backfill_revision s : m_revision (backfillTaskEventReceipts s) = m_revision s.
Proof.
  unfold backfillTaskEventReceipts.
  assert (forall t a n s, m_revision (putEventNumber t a n s) = m_revision s) as Hput.
  { intros t a [n|] y; unfold putEventNumber; repeat case_cond; done. }
  apply (fold_left_inv (fun x => m_revision x = m_revision s));
    [|apply (fold_left_inv (fun x => m_revision x = m_revision s)); [|done]];
    intros y a _ Hy; (apply (fold_left_inv (fun x => m_revision x = m_revision s)); [|done]);
    intros z b _ Hz; by rewrite Hput.
Qed.

Lemma seedTasks_revision now tree ready n : keeps (fun x => m_revision x = n) (seedTasks now tree ready).
Proof.
  pose proof (framed_revision n) as []. unfold seedTasks, seedTask.
  repeat (apply keeps_bind; [|intros _]); apply keeps_each; intros x _.
  - apply keeps_bind; [auto|]. intros _. apply keeps_modify. auto.
  - apply keeps_snd. intros s Hs. unfold seedAttempt. by repeat case_cond.
  - apply keeps_snd. intros s Hs. unfold seedCondition. by case_cond.
  - apply keeps_modify. auto.
Qed.

Lemma bootstrapBody_revision now nowText src tree ready s s' :
  bootstrapBody now nowText src tree ready s = (Ok tt, s') -> m_revision s' = m_revision s + 1.
Proof.
  set (n := m_revision s). pose proof (framed_revision n) as Hfr.
  unfold bootstrapBody. intros ([] & s1 & H1 & H)%bind_Ok. injection H1 as <-.
  apply bind_Ok in H as ([] & s2 & H2 & H). apply bind_Ok in H as ([] & s3 & H3 & H).
  apply bind_Ok in H as ([] & s4 & H4 & H). apply bind_Ok in H as ([] & s5 & H5 & H).
  apply bind_Ok in H as ([] & s6 & H6 & H). injection H as <-. simpl. rewrite backfill_revision. f_equal.
  revert H6. apply (keeps_each (fun x => m_revision x = n)); [intros; by apply keeps_modify|].
  revert H5. apply (keeps_each (fun x => m_revision x = n)); [intros; by apply keeps_modify|].
  revert H4. apply (keeps_each (fun x => m_revision x = n)).
  { intros r _ x y z Hx. unfold seedReceipt. case_cond; [done|]. by apply (fr_putReceipt _ Hfr). }
  revert H3. apply seedTasks_revision.
  revert H2. apply (keeps_each (fun x => m_revision x = n)); [|done]. intros c _. apply (fr_putCancellation _ Hfr).
Qed.

Lemma bootstrap_tracked now nowText src tree ready s :
  tracked s (snd (bootstrapSnapshot now nowText src tree ready s)).
Proof.
  unfold bootstrapSnapshot. cbv zeta. case_cond; [apply tracked_refl|]. apply atomically_tracked.
  intros [] s' H. case_cond_in H; [done|]. right. by eapply bootstrapBody_revision.
Qed.

(** *** Recovery and configuration *)

Lemma setRecoveryState_tracked now t input s : tracked s (snd (setRecoveryState now t input s)).
Proof.
  unfold setRecoveryState. apply atomically_tracked. intros b s'. cbv zeta.
  match goal with |- context [ri_ready ?x] => generalize x; intros i end.
  assert (forall row ready changed next, tasks s !! t = Some row ->
    tracked s (set_tasks (<[t := set_recovery ready changed next row]> (tasks s)) s)) as Hset.
  { intros row ready changed next Hrow. apply shown_tracked. rewrite fmap_insert.
    apply insert_id. by rewrite lookup_fmap, Hrow. }
  destruct (ri_ready i), (ri_changed i), (ri_nextCheckAt i);
    destruct (tasks s !! t) as [row|] eqn:Hrow; cbv iota; try case_cond; intros [= _ <-];
    auto using tracked_refl.
Qed.

Lemma repair_tracked now s : tracked s (snd (repairWaitingConditionRecovery now s)).
Proof.
  simpl. apply shown_tracked. apply map_eq. intros t.
  rewrite !lookup_fmap, map_lookup_imap. destruct (tasks s !! t); simpl; [|done]. by case_cond.
Qed.

Lemma lifecycle_tracked l s : tracked s (snd (setProjectLifecycle l s)).
Proof.
  unfold setProjectLifecycle. apply atomically_tracked. intros [] s'.
  case_cond; [done|]. case_cond; [|done]. intros [= <-]. by right.
Qed.

Lemma maxConcurrent_tracked n s : tracked s (snd (setConfiguredMaxConcurrent n s)).
Proof.
  unfold setConfiguredMaxConcurrent. case_cond; [apply tracked_refl|]. apply atomically_tracked. intros [] s'.
  case_cond; [done|]. case_cond; [|done]. repeat case_cond; intros [= <-]; first [by right | by left].
Qed.

Lemma run_store_op_tracked s o : tracked s (run_store_op s o).
Proof.
  destruct o; simpl; auto using bootstrap_tracked, commit_tracked, setRecoveryState_tracked,
    lifecycle_tracked, maxConcurrent_tracked.
  - unfold replaceTask. apply commit_tracked.
  - apply repair_tracked.
Qed.

Lemma run_store_ops_tracked ops s :
  m_revision s <= m_revision (fold_left run_store_op ops s) /\
  (m_revision (fold_left run_store_op ops s) = m_revision s ->
   readSnapshot (fold_left run_store_op ops s) = readSnapshot s).
Proof.
  revert s. induction ops as [|o ops IH]; intros s; simpl; [done|].
  destruct (IH (run_store_op s o)) as [Hle Heq]. destruct (run_store_op_tracked s o) as [[Hr Hs]|Hr].
  - rewrite Hr in *. split; [done|]. intros H. by rewrite <- Hs, Heq.
  - split; [lia|]. lia.
Qed.

(** ** Cached reads *)

(** One pass of a context: other writers' operations, cached reads, and its own
    commits with the tree the caller keeps. *)
Inductive cache_op : Type :=
| Write (o : store_op)
| Read
| CommitTree (now : Z) (nowText : string) (tree : TaskTree.TaskTree) (scoped inTransaction : bool)
    (m : AppTaskResourceMutation).

Definition run_cache_op (x : option TaskSnapshotCache * store) (o : cache_op) : option TaskSnapshotCache * store :=
  match o with
  | Write o => (x.1, run_store_op x.2 o)
  | Read => ((readTaskSnapshot x.1 x.2).2, x.2)
  | CommitTree now nowText tree scoped inTransaction m =>
      let '(_, c, s) := commitTaskMutation now nowText tree scoped inTransaction m x.1 x.2 in (c, s)
  end.

(** Two trees that differ at most in [updated_at]. *)
Definition same_state (a b : TaskTree.TaskTree) : Prop := set_updated_at None a = set_updated_at None b.

(** The caller of an unscoped commit passes the tree that describes what the
    commit leaves in the store. *)
Definition honest (s : store) (o : cache_op) : Prop :=
  match o with
  | CommitTree now nowText tree false false m =>
      match commit now m s with
      | (Ok true, s') => exists t, readSnapshot s' = Ok t /\ same_state tree t
      | _ => True
      end
  | _ => True
  end.

Inductive pass : store -> option TaskSnapshotCache -> store -> Prop :=
| pass_start s : pass s cacheTaskSnapshots s
| pass_step s0 c s o : pass s0 c s -> honest s o ->
    pass s0 (run_cache_op (c, s) o).1 (run_cache_op (c, s) o).2.

(** A cached tree was current at a revision the store has passed or still has. *)
Definition coherent (c : option TaskSnapshotCache) (s : store) : Prop :=
  match c with
  | Some (mkCache (Some tree) (Some r)) =>
      exists n, r = (if (0 <=? n) && (n <=? MAX_SAFE_INTEGER) then n else 0) /\ 0 <= n <= m_revision s /\
        (m_revision s = n -> exists t, readSnapshot s = Ok t /\ same_state tree t)
  | _ => True
  end.

Lemma coherent_tracked c s s' : coherent c s -> tracked s s' -> coherent c s'.
Proof.
  intros Hc Ht. destruct c as [[[tree|] [r|]]|]; try done. destruct Hc as (n & Hr & Hn & Hcur).
  exists n. split; [done|]. destruct Ht as [[-> ->]|Hs]; [done|]. split; lia.
Qed.

Lemma coherent_read s tree t :
  0 <= m_revision s -> readSnapshot s = Ok t -> same_state tree t ->
  coherent (Some (mkCache (Some tree) (Some (revision s)))) s.
Proof. intros Hs Hr Ht. exists (m_revision s). split; [done|]. split; [lia|]. intros _. by exists t. Qed.

Lemma same_state_refl t : same_state t t.
Proof. done. Qed.

Lemma readTaskSnapshot_coherent c s :
  0 <= m_revision s -> coherent c s -> coherent (readTaskSnapshot c s).2 s.
Proof.
  intros Hs Hc. unfold readTaskSnapshot. cbv zeta.
  assert (coherent (match readSnapshot s with
    | Ok tree => (Ok tree, Some (mkCache (Some tree) (Some (revision s))))
    | Throw e => (Throw e, c) end).2 s) as Hfresh.
  { destruct (readSnapshot s) as [t|e] eqn:E; [|done]. by apply (coherent_read s t t). }
  destruct c as [[[tree|] [r|]]|]; try done. by destruct (r =? revision s).
Qed.

Lemma run_cache_op_coherent c s o :
  0 <= m_revision s -> coherent c s -> honest s o ->
  0 <= m_revision (run_cache_op (c, s) o).2 /\ coherent (run_cache_op (c, s) o).1 (run_cache_op (c, s) o).2.
Proof.
  intros Hs Hc Ho. destruct o as [o| |now nowText tree scoped inTx m].
  - pose proof (run_store_op_tracked s o) as Ht. simpl. split; [|by eapply coherent_tracked].
    destruct Ht as [[-> _] | ->]; lia.
  - split; [done|]. by apply readTaskSnapshot_coherent.
  - pose proof (commit_tracked now m s) as Ht. simpl in *. unfold commitTaskMutation.
    destruct (commit now m s) as [[[]|e] s'] eqn:E; simpl in *;
      [|split; [destruct Ht as [[-> _] | ->]; lia | by eapply coherent_tracked]..].
    assert (0 <= m_revision s') as Hs' by (destruct Ht as [[-> _] | ->]; lia).
    split; [done|]. destruct c as [c|]; [|done]. destruct scoped, inTx; try done. simpl.
    destruct Ho as (t & Hr & Hsame). by apply (coherent_read s' _ t).
Qed.

Lemma pass_coherent s0 c s :
  0 <= m_revision s0 -> pass s0 c s -> 0 <= m_revision s /\ coherent c s.
Proof.
  intros H0. induction 1 as [s|s0 c s o Hp IH Ho]; [done|]. destruct (IH H0) as [Hs Hc].
  by apply run_cache_op_coherent.
Qed.

(** ** Properties *)

(** The revision tells whether the Task state changed: along any sequence
    of writes it never decreases, and as long as it stays the same so does
    everything [readSnapshot] returns. *)
Theorem revision_determines_snapshot ops s :
  m_revision s <= m_revision (fold_left run_store_op ops s) /\
  (m_revision (fold_left run_store_op ops s) = m_revision s ->
   readSnapshot (fold_left run_store_op ops s) = readSnapshot s).
Proof. apply run_store_ops_tracked. Qed.

(** A cached snapshot is never stale: in a pass that interleaves other
    writers, cached reads and the pass's own commits, whose trees describe what
    they commit, a cached read returns the state [readSnapshot] would return
    now, but for [updated_at]. *)
Theorem snapshot_cache_coherent s0 c s tree :
  0 <= m_revision s0 -> pass s0 c s -> m_revision s <= MAX_SAFE_INTEGER ->
  (readTaskSnapshot c s).1 = Ok tree ->
  exists t, readSnapshot s = Ok t /\ same_state tree t.
Proof.
  intros H0 Hp Hmax. destruct (pass_coherent s0 c s H0 Hp) as [Hs Hc]. unfold readTaskSnapshot. cbv zeta.
  assert ((match readSnapshot s with
    | Ok tree => (Ok tree, Some (mkCache (Some tree) (Some (revision s))))
    | Throw e => (Throw e, c) end).1 = Ok tree -> exists t, readSnapshot s = Ok t /\ same_state tree t) as Hfresh.
  { destruct (readSnapshot s) as [t|e]; [|done]. intros [= ->]. by exists tree. }
  destruct c as [[[tree'|] [r|]]|]; try done.
  2:{ simpl. intros ->. by exists tree. }
  destruct (Z.eqb_spec r (revision s)) as [Hr|]; [|done]. simpl. intros [= ->].
  destruct Hc as (n & Hn & Hle & Hcur). apply Hcur.
  assert (revision s = m_revision s) as Hrev by (unfold revision; rewrite !(proj2 (Z.leb_le _ _)) by lia; done).
  rewrite Hrev in Hr. rewrite (proj2 (Z.leb_le 0 n)), (proj2 (Z.leb_le n MAX_SAFE_INTEGER)) in Hn by lia.
  simpl in Hn. lia.
Qed.

(** ** Witnesses *)

Definition seeded : store :=
  (bootstrapSnapshot 0 "2024-01-01T00:00:00.000Z" "r1"
     (TaskTree.mkTree (Some 1) (Some "demo.app") None None None [] [] [] [] [] [] [] [])
     [] (emptyStore "demo" ∅ ∅)).2.

(** Read, another writer pauses the App, read again. *)
Lemma snapshot_cache_coherent_witness :
  exists t, readSnapshot (run_store_op seeded (SetLifecycle paused_app)) = Ok t /\
    TaskTree.project_lifecycle t = Some "paused".
Proof.
  set (s1 := run_store_op seeded (SetLifecycle paused_app)).
  set (c1 := (run_cache_op (run_cache_op (run_cache_op (cacheTaskSnapshots, seeded) Read)
                (Write (SetLifecycle paused_app))) Read).1).
  assert (pass seeded c1 s1) as Hp.
  { apply (pass_step seeded (readTaskSnapshot cacheTaskSnapshots seeded).2 s1 Read); [|exact I].
    apply (pass_step seeded (readTaskSnapshot cacheTaskSnapshots seeded).2 seeded (Write (SetLifecycle paused_app))); [|exact I].
    apply (pass_step seeded cacheTaskSnapshots seeded Read); [apply pass_start | exact I]. }
  destruct (readTaskSnapshot c1 s1).1 as [tree|e] eqn:E; [|vm_compute in E; discriminate E].
  assert (TaskTree.project_lifecycle tree = Some "paused") as Hl.
  { vm_compute in E. injection E as <-. reflexivity. }
  destruct (snapshot_cache_coherent seeded c1 s1 tree) as (t & Ht & Hsame);
    [vm_compute; discriminate | exact Hp | vm_compute; discriminate | exact E |].
  exists t. split; [exact Ht|]. apply (f_equal TaskTree.project_lifecycle) in Hsame. simpl in Hsame.
  rewrite <- Hsame. exact Hl.
Defined.

End Snapshot.
