(* ===== verification/Context.v ===== *)
(** The bounded read of the Tasks one reconciliation needs: [readTaskContext]
    of [src/app/core/state/app-task-resource-store.ts].

    Rows of a query without [ORDER BY] come in the enumeration order of the
    table.  The two [while] loops follow parent and dependency links; they have
    fuel, and [closeTasks_done] and [closeGroups_done] show that the fuel used
    is enough for the loops to end by themselves. *)
From S2P Require Import Prelude Json TaskState TaskTree Transaction ResourceStore StoreInvariant StoreCommit Snapshot.

Module Context.
Import ResourceStore Snapshot.

Definition MAX_CONTEXT_ATTEMPTS_PER_TASK : nat := 16.

(** ** Following links *)

(** The ids of the rows of a table among [ids]: [SELECT ... WHERE id IN (...)]. *)
Definition selectIds {A} (m : gmap string A) (ids : list string) : list string :=
  filter (fun k => k ∈ ids /\ k <> "") (map fst (map_to_list m)).

(** The links a Task record declares. *)
Definition relatedIds (r : AppTaskResource) : list string :=
  filter (fun k => k <> "") (spec_parentId (spec r) :: default [] (spec_dependsOn (spec r))).

(** One row: the Tasks read so far, and the ids to read next. *)
Definition taskStep (s : store) (acc : list string * list string) (id : string) : list string * list string :=
  let '(read, todo) := acc in
  if set_has id read then acc else
  match readTask s id with
  | None => acc
  | Some r =>
      let read := read ++ [id] in
      (read, fold_left (fun p k => if set_has k read then p else set_add k p) (relatedIds r) todo)
  end.

Definition taskRound (s : store) (read todo : list string) : list string * list string :=
  fold_left (taskStep s) (selectIds (tasks s) todo) (read, []).

Fixpoint closeTasks (fuel : nat) (s : store) (read todo : list string) : list string * list string :=
  match todo, fuel with
  | [], _ | _, O => (read, todo)
  | _, S fuel => let '(read, todo) := taskRound s read todo in closeTasks fuel s read todo
  end.

(** The requested Tasks with their parents and dependencies. *)
Definition ancestry (s : store) (requested : list string) : list string :=
  (closeTasks (S (S (size (tasks s)))) s [] requested).1.

(** ** Children *)

(** [SELECT DISTINCT]: every Task with a link to a requested one. *)
Definition allChildren (s : store) (requested : list string) : list string :=
  filter (fun k => Exists (fun r : string * RelationKind * string => r.1.1 = k /\ r.2 ∈ requested) (elements (relations s)) /\ k <> "")
    (map fst (map_to_list (tasks s))).

(** The live children of one Task in the order of their ids. *)
Definition liveChildren (s : store) (parent : string) : list string :=
  js_sort (filter (fun k => (k, rel_parent, parent) ∈ relations s /\ live s k = true)
    (map fst (map_to_list (tasks s)))).

Definition limitedChildren (s : store) (limit : nat) (requested : list string) : list string :=
  filter (fun k => k <> "") (flat_map (fun p => take limit (liveChildren s p)) requested).

(** [childLimit]: absent, zero, or bounded by a thousand. *)
Definition children (s : store) (childLimit : option Z) (requested : list string) : list string :=
  match childLimit with
  | Some 0 => []
  | Some n => if 0 <? n then limitedChildren s (Z.to_nat (Z.min 1000 n)) requested else allChildren s requested
  | None => allChildren s requested
  end.

(** The Tasks that wait for one of the named Conditions. *)
Definition conditionTasks (s : store) (conditionIds : list string) : list string :=
  filter (fun k => Exists (fun r : string * string => r.1 = k /\ r.2 ∈ conditionIds) (elements (routes s)) /\ k <> "")
    (map fst (map_to_list (tasks s))).

(** ** Attempts *)

Definition referencedAttemptIds (rs : list AppTaskResource) : list string :=
  flat_map (fun r => omap nonempty [st_currentAttemptId (status r); st_observedAttemptId (status r)]) rs.

(** The order of the rank: referenced attempts first, then the latest. *)
Definition attempt_le (referenced : list string) (a b : string * AttemptRow) : Prop :=
  let ra := set_has a.1 referenced in
  let rb := set_has b.1 referenced in
  (ra = true /\ rb = false) \/
  (ra = rb /\ (ar_started_at b.2 < ar_started_at a.2 \/
               (ar_started_at a.2 = ar_started_at b.2 /\ String.le b.1 a.1))).

#[export] Instance attempt_le_dec referenced a b : Decision (attempt_le referenced a b).
Proof. unfold attempt_le. apply _. Defined.

(** The attempts of one Task that keep a position within the bound. *)
Definition rankedAttempts (s : store) (referenced : list string) (taskId : string) : list (string * AttemptRow) :=
  take MAX_CONTEXT_ATTEMPTS_PER_TASK
    (merge_sort (attempt_le referenced)
       (filter (fun a => ar_task_id a.2 = taskId) (map_to_list (attempts s)))).

(** ** Groups *)

Definition groupParent (g : TaskGroup) : option string := nonempty (mjoin (grp_parent_id g)).

Definition groupStep (s : store) (read : list string) (acc : list string * list string) (id : string)
    : list string * list string :=
  let '(groups, todo) := acc in
  if set_has id groups then acc else
  match ResourceStore.groups s !! id with
  | None => acc
  | Some g =>
      let groups := groups ++ [id] in
      match groupParent (TaskTree.normalizeTaskGroup id g) with
      | Some p => if set_has p groups || set_has p read then (groups, todo) else (groups, todo ++ [p])
      | None => (groups, todo)
      end
  end.

Definition groupRound (s : store) (read groups todo : list string) : list string * list string :=
  fold_left (groupStep s read) (selectIds (ResourceStore.groups s) todo) (groups, []).

Fixpoint closeGroups (fuel : nat) (s : store) (read groups todo : list string) : list string * list string :=
  match todo, fuel with
  | [], _ | _, O => (groups, todo)
  | _, S fuel => let '(groups, todo) := groupRound s read groups todo in closeGroups fuel s read groups todo
  end.

(** ** The read *)

(** The rows of a table under some ids. *)
Definition pick {A} (get : string -> option A) (ids : list string) : obj A :=
  omap (fun k => (fun v => (k, v)) <$> get k) ids.

Record ContextInput : Type := mkInput {
  ci_taskIds : list string;
  ci_admissionIds : list string;
  ci_conditionIds : list string;
  ci_includeHistory : bool;
  ci_childLimit : option Z }.

Definition cleanIds (l : list string) : list string := set_of (filter (fun k => k <> "") (map trim l)).

(** The Tasks of a context, in the order they are read. *)
Definition contextTaskIds (s : store) (input : ContextInput) : list string :=
  let requested := cleanIds (ci_taskIds input) in
  set_of (ancestry s requested ++
          (if Nat.eqb (length requested) 0 then [] else children s (ci_childLimit input) requested) ++
          conditionTasks s (cleanIds (ci_conditionIds input))).

Definition contextAttempts (s : store) (input : ContextInput) (taskIds : list string) : obj AppTaskAttempt :=
  if ci_includeHistory input then
    let referenced := referencedAttemptIds (omap (readTask s) taskIds) in
    filter (fun e => e.1 <> "")
      (flat_map (fun t => map (fun a => (a.1, ar_attempt a.2)) (rankedAttempts s referenced t)) taskIds)
  else [].

Definition contextReceiptIds (s : store) (input : ContextInput) (requested taskIds : list string) : list string :=
  let dependencyIds := flat_map (fun r => default [] (spec_dependsOn (spec r))) (omap (readTask s) taskIds) in
  set_of (selectIds (receipts s) (requested ++ dependencyIds) ++
          (if ci_includeHistory input then
             filter (fun k => k <> "") (map fst (filter (fun e => rw_parent_id e.2 ∈ requested) (map_to_list (receipts s))))
           else [])).

Definition contextGroups (s : store) (requested taskIds : list string) : list string :=
  let missing := filter (fun k => k ∉ taskIds) requested in
  let parents := filter (fun k => k <> "" /\ k ∉ taskIds) (map (fun r => spec_parentId (spec r)) (omap (readTask s) taskIds)) in
  (closeGroups (S (S (size (ResourceStore.groups s)))) s taskIds [] (set_of (missing ++ parents))).1.

(** The Conditions the read Tasks name, and the named ones. *)
Definition contextConditions (s : store) (input : ContextInput) (resources : list AppTaskResource) : obj AppTaskCondition :=
  let conditionIds := set_of (flat_map (fun r => default [] (st_conditionIds (status r))) resources
                              ++ ci_conditionIds input) in
  pick (fun c => conditions s !! c) (selectIds (conditions s) conditionIds).

Definition contextAdmissions (s : store) (input : ContextInput) : obj AppTaskAdmission :=
  pick (fun a => admissions s !! a) (selectIds (admissions s) (ci_admissionIds input)).

Definition readTaskContext (s : store) (input : ContextInput) : res TaskTree.TaskTree :=
  match m_app_metadata s with
  | None => Throw "Task resource store has no imported App metadata"
  | Some md =>
      let requested := cleanIds (ci_taskIds input) in
      let taskIds := contextTaskIds s input in
      let resources := pick (readTask s) taskIds in
      Ok (TaskTree.mkTree (metaNumber md "version") (metaText md "project") (metaText md "updated_at")
        (metaText md "project_lifecycle") (metaText md "root_task_id")
        (contextConditions s input (obj_values resources))
        resources
        (contextAttempts s input taskIds)
        (pick (readTrigger s) taskIds)
        (contextAdmissions s input)
        (pick (readReceipt s) (contextReceiptIds s input requested taskIds))
        (pick (readCancellation s) (selectIds (cancellations s) taskIds))
        (map (fun e => (e.1, TaskTree.normalizeTaskGroup e.1 e.2))
           (pick (fun g => ResourceStore.groups s !! g) (contextGroups s requested taskIds))))
  end.

(** ** The closure loop over Tasks *)

(** Reachable from the requested ids through declared links, within the store. *)
Inductive linked (s : store) (requested : list string) : string -> Prop :=
| linked_base t : t ∈ requested -> t <> "" -> is_Some (readTask s t) -> linked s requested t
| linked_step t r k : linked s requested t -> readTask s t = Some r -> k ∈ relatedIds r ->
    is_Some (readTask s k) -> linked s requested k.

Lemma elem_of_selectIds {A} (m : gmap string A) ids k :
  k ∈ selectIds m ids <-> k ∈ ids /\ k <> "" /\ is_Some (m !! k).
Proof.
  unfold selectIds. rewrite list_elem_of_filter, list_elem_of_fmap. split.
  - intros [[Hk Hne] ([k' v] & -> & Hv)]. apply elem_of_map_to_list in Hv. split_ands; eauto.
  - intros (Hk & Hne & [v Hv]). split; [done|]. exists (k, v). by rewrite elem_of_map_to_list.
Qed.

Lemma relatedIds_nonempty r k : k ∈ relatedIds r -> k <> "".
Proof. unfold relatedIds. rewrite list_elem_of_filter. by intros [? _]. Qed.

(** Adding to [todo] the links that are not read yet. *)
Lemma elem_of_addLinks read ks todo k :
  k ∈ fold_left (fun p k => if set_has k read then p else set_add k p) ks todo <->
  k ∈ todo \/ (k ∈ ks /\ k ∉ read).
Proof.
  revert todo. induction ks as [|j ks IH]; intros todo; simpl; [set_solver|].
  rewrite IH. destruct (set_has j read) eqn:E.
  - apply set_has_true in E. set_solver.
  - apply set_has_false in E. rewrite elem_of_set_add. set_solver.
Qed.

(** What a part of a round establishes, from the state [(read0, [])] it began in. *)
Record round_ok (s : store) (read0 ids read todo : list string) : Prop := mkRoundOk {
  rd_prefix : read0 `prefix_of` read;
  rd_nodup : NoDup read0 -> NoDup read;
  rd_new : forall k, k ∈ read -> k ∈ read0 \/ (k ∈ ids /\ is_Some (readTask s k));
  rd_all : forall k, k ∈ ids -> is_Some (readTask s k) -> k ∈ read;
  rd_links : forall k r j, k ∈ read -> k ∉ read0 -> readTask s k = Some r -> j ∈ relatedIds r ->
    j ∈ read \/ j ∈ todo;
  rd_todo : forall j, j ∈ todo -> exists k r, k ∈ read /\ k ∉ read0 /\ readTask s k = Some r /\ j ∈ relatedIds r;
  rd_idle : read = read0 -> todo = [] }.

Lemma taskStep_ok s read0 ids read todo id :
  round_ok s read0 ids read todo ->
  let '(read', todo') := taskStep s (read, todo) id in round_ok s read0 (ids ++ [id]) read' todo'.
Proof.
  intros [Hp Hnd Hnew Hall Hl Ht Hidle]. unfold taskStep.
  destruct (set_has id read) eqn:Hid.
  { apply set_has_true in Hid. constructor; auto; intros k; rewrite elem_of_app, list_elem_of_singleton.
    - intros [?|?]%Hnew; naive_solver.
    - intros [?| ->] ?; auto. }
  apply set_has_false in Hid. destruct (readTask s id) as [r|] eqn:Hr.
  2:{ constructor; auto; intros k; rewrite elem_of_app, list_elem_of_singleton.
      - intros [?|[? ?]]%Hnew; auto.
      - intros [?| ->] Hs; auto. rewrite Hr in Hs. by destruct Hs. }
  assert (id ∉ read0) as Hid0 by (intros H; apply Hid; by eapply elem_of_prefix).
  constructor.
  - by apply prefix_app_r.
  - intros H0. apply NoDup_app. split_ands; [auto | set_solver | apply NoDup_singleton].
  - intros k. rewrite elem_of_app, list_elem_of_singleton. intros [[?|[? ?]]%Hnew | ->]; [auto|..].
    + right. set_solver.
    + right. rewrite Hr. set_solver.
  - intros k. rewrite !elem_of_app, list_elem_of_singleton. intros [?| ->] Hs; auto.
  - intros k r' j Hk Hk0 Hr' Hj. destruct (decide (j ∈ read ++ [id])) as [Hin|Hin]; [by left|].
    right. apply elem_of_addLinks. apply elem_of_app in Hk as [Hk|Hk%list_elem_of_singleton].
    + left. destruct (Hl k r' j Hk Hk0 Hr' Hj); [set_solver | done].
    + subst k. rewrite Hr in Hr'. injection Hr' as <-. by right.
  - intros j. rewrite elem_of_addLinks. intros [(k & r' & Hk & Hk0 & Hr' & Hj)%Ht|[Hj _]].
    + exists k, r'. set_solver.
    + exists id, r. set_solver.
  - intros E. apply (f_equal (fun l => bool_decide (id ∈ l))) in E.
    rewrite bool_decide_eq_true_2, bool_decide_eq_false_2 in E by set_solver. done.
Qed.

Lemma taskRound_ok s read todo :
  let '(read', todo') := taskRound s read todo in round_ok s read (selectIds (tasks s) todo) read' todo'.
Proof.
  unfold taskRound. set (L := selectIds (tasks s) todo). clearbody L.
  assert (forall suf pre r t, round_ok s read pre r t ->
    let '(r', t') := fold_left (taskStep s) suf (r, t) in round_ok s read (pre ++ suf) r' t') as Hgen.
  { induction suf as [|id suf IH]; intros pre r t H; cbn [fold_left]; [by rewrite app_nil_r|].
    pose proof (taskStep_ok s read pre r t id H) as H1. destruct (taskStep s (r, t) id) as [r1 t1].
    replace (pre ++ id :: suf) with ((pre ++ [id]) ++ suf) by (by rewrite <- app_assoc). by apply IH. }
  apply (Hgen L []). constructor; try done; set_solver.
Qed.

(** Between rounds: read Tasks are linked, and what they link to is read, to be
    read, or absent. *)
Record close_ok (s : store) (requested read todo : list string) : Prop := mkCloseOk {
  cl_nodup : NoDup read;
  cl_linked : forall k, k ∈ read -> linked s requested k;
  cl_todo : forall k, k ∈ todo -> k <> "" -> is_Some (readTask s k) -> linked s requested k;
  cl_base : forall k, k ∈ requested -> k <> "" -> is_Some (readTask s k) -> k ∈ read \/ k ∈ todo;
  cl_links : forall k r j, k ∈ read -> readTask s k = Some r -> j ∈ relatedIds r -> is_Some (readTask s j) ->
    j ∈ read \/ j ∈ todo }.

Lemma readTask_Some s k : is_Some (readTask s k) <-> is_Some (tasks s !! k).
Proof. unfold readTask. by rewrite fmap_is_Some. Qed.

Lemma close_round s requested read todo read' todo' :
  close_ok s requested read todo -> round_ok s read (selectIds (tasks s) todo) read' todo' ->
  close_ok s requested read' todo'.
Proof.
  intros [Hnd Hlk Htd Hb Hl] [Hp Hnd' Hnew Hall Hl' Ht' _].
  assert (forall k, k ∈ todo -> k <> "" -> is_Some (readTask s k) -> k ∈ read') as Hread.
  { intros k Hk Hne Hs. apply Hall; [|done]. rewrite elem_of_selectIds, <- readTask_Some. auto. }
  assert (forall k, k ∈ read -> k ∈ read') as Hmono by (intros k Hk; by eapply elem_of_prefix).
  assert (forall k, k ∈ read' -> linked s requested k) as Hlk'.
  { intros k [?|[Hk Hs]]%Hnew; [auto|]. apply elem_of_selectIds in Hk as (? & ? & _). auto. }
  constructor; auto.
  - intros k Hk Hne Hs. destruct (Ht' k Hk) as (j & r & Hj & _ & Hr & Hin).
    eapply linked_step; eauto.
  - intros k Hk Hne Hs. destruct (Hb k Hk Hne Hs); auto.
  - intros k r j Hk Hr Hj Hs. destruct (decide (k ∈ read)) as [Hk0|Hk0]; [|by eapply Hl'].
    destruct (Hl k r j Hk0 Hr Hj Hs) as [?|Hj']; [auto|]. left. apply Hread; auto.
    by eapply relatedIds_nonempty.
Qed.

Lemma closeTasks_ok fuel s requested read todo :
  close_ok s requested read todo ->
  let '(read', todo') := closeTasks fuel s read todo in close_ok s requested read' todo'.
Proof.
  revert read todo. induction fuel as [|fuel IH]; intros read todo H; [by destruct todo|].
  destruct todo as [|t todo]; [done|]. cbn [closeTasks].
  pose proof (taskRound_ok s read (t :: todo)) as Hr. destruct (taskRound s read (t :: todo)) as [read' todo'].
  apply IH. by eapply close_round.
Qed.

(** A list of distinct keys of a finite map is no longer than the map. *)
Lemma keys_le_size {A} (m : gmap string A) l :
  NoDup l -> (forall k, k ∈ l -> is_Some (m !! k)) -> (length l <= size m)%nat.
Proof.
  intros Hnd Hl. rewrite <- size_dom, <- (size_list_to_set (C := gset string) l) by done.
  apply subseteq_size. intros k. rewrite elem_of_list_to_set, elem_of_dom. auto.
Qed.

(** The loop ends by itself: a round reads a new Task or leaves nothing to read. *)
Lemma closeTasks_done fuel s requested read todo :
  close_ok s requested read todo -> (size (tasks s) - length read < fuel)%nat ->
  (closeTasks fuel s read todo).2 = [].
Proof.
  revert read todo. induction fuel as [|fuel IH]; intros read todo H Hf; [lia|].
  destruct todo as [|t todo]; [done|]. cbn [closeTasks].
  pose proof (taskRound_ok s read (t :: todo)) as Hr. destruct (taskRound s read (t :: todo)) as [read' todo'].
  pose proof (close_round _ _ _ _ _ _ H Hr) as H'.
  destruct (rd_prefix _ _ _ _ _ Hr) as [[|x ext] ->].
  { rewrite (rd_idle _ _ _ _ _ Hr) by (by rewrite app_nil_r). by destruct fuel. }
  apply IH; [done|]. assert (length (read ++ x :: ext) <= size (tasks s))%nat as Hle.
  { apply keys_le_size; [apply H'|]. intros k Hk. apply readTask_Some.
    pose proof (cl_linked _ _ _ _ H' k Hk) as Hlk. by inversion Hlk. }
  rewrite length_app in *. simpl in *. lia.
Qed.

Lemma elem_of_ancestry s requested t : t ∈ ancestry s requested <-> linked s requested t.
Proof.
  assert (close_ok s requested [] requested) as H0.
  { constructor; try (by constructor); try set_solver; eauto using linked_base. }
  unfold ancestry.
  pose proof (closeTasks_ok (S (S (size (tasks s)))) s requested [] requested H0) as H.
  pose proof (closeTasks_done (S (S (size (tasks s)))) s requested [] requested H0) as Hd.
  destruct (closeTasks _ s [] requested) as [read todo]. simpl in *. rewrite Hd in H by lia.
  split; [apply H|]. induction 1 as [t Ht Hne Hs|t r k Hlk IH Hr Hk Hs].
  - destruct (cl_base _ _ _ _ H t Ht Hne Hs); set_solver.
  - destruct (cl_links _ _ _ _ H t r k IH Hr Hk Hs); set_solver.
Qed.

(** ** The closure loop over groups *)

Definition groups_ok (s : store) (groups : list string) : Prop :=
  NoDup groups /\ forall k, k ∈ groups -> is_Some (ResourceStore.groups s !! k).

Lemma groupStep_ok s read groups todo id :
  groups_ok s groups ->
  let '(groups', todo') := groupStep s read (groups, todo) id in
  groups_ok s groups' /\ (groups' = groups /\ todo' = todo \/ groups' = groups ++ [id]).
Proof.
  intros [Hnd Hin]. unfold groupStep. destruct (set_has id groups) eqn:Hid; [by split; auto|].
  destruct (ResourceStore.groups s !! id) as [g|] eqn:Hg; [|by split; auto].
  apply set_has_false in Hid.
  assert (groups_ok s (groups ++ [id])) as Hok.
  { split; [apply NoDup_app; split_ands; [done|set_solver|apply NoDup_singleton]|].
    intros k [?| ->%list_elem_of_singleton]%elem_of_app; [auto|]. by rewrite Hg. }
  destruct (groupParent _) as [p|]; [destruct (_ || _)|]; auto.
Qed.

Lemma groupRound_ok s read groups todo :
  groups_ok s groups ->
  let '(groups', todo') := groupRound s read groups todo in
  groups_ok s groups' /\ (groups' = groups /\ todo' = [] \/ (length groups < length groups')%nat).
Proof.
  unfold groupRound. generalize (selectIds (ResourceStore.groups s) todo) as L. clear todo. intros L Hok.
  assert (forall L g t, groups_ok s g -> (g = groups /\ t = [] \/ (length groups < length g)%nat) ->
    let '(g', t') := fold_left (groupStep s read) L (g, t) in
    groups_ok s g' /\ (g' = groups /\ t' = [] \/ (length groups < length g')%nat)) as Hgen.
  { clear L. induction L as [|id L IH]; intros g t Hg Hor; cbn [fold_left]; [done|].
    pose proof (groupStep_ok s read g t id Hg) as Hs. destruct (groupStep s read (g, t) id) as [g1 t1].
    destruct Hs as [Hg1 Hcase]. apply IH; [done|]. destruct Hcase as [[-> ->] | ->]; [done|].
    right. rewrite length_app. simpl. destruct Hor as [[-> _]|?]; lia. }
  apply Hgen; auto.
Qed.

(** The loop ends by itself. *)
Lemma closeGroups_done fuel s read groups todo :
  groups_ok s groups -> (size (ResourceStore.groups s) - length groups < fuel)%nat ->
  (closeGroups fuel s read groups todo).2 = [].
Proof.
  revert groups todo. induction fuel as [|fuel IH]; intros groups todo Hok Hf; [lia|].
  destruct todo as [|t todo]; [done|]. cbn [closeGroups].
  pose proof (groupRound_ok s read groups (t :: todo) Hok) as Hr.
  destruct (groupRound s read groups (t :: todo)) as [groups' todo'].
  destruct Hr as [Hok' [[-> ->]|Hlt]]; [by destruct fuel|].
  apply IH; [done|]. destruct Hok' as [Hnd Hin].
  pose proof (keys_le_size (ResourceStore.groups s) groups' Hnd Hin). lia.
Qed.

(** ** Picking rows *)

Lemma obj_get_pick {A} (get : string -> option A) ids k :
  obj_get k (pick get ids) = if set_has k ids then get k else None.
Proof.
  unfold pick, set_has. induction ids as [|j ids IH]; [done|]. simpl.
  destruct (decide (j = k)) as [->|Hne].
  - rewrite bool_decide_eq_true_2 by set_solver. destruct (get k) as [v|] eqn:E; simpl.
    + by rewrite String.eqb_refl.
    + etrans; [exact IH|]. by case_bool_decide.
  - rewrite (bool_decide_ext (k ∈ j :: ids) (k ∈ ids)) by set_solver.
    destruct (get j) as [v|]; simpl; [|exact IH].
    rewrite (proj2 (String.eqb_neq j k) Hne). exact IH.
Qed.

Lemma obj_get_pick_in {A} (get : string -> option A) ids k : k ∈ ids -> obj_get k (pick get ids) = get k.
Proof. intros Hk. rewrite obj_get_pick. by rewrite (proj2 (set_has_true _ _) Hk). Qed.

Lemma pick_Some {A} (get : string -> option A) ids k v :
  obj_get k (pick get ids) = Some v -> k ∈ ids /\ get k = Some v.
Proof. rewrite obj_get_pick. destruct (set_has k ids) eqn:E; [|done]. by apply set_has_true in E. Qed.

(** ** Ranked attempts *)

#[export] Instance attempt_le_total referenced : Total (attempt_le referenced).
Proof.
  intros a b. unfold attempt_le.
  destruct (Z.lt_total (ar_started_at a.2) (ar_started_at b.2)) as [?|[?|?]], (total String.le a.1 b.1),
    (set_has a.1 referenced), (set_has b.1 referenced); naive_solver.
Qed.

#[export] Instance attempt_le_trans referenced : Transitive (attempt_le referenced).
Proof.
  intros a b c. unfold attempt_le.
  intros [[Ha Hb]|[Hab H1]] [[Hb' Hc]|[Hbc H2]]; 
    [congruence | left; split; congruence.. |].
  right. split; [congruence|]. destruct H1 as [?|[? ?]], H2 as [?|[? ?]]; try (left; lia).
  right. split; [lia|]. by transitivity b.1.
Qed.

(** Within a sorted list a referenced element has only referenced ones before
    it, so its position is below their number. *)
Lemma sorted_position {A} (R : relation A) (P : A -> Prop) `{forall x, Decision (P x)} l i x :
  StronglySorted R l -> (forall a b, R a b -> P b -> P a) ->
  l !! i = Some x -> P x -> (i < length (filter P l))%nat.
Proof.
  intros Hs Hdown. revert i. induction Hs as [|a l Hs IH Hall]; intros i Hi Hx; [done|].
  destruct i as [|i]; simpl in Hi.
  - injection Hi as ->. rewrite filter_cons_True by done. simpl. lia.
  - rewrite filter_cons_True.
    + simpl. specialize (IH i Hi Hx). lia.
    + rewrite Forall_forall in Hall. apply (Hdown a x); [|done]. apply Hall. by eapply list_elem_of_lookup_2.
Qed.

Lemma rankedAttempts_keeps s referenced t a row :
  attempts s !! a = Some row -> ar_task_id row = t -> a ∈ referenced ->
  (length (filter (fun e => e.1 ∈ referenced /\ ar_task_id e.2 = t) (map_to_list (attempts s)))
     <= MAX_CONTEXT_ATTEMPTS_PER_TASK)%nat ->
  (a, row) ∈ rankedAttempts s referenced t.
Proof.
  intros Ha Ht Href Hlen. unfold rankedAttempts.
  set (L := filter _ (map_to_list (attempts s))). set (S := merge_sort _ L).
  assert ((a, row) ∈ S) as Hin.
  { unfold S. rewrite merge_sort_Permutation. apply list_elem_of_filter.
    by rewrite elem_of_map_to_list. }
  apply list_elem_of_lookup in Hin as [i Hi].
  assert (i < length (filter (fun e : string * AttemptRow => e.1 ∈ referenced) S))%nat as Hpos.
  { apply (sorted_position (attempt_le referenced) _ S i (a, row)); [apply StronglySorted_merge_sort; apply _| |done|done].
    intros x y [[Hx _]|[Hxy _]] Hy; apply set_has_true; [done|]. rewrite Hxy. by apply set_has_true. }
  assert (filter (fun e : string * AttemptRow => e.1 ∈ referenced) S ≡ₚ
    filter (fun e => e.1 ∈ referenced /\ ar_task_id e.2 = t) (map_to_list (attempts s))) as Hperm.
  { unfold S. rewrite merge_sort_Permutation. unfold L. by rewrite list_filter_filter. }
  rewrite Hperm in Hpos. apply list_elem_of_lookup. exists i. rewrite lookup_take_lt by lia. done.
Qed.

(** An entry of the attempts of a context is the stored attempt. *)
Lemma contextAttempts_sound s input ids a x :
  (a, x) ∈ contextAttempts s input ids -> exists row, attempts s !! a = Some row /\ ar_attempt row = x.
Proof.
  unfold contextAttempts. destruct (ci_includeHistory input); [|intros Hn; by apply not_elem_of_nil in Hn].
  intros [_ Hin]%list_elem_of_filter. apply elem_of_flat_map in Hin as (t & _ & Hin).
  apply list_elem_of_fmap in Hin as ([a' row] & [= -> ->] & Hin).
  unfold rankedAttempts in Hin. apply elem_of_take in Hin as (i & Hi & _).
  apply list_elem_of_lookup_2 in Hi. rewrite merge_sort_Permutation in Hi.
  apply list_elem_of_filter in Hi as [_ Hi]. apply elem_of_map_to_list in Hi. eauto.
Qed.

Lemma elem_of_contextTaskIds s input t :
  linked s (cleanIds (ci_taskIds input)) t -> t ∈ contextTaskIds s input.
Proof. intros H. unfold contextTaskIds. apply elem_of_set_of, elem_of_app. left. by apply elem_of_ancestry. Qed.

Lemma obj_get_all {A} k (v : A) o : (k, v) ∈ o -> (forall w, (k, w) ∈ o -> w = v) -> obj_get k o = Some v.
Proof.
  induction o as [|[j w] o IH]; intros Hin Hall; [by apply not_elem_of_nil in Hin|]. simpl.
  destruct (String.eqb_spec j k) as [->|Hne].
  - f_equal. apply Hall. by left.
  - apply IH; [|intros w' Hw; apply Hall; by right].
    apply elem_of_cons in Hin as [[= -> ->]|Hin]; done.
Qed.

Lemma elem_of_children s input t k kind :
  ci_childLimit input = None -> t ∈ cleanIds (ci_taskIds input) -> (k, kind, t) ∈ relations s -> k <> "" ->
  is_Some (readTask s k) -> k ∈ contextTaskIds s input.
Proof.
  intros Hc Ht Hr Hne [v Hv]. unfold contextTaskIds. apply elem_of_set_of. rewrite !elem_of_app. right. left.
  destruct (Nat.eqb_spec (length (cleanIds (ci_taskIds input))) 0) as [E|_].
  { apply length_zero_iff_nil in E. rewrite E in Ht. by apply not_elem_of_nil in Ht. }
  unfold children. rewrite Hc. apply list_elem_of_filter. split; [split; [|done]|].
  - apply Exists_exists. exists (k, kind, t). by rewrite elem_of_elements.
  - unfold readTask in Hv. destruct (tasks s !! k) as [row|] eqn:E; [|done].
    apply list_elem_of_fmap. exists (k, row). by rewrite elem_of_map_to_list.
Qed.

(** ** Properties *)

(** A context is exact and closed: every Task, trigger, closure and
    Condition in it is the stored one; it holds every Task reachable from the
    requested ones through parents and dependencies, the related children of a
    requested Task unless they are limited, and for every Task in it its
    pending input, its closure and its stored Conditions. *)
Theorem task_context_exact s input tree :
  readTaskContext s input = Ok tree ->
  (forall t r, obj_get t (TaskTree.resources tree) = Some r -> readTask s t = Some r) /\
  (forall t, linked s (cleanIds (ci_taskIds input)) t -> obj_get t (TaskTree.resources tree) = readTask s t) /\
  (ci_childLimit input = None -> forall t k kind r, t ∈ cleanIds (ci_taskIds input) ->
     (k, kind, t) ∈ relations s -> k <> "" -> readTask s k = Some r ->
     obj_get k (TaskTree.resources tree) = Some r) /\
  (forall t r, obj_get t (TaskTree.resources tree) = Some r ->
     obj_get t (TaskTree.taskTriggers tree) = readTrigger s t /\
     (t <> "" -> obj_get t (TaskTree.cancellations tree) = readCancellation s t) /\
     forall c x, c ∈ default [] (st_conditionIds (status r)) -> c <> "" ->
       conditions s !! c = Some x -> obj_get c (TaskTree.conditions tree) = Some x).
Proof.
  unfold readTaskContext. destruct (m_app_metadata s) as [md|]; [|done]. cbv zeta. intros [= <-].
  cbn [TaskTree.resources TaskTree.taskTriggers TaskTree.cancellations TaskTree.conditions].
  split_ands.
  - intros t r Hr. by apply pick_Some in Hr as [_ ?].
  - intros t Ht. by apply obj_get_pick_in, elem_of_contextTaskIds.
  - intros Hc t k kind r Ht Hr Hne Hk. rewrite obj_get_pick_in; [done|]. eapply elem_of_children; eauto.
  - intros t r Hr. pose proof (pick_Some _ _ _ _ Hr) as [Hin Hread]. split_ands.
    + by apply obj_get_pick_in.
    + intros Hne. rewrite obj_get_pick. destruct (set_has t _) eqn:E; [done|].
      apply set_has_false in E. unfold readCancellation.
      destruct (cancellations s !! t) eqn:Hc; [|done]. destruct E. apply elem_of_selectIds.
      split_ands; auto; by rewrite Hc.
    + intros c x Hc Hne Hx. unfold contextConditions. cbv zeta. rewrite obj_get_pick_in; [done|]. apply elem_of_selectIds.
      split_ands; [|done|by rewrite Hx]. apply elem_of_set_of, elem_of_app. left.
      apply elem_of_flat_map. exists r. split; [|done]. apply list_elem_of_fmap.
      exists (t, r). split; [done|]. by apply obj_get_Some_elem.
Qed.

(** Attempt history is bounded, and bounding it never drops a canonical
    reference: with history included, the current and the observed attempt of a
    Task are in its context whatever their timestamps, as long as no more than
    the bound of its attempts are referenced at all. *)
Theorem context_keeps_referenced_attempts s input tree t r a row :
  readTaskContext s input = Ok tree -> ci_includeHistory input = true ->
  obj_get t (TaskTree.resources tree) = Some r ->
  st_currentAttemptId (status r) = Some a \/ st_observedAttemptId (status r) = Some a ->
  a <> "" -> attempts s !! a = Some row -> ar_task_id row = t ->
  (length (filter (fun e => e.1 ∈ referencedAttemptIds (omap (readTask s) (contextTaskIds s input)) /\
       ar_task_id e.2 = t) (map_to_list (attempts s))) <= MAX_CONTEXT_ATTEMPTS_PER_TASK)%nat ->
  obj_get a (TaskTree.attempts tree) = Some (ar_attempt row).
Proof.
  unfold readTaskContext. destruct (m_app_metadata s) as [md|]; [|done]. cbv zeta. intros [= <-] Hh Hr Href Hne Ha Ht Hlen.
  cbn [TaskTree.resources TaskTree.attempts] in *. apply pick_Some in Hr as [Hin Hread].
  apply obj_get_all.
  2:{ intros w Hw. apply contextAttempts_sound in Hw as (row' & Hrow' & <-). rewrite Ha in Hrow'. by injection Hrow' as <-. }
  unfold contextAttempts. rewrite Hh. cbv zeta. apply list_elem_of_filter. split; [done|].
  apply elem_of_flat_map. exists t. split; [done|]. apply list_elem_of_fmap. exists (a, row). split; [done|].
  apply rankedAttempts_keeps; auto. unfold referencedAttemptIds. apply elem_of_flat_map. exists r. split.
  - apply list_elem_of_omap. eauto.
  - assert (nonempty (Some a) = Some a) as Hna by (simpl; by rewrite (proj2 (String.eqb_neq a "") Hne)).
    apply list_elem_of_omap. exists (Some a). split; [|done]. destruct Href as [-> | ->]; set_solver.
Qed.

(** ** Witnesses *)

Definition sample_task (id parent : string) (current : option string) : AppTaskResource :=
  mkResource (mkMetadata id None 1 1 None)
    (mkSpec parent "outcome" [] None None None None None None None None None)
    (mkStatus 1 running None current None None None None None None None None false None None None None None None
       "2024-01-01T00:00:00.000Z").

Definition sample_attempt : AppTaskAttempt :=
  mkAttempt "a1" 1 "child" 1 "hash" "owner" "handler" None "runtime" at_running "claimed" None None None None None
    None "2024-01-01T00:00:00.000Z" None None None None None None None None None.

Definition sample_store : store :=
  (bootstrapSnapshot 0 "2024-01-01T00:00:00.000Z" "r1"
     (TaskTree.mkTree (Some 1) (Some "demo") None None None []
        [("root", sample_task "root" "" None); ("child", sample_task "child" "root" (Some "a1"))]
        [("a1", sample_attempt)] [] [] [] [] [])
     [] (emptyStore "demo" ∅ ∅)).2.

Definition sample_input : ContextInput := mkInput ["child"] [] [] true (Some 0).

Definition sample_context : TaskTree.TaskTree :=
  match readTaskContext sample_store sample_input with
  | Ok tree => tree
  | Throw _ => TaskTree.mkTree None None None None None [] [] [] [] [] [] [] []
  end.

Lemma task_context_exact_witness :
  obj_get "root" (TaskTree.resources sample_context) = readTask sample_store "root".
Proof.
  assert (readTaskContext sample_store sample_input = Ok sample_context) as H by (vm_compute; reflexivity).
  apply (proj1 (proj2 (task_context_exact sample_store sample_input sample_context H))).
  apply (linked_step _ _ "child" (sample_task "child" "root" (Some "a1"))).
  - apply linked_base; [apply (bool_decide_unpack _); vm_compute; exact I | discriminate | vm_compute; eexists; reflexivity].
  - vm_compute. reflexivity.
  - apply (bool_decide_unpack _). vm_compute. exact I.
  - vm_compute. eexists. reflexivity.
Defined.

Lemma context_keeps_referenced_attempts_witness :
  obj_get "a1" (TaskTree.attempts sample_context) = Some sample_attempt.
Proof.
  apply (context_keeps_referenced_attempts sample_store sample_input sample_context "child"
    (sample_task "child" "root" (Some "a1")) "a1" (attemptRow sample_attempt)).
  - vm_compute. reflexivity.
  - reflexivity.
  - vm_compute. reflexivity.
  - left. reflexivity.
  - discriminate.
  - vm_compute. reflexivity.
  - reflexivity.
  - assert (length (map_to_list (attempts sample_store)) = 1%nat) as E by (vm_compute; reflexivity).
    etrans; [apply length_filter|]. rewrite E. unfold MAX_CONTEXT_ATTEMPTS_PER_TASK. lia.
Defined.

End Context.
