(* ===== verification/Approval.v ===== *)
(** Human approvals: the trusted Host journal read
    [readVerifiedApprovalDecision] ([packages/sdk/src/approval.ts]) and the
    owners a human action may have ([src/app/core/tasks/human-condition.ts]). *)
From S2P Require Import Prelude Json.

Module Approval.

(** ** Data *)

Record ApprovalProposal : Type := mkProposal {
  ap_taskGeneration : Z;
  ap_conditionId : string;
  ap_conditionGeneration : Z;
  ap_subject : string;
  ap_expected : json;
  ap_requestedAction : string }.

Inductive Ingress : Type := telegram | control_socket.

Record HostApprovalStamp : Type := mkStamp {
  hs_ingressSource : Ingress;
  hs_actorId : string;
  hs_reference : string;
  hs_evidence : obj json }.

Record VerifiedApprovalDecision : Type := mkVerified {
  va_decision : string;
  va_proposal : ApprovalProposal;
  va_hostApproval : HostApprovalStamp }.

(** ** Operations *)

Definition ingressText (i : Ingress) : string :=
  match i with telegram => "telegram" | control_socket => "control-socket" end.

Definition actorKind (i : Ingress) : string :=
  match i with telegram => "human" | control_socket => "operator" end.

Definition readIngress (source : option string) : option Ingress :=
  match source with
  | Some s =>
      if String.eqb s "telegram" then Some telegram
      else if String.eqb s "control-socket" then Some control_socket else None
  | None => None
  end.

Definition record (v : option json) : option (obj json) :=
  match v with Some (JObj o) => Some o | _ => None end.

Definition nonempty (v : option json) : option string :=
  match v with Some (JStr s) => if nonblank s then Some s else None | _ => None end.

(** A safe integer of at least one. *)
Definition positive (v : option json) : option Z :=
  match v with
  | Some (JNum n) => if isSafeInteger n && negb (number_ltb n (num 1)) then Some (number_to_Z n) else None
  | _ => None
  end.

Definition readProposal (p : obj json) : option ApprovalProposal :=
  match positive (obj_get "taskGeneration" p), nonempty (obj_get "conditionId" p),
        positive (obj_get "conditionGeneration" p), nonempty (obj_get "subject" p),
        nonempty (obj_get "requestedAction" p), obj_get "expected" p with
  | Some tg, Some c, Some cg, Some s, Some r, Some e => Some (mkProposal tg c cg s e r)
  | _, _, _, _, _, _ => None
  end.

(** The stamp must name the ingress the event came through and its kind of actor. *)
Definition readStamp (i : Ingress) (stamp : obj json) : option HostApprovalStamp :=
  match obj_get "version" stamp, record (obj_get "actor" stamp), record (obj_get "authorization" stamp) with
  | Some (JNum v), Some actor, Some authorization =>
      if number_eqb v (num 1) && str_is (obj_get "ingressSource" stamp) (ingressText i) &&
         str_is (obj_get "kind" actor) (actorKind i) then
        match nonempty (obj_get "id" actor), nonempty (obj_get "reference" authorization),
              record (obj_get "evidence" authorization) with
        | Some a, Some r, Some e => Some (mkStamp i a r e)
        | _, _, _ => None
        end
      else None
  | _, _, _ => None
  end.

Definition readVerifiedApprovalDecision (type : string) (source : option string) (data : obj json)
    : option VerifiedApprovalDecision :=
  if negb (String.eqb type "project.approval.submitted") then None else
  match readIngress source, record (obj_get "hostApproval" data), record (obj_get "proposal" data) with
  | Some i, Some stamp, Some proposal =>
      match readStamp i stamp, nonempty (obj_get "decision" data), readProposal proposal with
      | Some stamp, Some decision, Some proposal => Some (mkVerified decision proposal stamp)
      | _, _, _ => None
      end
  | _, _, _ => None
  end.

(** [isHumanActionOwner]: the human owner, and one retained legacy spelling. *)
Definition isHumanActionOwner (owner : option string) : bool :=
  match trim <$> owner with
  | Some o =>
      String.eqb o "human" ||
      (startsWith o "human:" && Nat.ltb (String.length "human:") (String.length o)) ||
      String.eqb o "Hao"
  | None => false
  end.

End Approval.
