(* ===== verification/Conditions.v ===== *)
(** The Condition tracker ([src/app/core/tasks/app-task-condition-tracker.ts]):
    which events prove a Condition, and how one durable event updates the
    Conditions of a Task tree and wakes the Tasks that wait for them.

    [JSON.stringify] is injective on values whose keys are in canonical order,
    so comparing two such texts is comparing the values ([json_eqb]); keys are
    ordered by code units.  Object keys that name members of
    [Object.prototype] do not occur.  A stored Condition has the shape
    [isCondition] tests, so a Condition of type [unknown] is an optional
    [AppTaskCondition].  The database the store reads other Apps' attempts from
    is a function from App IDs to stores. *)
From S2P Require Import Prelude Json TaskState TaskTree Transaction ResourceStore StoreInvariant Snapshot Context.
From S2P Require Import Approval.

Module Conditions.
Import TaskTree Approval.

(** ** Comparing values *)

(** Equality of JSON texts: the order of keys counts. *)
Fixpoint json_eqb (a b : json) {struct a} : bool :=
  match a, b with
  | JNull, JNull => true
  | JBool x, JBool y => Bool.eqb x y
  | JNum x, JNum y => number_is x y
  | JStr x, JStr y => String.eqb x y
  | JArr l, JArr m =>
      (fix go (l m : list json) : bool :=
         match l, m with
         | [], [] => true
         | x :: l', y :: m' => json_eqb x y && go l' m'
         | _, _ => false
         end) l m
  | JObj o, JObj p =>
      (fix go (o p : list (string * json)) : bool :=
         match o, p with
         | [], [] => true
         | (k, x) :: o', (j, y) :: p' => String.eqb k j && json_eqb x y && go o' p'
         | _, _ => false
         end) o p
  | _, _ => false
  end.

Definition key_le (a b : string * json) : Prop := String.le a.1 b.1.

#[export] Instance key_le_dec a b : Decision (key_le a b).
Proof. unfold key_le. apply _. Defined.

Fixpoint stableValue (v : json) : json :=
  match v with
  | JArr l => JArr (map stableValue l)
  | JObj o => JObj (merge_sort key_le (map (fun e => (e.1, stableValue e.2)) o))
  | _ => v
  end.

Definition stableEquals (left right : option json) : bool :=
  match left, right with
  | Some l, Some r => json_eqb (stableValue l) (stableValue r)
  | None, None => true
  | _, _ => false
  end.

Definition sameEvent (left right : obj json) : bool :=
  let leftId := Number_of (obj_get "eventId" left) in
  let rightId := Number_of (obj_get "eventId" right) in
  if isSafeInteger leftId && number_ltb (num 0) leftId && isSafeInteger rightId && number_ltb (num 0) rightId
  then number_eqb leftId rightId
  else stableEquals (Some (JObj left)) (Some (JObj right)).

(** ** Reading events *)

Fixpoint firstField (o : obj json) (names : list string) : option json :=
  match names with
  | [] => None
  | n :: names => match obj_get n o with Some v => Some v | None => firstField o names end
  end.

Definition recordOr (v : option json) : obj json :=
  match v with Some (JObj o) => o | _ => [] end.

(** The event's own field, else its target's, else its data's. *)
Definition eventField (event : obj json) (names : list string) : option json :=
  match firstField event names with
  | Some v => Some v
  | None =>
      match firstField (recordOr (obj_get "target" event)) names with
      | Some v => Some v
      | None => firstField (recordOr (obj_get "data" event)) names
      end
  end.

(** [value ?? fallback]. *)
Definition nullish (v : option json) (fallback : json) : json :=
  match v with Some JNull | None => fallback | Some v => v end.

Definition is_array (v : option json) : option (list json) :=
  match v with Some (JArr l) => Some l | _ => None end.

Definition num_is (v : option json) (z : Z) : bool :=
  match v with Some (JNum n) => number_eqb n (num z) | _ => false end.

Definition approvalTargetsTask (appId taskId : string) (taskGeneration : Z)
    (condition : AppTaskCondition) (event : obj json) : bool :=
  if negb (String.eqb (cs_type (cond_spec condition)) "project.approval.submitted") ||
     negb (isHumanActionOwner (cs_owner (cond_spec condition))) then true else
  let proposal := recordOr (obj_get "proposal" (recordOr (obj_get "data" event))) in
  str_is (eventField event ["appId"]) appId && str_is (eventField event ["taskId"]) taskId &&
  num_is (obj_get "taskGeneration" proposal) taskGeneration.

Definition normalizedState (v : option json) : string :=
  let state := match v with Some (JStr s) => toLowerCase (trim s) | _ => "" end in
  if set_has state ["converged"; "complete"; "completed"; "success"; "succeeded"] then "done" else state.

(** ** Comparators *)

Inductive comparable : Type := CNum (n : number) | CStr (s : string).

Definition numberOrNaN (v : option json) : number :=
  match v with Some (JNum n) => n | Some (JStr s) => Number_of_string s | _ => NaN end.

Definition orderedComparablePair (left right : option json) : option (comparable * comparable) :=
  let l := numberOrNaN left in
  let r := numberOrNaN right in
  if isFinite l && isFinite r then Some (CNum l, CNum r) else
  match left, right with
  | Some (JStr a), Some (JStr b) => Some (CStr a, CStr b)
  | _, _ => None
  end.

Definition comparable_lt (p : comparable * comparable) : bool :=
  match p with
  | (CNum a, CNum b) => number_ltb a b
  | (CStr a, CStr b) => String.ltb a b
  | _ => false
  end.

Definition comparable_le (p : comparable * comparable) : bool :=
  match p with
  | (CNum a, CNum b) => number_leb a b
  | (CStr a, CStr b) => String.leb a b
  | _ => false
  end.

Definition applyOperator (operator : string) (p : comparable * comparable) : bool :=
  if String.eqb operator "gt" then comparable_lt (p.2, p.1)
  else if String.eqb operator "gte" then comparable_le (p.2, p.1)
  else if String.eqb operator "lt" then comparable_lt p
  else if String.eqb operator "lte" then comparable_le p
  else false.

Definition matchesComparator (actual expected : option json) : bool :=
  match expected with
  | Some (JObj e) =>
      let operators := filter (fun k => obj_has k e = true) ["gt"; "gte"; "lt"; "lte"] in
      match operators with
      | [] => false
      | _ =>
          forallb (fun k => match orderedComparablePair actual (obj_get k e) with
                            | Some _ => true | None => false end) operators &&
          forallb (fun k => match orderedComparablePair actual (obj_get k e) with
                            | Some p => applyOperator k p | None => false end) operators
      end
  | _ => false
  end.

(** ** Subjects *)

Definition is_letter (c : ascii) : bool :=
  let n := chr c in ((65 <=? n) && (n <=? 90)) || ((97 <=? n) && (n <=? 122)).

(** [A-Za-z0-9_.-] *)
Definition is_kind_char (c : ascii) : bool :=
  let n := chr c in
  is_letter c || ((48 <=? n) && (n <=? 57)) || (n =? 95) || (n =? 46) || (n =? 45).

Definition kindPattern (s : string) : bool :=
  match chars s with c :: l => is_letter c && forallb is_kind_char l | [] => false end.

Definition subjectFields : list (string * string) :=
  [("task", "taskId"); ("session", "sessionId"); ("workflow-run", "workflowRunId");
   ("metric", "metricId"); ("alert", "alertId"); ("project", "project");
   ("pipeline-run", "pipelineRunId"); ("pull-request", "pullRequestId")].

(** The text before and after the first colon. *)
Definition splitColon (s : string) : option (string * string) :=
  match list_find (fun c => c = ":"%char) (chars s) with
  | Some (i, _) => Some (unchars (take i (chars s)), unchars (drop (S i) (chars s)))
  | None => None
  end.

Definition typedSubject (subject : string) : option (string * string) :=
  match splitColon subject with
  | Some (kind, value) =>
      if String.eqb kind "" || String.eqb value "" then None else
      let field := match obj_get kind subjectFields with
                   | Some f => f
                   | None => if kindPattern kind then kind else ""
                   end in
      if String.eqb field "" then None else Some (field, value)
  | None => None
  end.

Definition fieldAliases (field : string) : list string :=
  default [field] (obj_get field
    [("taskId", ["taskId"; "task_id"]); ("sessionId", ["sessionId"; "session_id"]);
     ("workflowRunId", ["workflowRunId"; "workflow_run_id"; "runId"]);
     ("metricId", ["metricId"; "metric_id"]); ("alertId", ["alertId"; "alert_id"]);
     ("project", ["project"; "projectId"; "project_id"]);
     ("pipelineRunId", ["pipelineRunId"; "pipeline_run_id"; "runId"; "run_id"]);
     ("pullRequestId", ["pullRequestId"; "pull_request_id"; "prId"; "pr_id"])]).

Definition timestampMillis (v : option json) : option number :=
  match v with
  | Some (JNum n) => if isFinite n then Some n else None
  | Some (JStr s) =>
      if nonblank s then let p := Date_parse s in if isFinite p then Some p else None else None
  | _ => None
  end.

Definition isLevelType (t : string) : bool :=
  String.eqb t "aks.repo-ref.observed" || endsWith t ".state" || endsWith t ".check" ||
  endsWith t ".pulse" || endsWith t "-pulse".

Definition isFreshLevelObservation (condition : AppTaskCondition) (event : obj json) : bool :=
  if negb (isLevelType (cs_type (cond_spec condition))) then true else
  match timestampMillis (JStr <$> cond_observedAt condition), timestampMillis (obj_get "timestamp" event) with
  | Some established, Some observed => number_leb established observed
  | _, _ => true
  end.

(** ** Matching *)

Definition matchesExpectedField (expected event : obj json) : bool :=
  match obj_get "field" expected with
  | Some (JStr f) =>
      if negb (nonblank f) then true else
      let actual := eventField event (fieldAliases f) in
      match is_array (obj_get "anyOf" expected) with
      | Some anyOf => existsb (fun c => stableEquals (Some c) actual) anyOf
      | None =>
          if obj_has "equals" expected then stableEquals (obj_get "equals" expected) actual
          else if obj_has "notEquals" expected
          then match actual with Some _ => negb (stableEquals (obj_get "notEquals" expected) actual) | None => false end
          else matchesComparator actual (Some (JObj expected))
      end
  | _ => true
  end.

Definition matchesEntry (event : obj json) (entry : string * json) : bool :=
  let '(field, value) := entry in
  if set_has field ["field"; "anyOf"; "equals"; "notEquals"; "gt"; "gte"; "lt"; "lte"] then true else
  let actual := eventField event (fieldAliases field) in
  match is_array (Some value) with
  | Some choices =>
      if String.eqb field "allowedDecisions" || String.eqb field "acceptedDecisions"
      then existsb (fun c => stableEquals (Some c) (eventField event ["decision"])) choices
      else matchesComparator actual (Some value) || stableEquals actual (Some value)
  | None => matchesComparator actual (Some value) || stableEquals actual (Some value)
  end.

Definition matchesExpectedRecord (expected event : obj json) : bool :=
  matchesExpectedField expected event && forallb (matchesEntry event) expected.

(** The decision of an approval, when it answers this exact Condition. *)
Definition matchesApproval (condition : AppTaskCondition) (event : obj json) : bool :=
  let spec := cond_spec condition in
  let source := match obj_get "source" event with Some (JStr s) => Some s | _ => None end in
  let data := match obj_get "data" event with Some (JObj d) => d | _ => event end in
  match readVerifiedApprovalDecision (cs_type spec) source data with
  | None => false
  | Some approval =>
      let proposal := va_proposal approval in
      let decision := JStr (va_decision approval) in
      if negb (String.eqb (ap_conditionId proposal) (cond_id condition)) ||
         negb (Z.eqb (ap_conditionGeneration proposal) (cond_generation condition)) ||
         negb (String.eqb (ap_subject proposal) (cs_subject spec)) ||
         negb (bool_decide (Some (ap_requestedAction proposal) = trim <$> cs_requestedAction spec)) ||
         negb (deep_eqb (ap_expected proposal) (cs_expected spec))
      then false else
      match cs_expected spec with
      | JObj expected =>
          let allowed := omap is_array [obj_get "anyOf" expected; obj_get "allowedDecisions" expected;
                                        obj_get "acceptedDecisions" expected] in
          negb (Nat.eqb (length allowed) 0) &&
          forallb (fun choices => existsb (fun c => deep_eqb c decision) choices) allowed &&
          matchesExpectedRecord expected [("data", JObj (obj_set "decision" decision expected))]
      | _ => false
      end
  end.

Definition matches (condition : AppTaskCondition) (event : obj json) : bool :=
  let spec := cond_spec condition in
  if negb (str_is (obj_get "type" event) (cs_type spec)) then false else
  if String.eqb (cs_type spec) "project.approval.submitted" && isHumanActionOwner (cs_owner spec)
  then matchesApproval condition event else
  if negb (isFreshLevelObservation condition event) then false else
  match typedSubject (cs_subject spec) with
  | None => false
  | Some (field, value) =>
      if negb (String.eqb (String_of_json (nullish (eventField event (fieldAliases field)) (JStr ""))) value)
      then false else
      match cs_expected spec with
      | JObj expected => matchesExpectedRecord expected event
      | expected =>
          let actual := eventField event ["state"; "status"; "disposition"; "result"; "outcome"] in
          match expected with
          | JStr _ => String.eqb (normalizedState actual) (normalizedState (Some expected))
          | _ => stableEquals actual (Some expected)
          end
      end
  end.

(** ** Reports of unfinished App requests *)

Definition isReportStatus (v : option json) : bool := set_has (String_of v) ["blocked"; "progress"].

Definition isAppInputReport (condition : AppTaskCondition) (event : obj json) : bool :=
  let spec := cond_spec condition in
  String.eqb (cs_type spec) "app.dependency.updated" && str_is (obj_get "type" event) (cs_type spec) &&
  startsWith (cond_id condition) "app-request:" &&
  String.eqb (cs_subject spec) ("id:" +:+ String_of_json (nullish (eventField event ["id"]) (JStr ""))) &&
  str_is (eventField event ["kind"]) "app" && isReportStatus (eventField event ["status"]) &&
  stableEquals (Some (cs_expected spec)) (Some (JObj [("field", JStr "status"); ("equals", JStr "done")])).

Inductive ReportKind : Type := k_progress | k_failure | k_unknown.

#[export] Instance ReportKind_eq_dec : EqDecision ReportKind.
Proof. solve_decision. Defined.

Definition getReport (k : ReportKind) (r : ConditionReports) : option (obj json) :=
  match k with k_progress => rep_progress r | k_failure => rep_failure r | k_unknown => rep_unknown r end.

Definition setReport (k : ReportKind) (v : obj json) (r : ConditionReports) : ConditionReports :=
  match k with
  | k_progress => mkReports (Some v) (rep_failure r) (rep_unknown r)
  | k_failure => mkReports (rep_progress r) (Some v) (rep_unknown r)
  | k_unknown => mkReports (rep_progress r) (rep_failure r) (Some v)
  end.

Definition allReports (r : ConditionReports) : list (obj json) :=
  omap id [rep_progress r; rep_failure r; rep_unknown r].

Definition slice (n : nat) (s : string) : string := unchars (drop n (chars s)).

Section Database.
Context (db : option (string -> ResourceStore.store)).

(** The attempt an old report names, in the App it came from. *)
Definition sourceAttempt (source attemptId : string) : option AppTaskAttempt :=
  let appId := slice (String.length "app-inbox:") source in
  match db with
  | Some stores => if String.eqb appId "" then None else ResourceStore.readAttempt (stores appId) attemptId
  | None => None
  end.

Definition reportKind (event : obj json) : ReportKind :=
  let declared := eventField event ["reportKind"] in
  if str_is declared "progress" then k_progress
  else if str_is declared "failure" then k_failure
  else if str_is (eventField event ["state"; "status"]) "progress" then k_progress else
  match eventField event ["source"], eventField event ["reportAttemptId"] with
  | Some (JStr source), Some (JStr attemptId) =>
      if negb (startsWith source "app-inbox:") then k_failure else
      match sourceAttempt source attemptId with
      | Some attempt =>
          if negb (str_is (eventField event ["taskId"]) (att_taskId attempt)) then k_unknown else
          match ar_state <$> att_acceptedResult attempt with
          | Some r_waiting => k_progress
          | Some r_incomplete => k_failure
          | _ => if bool_decide (att_state attempt = at_failed) then k_failure else k_unknown
          end
      | None => k_unknown
      end
  | _, _ => k_failure
  end.

(** The recorded reports, with the last observation filled in where it is one. *)
Definition observedReports (condition : AppTaskCondition) : ConditionReports :=
  let reports := default (mkReports None None None) (cond_reports condition) in
  match cond_observed condition with
  | Some (JObj observed) =>
      if isReportStatus (obj_get "state" observed) then
        let kind := reportKind observed in
        match getReport kind reports with
        | Some _ => reports
        | None =>
            setReport kind (if decide (kind = k_progress) then obj_set "state" (JStr "progress") observed
                            else observed) reports
        end
      else reports
  | _ => reports
  end.

(** [Number(value ?? 1)]. *)
Definition revisionOf (v : option json) : number := Number_of_json (nullish v (JNum (num 1))).

Definition isSafeRevision (v : option json) : bool :=
  match v with Some (JNum n) => isSafeInteger n | _ => false end.

(** A report that is not recorded yet. *)
Definition isNewReport (condition : AppTaskCondition) (event : obj json) : bool :=
  let kind := reportKind event in
  let reports := observedReports condition in
  let revision := eventField event ["reportRevision"] in
  if match rep_unknown reports with
     | Some u =>
         str_is (eventField event ["status"]) "blocked" && negb (truthy (eventField event ["reportKind"])) &&
         number_leb (revisionOf revision) (revisionOf (obj_get "reportRevision" u))
     | None => false
     end then false
  else if existsb (fun report =>
      truthy (obj_get "reportAttemptId" report) &&
      match obj_get "reportAttemptId" report, eventField event ["reportAttemptId"] with
      | Some (JStr a), Some (JStr b) => String.eqb a b
      | Some (JNum a), Some (JNum b) => number_eqb a b
      | Some (JBool a), Some (JBool b) => Bool.eqb a b
      | _, _ => false
      end &&
      number_eqb (revisionOf (obj_get "reportRevision" report)) (revisionOf revision)) (allReports reports)
  then false
  else match getReport kind reports with
       | None => true
       | Some previous =>
           isSafeRevision revision &&
           number_ltb (revisionOf (obj_get "reportRevision" previous)) (Number_of revision)
       end.

Definition matchesAppTaskCondition (condition : option AppTaskCondition) (event : obj json) : bool :=
  match condition with
  | None => false
  | Some c =>
      if bool_decide (cond_state c = cs_true) then false
      else if matches c event then true
      else if negb (isAppInputReport c event) then false
      else isNewReport c event
  end.

Definition matchesAppTaskConditionFacts (condition : option AppTaskCondition) (event : obj json) : bool :=
  match condition with
  | None => false
  | Some c => matches c event || isAppInputReport c event
  end.

(** ** Observation *)

(** An object literal whose [undefined] fields are absent. *)
Definition literal (fields : list (string * option json)) : obj json :=
  omap (fun e => (fun v => (e.1, v)) <$> e.2) fields.

Definition observation (event : obj json) : obj json :=
  let field names := eventField event names in
  literal
    ((if str_is (obj_get "type" event) "app.dependency.updated" && isReportStatus (field ["status"]) then
        [("summary", field ["summary"]); ("response", field ["response"]);
         ("reportAttemptId", field ["reportAttemptId"]); ("reportRevision", field ["reportRevision"]);
         ("reportKind", field ["reportKind"]); ("result", field ["result"]); ("facts", field ["facts"])]
      else []) ++
     [("eventType", obj_get "type" event); ("source", obj_get "source" event);
      ("taskId", field ["taskId"; "task_id"]); ("sessionId", field ["sessionId"; "session_id"]);
      ("workflowRunId", field ["workflowRunId"; "workflow_run_id"; "runId"]);
      ("pipelineRunId", field ["pipelineRunId"; "pipeline_run_id"; "runId"; "run_id"]);
      ("pullRequestId", field ["pullRequestId"; "pull_request_id"; "prId"; "pr_id"]);
      ("sourceCommit", field ["sourceCommit"; "source_commit"]);
      ("state", field ["state"; "status"; "disposition"; "result"; "outcome"]);
      ("timestamp", obj_get "timestamp" event)]).

Record AppTaskConditionWake : Type := mkWake { wk_conditionId : string; wk_taskId : string }.

(** ** Applying one event to a Task tree *)

(** A Task that still owns the Condition and may take this event. *)
Definition isWaiting (tree : TaskTree) (allowed : option (list string)) (event : obj json)
    (id : string) (condition : AppTaskCondition) (resource : AppTaskResource) : bool :=
  let st := status resource in
  let taskId := md_id (metadata resource) in
  (match st_phase st with
   | waiting | running | pending => true
   | attention => match st_retryExhausted st with Some _ => true | None => false end
   | converged => false
   end) &&
  set_has id (default [] (st_conditionIds st)) &&
  negb (taskEventPredatesReopening (Some resource) (Some event)) &&
  match allowed with None => true | Some ids => set_has taskId ids end &&
  approvalTargetsTask (default "" (project tree)) taskId (md_generation (metadata resource)) condition event.

Definition waitingResources (tree : TaskTree) (allowed : option (list string)) (event : obj json)
    (id : string) (condition : AppTaskCondition) : list AppTaskResource :=
  filter (fun r => isWaiting tree allowed event id condition r = true) (obj_values (resources tree)).

(** The events of a trigger: the list when it has any, else the single event. *)
Definition pendingEvents (t : option AppTaskTrigger) : list AppTaskTriggerEvent :=
  match t with
  | None => []
  | Some t =>
      match tr_events t with
      | Some (e :: es) => e :: es
      | _ => [mkTriggerEvent (tr_event t) (tr_observedAt t)]
      end
  end.

Definition hasEvent (event : obj json) (events : list AppTaskTriggerEvent) : bool :=
  existsb (fun e => sameEvent (te_event e) event) events.

(** Whether the event concerns the Condition, and as which kind of report. *)
Definition eventKind (condition : AppTaskCondition) (event : obj json) : option (option ReportKind) :=
  if isAppInputReport condition event
  then if matchesAppTaskCondition (Some condition) event then Some (Some (reportKind event)) else None
  else if matches condition event then Some None else None.

Definition observeCondition (now : string) (event : obj json) (kind : option ReportKind)
    (c : AppTaskCondition) : AppTaskCondition :=
  let observed := if decide (kind = Some k_progress) then obj_set "state" (JStr "progress") (observation event)
                  else observation event in
  mkCondition (cond_id c) (cond_generation c) (cond_resourceVersion c + 1) (cond_spec c)
    (cond_generation c) (match kind with Some _ => cs_false | None => cs_true end)
    (cond_createdAt c) (Some (JObj observed))
    (match kind with Some k => Some (setReport k observed (observedReports c)) | None => cond_reports c end)
    (Some now)
    (Some (("event:" +:+ String_of (obj_get "type" event)) ::
           (if truthy (obj_get "source" event) then ["source:" +:+ String_of (obj_get "source" event)] else []))).

(** What the loop over the Conditions accumulates. *)
Record progress_t : Type := mkProgress {
  pg_conditions : obj AppTaskCondition;
  pg_changed : bool;
  pg_changedIds : list string;
  pg_wakes : obj AppTaskConditionWake }.

Definition addWake (tree : TaskTree) (event : obj json) (id : string)
    (wakes : obj AppTaskConditionWake) (resource : AppTaskResource) : obj AppTaskConditionWake :=
  let taskId := md_id (metadata resource) in
  if obj_has taskId wakes then wakes
  else if hasEvent event (pendingEvents (obj_get taskId (taskTriggers tree))) then wakes
  else obj_set taskId (mkWake id taskId) wakes.

Definition conditionStep (tree : TaskTree) (allowed : option (list string)) (now : string) (event : obj json)
    (acc : progress_t) (entry : string * AppTaskCondition) : progress_t :=
  let '(id, condition) := entry in
  match eventKind condition event with
  | None => acc
  | Some kind =>
      match waitingResources tree allowed event id condition with
      | [] => acc
      | targets =>
          let acc :=
            if bool_decide (cond_state condition = cs_true) then acc
            else mkProgress (obj_set id (observeCondition now event kind condition) (pg_conditions acc)) true
                   (set_add id (pg_changedIds acc)) (pg_wakes acc) in
          if bool_decide (kind = Some k_progress) &&
             bool_decide (cs_progress (cond_spec condition) = Some next_wake) then acc
          else mkProgress (pg_conditions acc) (pg_changed acc) (pg_changedIds acc)
                 (fold_left (addWake tree event id) targets (pg_wakes acc))
      end
  end.

Definition conditionLoop (tree : TaskTree) (allowed : option (list string)) (now : string) (event : obj json) : progress_t :=
  fold_left (conditionStep tree allowed now event) (conditions tree)
    (mkProgress (conditions tree) false [] []).

Definition set_triggers (t : obj AppTaskTrigger) (tree : TaskTree) : TaskTree :=
  mkTree (version tree) (project tree) (updated_at tree) (project_lifecycle tree) (root_task_id tree)
    (conditions tree) (resources tree) (attempts tree) t (appTaskAdmissions tree) (receipts tree)
    (cancellations tree) (groups tree).
Definition set_conditions (c : obj AppTaskCondition) (tree : TaskTree) : TaskTree :=
  mkTree (version tree) (project tree) (updated_at tree) (project_lifecycle tree) (root_task_id tree)
    c (resources tree) (attempts tree) (taskTriggers tree) (appTaskAdmissions tree) (receipts tree)
    (cancellations tree) (groups tree).
Definition set_resources (r : obj AppTaskResource) (tree : TaskTree) : TaskTree :=
  mkTree (version tree) (project tree) (updated_at tree) (project_lifecycle tree) (root_task_id tree)
    (conditions tree) r (attempts tree) (taskTriggers tree) (appTaskAdmissions tree) (receipts tree)
    (cancellations tree) (groups tree).

(** The trigger a woken Task gets. *)
Definition wakeTrigger (now : string) (event : obj json) (taskId : string) (resource : AppTaskResource)
    (previous : option AppTaskTrigger) : AppTaskTrigger :=
  let prior := pendingEvents previous in
  let events := if hasEvent event prior then prior else prior ++ [mkTriggerEvent event now] in
  mkTrigger taskId (md_generation (metadata resource)) (default 0 (tr_resourceVersion <$> previous) + 1)
    (Some events) (default event (tr_event <$> previous)) now.

Definition wakeStep (now : string) (event : obj json)
    (acc : TaskTree * obj AppTaskConditionWake * bool) (wake : AppTaskConditionWake)
    : TaskTree * obj AppTaskConditionWake * bool :=
  let '(tree, wakes, changed) := acc in
  match obj_get (wk_taskId wake) (resources tree) with
  | None => acc
  | Some resource =>
      (set_triggers (obj_set (wk_taskId wake)
         (wakeTrigger now event (wk_taskId wake) resource (obj_get (wk_taskId wake) (taskTriggers tree)))
         (taskTriggers tree)) tree,
       obj_set (wk_taskId wake) wake wakes, true)
  end.

(** The tree afterwards, the wakes, the changed Conditions, and whether anything changed. *)
Record applied_t : Type := mkApplied {
  ac_tree : TaskTree;
  ac_wakes : obj AppTaskConditionWake;
  ac_changedIds : list string;
  ac_changed : bool }.

Definition applyConditionEvent (tree : TaskTree) (now : string) (event : obj json)
    (allowed : option (list string)) : applied_t :=
  let pg := conditionLoop tree allowed now event in
  let '(tree, wakes, changed) :=
    fold_left (wakeStep now event) (obj_values (pg_wakes pg))
      (set_conditions (pg_conditions pg) tree, [], pg_changed pg) in
  mkApplied tree wakes (pg_changedIds pg) changed.

Definition applyAppTaskConditionEvent (tree : TaskTree) (now : string) (event : obj json)
    : list AppTaskConditionWake * TaskTree :=
  let a := applyConditionEvent tree now event None in (obj_values (ac_wakes a), ac_tree a).

(** ** Persisting *)

Definition bumpResource (r : AppTaskResource) : AppTaskResource :=
  mkResource (mkMetadata (md_id (metadata r)) (md_creator (metadata r)) (md_generation (metadata r))
    (md_resourceVersion (metadata r) + 1) (md_reopenedAfterEventId (metadata r))) (spec r) (status r).

(** The exact write set of an applied event: fences on what was read, one write
    per woken Task, the changed Conditions. *)
Definition conditionMutation (a : applied_t) : ResourceStore.AppTaskResourceMutation :=
  let tree := ac_tree a in
  let linked := filter (fun r => existsb (fun id => set_has id (ac_changedIds a))
                                   (default [] (st_conditionIds (status r))) = true) (obj_values (resources tree)) in
  let taskIds := fold_left (fun ids k => set_add k ids) (map (fun r => md_id (metadata r)) linked)
                   (obj_keys (ac_wakes a)) in
  let rs := omap (fun t => obj_get t (resources tree)) taskIds in
  let woken := filter (fun r => obj_has (md_id (metadata r)) (ac_wakes a) = true) rs in
  ResourceStore.mkMutation
    (map (fun r => ResourceStore.mkFence (md_id (metadata r)) (md_resourceVersion (metadata r))
        (Some (md_generation (metadata r))) (Some (st_currentAttemptId (status r)))) rs)
    None []
    (map (fun r => ResourceStore.mkWrite (bumpResource r) (obj_get (md_id (metadata r)) (taskTriggers tree)) true None) woken)
    [] [] [] (omap (fun id => obj_get id (conditions tree)) (ac_changedIds a)) [] [] [] [] [] [] [] [] [].

(** The tree the caller keeps: the woken resources were bumped in place. *)
Definition bumpWoken (a : applied_t) : TaskTree :=
  set_resources (map (fun e => (e.1, if obj_has (md_id (metadata e.2)) (ac_wakes a) then bumpResource e.2 else e.2))
    (resources (ac_tree a))) (ac_tree a).

(** A delivered event stays eligible for a Task whose pending input has it, or
    whose open Condition it proves. *)
Definition stillEligible (s : ResourceStore.store) (tree : TaskTree) (event : obj json) (taskId : string) : bool :=
  negb (ResourceStore.hasTaskEvent s taskId event) ||
  existsb (fun e => sameEvent (te_event e) event)
    (match obj_get taskId (taskTriggers tree) with Some t => triggerEvents t | None => [] end) ||
  existsb (fun id => matchesAppTaskCondition (obj_get id (conditions tree)) event)
    (match obj_get taskId (resources tree) with Some r => default [] (st_conditionIds (status r)) | None => [] end).

(** The bounded tree is read directly from the store, so [commitTaskMutation]
    does not know it as a scoped snapshot. *)
Definition trackAppTaskConditionEventForTasks (now : string) (nowMs : Z) (event : obj json) (taskIds : list string)
    (inTransaction : bool) (cache : option Snapshot.TaskSnapshotCache) (s : ResourceStore.store)
    : res (list AppTaskConditionWake) * option Snapshot.TaskSnapshotCache * ResourceStore.store :=
  let allowed := set_of taskIds in
  if Nat.eqb (length allowed) 0 then (Ok [], cache, s) else
  match Context.readTaskContext s (Context.mkInput allowed [] [] false (Some 0)) with
  | Throw e => (Throw e, cache, s)
  | Ok tree =>
      let allowed := filter (fun t => stillEligible s tree event t = true) allowed in
      if Nat.eqb (length allowed) 0 then (Ok [], cache, s) else
      let a := applyConditionEvent tree now event (Some allowed) in
      if ac_changed a then
        match Snapshot.commitTaskMutation nowMs now (bumpWoken a) false inTransaction (conditionMutation a) cache s with
        | (Ok _, cache, s) => (Ok (obj_values (ac_wakes a)), cache, s)
        | (Throw e, cache, s) => (Throw e, cache, s)
        end
      else (Ok (obj_values (ac_wakes a)), cache, s)
  end.

(** ** Preflight *)

(** One Condition of a type that is open, with the Tasks that wait for it. *)
Record Route : Type := mkRoute { rt_condition : AppTaskCondition; rt_taskIds : list string }.

Definition routable (row : ResourceStore.TaskRow) : bool :=
  match ResourceStore.row_phase row with
  | waiting | running | pending => true
  | attention => match st_retryExhausted (status (ResourceStore.row_resource row)) with Some _ => true | None => false end
  | converged => false
  end.

Definition readConditionRoutes (s : ResourceStore.store) (eventType : string) (taskIds : option (list string))
    : list Route :=
  let wanted t := match taskIds with None => true | Some ids => set_has t ids end in
  omap (fun id =>
      match ResourceStore.conditions s !! id with
      | Some c =>
          if negb (String.eqb (cs_type (cond_spec c)) eventType) || bool_decide (cond_state c = cs_true) ||
             String.eqb id "" then None else
          let linked := js_sort (omap (fun r : string * string =>
              match ResourceStore.tasks s !! r.1 with
              | Some row => if String.eqb r.2 id && routable row && wanted r.1 && negb (String.eqb r.1 "")
                            then Some r.1 else None
              | None => None
              end) (elements (ResourceStore.routes s))) in
          match linked with [] => None | _ => Some (mkRoute c linked) end
      | None => None
      end) (js_sort (map fst (map_to_list (ResourceStore.conditions s)))).

Definition matchingAppTaskConditionTaskIds (s : ResourceStore.store) (event : obj json)
    (allowedTaskIds : option (list string)) : list string :=
  let allowed := set_of <$> allowedTaskIds in
  let eventType := match obj_get "type" event with Some (JStr t) => t | _ => "" end in
  let matched :=
    flat_map (fun route =>
      let c := rt_condition route in
      if negb (matchesAppTaskCondition (Some c) event) then [] else
      filter (fun taskId =>
        match allowed with None => true | Some ids => set_has taskId ids end &&
        approvalTargetsTask (ResourceStore.appId s) taskId
          (match ResourceStore.readTask s taskId with Some r => md_generation (metadata r) | None => -1 end)
          c event = true) (rt_taskIds route))
      (readConditionRoutes s eventType allowed) in
  js_sort (set_of matched).

End Database.

(** ** Stable equality *)

#[export] Instance key_le_trans : Transitive key_le.
Proof. intros a b c. unfold key_le. apply transitivity. Qed.
#[export] Instance key_le_total : Total key_le.
Proof. intros a b. unfold key_le. apply (total String.le). Qed.

Lemma json_eqb_arr l m : json_eqb (JArr l) (JArr m) = true <-> Forall2 (fun x y => json_eqb x y = true) l m.
Proof.
  revert m. induction l as [|x l IH]; intros [|y m]; simpl; split; intros H; try done;
    try (by inversion H).
  - apply andb_true_iff in H as [H1 H2]. apply Forall2_cons. split; [done|]. apply IH. exact H2.
  - inversion H; subst. apply andb_true_iff. split; [done|]. by apply (IH m).
Qed.

Lemma json_eqb_obj o p :
  json_eqb (JObj o) (JObj p) = true <->
  Forall2 (fun a b => a.1 = b.1 /\ json_eqb a.2 b.2 = true) o p.
Proof.
  revert p. induction o as [|[k x] o IH]; intros [|[j y] p]; simpl; split; intros H; try done;
    try (by inversion H).
  - apply andb_true_iff in H as [H1 H2]. apply andb_true_iff in H1 as [H0 H1]. reflect_bools.
    apply Forall2_cons. split; [done|]. apply IH. exact H2.
  - inversion H as [|? ? ? ? [Hk Hv]]; subst. simpl in *. subst.
    rewrite String.eqb_refl, Hv. by apply (IH p).
Qed.

Lemma deep_eqb_arr l m : deep_eqb (JArr l) (JArr m) = true <-> Forall2 (fun x y => deep_eqb x y = true) l m.
Proof.
  revert m. induction l as [|x l IH]; intros [|y m]; simpl; split; intros H; try done;
    try (by inversion H).
  - apply andb_true_iff in H as [H1 H2]. apply Forall2_cons. split; [done|]. apply IH. exact H2.
  - inversion H; subst. apply andb_true_iff. split; [done|]. by apply (IH m).
Qed.

Lemma deep_eqb_obj o p :
  deep_eqb (JObj o) (JObj p) = true <->
  length o = length p /\
  forall k x, (k, x) ∈ o -> exists y, obj_get k p = Some y /\ deep_eqb x y = true.
Proof.
  simpl. rewrite andb_true_iff, Nat.eqb_eq. apply and_iff_compat_l.
  induction o as [|[k x] o IH]; [set_solver|].
  rewrite andb_true_iff, IH. split.
  - intros [Hk Ho] k' x' [[= -> ->]|Hin]%elem_of_cons; [|by apply Ho].
    destruct (obj_get k p) as [y|]; [by exists y | done].
  - intros Hall. split; [|intros k' x' Hin; apply Hall; set_solver].
    destruct (Hall k x) as (y & -> & Hy); [set_solver | done].
Qed.

Lemma json_wf_arr l : json_wf (JArr l) <-> Forall json_wf l.
Proof. induction l as [|x l IH]; simpl; [done|]. rewrite Forall_cons, <- IH. done. Qed.

Lemma json_wf_obj o : json_wf (JObj o) <-> obj_wf o /\ Forall (fun e => json_wf e.2) o.
Proof.
  simpl. apply and_iff_compat_l. induction o as [|[k x] o IH]; [done|]. rewrite Forall_cons, <- IH. done.
Qed.

(** The canonical entries of an object: its own, in the order of the keys. *)
Definition canonical (o : list (string * json)) : list (string * json) :=
  merge_sort key_le (map (fun e => (e.1, stableValue e.2)) o).

Lemma canonical_perm o : canonical o ≡ₚ map (fun e => (e.1, stableValue e.2)) o.
Proof. apply merge_sort_Permutation. Qed.

Lemma elem_of_canonical k v o :
  (k, v) ∈ canonical o <-> exists x, (k, x) ∈ o /\ v = stableValue x.
Proof.
  rewrite canonical_perm, list_elem_of_fmap. split.
  - intros ([j x] & [= -> ->] & Hin). eauto.
  - intros (x & Hin & ->). by exists (k, x).
Qed.

Lemma canonical_keys o : map fst (canonical o) ≡ₚ obj_keys o.
Proof. rewrite canonical_perm. unfold obj_keys. by rewrite map_map. Qed.

Lemma canonical_sorted o : StronglySorted String.le (map fst (canonical o)).
Proof.
  apply (StronglySorted_fmap fst key_le); [done|]. apply StronglySorted_merge_sort; apply _.
Qed.

(** Two objects with the same keys have the same canonical key list. *)
Lemma canonical_same_keys o p :
  obj_wf o -> length o = length p -> (forall k, k ∈ obj_keys o -> k ∈ obj_keys p) ->
  map fst (canonical o) = map fst (canonical p).
Proof.
  intros Ho Hlen Hin. apply (StronglySorted_unique String.le); try apply canonical_sorted.
  rewrite !canonical_keys. apply submseteq_length_Permutation.
  - by apply NoDup_submseteq.
  - unfold obj_keys. rewrite !length_map. lia.
Qed.

Lemma and_iff_l (A B C : Prop) : (A -> B <-> C) -> A /\ B <-> A /\ C.
Proof. tauto. Qed.

(** Equal canonical entries: every key has an equal value on the other side. *)
Lemma stable_deep_fwd o p :
  obj_wf p -> length o = length p ->
  (forall k x y, (k, x) ∈ o -> (k, y) ∈ p ->
     json_eqb (stableValue x) (stableValue y) = true -> deep_eqb x y = true) ->
  (forall i x y, canonical o !! i = Some x -> canonical p !! i = Some y ->
     x.1 = y.1 /\ json_eqb x.2 y.2 = true) ->
  forall k x, (k, x) ∈ o -> exists y, obj_get k p = Some y /\ deep_eqb x y = true.
Proof.
  intros Hp Hlen IH Hall k x Hin.
  assert ((k, stableValue x) ∈ canonical o) as Hc by (apply elem_of_canonical; eauto).
  apply list_elem_of_lookup in Hc as [i Hi].
  destruct (lookup_lt_is_Some_2 (canonical p) i) as [[j v] Hj].
  { apply lookup_lt_Some in Hi. rewrite canonical_perm, length_map in *. lia. }
  destruct (Hall i _ _ Hi Hj) as [Hk Hv]. simpl in *. subst j.
  apply list_elem_of_lookup_2, elem_of_canonical in Hj as (y & Hy & ->).
  exists y. split; [by apply obj_get_wf | eauto].
Qed.

Lemma stable_deep_bwd o p :
  obj_wf o -> obj_wf p -> length o = length p ->
  (forall k x y, (k, x) ∈ o -> (k, y) ∈ p ->
     deep_eqb x y = true -> json_eqb (stableValue x) (stableValue y) = true) ->
  (forall k x, (k, x) ∈ o -> exists y, obj_get k p = Some y /\ deep_eqb x y = true) ->
  forall i x y, canonical o !! i = Some x -> canonical p !! i = Some y ->
    x.1 = y.1 /\ json_eqb x.2 y.2 = true.
Proof.
  intros Ho Hp Hlen IH Hall i [k v] [j w] Hi Hj. simpl.
  assert (map fst (canonical o) = map fst (canonical p)) as Hkeys.
  { apply canonical_same_keys; auto. intros k' ([k0 x] & -> & Hin)%list_elem_of_fmap.
    destruct (Hall k0 x Hin) as (y & Hy%obj_get_Some_elem & _).
    apply list_elem_of_fmap. by exists (k0, y). }
  assert (k = j) as <-.
  { assert ((fst <$> canonical o) !! i = (fst <$> canonical p) !! i) as E by (f_equal; exact Hkeys).
    rewrite !list_lookup_fmap, Hi, Hj in E. by injection E. }
  split; [done|].
  apply list_elem_of_lookup_2, elem_of_canonical in Hi as (x & Hx & ->).
  apply list_elem_of_lookup_2, elem_of_canonical in Hj as (y & Hy & ->).
  destruct (Hall k x Hx) as (y' & Hg & Hd). rewrite (obj_get_wf k y p Hp Hy) in Hg.
  injection Hg as <-. eauto.
Qed.

Lemma stable_deep a : forall b, json_wf a -> json_wf b ->
  json_eqb (stableValue a) (stableValue b) = true <-> deep_eqb a b = true.
Proof.
  induction a as [|x|x|x|l IH|o IH] using json_ind'; intros [|y|y|y|m|p] Ha Hb; try done.
  - rewrite json_wf_arr in Ha, Hb. cbn [stableValue]. rewrite json_eqb_arr, deep_eqb_arr.
    rewrite Forall2_fmap_l, Forall2_fmap_r. revert m Hb.
    induction l as [|x l IHl]; intros [|y m] Hb; [done|split; intros H; inversion H..|].
    apply Forall_cons in IH as [IHx IH], Ha as [Hx Ha], Hb as [Hy Hb].
    rewrite !Forall2_cons, IHl by done. specialize (IHx y Hx Hy). split; intros [H1 H2]; (split; [by apply IHx | done]).
  - rewrite json_wf_obj in Ha, Hb. destruct Ha as [Ho Ha], Hb as [Hp Hb].
    rewrite Forall_forall in IH, Ha, Hb.
    change (stableValue (JObj o)) with (JObj (canonical o)).
    change (stableValue (JObj p)) with (JObj (canonical p)).
    rewrite json_eqb_obj, deep_eqb_obj, Forall2_same_length_lookup.
    assert (forall q, length (canonical q) = length q) as Hlen.
    { intros q. rewrite canonical_perm. apply length_map. }
    rewrite !Hlen. apply and_iff_l. intros Hsame.
    assert (forall k x y, (k, x) ∈ o -> (k, y) ∈ p ->
      json_eqb (stableValue x) (stableValue y) = true <-> deep_eqb x y = true) as IH'.
    { intros k x y Hx Hy. apply (IH (k, x) Hx); [apply (Ha (k, x) Hx) | apply (Hb (k, y) Hy)]. }
    split; [apply stable_deep_fwd | apply stable_deep_bwd]; auto; intros k x y Hx Hy;
      apply (IH' k x y Hx Hy).
Qed.

Lemma json_eqb_refl v : json_eqb v v = true.
Proof.
  induction v as [|b|n|x|l IH|o IH] using json_ind'; simpl.
  - done.
  - by destruct b.
  - apply number_is_refl.
  - apply String.eqb_refl.
  - apply json_eqb_arr. induction IH; constructor; auto.
  - apply json_eqb_obj. induction IH; constructor; auto.
Qed.

Lemma sameEvent_refl e : sameEvent e e = true.
Proof.
  unfold sameEvent. destruct (_ && _) eqn:E; [|apply json_eqb_refl]. reflect_bools.
  destruct (Number_of (obj_get "eventId" e)); try done. simpl. apply Qeq_bool_refl.
Qed.

(** ** Reports and exact matches exclude each other *)

(** The expectation of an App request: exactly a [done] status. *)
Lemma expected_done v :
  stableEquals (Some v) (Some (JObj [("field", JStr "status"); ("equals", JStr "done")])) = true ->
  exists o, v = JObj o /\ obj_get "field" o = Some (JStr "status") /\
    obj_get "equals" o = Some (JStr "done") /\ obj_get "anyOf" o = None.
Proof.
  intros H. destruct v as [| | | |l|o]; try done. exists o. split; [done|].
  change (json_eqb (JObj (canonical o)) (JObj [("equals", JStr "done"); ("field", JStr "status")]) = true) in H.
  apply json_eqb_obj in H.
  destruct (canonical o) as [|[k1 v1] [|[k2 v2] rest]] eqn:Hc; try (by inversion H as [|? ? ? ? ? H']; inversion H').
  inversion H as [|? ? ? ? [Hk1 Hv1] H']; subst. inversion H' as [|? ? ? ? [Hk2 Hv2] H'']; subst.
  inversion H''; subst. simpl in *. subst.
  assert (v1 = JStr "done") as -> by (destruct v1; try done; simpl in Hv1; reflect_bools; by subst).
  assert (v2 = JStr "status") as -> by (destruct v2; try done; simpl in Hv2; reflect_bools; by subst).
  assert (obj_wf o) as Hwf.
  { unfold obj_wf. rewrite <- canonical_keys, Hc. simpl. by apply (bool_decide_unpack _). }
  assert (forall k s, (k, JStr s) ∈ canonical o -> obj_get k o = Some (JStr s)) as Hget.
  { intros k s (x & Hx & Heq)%elem_of_canonical. apply obj_get_wf; [done|].
    destruct x; try discriminate Heq. by injection Heq as <-. }
  split_ands; [apply Hget; rewrite Hc; set_solver.. |].
  apply obj_get_None. rewrite <- canonical_keys, Hc. simpl. by apply (bool_decide_unpack _).
Qed.

Lemma report_not_match c e : isAppInputReport c e = true -> matches c e = false.
Proof.
  unfold isAppInputReport. intros H. reflect_bools. unfold matches.
  match goal with H : cs_type _ = _ |- _ => rewrite !H end. simpl.
  destruct (negb _); [done|]. destruct (negb _); [done|].
  destruct (typedSubject _) as [[field value]|]; [|done]. destruct (negb _); [done|].
  match goal with H : stableEquals _ _ = true |- _ => apply expected_done in H as (o & -> & Hf & He & Ha) end.
  apply andb_false_iff. left. unfold matchesExpectedField. rewrite Hf, He, Ha. simpl.
  unfold obj_has. rewrite He.
  match goal with H : isReportStatus _ = true |- _ => rename H into Hs end.
  change (fieldAliases "status") with ["status"].
  destruct (eventField e ["status"]) as [v|]; [|done]. unfold isReportStatus in Hs.
  destruct v as [| | |x| |]; try done. change (String.eqb "done" x = false).
  apply String.eqb_neq. intros <-. vm_compute in Hs. done.
Qed.

(** ** Fields of an observation *)

Lemma obj_get_literal k fields :
  NoDup (map fst fields) -> obj_get k (literal fields) = mjoin (obj_get k fields).
Proof.
  unfold literal. induction fields as [|[j [v|]] fields IH]; simpl; [done|..];
    intros [Hj Hnd]%NoDup_cons; destruct (String.eqb_spec j k) as [->|Hne]; auto.
  etrans; [by apply IH|]. by rewrite (proj2 (obj_get_None k fields)).
Qed.

Lemma observation_revision c e :
  isAppInputReport c e = true ->
  obj_get "reportRevision" (observation e) = eventField e ["reportRevision"].
Proof.
  unfold isAppInputReport. intros H. reflect_bools. unfold observation.
  match goal with H : cs_type _ = _ |- _ => rewrite H in * end.
  match goal with H : str_is _ _ = true, H' : isReportStatus _ = true |- _ => rewrite H, H' end.
  cbn [andb]. rewrite obj_get_literal; [done|]. by apply (bool_decide_unpack _).
Qed.

Lemma getReport_setReport k j v r :
  getReport k (setReport j v r) = if decide (k = j) then Some v else getReport k r.
Proof. by destruct k, j. Qed.

(** Filling in the last observation keeps the recorded reports. *)
Lemma observedReports_keeps db c k v :
  getReport k (default (mkReports None None None) (cond_reports c)) = Some v ->
  getReport k (observedReports db c) = Some v.
Proof.
  intros Hk. unfold observedReports. destruct (cond_observed c) as [[| | | | |o]|]; auto.
  destruct (isReportStatus _); [|done]. cbv zeta.
  destruct (getReport (reportKind db o) _) eqn:E; [done|].
  rewrite getReport_setReport. case_decide as Hd; [|done]. subst. by rewrite Hk in E.
Qed.

(** A recorded report is not new any more. *)
Lemma report_recorded db now e c :
  isAppInputReport c e = true ->
  isNewReport db (observeCondition db now e (Some (reportKind db e)) c) e = false.
Proof.
  intros Hr. unfold isNewReport. cbv zeta.
  rewrite (observedReports_keeps db _ (reportKind db e)
    (if decide (Some (reportKind db e) = Some k_progress)
     then obj_set "state" (JStr "progress") (observation e) else observation e))
    by (simpl; by rewrite getReport_setReport, decide_True).
  replace (obj_get "reportRevision" (if decide _ then _ else _)) with (eventField e ["reportRevision"]).
  2:{ symmetry. case_decide; [rewrite obj_get_set_ne by done|]; by eapply observation_revision. }
  assert (isSafeRevision (eventField e ["reportRevision"]) &&
    number_ltb (revisionOf (eventField e ["reportRevision"])) (Number_of (eventField e ["reportRevision"])) = false) as ->.
  { apply andb_false_iff. destruct (eventField e ["reportRevision"]) as [[| |n| | |]|]; auto.
    right. unfold revisionOf. simpl. destruct n; try done. simpl.
    apply negb_false_iff, Qle_bool_iff, Qle_refl. }
  match goal with |- (if ?a then _ else if ?b then _ else _) = _ => by destruct a, b end.
Qed.

(** ** The loop over the Conditions *)

Section Apply.
Context (db : option (string -> ResourceStore.store)).
#[local] Arguments conditionStep : simpl never.

(** The resources of a tree are keyed by their own IDs, its Conditions once each. *)
Definition tree_ok (tree : TaskTree) : Prop :=
  obj_wf (conditions tree) /\ obj_wf (resources tree) /\
  forall k r, obj_get k (resources tree) = Some r -> md_id (metadata r) = k.

(** A Condition after the event. *)
Definition conditionAfter (tree : TaskTree) (allowed : option (list string)) (now : string) (event : obj json)
    (id : string) (c : AppTaskCondition) : AppTaskCondition :=
  match eventKind db c event, waitingResources tree allowed event id c with
  | Some kind, _ :: _ => if bool_decide (cond_state c = cs_true) then c else observeCondition db now event kind c
  | _, _ => c
  end.

(** The Tasks a Condition wakes, as [addWake] receives them. *)
Definition wakeTargets (tree : TaskTree) (allowed : option (list string)) (event : obj json)
    (id : string) (c : AppTaskCondition) : list AppTaskResource :=
  match eventKind db c event with
  | Some kind =>
      if bool_decide (kind = Some k_progress) && bool_decide (cs_progress (cond_spec c) = Some next_wake)
      then [] else waitingResources tree allowed event id c
  | None => []
  end.

Lemma obj_set_middle {V} k (v v' : V) l1 l2 :
  k ∉ map fst l1 -> obj_set k v' (l1 ++ (k, v) :: l2) = l1 ++ (k, v') :: l2.
Proof.
  induction l1 as [|[j w] l1 IH]; simpl.
  - by rewrite String.eqb_refl.
  - intros [Hne Hk]%not_elem_of_cons. rewrite (proj2 (String.eqb_neq _ _)) by done. by rewrite IH.
Qed.

Lemma conditionStep_eq tree allowed now event acc id c :
  let acc' := conditionStep db tree allowed now event acc (id, c) in
  (pg_conditions acc' = pg_conditions acc /\ conditionAfter tree allowed now event id c = c \/
   pg_conditions acc' = obj_set id (conditionAfter tree allowed now event id c) (pg_conditions acc)) /\
  pg_wakes acc' = fold_left (addWake tree event id) (wakeTargets tree allowed event id c) (pg_wakes acc) /\
  (pg_changed acc' = pg_changed acc \/ pg_changed acc' = true) /\
  (conditionAfter tree allowed now event id c = c \/ id ∈ pg_changedIds acc') /\
  (forall i, i ∈ pg_changedIds acc -> i ∈ pg_changedIds acc').
Proof.
  unfold conditionStep, conditionAfter, wakeTargets.
  destruct (eventKind db c event) as [kind|]; [|simpl; by split_ands; auto].
  destruct (waitingResources tree allowed event id c) as [|r rs].
  { destruct (_ && _); simpl; by split_ands; auto. }
  destruct (bool_decide (cond_state c = cs_true)), (_ && _); cbn -[set_add]; split_ands; auto;
    try (right; apply elem_of_set_add; by left); intros i Hi; apply elem_of_set_add; by right.
Qed.

Lemma conditionLoop_conditions tree allowed now event :
  obj_wf (conditions tree) ->
  pg_conditions (conditionLoop db tree allowed now event) =
  map (fun e => (e.1, conditionAfter tree allowed now event e.1 e.2)) (conditions tree).
Proof.
  intros Hwf. unfold conditionLoop.
  set (f := fun e : string * AppTaskCondition => (e.1, conditionAfter tree allowed now event e.1 e.2)).
  assert (forall suf pre acc, conditions tree = pre ++ suf -> pg_conditions acc = map f pre ++ suf ->
    pg_conditions (fold_left (conditionStep db tree allowed now event) suf acc) = map f (pre ++ suf)) as Hgen.
  { induction suf as [|[id c] suf IH]; intros pre acc Hc Hacc; simpl; [by rewrite Hacc, !app_nil_r|].
    rewrite (cons_middle (id, c)), app_assoc. apply IH; [by rewrite Hc, <- app_assoc|].
    destruct (conditionStep_eq tree allowed now event acc id c) as [Hp _].
    rewrite map_app. simpl. rewrite <- app_assoc. simpl.
    assert (id ∉ map fst (map f pre)) as Hnot.
    { rewrite map_map. unfold obj_wf, obj_keys in Hwf. rewrite Hc, map_app in Hwf.
      apply NoDup_app in Hwf as (_ & Hd & _). intros Hin. apply (Hd id Hin). simpl. set_solver. }
    destruct Hp as [[-> Hid] | ->]; rewrite Hacc.
    - do 2 f_equal. unfold f. cbn [fst snd]. by rewrite Hid.
    - by apply obj_set_middle. }
  by apply (Hgen _ []).
Qed.

Lemma conditionAfter_get tree allowed now event id :
  obj_wf (conditions tree) ->
  obj_get id (pg_conditions (conditionLoop db tree allowed now event)) =
  conditionAfter tree allowed now event id <$> obj_get id (conditions tree).
Proof.
  intros Hwf. rewrite conditionLoop_conditions by done. clear Hwf.
  induction (conditions tree) as [|[k c] l IH]; [done|].
  simpl. destruct (String.eqb_spec k id) as [->|]; [done|]. apply IH.
Qed.

(** *** Wakes *)

Lemma addWake_keys tree event id targets wakes t :
  obj_has t (fold_left (addWake tree event id) targets wakes) = true <->
  obj_has t wakes = true \/
  (hasEvent event (pendingEvents (obj_get t (taskTriggers tree))) = false /\
   exists r, r ∈ targets /\ md_id (metadata r) = t).
Proof.
  revert wakes. induction targets as [|r rs IH]; intros wakes; simpl.
  { split; [auto|]. intros [?|(_ & r & Hr & _)]; [done|]. by apply not_elem_of_nil in Hr. }
  rewrite IH. unfold addWake.
  set (x := md_id (metadata r)).
  assert (forall P : Prop, (exists r', r' ∈ r :: rs /\ md_id (metadata r') = t) <->
    x = t \/ exists r', r' ∈ rs /\ md_id (metadata r') = t) as Hex.
  { intros _. unfold x. setoid_rewrite elem_of_cons. naive_solver. }
  rewrite (Hex True). destruct (obj_has x wakes) eqn:Hx.
  { split; [naive_solver|]. intros [?|[? [<-|?]]]; auto. }
  destruct (hasEvent event (pendingEvents (obj_get x (taskTriggers tree)))) eqn:He.
  { split; [naive_solver|]. intros [?|[Hn [<-|?]]]; auto. by rewrite He in Hn. }
  assert (obj_has t (obj_set x (mkWake id x) wakes) = true <-> x = t \/ obj_has t wakes = true) as ->.
  { unfold obj_has. destruct (decide (x = t)) as [->|Hne]; [rewrite obj_get_set_eq; tauto|].
    rewrite obj_get_set_ne by done. naive_solver. }
  split; [intros [[<-|?]|[? ?]]; auto | intros [?|[? [<-|?]]]; auto].
Qed.

(** The Tasks the loop wakes: those that wait for a matching Condition and do
    not have the event pending yet. *)
Lemma conditionLoop_wakes tree allowed now event t :
  obj_has t (pg_wakes (conditionLoop db tree allowed now event)) = true <->
  hasEvent event (pendingEvents (obj_get t (taskTriggers tree))) = false /\
  exists id c r, (id, c) ∈ conditions tree /\ r ∈ wakeTargets tree allowed event id c /\ md_id (metadata r) = t.
Proof.
  unfold conditionLoop. generalize (conditions tree) at 1 3. intros l.
  set (acc := mkProgress _ _ _ _).
  assert (forall l acc, obj_has t (pg_wakes (fold_left (conditionStep db tree allowed now event) l acc)) = true <->
    obj_has t (pg_wakes acc) = true \/
    (hasEvent event (pendingEvents (obj_get t (taskTriggers tree))) = false /\
     exists id c r, (id, c) ∈ l /\ r ∈ wakeTargets tree allowed event id c /\ md_id (metadata r) = t)) as Hgen.
  { clear. induction l as [|[id c] l IH]; intros acc; simpl.
    { split; [auto|]. intros [?|(_ & id & c & r & Hin & _)]; [done|]. by apply not_elem_of_nil in Hin. }
    rewrite IH. destruct (conditionStep_eq tree allowed now event acc id c) as (_ & -> & _).
    rewrite addWake_keys. setoid_rewrite elem_of_cons. split.
    - intros [[?|[He (r & Hr & Ht)]]|[He (id' & c' & r & Hin & Hr & Ht)]]; [by left|right; split; [done|]..].
      + exists id, c, r. auto.
      + exists id', c', r. auto.
    - intros [?|[He (id' & c' & r & [[= -> ->]|Hin] & Hr & Ht)]]; [by do 2 left| |].
      + left. right. split; [done|]. by exists r.
      + right. split; [done|]. by exists id', c', r. }
  rewrite Hgen. simpl. split; [by intros [?|?] | auto].
Qed.

(** Every wake is keyed by its Task. *)
Lemma addWake_keyed tree event id targets wakes :
  (forall k w, obj_get k wakes = Some w -> wk_taskId w = k) -> obj_wf wakes ->
  let wakes' := fold_left (addWake tree event id) targets wakes in
  (forall k w, obj_get k wakes' = Some w -> wk_taskId w = k) /\ obj_wf wakes'.
Proof.
  revert wakes. induction targets as [|r rs IH]; intros wakes Hk Hwf; simpl; [done|].
  apply IH; unfold addWake; repeat case_match; auto with may.
  intros k w. destruct (decide (k = md_id (metadata r))) as [->|Hne].
  - rewrite obj_get_set_eq. by intros [= <-].
  - rewrite obj_get_set_ne by done. apply Hk.
Qed.

Lemma conditionLoop_keyed tree allowed now event :
  let wakes := pg_wakes (conditionLoop db tree allowed now event) in
  (forall k w, obj_get k wakes = Some w -> wk_taskId w = k) /\ obj_wf wakes.
Proof.
  unfold conditionLoop. set (acc := mkProgress _ _ _ _).
  assert ((forall k w, obj_get k (pg_wakes acc) = Some w -> wk_taskId w = k) /\ obj_wf (pg_wakes acc)) as H.
  { split; [done | constructor]. }
  clearbody acc. revert acc H. induction (conditions tree) as [|[id c] l IH]; intros acc H; [done|].
  apply IH. destruct (conditionStep_eq tree allowed now event acc id c) as (_ & -> & _).
  apply addWake_keyed; apply H.
Qed.

(** *** Triggers *)

Lemma hasEvent_app event l1 l2 : hasEvent event (l1 ++ l2) = hasEvent event l1 || hasEvent event l2.
Proof. apply existsb_app. Qed.

Lemma wakeTrigger_has now event t r previous :
  hasEvent event (pendingEvents (Some (wakeTrigger now event t r previous))) = true.
Proof.
  assert (forall l a b c d e, hasEvent event l = true ->
    hasEvent event (pendingEvents (Some (mkTrigger a b c (Some l) d e))) = true) as Hl by (by intros []).
  unfold wakeTrigger. apply Hl. destruct (hasEvent event (pendingEvents previous)) eqn:He; [done|].
  rewrite hasEvent_app. unfold hasEvent at 2. simpl. rewrite sameEvent_refl. apply orb_true_r.
Qed.

(** The loop over the wakes: what it leaves alone, the triggers it writes and
    the wakes it returns. *)
Lemma wakeLoop_spec now event ws tree wakes changed :
  let '(tree', wakes', changed') := fold_left (wakeStep now event) ws (tree, wakes, changed) in
  tree' = set_triggers (taskTriggers tree') tree /\
  (forall t, obj_get t (taskTriggers tree') = obj_get t (taskTriggers tree) \/
     hasEvent event (pendingEvents (obj_get t (taskTriggers tree'))) = true) /\
  (forall w, w ∈ ws -> is_Some (obj_get (wk_taskId w) (resources tree)) ->
     hasEvent event (pendingEvents (obj_get (wk_taskId w) (taskTriggers tree'))) = true) /\
  (forall t, obj_has t wakes' = true <-> obj_has t wakes = true \/
     exists w, w ∈ ws /\ wk_taskId w = t /\ is_Some (obj_get t (resources tree))).
Proof.
  revert tree wakes changed. induction ws as [|w ws IH]; intros tree wakes changed; simpl.
  { split_ands; auto; [by destruct tree | intros w Hw; by apply not_elem_of_nil in Hw|].
    intros t. split; [auto|]. intros [?|(w & Hw & _)]; [done|]. by apply not_elem_of_nil in Hw. }
  destruct (obj_get (wk_taskId w) (resources tree)) as [r|] eqn:Hr.
  2:{ specialize (IH tree wakes changed). destruct (fold_left _ _ _) as [[tree' wakes'] changed'].
      destruct IH as (H1 & H2 & H3 & H4). split_ands; auto.
      - intros w' [->|Hw]%elem_of_cons; [rewrite Hr; intros [? [=]] | auto].
      - intros t. rewrite H4. setoid_rewrite elem_of_cons. split; [naive_solver|].
        intros [?|(w' & [->|Hw] & <- & [? Hs])]; [auto| by rewrite Hr in Hs |]. right. eauto. }
  set (tree1 := set_triggers _ tree). specialize (IH tree1 (obj_set (wk_taskId w) w wakes) true).
  destruct (fold_left _ _ _) as [[tree' wakes'] changed'].
  destruct IH as (H1 & H2 & H3 & H4).
  assert (hasEvent event (pendingEvents (obj_get (wk_taskId w) (taskTriggers tree1))) = true) as Hw.
  { simpl. rewrite obj_get_set_eq. apply wakeTrigger_has. }
  split_ands.
  - rewrite H1 at 1. done.
  - intros t. destruct (decide (t = wk_taskId w)) as [->|Hne].
    + right. destruct (H2 (wk_taskId w)) as [-> | ?]; done.
    + destruct (H2 t) as [E|?]; [|by right]. left. rewrite E. simpl. by rewrite obj_get_set_ne.
  - intros w' [->|Hin]%elem_of_cons Hs; [|by apply H3].
    destruct (H2 (wk_taskId w)) as [-> | ?]; done.
  - intros t. rewrite H4. simpl.
    assert (obj_has t (obj_set (wk_taskId w) w wakes) = true <-> t = wk_taskId w \/ obj_has t wakes = true) as ->.
    { unfold obj_has. destruct (decide (t = wk_taskId w)) as [->|Hne]; [rewrite obj_get_set_eq; tauto|].
      rewrite obj_get_set_ne by done. naive_solver. }
    setoid_rewrite elem_of_cons. split.
    + intros [[->|?]|(w' & ? & ? & ?)]; [right; exists w; rewrite Hr; eauto | auto | right; eauto].
    + intros [?|(w' & [->|?] & <- & ?)]; [auto | auto | right; eauto].
Qed.

(** ** Applying an event *)

Lemma wake_iff_in (wakes : obj AppTaskConditionWake) t :
  (forall k w, obj_get k wakes = Some w -> wk_taskId w = k) -> obj_wf wakes ->
  (exists w, w ∈ obj_values wakes /\ wk_taskId w = t) <-> obj_has t wakes = true.
Proof.
  intros Hk Hwf. rewrite obj_has_true. split.
  - intros (w & [k Hw]%elem_of_obj_values & <-); [|done]. exists w. by rewrite (Hk _ _ Hw) in *.
  - intros [w Hw]. exists w. split; [|by apply Hk]. apply elem_of_obj_values; eauto.
Qed.

Lemma waiting_resource tree allowed event id c r :
  tree_ok tree -> r ∈ waitingResources tree allowed event id c ->
  obj_get (md_id (metadata r)) (resources tree) = Some r.
Proof.
  intros (_ & Hwf & Hkeyed) [_ [k Hk]%elem_of_obj_values]%list_elem_of_filter; [|done].
  by rewrite (Hkeyed _ _ Hk).
Qed.

Lemma wakeTargets_waiting tree allowed event id c r :
  r ∈ wakeTargets tree allowed event id c -> r ∈ waitingResources tree allowed event id c.
Proof. unfold wakeTargets. repeat case_match; try done; intros Hn; by apply not_elem_of_nil in Hn. Qed.

(** Everything about one application, from the two loops. *)
Lemma applyConditionEvent_spec tree now event allowed :
  tree_ok tree ->
  let a := applyConditionEvent db tree now event allowed in
  conditions (ac_tree a) =
    map (fun e => (e.1, conditionAfter tree allowed now event e.1 e.2)) (conditions tree) /\
  ac_tree a = set_triggers (taskTriggers (ac_tree a)) (set_conditions (conditions (ac_tree a)) tree) /\
  (forall t, obj_get t (taskTriggers (ac_tree a)) = obj_get t (taskTriggers tree) \/
     hasEvent event (pendingEvents (obj_get t (taskTriggers (ac_tree a)))) = true) /\
  (forall t, obj_has t (ac_wakes a) = true <->
     hasEvent event (pendingEvents (obj_get t (taskTriggers tree))) = false /\
     exists id c r, (id, c) ∈ conditions tree /\ r ∈ wakeTargets tree allowed event id c /\
       md_id (metadata r) = t) /\
  (forall t, obj_has t (ac_wakes a) = true ->
     hasEvent event (pendingEvents (obj_get t (taskTriggers (ac_tree a)))) = true).
Proof.
  intros Hok. pose proof Hok as (Hwf & Hrwf & Hkeyed). unfold applyConditionEvent. cbv zeta.
  set (pg := conditionLoop db tree allowed now event).
  destruct (conditionLoop_keyed tree allowed now event) as [Hk Hw]. fold pg in Hk, Hw.
  pose proof (wakeLoop_spec now event (obj_values (pg_wakes pg)) (set_conditions (pg_conditions pg) tree) []
    (pg_changed pg)) as Hspec.
  destruct (fold_left _ _ _) as [[tree' wakes'] changed']. destruct Hspec as (H1 & H2 & H3 & H4).
  cbn [ac_tree ac_wakes].
  assert (conditions tree' = pg_conditions pg) as Hc by (rewrite H1; done).
  assert (forall t, obj_has t wakes' = true <-> obj_has t (pg_wakes pg) = true) as Hwakes.
  { intros t. rewrite H4. simpl. split.
    - intros [?|(w & Hin & <- & _)]; [done|]. apply wake_iff_in; eauto.
    - intros Ht. right. pose proof Ht as (w & Hin & Hwt)%wake_iff_in; [|done..].
      exists w. split_ands; auto. apply conditionLoop_wakes in Ht as (_ & id & c & r & _ & Hr & <-).
      apply wakeTargets_waiting, waiting_resource in Hr; eauto. }
  split_ands.
  - rewrite Hc. by apply conditionLoop_conditions.
  - rewrite H1 at 1. by rewrite Hc.
  - exact H2.
  - intros t. rewrite Hwakes. apply conditionLoop_wakes.
  - intros t Ht. rewrite Hwakes in Ht. pose proof Ht as (w & Hin & <-)%wake_iff_in; [|done..].
    apply H3; [done|]. apply conditionLoop_wakes in Ht as (_ & id & c & r & _ & Hr & <-).
    apply wakeTargets_waiting, waiting_resource in Hr; eauto.
Qed.

(** *** A second delivery *)

Lemma eventKind_true c event kind :
  cond_state c = cs_true -> eventKind db c event = Some kind -> kind = None.
Proof.
  intros Hs. unfold eventKind, matchesAppTaskCondition. rewrite bool_decide_eq_true_2 by done.
  destruct (isAppInputReport c event); [done|]. destruct (matches c event); [|done]. by intros [= <-].
Qed.

(** A report that was recorded is not delivered again. *)
Lemma eventKind_recorded now event k c :
  eventKind db c event = Some (Some k) -> eventKind db (observeCondition db now event (Some k) c) event = None.
Proof.
  unfold eventKind. intros H. destruct (isAppInputReport c event) eqn:Hr; [|by destruct (matches c event)].
  destruct (matchesAppTaskCondition db (Some c) event); [|done]. injection H as <-.
  set (c' := observeCondition _ _ _ _ _).
  assert (isAppInputReport c' event = true) as Hr' by exact Hr. rewrite Hr'.
  unfold matchesAppTaskCondition. rewrite bool_decide_eq_false_2 by done.
  rewrite (report_not_match c' event Hr'), Hr'. simpl. unfold c'. by rewrite report_recorded.
Qed.

(** Where a Condition still concerns the event afterwards, it is proved, and the
    Tasks waiting for it were woken by the first delivery. *)
Lemma conditionAfter_settled tree allowed now event id c kind r :
  let c' := conditionAfter tree allowed now event id c in
  eventKind db c' event = Some kind -> r ∈ waitingResources tree allowed event id c ->
  kind = None /\ cond_state c' = cs_true /\ r ∈ wakeTargets tree allowed event id c.
Proof.
  intros c'. unfold c', conditionAfter. clear c'.
  destruct (eventKind db c event) as [kind0|] eqn:Hk.
  2:{ intros Hn. by rewrite Hk in Hn. }
  destruct (waitingResources tree allowed event id c) as [|r0 rs] eqn:Hw.
  { intros _ Hn. by apply not_elem_of_nil in Hn. }
  unfold wakeTargets. rewrite Hk, Hw. case_bool_decide as Hs.
  - intros Hk' Hr. rewrite Hk in Hk'. injection Hk' as <-.
    rewrite (eventKind_true _ _ _ Hs Hk). split_ands; auto.
  - destruct kind0 as [k|]; intros Hk' Hr.
    { by rewrite (eventKind_recorded now event k c Hk) in Hk'. }
    assert (cond_state (observeCondition db now event None c) = cs_true) as Ht by done.
    rewrite (eventKind_true _ _ _ Ht Hk'). auto.
Qed.

Lemma addWake_pending tree event id targets wakes :
  (forall r, r ∈ targets -> hasEvent event (pendingEvents (obj_get (md_id (metadata r)) (taskTriggers tree))) = true) ->
  fold_left (addWake tree event id) targets wakes = wakes.
Proof.
  revert wakes. induction targets as [|r rs IH]; intros wakes Hall; [done|]. simpl.
  replace (addWake tree event id wakes r) with wakes.
  - apply IH. intros r' Hr'. apply Hall. by right.
  - unfold addWake. rewrite (Hall r) by (by left). by destruct (obj_has _ _).
Qed.

Lemma conditionStep_settled tree allowed now now' event acc id c :
  tree_ok tree -> (id, c) ∈ conditions tree ->
  conditionStep db (ac_tree (applyConditionEvent db tree now event allowed)) allowed now' event acc
    (id, conditionAfter tree allowed now event id c) = acc.
Proof.
  intros Hok Hin. destruct (applyConditionEvent_spec tree now event allowed Hok) as (_ & Htree & Hkeep & Hwakes & Hhas).
  set (a := applyConditionEvent db tree now event allowed) in *. clearbody a.
  unfold conditionStep. set (c' := conditionAfter tree allowed now event id c).
  destruct (eventKind db c' event) as [kind|] eqn:Hk; [|done].
  assert (waitingResources (ac_tree a) allowed event id c' = waitingResources tree allowed event id c) as ->.
  { rewrite Htree. unfold c', conditionAfter. by repeat case_match. }
  assert (forall r, r ∈ waitingResources tree allowed event id c ->
    hasEvent event (pendingEvents (obj_get (md_id (metadata r)) (taskTriggers (ac_tree a)))) = true) as Hall.
  { intros r Hr. destruct (conditionAfter_settled _ _ _ _ _ _ _ r Hk Hr) as (_ & _ & Ht).
    destruct (obj_has (md_id (metadata r)) (ac_wakes a)) eqn:Hh; [by apply Hhas|].
    destruct (Hkeep (md_id (metadata r))) as [-> | ?]; [|done].
    destruct (hasEvent _ _) eqn:He; [done|]. exfalso.
    assert (obj_has (md_id (metadata r)) (ac_wakes a) = true) as Hyes; [|by rewrite Hyes in Hh].
    apply Hwakes. split; [done|]. by exists id, c, r. }
  destruct (waitingResources tree allowed event id c) as [|r rs] eqn:Hw; [done|].
  destruct (conditionAfter_settled tree allowed now event id c kind r Hk) as (-> & Hs & _); [rewrite Hw; by left|].
  fold c' in Hs. rewrite (bool_decide_eq_true_2 _ Hs). simpl bool_decide. cbn [andb].
  rewrite addWake_pending by done. by destruct acc.
Qed.

End Apply.

(** ** Properties *)

(** C10.  One durable event is applied at most once: applying it again, at any
    later time and to the same Tasks, changes no Condition and no pending
    input and wakes nobody. *)
Theorem condition_event_idempotent db tree now now' event allowed :
  tree_ok tree ->
  let a := applyConditionEvent db tree now event allowed in
  let b := applyConditionEvent db (ac_tree a) now' event allowed in
  ac_tree b = ac_tree a /\ ac_wakes b = [] /\ ac_changedIds b = [] /\ ac_changed b = false.
Proof.
  intros Hok a b. destruct (applyConditionEvent_spec db tree now event allowed Hok) as (Hc & _).
  fold a in Hc.
  assert (conditionLoop db (ac_tree a) allowed now' event = mkProgress (conditions (ac_tree a)) false [] []) as Hloop.
  { unfold conditionLoop. set (acc := mkProgress _ _ _ _). rewrite Hc. clearbody acc.
    assert (forall l, (forall x, x ∈ l -> x ∈ conditions tree) ->
      fold_left (conditionStep db (ac_tree a) allowed now' event)
        (map (fun e => (e.1, conditionAfter db tree allowed now event e.1 e.2)) l) acc = acc) as Hgen.
    { induction l as [|[id c] l IH]; intros Hl; [done|]. cbn [map fold_left fst snd].
      unfold a. rewrite conditionStep_settled; [|done|apply Hl; by left]. apply IH. intros x Hx. apply Hl. by right. }
    by apply Hgen. }
  unfold b, applyConditionEvent. rewrite Hloop. simpl. split_ands; try done. by destruct (ac_tree a).
Qed.


(** The comparison of canonical JSON texts is deep equality: on values
    whose objects have one entry per key, [stableEquals] agrees with
    [isDeepStrictEqual], whatever the order of the keys. *)
Theorem stable_equality_is_deep_equality a b :
  json_wf a -> json_wf b -> stableEquals (Some a) (Some b) = deep_eqb a b.
Proof.
  intros Ha Hb. simpl. pose proof (stable_deep a b Ha Hb) as H.
  destruct (json_eqb _ _), (deep_eqb a b); try done; [symmetry|]; by apply H.
Qed.

Lemma verified_source type source data va :
  readVerifiedApprovalDecision type source data = Some va ->
  source = Some (ingressText (hs_ingressSource (va_hostApproval va))) /\
  obj_get "decision" data = Some (JStr (va_decision va)).
Proof.
  unfold readVerifiedApprovalDecision. destruct (negb _); [done|].
  destruct (readIngress source) as [i|] eqn:Hi; [|done].
  destruct (record _) as [stamp|]; [|done]. destruct (record _) as [proposal|]; [|done].
  destruct (readStamp i stamp) as [st|] eqn:Hs; [|done].
  destruct (nonempty (obj_get "decision" data)) as [d|] eqn:Hd; [|done].
  destruct (readProposal proposal); [|done]. intros [= <-]. simpl. split.
  - assert (hs_ingressSource st = i) as ->.
    { unfold readStamp in Hs. repeat case_match; try done. by injection Hs as <-. }
    unfold readIngress in Hi. destruct source as [s'|]; [|done].
    destruct (String.eqb s' "telegram") eqn:E1; [|destruct (String.eqb s' "control-socket") eqn:E2; [|done]];
      injection Hi as <-; reflect_bools; by subst.
  - unfold nonempty in Hd. repeat case_match; try done. by injection Hd as <-.
Qed.

Definition choiceKeys : list string := ["anyOf"; "allowedDecisions"; "acceptedDecisions"].

Lemma elem_of_allowed (expected : obj json) choices :
  choices ∈ omap is_array [obj_get "anyOf" expected; obj_get "allowedDecisions" expected;
                           obj_get "acceptedDecisions" expected] <->
  exists key, key ∈ choiceKeys /\ obj_get key expected = Some (JArr choices).
Proof.
  change [obj_get "anyOf" expected; _; _] with ((fun k => obj_get k expected) <$> choiceKeys).
  rewrite list_elem_of_omap. setoid_rewrite list_elem_of_fmap. split.
  - intros (v & (k & -> & Hk) & Hv). exists k. split; [done|].
    destruct (obj_get k expected) as [[]|]; try done. by injection Hv as ->.
  - intros (k & Hk & Hv). exists (obj_get k expected). split; [eauto|]. by rewrite Hv.
Qed.

(** A human approval proves a Condition only through a verified Host
    decision: the event came through Telegram or the control socket and carries
    a matching Host stamp; its proposal names this Condition, generation,
    subject, action and expectation; at least one list of choices is declared
    and the decision is one of every declared list. *)
Theorem human_approval_exact c event :
  cs_type (cond_spec c) = "project.approval.submitted" ->
  isHumanActionOwner (cs_owner (cond_spec c)) = true ->
  matches c event = true ->
  exists data va expected,
    readVerifiedApprovalDecision (cs_type (cond_spec c))
      (Some (ingressText (hs_ingressSource (va_hostApproval va)))) data = Some va /\
    obj_get "source" event = Some (JStr (ingressText (hs_ingressSource (va_hostApproval va)))) /\
    ap_conditionId (va_proposal va) = cond_id c /\
    ap_conditionGeneration (va_proposal va) = cond_generation c /\
    ap_subject (va_proposal va) = cs_subject (cond_spec c) /\
    Some (ap_requestedAction (va_proposal va)) = trim <$> cs_requestedAction (cond_spec c) /\
    cs_expected (cond_spec c) = JObj expected /\
    deep_eqb (ap_expected (va_proposal va)) (JObj expected) = true /\
    (exists key choices, key ∈ ["anyOf"; "allowedDecisions"; "acceptedDecisions"] /\
       obj_get key expected = Some (JArr choices)) /\
    (forall key choices, key ∈ ["anyOf"; "allowedDecisions"; "acceptedDecisions"] ->
       obj_get key expected = Some (JArr choices) ->
       exists choice, choice ∈ choices /\ deep_eqb choice (JStr (va_decision va)) = true).
Proof.
  intros Hty Hown. unfold matches. rewrite Hown, Hty. cbn [String.eqb].
  destruct (negb _); [done|]. change (String.eqb _ _ && true) with true. cbv iota.
  unfold matchesApproval. rewrite Hty. cbv zeta.
  set (source := match obj_get "source" event with Some (JStr s) => Some s | _ => None end).
  set (data := match obj_get "data" event with Some (JObj d) => d | _ => event end).
  destruct (readVerifiedApprovalDecision _ source data) as [va|] eqn:Hva; [|done].
  destruct (verified_source _ _ _ _ Hva) as [Hsrc _].
  destruct (_ || _) eqn:Hids; [done|].
  apply orb_false_iff in Hids as [Hids He]. apply orb_false_iff in Hids as [Hids Hact].
  apply orb_false_iff in Hids as [Hids Hsub]. apply orb_false_iff in Hids as [Hid Hgen].
  apply negb_false_iff in He, Hact, Hsub, Hid, Hgen.
  destruct (cs_expected (cond_spec c)) as [| | | | |expected] eqn:Hexp; try done.
  intros Hm. apply andb_true_iff in Hm as [Hm _]. apply andb_true_iff in Hm as [Hlen Hall].
  exists data, va, expected. rewrite <- Hsrc. split_ands; try done.
  - unfold source in Hsrc. destruct (obj_get "source" event) as [[]|]; try discriminate Hsrc.
    by injection Hsrc as ->.
  - by apply String.eqb_eq.
  - by apply Z.eqb_eq.
  - by apply String.eqb_eq.
  - by apply bool_decide_eq_true_1 in Hact.
  - destruct (omap is_array _) as [|choices rest] eqn:Ho in Hlen; [done|].
    destruct (proj1 (elem_of_allowed expected choices)) as (key & Hkey & Hc); [rewrite Ho; by left|]. eauto.
  - intros key choices Hkey Hc. rewrite forallb_forall in Hall.
    assert (existsb (fun x => deep_eqb x (JStr (va_decision va))) choices = true) as Hex.
    { apply Hall, list_elem_of_In, elem_of_allowed. eauto. }
    apply existsb_exists in Hex as (choice & Hch & Hd). exists choice. by rewrite list_elem_of_In.
Qed.

(** ** Witnesses *)

Definition sample_condition : AppTaskCondition :=
  mkCondition "c1" 1 1 (mkConditionSpec "task.state" "task:t2" (JStr "done") None None None None)
    1 cs_unknown None None None (Some "2024-01-01T00:00:00.000Z") None.

Definition sample_resource : AppTaskResource :=
  mkResource (mkMetadata "t1" None 1 4 None)
    (mkSpec "root" "Ship it" [] None None None None None None None None None)
    (mkStatus 1 waiting None None None None None None None None None None false None None None None
       (Some ["c1"]) None "2024-01-01T00:00:00.000Z").

Definition sample_tree : TaskTree :=
  mkTree None (Some "app") None None None [("c1", sample_condition)] [("t1", sample_resource)] [] [] [] [] [] [].

Definition sample_event : obj json :=
  [("type", JStr "task.state"); ("eventId", JNum (num 7)); ("taskId", JStr "t2");
   ("state", JStr "Completed"); ("timestamp", JStr "2024-01-02T00:00:00.000Z")].

Lemma sample_tree_ok : tree_ok sample_tree.
Proof.
  split; [apply NoDup_singleton|]. split; [apply NoDup_singleton|]. intros k r Hk.
  apply obj_get_Some_elem, list_elem_of_singleton in Hk. by injection Hk as -> ->.
Qed.

Lemma condition_event_idempotent_witness :
  let a := applyConditionEvent None sample_tree "2024-01-02T00:00:01.000Z" sample_event None in
  obj_keys (ac_wakes a) = ["t1"] /\
  ac_wakes (applyConditionEvent None (ac_tree a) "2024-01-03T00:00:00.000Z" sample_event None) = [].
Proof.
  split; [vm_compute; reflexivity|].
  exact (proj1 (proj2 (condition_event_idempotent None sample_tree "2024-01-02T00:00:01.000Z"
    "2024-01-03T00:00:00.000Z" sample_event None sample_tree_ok))).
Defined.


Lemma stable_equality_is_deep_equality_witness :
  stableEquals (Some (JObj [("a", JNull); ("b", JBool true)])) (Some (JObj [("b", JBool true); ("a", JNull)])) =
  deep_eqb (JObj [("a", JNull); ("b", JBool true)]) (JObj [("b", JBool true); ("a", JNull)]).
Proof.
  apply stable_equality_is_deep_equality; (split; [|done]); apply (bool_decide_unpack _); vm_compute; exact I.
Defined.

Definition approval_expected : obj json := [("field", JStr "decision"); ("anyOf", JArr [JStr "approve"; JStr "reject"])].

Definition approval_condition : AppTaskCondition :=
  mkCondition "c9" 2 1 (mkConditionSpec "project.approval.submitted" "task:t1" (JObj approval_expected)
    (Some "Approve the release") (Some "human") None None) 2 cs_unknown None None None None None.

Definition approval_event : obj json :=
  [("type", JStr "project.approval.submitted"); ("source", JStr "telegram");
   ("data", JObj [("decision", JStr "approve");
      ("hostApproval", JObj [("version", JNum (num 1)); ("ingressSource", JStr "telegram");
         ("actor", JObj [("kind", JStr "human"); ("id", JStr "hao")]);
         ("authorization", JObj [("reference", JStr "chat"); ("evidence", JObj [])])]);
      ("proposal", JObj [("taskGeneration", JNum (num 3)); ("conditionId", JStr "c9");
         ("conditionGeneration", JNum (num 2)); ("subject", JStr "task:t1");
         ("requestedAction", JStr "Approve the release"); ("expected", JObj approval_expected)])])].

Lemma human_approval_exact_witness :
  matches approval_condition approval_event = true /\
  exists va, obj_get "source" approval_event = Some (JStr (ingressText (hs_ingressSource (va_hostApproval va)))).
Proof.
  assert (matches approval_condition approval_event = true) as Hm by (vm_compute; reflexivity).
  split; [exact Hm|].
  destruct (human_approval_exact approval_condition approval_event eq_refl eq_refl Hm)
    as (data & va & expected & _ & Hs & _).
  exists va. exact Hs.
Defined.

(** ** A bounded tree in the snapshot cache *)

Definition two_tasks : ResourceStore.store :=
  (ResourceStore.bootstrapSnapshot 0 "2024-01-01T00:00:00.000Z" "r1"
     (mkTree (Some 1) (Some "app") None None None [("c1", sample_condition)]
        [("t1", sample_resource); ("other", Context.sample_task "other" "" None)] [] [] [] [] [] [])
     [] (ResourceStore.emptyStore "app" ∅ ∅)).2.

(** Tracking an event outside a transaction, on a context with a snapshot
    cache, leaves the bounded tree of the tracked Tasks in the cache: the next
    unscoped [readTaskSnapshot] misses the App's other Tasks. *)
Lemma tracking_narrows_cached_snapshot :
  let '(r, cache, s) := trackAppTaskConditionEventForTasks None "2024-01-02T00:00:01.000Z" 0 sample_event ["t1"] false
    Snapshot.cacheTaskSnapshots two_tasks in
  is_ok r = true /\ ResourceStore.readTask s "other" <> None /\
  match (Snapshot.readTaskSnapshot cache s).1 with
  | Ok tree => obj_get "other" (resources tree) = None
  | Throw _ => False
  end.
Proof. vm_compute. split_ands; [reflexivity | discriminate | reflexivity]. Qed.

End Conditions.
