(* ===== verification/Records.v ===== *)
(** Updating one field of the Host's records, as assignments such as
    [attempt.state = ...] and object spreads do. *)
From S2P Require Import Prelude Json TaskState TaskTree.

(** [x |> f |> g] reads like a sequence of assignments. *)
Declare Scope may_scope.
Notation "x |> f" := (f x) (at level 50, left associativity, only parsing) : may_scope.
#[global] Open Scope may_scope.


(** ** Task metadata and status *)

Definition with_md_creator (v : option ResourceCreator) (r : TaskMetadata) : TaskMetadata :=
  mkMetadata (md_id r) v (md_generation r) (md_resourceVersion r) (md_reopenedAfterEventId r).
Definition with_md_generation (v : Z) (r : TaskMetadata) : TaskMetadata :=
  mkMetadata (md_id r) (md_creator r) v (md_resourceVersion r) (md_reopenedAfterEventId r).
Definition with_md_resourceVersion (v : Z) (r : TaskMetadata) : TaskMetadata :=
  mkMetadata (md_id r) (md_creator r) (md_generation r) v (md_reopenedAfterEventId r).
Definition with_md_reopenedAfterEventId (v : option Z) (r : TaskMetadata) : TaskMetadata :=
  mkMetadata (md_id r) (md_creator r) (md_generation r) (md_resourceVersion r) v.
Definition with_st_observedGeneration (v : Z) (r : TaskStatus) : TaskStatus :=
  mkStatus v (st_phase r) (st_lane r) (st_currentAttemptId r) (st_observedAttemptId r)
    (st_workspaceAttemptId r) (st_executionFailures r) (st_executionFailureAttemptId r)
    (st_admissionFailures r) (st_retryExhausted r) (st_executionRetryAt r) (st_reviewAt r)
    (st_freshHumanInput r) (st_summary r) (st_response r) (st_result r) (st_facts r) (st_conditionIds r)
    (st_inputWaits r) (st_updatedAt r).
Definition with_st_phase (v : Phase) (r : TaskStatus) : TaskStatus :=
  mkStatus (st_observedGeneration r) v (st_lane r) (st_currentAttemptId r) (st_observedAttemptId r)
    (st_workspaceAttemptId r) (st_executionFailures r) (st_executionFailureAttemptId r)
    (st_admissionFailures r) (st_retryExhausted r) (st_executionRetryAt r) (st_reviewAt r)
    (st_freshHumanInput r) (st_summary r) (st_response r) (st_result r) (st_facts r) (st_conditionIds r)
    (st_inputWaits r) (st_updatedAt r).
Definition with_st_lane (v : option Lane) (r : TaskStatus) : TaskStatus :=
  mkStatus (st_observedGeneration r) (st_phase r) v (st_currentAttemptId r) (st_observedAttemptId r)
    (st_workspaceAttemptId r) (st_executionFailures r) (st_executionFailureAttemptId r)
    (st_admissionFailures r) (st_retryExhausted r) (st_executionRetryAt r) (st_reviewAt r)
    (st_freshHumanInput r) (st_summary r) (st_response r) (st_result r) (st_facts r) (st_conditionIds r)
    (st_inputWaits r) (st_updatedAt r).
Definition with_st_currentAttemptId (v : option string) (r : TaskStatus) : TaskStatus :=
  mkStatus (st_observedGeneration r) (st_phase r) (st_lane r) v (st_observedAttemptId r)
    (st_workspaceAttemptId r) (st_executionFailures r) (st_executionFailureAttemptId r)
    (st_admissionFailures r) (st_retryExhausted r) (st_executionRetryAt r) (st_reviewAt r)
    (st_freshHumanInput r) (st_summary r) (st_response r) (st_result r) (st_facts r) (st_conditionIds r)
    (st_inputWaits r) (st_updatedAt r).
Definition with_st_observedAttemptId (v : option string) (r : TaskStatus) : TaskStatus :=
  mkStatus (st_observedGeneration r) (st_phase r) (st_lane r) (st_currentAttemptId r) v
    (st_workspaceAttemptId r) (st_executionFailures r) (st_executionFailureAttemptId r)
    (st_admissionFailures r) (st_retryExhausted r) (st_executionRetryAt r) (st_reviewAt r)
    (st_freshHumanInput r) (st_summary r) (st_response r) (st_result r) (st_facts r) (st_conditionIds r)
    (st_inputWaits r) (st_updatedAt r).
Definition with_st_workspaceAttemptId (v : option string) (r : TaskStatus) : TaskStatus :=
  mkStatus (st_observedGeneration r) (st_phase r) (st_lane r) (st_currentAttemptId r)
    (st_observedAttemptId r) v (st_executionFailures r) (st_executionFailureAttemptId r)
    (st_admissionFailures r) (st_retryExhausted r) (st_executionRetryAt r) (st_reviewAt r)
    (st_freshHumanInput r) (st_summary r) (st_response r) (st_result r) (st_facts r) (st_conditionIds r)
    (st_inputWaits r) (st_updatedAt r).
Definition with_st_executionFailures (v : option Z) (r : TaskStatus) : TaskStatus :=
  mkStatus (st_observedGeneration r) (st_phase r) (st_lane r) (st_currentAttemptId r)
    (st_observedAttemptId r) (st_workspaceAttemptId r) v (st_executionFailureAttemptId r)
    (st_admissionFailures r) (st_retryExhausted r) (st_executionRetryAt r) (st_reviewAt r)
    (st_freshHumanInput r) (st_summary r) (st_response r) (st_result r) (st_facts r) (st_conditionIds r)
    (st_inputWaits r) (st_updatedAt r).
Definition with_st_executionFailureAttemptId (v : option (option string)) (r : TaskStatus) : TaskStatus :=
  mkStatus (st_observedGeneration r) (st_phase r) (st_lane r) (st_currentAttemptId r)
    (st_observedAttemptId r) (st_workspaceAttemptId r) (st_executionFailures r) v (st_admissionFailures r)
    (st_retryExhausted r) (st_executionRetryAt r) (st_reviewAt r) (st_freshHumanInput r) (st_summary r)
    (st_response r) (st_result r) (st_facts r) (st_conditionIds r) (st_inputWaits r) (st_updatedAt r).
Definition with_st_admissionFailures (v : option Z) (r : TaskStatus) : TaskStatus :=
  mkStatus (st_observedGeneration r) (st_phase r) (st_lane r) (st_currentAttemptId r)
    (st_observedAttemptId r) (st_workspaceAttemptId r) (st_executionFailures r)
    (st_executionFailureAttemptId r) v (st_retryExhausted r) (st_executionRetryAt r) (st_reviewAt r)
    (st_freshHumanInput r) (st_summary r) (st_response r) (st_result r) (st_facts r) (st_conditionIds r)
    (st_inputWaits r) (st_updatedAt r).
Definition with_st_retryExhausted (v : option AppTaskRetryExhaustion) (r : TaskStatus) : TaskStatus :=
  mkStatus (st_observedGeneration r) (st_phase r) (st_lane r) (st_currentAttemptId r)
    (st_observedAttemptId r) (st_workspaceAttemptId r) (st_executionFailures r)
    (st_executionFailureAttemptId r) (st_admissionFailures r) v (st_executionRetryAt r) (st_reviewAt r)
    (st_freshHumanInput r) (st_summary r) (st_response r) (st_result r) (st_facts r) (st_conditionIds r)
    (st_inputWaits r) (st_updatedAt r).
Definition with_st_executionRetryAt (v : option number) (r : TaskStatus) : TaskStatus :=
  mkStatus (st_observedGeneration r) (st_phase r) (st_lane r) (st_currentAttemptId r)
    (st_observedAttemptId r) (st_workspaceAttemptId r) (st_executionFailures r)
    (st_executionFailureAttemptId r) (st_admissionFailures r) (st_retryExhausted r) v (st_reviewAt r)
    (st_freshHumanInput r) (st_summary r) (st_response r) (st_result r) (st_facts r) (st_conditionIds r)
    (st_inputWaits r) (st_updatedAt r).
Definition with_st_reviewAt (v : option Z) (r : TaskStatus) : TaskStatus :=
  mkStatus (st_observedGeneration r) (st_phase r) (st_lane r) (st_currentAttemptId r)
    (st_observedAttemptId r) (st_workspaceAttemptId r) (st_executionFailures r)
    (st_executionFailureAttemptId r) (st_admissionFailures r) (st_retryExhausted r) (st_executionRetryAt r)
    v (st_freshHumanInput r) (st_summary r) (st_response r) (st_result r) (st_facts r) (st_conditionIds r)
    (st_inputWaits r) (st_updatedAt r).
Definition with_st_freshHumanInput (v : bool) (r : TaskStatus) : TaskStatus :=
  mkStatus (st_observedGeneration r) (st_phase r) (st_lane r) (st_currentAttemptId r)
    (st_observedAttemptId r) (st_workspaceAttemptId r) (st_executionFailures r)
    (st_executionFailureAttemptId r) (st_admissionFailures r) (st_retryExhausted r) (st_executionRetryAt r)
    (st_reviewAt r) v (st_summary r) (st_response r) (st_result r) (st_facts r) (st_conditionIds r)
    (st_inputWaits r) (st_updatedAt r).
Definition with_st_summary (v : option string) (r : TaskStatus) : TaskStatus :=
  mkStatus (st_observedGeneration r) (st_phase r) (st_lane r) (st_currentAttemptId r)
    (st_observedAttemptId r) (st_workspaceAttemptId r) (st_executionFailures r)
    (st_executionFailureAttemptId r) (st_admissionFailures r) (st_retryExhausted r) (st_executionRetryAt r)
    (st_reviewAt r) (st_freshHumanInput r) v (st_response r) (st_result r) (st_facts r) (st_conditionIds r)
    (st_inputWaits r) (st_updatedAt r).
Definition with_st_response (v : option string) (r : TaskStatus) : TaskStatus :=
  mkStatus (st_observedGeneration r) (st_phase r) (st_lane r) (st_currentAttemptId r)
    (st_observedAttemptId r) (st_workspaceAttemptId r) (st_executionFailures r)
    (st_executionFailureAttemptId r) (st_admissionFailures r) (st_retryExhausted r) (st_executionRetryAt r)
    (st_reviewAt r) (st_freshHumanInput r) (st_summary r) v (st_result r) (st_facts r) (st_conditionIds r)
    (st_inputWaits r) (st_updatedAt r).
Definition with_st_result (v : option (obj json)) (r : TaskStatus) : TaskStatus :=
  mkStatus (st_observedGeneration r) (st_phase r) (st_lane r) (st_currentAttemptId r)
    (st_observedAttemptId r) (st_workspaceAttemptId r) (st_executionFailures r)
    (st_executionFailureAttemptId r) (st_admissionFailures r) (st_retryExhausted r) (st_executionRetryAt r)
    (st_reviewAt r) (st_freshHumanInput r) (st_summary r) (st_response r) v (st_facts r)
    (st_conditionIds r) (st_inputWaits r) (st_updatedAt r).
Definition with_st_facts (v : option (list string)) (r : TaskStatus) : TaskStatus :=
  mkStatus (st_observedGeneration r) (st_phase r) (st_lane r) (st_currentAttemptId r)
    (st_observedAttemptId r) (st_workspaceAttemptId r) (st_executionFailures r)
    (st_executionFailureAttemptId r) (st_admissionFailures r) (st_retryExhausted r) (st_executionRetryAt r)
    (st_reviewAt r) (st_freshHumanInput r) (st_summary r) (st_response r) (st_result r) v
    (st_conditionIds r) (st_inputWaits r) (st_updatedAt r).
Definition with_st_conditionIds (v : option (list string)) (r : TaskStatus) : TaskStatus :=
  mkStatus (st_observedGeneration r) (st_phase r) (st_lane r) (st_currentAttemptId r)
    (st_observedAttemptId r) (st_workspaceAttemptId r) (st_executionFailures r)
    (st_executionFailureAttemptId r) (st_admissionFailures r) (st_retryExhausted r) (st_executionRetryAt r)
    (st_reviewAt r) (st_freshHumanInput r) (st_summary r) (st_response r) (st_result r) (st_facts r) v
    (st_inputWaits r) (st_updatedAt r).
Definition with_st_inputWaits (v : option (obj AppTaskInputWait)) (r : TaskStatus) : TaskStatus :=
  mkStatus (st_observedGeneration r) (st_phase r) (st_lane r) (st_currentAttemptId r)
    (st_observedAttemptId r) (st_workspaceAttemptId r) (st_executionFailures r)
    (st_executionFailureAttemptId r) (st_admissionFailures r) (st_retryExhausted r) (st_executionRetryAt r)
    (st_reviewAt r) (st_freshHumanInput r) (st_summary r) (st_response r) (st_result r) (st_facts r)
    (st_conditionIds r) v (st_updatedAt r).
Definition with_st_updatedAt (v : string) (r : TaskStatus) : TaskStatus :=
  mkStatus (st_observedGeneration r) (st_phase r) (st_lane r) (st_currentAttemptId r)
    (st_observedAttemptId r) (st_workspaceAttemptId r) (st_executionFailures r)
    (st_executionFailureAttemptId r) (st_admissionFailures r) (st_retryExhausted r) (st_executionRetryAt r)
    (st_reviewAt r) (st_freshHumanInput r) (st_summary r) (st_response r) (st_result r) (st_facts r)
    (st_conditionIds r) (st_inputWaits r) v.
Definition with_metadata (v : TaskMetadata) (r : AppTaskResource) : AppTaskResource :=
  mkResource v (spec r) (status r).
Definition with_spec (v : TaskSpec) (r : AppTaskResource) : AppTaskResource :=
  mkResource (metadata r) v (status r).
Definition with_status (v : TaskStatus) (r : AppTaskResource) : AppTaskResource :=
  mkResource (metadata r) (spec r) v.

(** ** Attempts *)

Definition with_att_resourceVersion (v : Z) (r : AppTaskAttempt) : AppTaskAttempt :=
  mkAttempt (att_id r) v (att_taskId r) (att_taskGeneration r) (att_specHash r) (att_owner r)
    (att_handler r) (att_failoverFromAttemptId r) (att_runtimeId r) (att_state r) (att_reason r)
    (att_changeReceipts r) (att_events r) (att_eventsTruncated r) (att_continuedInputKeys r)
    (att_acceptedResult r) (att_trigger r) (att_startedAt r) (att_finishedAt r) (att_summary r)
    (att_failureReason r) (att_retryExhausted r) (att_unacceptedResult r) (att_sessionId r) (att_lease r)
    (att_workspace r) (att_retiredCancellation r).
Definition with_att_state (v : AttemptState) (r : AppTaskAttempt) : AppTaskAttempt :=
  mkAttempt (att_id r) (att_resourceVersion r) (att_taskId r) (att_taskGeneration r) (att_specHash r)
    (att_owner r) (att_handler r) (att_failoverFromAttemptId r) (att_runtimeId r) v (att_reason r)
    (att_changeReceipts r) (att_events r) (att_eventsTruncated r) (att_continuedInputKeys r)
    (att_acceptedResult r) (att_trigger r) (att_startedAt r) (att_finishedAt r) (att_summary r)
    (att_failureReason r) (att_retryExhausted r) (att_unacceptedResult r) (att_sessionId r) (att_lease r)
    (att_workspace r) (att_retiredCancellation r).
Definition with_att_reason (v : string) (r : AppTaskAttempt) : AppTaskAttempt :=
  mkAttempt (att_id r) (att_resourceVersion r) (att_taskId r) (att_taskGeneration r) (att_specHash r)
    (att_owner r) (att_handler r) (att_failoverFromAttemptId r) (att_runtimeId r) (att_state r) v
    (att_changeReceipts r) (att_events r) (att_eventsTruncated r) (att_continuedInputKeys r)
    (att_acceptedResult r) (att_trigger r) (att_startedAt r) (att_finishedAt r) (att_summary r)
    (att_failureReason r) (att_retryExhausted r) (att_unacceptedResult r) (att_sessionId r) (att_lease r)
    (att_workspace r) (att_retiredCancellation r).
Definition with_att_changeReceipts (v : option (obj TaskChangeReceipt)) (r : AppTaskAttempt) : AppTaskAttempt :=
  mkAttempt (att_id r) (att_resourceVersion r) (att_taskId r) (att_taskGeneration r) (att_specHash r)
    (att_owner r) (att_handler r) (att_failoverFromAttemptId r) (att_runtimeId r) (att_state r)
    (att_reason r) v (att_events r) (att_eventsTruncated r) (att_continuedInputKeys r)
    (att_acceptedResult r) (att_trigger r) (att_startedAt r) (att_finishedAt r) (att_summary r)
    (att_failureReason r) (att_retryExhausted r) (att_unacceptedResult r) (att_sessionId r) (att_lease r)
    (att_workspace r) (att_retiredCancellation r).
Definition with_att_acceptedResult (v : option AcceptedResult) (r : AppTaskAttempt) : AppTaskAttempt :=
  mkAttempt (att_id r) (att_resourceVersion r) (att_taskId r) (att_taskGeneration r) (att_specHash r)
    (att_owner r) (att_handler r) (att_failoverFromAttemptId r) (att_runtimeId r) (att_state r)
    (att_reason r) (att_changeReceipts r) (att_events r) (att_eventsTruncated r) (att_continuedInputKeys r)
    v (att_trigger r) (att_startedAt r) (att_finishedAt r) (att_summary r) (att_failureReason r)
    (att_retryExhausted r) (att_unacceptedResult r) (att_sessionId r) (att_lease r) (att_workspace r)
    (att_retiredCancellation r).
Definition with_att_finishedAt (v : option string) (r : AppTaskAttempt) : AppTaskAttempt :=
  mkAttempt (att_id r) (att_resourceVersion r) (att_taskId r) (att_taskGeneration r) (att_specHash r)
    (att_owner r) (att_handler r) (att_failoverFromAttemptId r) (att_runtimeId r) (att_state r)
    (att_reason r) (att_changeReceipts r) (att_events r) (att_eventsTruncated r) (att_continuedInputKeys r)
    (att_acceptedResult r) (att_trigger r) (att_startedAt r) v (att_summary r) (att_failureReason r)
    (att_retryExhausted r) (att_unacceptedResult r) (att_sessionId r) (att_lease r) (att_workspace r)
    (att_retiredCancellation r).
Definition with_att_summary (v : option string) (r : AppTaskAttempt) : AppTaskAttempt :=
  mkAttempt (att_id r) (att_resourceVersion r) (att_taskId r) (att_taskGeneration r) (att_specHash r)
    (att_owner r) (att_handler r) (att_failoverFromAttemptId r) (att_runtimeId r) (att_state r)
    (att_reason r) (att_changeReceipts r) (att_events r) (att_eventsTruncated r) (att_continuedInputKeys r)
    (att_acceptedResult r) (att_trigger r) (att_startedAt r) (att_finishedAt r) v (att_failureReason r)
    (att_retryExhausted r) (att_unacceptedResult r) (att_sessionId r) (att_lease r) (att_workspace r)
    (att_retiredCancellation r).
Definition with_att_failureReason (v : option string) (r : AppTaskAttempt) : AppTaskAttempt :=
  mkAttempt (att_id r) (att_resourceVersion r) (att_taskId r) (att_taskGeneration r) (att_specHash r)
    (att_owner r) (att_handler r) (att_failoverFromAttemptId r) (att_runtimeId r) (att_state r)
    (att_reason r) (att_changeReceipts r) (att_events r) (att_eventsTruncated r) (att_continuedInputKeys r)
    (att_acceptedResult r) (att_trigger r) (att_startedAt r) (att_finishedAt r) (att_summary r) v
    (att_retryExhausted r) (att_unacceptedResult r) (att_sessionId r) (att_lease r) (att_workspace r)
    (att_retiredCancellation r).
Definition with_att_retryExhausted (v : option AppTaskRetryExhaustion) (r : AppTaskAttempt) : AppTaskAttempt :=
  mkAttempt (att_id r) (att_resourceVersion r) (att_taskId r) (att_taskGeneration r) (att_specHash r)
    (att_owner r) (att_handler r) (att_failoverFromAttemptId r) (att_runtimeId r) (att_state r)
    (att_reason r) (att_changeReceipts r) (att_events r) (att_eventsTruncated r) (att_continuedInputKeys r)
    (att_acceptedResult r) (att_trigger r) (att_startedAt r) (att_finishedAt r) (att_summary r)
    (att_failureReason r) v (att_unacceptedResult r) (att_sessionId r) (att_lease r) (att_workspace r)
    (att_retiredCancellation r).
Definition with_att_unacceptedResult (v : option json) (r : AppTaskAttempt) : AppTaskAttempt :=
  mkAttempt (att_id r) (att_resourceVersion r) (att_taskId r) (att_taskGeneration r) (att_specHash r)
    (att_owner r) (att_handler r) (att_failoverFromAttemptId r) (att_runtimeId r) (att_state r)
    (att_reason r) (att_changeReceipts r) (att_events r) (att_eventsTruncated r) (att_continuedInputKeys r)
    (att_acceptedResult r) (att_trigger r) (att_startedAt r) (att_finishedAt r) (att_summary r)
    (att_failureReason r) (att_retryExhausted r) v (att_sessionId r) (att_lease r) (att_workspace r)
    (att_retiredCancellation r).
Definition with_att_sessionId (v : option string) (r : AppTaskAttempt) : AppTaskAttempt :=
  mkAttempt (att_id r) (att_resourceVersion r) (att_taskId r) (att_taskGeneration r) (att_specHash r)
    (att_owner r) (att_handler r) (att_failoverFromAttemptId r) (att_runtimeId r) (att_state r)
    (att_reason r) (att_changeReceipts r) (att_events r) (att_eventsTruncated r) (att_continuedInputKeys r)
    (att_acceptedResult r) (att_trigger r) (att_startedAt r) (att_finishedAt r) (att_summary r)
    (att_failureReason r) (att_retryExhausted r) (att_unacceptedResult r) v (att_lease r) (att_workspace r)
    (att_retiredCancellation r).
Definition with_att_lease (v : option AppTaskAttemptLease) (r : AppTaskAttempt) : AppTaskAttempt :=
  mkAttempt (att_id r) (att_resourceVersion r) (att_taskId r) (att_taskGeneration r) (att_specHash r)
    (att_owner r) (att_handler r) (att_failoverFromAttemptId r) (att_runtimeId r) (att_state r)
    (att_reason r) (att_changeReceipts r) (att_events r) (att_eventsTruncated r) (att_continuedInputKeys r)
    (att_acceptedResult r) (att_trigger r) (att_startedAt r) (att_finishedAt r) (att_summary r)
    (att_failureReason r) (att_retryExhausted r) (att_unacceptedResult r) (att_sessionId r) v
    (att_workspace r) (att_retiredCancellation r).
Definition with_att_workspace (v : option AppTaskWorkspace) (r : AppTaskAttempt) : AppTaskAttempt :=
  mkAttempt (att_id r) (att_resourceVersion r) (att_taskId r) (att_taskGeneration r) (att_specHash r)
    (att_owner r) (att_handler r) (att_failoverFromAttemptId r) (att_runtimeId r) (att_state r)
    (att_reason r) (att_changeReceipts r) (att_events r) (att_eventsTruncated r) (att_continuedInputKeys r)
    (att_acceptedResult r) (att_trigger r) (att_startedAt r) (att_finishedAt r) (att_summary r)
    (att_failureReason r) (att_retryExhausted r) (att_unacceptedResult r) (att_sessionId r) (att_lease r) v
    (att_retiredCancellation r).

(** ** Conditions, admissions and pending input *)

Definition with_cond_generation (v : Z) (r : AppTaskCondition) : AppTaskCondition :=
  mkCondition (cond_id r) v (cond_resourceVersion r) (cond_spec r) (cond_observedGeneration r)
    (cond_state r) (cond_createdAt r) (cond_observed r) (cond_reports r) (cond_observedAt r) (cond_facts r)
   .
Definition with_cond_resourceVersion (v : Z) (r : AppTaskCondition) : AppTaskCondition :=
  mkCondition (cond_id r) (cond_generation r) v (cond_spec r) (cond_observedGeneration r) (cond_state r)
    (cond_createdAt r) (cond_observed r) (cond_reports r) (cond_observedAt r) (cond_facts r).
Definition with_cond_spec (v : ConditionSpec) (r : AppTaskCondition) : AppTaskCondition :=
  mkCondition (cond_id r) (cond_generation r) (cond_resourceVersion r) v (cond_observedGeneration r)
    (cond_state r) (cond_createdAt r) (cond_observed r) (cond_reports r) (cond_observedAt r) (cond_facts r)
   .
Definition with_cond_observedGeneration (v : Z) (r : AppTaskCondition) : AppTaskCondition :=
  mkCondition (cond_id r) (cond_generation r) (cond_resourceVersion r) (cond_spec r) v (cond_state r)
    (cond_createdAt r) (cond_observed r) (cond_reports r) (cond_observedAt r) (cond_facts r).
Definition with_cs_progress (v : option ProgressInterest) (r : ConditionSpec) : ConditionSpec :=
  mkConditionSpec (cs_type r) (cs_subject r) (cs_expected r) (cs_requestedAction r) (cs_owner r)
    (cs_reviewAfterMs r) v.
Definition with_adm_resultAttemptId (v : option string) (r : AppTaskAdmission) : AppTaskAdmission :=
  mkAdmission (adm_taskId r) (adm_taskGeneration r) (adm_specHash r) (adm_admittedAt r) (adm_inputEvent r)
    v (adm_progress r) (adm_failure r) (adm_reportAttemptId r) (adm_reportRevision r).
Definition with_adm_progress (v : option Feedback) (r : AppTaskAdmission) : AppTaskAdmission :=
  mkAdmission (adm_taskId r) (adm_taskGeneration r) (adm_specHash r) (adm_admittedAt r) (adm_inputEvent r)
    (adm_resultAttemptId r) v (adm_failure r) (adm_reportAttemptId r) (adm_reportRevision r).
Definition with_adm_failure (v : option Feedback) (r : AppTaskAdmission) : AppTaskAdmission :=
  mkAdmission (adm_taskId r) (adm_taskGeneration r) (adm_specHash r) (adm_admittedAt r) (adm_inputEvent r)
    (adm_resultAttemptId r) (adm_progress r) v (adm_reportAttemptId r) (adm_reportRevision r).
Definition with_adm_reportAttemptId (v : option string) (r : AppTaskAdmission) : AppTaskAdmission :=
  mkAdmission (adm_taskId r) (adm_taskGeneration r) (adm_specHash r) (adm_admittedAt r) (adm_inputEvent r)
    (adm_resultAttemptId r) (adm_progress r) (adm_failure r) v (adm_reportRevision r).
Definition with_adm_reportRevision (v : option Z) (r : AppTaskAdmission) : AppTaskAdmission :=
  mkAdmission (adm_taskId r) (adm_taskGeneration r) (adm_specHash r) (adm_admittedAt r) (adm_inputEvent r)
    (adm_resultAttemptId r) (adm_progress r) (adm_failure r) (adm_reportAttemptId r) v.
Definition with_ar_continue (v : bool) (r : AcceptedResult) : AcceptedResult :=
  mkAccepted (ar_state r) (ar_reviewAt r) v (ar_report r) (ar_summary r) (ar_response r) (ar_result r)
    (ar_facts r) (ar_acceptanceBasis r) (ar_acceptedLiveEventIds r) (ar_inputKeys r).
Definition with_ar_report (v : bool) (r : AcceptedResult) : AcceptedResult :=
  mkAccepted (ar_state r) (ar_reviewAt r) (ar_continue r) v (ar_summary r) (ar_response r) (ar_result r)
    (ar_facts r) (ar_acceptanceBasis r) (ar_acceptedLiveEventIds r) (ar_inputKeys r).
Definition with_ar_summary (v : string) (r : AcceptedResult) : AcceptedResult :=
  mkAccepted (ar_state r) (ar_reviewAt r) (ar_continue r) (ar_report r) v (ar_response r) (ar_result r)
    (ar_facts r) (ar_acceptanceBasis r) (ar_acceptedLiveEventIds r) (ar_inputKeys r).
Definition with_tr_taskGeneration (v : Z) (r : AppTaskTrigger) : AppTaskTrigger :=
  mkTrigger (tr_taskId r) v (tr_resourceVersion r) (tr_events r) (tr_event r) (tr_observedAt r).
Definition with_iw_taskGeneration (v : Z) (r : AppTaskInputWait) : AppTaskInputWait :=
  mkInputWait v (iw_pending r) (iw_conditions r) (iw_reviewAt r).
Definition with_iw_pending (v : bool) (r : AppTaskInputWait) : AppTaskInputWait :=
  mkInputWait (iw_taskGeneration r) v (iw_conditions r) (iw_reviewAt r).
Definition with_iw_conditions (v : list WaitRef) (r : AppTaskInputWait) : AppTaskInputWait :=
  mkInputWait (iw_taskGeneration r) (iw_pending r) v (iw_reviewAt r).
Definition with_iw_reviewAt (v : option Z) (r : AppTaskInputWait) : AppTaskInputWait :=
  mkInputWait (iw_taskGeneration r) (iw_pending r) (iw_conditions r) v.
Definition with_ws_released (v : bool) (r : AppTaskWorkspace) : AppTaskWorkspace :=
  mkWorkspace (ws_path r) (ws_baseRef r) (ws_baseCommit r) (ws_branch r) (ws_headCommit r) v
    (ws_disposition r) (ws_dirtyObservation r) (ws_cleanupError r).

(** ** The Task tree *)

Definition with_conditions (v : obj AppTaskCondition) (r : TaskTree.TaskTree) : TaskTree.TaskTree :=
  TaskTree.mkTree (TaskTree.version r) (TaskTree.project r) (TaskTree.updated_at r)
    (TaskTree.project_lifecycle r) (TaskTree.root_task_id r) v (TaskTree.resources r) (TaskTree.attempts r)
    (TaskTree.taskTriggers r) (TaskTree.appTaskAdmissions r) (TaskTree.receipts r)
    (TaskTree.cancellations r) (TaskTree.groups r).
Definition with_resources (v : obj AppTaskResource) (r : TaskTree.TaskTree) : TaskTree.TaskTree :=
  TaskTree.mkTree (TaskTree.version r) (TaskTree.project r) (TaskTree.updated_at r)
    (TaskTree.project_lifecycle r) (TaskTree.root_task_id r) (TaskTree.conditions r) v
    (TaskTree.attempts r) (TaskTree.taskTriggers r) (TaskTree.appTaskAdmissions r) (TaskTree.receipts r)
    (TaskTree.cancellations r) (TaskTree.groups r).
Definition with_attempts (v : obj AppTaskAttempt) (r : TaskTree.TaskTree) : TaskTree.TaskTree :=
  TaskTree.mkTree (TaskTree.version r) (TaskTree.project r) (TaskTree.updated_at r)
    (TaskTree.project_lifecycle r) (TaskTree.root_task_id r) (TaskTree.conditions r) (TaskTree.resources r)
    v (TaskTree.taskTriggers r) (TaskTree.appTaskAdmissions r) (TaskTree.receipts r)
    (TaskTree.cancellations r) (TaskTree.groups r).
Definition with_taskTriggers (v : obj AppTaskTrigger) (r : TaskTree.TaskTree) : TaskTree.TaskTree :=
  TaskTree.mkTree (TaskTree.version r) (TaskTree.project r) (TaskTree.updated_at r)
    (TaskTree.project_lifecycle r) (TaskTree.root_task_id r) (TaskTree.conditions r) (TaskTree.resources r)
    (TaskTree.attempts r) v (TaskTree.appTaskAdmissions r) (TaskTree.receipts r) (TaskTree.cancellations r)
    (TaskTree.groups r).
Definition with_appTaskAdmissions (v : obj AppTaskAdmission) (r : TaskTree.TaskTree) : TaskTree.TaskTree :=
  TaskTree.mkTree (TaskTree.version r) (TaskTree.project r) (TaskTree.updated_at r)
    (TaskTree.project_lifecycle r) (TaskTree.root_task_id r) (TaskTree.conditions r) (TaskTree.resources r)
    (TaskTree.attempts r) (TaskTree.taskTriggers r) v (TaskTree.receipts r) (TaskTree.cancellations r)
    (TaskTree.groups r).
Definition with_cancellations (v : obj AppTaskCancellation) (r : TaskTree.TaskTree) : TaskTree.TaskTree :=
  TaskTree.mkTree (TaskTree.version r) (TaskTree.project r) (TaskTree.updated_at r)
    (TaskTree.project_lifecycle r) (TaskTree.root_task_id r) (TaskTree.conditions r) (TaskTree.resources r)
    (TaskTree.attempts r) (TaskTree.taskTriggers r) (TaskTree.appTaskAdmissions r) (TaskTree.receipts r) v
    (TaskTree.groups r).
