(* ===== verification/Time.v ===== *)
(** [Date.prototype.toISOString], the text every stored timestamp is written
    with, and its round trip through [Date.parse]. *)
From S2P Require Import Prelude Json TaskState.

Module Time.

(** ** Writing a timestamp *)

Fixpoint pad_digits (width : nat) (z : Z) : list ascii :=
  match width with
  | O => []
  | S w => pad_digits w (z / 10) ++ [ascii_of_nat (Z.to_nat (48 + z mod 10))]
  end.

(** The civil date of a day number, by 400-year eras. *)
Definition civil_of_doe (doe : Z) : Z * Z * Z :=
  let yoe := (doe - doe / 1460 + doe / 36524 - doe / 146096) / 365 in
  let doy := doe - (365 * yoe + yoe / 4 - yoe / 100) in
  let mp := (5 * doy + 2) / 153 in
  let d := doy - (153 * mp + 2) / 5 + 1 in
  let m := if mp <? 10 then mp + 3 else mp - 9 in
  (if m <=? 2 then yoe + 1 else yoe, m, d).

Definition civil_from_days (days : Z) : Z * Z * Z :=
  let z := days + 719468 in
  let '(y, m, d) := civil_of_doe (z mod 146097) in
  (y + z / 146097 * 400, m, d).

(** Years outside 0..9999 have a sign and six digits. *)
Definition year_text (y : Z) : list ascii :=
  if (0 <=? y) && (y <=? 9999) then pad_digits 4 y
  else (if y <? 0 then "-"%char else "+"%char) :: pad_digits 6 (Z.abs y).

Definition toISOString (ms : Z) : string :=
  let '(y, mo, d) := civil_from_days (ms / 86400000) in
  let t := ms mod 86400000 in
  unchars (year_text y ++ "-"%char :: pad_digits 2 mo ++ "-"%char :: pad_digits 2 d ++ "T"%char ::
    pad_digits 2 (t / 3600000) ++ ":"%char :: pad_digits 2 (t / 60000 mod 60) ++ ":"%char ::
    pad_digits 2 (t / 1000 mod 60) ++ "."%char :: pad_digits 3 (t mod 1000) ++ ["Z"%char]).

Example iso_text : toISOString 1709210096789 = "2024-02-29T12:34:56.789Z".
Proof. vm_compute. reflexivity. Qed.

(** The years 0 to 9999. *)
Definition in_range (ms : Z) : Prop := -62167219200000 <= ms <= 253402300799999.

(** ** Lemmas *)

Lemma length_pad w z : length (pad_digits w z) = w.
Proof. revert z. induction w as [|w IH]; intros z; simpl; [done|]. rewrite length_app, IH. simpl. lia. Qed.

Lemma digit_char z : 0 <= z < 10 -> digit (ascii_of_nat (Z.to_nat (48 + z))) = Some z.
Proof.
  intros H. assert (z = 0 \/ z = 1 \/ z = 2 \/ z = 3 \/ z = 4 \/ z = 5 \/ z = 6 \/ z = 7 \/ z = 8 \/ z = 9)
    as Hz by lia.
  destruct Hz as [->|[->|[->|[->|[->|[->|[->|[->|[->| ->]]]]]]]]]; done.
Qed.

Lemma digits_app l1 l2 acc :
  digits (l1 ++ l2) acc = match digits l1 acc with Some a => digits l2 a | None => None end.
Proof.
  revert acc. induction l1 as [|c l1 IH]; intros acc; simpl; [done|].
  destruct (digit c); [apply IH | done].
Qed.

(** Reading the padded digits of a number gives it back. *)
Lemma digits_pad w z acc :
  0 <= z < 10 ^ Z.of_nat w -> digits (pad_digits w z) acc = Some (acc * 10 ^ Z.of_nat w + z).
Proof.
  revert z acc. induction w as [|w IH]; intros z acc Hz.
  - simpl in Hz |- *. f_equal. lia.
  - rewrite Nat2Z.inj_succ, Z.pow_succ_r in Hz |- * by lia. cbn [pad_digits]. rewrite digits_app, IH.
    + cbn [digits]. rewrite digit_char by (apply Z.mod_pos_bound; lia). f_equal.
      pose proof (Z.div_mod z 10). lia.
    + split; [apply Z.div_pos; lia | apply Z.div_lt_upper_bound; lia].
Qed.

(** *** The calendar of one era *)

Definition yoe_of (doe : Z) : Z := (doe - doe / 1460 + doe / 36524 - doe / 146096) / 365.
Definition year_start (y : Z) : Z := 365 * y + y / 4 - y / 100.

Lemma yoe_bounds doe : 0 <= doe < 146097 -> 0 <= yoe_of doe <= 399 /\ year_start (yoe_of doe) <= doe.
Proof. intros H. unfold yoe_of, year_start. Z.to_euclidean_division_equations. lia. Qed.

Lemma yoe_upper doe : 0 <= doe < 146096 -> doe < year_start (yoe_of doe + 1).
Proof. intros H. unfold yoe_of, year_start. Z.to_euclidean_division_equations. lia. Qed.

(** A year has 365 days, and one more before a leap year's March. *)
Lemma doy_bounds doe :
  0 <= doe < 146097 ->
  let doy := doe - year_start (yoe_of doe) in
  0 <= doy <= 365 /\ (doy = 365 -> days_in_month (yoe_of doe + 1) 2 = 29).
Proof.
  intros H doy. pose proof (yoe_bounds doe H) as [Hy Hs]. unfold doy.
  destruct (decide (doe = 146096)) as [->|Hne]; [vm_compute; by split|].
  pose proof (yoe_upper doe ltac:(lia)) as Hu. unfold year_start, days_in_month in *. simpl.
  destruct (_ && _ || _) eqn:E.
  - split; [|done]. Z.to_euclidean_division_equations. lia.
  - assert (((yoe_of doe + 1) mod 4 <> 0 \/ (yoe_of doe + 1) mod 100 = 0) /\ (yoe_of doe + 1) mod 400 <> 0) as Hl.
    { apply orb_false_iff in E as [E1 E2]. apply andb_false_iff in E1. reflect_bools.
      split; [|done]. destruct E1 as [E1|E1]; [left|right]; by reflect_bools. }
    Z.to_euclidean_division_equations. lia.
Qed.

(** The date of a day of the era. *)
Lemma civil_of_doe_spec doe y m d :
  0 <= doe < 146097 -> civil_of_doe doe = (y, m, d) ->
  1 <= m <= 12 /\ 1 <= d <= days_in_month y m /\ 0 <= y <= 400 /\ (y = 400 <-> 146037 <= doe) /\
  days_from_civil y m d = doe - 719468.
Proof.
  intros H. pose proof (yoe_bounds doe H) as [Hy Hs]. pose proof (doy_bounds doe H) as [Hd Hl].
  assert (doe = 146096 \/ doe < year_start (yoe_of doe + 1)) as Hu.
  { destruct (decide (doe = 146096)); [by left|right]. apply yoe_upper. lia. }
  unfold civil_of_doe. cbv zeta. fold (yoe_of doe). change (365 * yoe_of doe + yoe_of doe / 4 - yoe_of doe / 100)
    with (year_start (yoe_of doe)).
  set (yoe := yoe_of doe) in *. set (doy := doe - year_start yoe) in *. set (mp := (5 * doy + 2) / 153).
  assert (153 * mp <= 5 * doy + 2 < 153 * mp + 153) as Hmp by (unfold mp; Z.to_euclidean_division_equations; lia).
  clearbody mp. assert (0 <= mp <= 11) as Hr by lia.
  assert (doe = yoe * 365 + yoe / 4 - yoe / 100 + doy) as Hdoe by (unfold doy, year_start; lia).
  assert (yoe = 399 <-> 145731 <= doe) as H399.
  { unfold year_start in *. Z.to_euclidean_division_equations. lia. }
  assert (yoe / 400 = 0 /\ (yoe + 1 - 1) / 400 = 0) as [He0 He1] by (Z.to_euclidean_division_equations; lia).
  assert (mp = 0 \/ mp = 1 \/ mp = 2 \/ mp = 3 \/ mp = 4 \/ mp = 5 \/ mp = 6 \/ mp = 7 \/ mp = 8 \/ mp = 9 \/
          mp = 10 \/ mp = 11) as Hc by lia.
  clearbody doy. clear Hs Hu H.
  destruct Hc as [->|[->|[->|[->|[->|[->|[->|[->|[->|[->|[->| ->]]]]]]]]]]]; simpl; intros [= <- <- <-];
    unfold days_from_civil; simpl Z.leb; simpl Z.gtb; cbv iota; rewrite ?He0, ?He1;
    (split; [lia|]); (split; [|split; [lia|split; [Z.to_euclidean_division_equations; lia|]]]);
    try (Z.to_euclidean_division_equations; lia);
    try (unfold days_in_month; simpl; Z.to_euclidean_division_equations; lia).
  change (11 - 9) with 2. split; [Z.to_euclidean_division_equations; lia|].
  destruct (decide (doy = 365)) as [->|]; [by rewrite Hl by done|].
  unfold days_in_month. simpl. case_cond; Z.to_euclidean_division_equations; lia.
Qed.

Lemma days_shift y m d k : days_from_civil (y + k * 400) m d = days_from_civil y m d + k * 146097.
Proof.
  unfold days_from_civil. set (c := if m <=? 2 then 1 else 0).
  replace (if m <=? 2 then y + k * 400 - 1 else y + k * 400) with ((y - c) + k * 400)
    by (unfold c; destruct (m <=? 2); lia).
  replace (if m <=? 2 then y - 1 else y) with (y - c) by (unfold c; destruct (m <=? 2); lia).
  rewrite Z.div_add by lia. set (e := (y - c) / 400).
  replace (y - c + k * 400 - (e + k) * 400) with (y - c - e * 400) by lia. lia.
Qed.

Lemma days_in_month_shift y m k : days_in_month (y + k * 400) m = days_in_month y m.
Proof.
  unfold days_in_month.
  replace ((y + k * 400) mod 4) with (y mod 4) by (replace (k * 400) with ((k * 100) * 4) by lia; by rewrite Z.mod_add).
  replace ((y + k * 400) mod 100) with (y mod 100) by (replace (k * 400) with ((k * 4) * 100) by lia; by rewrite Z.mod_add).
  by rewrite Z.mod_add.
Qed.

(** The civil date of a day is a date of the calendar, and is that day. *)
Lemma civil_from_days_spec days y m d :
  civil_from_days days = (y, m, d) ->
  days_from_civil y m d = days /\ 1 <= m <= 12 /\ 1 <= d <= days_in_month y m /\
  (-719528 <= days <= 2932896 -> 0 <= y <= 9999).
Proof.
  unfold civil_from_days. set (z := days + 719468).
  pose proof (Z.mod_pos_bound z 146097 ltac:(lia)) as Hb.
  destruct (civil_of_doe (z mod 146097)) as [[y0 m0] d0] eqn:E.
  apply civil_of_doe_spec in E as (Hm & Hd & Hy & H400 & Hs); [|done].
  intros [= <- <- <-]. rewrite days_shift, days_in_month_shift.
  pose proof (Z.div_mod z 146097 ltac:(lia)). unfold z in *. split_ands; lia.
Qed.

(** *** Reading the text back *)

Definition iso_chars (y mo d h mi se ms : Z) : list ascii :=
  pad_digits 4 y ++ "-"%char :: pad_digits 2 mo ++ "-"%char :: pad_digits 2 d ++ "T"%char ::
    pad_digits 2 h ++ ":"%char :: pad_digits 2 mi ++ ":"%char ::
    pad_digits 2 se ++ "."%char :: pad_digits 3 ms ++ ["Z"%char].

Lemma digits_pad0 w z : 0 <= z < 10 ^ Z.of_nat w -> digits (pad_digits w z) 0 = Some z.
Proof. intros Hz. by rewrite digits_pad by done. Qed.

Lemma Date_parse_iso y mo d h mi se ms :
  0 <= y <= 9999 -> 1 <= mo <= 12 -> 1 <= d <= days_in_month y mo -> 0 <= h <= 23 -> 0 <= mi <= 59 ->
  0 <= se <= 59 -> 0 <= ms <= 999 ->
  Date_parse (unchars (iso_chars y mo d h mi se ms)) =
  num (((days_from_civil y mo d * 24 + h) * 60 + mi) * 60000 + se * 1000 + ms).
Proof.
  intros Hy Hmo Hd Hh Hmi Hse Hms.
  assert (days_in_month y mo <= 31) as H31 by (unfold days_in_month; repeat case_cond; lia).
  unfold Date_parse. cbv zeta. rewrite chars_unchars.
  set (l := iso_chars y mo d h mi se ms).
  change (field l 0 4) with (digits (pad_digits 4 y) 0). change (field l 5 2) with (digits (pad_digits 2 mo) 0).
  change (field l 8 2) with (digits (pad_digits 2 d) 0). change (field l 11 2) with (digits (pad_digits 2 h) 0).
  change (field l 14 2) with (digits (pad_digits 2 mi) 0). change (field l 17 2) with (digits (pad_digits 2 se) 0).
  change (field l 20 3) with (digits (pad_digits 3 ms) 0).
  rewrite !digits_pad0 by (simpl; lia).
  change (Nat.eqb (length l) 24) with true. change (char_at l 4 "-") with true. change (char_at l 7 "-") with true.
  change (char_at l 10 "T") with true. change (char_at l 13 ":") with true. change (char_at l 16 ":") with true.
  change (char_at l 19 ".") with true. change (char_at l 23 "Z") with true.
  rewrite !(proj2 (Z.leb_le _ _)) by lia. done.
Qed.

(** Reading back a written timestamp gives the same moment. *)
Lemma Date_parse_toISOString ms : in_range ms -> Date_parse (toISOString ms) = num ms.
Proof.
  unfold in_range. intros Hr. unfold toISOString.
  destruct (civil_from_days (ms / 86400000)) as [[y mo] d] eqn:E.
  apply civil_from_days_spec in E as (Hs & Hmo & Hd & Hy).
  pose proof (Z.mod_pos_bound ms 86400000 ltac:(lia)) as Ht. pose proof (Z.div_mod ms 86400000 ltac:(lia)) as Hm.
  set (t := ms mod 86400000) in *. set (q := ms / 86400000) in *.
  specialize (Hy ltac:(unfold q; Z.to_euclidean_division_equations; lia)).
  unfold year_text. rewrite !(proj2 (Z.leb_le _ _)) by lia. simpl andb. cbv iota.
  pose proof (Date_parse_iso y mo d (t / 3600000) (t / 60000 mod 60) (t / 1000 mod 60) (t mod 1000)) as H.
  unfold iso_chars in H. rewrite H; clear H; try (Z.to_euclidean_division_equations; lia).
  f_equal. rewrite Hs. clearbody q t. Z.to_euclidean_division_equations. lia.
Qed.

End Time.
