(* ===== verification/TaskInputs.v ===== *)
(** Admitted Task input ([src/app/core/tasks/app-task-inputs.ts],
    [src/app/canonical-app-event.ts]): the admission keys an event batch
    carries, the waits that keep an unanswered input correlated with its Task,
    and which of those inputs the next attempt has to consider. *)
From S2P Require Import Prelude Json TaskState TaskTree Transaction ResourceStore StoreInvariant Snapshot Context.
From S2P Require Import Approval Conditions Records.

Module TaskInputs.
Import ResourceStore.

(** ** Events *)

(** [eventData] ([events/bus.ts]): the payload of an envelope, or a flat event itself. *)
Definition eventData (event : obj json) : obj json :=
  match obj_get "data" event with Some (JObj d) => d | _ => event end.

(** The canonical fields an admission reads ([canonicalAppEvent]). *)
Definition admissionKeyOf (event : obj json) : option string :=
  if str_is (obj_get "type" event) "app.task.requested" then
    match obj_get "idempotencyKey" (eventData event) with Some (JStr k) => Some k | _ => None end
  else None.

Definition taskInputAdmissionKeys (events : list AppTaskTriggerEvent) (continued : list string) : list string :=
  set_of (continued ++ omap (fun e => admissionKeyOf (te_event e)) events).

(** ** Waits *)

(** [readTaskContext({ taskIds: [], admissionIds })], of which only the
    admissions are used. *)
Definition readAdmissions (s : store) (keys : list string) : res (obj AppTaskAdmission) :=
  match Context.readTaskContext s (Context.mkInput [] keys [] true None) with
  | Ok tree => Ok (TaskTree.appTaskAdmissions tree)
  | Throw e => Throw e
  end.

(** An input of this Task, of its generation or an earlier one, without an answer. *)
Definition outstanding (taskId : string) (generation : Z) (a : AppTaskAdmission) : bool :=
  String.eqb (adm_taskId a) taskId && (adm_taskGeneration a <=? generation) &&
  match nonempty (adm_resultAttemptId a) with None => true | Some _ => false end.

Definition retainTaskInputWait (s : store) (task : AppTaskResource) (keys : list string)
    (wait : AppTaskInputWait) : res AppTaskResource :=
  match keys with
  | [] => Ok task
  | _ =>
      match readAdmissions s keys with
      | Throw e => Throw e
      | Ok admissions =>
          Ok (fold_left (fun task key =>
            match obj_get key admissions with
            | Some a =>
                if outstanding (md_id (metadata task)) (md_generation (metadata task)) a then
                  with_status (with_st_inputWaits
                    (Some (obj_set key wait (default [] (st_inputWaits (status task))))) (status task)) task
                else task
            | None => task
            end) keys task)
      end
  end.

(** A wait that is due for reconsideration. *)
Definition waitIsDue (tree : TaskTree.TaskTree) (task : AppTaskResource) (now : Z)
    (events : list AppTaskTriggerEvent) (readyGenerations : obj Z) (wait : AppTaskInputWait) : bool :=
  let linked := default [] (st_conditionIds (status task)) in
  iw_pending wait || (iw_taskGeneration wait <? md_generation (metadata task)) ||
  match iw_reviewAt wait with Some r => r <=? now | None => false end ||
  (Nat.eqb (length (iw_conditions wait)) 0 &&
   match iw_reviewAt wait with None => true | Some _ => false end && negb (Nat.eqb (length events) 0)) ||
  existsb (fun r => negb (set_has (wr_id r) linked) ||
    negb (bool_decide (cond_generation <$> obj_get (wr_id r) (TaskTree.conditions tree) = Some (wr_generation r))))
    (iw_conditions wait) ||
  existsb (fun r => bool_decide (obj_get (wr_id r) readyGenerations = Some (wr_generation r))) (iw_conditions wait).

Definition continuedTaskInputKeys (tree : TaskTree.TaskTree) (taskId : string) (now : Z)
    (events : list AppTaskTriggerEvent) (readyConditionIds : list string) : list string :=
  match obj_get taskId (TaskTree.resources tree) with
  | None => []
  | Some task =>
      match st_inputWaits (status task) with
      | None => []
      | Some waits =>
          let matching := filter (fun id =>
              existsb (fun e => Conditions.matchesAppTaskConditionFacts
                (obj_get id (TaskTree.conditions tree)) (te_event e)) events = true)
            (default [] (st_conditionIds (status task))) in
          let ready := fromEntries (omap (fun id =>
              (fun c => (id, cond_generation c)) <$> obj_get id (TaskTree.conditions tree))
            (readyConditionIds ++ matching)) in
          map fst (filter (fun e => waitIsDue tree task now events ready e.2 = true) waits)
      end
  end.

End TaskInputs.
