(* ===== verification/TaskEvents.v ===== *)
(** Pending Task input ([src/app/core/tasks/app-task-reconciler.ts], the event
    part): an ordered batch of events per Task, the preferred event among them,
    and how a batch moves from the pending trigger into an attempt and back. *)
From S2P Require Import Prelude Json TaskState TaskTree Transaction ResourceStore StoreInvariant Snapshot Context.
From S2P Require Import Approval Conditions Records TaskInputs.

(** The digest of [node:crypto], of which nothing but its determinism is used. *)
Class Crypto : Type := sha256 : string -> string.

Module TaskEvents.
Import TaskInputs.

(** ** Classifying events *)

Definition isTick (event : obj json) : bool := str_is (obj_get "type" event) "project.task.tick".

Definition triggerHasDirectProjectComment (event : obj json) : bool :=
  str_is (obj_get "type" event) "project.comment.created" || str_is (obj_get "type" event) "message.created".

(** [isRecord(v) ? v : undefined], then a field of it. *)
Definition record_field (v : option json) (k : string) : option json :=
  match v with Some (JObj o) => obj_get k o | _ => None end.

Definition taskTriggerLane (event : option (obj json)) : Lane :=
  match event with
  | None => normal
  | Some event =>
      let kind := record_field (record_field (record_field (obj_get "data" event) "request") "source") "kind" in
      if str_is (obj_get "source" event) "human" || str_is kind "human" then human else normal
  end.

(** [a ?? b]. *)
Definition orElse (a b : option json) : option json :=
  match a with None | Some JNull => b | _ => a end.

Definition taskTriggerPriority (event : obj json) (taskAgent : string) : Z :=
  let data := Conditions.recordOr (obj_get "data" event) in
  let params := match obj_get "params" event with
                | Some (JObj p) => p
                | _ => Conditions.recordOr (obj_get "params" data)
                end in
  let empty := Some (JStr "") in
  let source := String_of (orElse (obj_get "source" event) (orElse (obj_get "source" data) empty)) in
  let type := String_of (orElse (obj_get "type" event) empty) in
  let reason := String_of (orElse (obj_get "reason" event)
                  (orElse (obj_get "reason" data) (orElse (obj_get "reason" params) empty))) in
  if triggerHasDirectProjectComment event then 4
  else if String.eqb type "project.approval.submitted" || String.eqb source "human" ||
          String.eqb source "web-ui" || startsWith source "telegram" ||
          String.eqb reason "retry-candidate-verification" then 3
  else if String.eqb source ("agent:" +:+ taskAgent) then 1
  else 2.

Definition preferredTaskTrigger (previous incoming : obj json) (taskAgent : string) : obj json :=
  if triggerHasDirectProjectComment previous && negb (triggerHasDirectProjectComment incoming) then previous
  else if taskTriggerPriority previous taskAgent <=? taskTriggerPriority incoming taskAgent then incoming
  else previous.

(** The preferred event of a batch with a first event. *)
Definition preferredFrom (first : AppTaskTriggerEvent) (rest : list AppTaskTriggerEvent) (taskAgent : string)
    : obj json :=
  fold_left (fun preferred entry => preferredTaskTrigger preferred (te_event entry) taskAgent) rest (te_event first).

Definition preferredTriggerFromEvents (events : list AppTaskTriggerEvent) (taskAgent : string) : res (obj json) :=
  match events with
  | [] => Throw "Task trigger event batch cannot be empty"
  | first :: rest => Ok (preferredFrom first rest taskAgent)
  end.

(** ** Batches *)

Definition taskTriggerEvents (t : AppTaskTrigger) : list AppTaskTriggerEvent :=
  match tr_events t with
  | Some (e :: l) => e :: l
  | _ => [mkTriggerEvent (tr_event t) (tr_observedAt t)]
  end.

Definition pendingOf (tree : TaskTree.TaskTree) (taskId : string) : list AppTaskTriggerEvent :=
  match obj_get taskId (TaskTree.taskTriggers tree) with Some t => taskTriggerEvents t | None => [] end.

(** The batch an attempt executes: its events, or the one it was started with. *)
Definition attemptBatch (attempt : AppTaskAttempt) : list AppTaskTriggerEvent :=
  match att_events attempt with
  | Some (e :: l) => e :: l
  | _ => match att_trigger attempt with
         | Some trigger => [mkTriggerEvent trigger (att_startedAt attempt)]
         | None => []
         end
  end.

Definition attemptTrigger (attempt : AppTaskAttempt) : option (obj json) :=
  match att_events attempt with
  | Some (first :: rest) => Some (preferredFrom first rest (att_owner attempt))
  | _ => att_trigger attempt
  end.

(** The id of a canonical event. *)
Definition positiveId (event : obj json) : option Z := ResourceStore.eventIdOf event.

Section Identity.
Context `{Crypto}.

Definition taskEventIdentity (event : obj json) : string :=
  match positiveId event with
  | Some n => "event:" +:+ show_Z n
  | None => "legacy:" +:+ sha256 (JSON_stringify (Conditions.stableValue (JObj event)))
  end.

Definition sameIdentity (event : obj json) (entry : AppTaskTriggerEvent) : bool :=
  String.eqb (taskEventIdentity (te_event entry)) (taskEventIdentity event).

(** Appending an event; [None] is the batch itself, returned unchanged. *)
Definition appendChange (events : list AppTaskTriggerEvent) (event : obj json) (observedAt : string)
    : option (list AppTaskTriggerEvent) :=
  if existsb (sameIdentity event) events then None
  else if isTick event then
    match last (filter (fun e => isTick (te_event e) = true) events) with
    | Some previous =>
        match positiveId (te_event previous), positiveId event with
        | Some previousId, Some incomingId =>
            if incomingId <? previousId then None
            else Some (filter (fun e => isTick (te_event e) = false) events ++ [mkTriggerEvent event observedAt])
        | _, _ => Some (filter (fun e => isTick (te_event e) = false) events ++ [mkTriggerEvent event observedAt])
        end
    | None => Some (filter (fun e => isTick (te_event e) = false) events ++ [mkTriggerEvent event observedAt])
    end
  else Some (events ++ [mkTriggerEvent event observedAt]).

Definition appendTaskTriggerEvent (events : list AppTaskTriggerEvent) (event : obj json) (observedAt : string)
    : list AppTaskTriggerEvent :=
  default events (appendChange events event observedAt).

(** Appending a whole batch, one event after the other. *)
Definition appendBatch (events incoming : list AppTaskTriggerEvent) : list AppTaskTriggerEvent :=
  fold_left (fun acc e => appendTaskTriggerEvent acc (te_event e) (te_observedAt e)) incoming events.

(** The events of an attempt return in front of the pending ones. *)
Definition restoreAttemptEvents (tree : TaskTree.TaskTree) (taskId : string) (resource : AppTaskResource)
    (attempt : AppTaskAttempt) (observedAt : string) : TaskTree.TaskTree :=
  match appendBatch (attemptBatch attempt) (pendingOf tree taskId), attemptBatch attempt with
  | first :: rest, _ :: _ =>
      let owner := if String.eqb (att_owner attempt) "" then default "" (spec_owner (spec resource))
                   else att_owner attempt in
      let previous := obj_get taskId (TaskTree.taskTriggers tree) in
      with_taskTriggers (obj_set taskId
        (mkTrigger taskId (md_generation (metadata resource))
           (match previous with Some t => tr_resourceVersion t | None => 0 end + 1)
           (Some (first :: rest)) (preferredFrom first rest owner) observedAt)
        (TaskTree.taskTriggers tree)) tree
  | _, _ => tree
  end.

End Identity.

(** ** Settling a batch *)

(** An event that a settled attempt has considered: a clock wake, an input it
    covered, or a live event it accepted. *)
Definition settled (accepted : list Z) (covered : list string) (entry : AppTaskTriggerEvent) : bool :=
  isTick (te_event entry) ||
  existsb (fun k => set_has k covered) (taskInputAdmissionKeys [entry] []) ||
  (let id := Number_of (obj_get "eventId" (te_event entry)) in
   isSafeInteger id && bool_decide (number_to_Z id ∈ accepted)).

Definition lastObserved (l : list AppTaskTriggerEvent) (d : string) : string :=
  match last l with Some e => te_observedAt e | None => d end.

Definition consumeSettledTaskEvents (tree : TaskTree.TaskTree) (taskId agent : string)
    (acceptedLiveEventIds : option (list Z)) (inputKeys : option (list string)) : TaskTree.TaskTree :=
  let accepted := default [] acceptedLiveEventIds in
  let covered := default [] inputKeys in
  match obj_get taskId (TaskTree.taskTriggers tree) with
  | None => tree
  | Some previous =>
      let events := taskTriggerEvents previous in
      let remaining := filter (fun e => settled accepted covered e = false) events in
      if Nat.eqb (length remaining) (length events) then tree
      else match remaining with
           | [] => with_taskTriggers (obj_delete taskId (TaskTree.taskTriggers tree)) tree
           | first :: rest =>
               with_taskTriggers (obj_set taskId
                 (mkTrigger (tr_taskId previous) (tr_taskGeneration previous) (tr_resourceVersion previous + 1)
                    (Some remaining) (preferredFrom first rest agent)
                    (lastObserved remaining (tr_observedAt previous))) (TaskTree.taskTriggers tree)) tree
           end
  end.

(** ** Synthetic triggers *)

Fixpoint drop_slashes (l : list ascii) : list ascii :=
  match l with "/"%char :: l' => drop_slashes l' | _ => l end.

Fixpoint until_slash (l : list ascii) : list ascii :=
  match l with
  | [] => []
  | c :: l' => if Ascii.eqb c "/" then [] else c :: until_slash l'
  end.

(** [basename] of a POSIX path: its last segment, trailing slashes ignored. *)
Definition basename (path : string) : string :=
  unchars (reverse (until_slash (drop_slashes (reverse (chars path))))).

Definition projectIdFromAppDir (appDir : string) : string :=
  let name := basename (unchars (map (fun c => if Ascii.eqb c (ascii_of_nat 92) then "/"%char else c) (chars appDir))) in
  if endsWith name ".app" then String.substring 0 (String.length name - 4) name else name.

Definition projectName (appDir : string) : string :=
  default "unknown-app" (nonempty (Some (projectIdFromAppDir appDir))).

Definition syntheticAttemptTrigger (appDir taskId : string) (reason : option string) : obj json :=
  let project := projectName appDir in
  let normalizedReason := match reason with
                          | Some r => if nonblank r then trim r else "task-controller"
                          | None => "task-controller"
                          end in
  [("type", JStr "project.task.tick");
   ("source", JStr ("app-task:" +:+ project +:+ ":task-controller"));
   ("target", JObj [("project", JStr project); ("taskId", JStr taskId)]);
   ("reason", JStr normalizedReason);
   ("data", JObj [("project", JStr project); ("taskId", JStr taskId); ("task_id", JStr taskId);
      ("reason", JStr normalizedReason); ("synthetic", JStr "controller-recovery-trigger")])].

End TaskEvents.
