(* ===== verification/TaskIntent.v ===== *)
(** Desired Task state ([src/app/core/tasks/app-task-reconciler.ts], the intent
    part, and [src/app/app-agent-selection.ts]): which intents are accepted,
    how an intent is stored and read back, the hash that identifies desired
    work, the responsible agent, and the containment check on parents. *)
From S2P Require Import Prelude Json TaskState TaskTree Transaction ResourceStore StoreInvariant Snapshot Context.
From S2P Require Import Approval Conditions Records TaskInputs TaskEvents.

Module TaskIntent.
Import TaskTree.

(** [TaskIntent]: a specification with its id.  [in_mode] tells whether the
    value still carries the retired [mode] key. *)
Record AppTaskIntent : Type := mkIntent {
  in_id : string;
  in_spec : TaskSpec;
  in_mode : bool }.

(** ** Agents *)

(** [optionalName]. *)
Definition optionalName (v : option string) : option string := trimmed v.

(** [agent] and the retained alias [owner] must not contradict each other. *)
Definition selectedAgent (agent owner : option string) (label : string) (required : bool) : res (option string) :=
  if bool_decide (is_Some agent) && bool_decide (optionalName agent = None) then
    Throw (label +:+ " agent must be a non-empty string when present")
  else if bool_decide (is_Some owner) && bool_decide (optionalName owner = None) then
    Throw (label +:+ " legacy owner must be a non-empty string when present")
  else match optionalName agent, optionalName owner with
       | Some a, Some o =>
           if String.eqb a o then Ok (Some a)
           else Throw (label +:+ " declares conflicting agent and legacy owner values")
       | Some a, None => Ok (Some a)
       | None, Some o => Ok (Some o)
       | None, None => if required then Throw (label +:+ " agent must be a non-empty string") else Ok None
       end.

Definition with_spec_agents (agent owner : option string) (s : TaskSpec) : TaskSpec :=
  mkSpec (spec_parentId s) (spec_outcome s) (spec_acceptance s) agent owner (spec_workflow s) (spec_executor s)
    (spec_input s) (spec_outputs s) (spec_dependsOn s) (spec_priority s) (spec_category s).

Definition normalizeTaskAgent (intent : AppTaskIntent) (label : string) : res AppTaskIntent :=
  match selectedAgent (spec_agent (in_spec intent)) (spec_owner (in_spec intent)) label false with
  | Throw e => Throw e
  | Ok owner => Ok (mkIntent (in_id intent) (with_spec_agents None owner (in_spec intent)) (in_mode intent))
  end.

(** The agent a Task inherits; [ownerWalk] is the walk over its parents. *)
Definition resolvedAgent (tree : TaskTree) (intent : AppTaskIntent) (appAgent : string) : string :=
  match trimmed (spec_owner (in_spec intent)) with
  | Some owner => owner
  | None =>
      match ownerWalk (ownerFuel (groups tree) (resources tree)) (groups tree) (resources tree)
              (Some (spec_parentId (in_spec intent))) [] with
      | Some (Some owner) => owner
      | _ => appAgent
      end
  end.

(** ** Stored specification *)

Definition resourceSpec (intent : AppTaskIntent) : TaskSpec :=
  let s := in_spec intent in
  mkSpec (spec_parentId s) (spec_outcome s) (spec_acceptance s) None
    (trimmed (spec_owner s)) (trimmed (spec_workflow s)) (nonempty (spec_executor s))
    ((fun o => Conditions.canonical o) <$> spec_input s)
    (spec_outputs s) (spec_dependsOn s) (spec_priority s) (trimmed (spec_category s)).

Definition resourceIntent (resource : AppTaskResource) : AppTaskIntent :=
  let s := spec resource in
  mkIntent (md_id (metadata resource))
    (mkSpec (spec_parentId s) (spec_outcome s) (spec_acceptance s) None
      (nonempty (spec_owner s)) (nonempty (spec_workflow s)) (nonempty (spec_executor s)) (spec_input s)
      (spec_outputs s) (spec_dependsOn s) (spec_priority s) (nonempty (spec_category s))) false.

(** ** The identity of desired work *)

Definition jstrings (l : list string) : json := JArr (map JStr l).
Definition jopt (v : option string) : json := match v with Some s => JStr s | None => JNull end.

Definition specFields (intent : AppTaskIntent) (effectiveAgent : option string) (legacyMode : option string)
    : obj json :=
  let s := in_spec intent in
  [("outcome", JStr (spec_outcome s)); ("acceptance", jstrings (spec_acceptance s))] ++
  match nonempty legacyMode with Some m => [("mode", JStr m)] | None => [] end ++
  [("owner", jopt (match effectiveAgent with Some a => Some a | None => spec_owner s end));
   ("workflow", jopt (spec_workflow s));
   ("executor", JStr (default "agent" (spec_executor s)));
   ("input", JObj (default [] (spec_input s)));
   ("outputs", jstrings (default [] (spec_outputs s)));
   ("dependsOn", jstrings (default [] (spec_dependsOn s)))].

Section Hash.
Context `{Crypto}.

Definition taskSpecHash (intent : AppTaskIntent) (effectiveAgent legacyMode : option string) : string :=
  sha256 (JSON_stringify (Conditions.stableValue (JObj (specFields intent effectiveAgent legacyMode)))).

Definition appTaskSpecHash (intent : AppTaskIntent) (effectiveAgent : option string) : string :=
  taskSpecHash intent effectiveAgent None.

Definition matchesAppTaskSpecHash (intent : AppTaskIntent) (effectiveAgent hash : string) : bool :=
  existsb (fun legacyMode => String.eqb (taskSpecHash intent (Some effectiveAgent) legacyMode) hash)
    [None; Some "achieve"; Some "maintain"].

End Hash.

(** A specification as the JSON value that is compared and stored. *)
Definition specJson (s : TaskSpec) : json :=
  let field k v := match v with Some x => [(k, x)] | None => [] end in
  let text k v := field k (JStr <$> v) in
  JObj ([("parentId", JStr (spec_parentId s)); ("outcome", JStr (spec_outcome s));
         ("acceptance", jstrings (spec_acceptance s))] ++
    text "agent" (spec_agent s) ++ text "owner" (spec_owner s) ++ text "workflow" (spec_workflow s) ++
    text "executor" (spec_executor s) ++ field "input" (JObj <$> spec_input s) ++
    field "outputs" (jstrings <$> spec_outputs s) ++ field "dependsOn" (jstrings <$> spec_dependsOn s) ++
    text "priority" ((fun p => match p with P0 => "P0" | P1 => "P1" | P2 => "P2" | P3 => "P3" end) <$> spec_priority s) ++
    text "category" (spec_category s)).

(** [JSON.stringify(stableValue(a)) === JSON.stringify(stableValue(b))]. *)
Definition sameSpecText (a b : TaskSpec) : bool :=
  Conditions.json_eqb (Conditions.stableValue (specJson a)) (Conditions.stableValue (specJson b)).

(** ** Validation *)

Definition is_lower (c : ascii) : bool := let n := chr c in (97 <=? n) && (n <=? 122).
Definition is_digit (c : ascii) : bool := let n := chr c in (48 <=? n) && (n <=? 57).
Definition is_name_char (c : ascii) : bool := is_lower c || is_digit c || Ascii.eqb c "-".

(** [/^[a-z][a-z0-9-]{0,63}$/]. *)
Definition executorPattern (s : string) : bool :=
  match chars s with
  | [] => false
  | c :: l => is_lower c && forallb is_name_char l && Nat.leb (length l) 63
  end.

Definition validateIntent (intent : AppTaskIntent) : res unit :=
  let s := in_spec intent in
  let task := "Task " +:+ in_id intent in
  if in_mode intent then Throw "Task mode is retired; all Tasks use one lifecycle"
  else if negb (nonblank (in_id intent)) then Throw "Task reconciliation requires a non-empty task id"
  else if negb (nonblank (spec_parentId s)) then Throw (task +:+ " requires a parentId")
  else if negb (nonblank (spec_outcome s)) then Throw (task +:+ " requires an outcome")
  else if Nat.eqb (length (spec_acceptance s)) 0 then Throw (task +:+ " requires acceptance criteria")
  else if match spec_workflow s with Some w => negb (nonblank w) | None => false end then
    Throw (task +:+ " workflow must be a non-empty string when present")
  else if match spec_workflow s with Some w => String.eqb (trim w) "project" | None => false end then
    Throw (task +:+ " workflow must name a real workflow; omit workflow for agent-handled project work")
  else if match spec_executor s with Some e => negb (executorPattern e) | None => false end then
    Throw (task +:+ " executor must be a lowercase name of at most 64 characters")
  else if bool_decide (is_Some (nonempty (spec_workflow s))) && bool_decide (is_Some (nonempty (spec_executor s))) then
    Throw (task +:+ " cannot configure both workflow and executor")
  else Ok tt.

(** ** Containment *)

(** The parent of a Task or group; [None] ends the chain. *)
Definition parentOf (tree : TaskTree) (id : string) : option string :=
  match obj_get id (resources tree) with
  | Some r => Some (spec_parentId (spec r))
  | None => obj_get id (groups tree) ≫= fun g => grp_parent_id g ≫= fun x => x
  end.

Inductive chain : Type :=
| chain_end                     (* the chain leaves the tree *)
| chain_task                    (* the chain reaches the Task itself *)
| chain_loop (at_ : string)     (* the chain repeats *)
| chain_open.                   (* the fuel ended *)

Fixpoint parentWalk (fuel : nat) (tree : TaskTree) (taskId : string) (cursor : option string) (seen : list string)
    : chain :=
  match fuel with
  | O => chain_open
  | S fuel =>
      match nonempty cursor with
      | None => chain_end
      | Some c =>
          if set_has c seen then chain_loop c
          else if String.eqb c taskId then chain_task
          else parentWalk fuel tree taskId (parentOf tree c) (set_add c seen)
      end
  end.

Definition parentFuel (tree : TaskTree) : nat :=
  S (S (length (obj_keys (groups tree) ++ obj_keys (resources tree)))).

Definition validateParentReference (tree : TaskTree) (taskId parentId : string) : res unit :=
  if negb (bool_decide ((fun r => spec_parentId (spec r)) <$> obj_get taskId (resources tree) = Some parentId)) &&
     obj_has parentId (cancellations tree) then
    Throw ("Cannot attach " +:+ taskId +:+ " to cancelled parent " +:+ parentId)
  else if negb (obj_has parentId (resources tree)) && negb (obj_has parentId (groups tree)) then
    Throw ("Task " +:+ taskId +:+ " parent does not exist in the live graph: " +:+ parentId)
  else if String.eqb parentId taskId then Throw ("Task " +:+ taskId +:+ " cannot be its own parent")
  else match parentWalk (parentFuel tree) tree taskId (Some parentId) [] with
       | chain_end | chain_open => Ok tt
       | chain_task => Throw ("Task " +:+ taskId +:+ " parent would create a containment cycle")
       | chain_loop c =>
           Throw ("Task " +:+ taskId +:+ " parent chain already contains a containment cycle at " +:+ c)
       end.

End TaskIntent.
