(* ===== verification/TaskMutation.v ===== *)
(** The shared steps of the Task reconciler
    ([src/app/core/tasks/app-task-reconciler.ts]): touching a Task, finishing an
    attempt, linking and unlinking Conditions, deciding whether a Task can run,
    and the exact write set of a change.

    The reconciler reads a bounded Task tree from the store, changes it in
    place and commits what it changed.  A change in place is a function from
    the tree to the tree; a commit is a step of the store monad [M].  The clock
    is an argument [now] in milliseconds, read once per operation. *)
From S2P Require Import Prelude Json TaskState TaskTree Transaction ResourceStore StoreInvariant StoreCommit Snapshot.
From S2P Require Import Context Approval Conditions Records Time TaskInputs TaskEvents TaskIntent.

Module TaskMutation.
Import ResourceStore TaskTree TaskInputs TaskEvents TaskIntent Time.

(** ** The reconciler's context *)

Inductive FailureLimit : Type := unlimited | limited (n : number).

Record AppTaskContext : Type := mkTaskContext {
  cx_appDir : string;
  cx_projectDir : string;
  cx_agent : string;
  cx_maxConcurrent : number;
  cx_maxConsecutiveFailures : option FailureLimit }.

Definition appTaskContext (appDir projectDir agent : string) (maxConcurrent : number)
    (maxConsecutiveFailures : option FailureLimit) : res AppTaskContext :=
  if negb (nonblank agent) then Throw "Task reconciliation requires a default agent"
  else match maxConsecutiveFailures with
       | Some (limited n) =>
           if negb (isSafeInteger n) || number_leb n (num 0)
           then Throw "Task maxConsecutiveFailures must be a positive safe integer or unlimited"
           else Ok (mkTaskContext appDir projectDir (trim agent) maxConcurrent maxConsecutiveFailures)
       | _ => Ok (mkTaskContext appDir projectDir (trim agent) maxConcurrent maxConsecutiveFailures)
       end.

(** ** Sequencing *)

#[export] Instance res_bind : MBind res := fun A B f x => match x with Ok a => f a | Throw e => Throw e end.
#[export] Instance res_ret : MRet res := @Ok.
#[export] Instance M_bind : MBind M := fun A B f m => bind m f.
#[export] Instance M_ret : MRet M := @ret.

Definition lift {A} (r : res A) : M A := fun s => (r, s).
Definition gets {A} (f : store -> res A) : M A := fun s => (f s, s).
Definition throws {A} (message : string) : M A := lift (Throw message).

(** [commitTaskMutation] with a context that caches no snapshots. *)
Definition STALE : string := "Resource-backed task mutation was rejected by a stale fence".

Definition commitMutation (now : Z) (m : AppTaskResourceMutation) : M unit := fun s =>
  match commit now m s with
  | (Throw e, s) => (Throw e, s)
  | (Ok false, s) => (Throw STALE, s)
  | (Ok true, s) => (Ok tt, s)
  end.

(** ** Changing a tree in place *)

Definition updResource (id : string) (f : AppTaskResource -> AppTaskResource) (tree : TaskTree) : TaskTree :=
  match obj_get id (resources tree) with
  | Some r => with_resources (obj_set id (f r) (resources tree)) tree
  | None => tree
  end.

Definition updAttempt (id : string) (f : AppTaskAttempt -> AppTaskAttempt) (tree : TaskTree) : TaskTree :=
  match obj_get id (attempts tree) with
  | Some a => with_attempts (obj_set id (f a) (attempts tree)) tree
  | None => tree
  end.

Definition bumpVersion (r : AppTaskResource) : AppTaskResource :=
  with_metadata (with_md_resourceVersion (md_resourceVersion (metadata r) + 1) (metadata r)) r.

Definition bumpAttempt (a : AppTaskAttempt) : AppTaskAttempt := with_att_resourceVersion (att_resourceVersion a + 1) a.

(** Releasing an interrupted claim does not renew an exhausted allowance. *)
Definition keepExhausted (st : TaskStatus) : TaskStatus :=
  if bool_decide (is_Some (st_retryExhausted st)) && bool_decide (st_phase st = pending) &&
     bool_decide (nonempty (st_currentAttemptId st) = None)
  then with_st_phase attention st else st.

Definition touchResource (now : Z) (patch : TaskStatus -> TaskStatus) (r : AppTaskResource) : AppTaskResource :=
  bumpVersion r |> with_status (keepExhausted (with_st_updatedAt (toISOString now) (patch (status r)))).

(** ** Attempts *)

Definition currentResourceAttempt (tree : TaskTree) (resource : AppTaskResource) : res (option AppTaskAttempt) :=
  match nonempty (st_currentAttemptId (status resource)) with
  | None => Ok None
  | Some attemptId =>
      match obj_get attemptId (attempts tree) with
      | None => Ok None
      | Some attempt =>
          if String.eqb (att_taskId attempt) (md_id (metadata resource)) then
            Ok (if bool_decide (att_state attempt = at_running) then Some attempt else None)
          else Throw ("Task " +:+ md_id (metadata resource) +:+ " current attempt " +:+ attemptId +:+ " belongs to " +:+
                      att_taskId attempt +:+ "; refusing cross-Task recovery")
      end
  end.

(** Later attempts first. *)
Definition later (a b : AppTaskAttempt) : Prop := String.le (att_startedAt b) (att_startedAt a).

#[export] Instance later_dec a b : Decision (later a b).
Proof. unfold later. apply _. Defined.

Definition latestTaskAttempt (tree : TaskTree) (taskId : string) (generation : option Z) : option AppTaskAttempt :=
  head (merge_sort later (filter (fun a => att_taskId a = taskId /\
    default (att_taskGeneration a) generation = att_taskGeneration a) (obj_values (attempts tree)))).

Definition hasLegacyWorkflowHandoff (tree : TaskTree) (resource : AppTaskResource) : bool :=
  bool_decide (st_phase (status resource) = attention) &&
  match latestTaskAttempt tree (md_id (metadata resource)) (Some (md_generation (metadata resource))) with
  | Some attempt =>
      startsWith (att_handler attempt) "workflow:" &&
      (bool_decide (att_failureReason attempt = Some "needs-agent") ||
       bool_decide (att_failureReason attempt = Some "needs-owner"))
  | None => false
  end.

(** A completed attempt clears the failure sequence of its Task. *)
Definition clearFailures (st : TaskStatus) : TaskStatus :=
  st |> with_st_executionFailures None |> with_st_executionFailureAttemptId (Some None)
     |> with_st_executionRetryAt None |> with_st_retryExhausted None.

Definition endAttempt (state : AttemptState) (summary now : string) (a : AppTaskAttempt) : AppTaskAttempt :=
  let a := bumpAttempt a |> with_att_state state |> with_att_finishedAt (Some now) |> with_att_summary (Some summary) in
  if bool_decide (state = at_completed) && bool_decide (is_Some (att_acceptedResult a))
  then with_att_unacceptedResult None a else a.

(** The Task's current attempt ends, and the Task has none. *)
Definition finishAttempt (taskId : string) (state : AttemptState) (summary : string) (now : Z) (tree : TaskTree)
    : TaskTree :=
  match obj_get taskId (resources tree) with
  | None => tree
  | Some resource =>
      let attemptId := nonempty (st_currentAttemptId (status resource)) in
      let attempt := attemptId ≫= fun id => obj_get id (attempts tree) in
      let tree :=
        match attemptId, attempt with
        | Some id, Some _ => updAttempt id (endAttempt state summary (toISOString now)) tree
        | _, _ => tree
        end in
      let clear st := if bool_decide (is_Some attempt) && bool_decide (state = at_completed) then clearFailures st else st in
      updResource taskId (fun r => with_status (with_st_currentAttemptId None (clear (status r))) r) tree
  end.

(** ** Conditions of a Task *)

(** [isSatisfiedCondition] and [isOpenCondition] of a stored Condition. *)
Definition isSatisfied (c : AppTaskCondition) : bool := bool_decide (cond_state c = cs_true).

Definition taskConditionIds (tree : TaskTree) (taskId : string) : list string :=
  match obj_get taskId (resources tree) with Some r => default [] (st_conditionIds (status r)) | None => [] end.

Definition taskConditionEntries (tree : TaskTree) (taskId : string) : obj AppTaskCondition :=
  let linked := taskConditionIds tree taskId in
  filter (fun e => set_has e.1 linked = true) (conditions tree).

Definition openTaskConditionIds (tree : TaskTree) (taskId : string) : list string :=
  set_of (map fst (filter (fun e => isSatisfied e.2 = false) (taskConditionEntries tree taskId))).

Definition hasSatisfiedTaskCondition (tree : TaskTree) (taskId : string) : bool :=
  existsb (fun e => isSatisfied e.2) (taskConditionEntries tree taskId).

Definition linkedConditionIds (tree : TaskTree) : list string :=
  set_of (flat_map (fun r => default [] (st_conditionIds (status r))) (obj_values (resources tree))).

(** Conditions no Task of the tree links to are dropped from it. *)
Definition pruneUnlinkedConditions (tree : TaskTree) : TaskTree :=
  with_conditions (filter (fun e => set_has e.1 (linkedConditionIds tree) = true) (conditions tree)) tree.

Definition unlinkExactTaskCondition (now : Z) (taskId conditionId : string) (tree : TaskTree) : TaskTree :=
  if set_has conditionId (taskConditionIds tree taskId) then
    pruneUnlinkedConditions (updResource taskId (touchResource now (fun st =>
      with_st_conditionIds (Some (filter (fun id => id <> conditionId) (default [] (st_conditionIds st)))) st)) tree)
  else tree.

Definition unlinkSatisfiedTaskConditions (now : Z) (taskId : string) (tree : TaskTree) : TaskTree :=
  let ids := taskConditionIds tree taskId in
  let remaining := filter (fun id => (isSatisfied <$> obj_get id (conditions tree)) <> Some true) ids in
  if Nat.eqb (length remaining) (length ids) then tree
  else pruneUnlinkedConditions (updResource taskId (touchResource now (with_st_conditionIds (Some remaining))) tree).

(** *** Declaring waits *)

(** [Condition] of a worker result: an id and its specification. *)
Record ConditionDecl : Type := mkDecl { cd_id : string; cd_spec : ConditionSpec }.

Definition progressName (p : ProgressInterest) : string :=
  match p with immediate => "immediate" | next_wake => "next-wake" end.

Definition conditionSpecFields (s : ConditionSpec) : obj json :=
  let field k v := match v with Some x => [(k, x)] | None => [] end in
  [("type", JStr (cs_type s)); ("subject", JStr (cs_subject s)); ("expected", cs_expected s)] ++
  field "requestedAction" (JStr <$> cs_requestedAction s) ++ field "owner" (JStr <$> cs_owner s) ++
  field "reviewAfterMs" ((fun n => JNum (num n)) <$> cs_reviewAfterMs s) ++
  field "progress" ((fun p => JStr (progressName p)) <$> cs_progress s).

Definition sameText (a b : obj json) : bool :=
  Conditions.json_eqb (Conditions.stableValue (JObj a)) (Conditions.stableValue (JObj b)).

Definition sameConditionSpec (a b : ConditionSpec) : bool := sameText (conditionSpecFields a) (conditionSpecFields b).

Definition declFields (d : ConditionDecl) : obj json := ("id", JStr (cd_id d)) :: conditionSpecFields (cd_spec d).

(** One declaration per id; two that differ are an error. *)
Fixpoint collectDeclarations (conditions : list ConditionDecl) (acc : obj ConditionDecl) : res (obj ConditionDecl) :=
  match conditions with
  | [] => Ok acc
  | c :: l =>
      let id := trim (cd_id c) in
      match obj_get id acc with
      | Some previous =>
          if sameText (declFields previous) (declFields c) then collectDeclarations l (obj_set id c acc)
          else Throw ("Task result contains conflicting declarations for Condition " +:+ id)
      | None => collectDeclarations l (obj_set id c acc)
      end
  end.

(** The specification that is stored: trimmed, keeping a saved review time and
    progress interest that the declaration omits. *)
Definition declaredSpec (raw : ConditionSpec) (current : option ConditionSpec) : res ConditionSpec :=
  match cs_owner raw with
  | None => Throw "Cannot read properties of undefined (reading 'trim')"
  | Some owner =>
      Ok (mkConditionSpec (trim (cs_type raw)) (trim (cs_subject raw)) (cs_expected raw)
        (trimmed (cs_requestedAction raw)) (Some (trim owner))
        (match cs_reviewAfterMs raw with Some n => Some n | None => current ≫= cs_reviewAfterMs end)
        (match cs_progress raw with Some p => Some p | None => current ≫= cs_progress end))
  end.

Definition linkedElsewhere (tree : TaskTree) (taskId conditionId : string) : bool :=
  existsb (fun r => negb (String.eqb (md_id (metadata r)) taskId) &&
    set_has conditionId (default [] (st_conditionIds (status r)))) (obj_values (resources tree)).

(** Only the interest in progress changed: the observation is kept. *)
Definition changeInterest (current : AppTaskCondition) (spec : ConditionSpec) : AppTaskCondition :=
  current |> with_cond_spec spec |> with_cond_generation (cond_generation current + 1)
    |> with_cond_resourceVersion (cond_resourceVersion current + 1)
    |> with_cond_observedGeneration
         (if bool_decide (cond_state current = cs_unknown) then 0 else cond_generation current + 1).

(** Every input wait on this Condition follows it to the new generation. *)
Definition rebaseWaits (id : string) (from to : Z) (st : TaskStatus) : TaskStatus :=
  match st_inputWaits st with
  | None => st
  | Some waits =>
      with_st_inputWaits (Some (map (fun e => (e.1, with_iw_conditions (map (fun r =>
        if String.eqb (wr_id r) id && Z.eqb (wr_generation r) from then mkWaitRef (wr_id r) to else r)
        (iw_conditions e.2)) e.2)) waits)) st
  end.

Definition newObservation (id : string) (spec : ConditionSpec) (now : string) (current : option AppTaskCondition)
    : AppTaskCondition :=
  mkCondition id (match current with Some c => cond_generation c | None => 0 end + 1)
    (match current with Some c => cond_resourceVersion c | None => 0 end + 1) spec 0 cs_unknown
    (Some now) None None (Some now) None.

Definition materializeOne (now : Z) (taskId : string) (tree : TaskTree) (raw : ConditionDecl) : res TaskTree :=
  let id := trim (cd_id raw) in
  let current := obj_get id (conditions tree) in
  spec ← declaredSpec (cd_spec raw) (cond_spec <$> current);
  match current with
  | None => Ok (with_conditions (obj_set id (newObservation id spec (toISOString now) None) (conditions tree)) tree)
  | Some c =>
      if sameConditionSpec (cond_spec c) spec then Ok tree
      else if linkedElsewhere tree taskId id then
        Throw ("Condition " +:+ id +:+ " is already linked to another task with a different specification")
      else if sameConditionSpec (with_cs_progress None (cond_spec c)) (with_cs_progress None spec) then
        let next := changeInterest c spec in
        Ok (with_conditions (obj_set id next (conditions tree)) tree
            |> updResource taskId (fun r =>
                 with_status (rebaseWaits id (cond_generation c) (cond_generation next) (status r)) r))
      else Ok (with_conditions (obj_set id (newObservation id spec (toISOString now) (Some c)) (conditions tree)) tree)
  end.

Fixpoint materializeAll (now : Z) (taskId : string) (tree : TaskTree) (l : list ConditionDecl) : res TaskTree :=
  match l with
  | [] => Ok tree
  | raw :: l => tree ← materializeOne now taskId tree raw; materializeAll now taskId tree l
  end.

Definition materializeWaitingConditions (now : Z) (taskId : string) (declared : list ConditionDecl) (tree : TaskTree)
    : res TaskTree :=
  declarations ← collectDeclarations declared [];
  let ids := taskConditionIds tree taskId in
  let fresh := filter (fun id => id ∉ ids) (map (fun d => trim (cd_id d)) (obj_values declarations)) in
  tree ← materializeAll now taskId tree (obj_values declarations);
  Ok (pruneUnlinkedConditions (updResource taskId (touchResource now (with_st_conditionIds (Some (ids ++ fresh)))) tree)).

(** ** Scheduling facts *)

Definition acceptedTaskReviewAt (resource : AppTaskResource) : option Z :=
  if bool_decide (st_phase (status resource) = waiting) then
    let deadlines := filter (fun n => 0 < n <= MAX_SAFE_INTEGER)
      (omap id (st_reviewAt (status resource) ::
                map iw_reviewAt (obj_values (default [] (st_inputWaits (status resource)))))) in
    match deadlines with [] => None | d :: l => Some (fold_left Z.min l d) end
  else None.

Definition nextTaskCheckAt (now : Z) (tree : TaskTree) (resource : AppTaskResource) : option Z :=
  let recovery :=
    if (bool_decide (st_phase (status resource) = waiting) || taskExecutionRetryExhausted resource) &&
       negb (Nat.eqb (length (openTaskConditionIds tree (md_id (metadata resource)))) 0)
    then Some (now + CONDITION_RECOVERY_INTERVAL_MS) else None in
  match recovery, acceptedTaskReviewAt resource with
  | Some a, Some b => Some (Z.min a b)
  | Some a, None => Some a
  | None, b => b
  end.

Definition unmetDependencies (tree : TaskTree) (intent : AppTaskIntent) : list string :=
  filter (fun id => dependencySatisfied tree id = false) (default [] (spec_dependsOn (in_spec intent))).

Definition dependenciesSatisfied (tree : TaskTree) (intent : AppTaskIntent) : bool :=
  forallb (dependencySatisfied tree) (default [] (spec_dependsOn (in_spec intent))).

Definition isRunnableOnPassiveResync (now : Z) (tree : TaskTree) (resource : AppTaskResource) : res bool :=
  let taskId := md_id (metadata resource) in
  if obj_has taskId (cancellations tree) then Ok false
  else if taskExecutionRetryExhausted resource then Ok false
  else if bool_decide (is_Some (pendingTaskExecutionRetryAt resource now)) then Ok false
  else if negb (dependenciesSatisfied tree (resourceIntent resource)) then Ok false
  else
    active ← currentResourceAttempt tree resource;
    Ok (match active with
        | Some _ => false
        | None =>
            obj_has taskId (taskTriggers tree) ||
            (st_observedGeneration (status resource) <? md_generation (metadata resource)) ||
            match st_phase (status resource) with
            | pending => true
            | waiting =>
                hasSatisfiedTaskCondition tree taskId ||
                match acceptedTaskReviewAt resource with
                | Some reviewAt => reviewAt <=? now
                | None => Nat.eqb (length (default [] (st_conditionIds (status resource)))) 0
                end
            | attention => hasLegacyWorkflowHandoff tree resource
            | running => true
            | converged => false
            end
        end).

Definition resourceWrite (now : Z) (tree : TaskTree) (resource : AppTaskResource) (ready : bool) : TaskResourceWrite :=
  mkWrite resource (obj_get (md_id (metadata resource)) (taskTriggers tree)) ready (nextTaskCheckAt now tree resource).

(** ** Mutation scopes *)

Record ResourceMutationScope : Type := mkScope {
  sc_writeTaskIds : list string;
  sc_conditionIds : list string;
  sc_originalConditionVersions : obj Z;
  sc_originalAttemptVersions : obj Z;
  sc_fences : list TaskMutationFence }.

Definition emptyResourceMutationScope (tree : TaskTree) : ResourceMutationScope :=
  mkScope [] [] (map (fun c => (cond_id c, cond_resourceVersion c)) (obj_values (conditions tree)))
    (map (fun a => (att_id a, att_resourceVersion a)) (obj_values (attempts tree))) [].

Definition resourceFence (resource : AppTaskResource) : TaskMutationFence :=
  mkFence (md_id (metadata resource)) (md_resourceVersion (metadata resource))
    (Some (md_generation (metadata resource))) (Some (st_currentAttemptId (status resource))).

Definition fenceResourceMutationTask (tree : TaskTree) (scope : ResourceMutationScope) (taskId : string)
    : ResourceMutationScope :=
  if String.eqb taskId "" then scope else
  match obj_get taskId (resources tree) with
  | None => scope
  | Some resource =>
      if existsb (fun f => String.eqb (fence_taskId f) taskId) (sc_fences scope) then scope
      else mkScope (sc_writeTaskIds scope) (sc_conditionIds scope) (sc_originalConditionVersions scope)
        (sc_originalAttemptVersions scope)
        (sc_fences scope ++ [mkFence taskId (md_resourceVersion (metadata resource))
           (Some (md_generation (metadata resource))) (Some (st_currentAttemptId (status resource)))])
  end.

Definition trackResourceMutationTask (tree : TaskTree) (scope : ResourceMutationScope) (taskId : string)
    : ResourceMutationScope :=
  if String.eqb taskId "" then scope else
  let scope := mkScope (set_add taskId (sc_writeTaskIds scope)) (sc_conditionIds scope)
    (sc_originalConditionVersions scope) (sc_originalAttemptVersions scope) (sc_fences scope) in
  let scope := fenceResourceMutationTask tree scope taskId in
  match obj_get taskId (resources tree) with
  | None => scope
  | Some resource =>
      mkScope (sc_writeTaskIds scope)
        (fold_left (fun ids id => set_add id ids) (default [] (st_conditionIds (status resource))) (sc_conditionIds scope))
        (sc_originalConditionVersions scope) (sc_originalAttemptVersions scope) (sc_fences scope)
  end.

Definition beginResourceMutationScopeForTasks (tree : TaskTree) (taskIds : list string) : ResourceMutationScope :=
  fold_left (trackResourceMutationTask tree) taskIds (emptyResourceMutationScope tree).

(** The writes of the tracked Tasks; an entry may fail on a foreign attempt. *)
Fixpoint scopeWrites (now : Z) (tree : TaskTree) (ids : list string) : res (list TaskResourceWrite) :=
  match ids with
  | [] => Ok []
  | id :: ids =>
      match obj_get id (resources tree) with
      | None => scopeWrites now tree ids
      | Some resource =>
          ready ← isRunnableOnPassiveResync now tree resource;
          rest ← scopeWrites now tree ids;
          Ok (resourceWrite now tree resource ready :: rest)
      end
  end.

(** The mutation of a finished scope, with room for what the caller adds. *)
Definition finishResourceMutationScope (now : Z) (scope : ResourceMutationScope) (tree : TaskTree)
    : res AppTaskResourceMutation :=
  let scope := fold_left (trackResourceMutationTask tree) (sc_writeTaskIds scope) scope in
  tasks ← scopeWrites now tree (sc_writeTaskIds scope);
  Ok (mkMutation (sc_fences scope) None [] tasks []
    (filter (fun a => att_taskId a ∈ sc_writeTaskIds scope /\
       obj_get (att_id a) (sc_originalAttemptVersions scope) <> Some (att_resourceVersion a))
       (obj_values (attempts tree))) []
    (omap (fun id => match obj_get id (conditions tree) with
        | Some c => if bool_decide (obj_get id (sc_originalConditionVersions scope) = Some (cond_resourceVersion c))
                    then None else Some c
        | None => None
        end) (sc_conditionIds scope))
    (filter (fun id => obj_get id (conditions tree) = None) (sc_conditionIds scope))
    [] [] [] [] [] [] [] []).

Definition with_admissions (adm : list (string * AppTaskAdmission)) (m : AppTaskResourceMutation)
    : AppTaskResourceMutation :=
  mkMutation (mu_fences m) (mu_requireUnpausedTask m) (mu_expectMissingTaskIds m) (mu_tasks m) (mu_deleteTaskIds m)
    (mu_attempts m) (mu_deleteAttemptIds m) (mu_conditions m) (mu_deleteConditionIds m) (mu_pruneConditionIds m)
    (mu_receipts m) (mu_deleteReceiptIds m) adm (mu_deleteAdmissionIds m) (mu_cancellations m) (mu_reopenTaskIds m)
    (mu_controlReceipts m).

Definition with_closure (cancellations : list AppTaskCancellation) (prune reopen : list string)
    (controls : list AppTaskControlReceipt) (m : AppTaskResourceMutation) : AppTaskResourceMutation :=
  mkMutation (mu_fences m) (mu_requireUnpausedTask m) (mu_expectMissingTaskIds m) (mu_tasks m) (mu_deleteTaskIds m)
    (mu_attempts m) (mu_deleteAttemptIds m) (mu_conditions m) (mu_deleteConditionIds m) prune
    (mu_receipts m) (mu_deleteReceiptIds m) (mu_admissions m) (mu_deleteAdmissionIds m) cancellations reopen controls.

(** Commit what a scope changed. *)
Definition commitScope (now : Z) (scope : ResourceMutationScope) (tree : TaskTree)
    (extend : AppTaskResourceMutation -> AppTaskResourceMutation) : M unit :=
  m ← lift (finishResourceMutationScope now scope tree);
  commitMutation now (extend m).

(** The bounded read with default options. *)
Definition readContext (taskIds admissionIds conditionIds : list string) : M TaskTree :=
  gets (fun s => Context.readTaskContext s (Context.mkInput taskIds admissionIds conditionIds true None)).

(** The narrow read of one Task, without history or children. *)
Definition readNarrow (taskId : string) : M TaskTree :=
  gets (fun s => Context.readTaskContext s (Context.mkInput [taskId] [] [] false (Some 0))).

End TaskMutation.
