(* ===== verification/TaskOutcome.v ===== *)
(** What an attempt's result means for admitted input
    ([src/app/core/tasks/app-task-reconciler.ts], results and reports): the
    input keys a result covers, the admissions it answers or reports on, and
    reading one input's answer back. *)
From S2P Require Import Prelude Json TaskState TaskTree Transaction ResourceStore StoreInvariant StoreCommit Snapshot.
From S2P Require Import Context Approval Conditions Records Time TaskInputs TaskEvents TaskIntent TaskMutation.

Module TaskOutcome.
Import ResourceStore TaskTree TaskInputs TaskEvents TaskIntent Time TaskMutation.

(** The part of a claim that identifies its attempt. *)
Record ClaimRef : Type := mkClaimRef {
  cl_taskId : string;
  cl_attemptId : string;
  cl_generation : Z }.

(** What a worker says about the input it considered. *)
Record ResultScope : Type := mkResultScope {
  rs_acceptedLiveEventIds : option (list Z);
  rs_inputKeys : option (list string);
  rs_report : bool }.

(** [Set<number>.has(Number(value))]. *)
Definition hasNumber (ids : list Z) (v : option json) : bool :=
  existsb (fun z => number_eqb (Number_of v) (num z)) ids.

(** ** Covered input *)

Fixpoint checkInputKeys (claim : ClaimRef) (admissions : obj AppTaskAdmission) (keys : list string) : res unit :=
  match keys with
  | [] => Ok tt
  | key :: keys =>
      match obj_get key admissions with
      | Some a => if outstanding (cl_taskId claim) (cl_generation claim) a then checkInputKeys claim admissions keys
                  else Throw ("inputKeys contains input not outstanding on this Task: " +:+ key)
      | None => Throw ("inputKeys contains input not outstanding on this Task: " +:+ key)
      end
  end.

Definition resultInputKeys (s : store) (tree : TaskTree) (claim : ClaimRef) (input : ResultScope) : res (list string) :=
  let attempt := obj_get (cl_attemptId claim) (attempts tree) in
  let liveIds := default [] (rs_acceptedLiveEventIds input) in
  let liveEvents := filter (fun e => hasNumber liveIds (obj_get "eventId" (te_event e)) = true)
                      (pendingOf tree (cl_taskId claim)) in
  let assigned := taskInputAdmissionKeys (default [] (attempt ≫= att_events) ++ liveEvents)
                    (default [] (attempt ≫= att_continuedInputKeys)) in
  match rs_inputKeys input with
  | None => Ok assigned
  | Some keys =>
      if Nat.ltb 64 (length keys) || existsb (fun k => negb (nonblank k)) keys
      then Throw "inputKeys must contain at most 64 non-empty exact keys"
      else
        admissions ← readAdmissions s keys;
        _ ← checkInputKeys claim admissions keys;
        Ok (set_of keys)
  end.

(** ** Reports *)

(** A report exposes accepted progress or execution facts. *)
Inductive AttemptReport : Type :=
| report_accepted (r : AcceptedResult)
| report_error (summary : string) (facts : list string).

Definition exhaustionPrefix (attempt : AppTaskAttempt) : string :=
  match att_retryExhausted attempt with
  | Some x => "Automatic retries exhausted after " +:+ show_Z (re_failures x) +:+ " unsuccessful attempts (limit " +:+
              show_Z (re_limit x) +:+ "); owner repair or explicit retry required. "
  | None => ""
  end.

Definition appTaskAttemptReport (attempt : AppTaskAttempt) : option AttemptReport :=
  let prefix := exhaustionPrefix attempt in
  match att_acceptedResult attempt with
  | Some accepted =>
      if bool_decide (ar_state accepted = r_incomplete) ||
         (bool_decide (ar_state accepted = r_waiting) && ar_report accepted)
      then Some (report_accepted (if String.eqb prefix "" then accepted
                                  else with_ar_summary (prefix +:+ ar_summary accepted) accepted))
      else None
  | None =>
      if bool_decide (att_state attempt = at_failed) then
        let text := match att_summary attempt with
                    | Some t => t
                    | None => default "Unknown execution failure" (att_failureReason attempt)
                    end in
        Some (report_error (prefix +:+ "Execution failed before an accepted result: " +:+
                unchars (take 1024 (chars text))) ["task-attempt:" +:+ att_id attempt])
      else None
  end.

(** [admissionFeedback]: progress and failure, with the historical single report. *)
Definition admissionFeedback (s : store) (admission : AppTaskAdmission) : option Feedback * option Feedback :=
  let progress := adm_progress admission in
  let failure := adm_failure admission in
  match nonempty (adm_reportAttemptId admission) with
  | None => (progress, failure)
  | Some id =>
      match readAttempt s id with
      | None => (progress, failure)
      | Some attempt =>
          match appTaskAttemptReport attempt with
          | None => (progress, failure)
          | Some _ =>
              let legacy := mkFeedback id (default 1 (adm_reportRevision admission)) true in
              if bool_decide (ar_state <$> att_acceptedResult attempt = Some r_waiting)
              then (Some (default legacy progress), failure)
              else (progress, Some (default legacy failure))
          end
      end
  end.

Definition feedbackEntries (fb : option Feedback * option Feedback) : list Feedback := omap id [fb.1; fb.2].

(** ** Outcomes of a result *)

Inductive OutcomeKind : Type := oc_answer | oc_progress | oc_failure | oc_retain.

#[export] Instance OutcomeKind_eq_dec : EqDecision OutcomeKind.
Proof. solve_decision. Defined.

(** The input stays correlated with the Task, pending. *)
Definition pendingWait (generation : Z) (previous : option AppTaskInputWait) : AppTaskInputWait :=
  match previous with Some w => with_iw_pending true w | None => mkInputWait generation true [] None end.

Definition inputWaitOf (r : AppTaskResource) (key : string) : option AppTaskInputWait :=
  st_inputWaits (status r) ≫= obj_get key.

(** Assigned input the result does not cover, or that has no wait yet, waits. *)
Fixpoint retainAssigned (s : store) (generation : Z) (keys assigned : list string) (r : AppTaskResource)
    : res AppTaskResource :=
  match assigned with
  | [] => Ok r
  | key :: assigned =>
      let previous := inputWaitOf r key in
      r ← (if bool_decide (is_Some previous) && set_has key keys then Ok r
           else retainTaskInputWait s r [key] (pendingWait generation previous));
      retainAssigned s generation keys assigned r
  end.

(** The admission one covered key writes. *)
Definition outcomeWrite (s : store) (claim : ClaimRef) (report : bool) (kind : OutcomeKind) (admission : AppTaskAdmission)
    : option AppTaskAdmission :=
  let fb := admissionFeedback s admission in
  let migrated := existsb (fun f => bool_decide (adm_reportAttemptId admission = Some (fb_attemptId f)))
                    (feedbackEntries fb) in
  let revision := fold_left Z.max (map fb_revision (feedbackEntries fb)) (default 0 (adm_reportRevision admission)) + 1 in
  let clean a := if migrated then a |> with_adm_reportAttemptId None |> with_adm_reportRevision None else a in
  let entry := Some (mkFeedback (cl_attemptId claim) revision false) in
  match kind with
  | oc_retain => None
  | oc_answer => Some (with_adm_resultAttemptId (Some (cl_attemptId claim)) admission)
  | oc_progress =>
      if bool_decide (is_Some fb.1) && negb report then None
      else Some (admission |> with_adm_progress entry |> with_adm_failure fb.2 |> clean)
  | oc_failure =>
      if bool_decide (is_Some fb.2) && negb report then None
      else Some (admission |> with_adm_progress fb.1 |> with_adm_failure entry |> clean)
  end.

Definition outcomeWrites (s : store) (claim : ClaimRef) (report : bool) (kind : OutcomeKind)
    (admissions : obj AppTaskAdmission) (keys : list string) : list (string * AppTaskAdmission) :=
  omap (fun key => obj_get key admissions ≫= fun a =>
      if outstanding (cl_taskId claim) (cl_generation claim) a
      then (fun a => (key, a)) <$> outcomeWrite s claim report kind a else None) keys.

(** An answered input no longer waits; an empty set of waits is dropped. *)
Definition dropWaits (keys : list string) (st : TaskStatus) : TaskStatus :=
  match st_inputWaits st with
  | None => st
  | Some waits =>
      match filter (fun e => e.1 ∉ keys) waits with
      | [] => with_st_inputWaits None st
      | waits => with_st_inputWaits (Some waits) st
      end
  end.

Record Outcome : Type := mkOutcome {
  oc_keys : list string;
  oc_writes : list (string * AppTaskAdmission);
  oc_tree : TaskTree }.

Definition inputOutcomeAdmissions (s : store) (tree : TaskTree) (claim : ClaimRef) (input : ResultScope)
    (kind : OutcomeKind) : res Outcome :=
  keys ← resultInputKeys s tree claim input;
  match obj_get (cl_taskId claim) (resources tree) with
  | None => Throw "Cannot read properties of undefined (reading 'status')"
  | Some resource =>
      assigned ← resultInputKeys s tree claim (mkResultScope (rs_acceptedLiveEventIds input) None false);
      resource ← retainAssigned s (cl_generation claim) keys assigned resource;
      admissions ← readAdmissions s keys;
      let writes := outcomeWrites s claim (rs_report input) kind admissions keys in
      let answered := if bool_decide (kind = oc_answer) then map fst writes else [] in
      let resource := with_status (dropWaits answered (status resource)) resource in
      Ok (mkOutcome keys writes (with_resources (obj_set (cl_taskId claim) resource (resources tree)) tree))
  end.

(** ** The accepted result of an attempt *)

Record ResultInput : Type := mkResultInput {
  ri_summary : string;
  ri_response : option string;
  ri_result : option (obj json);
  ri_reviewAt : option Z;
  ri_facts : option (list string) }.

(** [[...new Set(ids)]]. *)
Definition distinct (l : list Z) : list Z :=
  fold_left (fun acc n => if bool_decide (n ∈ acc) then acc else acc ++ [n]) l [].

Definition acceptedAttemptResult (tree : TaskTree) (taskId : string) (state : ResultState) (input : ResultInput)
    (acceptedLiveEventIds : option (list Z)) (inputKeys : option (list string)) (basis : TaskAcceptanceBasis)
    : AcceptedResult :=
  let accepted := default [] acceptedLiveEventIds in
  let covered := default [] inputKeys in
  let ids := distinct (omap (fun entry =>
      match positiveId (te_event entry) with
      | Some n => if bool_decide (n ∈ accepted) || existsb (fun k => set_has k covered) (taskInputAdmissionKeys [entry] [])
                  then Some n else None
      | None => None
      end) (pendingOf tree taskId)) in
  mkAccepted state (ri_reviewAt input) false false (ri_summary input) (ri_response input) (ri_result input)
    (default [] (ri_facts input)) (Some basis) (match ids with [] => None | _ => Some ids end) inputKeys.

(** ** Reading an outcome *)

Inductive OutcomeQuery : Type := q_answer | q_report | q_progress | q_failure.

#[export] Instance OutcomeQuery_eq_dec : EqDecision OutcomeQuery.
Proof. solve_decision. Defined.

Record AdmissionOutcome : Type := mkAdmissionOutcome {
  ao_attemptId : string;
  ao_generation : Z;
  ao_reportRevision : option Z;
  ao_reportBlocked : bool;
  ao_report : AttemptReport }.

(** The entry with the highest revision, the first among equals. *)
Definition newer (a b : Feedback) : Prop := fb_revision b <= fb_revision a.

#[export] Instance newer_dec a b : Decision (newer a b).
Proof. unfold newer. apply _. Defined.

Definition latestFeedback (l : list Feedback) : option Feedback := head (merge_sort newer l).

Definition readAppTaskAdmissionOutcome (s : store) (taskId admissionKey : string) (kind : OutcomeQuery)
    : res (option AdmissionOutcome) :=
  admissions ← readAdmissions s [admissionKey];
  Ok (match obj_get admissionKey admissions with
      | None => None
      | Some admission =>
          if negb (String.eqb (adm_taskId admission) taskId) then None else
          let fb := admissionFeedback s admission in
          let selected := match kind with
                          | q_answer => None
                          | q_report => latestFeedback (feedbackEntries fb)
                          | q_progress => fb.1
                          | q_failure => fb.2
                          end in
          let attemptId := match kind with q_answer => adm_resultAttemptId admission | _ => fb_attemptId <$> selected end in
          match nonempty attemptId ≫= readAttempt s with
          | None => None
          | Some attempt =>
              if negb (String.eqb (att_taskId attempt) taskId) ||
                 (att_taskGeneration attempt <? adm_taskGeneration admission) then None else
              let outcome := mkAdmissionOutcome (att_id attempt) (att_taskGeneration attempt) (fb_revision <$> selected)
                (match selected with Some f => fb_legacyBlocked f | None => false end) in
              match kind with
              | q_answer =>
                  match att_acceptedResult attempt with
                  | Some accepted => if bool_decide (ar_state accepted = r_converged)
                                     then Some (outcome (report_accepted accepted)) else None
                  | None => None
                  end
              | _ => outcome <$> appTaskAttemptReport attempt
              end
          end
      end).

End TaskOutcome.
