(* ===== verification/TaskAdmission.v ===== *)
(** Admitting desired work and input to a Task
    ([src/app/core/tasks/app-task-reconciler.ts]): [observeAppTaskIntent]
    records an intent, its generation and its admission; [recordAppTaskTrigger]
    adds a wake to an existing Task; and the small reads beside them. *)
From S2P Require Import Prelude Json TaskState TaskTree Transaction ResourceStore StoreInvariant StoreCommit Snapshot.
From S2P Require Import Context Approval Conditions Records Time TaskInputs TaskEvents TaskIntent TaskMutation.
From S2P Require Import TaskOutcome.

Module TaskAdmission.
Import ResourceStore TaskTree TaskInputs TaskEvents TaskIntent Time TaskMutation.

Section Admission.
Context `{Crypto} (config : AppTaskContext) (now : Z).

(** ** Observing an intent *)

Record ObserveInput : Type := mkObserve {
  ob_intent : AppTaskIntent;
  ob_appAgent : string;
  ob_trigger : option (obj json);
  ob_admissionKey : option string;
  ob_creator : option ResourceCreator;
  ob_creatorRevision : bool }.

Record Observation : Type := mkObservation {
  obs_taskId : string;
  obs_generation : Z;
  obs_changed : bool }.

(** A specification without what selects its execution. *)
Definition requirements (s : TaskSpec) : TaskSpec :=
  mkSpec (spec_parentId s) (spec_outcome s) (spec_acceptance s) (spec_agent s) None None None (spec_input s)
    (spec_outputs s) (spec_dependsOn s) (spec_priority s) (spec_category s).

Definition sameExecution (a b : TaskSpec) : bool :=
  bool_decide (spec_owner a = spec_owner b) && bool_decide (spec_workflow a = spec_workflow b) &&
  bool_decide (spec_executor a = spec_executor b).

(** Requirements belong to the creator, execution to the responsible App. *)
Definition checkAuthority (appId : string) (input : ObserveInput) (existing : AppTaskResource) (next : TaskSpec) : res unit :=
  if sameSpecText (spec existing) next then Ok tt else
  let actor := default (mkCreator appId None) (ob_creator input) in
  _ ← (if sameSpecText (requirements (spec existing)) (requirements next) then Ok tt
       else assertResourceCreator (md_creator (metadata existing)) actor);
  if negb (sameExecution (spec existing) next) &&
     bool_decide (is_Some (nonempty (ob_creator input ≫= creator_taskId))) && negb (ob_creatorRevision input)
  then Throw "Execution selection belongs to the responsible App" else Ok tt.

(** The Task record an observed intent leaves. *)
Definition observedResource (appId : string) (input : ObserveInput) (existing : option AppTaskResource)
    (generation : Z) (sameSpec changedSpec laneChanged : bool) : AppTaskResource :=
  let intent := ob_intent input in
  let nextSpec := resourceSpec intent in
  let toHuman st := if laneChanged then with_st_lane (Some human) st else st in
  match existing with
  | Some r =>
      if sameSpec then
        if changedSpec || laneChanged || bool_decide (is_Some (ob_trigger input)) then
          bumpVersion r |> with_spec nextSpec |> with_status (with_st_updatedAt (toISOString now) (toHuman (status r)))
        else r
      else
        mkResource (mkMetadata (in_id intent)
            (Some (match md_creator (metadata r) with
                   | Some c => c
                   | None => default (mkCreator appId None) (ob_creator input)
                   end)) generation (md_resourceVersion (metadata r) + 1) (md_reopenedAfterEventId (metadata r)))
          nextSpec (toHuman (status r))
  | None =>
      mkResource (mkMetadata (in_id intent) (Some (default (mkCreator appId None) (ob_creator input))) generation 1 None)
        nextSpec
        (mkStatus 0 pending
           (if bool_decide (taskTriggerLane (ob_trigger input) = human) then Some human else None)
           None None None None (Some None) None None None None false None None None None None None (toISOString now))
  end.

(** The pending input after the observation. *)
Definition observedTriggers (input : ObserveInput) (agent : string) (previousGeneration generation : Z)
    (triggers : obj AppTaskTrigger) : res (obj AppTaskTrigger) :=
  let id := in_id (ob_intent input) in
  let triggers := match obj_get id triggers with
                  | Some t => if previousGeneration <? generation then obj_set id (with_tr_taskGeneration generation t) triggers
                              else triggers
                  | None => triggers
                  end in
  match ob_trigger input with
  | None => Ok triggers
  | Some event =>
      let previous := obj_get id triggers in
      let events := appendTaskTriggerEvent (match previous with Some t => taskTriggerEvents t | None => [] end)
                      event (toISOString now) in
      preferred ← preferredTriggerFromEvents events agent;
      Ok (obj_set id (mkTrigger id generation (match previous with Some t => tr_resourceVersion t | None => 0 end + 1)
            (Some events) preferred (toISOString now)) triggers)
  end.

(** A newly admitted message of a human waives pacing. *)
Definition isFreshHumanRequest (admissionKey : option string) (trigger : option (obj json)) : bool :=
  bool_decide (is_Some admissionKey) &&
  match trigger with
  | Some event =>
      str_is (obj_get "type" event) "app.task.requested" &&
      str_is (record_field (record_field (record_field (obj_get "data" event) "request") "source") "kind") "human"
  | None => false
  end.

(** The write set: the Task, the Conditions it names, and the admission. *)
Definition observeMutation (tree : TaskTree) (existing : option AppTaskResource) (resource : AppTaskResource)
    (ready : bool) (admission : option (string * AppTaskAdmission)) : AppTaskResourceMutation :=
  let relevant := set_of (match existing with Some r => default [] (st_conditionIds (status r)) | None => [] end ++
                          default [] (st_conditionIds (status resource))) in
  mkMutation (match existing with Some r => [resourceFence r] | None => [] end) None
    (match existing with Some _ => [] | None => [md_id (metadata resource)] end)
    [resourceWrite now tree resource ready] [] [] []
    (omap (fun id => obj_get id (conditions tree)) relevant)
    (filter (fun id => obj_get id (conditions tree) = None) relevant)
    [] [] [] (match admission with Some a => [a] | None => [] end) [] [] [] [].

(** Recording the intent in the tree that was read, and committing it. *)
Definition observeInTree (input : ObserveInput) (admissionKey : option string) (agent specHash : string) (tree : TaskTree)
    : M Observation :=
  let intent := ob_intent input in
  let existing := obj_get (in_id intent) (resources tree) in
  let previousGeneration := match existing with Some r => md_generation (metadata r) | None => 0 end in
  let sameSpec := match existing with
                  | Some r => String.eqb (appTaskSpecHash (resourceIntent r)
                                (Some (resolvedAgent tree (resourceIntent r) (ob_appAgent input)))) specHash
                  | None => false
                  end in
  let generation := if sameSpec then previousGeneration else Z.max 1 (previousGeneration + 1) in
  let nextSpec := resourceSpec intent in
  let changedSpec := match existing with Some r => negb (sameSpecText (spec r) nextSpec) | None => true end in
  appId ← gets (fun s => Ok (appId s));
  _ ← lift (match existing with Some r => checkAuthority appId input r nextSpec | None => Ok tt end);
  let laneChanged := bool_decide (taskTriggerLane (ob_trigger input) = human) &&
                     negb (bool_decide (existing ≫= (fun r => st_lane (status r)) = Some human)) in
  let changed := bool_decide (existing = None) || negb (Z.eqb generation previousGeneration) || changedSpec || laneChanged in
  let resource := observedResource appId input existing generation sameSpec changedSpec laneChanged in
  triggers ← lift (observedTriggers input agent previousGeneration generation (taskTriggers tree));
  let resource := if isFreshHumanRequest admissionKey (ob_trigger input)
                  then touchResource now (fun st => st |> with_st_executionRetryAt None |> with_st_freshHumanInput true) resource
                  else resource in
  let tree := tree |> with_taskTriggers triggers |> with_resources (obj_set (in_id intent) resource (resources tree)) in
  ready ← lift (isRunnableOnPassiveResync now tree resource);
  let admission := (fun key => (key, mkAdmission (in_id intent) generation specHash (toISOString now) (ob_trigger input)
                      None None None None None)) <$> admissionKey in
  _ ← commitMutation now (observeMutation tree existing resource ready admission);
  mret (mkObservation (in_id intent) generation changed).

(** A key that was used before: the same work is observed again, other work is
    refused. *)
Definition replayedAdmission (tree : TaskTree) (input : ObserveInput) (agent : string) (admissionKey : option string)
    : res (option AppTaskResource) :=
  match admissionKey ≫= fun key => obj_get key (appTaskAdmissions tree) with
  | None => Ok None
  | Some previous =>
      if negb (String.eqb (adm_taskId previous) (in_id (ob_intent input))) ||
         negb (matchesAppTaskSpecHash (ob_intent input) agent (adm_specHash previous))
      then Throw ("Task admission key " +:+ default "" admissionKey +:+ " was already used for different desired work")
      else Ok (obj_get (adm_taskId previous) (resources tree))
  end.

Definition observeAppTaskIntent (input : ObserveInput) : M Observation :=
  intent ← lift (normalizeTaskAgent (ob_intent input) ("Task " +:+ in_id (ob_intent input)));
  let input := mkObserve intent (ob_appAgent input) (ob_trigger input) (ob_admissionKey input) (ob_creator input)
                 (ob_creatorRevision input) in
  _ ← lift (validateIntent intent);
  cancelled ← gets (fun s => Ok (isCancelled s (in_id intent)));
  if (cancelled : bool) then
    throws ("Cannot admit input for closed or cancelled task " +:+ in_id intent +:+ "; explicit reopening is required")
  else
  let admissionKey := trim <$> ob_admissionKey input in
  if bool_decide (admissionKey = Some "") then throws "Task admission key must be non-empty when provided"
  else
  tree ← readContext (in_id intent :: spec_parentId (in_spec intent) :: default [] (spec_dependsOn (in_spec intent)))
           (match admissionKey with Some k => [k] | None => [] end) [];
  let reopened := obj_get (in_id intent) (resources tree) in
  match reopened, taskEventPredatesReopening reopened (ob_trigger input) with
  | Some r, true => mret (mkObservation (in_id intent) (md_generation (metadata r)) false)
  | _, _ =>
      _ ← lift (validateParentReference tree (in_id intent) (spec_parentId (in_spec intent)));
      let agent := resolvedAgent tree intent (ob_appAgent input) in
      replayed ← lift (replayedAdmission tree input agent admissionKey);
      match replayed with
      | Some current => mret (mkObservation (md_id (metadata current)) (md_generation (metadata current)) false)
      | None => observeInTree input admissionKey agent (appTaskSpecHash intent (Some agent)) tree
      end
  end.

(** ** Wakes *)

Inductive TriggerRecord : Type := recorded | duplicate | missing | closed_task.

(** The mutation of one wake: the fence is the version that was read. *)
Definition wakeMutation (tree : TaskTree) (before after : AppTaskResource) : AppTaskResourceMutation :=
  mkMutation [resourceFence before] None [] [resourceWrite now tree after true] [] [] [] [] [] [] [] [] [] [] [] [] [].

Definition recordAppTaskTrigger (taskId : string) (event : obj json) : M TriggerRecord :=
  tree ← readNarrow taskId;
  cancelled ← gets (fun s => Ok (isCancelled s taskId));
  known ← gets (fun s => Ok (hasTaskEvent s taskId event));
  match obj_get taskId (resources tree) with
  | None => mret missing
  | Some resource =>
      if (cancelled : bool) then mret closed_task
      else if taskEventPredatesReopening (Some resource) (Some event) then mret duplicate
      else
        let previous := obj_get taskId (taskTriggers tree) in
        let queued := pendingOf tree taskId in
        if (known : bool) then mret (if existsb (sameIdentity event) queued then recorded else duplicate)
        else
          let change := appendChange queued event (toISOString now) in
          if bool_decide (change = None) && match previous ≫= tr_events with Some (_ :: _) => true | _ => false end
          then mret recorded
          else
            let events := default queued change in
            let agent := resolvedAgent tree (resourceIntent resource) (cx_agent config) in
            next ← lift (preferredTriggerFromEvents events agent);
            let trigger := mkTrigger taskId (md_generation (metadata resource))
              (match previous with Some t => tr_resourceVersion t | None => 0 end + 1) (Some events) next (toISOString now) in
            let after := bumpVersion resource in
            let tree := tree |> with_taskTriggers (obj_set taskId trigger (taskTriggers tree))
                             |> with_resources (obj_set taskId after (resources tree)) in
            _ ← commitMutation now (wakeMutation tree resource after);
            mret recorded
  end.

(** ** Reads *)

Definition readAppTaskIntent (s : store) (taskId : string) : option AppTaskIntent :=
  resourceIntent <$> readTask s taskId.

Definition readAppTaskAgent (s : store) (taskId : string) : res (option string) :=
  tree ← Context.readTaskContext s (Context.mkInput [taskId] [] [] false (Some 0));
  Ok ((fun r => resolvedAgent tree (resourceIntent r) (cx_agent config)) <$> obj_get taskId (resources tree)).

Definition isAppTaskConverged (s : store) (taskId : string) (generation : option Z) : bool :=
  match readTask s taskId with
  | Some r =>
      Z.eqb (default (md_generation (metadata r)) generation) (md_generation (metadata r)) &&
      bool_decide (st_phase (status r) = converged) &&
      Z.eqb (st_observedGeneration (status r)) (md_generation (metadata r))
  | None => false
  end.

Definition readAppTaskTrigger (s : store) (taskId : string) : option (obj json) :=
  match readTrigger s taskId with
  | Some wake => Some (tr_event wake)
  | None =>
      match nonempty (readTask s taskId ≫= fun r => st_currentAttemptId (status r)) ≫= readAttempt s with
      | Some attempt => if bool_decide (att_state attempt = at_running) then attemptTrigger attempt else None
      | None => None
      end
  end.

Definition readPendingAppTaskTrigger (s : store) (taskId : string) : option (obj json) :=
  tr_event <$> readTrigger s taskId.

End Admission.
End TaskAdmission.
