(* ===== verification/TaskLease.v ===== *)
(** Attempt leases, claim identity and the execution failure sequence
    ([src/app/core/tasks/app-task-reconciler.ts]), with the legacy sequence read
    of [src/app/core/state/app-task-resource-store.ts]. *)
From S2P Require Import Prelude Json TaskState TaskTree Transaction ResourceStore StoreInvariant StoreCommit Snapshot.
From S2P Require Import Context Approval Conditions Records Time TaskInputs TaskEvents TaskIntent TaskMutation.
From S2P Require Import TaskOutcome.

Module TaskLease.
Import ResourceStore TaskTree TaskInputs TaskEvents TaskIntent Time TaskMutation TaskOutcome.

(** ** Handlers *)

Definition managedAgentHandler (agent : string) : string := "agent:" +:+ agent.

(** Also accepts the vocabulary of older attempts. *)
Definition isManagedAgentHandler (handler : string) : bool := startsWith handler "agent:" || startsWith handler "owner:".

(** ** Leases *)

(** [Math.min] and [Math.max] of numbers that are not NaN, and adding an integer. *)
Definition number_min (a b : number) : number := if number_ltb b a then b else a.
Definition number_max (a b : number) : number := if number_ltb a b then b else a.
Definition number_add (n : number) (z : Z) : number := match n with Fin q => Fin (q + inject_Z z) | _ => n end.

Definition APP_TASK_ATTEMPT_LEASE_DURATION_MS : Z := 15 * 60000.

(** The moment of an activity: at most a second ahead of the clock. *)
Definition boundedActivity (now : Z) (nowMs : number) : Z :=
  match nowMs with Fin _ => Z.max 0 (Z.min (number_to_Z nowMs) (now + 1000)) | _ => now end.

(** [boundedLeaseTimes]: last activity and expiry. *)
Definition boundedLeaseTimes (now : Z) (nowMs : number) : string * string :=
  let activityMs := boundedActivity now nowMs in
  (toISOString activityMs, toISOString (activityMs + APP_TASK_ATTEMPT_LEASE_DURATION_MS)).

Record AttemptSessionActivity : Type := mkActivity { sa_sessionId : string; sa_lastActivityAt : option number }.

Definition leaseIsFresh (attempt : AppTaskAttempt) (nowMs : Z) (activity : option AttemptSessionActivity) : bool :=
  match att_lease attempt with
  | None => false
  | Some lease =>
      if negb (String.eqb (lease_runtimeId lease) (att_runtimeId attempt)) ||
         negb (bool_decide (lease_sessionId lease = att_sessionId attempt)) then false
      else if isFinite (Date_parse (lease_expiresAt lease)) && number_ltb (num nowMs) (Date_parse (lease_expiresAt lease))
      then true
      else match nonempty (att_sessionId attempt), activity with
           | Some sessionId, Some a =>
               match sa_lastActivityAt a with
               | Some (Fin _ as at_) =>
                   String.eqb (sa_sessionId a) sessionId &&
                   number_ltb (num nowMs)
                     (number_add (number_max (num 0) (number_min at_ (num (nowMs + 1000)))) APP_TASK_ATTEMPT_LEASE_DURATION_MS)
               | _ => false
               end
           | _, _ => false
           end
  end.

(** [leaseUuid] is the id a new lease gets. *)
Definition refreshAttemptLease (leaseUuid : string) (now : Z) (nowMs : number) (sessionId : option string)
    (attempt : AppTaskAttempt) : AppTaskAttempt :=
  let '(lastActivityAt, expiresAt) := boundedLeaseTimes now nowMs in
  with_att_lease (Some (mkLease
    (match att_lease attempt with Some l => lease_id l | None => leaseUuid end)
    (match att_lease attempt with Some l => lease_version l | None => 0 end + 1)
    lastActivityAt expiresAt (att_runtimeId attempt) (nonempty sessionId))) attempt.

(** ** Claims *)

(** [TaskAttempt["previousAttempt"]]: what the next attempt is told about the last one. *)
Record PreviousAttemptFacts : Type := mkPreviousFacts {
  pf_attemptId : string;
  pf_generation : Z;
  pf_state : AttemptState;
  pf_summary : option string;
  pf_failureReason : option string;
  pf_sessionId : option string;
  pf_workspacePath : option string;
  pf_unacceptedResult : option json;
  pf_acceptedResult : option AcceptedResult }.

(** The accepted result without its acceptance basis and live events. *)
Definition previousAttemptFacts (attempt : AppTaskAttempt) : PreviousAttemptFacts :=
  mkPreviousFacts (att_id attempt) (att_taskGeneration attempt) (att_state attempt)
    (nonempty (att_summary attempt)) (nonempty (att_failureReason attempt)) (nonempty (att_sessionId attempt))
    (ws_path <$> att_workspace attempt) (att_unacceptedResult attempt)
    ((fun r => mkAccepted (ar_state r) (ar_reviewAt r) (ar_continue r) false (ar_summary r) (nonempty (ar_response r))
        (ar_result r) (ar_facts r) None None (ar_inputKeys r)) <$> att_acceptedResult attempt).

Record Handoff : Type := mkHandoff { ho_summary : string; ho_facts : list string }.

Record AppTaskClaim : Type := mkClaim {
  clm_taskId : string;
  clm_generation : Z;
  clm_resourceVersion : Z;
  clm_specHash : string;
  clm_attemptId : string;
  clm_agent : string;
  clm_handler : string;
  clm_intent : AppTaskIntent;
  clm_events : list AppTaskTriggerEvent;
  clm_eventsTruncated : bool;
  clm_continuedInputKeys : list string;
  clm_previousAttempt : option PreviousAttemptFacts;
  clm_trigger : obj json;
  clm_declaredOutputPaths : list (list string);
  clm_handoff : option Handoff }.

Definition claimRef (c : AppTaskClaim) : ClaimRef := mkClaimRef (clm_taskId c) (clm_attemptId c) (clm_generation c).

(** The attempt of a claim is still the Task's running one. *)
Definition matchingClaimAttempt (resource : option AppTaskResource) (attempt : option AppTaskAttempt) (claim : AppTaskClaim)
    : option (AppTaskResource * AppTaskAttempt) :=
  match resource, attempt with
  | Some resource, Some attempt =>
      if bool_decide (st_currentAttemptId (status resource) = Some (clm_attemptId claim)) &&
         bool_decide (att_state attempt = at_running) && Z.eqb (att_taskGeneration attempt) (clm_generation claim) &&
         String.eqb (att_handler attempt) (clm_handler claim) && String.eqb (att_specHash attempt) (clm_specHash claim)
      then Some (resource, attempt) else None
  | _, _ => None
  end.

Definition matchingTaskAttempt (tree : TaskTree) (claim : AppTaskClaim) : option (AppTaskResource * AppTaskAttempt) :=
  let resource := obj_get (clm_taskId claim) (resources tree) in
  if bool_decide ((fun r => md_generation (metadata r)) <$> resource = Some (clm_generation claim))
  then matchingClaimAttempt resource (obj_get (clm_attemptId claim) (attempts tree)) claim else None.

(** [AppTaskActionStaleError]. *)
Definition staleMessage (taskId : string) (expected current : Z) (phase : option Phase) : string :=
  match phase with
  | Some p => "Handler action for " +:+ taskId +:+ " is stale: target phase is now " +:+ phaseName p
  | None => "Handler action for " +:+ taskId +:+ " is stale: expected generation " +:+ show_Z expected +:+
            ", current " +:+ show_Z current
  end.

Definition assertAppTaskClaimCurrent (s : store) (claim : AppTaskClaim) : res unit :=
  let resource := readTask s (clm_taskId claim) in
  let attempt := readAttempt s (clm_attemptId claim) in
  if bool_decide (is_Some (matchingClaimAttempt resource attempt claim)) &&
     bool_decide ((fun r => md_generation (metadata r)) <$> resource = Some (clm_generation claim))
  then Ok tt
  else Throw (staleMessage (clm_taskId claim) (clm_generation claim)
    (match resource with Some r => md_generation (metadata r) | None => clm_generation claim end)
    ((fun r => st_phase (status r)) <$> resource)).

(** ** The execution failure sequence *)

Definition unsuccessful (attempt : AppTaskAttempt) : bool :=
  bool_decide (att_state attempt = at_failed) ||
  (bool_decide (att_state attempt = at_completed) &&
   bool_decide (ar_state <$> att_acceptedResult attempt = Some r_incomplete)).

(** The latest retry a person requested, by the version it was applied at. *)
Definition newerControl (a b : AppTaskControlReceipt) : Prop :=
  ctl_appliedResourceVersion b <= ctl_appliedResourceVersion a.

#[export] Instance newerControl_dec a b : Decision (newerControl a b).
Proof. unfold newerControl. apply _. Defined.

Definition latestRetry (s : store) (taskId : string) : option AppTaskControlReceipt :=
  head (merge_sort newerControl (filter (fun c => ctl_taskId c = taskId /\ ctl_action c = act_retry)
    (map snd (map_to_list (controls s))))).

(** Counting unsuccessful attempts back to the last success or retry. *)
Fixpoint countFailures (retried : option string) (rows : list AppTaskAttempt) (failures : Z) (first : option string)
    : Z * option string :=
  match rows with
  | [] => (failures, first)
  | a :: rows =>
      if bool_decide (retried = Some (att_id a)) || negb (unsuccessful a) then (failures, first)
      else countFailures retried rows (failures + 1) (Some (default (att_id a) first))
  end.

(** [rowOrder] lists attempt ids by descending row id. *)
Definition readLegacyExecutionFailureSequence (rowOrder : list string) (s : store) (taskId : string) (maximum : Z)
    : option Z * option string :=
  if maximum <=? 0 then (None, None) else
  let retried := latestRetry s taskId ≫= fun c => ctl_result c ≫= cres_previousAttemptId in
  let rows := take (Z.to_nat maximum) (filter (fun a => att_taskId a = taskId /\
      (att_state a = at_failed \/ att_state a = at_completed \/ att_failureReason a = Some "owner-stopped"))
    (omap (readAttempt s) rowOrder)) in
  let '(failures, first) := countFailures retried rows 0 None in
  (if Z.eqb failures 0 then None else Some failures, first).

Definition executionFailureSequence (rowOrder : list string) (s : store) (resource : AppTaskResource)
    : option Z * option string :=
  match st_executionFailureAttemptId (status resource) with
  | Some reference => (st_executionFailures (status resource), reference)
  | None =>
      match st_retryExhausted (status resource) with
      | Some x => (Some (re_failures x), Some (re_attemptId x))
      | None => readLegacyExecutionFailureSequence rowOrder s (md_id (metadata resource))
                  (default 0 (st_executionFailures (status resource)))
      end
  end.

Definition DEFAULT_MAX_CONSECUTIVE_FAILURES : Z := 3.

Definition configuredLimit (config : AppTaskContext) : FailureLimit :=
  default (limited (num DEFAULT_MAX_CONSECUTIVE_FAILURES)) (cx_maxConsecutiveFailures config).

Definition reaches (failures : Z) (limit : FailureLimit) : bool :=
  match limit with unlimited => false | limited n => number_leb n (num failures) end.

Definition limitValue (limit : FailureLimit) : Z := match limit with unlimited => 0 | limited n => number_to_Z n end.

(** One failed execution spends one allowance: the attempt it marks and the
    status it leaves. *)
Definition failedExecutionState (rowOrder : list string) (config : AppTaskContext) (s : store) (now : Z)
    (resource : AppTaskResource) (attempt : AppTaskAttempt) : AppTaskAttempt * (TaskStatus -> TaskStatus) :=
  let failures := default 0 (executionFailureSequence rowOrder s resource).1 + 1 in
  let limit := match st_retryExhausted (status resource) with
               | Some x => limited (num (re_limit x))
               | None => configuredLimit config
               end in
  let exhausted := reaches failures limit in
  let attempt := if exhausted
    then with_att_retryExhausted (Some (mkExhaustion (att_taskGeneration attempt) (att_id attempt) failures
           (limitValue limit) (toISOString now))) attempt
    else attempt in
  (attempt, fun st => st |> with_st_phase (if exhausted then attention else pending)
     |> with_st_executionFailures (Some failures)
     |> with_st_executionFailureAttemptId (Some (Some (att_id attempt)))
     |> with_st_retryExhausted (att_retryExhausted attempt)
     |> with_st_executionRetryAt (if exhausted || st_freshHumanInput (status resource) then None
          else Some (number_add (Date_parse (toISOString now)) (taskExecutionRetryDelay failures)))).

(** Adopting a lowered allowance, or a legacy counter, without charging a new
    failure; tells whether it wrote. *)
Definition exhaustRetainedFailures (rowOrder : list string) (config : AppTaskContext) (now : Z) (tree : TaskTree)
    (resource : AppTaskResource) : M bool :=
  let taskId := md_id (metadata resource) in
  normalized ← gets (fun s => Ok (executionFailureSequence rowOrder s resource));
  let failures := default 0 normalized.1 in
  let limit := configuredLimit config in
  let adopt st := st |> with_st_executionFailures normalized.1 |> with_st_executionFailureAttemptId (Some normalized.2) in
  if bool_decide (is_Some (st_retryExhausted (status resource))) ||
     bool_decide (is_Some (nonempty (st_currentAttemptId (status resource)))) || negb (reaches failures limit) then
    if bool_decide (st_executionFailureAttemptId (status resource) = None) then
      let scope := beginResourceMutationScopeForTasks tree [taskId] in
      _ ← commitScope now scope (updResource taskId (touchResource now adopt) tree) (fun m => m);
      mret true
    else mret false
  else
    attempt ← gets (fun s => Ok (nonempty normalized.2 ≫= readAttempt s));
    match attempt with
    | Some attempt =>
        if negb (String.eqb (att_taskId attempt) taskId) || negb (unsuccessful attempt)
        then throws ("Task " +:+ taskId +:+ " has an invalid execution failure reference")
        else
          let tree := with_attempts (obj_set (att_id attempt) attempt (attempts tree)) tree in
          let scope := beginResourceMutationScopeForTasks tree [taskId] in
          let exhausted := Some (mkExhaustion (att_taskGeneration attempt) (att_id attempt) failures (limitValue limit)
                             (toISOString now)) in
          let tree := updAttempt (att_id attempt) (fun a => bumpAttempt (with_att_retryExhausted exhausted a)) tree in
          outcome ← gets (fun s => inputOutcomeAdmissions s tree (mkClaimRef taskId (att_id attempt) (att_taskGeneration attempt))
                       (mkResultScope None (att_acceptedResult attempt ≫= ar_inputKeys) true) oc_failure);
          let tree := updResource taskId (touchResource now (fun st => adopt st |> with_st_phase attention
              |> with_st_retryExhausted exhausted |> with_st_executionRetryAt None
              |> with_st_summary (Some ("Automatic retries exhausted under current policy; owner repair or explicit retry required. "
                   +:+ default "" (att_summary attempt))))) (oc_tree outcome) in
          _ ← commitScope now scope tree (with_admissions (oc_writes outcome));
          mret true
    | None => throws ("Task " +:+ taskId +:+ " has an invalid execution failure reference")
    end.

End TaskLease.
