(* ===== verification/OutputPaths.v ===== *)
(** Declared Task outputs ([src/app/core/tasks/app-task-output-paths.ts]): an
    output is resolved against the domain workspace and must stay inside the
    App or domain directory.

    The file system is a parameter: which paths exist, and the real path of an
    existing one.  [node:path] is modelled on POSIX paths; an absolute path is
    the list of its segments. *)
From S2P Require Import Prelude Json.

(** [existsSync], [realpathSync] and the working directory. *)
Class FileSystem : Type := mkFileSystem {
  existsSync : list string -> bool;
  realpathSync : list string -> list string;
  cwd : list string }.

Module OutputPaths.

(** ** POSIX paths *)

Fixpoint split_slash (l acc : list ascii) : list string :=
  match l with
  | [] => [unchars (reverse acc)]
  | c :: l => if Ascii.eqb c "/" then unchars (reverse acc) :: split_slash l [] else split_slash l (c :: acc)
  end.

Definition isAbsolute (path : string) : bool := startsWith path "/".

(** Following segments from a directory: empty ones and [.] stay, [..] goes up. *)
Fixpoint follow (at_ : list string) (segments : list string) : list string :=
  match segments with
  | [] => at_
  | seg :: l =>
      if String.eqb seg "" || String.eqb seg "." then follow at_ l
      else if String.eqb seg ".." then follow (removelast at_) l
      else follow (at_ ++ [seg]) l
  end.

(** [resolve(base, path)]. *)
Definition resolvePath (base : list string) (path : string) : list string :=
  follow (if isAbsolute path then [] else base) (split_slash (chars path) []).

Definition render (segments : list string) : string := "/" +:+ String.concat "/" segments.

(** The common part of two paths, and what is left of each. *)
Fixpoint strip (from to : list string) : list string * list string :=
  match from, to with
  | x :: from', y :: to' => if String.eqb x y then strip from' to' else (from, to)
  | _, _ => (from, to)
  end.

(** [relative(from, to)] of two absolute paths. *)
Definition relative (from to : list string) : string :=
  let '(up, down) := strip from to in
  String.concat "/" (map (fun _ => "..") up ++ down).

Definition isWithin (root candidate : list string) : bool :=
  let fromRoot := relative root candidate in
  String.eqb fromRoot "" || (negb (startsWith fromRoot "..") && negb (isAbsolute fromRoot)).

(** ** Existing paths *)

Section Files.
Context `{FileSystem}.

(** The nearest existing ancestor, and the segments below it. *)
Fixpoint nearestExisting (rev_cursor suffix : list string) : list string * list string :=
  if existsSync (reverse rev_cursor) then (reverse rev_cursor, suffix)
  else match rev_cursor with
       | [] => ([], suffix)
       | seg :: parent => nearestExisting parent (seg :: suffix)
       end.

Definition canonicalExistingPath (path : list string) : list string :=
  let '(cursor, suffix) := nearestExisting (reverse path) [] in
  let base := if existsSync cursor then realpathSync cursor else cursor in
  follow base suffix.

Definition canonical (path : string) : list string := canonicalExistingPath (resolvePath cwd path).

(** [appTaskExecutionPaths] and [withAppTaskWorkspace]. *)
Record AppTaskExecutionPaths : Type := mkPaths {
  ep_appDir : list string;
  ep_projectDir : list string;
  ep_workspaceDir : list string }.

Definition appTaskExecutionPaths (appDir projectDir : string) : AppTaskExecutionPaths :=
  mkPaths (canonical appDir) (canonical projectDir) (canonical appDir).

Definition withAppTaskWorkspace (paths : AppTaskExecutionPaths) (workspaceDir : string) : AppTaskExecutionPaths :=
  mkPaths (ep_appDir paths) (ep_projectDir paths) (canonical workspaceDir).

(** ** Declared outputs *)

Fixpoint resolveOutputs (roots : list (list string)) (projectDir : string) (index : Z) (outputs : list string)
    : res (list (list string)) :=
  match outputs with
  | [] => Ok []
  | raw :: outputs =>
      if negb (nonblank raw) then Throw ("outputs[" +:+ show_Z index +:+ "] must be a non-empty path") else
      let candidate := canonicalExistingPath (resolvePath (resolvePath cwd projectDir) raw) in
      if existsb (fun root => isWithin root candidate) roots then
        match resolveOutputs roots projectDir (index + 1) outputs with
        | Ok rest => Ok (candidate :: rest)
        | Throw e => Throw e
        end
      else Throw ("outputs[" +:+ show_Z index +:+ "] escapes the app/domain roots: " +:+ raw)
  end.

Definition resolveAppTaskOutputPaths (outputs : list string) (appDir projectDir : string) : res (list (list string)) :=
  resolveOutputs [canonical appDir; canonical projectDir] projectDir 0 outputs.

End Files.

(** ** Lemmas *)

(** A segment of a path: not empty and without a slash. *)
Definition is_segment (s : string) : Prop := s <> "" /\ "/"%char ∉ chars s.

Lemma strip_spec from to up down :
  strip from to = (up, down) -> exists pre, from = pre ++ up /\ to = pre ++ down.
Proof.
  revert to. induction from as [|x from IH]; intros to; simpl.
  - intros [= <- <-]. by exists [].
  - destruct to as [|y to]; [intros [= <- <-]; by exists []|].
    destruct (String.eqb x y) eqn:E.
    + apply String.eqb_eq in E as ->. intros (pre & -> & ->)%IH. by exists (y :: pre).
    + intros [= <- <-]. by exists [].
Qed.

Lemma concat_starts x l : String.prefix ".." (String.concat "/" (".." :: map (fun _ : string => "..") l ++ x)) = true.
Proof. simpl. destruct (map _ l ++ x); done. Qed.

(** A path inside a root extends it. *)
Lemma isWithin_prefix root candidate : isWithin root candidate = true -> root `prefix_of` candidate.
Proof.
  unfold isWithin, relative. destruct (strip root candidate) as [up down] eqn:E.
  apply strip_spec in E as (pre & -> & ->). destruct up as [|u up].
  - intros _. rewrite app_nil_r. by apply prefix_app_r.
  - assert (forall l, String.eqb (String.concat "/" (".." :: l)) "" = false) as Hne by (by intros [|? ?]).
    cbn [map]. rewrite <- app_comm_cons. rewrite Hne. unfold startsWith. by rewrite concat_starts.
Qed.

(** Every resolved output lies in one of the two roots. *)
Lemma resolveOutputs_inside `{FileSystem} roots projectDir index outputs paths :
  resolveOutputs roots projectDir index outputs = Ok paths ->
  length paths = length outputs /\
  Forall (fun p => exists root, root ∈ roots /\ root `prefix_of` p) paths.
Proof.
  revert index paths. induction outputs as [|raw outputs IH]; intros index paths; simpl; [intros [= <-]; by split|].
  destruct (negb (nonblank raw)); [done|]. destruct (existsb _ roots) eqn:Ex; [|done].
  destruct (resolveOutputs _ _ _ outputs) as [rest|] eqn:Er; [|done]. intros [= <-].
  apply IH in Er as [Hl Hr]. split; [simpl; by rewrite Hl|]. constructor; [|done].
  apply existsb_exists in Ex as (root & Hin & Hw). exists root.
  split; [by apply list_elem_of_In | by apply isWithin_prefix].
Qed.

End OutputPaths.
