(* ===== verification/TaskClaim.v ===== *)
(** Claiming a Task ([claimObservedAppTask] of
    [src/app/core/tasks/app-task-reconciler.ts]): the one step that starts an
    attempt.  It either explains why the Task does not run now, or installs a
    running attempt with a finite lease that owns a bounded batch of the
    pending input.

    The callbacks of the caller, the generated ids and the file system are
    parameters.  [rowOrder] is the order of attempt rows in the database, which
    only the adoption of legacy failure counters uses. *)
From S2P Require Import Prelude Json TaskState TaskTree Transaction ResourceStore StoreInvariant StoreCommit Snapshot.
From S2P Require Import Context Approval Conditions Records Time TaskInputs TaskEvents TaskIntent TaskMutation.
From S2P Require Import TaskOutcome TaskLease OutputPaths.

Module TaskClaim.
Import ResourceStore TaskTree TaskInputs TaskEvents TaskIntent Time TaskMutation TaskOutcome TaskLease.

Inductive AppTaskClaimResult : Type :=
| claimed (c : AppTaskClaim)
| busy (taskId : string) (attemptId : string)
| claim_waiting (taskId : string) (conditionIds dependencyIds : list string) (retryAt : option number)
| claim_attention (taskId : string) (generation : Z) (summary : string)
| claim_completed (taskId : string) (generation : Z).

Record ClaimInput : Type := mkClaimInput {
  ci_taskId : string;
  ci_appAgent : string;
  ci_handler : string;
  ci_reason : option string;
  ci_isAgentRunnable : option (string -> bool);
  ci_recoverPreviousSession : option (AppTaskAttempt -> bool);
  ci_recoverSessionHandoff : option AppTaskAttempt -> option Handoff }.

(** The process that claims, and the ids it generates. *)
Record ClaimEnv : Type := mkClaimEnv {
  ce_runtimeId : string;
  ce_attemptUuid : string;
  ce_leaseUuid : string;
  ce_rowOrder : list string }.

Definition MAX_TASK_EVENTS_PER_ATTEMPT : nat := 32.

(** ** Choosing the batch *)

Definition isHumanEntry (e : AppTaskTriggerEvent) : bool := bool_decide (taskTriggerLane (Some (te_event e)) = human).

(** Positions of the selected events: human input first, in admission order,
    then the rest, up to the bound. *)
Definition selectPositions (events : list AppTaskTriggerEvent) : list nat :=
  let indexed := imap (fun i e => (i, e)) events in
  take MAX_TASK_EVENTS_PER_ATTEMPT
    (map fst (filter (fun x => isHumanEntry x.2 = true) indexed ++ filter (fun x => isHumanEntry x.2 = false) indexed)).

(** The last human request, which an exhausted Task has to execute. *)
Definition correctionPosition (events : list AppTaskTriggerEvent) : option nat :=
  last (map fst (filter (fun x => (str_is (obj_get "type" (te_event x.2)) "app.task.requested" && isHumanEntry x.2) = true)
    (imap (fun i e => (i, e)) events))).

Definition withCorrection (correction : option nat) (selected : list nat) : list nat :=
  match correction with
  | Some c =>
      if bool_decide (c ∈ selected) then selected
      else (if Nat.leb MAX_TASK_EVENTS_PER_ATTEMPT (length selected) then removelast selected else selected) ++ [c]
  | None => selected
  end.

Definition pickEvents (chosen : bool) (selected : list nat) (events : list AppTaskTriggerEvent) : list AppTaskTriggerEvent :=
  map snd (filter (fun x => bool_decide (x.1 ∈ selected) = chosen) (imap (fun i e => (i, e)) events)).

(** ** The batch of a claim *)

(** The input of an attempt that was not settled returns to the batch. *)
Definition previousUnacceptedEvents (previousAttempt : option AppTaskAttempt) : list AppTaskTriggerEvent :=
  match previousAttempt with
  | Some a =>
      if negb (bool_decide (att_state a = at_completed)) && negb (bool_decide (att_failureReason a = Some "owner-stopped"))
      then attemptBatch a else []
  | None => []
  end.

Section Claim.
Context `{Crypto} `{FileSystem} (config : AppTaskContext) (env : ClaimEnv) (now : Z) (input : ClaimInput).
Let taskId : string := ci_taskId input.

Definition pendingBatch (tree : TaskTree) (previousAttempt : option AppTaskAttempt) : list AppTaskTriggerEvent :=
  appendBatch (previousUnacceptedEvents previousAttempt) (pendingOf tree taskId).

(** The claimed and the remaining events. *)
Definition splitBatch (resource : AppTaskResource) (events : list AppTaskTriggerEvent)
    : list AppTaskTriggerEvent * list AppTaskTriggerEvent :=
  let correction := if bool_decide (is_Some (st_retryExhausted (status resource))) && st_freshHumanInput (status resource)
                    then correctionPosition events else None in
  let selected := withCorrection correction (selectPositions events) in
  (pickEvents true selected events, pickEvents false selected events).

(** ** Admission of the claim itself *)

Definition resolvedHandler (intent : AppTaskIntent) (agent : string) : string :=
  if String.eqb (ci_handler input) "auto" then
    match trimmed (spec_workflow (in_spec intent)) with
    | Some workflow => "workflow:" +:+ workflow
    | None =>
        match nonempty (spec_executor (in_spec intent)) with
        | Some executor => if String.eqb executor "agent" then managedAgentHandler agent else "executor:" +:+ executor
        | None => managedAgentHandler agent
        end
    end
  else if String.eqb (ci_handler input) "agent" || String.eqb (ci_handler input) "owner" then managedAgentHandler agent
  else ci_handler input.

(** Declared outputs and the agent must be admissible. *)
Definition claimAdmission (intent : AppTaskIntent) (agent : string) : res (list (list string)) :=
  match OutputPaths.resolveAppTaskOutputPaths (default [] (spec_outputs (in_spec intent))) (cx_appDir config) (cx_projectDir config) with
  | Throw e => Throw ("Task output admission failed: " +:+ e)
  | Ok paths =>
      match ci_isAgentRunnable input with
      | Some runnable => if runnable agent then Ok paths else Throw ("Resolved agent " +:+ agent +:+ " is not a runnable agent")
      | None => Ok paths
      end
  end.

(** A retained session must be drained before its attempt is replaced. *)
Definition recoverSession (previousAttempt : AppTaskAttempt) : res unit :=
  match nonempty (att_sessionId previousAttempt) with
  | None => Ok tt
  | Some _ =>
      match ci_recoverPreviousSession input with
      | None => Throw "Task session recovery is unavailable; retained session ownership cannot be replaced safely"
      | Some recover =>
          if recover previousAttempt then Ok tt
          else Throw "Task session recovery was not confirmed; retained session ownership cannot be replaced safely"
      end
  end.

Definition failWith (reason : string) (a : AppTaskAttempt) : AppTaskAttempt := with_att_failureReason (Some reason) a.

(** A running Task without a running attempt is pending again; the attempt it
    named is marked. *)
Definition repairRunning (resource : AppTaskResource) (tree : TaskTree) : TaskTree * option string :=
  let attemptId := nonempty (st_currentAttemptId (status resource)) in
  let stale := attemptId ≫= fun id => if obj_has id (attempts tree) then Some id else None in
  let summary := match attemptId with
    | Some id => "Running reconciliation " +:+ taskId +:+ " referenced missing or non-running attempt " +:+ id +:+
                 "; retrying from current task facts"
    | None => "Running reconciliation " +:+ taskId +:+ " had no current attempt; retrying from current task facts"
    end in
  let mark a := bumpAttempt a |> failWith "running-without-current-attempt-requeued" |> with_att_summary (Some summary)
                |> with_att_finishedAt (Some (default (toISOString now) (att_finishedAt a))) in
  let tree := match stale with Some id => updAttempt id mark tree | None => tree end in
  (updResource taskId (touchResource now (fun st => st |> with_st_phase pending |> with_st_currentAttemptId None
     |> with_st_summary (Some summary))) tree, stale).

(** ** Waiting *)

Definition acknowledgeIndexedRecoveryWait (expectedRevision : Z) (nextCheckAt : option Z) : M unit :=
  _ ← (setRecoveryState now taskId (mkRecovery (Some false) (Some false) (Some nextCheckAt) (Some expectedRevision)) : M bool);
  mret tt.

(** A capability failure does not withdraw the assignment: it is rechecked
    after a backoff. *)
Definition refuseClaim (scope : ResourceMutationScope) (tree : TaskTree) (previousAttempt : option AppTaskAttempt)
    (canRecover : bool) (summary : string) : M AppTaskClaimResult :=
  match previousAttempt, canRecover with
  | Some a, false => mret (busy taskId (att_id a))
  | _, _ =>
      _ ← lift (match previousAttempt with Some a => recoverSession a | None => Ok tt end);
      let tree := match previousAttempt with
                  | Some a => updAttempt (att_id a) (failWith "previous-runtime-attempt-requeued")
                                (finishAttempt taskId at_interrupted summary now tree)
                  | None => tree
                  end in
      let failures := match obj_get taskId (resources tree) with
                      | Some r => default 0 (st_admissionFailures (status r))
                      | None => 0
                      end + 1 in
      let generation := match obj_get taskId (resources tree) with Some r => md_generation (metadata r) | None => 0 end in
      let tree := updResource taskId (touchResource now (fun st => st |> with_st_phase pending
          |> with_st_admissionFailures (Some failures)
          |> with_st_executionRetryAt (Some (num (now + taskAdmissionRetryDelay failures)))
          |> with_st_freshHumanInput false |> with_st_observedGeneration generation
          |> with_st_currentAttemptId None |> with_st_summary (Some summary))) tree in
      _ ← commitScope now scope tree (fun m => m);
      mret (claim_attention taskId generation summary)
  end.

(** The reasons for which a Task is not claimed now, in the order of the code. *)
Definition notClaimable (tree : TaskTree) (resource : AppTaskResource) (intent : AppTaskIntent) (snapshotRevision : Z)
    : M (option AppTaskClaimResult) :=
  let generation := md_generation (metadata resource) in
  let upToDate := generation <=? st_observedGeneration (status resource) in
  let idle := negb (obj_has taskId (taskTriggers tree)) in
  let openConditionIds := openTaskConditionIds tree taskId in
  let reviewAt := acceptedTaskReviewAt resource in
  let reviewDue := match reviewAt with Some r => r <=? now | None => false end in
  if bool_decide (st_phase (status resource) = converged) && upToDate && idle then
    mret (Some (claim_completed taskId generation))
  else if bool_decide (st_phase (status resource) = attention) && upToDate && idle && negb (hasLegacyWorkflowHandoff tree resource) then
    mret (Some (claim_attention taskId generation
      (default "Task is waiting for agent/reviewer attention" (st_summary (status resource)))))
  else match unmetDependencies tree intent with
       | _ :: _ =>
           _ ← acknowledgeIndexedRecoveryWait snapshotRevision None;
           mret (Some (claim_waiting taskId [] (unmetDependencies tree intent) None))
       | [] =>
           if bool_decide (st_phase (status resource) = waiting) && upToDate &&
              (negb (Nat.eqb (length openConditionIds) 0) || bool_decide (is_Some reviewAt)) && idle &&
              negb (hasSatisfiedTaskCondition tree taskId) && negb reviewDue
           then
             _ ← acknowledgeIndexedRecoveryWait snapshotRevision (nextTaskCheckAt now tree resource);
             mret (Some (claim_waiting taskId openConditionIds [] None))
           else mret None
       end.

(** ** The new attempt *)

(** The event that stands for a review that fell due. *)
Definition reviewTrigger (reviewAt : option Z) : obj json :=
  let project := projectName (cx_appDir config) in
  obj_set "data" (JObj ([("project", JStr project); ("taskId", JStr taskId); ("task_id", JStr taskId);
      ("reason", JStr "review-at-reached")] ++
      match reviewAt with Some r => [("reviewAt", JNum (num r))] | None => [] end ++
      [("synthetic", JStr "controller-review-trigger")]))
    (obj_set "type" (JStr "project.task.review-at.reached")
       (syntheticAttemptTrigger (cx_appDir config) taskId (Some "review-at-reached"))).

Definition claimTrigger (resource : AppTaskResource) (previousAttempt : option AppTaskAttempt)
    (claimedEvents : list AppTaskTriggerEvent) (agent : string) : obj json :=
  let reviewAt := acceptedTaskReviewAt resource in
  match claimedEvents with
  | first :: rest => preferredFrom first rest agent
  | [] =>
      match previousAttempt ≫= attemptTrigger with
      | Some trigger => trigger
      | None =>
          if match reviewAt with Some r => r <=? now | None => false end then reviewTrigger reviewAt
          else syntheticAttemptTrigger (cx_appDir config) taskId (ci_reason input)
      end
  end.

Definition newAttemptId (generation : Z) : string := "r_" +:+ show_Z generation +:+ "_" +:+ ce_attemptUuid env.

Definition newAttempt (resource : AppTaskResource) (specHash agent handler : string) (priorFacts : option AppTaskAttempt)
    (claimedEvents remainingEvents : list AppTaskTriggerEvent) (continuedInputKeys : list string) (trigger : obj json)
    : AppTaskAttempt :=
  let generation := md_generation (metadata resource) in
  refreshAttemptLease (ce_leaseUuid env) now (num now) None
    (mkAttempt (newAttemptId generation) 1 taskId generation specHash agent handler None (ce_runtimeId env) at_running
       (default "event" (ci_reason input)) None
       (match claimedEvents with [] => None | l => Some l end)
       (match remainingEvents with [] => None | _ => Some true end)
       (match continuedInputKeys with [] => None | l => Some l end) None
       (match claimedEvents with [] => Some trigger | _ => None end)
       (toISOString now) None None None None (priorFacts ≫= att_unacceptedResult) None None None None).

(** The batch that stays pending. *)
Definition remainingTriggers (remainingEvents : list AppTaskTriggerEvent) (agent : string) (triggers : obj AppTaskTrigger)
    : obj AppTaskTrigger :=
  match remainingEvents, obj_get taskId triggers with
  | first :: rest, Some t =>
      obj_set taskId (mkTrigger (tr_taskId t) (tr_taskGeneration t) (tr_resourceVersion t) (Some (first :: rest))
        (preferredFrom first rest agent) (lastObserved (first :: rest) (tr_observedAt t))) triggers
  | _, _ => obj_delete taskId triggers
  end.

(** The write set of a claim: fenced on the Task that was read, and only while
    the App executes. *)
Definition claimMutation (fence : TaskMutationFence) (tree : TaskTree) (resource : AppTaskResource)
    (initialConditionIds : list string) (changed : list AppTaskAttempt) : AppTaskResourceMutation :=
  let relevant := set_of (initialConditionIds ++ default [] (st_conditionIds (status resource))) in
  mkMutation [fence] (Some taskId) [] [resourceWrite now tree resource false] [] changed []
    (omap (fun id => obj_get id (conditions tree)) relevant)
    (filter (fun id => obj_get id (conditions tree) = None) relevant) [] [] [] [] [] [] [] [].

(** The commit of a claim; an App paused meanwhile makes it a wait. *)
Definition commitClaim (m : AppTaskResourceMutation) (result : AppTaskClaimResult) : M AppTaskClaimResult := fun s =>
  match commitMutation now m s with
  | (Ok _, s) => (Ok result, s)
  | (Throw e, s) =>
      if String.eqb e STALE && negb (allowsTaskExecution s taskId) then (Ok (claim_waiting taskId [] [] None), s)
      else (Throw e, s)
  end.

(** The attempt object as the tree holds it now. *)
Definition current (tree : TaskTree) (a : AppTaskAttempt) : AppTaskAttempt := default a (obj_get (att_id a) (attempts tree)).

(** Installing the attempt in the tree and committing it. *)
Definition installAttempt (fence : TaskMutationFence) (initialConditionIds : list string) (tree : TaskTree)
    (resource : AppTaskResource) (intent : AppTaskIntent) (agent : string) (paths : list (list string))
    (previousAttempt priorFacts : option AppTaskAttempt) (canRecover : bool) (stale : option string)
    (claimedEvents remainingEvents : list AppTaskTriggerEvent) : M AppTaskClaimResult :=
  let satisfied := map fst (filter (fun e => isSatisfied e.2 = true) (taskConditionEntries tree taskId)) in
  let continuedInputKeys := continuedTaskInputKeys tree taskId now claimedEvents satisfied in
  let generation := md_generation (metadata resource) in
  let trigger := claimTrigger resource previousAttempt claimedEvents agent in
  let replaced := if canRecover then previousAttempt else None in
  _ ← lift (match replaced with Some a => recoverSession (current tree a) | None => Ok tt end);
  let tree := match replaced with
              | Some a => updAttempt (att_id a) (failWith "previous-runtime-attempt-requeued")
                  (finishAttempt taskId at_interrupted "Previous runtime attempt was superseded during recovery" now tree)
              | None => tree
              end in
  let priorFacts := current tree <$> priorFacts in
  let handoff := ci_recoverSessionHandoff input (match replaced with Some a => Some (current tree a) | None => priorFacts end) in
  let specHash := appTaskSpecHash intent (Some agent) in
  let handler := resolvedHandler intent agent in
  let attempt := newAttempt resource specHash agent handler priorFacts claimedEvents remainingEvents continuedInputKeys trigger in
  let tree := tree |> with_attempts (obj_set (att_id attempt) attempt (attempts tree))
                   |> with_taskTriggers (remainingTriggers remainingEvents agent (taskTriggers tree))
                   |> updResource taskId (touchResource now (fun st => st |> with_st_phase running
                        |> with_st_currentAttemptId (Some (att_id attempt)) |> with_st_admissionFailures None
                        |> with_st_executionRetryAt None |> with_st_freshHumanInput false)) in
  match obj_get taskId (resources tree) with
  | None => throws "unreachable: the claimed Task was read"
  | Some after =>
      let old := omap (fun id => obj_get id (attempts tree)) (omap id [stale; att_id <$> replaced]) in
      commitClaim (claimMutation fence tree after initialConditionIds (old ++ [attempt]))
        (claimed (mkClaim taskId generation (md_resourceVersion (metadata after)) specHash (att_id attempt) agent handler
           intent claimedEvents (negb (Nat.eqb (length remainingEvents) 0)) continuedInputKeys
           (previousAttemptFacts <$> priorFacts) trigger paths handoff))
  end.

(** ** The claim *)

(** The part after the retry allowance was checked. *)
Definition claimRunnable (snapshotRevision : Z) (tree : TaskTree) (resource : AppTaskResource) : M AppTaskClaimResult :=
  let fence := resourceFence resource in
  let scope := beginResourceMutationScopeForTasks tree [taskId] in
  let initialConditionIds := default [] (st_conditionIds (status resource)) in
  let intent := resourceIntent resource in
  let agent := resolvedAgent tree intent (ci_appAgent input) in
  let latest := latestTaskAttempt tree taskId (Some (md_generation (metadata resource))) in
  let priorFacts := match latest with Some a => Some a | None => latestTaskAttempt tree taskId None end in
  previousAttempt ← lift (currentResourceAttempt tree resource);
  let '(tree, stale) :=
    if bool_decide (st_phase (status resource) = running) && bool_decide (previousAttempt = None)
    then repairRunning resource tree else (tree, None) in
  let canRecover := match previousAttempt with
    | Some a => negb (String.eqb (att_runtimeId a) (ce_runtimeId env)) &&
                (bool_decide (ci_reason input = Some ("attempt-recovery:" +:+ taskId)) || bool_decide (is_Some (attemptTrigger a)))
    | None => false
    end in
  match claimAdmission intent agent with
  | Throw summary => refuseClaim scope tree previousAttempt canRecover summary
  | Ok paths =>
      let '(claimedEvents, remainingEvents) := splitBatch resource (pendingBatch tree previousAttempt) in
      let hasTrigger := obj_has taskId (taskTriggers tree) || bool_decide (is_Some (previousAttempt ≫= attemptTrigger)) in
      let tree := match previousAttempt with
        | Some a =>
            if canRecover && negb hasTrigger then
              let summary := "Previous runtime attempt had no persisted trigger; retrying from current task facts" in
              finishAttempt taskId at_interrupted summary now tree
              |> updAttempt (att_id a) (fun a => failWith "previous-runtime-attempt-requeued" (bumpAttempt a))
              |> updResource taskId (touchResource now (fun st => st |> with_st_phase pending
                   |> with_st_currentAttemptId None |> with_st_summary (Some summary)))
            else tree
        | None => tree
        end in
      match obj_get taskId (resources tree) with
      | None => throws "unreachable: the claimed Task was read"
      | Some resource =>
          let go :=
            reason ← notClaimable tree resource intent snapshotRevision;
            match reason with
            | Some result => mret result
            | None => installAttempt fence initialConditionIds tree resource intent agent paths previousAttempt priorFacts
                        canRecover stale claimedEvents remainingEvents
            end in
          match previousAttempt with
          | Some a => if bool_decide (st_phase (status resource) = running) && negb canRecover then mret (busy taskId (att_id a))
                      else go
          | None => go
          end
      end
  end.

(** One pass; [None] asks for another one after a retained failure sequence
    was adopted. *)
Definition claimPass : M (option AppTaskClaimResult) :=
  snapshotRevision ← gets (fun s => Ok (revision s));
  tree ← readContext [taskId] [] [];
  let found := obj_get taskId (resources tree) in
  cancelled ← gets (fun s => Ok (isCancelled s taskId));
  if (cancelled : bool) then
    mret (Some (claim_completed taskId (match found with Some r => md_generation (metadata r) | None => 0 end)))
  else match found with
  | None => mret (Some (claim_completed taskId 0))
  | Some resource =>
      persisted ← gets (fun s => Ok (nonempty (st_currentAttemptId (status resource)) ≫= readAttempt s));
      allowed ← gets (fun s => Ok (allowsTaskExecution s taskId));
      match persisted with
      | Some a =>
          if negb (String.eqb (att_taskId a) taskId) then
            throws ("Task " +:+ taskId +:+ " current attempt " +:+ att_id a +:+ " belongs to " +:+ att_taskId a +:+
                    "; refusing cross-Task recovery")
          else mret tt
      | None => mret tt
      end;;
      if negb allowed then mret (Some (claim_waiting taskId [] [] None)) else
      adopted ← exhaustRetainedFailures (ce_rowOrder env) config now tree resource;
      if (adopted : bool) then mret None
      else if taskExecutionRetryExhausted resource then
        active ← lift (currentResourceAttempt tree resource);
        match active with
        | Some a => mret (Some (busy taskId (att_id a)))
        | None =>
            _ ← acknowledgeIndexedRecoveryWait snapshotRevision (nextTaskCheckAt now tree resource);
            mret (Some (claim_attention taskId (md_generation (metadata resource))
              (default "Automatic retries exhausted; owner repair or explicit retry required" (st_summary (status resource)))))
        end
      else match pendingTaskExecutionRetryAt resource now with
      | Some retryAt =>
          _ ← acknowledgeIndexedRecoveryWait snapshotRevision (Some (number_to_Z retryAt));
          mret (Some (claim_waiting taskId [] [] (Some retryAt)))
      | None => result ← claimRunnable snapshotRevision tree resource; mret (Some result)
      end
  end.

(** The recursion of the code: a pass that adopted is followed by another. *)
Fixpoint claimLoop (fuel : nat) : M (option AppTaskClaimResult) :=
  match fuel with
  | O => mret None
  | S fuel =>
      result ← claimPass;
      match result with Some r => mret (Some r) | None => claimLoop fuel end
  end.

(** Adoption writes once, so the second pass decides. *)
Definition claimObservedAppTask : M (option AppTaskClaimResult) := claimLoop 2.

End Claim.
End TaskClaim.
