(* ===== verification/TaskContract.v ===== *)
(** The contract between a worker and the Host
    ([packages/sdk/src/task-contract.ts], with the Request updates of
    [conversation-contract.ts] and [app-input.ts]): the schemas a result is
    checked against and its normalization.

    [Check] and [Errors] of the package typebox are parameters.  A schema is a
    value of [schema]; [validates] is the meaning JSON Schema documents for the
    keywords these schemas use, and [SchemaLaws] says that [Check] has it. *)
From S2P Require Import Prelude Json TaskState TaskTree Records.

(** ** Schemas *)

Inductive schema : Type :=
| SUnknown
| SBoolean
| SLiteral (v : json)
| SString (minLength maxLength : option nat) (pattern : option (string -> bool))
| SInteger (minimum maximum : option Z)
| SArray (items : schema) (minItems maxItems : option nat) (uniqueItems : bool)
| SObject (properties : list (string * (bool * schema))) (additionalProperties : bool)
| SUnion (l : list schema).

Definition within_length {A} (minLength maxLength : option nat) (l : list A) : bool :=
  match minLength with Some n => Nat.leb n (length l) | None => true end &&
  match maxLength with Some n => Nat.leb (length l) n | None => true end.

Fixpoint all_distinct (l : list json) : bool :=
  match l with [] => true | v :: l => negb (existsb (deep_eqb v) l) && all_distinct l end.

(** The documented meaning of the keywords. *)
Fixpoint validates (s : schema) (v : json) {struct s} : bool :=
  match s with
  | SUnknown => true
  | SBoolean => match v with JBool _ => true | _ => false end
  | SLiteral w => deep_eqb v w
  | SString minLength maxLength pattern =>
      match v with
      | JStr t => within_length minLength maxLength (chars t) && match pattern with Some p => p t | None => true end
      | _ => false
      end
  | SInteger minimum maximum =>
      match v with
      | JNum n => isInteger n && match minimum with Some m => number_leb (num m) n | None => true end &&
                  match maximum with Some m => number_leb n (num m) | None => true end
      | _ => false
      end
  | SArray items minItems maxItems unique =>
      match v with
      | JArr l => forallb (validates items) l && within_length minItems maxItems l && (negb unique || all_distinct l)
      | _ => false
      end
  | SObject properties additional =>
      match v with
      | JObj o =>
          (fix go (ps : list (string * (bool * schema))) : bool :=
             match ps with
             | [] => true
             | (k, (required, s)) :: ps =>
                 match obj_get k o with Some w => validates s w | None => negb required end && go ps
             end) properties &&
          (additional || forallb (fun k => set_has k (map fst properties)) (obj_keys o))
      | _ => false
      end
  | SUnion l => (fix go (l : list schema) : bool := match l with [] => false | s :: l => validates s v || go l end) l
  end.

(** typebox: whether a value fits, and the first error of one that does not. *)
Class SchemaChecker : Type := {
  Check : schema -> json -> bool;
  firstError : schema -> json -> option (string * string) }.

Class SchemaLaws `{SchemaChecker} : Prop := Check_validates : forall s v, Check s v = validates s v.

Module TaskContract.

(** ** Patterns *)

Definition is_kind_start (c : ascii) : bool := let n := chr c in ((65 <=? n) && (n <=? 90)) || ((97 <=? n) && (n <=? 122)).
Definition is_kind_rest (c : ascii) : bool :=
  let n := chr c in is_kind_start c || ((48 <=? n) && (n <=? 57)) || (n =? 95) || (n =? 46) || (n =? 45).

Fixpoint drop_while {A} (p : A -> bool) (l : list A) : list A :=
  match l with c :: l' => if p c then drop_while p l' else l | [] => [] end.

(** [^\s*[A-Za-z][A-Za-z0-9_.-]*:[\s\S]*\S\s*$]: a kind, a colon and a value
    that is not blank. *)
Definition isTypedConditionSubject (subject : string) : bool :=
  match drop_ws (chars subject) with
  | c :: l =>
      is_kind_start c &&
      match drop_while is_kind_rest l with
      | ":"%char :: value => existsb (fun c => negb (is_ws c)) value
      | _ => false
      end
  | [] => false
  end.

Definition is_lower (c : ascii) : bool := let n := chr c in (97 <=? n) && (n <=? 122).
Definition is_owner_rest (c : ascii) : bool :=
  let n := chr c in is_lower c || ((48 <=? n) && (n <=? 57)) || (n =? 45).

(** [[a-z][a-z0-9-]*:[^\s:]+]. *)
Definition isKindIdentity (l : list ascii) : bool :=
  match l with
  | c :: l =>
      is_lower c &&
      match drop_while is_owner_rest l with
      | ":"%char :: (_ :: _) as v => forallb (fun c => negb (is_ws c) && negb (Ascii.eqb c ":")) (tail v)
      | _ => false
      end
  | [] => false
  end.

(** [^\s*(?:human|[a-z][a-z0-9-]*:[^\s:]+)\s*$]. *)
Definition conditionOwnerPattern (s : string) : bool :=
  String.eqb (trim s) "human" || isKindIdentity (chars (trim s)).

Definition hasNonBlank (s : string) : bool := existsb (fun c => negb (is_ws c)) (chars s).

(** ** The declared schemas *)

Definition MIN_CONDITION_REVIEW_AFTER_MS : Z := 60000.
Definition MAX_TASK_RESULT_BYTES : nat := 16384.

Definition nonEmptyStringSchema : schema := SString (Some 1%nat) None None.
Definition boundedTextSchema (max : option nat) : schema := SString (Some 1%nat) max (Some hasNonBlank).
Definition objectSchema : schema := SObject [] true.
Definition literal (s : string) : schema := SLiteral (JStr s).
Definition required (s : schema) : bool * schema := (true, s).
Definition optional (s : schema) : bool * schema := (false, s).

Definition taskActionSchema : schema :=
  SUnion [
    SObject [("kind", required (literal "unblock-task")); ("taskId", required nonEmptyStringSchema);
             ("expectedGeneration", required (SInteger (Some 1) None)); ("reason", required nonEmptyStringSchema)] false;
    SObject [("kind", required (literal "retire-condition")); ("conditionId", required nonEmptyStringSchema);
             ("expectedConditionGeneration", required (SInteger (Some 1) None)); ("reason", required nonEmptyStringSchema)] false].

Definition progressInterestSchema : schema := SUnion [literal "immediate"; literal "next-wake"].

Definition conditionSchema : schema :=
  SObject [("id", required nonEmptyStringSchema);
           ("type", required (SString (Some 1%nat) None (Some (fun s => includes s "."))));
           ("subject", required (SString (Some 3%nat) None (Some isTypedConditionSubject)));
           ("expected", required SUnknown);
           ("progress", optional progressInterestSchema);
           ("requestedAction", optional (SString (Some 1%nat) None None));
           ("owner", required (SString None None (Some conditionOwnerPattern)));
           ("reviewAfterMs", optional (SInteger (Some MIN_CONDITION_REVIEW_AFTER_MS) None))] false.

Definition appInputSchema : schema :=
  SObject [("kind", required nonEmptyStringSchema); ("data", required SUnknown)] false.

Definition conversationRequestUpdatesSchema : schema :=
  SArray (SObject [
    ("id", required (SString (Some 1%nat) (Some 200%nat) None));
    ("inputIds", optional (SArray nonEmptyStringSchema (Some 1%nat) (Some 96%nat) true));
    ("expectedRevision", required (SInteger (Some 0) (Some (MAX_SAFE_INTEGER - 1))));
    ("scope", optional (SString (Some 1%nat) (Some 2000%nat) None));
    ("disposition", required (SUnion [literal "open"; literal "fulfilled"; literal "withdrawn"; literal "unfulfilled"]));
    ("reason", optional (boundedTextSchema (Some 2000%nat)));
    ("taskRefs", optional (SArray (SObject [("appId", required nonEmptyStringSchema); ("taskId", required nonEmptyStringSchema)] false)
                             None (Some 32%nat) false))] false) None (Some 8%nat) false.

Definition communicationSchema : schema :=
  SArray (SObject [
    ("id", required (boundedTextSchema (Some 160%nat)));
    ("inputId", required (boundedTextSchema None));
    ("message", optional (boundedTextSchema (Some 8000%nat)));
    ("replyId", optional (boundedTextSchema (Some 160%nat)));
    ("requestUpdates", optional conversationRequestUpdatesSchema);
    ("topic", optional (SUnion [
       SObject [("kind", required (literal "none"))] false;
       SObject [("kind", required (literal "new")); ("title", required nonEmptyStringSchema)] false;
       SObject [("kind", required (literal "existing")); ("id", required nonEmptyStringSchema)] false]))] false)
    None (Some 8%nat) false.

Definition inputKeysSchema : schema := SArray (boundedTextSchema None) None (Some 64%nat) true.
Definition factsSchema (minItems : option nat) : schema := SArray nonEmptyStringSchema minItems (Some 32%nat) false.

Definition conditionsSchema : schema :=
  SArray (SUnion [conditionSchema;
                  SObject [("requestId", required nonEmptyStringSchema); ("progress", optional progressInterestSchema)] false])
    None (Some 24%nat) false.

Definition requestsSchema : schema :=
  SArray (SObject [("id", required nonEmptyStringSchema); ("appId", required nonEmptyStringSchema);
                   ("taskId", optional nonEmptyStringSchema); ("input", required appInputSchema)] false)
    None (Some 8%nat) false.

Definition resultFields (minFacts : option nat) : list (string * (bool * schema)) :=
  [("communication", optional communicationSchema); ("summary", required nonEmptyStringSchema);
   ("inputKeys", optional inputKeysSchema); ("result", optional objectSchema);
   ("reviewAt", optional (SInteger (Some 1) None)); ("facts", required (factsSchema minFacts));
   ("actions", optional (SArray taskActionSchema None (Some 16%nat) false));
   ("conditions", optional conditionsSchema); ("requests", optional requestsSchema)].

Definition trueLiteral : schema := SLiteral (JBool true).

Definition taskReconcileResultSchema : schema :=
  SUnion [
    SObject (("state", required (literal "converged")) :: resultFields None ++ [("response", optional nonEmptyStringSchema)]) false;
    SObject (("state", required (literal "waiting")) :: resultFields None ++ [("continue", optional trueLiteral)]) false;
    SObject (("state", required (literal "waiting")) :: resultFields (Some 1%nat) ++
             [("report", required trueLiteral); ("continue", optional trueLiteral)]) false;
    SObject [("state", required (literal "incomplete")); ("inputKeys", optional inputKeysSchema);
             ("report", optional trueLiteral); ("summary", required nonEmptyStringSchema);
             ("response", optional nonEmptyStringSchema); ("result", optional objectSchema);
             ("facts", required (factsSchema (Some 1%nat)))] false].

Definition taskChangesSchema : schema :=
  SObject [("communication", optional communicationSchema); ("requests", optional requestsSchema);
           ("conditions", optional conditionsSchema); ("actions", optional (SArray taskActionSchema None (Some 16%nat) false));
           ("inputKeys", optional inputKeysSchema); ("facts", optional (factsSchema None))] false.

Definition taskVerificationResultSchema : schema :=
  SObject [("accepted", required SBoolean); ("summary", required nonEmptyStringSchema);
           ("facts", required (factsSchema None))] false.

(** ** Admitted results *)

Inductive TaskAction : Type :=
| unblock_task (taskId : string) (expectedGeneration : Z) (reason : string)
| retire_condition (conditionId : string) (expectedConditionGeneration : Z) (reason : string).

Inductive TaskCondition : Type :=
| external_condition (id : string) (spec : ConditionSpec)
| request_condition (requestId : string) (progress : option ProgressInterest).

Record TaskAppRequest : Type := mkRequest {
  rq_id : string;
  rq_appId : string;
  rq_taskId : option string;
  rq_kind : string;
  rq_data : json }.

Record TaskReconcileResult : Type := mkResult {
  res_state : ResultState;
  res_summary : string;
  res_facts : list string;
  res_inputKeys : option (list string);
  res_response : option string;
  res_result : option (obj json);
  res_actions : list TaskAction;
  res_conditions : list TaskCondition;
  res_requests : list TaskAppRequest;
  res_communication : option json;
  res_reviewAt : option Z;
  res_continue : bool;
  res_report : bool }.

(** ** Normalization *)

(** [normalizedString]: a trimmed non-blank text. *)
Definition normalizedString (v : option json) : option string :=
  match v with Some (JStr s) => if nonblank s then Some (trim s) else None | _ => None end.

Fixpoint allStrings (l : list json) : option (list string) :=
  match l with
  | [] => Some []
  | v :: l => match normalizedString (Some v), allStrings l with Some s, Some t => Some (s :: t) | _, _ => None end
  end.

Definition normalizedStringArray (v : option json) (allowEmpty : bool) : option (list string) :=
  match v with
  | Some (JArr l) => if negb allowEmpty && Nat.eqb (length l) 0 then None else allStrings l
  | _ => None
  end.

Definition validGeneration (v : option json) : option Z :=
  match v with Some (JNum n) => if isInteger n && number_ltb (num 0) n then Some (number_to_Z n) else None | _ => None end.

(** [optionalString]: [None] is a key that is present without a usable text. *)
Definition optionalString (o : obj json) (key : string) : option (option string) :=
  match obj_get key o with
  | None => Some None
  | Some v => match normalizedString (Some v) with Some s => Some (Some s) | None => None end
  end.

Definition at_index (name : string) (index : Z) (rest : string) : string := name +:+ "[" +:+ show_Z index +:+ "]" +:+ rest.

Definition normalizeAction (v : json) (index : Z) : res TaskAction :=
  let err rest := Throw (at_index "actions" index rest) in
  match v with
  | JObj o =>
      if str_is (obj_get "kind" o) "update-task" then
        err ".update-task is retired; use tasks update or TaskAttempt.reviseTask before returning a result"
      else if str_is (obj_get "kind" o) "unblock-task" then
        match normalizedString (obj_get "taskId" o) with
        | None => err ".taskId must be a non-empty string"
        | Some taskId =>
            match validGeneration (obj_get "expectedGeneration" o) with
            | None => err ".expectedGeneration must be a positive integer"
            | Some g =>
                match normalizedString (obj_get "reason" o) with
                | None => err ".reason must be a non-empty string"
                | Some reason => Ok (unblock_task taskId g reason)
                end
            end
        end
      else if str_is (obj_get "kind" o) "retire-condition" then
        match normalizedString (obj_get "conditionId" o) with
        | None => err ".conditionId must be a non-empty string"
        | Some conditionId =>
            match validGeneration (obj_get "expectedConditionGeneration" o) with
            | None => err ".expectedConditionGeneration must be a positive integer"
            | Some g =>
                match normalizedString (obj_get "reason" o) with
                | None => err ".reason must be a non-empty string"
                | Some reason => Ok (retire_condition conditionId g reason)
                end
            end
        end
      else err ".kind must be unblock-task or retire-condition; revise requirements through tasks update and delegate new work through requests"
  | _ => err " must be an object"
  end.

Definition INTERNAL_TASK_SCHEDULING_CONDITION_TYPES : list string :=
  ["project.state"; "project.task.tick"; "task-field"; "task-phase"; "task.phase"].

Definition parseProgress (v : option json) : option ProgressInterest :=
  if str_is v "immediate" then Some immediate else if str_is v "next-wake" then Some next_wake else None.

(** A review time: absent, or an integer of at least a minute. *)
Definition parseReviewAfterMs (v : option json) : option (option Z) :=
  match v with
  | None => Some None
  | Some (JNum n) => if isInteger n && negb (number_ltb n (num MIN_CONDITION_REVIEW_AFTER_MS)) then Some (Some (number_to_Z n)) else None
  | Some _ => None
  end.

Definition normalizeCondition (v : json) (index : Z) : res TaskCondition :=
  let err rest := Throw (at_index "conditions" index rest) in
  match v with
  | JObj o =>
      match normalizedString (obj_get "id" o), normalizedString (obj_get "type" o), normalizedString (obj_get "subject" o) with
      | None, _, _ => err ".id must be a non-empty string"
      | _, None, _ => err ".type must be a non-empty string"
      | Some id, Some type, subject =>
          if set_has type INTERNAL_TASK_SCHEDULING_CONDITION_TYPES then
            err (".type " +:+ type +:+ " is internal task scheduling; use a direct child, dependsOn, or an external observable Condition")
          else if negb (includes type ".") then err ".type must be a namespaced event type"
          else match subject with
               | None => err ".subject must be a typed subject"
               | Some subject =>
                   if negb (isTypedConditionSubject subject) then err ".subject must be a typed subject" else
                   match obj_get "expected" o, optionalString o "requestedAction", normalizedString (obj_get "owner" o) with
                   | None, _, _ => err ".expected is required"
                   | _, None, _ => err ".requestedAction must be a non-empty string when present"
                   | _, _, None => err ".owner must be a canonical non-empty identity"
                   | Some expected, Some requestedAction, Some owner =>
                       let progress := obj_get "progress" o in
                       if negb (conditionOwnerPattern owner) then err ".owner must be a canonical kind:identity"
                       else if bool_decide (is_Some progress) &&
                               (negb (String.eqb type "app.dependency.updated") || negb (startsWith id "app-request:") ||
                                bool_decide (parseProgress progress = None))
                       then err ".progress requires an App request Condition and immediate or next-wake"
                       else match parseReviewAfterMs (obj_get "reviewAfterMs" o) with
                            | None => err (".reviewAfterMs must be an integer of at least " +:+ show_Z MIN_CONDITION_REVIEW_AFTER_MS)
                            | Some reviewAfterMs =>
                                Ok (external_condition id (mkConditionSpec type subject expected requestedAction (Some owner)
                                      reviewAfterMs (parseProgress progress)))
                            end
                   end
               end
      end
  | _ => err " must be an object"
  end.

(** A declaration that names a request, or an external Condition. *)
Definition normalizeDeclaration (v : json) (index : Z) : res TaskCondition :=
  match v with
  | JObj o =>
      match obj_get "requestId" o with
      | Some r =>
          match normalizedString (Some r) with
          | None => Throw (at_index "conditions" index ".requestId must be a non-empty string")
          | Some requestId =>
              if bool_decide (is_Some (obj_get "progress" o)) && bool_decide (parseProgress (obj_get "progress" o) = None)
              then Throw (at_index "conditions" index ".progress must be immediate or next-wake")
              else Ok (request_condition requestId (parseProgress (obj_get "progress" o)))
          end
      | None => normalizeCondition v index
      end
  | _ => normalizeCondition v index
  end.

(** The entries of an array in order, each with its index. *)
Fixpoint normalizeAll {A} (f : json -> Z -> res A) (l : list json) (index : Z) : res (list A) :=
  match l with
  | [] => Ok []
  | v :: l =>
      match f v index with
      | Throw e => Throw e
      | Ok a => match normalizeAll f l (index + 1) with Ok rest => Ok (a :: rest) | Throw e => Throw e end
      end
  end.

Definition normalizeRequest (v : json) (index : Z) (seen : list string) : res TaskAppRequest :=
  let err rest := Throw (at_index "requests" index rest) in
  match v with
  | JObj o =>
      let taskId := normalizedString (obj_get "taskId" o) in
      match normalizedString (obj_get "id" o), normalizedString (obj_get "appId" o) with
      | None, _ => err ".id must be a non-empty string"
      | _, None => err ".appId must be a non-empty string"
      | Some id, Some appId =>
          if bool_decide (is_Some (obj_get "taskId" o)) && bool_decide (taskId = None) then
            err ".taskId must be a non-empty string when present"
          else if set_has id seen then Throw ("requests contains duplicate id " +:+ id)
          else match obj_get "input" o with
               | Some (JObj i) =>
                   match normalizedString (obj_get "kind" i), obj_get "data" i with
                   | Some kind, Some data => Ok (mkRequest id appId taskId kind data)
                   | _, _ => err ".input must contain kind and data"
                   end
               | _ => err ".input must contain kind and data"
               end
      end
  | _ => err " must be an object"
  end.

Fixpoint normalizeRequests (l : list json) (index : Z) (seen : list string) : res (list TaskAppRequest) :=
  match l with
  | [] => Ok []
  | v :: l =>
      match normalizeRequest v index seen with
      | Throw e => Throw e
      | Ok r => match normalizeRequests l (index + 1) (rq_id r :: seen) with Ok rest => Ok (r :: rest) | Throw e => Throw e end
      end
  end.

(** An optional array field: [undefined] and [null] are empty. *)
Definition arrayField (o : obj json) (k : string) (limit : nat) (tooMany : string) : res (list json) :=
  match obj_get k o with
  | None | Some JNull => Ok []
  | Some (JArr l) => if Nat.ltb limit (length l) then Throw tooMany else Ok l
  | Some _ => Throw (k +:+ " must be an array")
  end.

(** The bytes of a text in UTF-8. *)
Definition byteLength (s : string) : nat := sum_list_with (fun c => if chr c <? 128 then 1%nat else 2%nat) (chars s).

(** Legacy callers named dependencies; each is a request and a wait for it.  A
    missing id is [null]. *)
Definition upgradeDependencies (o : obj json) : res (obj json) :=
  match obj_get "dependencies" o with
  | None => Ok o
  | Some dependencies =>
      if bool_decide (is_Some (obj_get "requests" o)) then Throw "use requests or legacy dependencies, not both"
      else if negb (str_is (obj_get "state" o) "waiting") then Throw "dependencies are valid only for waiting"
      else match dependencies with
           | JArr deps =>
               let rest := obj_delete "dependencies" o in
               let waits := map (fun d => JObj [("requestId", match d with JObj e => default JNull (obj_get "id" e) | _ => JNull end);
                                                ("progress", JStr "immediate")]) deps in
               match obj_get "conditions" rest with
               | None => Ok (obj_set "conditions" (JArr waits) (obj_set "requests" (JArr deps) rest))
               | Some (JArr l) => Ok (obj_set "conditions" (JArr (l ++ waits)) (obj_set "requests" (JArr deps) rest))
               | Some _ => Throw "conditions must be an array"
               end
           | _ => Throw "dependencies must be an array"
           end
  end.

Definition parseState (v : option json) : option ResultState :=
  if str_is v "converged" then Some r_converged else if str_is v "waiting" then Some r_waiting
  else if str_is v "incomplete" then Some r_incomplete else None.

Definition isTrue (v : option json) : bool := match v with Some (JBool true) => true | _ => false end.

(** What the fields outside the arrays have to satisfy, in the order of the
    code; the result is the state, the facts and the optional fields. *)
Definition checkHeader (o : obj json) : res (ResultState * list string * option string * option (obj json) * option Z) :=
  match obj_get "summary" o with
  | Some (JStr summary) =>
      if negb (nonblank summary) then Throw "summary must be a non-empty string" else
      match normalizedStringArray (obj_get "facts" o) true with
      | None => Throw "facts must be a string array"
      | Some facts =>
          if Nat.ltb 32 (length facts) then Throw "facts exceeds the 32-entry limit" else
          match parseState (obj_get "state" o) with
          | None => Throw "state must be converged, waiting, or incomplete"
          | Some state =>
              let incomplete := bool_decide (state = r_incomplete) in
              let isWaiting := bool_decide (state = r_waiting) in
              if bool_decide (is_Some (obj_get "report" o)) &&
                 ((negb isWaiting && negb incomplete) || negb (isTrue (obj_get "report" o)) || Nat.eqb (length facts) 0)
              then Throw "report requires waiting or incomplete, true, and non-empty facts"
              else if incomplete && Nat.eqb (length facts) 0 then Throw "incomplete requires facts for the decision"
              else if incomplete && (obj_has "actions" o || obj_has "conditions" o || obj_has "requests" o)
              then Throw "incomplete cannot include actions, Conditions, or requests"
              else match optionalString o "response" with
              | None => Throw "response must be a non-empty string"
              | Some response =>
                  match obj_get "result" o with
                  | Some (JNull | JBool _ | JNum _ | JStr _ | JArr _) => Throw "result must be an object"
                  | result =>
                      let result := match result with Some (JObj r) => Some r | _ => None end in
                      if match result with Some r => Nat.ltb MAX_TASK_RESULT_BYTES (byteLength (JSON_stringify (JObj r))) | None => false end
                      then Throw ("result exceeds the " +:+ show_Z (Z.of_nat MAX_TASK_RESULT_BYTES) +:+ "-byte limit")
                      else if isWaiting && bool_decide (is_Some response)
                      then Throw "waiting cannot include response; put operational progress in summary"
                      else match obj_get "reviewAt" o with
                      | None => Ok (state, facts, response, result, None)
                      | Some (JNum n) =>
                          if negb (isSafeInteger n) || number_leb n (num 0)
                          then Throw "reviewAt must be a positive integer Unix timestamp in milliseconds"
                          else if negb isWaiting then Throw "reviewAt is valid only for waiting"
                          else Ok (state, facts, response, result, Some (number_to_Z n))
                      | Some _ => Throw "reviewAt must be a positive integer Unix timestamp in milliseconds"
                      end
                  end
              end
          end
      end
  | _ => Throw "summary must be a non-empty string"
  end.

Section Admission.
Context `{SchemaChecker}.

Definition schemaFailure (label : string) (s : schema) (v : json) : string :=
  let first := firstError s v in
  label +:+ " schema rejected " +:+ default "result" (nonempty (fst <$> first)) +:+ ": " +:+
  default "invalid value" (snd <$> first).

Definition stringArray (v : option json) : option (list string) :=
  match v with
  | Some (JArr l) => Some (omap (fun x => match x with JStr s => Some s | _ => None end) l)
  | _ => None
  end.

(** The single admission and normalization boundary for task handlers. *)
Definition admitTaskReconcileResult (output : json) : res TaskReconcileResult :=
  match output with
  | JObj o =>
      match upgradeDependencies o with
      | Throw e => Throw e
      | Ok o =>
          match checkHeader o with
          | Throw e => Throw e
          | Ok (state, facts, response, result, reviewAt) =>
              match arrayField o "actions" 16 "actions exceed the 16-entry limit" with
              | Throw e => Throw e
              | Ok rawActions =>
              match normalizeAll normalizeAction rawActions 0 with
              | Throw e => Throw e
              | Ok actions =>
              match arrayField o "conditions" 24 "conditions exceed the 24-entry limit" with
              | Throw e => Throw e
              | Ok rawConditions =>
              match normalizeAll normalizeDeclaration rawConditions 0 with
              | Throw e => Throw e
              | Ok conditions =>
              if negb (bool_decide (state = r_waiting)) && negb (Nat.eqb (length conditions) 0)
              then Throw "Conditions are valid only for waiting" else
              match arrayField o "requests" 8 "requests exceed the 8-entry limit" with
              | Throw e => Throw e
              | Ok rawRequests =>
              match normalizeRequests rawRequests 0 [] with
              | Throw e => Throw e
              | Ok requests =>
              if bool_decide (is_Some (obj_get "continue" o)) &&
                 (negb (isTrue (obj_get "continue" o)) || negb (bool_decide (state = r_waiting)) || Nat.eqb (length facts) 0)
              then Throw "continue requires waiting and progress facts"
              else if negb (Check taskReconcileResultSchema (JObj o))
              then Throw (schemaFailure "handler result" taskReconcileResultSchema (JObj o))
              else
                let incomplete := bool_decide (state = r_incomplete) in
                Ok (mkResult state (match obj_get "summary" o with Some (JStr s) => trim s | _ => "" end) facts
                  (stringArray (obj_get "inputKeys" o)) response result
                  (if incomplete then [] else actions) conditions (if incomplete then [] else requests)
                  (if incomplete then None else match obj_get "communication" o with Some JNull => None | c => c end)
                  reviewAt (isTrue (obj_get "continue" o)) (isTrue (obj_get "report" o)))
              end end end end end end
          end
      end
  | _ => Throw "expected an object"
  end.

(** Changes admitted while the attempt runs. *)
Definition admitTaskChanges (output : json) : res TaskReconcileResult :=
  match output with
  | JObj o =>
      if negb (Check taskChangesSchema output)
      then Throw "Task changes must contain only inputKeys, facts, requests, conditions, actions and communication"
      else
        let base := [("state", JStr "waiting"); ("summary", JStr "Apply Task changes"); ("facts", JArr [])] in
        match admitTaskReconcileResult (JObj (fold_left (fun acc e => obj_set e.1 e.2 acc) o base)) with
        | Throw e => Throw e
        | Ok r =>
            if negb (Nat.eqb (length (res_actions r)) 0) && Nat.eqb (length (res_facts r)) 0
            then Throw "Task actions require non-empty facts" else Ok r
        end
  | _ => Throw "Task changes must contain only inputKeys, facts, requests, conditions, actions and communication"
  end.

(** A schema that carries one of the two identifiers has the Task's semantics;
    any other schema has none. *)
Definition TASK_AGENT_RESULT_SCHEMA_ID : string := "may.task-agent-result.v1".
Definition TASK_RECONCILE_RESULT_SCHEMA_ID : string := "may.task-reconcile-result.v1".

Definition admitTaskResultForSchema (schemaId : option string) (output : json) : option (res TaskReconcileResult) :=
  if bool_decide (schemaId = Some TASK_AGENT_RESULT_SCHEMA_ID) || bool_decide (schemaId = Some TASK_RECONCILE_RESULT_SCHEMA_ID)
  then Some (admitTaskReconcileResult output) else None.

Record TaskVerificationResult : Type := mkVerification { ver_accepted : bool; ver_summary : string; ver_facts : list string }.

Definition admitTaskVerificationResult (output : json) : res TaskVerificationResult :=
  match output with
  | JObj o =>
      match obj_get "accepted" o with
      | Some (JBool accepted) =>
          match normalizedString (obj_get "summary" o) with
          | None => Throw "verifier summary must be a non-empty string"
          | Some summary =>
              match normalizedStringArray (obj_get "facts" o) true with
              | None => Throw "verifier facts must be a string array"
              | Some facts =>
                  if Nat.ltb 32 (length facts) then Throw "verifier facts exceeds the 32-entry limit"
                  else if negb (Check taskVerificationResultSchema output)
                  then Throw (schemaFailure "verifier result" taskVerificationResultSchema output)
                  else Ok (mkVerification accepted summary facts)
              end
          end
      | _ => Throw "verifier accepted must be boolean"
      end
  | _ => Throw "verifier must return an object"
  end.

End Admission.
End TaskContract.
