(* ===== verification/TaskActions.v ===== *)
(** What a worker may ask for besides its result
    ([src/app/core/tasks/app-task-reconciler.ts]): actions on other Tasks and on
    the Task's own Conditions, and declared Conditions.  Both arrive as decoded
    JSON and are validated before anything is applied. *)
From S2P Require Import Prelude Json TaskState TaskTree Transaction ResourceStore StoreInvariant StoreCommit Snapshot.
From S2P Require Import Context Approval Conditions Records Time TaskInputs TaskEvents TaskIntent TaskMutation.
From S2P Require Import TaskOutcome TaskLease TaskContract.

Module TaskActions.
Import ResourceStore TaskTree TaskInputs TaskEvents TaskIntent Time TaskMutation TaskOutcome TaskLease.

(** ** Required fields *)

Definition requireNonEmptyString (v : option json) (label : string) : res string :=
  match v with
  | Some (JStr s) => if nonblank s then Ok (trim s) else Throw (label +:+ " requires a non-empty string")
  | _ => Throw (label +:+ " requires a non-empty string")
  end.

Definition requireStringList (l : list string) (label : string) : res unit :=
  if Nat.eqb (length l) 0 || existsb (fun s => negb (nonblank s)) l
  then Throw (label +:+ " requires one or more non-empty strings") else Ok tt.

Definition requireExpectedGeneration (v : option json) (label : string) : res Z :=
  match v with
  | Some (JNum n) =>
      if isInteger n && negb (number_ltb n (num 0)) then Ok (number_to_Z n)
      else Throw (label +:+ " requires a non-negative expectedGeneration")
  | _ => Throw (label +:+ " requires a non-negative expectedGeneration")
  end.

(** ** Actions *)

(** A field that was validated as a string, or as a number. *)
Definition textField (o : obj json) (k : string) : string :=
  match obj_get k o with Some (JStr s) => s | _ => "" end.
Definition numberField (o : obj json) (k : string) : Z :=
  match obj_get k o with Some (JNum n) => number_to_Z n | _ => 0 end.

Definition kindIs (action : json) (kind : string) : bool :=
  match action with JObj o => str_is (obj_get "kind" o) kind | _ => false end.

(** [isRecord] excludes arrays and null. *)
Definition actionFields (action : json) : option (obj json) := match action with JObj o => Some o | _ => None end.

(** Action fields named in the bounded read, whether or not the action is valid. *)
Definition namedIds (kind field : string) (actions : list json) : list string :=
  omap (fun a => if kindIs a kind then
      match a with
      | JObj o => match obj_get field o with Some (JStr s) => if nonblank s then Some s else None | _ => None end
      | _ => None
      end else None) actions.

Definition taskActionContextIds : list json -> list string := namedIds "unblock-task" "taskId".
Definition taskActionConditionIds : list json -> list string := namedIds "retire-condition" "conditionId".

(** [AppTaskActionStaleError] with a reason. *)
Definition staleReason (taskId reason : string) : string := "Handler effect for " +:+ taskId +:+ " is stale: " +:+ reason.

Definition mutableActionResource (tree : TaskTree) (taskId : string) (expectedGeneration : Z) : res AppTaskResource :=
  match obj_get taskId (resources tree) with
  | None => Throw ("Handler action task not found: " +:+ taskId)
  | Some r =>
      if Z.eqb (md_generation (metadata r)) expectedGeneration then Ok r
      else Throw (staleMessage taskId expectedGeneration (md_generation (metadata r)) None)
  end.

(** A Condition may be retired by the Task it is linked to, at its exact generation. *)
Definition validateRetire (tree : TaskTree) (runningTaskId : string) (o : obj json) (identities : list string)
    : res (list string) :=
  conditionId ← requireNonEmptyString (obj_get "conditionId" o) "Handler retire-condition identity";
  let identity := "condition:" +:+ conditionId in
  if set_has identity identities then Throw ("Handler result contains multiple actions for " +:+ identity) else
  expected ← requireExpectedGeneration (obj_get "expectedConditionGeneration" o)
               ("Handler retire-condition action " +:+ conditionId);
  _ ← requireNonEmptyString (obj_get "reason" o) ("Handler retire-condition " +:+ conditionId +:+ " reason");
  match obj_get conditionId (conditions tree) with
  | Some c =>
      if negb (set_has conditionId (taskConditionIds tree runningTaskId)) then
        Throw (staleReason runningTaskId ("Condition " +:+ conditionId +:+ " is no longer linked to this Task"))
      else if negb (Z.eqb (cond_generation c) expected) then
        Throw (staleReason runningTaskId ("Condition " +:+ conditionId +:+ " generation changed"))
      else Ok (identity :: identities)
  | None => Throw (staleReason runningTaskId ("Condition " +:+ conditionId +:+ " is no longer linked to this Task"))
  end.

(** Another Task may be unblocked at its exact generation while it waits or needs attention. *)
Definition validateUnblock (tree : TaskTree) (runningTaskId : string) (o : obj json) (identities : list string)
    : res (list string) :=
  identity ← requireNonEmptyString (obj_get "taskId" o) "Handler unblock-task action identity";
  if String.eqb identity runningTaskId then
    Throw ("Handler action cannot unblock its own running task " +:+ runningTaskId +:+
           "; return the attempt result without a self-unblock action")
  else if set_has identity identities then Throw ("Handler result contains multiple actions for " +:+ identity) else
  expected ← requireExpectedGeneration (obj_get "expectedGeneration" o) ("Handler unblock-task action " +:+ identity);
  _ ← requireNonEmptyString (obj_get "reason" o) ("Handler unblock for " +:+ identity +:+ " reason");
  if obj_has identity (cancellations tree) then
    Throw ("Handler action cannot mutate cancelled task " +:+ identity +:+ "; create a new linked task")
  else
    resource ← mutableActionResource tree (textField o "taskId") expected;
    if bool_decide (st_phase (status resource) = waiting) || bool_decide (st_phase (status resource) = attention)
    then Ok (identity :: identities)
    else Throw (staleMessage identity expected (md_generation (metadata resource)) (Some (st_phase (status resource)))).

Fixpoint validateEach (tree : TaskTree) (runningTaskId : string) (actions : list json) (identities : list string)
    : res unit :=
  match actions with
  | [] => Ok tt
  | action :: actions =>
      match actionFields action with
      | None => Throw "Handler result contains a non-object action"
      | Some o =>
          if kindIs action "update-task" then
            Throw "update-task is retired; use tasks update or TaskAttempt.reviseTask before returning a result"
          else if kindIs action "retire-condition" then
            identities ← validateRetire tree runningTaskId o identities; validateEach tree runningTaskId actions identities
          else if kindIs action "unblock-task" then
            identities ← validateUnblock tree runningTaskId o identities; validateEach tree runningTaskId actions identities
          else Throw ("Handler result contains an unsupported action kind: " +:+ String_of (obj_get "kind" o))
      end
  end.

Definition validateTaskActions (tree : TaskTree) (actions : list json) (runningTaskId : string) : res unit :=
  if Nat.ltb 16 (length actions) then Throw "Handler result exceeds the 16-action reconciliation budget"
  else validateEach tree runningTaskId actions [].

(** The Task an unblock action leaves. *)
Definition unblockStatus (generation : Z) (reason : string) (st : TaskStatus) : TaskStatus :=
  clearFailures st |> with_st_phase pending |> with_st_observedGeneration (Z.max 0 (generation - 1))
    |> with_st_currentAttemptId None |> with_st_summary (Some (trim reason)).

Definition applyAction (appId : string) (now : Z) (claim : AppTaskClaim) (tree : TaskTree) (action : json)
    : res (TaskTree * string) :=
  let o := default [] (actionFields action) in
  if kindIs action "retire-condition" then
    let conditionId := textField o "conditionId" in
    Ok (unlinkExactTaskCondition now (clm_taskId claim) conditionId tree,
        "retired condition " +:+ conditionId +:+ " generation " +:+ show_Z (numberField o "expectedConditionGeneration"))
  else
    let taskId := textField o "taskId" in
    resource ← mutableActionResource tree taskId (numberField o "expectedGeneration");
    _ ← assertResourceCreator (md_creator (metadata resource)) (mkCreator appId (Some (clm_taskId claim)));
    Ok (updResource taskId (touchResource now (unblockStatus (md_generation (metadata resource)) (textField o "reason"))) tree,
        "unblocked " +:+ taskId).

Fixpoint applyEach (appId : string) (now : Z) (claim : AppTaskClaim) (tree : TaskTree) (actions : list json)
    : res (TaskTree * list string) :=
  match actions with
  | [] => Ok (tree, [])
  | action :: actions =>
      '(tree, line) ← applyAction appId now claim tree action;
      '(tree, lines) ← applyEach appId now claim tree actions;
      Ok (tree, line :: lines)
  end.

Definition applyTaskActions (appId : string) (now : Z) (tree : TaskTree) (claim : AppTaskClaim) (actions : list json)
    : res (TaskTree * list string) :=
  _ ← validateTaskActions tree actions (clm_taskId claim);
  applyEach appId now claim tree actions.

Definition validateActionFacts (taskId : string) (facts : option (list string)) (actionCount : nat) : res unit :=
  if Nat.ltb 0 actionCount && negb (existsb nonblank (default [] facts))
  then Throw ("Handler actions for " +:+ taskId +:+ " require non-empty facts") else Ok tt.

(** ** Declared Conditions *)

Definition badProgress (id type : string) (o : obj json) : bool :=
  match obj_get "progress" o with
  | None => false
  | Some p => negb (String.eqb type "app.dependency.updated") || negb (startsWith id "app-request:") ||
              (negb (str_is (Some p) "immediate") && negb (str_is (Some p) "next-wake"))
  end.

Definition badReviewAfter (o : obj json) : bool :=
  match obj_get "reviewAfterMs" o with
  | None => false
  | Some (JNum n) => negb (isInteger n) || number_ltb n (num TaskContract.MIN_CONDITION_REVIEW_AFTER_MS)
  | Some _ => true
  end.

Definition validateCondition (taskId : string) (condition : json) : res unit :=
  match actionFields condition with
  | None => Throw ("Handler result for " +:+ taskId +:+ " contains a non-object Condition")
  | Some o =>
      identity ← requireNonEmptyString (obj_get "id" o) ("Handler result Condition for " +:+ taskId +:+ " identity");
      let label := "Handler result Condition " +:+ identity in
      type ← requireNonEmptyString (obj_get "type" o) (label +:+ " type");
      if negb (includes type ".") then Throw (label +:+ " type must be a namespaced event type") else
      subject ← requireNonEmptyString (obj_get "subject" o) (label +:+ " subject");
      if negb (TaskContract.isTypedConditionSubject subject) then Throw (label +:+ " has an invalid subject")
      else if negb (obj_has "expected" o) then Throw (label +:+ " requires an expected value")
      else if badProgress identity type o then
        Throw (label +:+ " progress requires an App request Condition and immediate or next-wake")
      else
        _ ← (if obj_has "requestedAction" o
             then requireNonEmptyString (obj_get "requestedAction" o) (label +:+ " requestedAction") else Ok "");
        owner ← requireNonEmptyString (obj_get "owner" o) (label +:+ " owner");
        if negb (String.eqb owner "human") && negb (TaskContract.isKindIdentity (chars owner)) then
          Throw (label +:+ " owner must be a canonical kind:identity")
        else if badReviewAfter o then
          Throw (label +:+ " reviewAfterMs must be an integer of at least " +:+
                 show_Z TaskContract.MIN_CONDITION_REVIEW_AFTER_MS)
        else Ok tt
  end.

Fixpoint validateEachCondition (taskId : string) (conditions : list json) : res unit :=
  match conditions with
  | [] => Ok tt
  | c :: conditions => _ ← validateCondition taskId c; validateEachCondition taskId conditions
  end.

Definition validateConditions (conditions : option (list json)) (required : bool) (taskId : string) : res unit :=
  if required && Nat.eqb (length (default [] conditions)) 0
  then Throw ("Waiting result for " +:+ taskId +:+ " requires at least one exact Condition")
  else validateEachCondition taskId (default [] conditions).

(** A validated Condition as data. *)
Definition optionalText (o : obj json) (k : string) : option string :=
  match obj_get k o with Some (JStr s) => Some s | _ => None end.

Definition declOf (condition : json) : ConditionDecl :=
  let o := default [] (actionFields condition) in
  mkDecl (textField o "id")
    (mkConditionSpec (textField o "type") (textField o "subject") (default JNull (obj_get "expected" o))
       (optionalText o "requestedAction") (optionalText o "owner")
       (match obj_get "reviewAfterMs" o with Some (JNum n) => Some (number_to_Z n) | _ => None end)
       (match optionalText o "progress" with
        | Some p => if String.eqb p "immediate" then Some immediate else if String.eqb p "next-wake" then Some next_wake else None
        | None => None
        end)).

(** The ids a list of declarations names. *)
Definition conditionIdsOf (conditions : list json) : list string :=
  omap (fun c => match actionFields c with
                 | Some o => match obj_get "id" o with Some (JStr s) => if nonblank s then Some s else None | _ => None end
                 | None => None
                 end) conditions.

(** ** Settlement helpers *)

Definition defaultTaskAcceptance (claim : AppTaskClaim) (facts : list string) : TaskAcceptanceBasis :=
  mkBasis (if startsWith (clm_handler claim) "workflow:" then workflow_contract else agent_judgment) None facts.

Definition liveChildTaskIds (tree : TaskTree) (taskId : string) : list string :=
  map (fun r => md_id (metadata r)) (filter (fun r => spec_parentId (spec r) = taskId /\
    obj_has (md_id (metadata r)) (cancellations tree) = false) (obj_values (resources tree))).

(** The claimed Task is written, its parent only fenced, and the Tasks it
    unblocks are written too. *)
Definition beginResourceMutationScope (tree : TaskTree) (claim : AppTaskClaim) (actions : list json) : ResourceMutationScope :=
  let scope := trackResourceMutationTask tree (emptyResourceMutationScope tree) (clm_taskId claim) in
  let scope := match obj_get (clm_taskId claim) (resources tree) with
               | Some r => fenceResourceMutationTask tree scope (spec_parentId (spec r))
               | None => scope
               end in
  fold_left (fun scope a => if kindIs a "unblock-task"
    then trackResourceMutationTask tree scope (textField (default [] (actionFields a)) "taskId") else scope) actions scope.

End TaskActions.
