(* ===== verification/TaskSettle.v ===== *)
(** Settling an attempt ([src/app/core/tasks/app-task-reconciler.ts]): accepting a
    converged, waiting or incomplete result, recording an execution failure,
    applying changes while the attempt runs, and giving a stale or stopped
    attempt back.  Every operation reads a bounded tree, checks that the
    claim's attempt is still the running one, and commits one fenced write set. *)
From S2P Require Import Prelude Json TaskState TaskTree Transaction ResourceStore StoreInvariant StoreCommit Snapshot.
From S2P Require Import Context Approval Conditions Records Time TaskInputs TaskEvents TaskIntent TaskMutation.
From S2P Require Import TaskOutcome TaskLease TaskContract TaskActions.

Module TaskSettle.
Import ResourceStore TaskTree TaskInputs TaskEvents TaskIntent Time TaskMutation TaskOutcome TaskLease TaskActions.

Inductive Settlement (A : Type) : Type := settle_stale | applied (a : A).
Arguments settle_stale {A}.
Arguments applied {A} a.

(** ** Shared steps *)

(** A Task record of the tree, which the claim's match has shown to exist. *)
Definition taskOf (tree : TaskTree) (taskId : string) : res AppTaskResource :=
  match obj_get taskId (resources tree) with
  | Some r => Ok r
  | None => Throw "Cannot read properties of undefined (reading 'status')"
  end.

Definition setResource (r : AppTaskResource) (taskId : string) (tree : TaskTree) : TaskTree :=
  with_resources (obj_set taskId r (resources tree)) tree.

(** The exact waits of one input: existing and newly authored Conditions that
    the Task is linked to. *)
Definition waitRefs (tree : TaskTree) (resource : AppTaskResource) (ids : list string) : list WaitRef :=
  omap (fun id => match obj_get id (conditions tree) with
                  | Some c => if set_has id (default [] (st_conditionIds (status resource)))
                              then Some (mkWaitRef id (cond_generation c)) else None
                  | None => None
                  end) ids.

(** Retaining every covered input with the wait [wait] builds for it. *)
Fixpoint retainKeys (s : store) (taskId : string) (wait : AppTaskResource -> string -> AppTaskInputWait)
    (keys : list string) (tree : TaskTree) : res TaskTree :=
  match keys with
  | [] => Ok tree
  | key :: keys =>
      resource ← taskOf tree taskId;
      resource ← retainTaskInputWait s resource [key] (wait resource key);
      retainKeys s taskId wait keys (setResource resource taskId tree)
  end.

Definition previousConditionIds (resource : AppTaskResource) (key : string) : list string :=
  match inputWaitOf resource key with Some w => map wr_id (iw_conditions w) | None => [] end.

(** ** Changes of a running attempt *)

Record RunningChanges : Type := mkChanges {
  rc_operationKey : string;
  rc_actionReceiptKeys : list string;
  rc_replayedActions : list string;
  rc_requests : list RequestReceipt;
  rc_communication : option json;
  rc_conditions : list json;
  rc_actions : list json;
  rc_facts : option (list string);
  rc_scope : ResultScope }.

Definition readTaskChangeInputKeys (claim : AppTaskClaim) (inputKeys : option (list string))
    (acceptedLiveEventIds : option (list Z)) : M (list string) :=
  tree ← readContext [clm_taskId claim] [] [];
  gets (fun s => resultInputKeys s tree (claimRef claim) (mkResultScope acceptedLiveEventIds inputKeys false)).

(** The receipts an attempt keeps: one per action with its own key, in order,
    and one for the operation. *)
Definition recordChangeReceipts (input : RunningChanges) (actionsApplied : list string) (receipt : TaskChangeReceipt)
    (a : AppTaskAttempt) : AppTaskAttempt :=
  let receipts := fold_left (fun acc kl => obj_set kl.1 (mkChangeReceipt [] [] [kl.2] None) acc)
                    (zip (rc_actionReceiptKeys input) actionsApplied) (default [] (att_changeReceipts a)) in
  bumpAttempt (with_att_changeReceipts (Some (obj_set (rc_operationKey input) receipt receipts)) a).

Definition runningWait (tree : TaskTree) (claim : AppTaskClaim) (declared : list string) (resource : AppTaskResource)
    (key : string) : AppTaskInputWait :=
  mkInputWait (clm_generation claim) true
    (waitRefs tree resource (set_of (previousConditionIds resource key ++ declared)))
    (inputWaitOf resource key ≫= iw_reviewAt).

Definition applyRunningTaskChanges (now : Z) (claim : AppTaskClaim) (input : RunningChanges) : M TaskChangeReceipt :=
  let taskId := clm_taskId claim in
  let declared := conditionIdsOf (rc_conditions input) in
  tree ← readContext (taskId :: taskActionContextIds (rc_actions input)) []
           (taskActionConditionIds (rc_actions input) ++ declared);
  match matchingTaskAttempt tree claim with
  | None => throws "Task changes require a current running attempt"
  | Some _ =>
      keys ← gets (fun s => resultInputKeys s tree (claimRef claim) (rc_scope input));
      _ ← lift (validateActionFacts taskId (rc_facts input) (length (rc_actions input)));
      _ ← lift (validateConditions (Some (rc_conditions input)) false taskId);
      let scope := beginResourceMutationScope tree claim (rc_actions input) in
      '(tree, actionsApplied) ← gets (fun s => applyTaskActions (appId s) now tree claim (rc_actions input));
      tree ← lift (match rc_conditions input with
                   | [] => Ok tree
                   | l => materializeWaitingConditions now taskId (map declOf l) tree
                   end);
      tree ← gets (fun s => retainKeys s taskId (runningWait tree claim declared) keys tree);
      let receipt := mkChangeReceipt (rc_requests input) declared (rc_replayedActions input ++ actionsApplied)
                       (rc_communication input) in
      let tree := tree |> updAttempt (clm_attemptId claim) (recordChangeReceipts input actionsApplied receipt)
                       |> updResource taskId (touchResource now (fun st => st)) in
      _ ← commitScope now scope tree (fun m => m);
      mret receipt
  end.

(** ** Completion *)

Record CompleteInput : Type := mkComplete {
  co_result : ResultInput;
  co_actions : list json;
  co_acceptanceBasis : option TaskAcceptanceBasis;
  co_workspace : option (AppTaskWorkspace * bool);
  co_acceptedLiveEventIds : option (list Z);
  co_inputKeys : option (list string) }.

Record Completion : Type := mkCompletion {
  cp_actionsApplied : list string;
  cp_dependentTaskIds : list string;
  cp_taskContinues : bool }.

Definition unblockedIds (actions : list json) : list string :=
  omap (fun a => if kindIs a "unblock-task" then Some (textField (default [] (actionFields a)) "taskId") else None) actions.

(** Input that remains schedules more work. *)
Definition pendingWork (now : Z) (tree : TaskTree) (taskId : string) : bool :=
  obj_has taskId (taskTriggers tree) || negb (Nat.eqb (length (continuedTaskInputKeys tree taskId now [] [])) 0).

Definition dependentTaskIds (tree : TaskTree) (taskId : string) (actions : list json) (continues : bool) : list string :=
  set_of (unblockedIds actions ++ (if continues then [taskId] else []) ++
    (if continues then [] else
     map (fun r => md_id (metadata r)) (filter (fun r => set_has taskId (default [] (spec_dependsOn (spec r))) = true)
       (obj_values (resources tree))))).

Definition earliest (l : list Z) : option Z := match l with [] => None | d :: l => Some (fold_left Z.min l d) end.

(** The deadlines of inputs that still wait. *)
Definition remainingReviewAt (resource : AppTaskResource) : option Z :=
  earliest (filter (fun n => 0 < n <= MAX_SAFE_INTEGER)
    (omap iw_reviewAt (obj_values (default [] (st_inputWaits (status resource)))))).

Definition completedPhase (resource : AppTaskResource) (continues : bool) : Phase :=
  if continues then pending
  else if negb (Nat.eqb (length (default [] (st_conditionIds (status resource)))) 0) ||
          bool_decide (is_Some (remainingReviewAt resource)) then waiting
  else converged.

(** What every accepted result writes to the status. *)
Definition settledStatus (claim : AppTaskClaim) (summary : string) (input : ResultInput) (st : TaskStatus) : TaskStatus :=
  st |> with_st_observedGeneration (clm_generation claim) |> with_st_observedAttemptId (Some (clm_attemptId claim))
     |> with_st_currentAttemptId None |> with_st_summary (Some summary) |> with_st_response (ri_response input)
     |> with_st_result (ri_result input) |> with_st_facts (Some (default [] (ri_facts input))).

Definition releaseWorkspace (converged_now : bool) (workspace : option (AppTaskWorkspace * bool)) (a : AppTaskAttempt)
    : AppTaskAttempt :=
  match workspace with
  | Some (w, removable) =>
      with_att_workspace (Some (if removable && converged_now then with_ws_released true w else w)) a
  | None => a
  end.

(** The tree after the result was accepted, before the Task is touched. *)
Definition acceptConverged (now : Z) (claim : AppTaskClaim) (input : CompleteInput) (keys : list string) (tree : TaskTree)
    : TaskTree :=
  let taskId := clm_taskId claim in
  let basis := default (defaultTaskAcceptance claim (default [] (ri_facts (co_result input)))) (co_acceptanceBasis input) in
  let accepted := acceptedAttemptResult tree taskId r_converged (co_result input) (co_acceptedLiveEventIds input)
                    (Some keys) basis in
  let tree := updAttempt (clm_attemptId claim) (with_att_acceptedResult (Some accepted)) tree in
  let tree := consumeSettledTaskEvents tree taskId (clm_agent claim) (ar_acceptedLiveEventIds accepted) (ar_inputKeys accepted) in
  finishAttempt taskId at_completed (ri_summary (co_result input)) now (unlinkSatisfiedTaskConditions now taskId tree).

Definition completeAppTask (now : Z) (claim : AppTaskClaim) (input : CompleteInput) : M (Settlement Completion) :=
  let taskId := clm_taskId claim in
  let actions := co_actions input in
  tree ← readContext (taskId :: taskActionContextIds actions) [] (taskActionConditionIds actions);
  match matchingTaskAttempt tree claim with
  | None => mret settle_stale
  | Some _ =>
      outcome ← gets (fun s => inputOutcomeAdmissions s tree (claimRef claim)
                        (mkResultScope (co_acceptedLiveEventIds input) (co_inputKeys input) false) oc_answer);
      _ ← lift (validateActionFacts taskId (ri_facts (co_result input)) (length actions));
      let scope := beginResourceMutationScope (oc_tree outcome) claim actions in
      '(tree, actionsApplied) ← gets (fun s => applyTaskActions (appId s) now (oc_tree outcome) claim actions);
      let tree := acceptConverged now claim input (oc_keys outcome) tree in
      let continues := pendingWork now tree taskId in
      let dependents := dependentTaskIds tree taskId actions continues in
      let scope := fold_left (trackResourceMutationTask tree) dependents scope in
      resource ← lift (taskOf tree taskId);
      let phase := completedPhase resource continues in
      let tree := tree |> updResource taskId (touchResource now (fun st =>
                            settledStatus claim (ri_summary (co_result input)) (co_result input) st
                            |> with_st_phase phase |> with_st_reviewAt (remainingReviewAt resource)))
                       |> updAttempt (clm_attemptId claim)
                            (releaseWorkspace (bool_decide (phase = converged)) (co_workspace input)) in
      _ ← commitScope now scope tree (with_admissions (oc_writes outcome));
      mret (applied (mkCompletion actionsApplied dependents continues))
  end.

(** ** Waiting *)

Record DeferInput : Type := mkDefer {
  df_continue : bool;
  df_report : bool;
  df_summary : string;
  df_response : option string;
  df_result : option (obj json);
  df_reviewAt : option number;
  df_facts : option (list string);
  df_actions : list json;
  df_conditions : list json;
  df_acceptedLiveEventIds : option (list Z);
  df_inputKeys : option (list string) }.

Record Deferral : Type := mkDeferral { dl_actionsApplied : list string; dl_reconcileTaskIds : list string }.

(** A review that is still ahead is kept when the result names none. *)
Definition retainedReviewAt (now : Z) (resource : AppTaskResource) (keys : list string) : option Z :=
  earliest (filter (fun n => now < n <= MAX_SAFE_INTEGER)
    (omap id (st_reviewAt (status resource) :: map (fun key => inputWaitOf resource key ≫= iw_reviewAt) keys))).

Definition deferReviewAt (now : Z) (taskId : string) (resource : AppTaskResource) (keys : list string)
    (requested : option number) : res (option Z) :=
  match requested with
  | None => Ok (retainedReviewAt now resource keys)
  | Some n =>
      if negb (isSafeInteger n) || number_leb n (num 0)
      then Throw ("Waiting result for " +:+ taskId +:+ " reviewAt must be a positive Unix timestamp in milliseconds")
      else Ok (Some (number_to_Z n))
  end.

Definition deferResult (input : DeferInput) (reviewAt : option Z) : ResultInput :=
  mkResultInput (df_summary input) (df_response input) (df_result input) reviewAt (df_facts input).

(** No result both retires and declares a Condition. *)
Definition checkRedeclared (actions conditions : list json) : res unit :=
  let retired := omap (fun a => if kindIs a "retire-condition"
                               then Some (textField (default [] (actionFields a)) "conditionId") else None) actions in
  match filter (fun c => set_has (cd_id (declOf c)) retired = true) conditions with
  | [] => Ok tt
  | c :: _ => Throw ("Task result cannot retire and redeclare Condition " +:+ cd_id (declOf c))
  end.

Definition openConditionIds (tree : TaskTree) (taskId : string) : list string :=
  filter (fun id => (isSatisfied <$> obj_get id (conditions tree)) = Some false) (taskConditionIds tree taskId).

Definition deferWait (tree : TaskTree) (claim : AppTaskClaim) (continues : bool) (declared : list string)
    (reviewAt : option Z) (resource : AppTaskResource) (key : string) : AppTaskInputWait :=
  mkInputWait (clm_generation claim) continues
    (waitRefs tree resource (set_of (previousConditionIds resource key ++ declared))) reviewAt.

(** The phase a waiting result leaves: work that is already due is pending. *)
Definition deferPhase (now : Z) (tree : TaskTree) (taskId : string) (continues hadSatisfied : bool) (opened : list string)
    (reviewAt : option Z) (pendingEvents : list AppTaskTriggerEvent) : Phase :=
  if negb (Nat.eqb (length (continuedTaskInputKeys tree taskId now [] [])) 0) || continues ||
     (hadSatisfied && Nat.eqb (length opened) 0 && bool_decide (reviewAt = None)) ||
     negb (Nat.eqb (length pendingEvents) 0)
  then pending else waiting.

(** Facts that arrived during the attempt also satisfy the waits it installed;
    the woken Tasks join the scope. *)
Definition applyPending (db : option (string -> store)) (now : Z) (pendingEvents : list AppTaskTriggerEvent)
    (start : TaskTree * ResourceMutationScope) : TaskTree * ResourceMutationScope :=
  fold_left (fun acc entry =>
    let '(wakes, tree) := Conditions.applyAppTaskConditionEvent db acc.1 (toISOString now) (te_event entry) in
    (tree, fold_left (fun scope w => trackResourceMutationTask tree scope (Conditions.wk_taskId w)) wakes acc.2))
    pendingEvents start.

(** The accepted waiting result, with what the worker asked for. *)
Definition deferAccepted (claim : AppTaskClaim) (input : DeferInput) (reviewAt : option Z) (keys : list string)
    (tree : TaskTree) : AcceptedResult :=
  acceptedAttemptResult tree (clm_taskId claim) r_waiting (deferResult input reviewAt) (df_acceptedLiveEventIds input)
    (Some keys) (defaultTaskAcceptance claim (default [] (df_facts input)))
  |> with_ar_report (df_report input) |> with_ar_continue (df_continue input).

(** Ending the attempt and installing its waits. *)
Definition installWaits (now : Z) (claim : AppTaskClaim) (input : DeferInput) (accepted : AcceptedResult) (tree : TaskTree)
    : res (TaskTree * bool) :=
  let taskId := clm_taskId claim in
  let tree := tree |> updAttempt (clm_attemptId claim) (with_att_acceptedResult (Some accepted))
                   |> finishAttempt taskId at_completed (df_summary input) now in
  tree ← match df_conditions input with
         | [] => Ok tree
         | l => materializeWaitingConditions now taskId (map declOf l) tree
         end;
  let hadSatisfied := hasSatisfiedTaskCondition tree taskId in
  Ok (unlinkSatisfiedTaskConditions now taskId tree, hadSatisfied).

Definition deferInTree (db : option (string -> store)) (now : Z) (claim : AppTaskClaim) (input : DeferInput)
    (outcome : Outcome) (reviewAt : option Z) : M (Settlement Deferral) :=
  let taskId := clm_taskId claim in
  let actions := df_actions input in
  let keys := oc_keys outcome in
  let accepted := deferAccepted claim input reviewAt keys (oc_tree outcome) in
  let tree := consumeSettledTaskEvents (oc_tree outcome) taskId (clm_agent claim) (ar_acceptedLiveEventIds accepted)
                (ar_inputKeys accepted) in
  let pendingEvents := pendingOf tree taskId in
  _ ← lift (validateActionFacts taskId (df_facts input) (length actions));
  let scope := beginResourceMutationScope tree claim actions in
  '(tree, actionsApplied) ← gets (fun s => applyTaskActions (appId s) now tree claim actions);
  _ ← lift (validateConditions (Some (df_conditions input)) false taskId);
  _ ← lift (checkRedeclared actions (df_conditions input));
  '(tree, hadSatisfied) ← lift (installWaits now claim input accepted tree);
  let opened := openConditionIds tree taskId in
  if negb (df_continue input) && bool_decide (reviewAt = None) && Nat.eqb (length opened) 0 && negb hadSatisfied &&
     Nat.eqb (length pendingEvents) 0
  then throws ("Waiting result for " +:+ taskId +:+ " requires at least one exact Condition")
  else
    tree ← gets (fun s => retainKeys s taskId
                  (deferWait tree claim (df_continue input) (conditionIdsOf (df_conditions input)) reviewAt) keys tree);
    let phase := deferPhase now tree taskId (df_continue input) hadSatisfied opened reviewAt pendingEvents in
    let tree := updResource taskId (touchResource now (fun st =>
        settledStatus claim (df_summary input) (deferResult input reviewAt) st |> with_st_phase phase
        |> with_st_reviewAt reviewAt)) tree in
    let '(tree, scope) := applyPending db now pendingEvents (tree, scope) in
    _ ← commitScope now scope tree (with_admissions (oc_writes outcome));
    resource ← lift (taskOf tree taskId);
    mret (applied (mkDeferral actionsApplied (set_of (unblockedIds actions ++
      if bool_decide (st_phase (status resource) = pending) then [taskId] else [])))).

Definition deferAppTask (db : option (string -> store)) (now : Z) (claim : AppTaskClaim) (input : DeferInput)
    : M (Settlement Deferral) :=
  let taskId := clm_taskId claim in
  let actions := df_actions input in
  tree ← readContext (taskId :: taskActionContextIds actions) []
           (taskActionConditionIds actions ++ conditionIdsOf (df_conditions input));
  match matchingTaskAttempt tree claim with
  | None => mret settle_stale
  | Some _ =>
      outcome ← gets (fun s => inputOutcomeAdmissions s tree (claimRef claim)
                        (mkResultScope (df_acceptedLiveEventIds input) (df_inputKeys input) (df_report input))
                        (if df_report input then oc_progress else oc_retain));
      resource ← lift (taskOf (oc_tree outcome) taskId);
      reviewAt ← lift (deferReviewAt now taskId resource (oc_keys outcome) (df_reviewAt input));
      deferInTree db now claim input outcome reviewAt
  end.

(** ** Reports and failures *)

Section Failure.
Context (rowOrder : list string) (config : AppTaskContext) (now : Z).

Record ReportInput : Type := mkReport {
  rp_result : ResultInput;
  rp_report : bool;
  rp_acceptedLiveEventIds : option (list Z);
  rp_inputKeys : option (list string) }.

Record FailureReport : Type := mkFailureReport {
  fr_summary : string; fr_retryExhausted : option AppTaskRetryExhaustion }.

(** An input an incomplete result covers stays pending with its waits. *)
Definition reportWait (claim : AppTaskClaim) (resource : AppTaskResource) (key : string) : AppTaskInputWait :=
  pendingWait (clm_generation claim) (inputWaitOf resource key).

Definition reportSummary (exhausted : bool) (summary : string) : string :=
  "Outcome not achieved: " +:+ trim summary +:+ "; " +:+
  if exhausted then "automatic retries exhausted; owner repair or explicit retry required" else "continuing after backoff".

Definition reportAppTaskFailure (claim : AppTaskClaim) (input : ReportInput) : M (Settlement FailureReport) :=
  let taskId := clm_taskId claim in
  let result := rp_result input in
  let facts := default [] (ri_facts result) in
  tree ← readContext [taskId] [] [];
  match matchingTaskAttempt tree claim with
  | None => mret settle_stale
  | Some (resource, attempt) =>
      _ ← lift (requireNonEmptyString (Some (JStr (ri_summary result))) "Incomplete report summary");
      _ ← lift (requireStringList facts "Incomplete report facts");
      let scope := beginResourceMutationScope tree claim [] in
      '(attempt, retry) ← gets (fun s => Ok (failedExecutionState rowOrder config s now resource attempt));
      let exhausted := bool_decide (is_Some (att_retryExhausted attempt)) in
      let summary := reportSummary exhausted (ri_summary result) in
      let tree := updAttempt (clm_attemptId claim) (with_att_retryExhausted (att_retryExhausted attempt)) tree in
      outcome ← gets (fun s => inputOutcomeAdmissions s tree (claimRef claim)
                        (mkResultScope (rp_acceptedLiveEventIds input) (rp_inputKeys input) (rp_report input || exhausted))
                        oc_failure);
      let accepted := acceptedAttemptResult (oc_tree outcome) taskId r_incomplete result (rp_acceptedLiveEventIds input)
                        (Some (oc_keys outcome)) (defaultTaskAcceptance claim facts) in
      let tree := updAttempt (clm_attemptId claim) (with_att_acceptedResult (Some accepted)) (oc_tree outcome) in
      tree ← gets (fun s => retainKeys s taskId (reportWait claim) (oc_keys outcome) tree);
      let tree := consumeSettledTaskEvents tree taskId (clm_agent claim) (ar_acceptedLiveEventIds accepted) (ar_inputKeys accepted)
                  |> finishAttempt taskId at_completed summary now
                  |> updResource taskId (touchResource now (fun st => settledStatus claim summary result (retry st))) in
      _ ← commitScope now scope tree (with_admissions (oc_writes outcome));
      mret (applied (mkFailureReport summary (att_retryExhausted attempt)))
  end.

Record FailureDetails : Type := mkDetails {
  fd_reason : option string;
  fd_result : option (obj json);
  fd_facts : option (list string);
  fd_unacceptedResult : option json }.

Inductive FailureOutcome : Type :=
| fail_superseded (summary : string)
| fail_retrying (summary : string) (retryAt : option number)
| fail_exhausted (summary : string).

Definition failureSummary (exhausted : bool) (failure : string) : string :=
  if exhausted then "Automatic retries exhausted; owner repair or explicit retry required. " +:+ failure else failure.

(** Execution failed: all its input is restored, nothing is accepted. *)
Definition failAppTaskAttempt `{Crypto} (claim : AppTaskClaim) (failure : string) (details : FailureDetails)
    : M FailureOutcome :=
  let taskId := clm_taskId claim in
  tree ← readContext [taskId] [] [];
  match matchingClaimAttempt (obj_get taskId (resources tree)) (obj_get (clm_attemptId claim) (attempts tree)) claim with
  | None => mret (fail_superseded failure)
  | Some (resource, attempt) =>
      let scope := beginResourceMutationScope tree claim [] in
      '(attempt, retry) ← gets (fun s => Ok (failedExecutionState rowOrder config s now resource attempt));
      let exhausted := bool_decide (is_Some (att_retryExhausted attempt)) in
      let tree := updAttempt (clm_attemptId claim) (with_att_retryExhausted (att_retryExhausted attempt)) tree in
      outcome ← gets (fun s => inputOutcomeAdmissions s tree (claimRef claim) (mkResultScope None None exhausted) oc_failure);
      let summary := failureSummary exhausted failure in
      let failed a := with_att_failureReason (Some (default "HandlerExecutionFailed" (fd_reason details)))
                        (match fd_unacceptedResult details with Some r => with_att_unacceptedResult (Some r) a | None => a end) in
      let noted st := match fd_facts details with Some f => with_st_facts (Some f) st | None => st end in
      let kept st := match fd_result details with Some r => with_st_result (Some r) st | None => st end in
      let tree := restoreAttemptEvents (oc_tree outcome) taskId resource attempt (toISOString now)
                  |> finishAttempt taskId at_failed failure now
                  |> updAttempt (clm_attemptId claim) failed
                  |> updResource taskId (touchResource now (fun st => retry st
                       |> with_st_observedGeneration (clm_generation claim) |> with_st_currentAttemptId None
                       |> with_st_summary (Some summary) |> noted |> kept)) in
      _ ← commitScope now scope tree (with_admissions (oc_writes outcome));
      after ← lift (taskOf tree taskId);
      mret (if exhausted then fail_exhausted summary else fail_retrying summary (st_executionRetryAt (status after)))
  end.

End Failure.

End TaskSettle.
