(* ===== verification/TaskRelease.v ===== *)
(** Giving attempts back and keeping them alive
    ([src/app/core/tasks/app-task-reconciler.ts]): renewing a lease, attaching
    sessions and workspaces, stopping an attempt, releasing attempts whose
    result is stale, whose runtime is gone or whose session ended, and the
    repairs recovery runs over indexed candidates. *)
From S2P Require Import Prelude Json TaskState TaskTree Transaction ResourceStore StoreInvariant StoreCommit Snapshot.
From S2P Require Import Context Approval Conditions Records Time TaskInputs TaskEvents TaskIntent TaskMutation.
From S2P Require Import TaskOutcome TaskLease TaskContract TaskActions TaskSettle.

Module TaskRelease.
Import ResourceStore TaskTree TaskInputs TaskEvents TaskIntent Time TaskMutation TaskOutcome TaskLease TaskActions TaskSettle.

(** The write set that changes one attempt and nothing of its Task. *)
Definition attemptMutation (taskId : string) (resource : AppTaskResource) (currentAttemptId : string) (attempt : AppTaskAttempt)
    : AppTaskResourceMutation :=
  mkMutation [mkFence taskId (md_resourceVersion (metadata resource)) (Some (md_generation (metadata resource)))
                (Some (Some currentAttemptId))]
    None [] [] [] [attempt] [] [] [] [] [] [] [] [] [] [] [].

(** ** Leases and sessions *)

Definition renewAppTaskAttemptLease (leaseUuid : string) (now : Z) (claim : AppTaskClaim) (nowMs : number) : M bool :=
  let taskId := clm_taskId claim in
  tree ← readContext [taskId] [] [];
  match matchingClaimAttempt (obj_get taskId (resources tree)) (obj_get (clm_attemptId claim) (attempts tree)) claim with
  | None => mret false
  | Some (resource, attempt) =>
      _ ← commitMutation now (attemptMutation taskId resource (clm_attemptId claim)
            (refreshAttemptLease leaseUuid now nowMs (att_sessionId attempt) (bumpAttempt attempt)));
      mret true
  end.

(** Attaching a session refreshes the lease. *)
Definition attachSession (leaseUuid : string) (now : Z) (sessionId : string) (attempt : AppTaskAttempt) : AppTaskAttempt :=
  refreshAttemptLease leaseUuid now (num now) (Some sessionId) (with_att_sessionId (Some sessionId) (bumpAttempt attempt)).

Definition hasSession (attempt : AppTaskAttempt) (sessionId : string) : bool :=
  bool_decide (att_sessionId attempt = Some sessionId) && bool_decide (is_Some (att_lease attempt)).

Definition recordAppTaskAttemptSession (leaseUuid : string) (now : Z) (claim : AppTaskClaim) (sessionId : string) : M bool :=
  let taskId := clm_taskId claim in
  tree ← readContext [taskId] [] [];
  match matchingClaimAttempt (obj_get taskId (resources tree)) (obj_get (clm_attemptId claim) (attempts tree)) claim with
  | None => mret false
  | Some (resource, attempt) =>
      if hasSession attempt sessionId then mret true
      else
        _ ← commitMutation now (attemptMutation taskId resource (clm_attemptId claim)
              (attachSession leaseUuid now sessionId attempt));
        mret true
  end.

Inductive SessionAssociation : Type := session_recorded | session_superseded | session_missing.

Definition associateAppTaskSession (leaseUuid : string) (now : Z) (taskId : string) (generation : Z) (attemptId : option string)
    (sessionId : string) : M SessionAssociation :=
  tree ← readContext [taskId] [] [];
  match obj_get taskId (resources tree) with
  | None => mret session_missing
  | Some resource =>
      if negb (bool_decide (st_phase (status resource) = running)) then mret session_superseded else
      match nonempty (st_currentAttemptId (status resource)) ≫= fun id => obj_get id (attempts tree) with
      | None => mret session_superseded
      | Some attempt =>
          if negb (bool_decide (att_state attempt = at_running)) || negb (String.eqb (att_taskId attempt) taskId) ||
             negb (Z.eqb (att_taskGeneration attempt) generation) ||
             negb (bool_decide (nonempty attemptId = Some (att_id attempt)))
          then mret session_superseded
          else if hasSession attempt sessionId then mret session_recorded
          else
            _ ← commitMutation now (attemptMutation taskId resource (att_id attempt) (attachSession leaseUuid now sessionId attempt));
            mret session_recorded
      end
  end.

(** ** Workspaces *)

Definition recordAppTaskAttemptWorkspace (now : Z) (claim : AppTaskClaim) (workspace : AppTaskWorkspace) : M bool :=
  let taskId := clm_taskId claim in
  tree ← readContext [taskId] [] [];
  match matchingTaskAttempt tree claim with
  | None => mret false
  | Some _ =>
      let scope := beginResourceMutationScopeForTasks tree [taskId] in
      let tree := tree |> updAttempt (clm_attemptId claim) (fun a => with_att_workspace (Some workspace) (bumpAttempt a))
                       |> updResource taskId (touchResource now (with_st_workspaceAttemptId (Some (clm_attemptId claim)))) in
      _ ← commitScope now scope tree (fun m => m);
      mret true
  end.

(** Cleanup is recorded on the attempt that released exactly this workspace. *)
Definition releasedBy (claim : AppTaskClaim) (workspace : AppTaskWorkspace) (attempt : AppTaskAttempt) : bool :=
  String.eqb (att_taskId attempt) (clm_taskId claim) && Z.eqb (att_taskGeneration attempt) (clm_generation claim) &&
  match att_workspace attempt with
  | Some w => ws_released w && String.eqb (ws_path w) (ws_path workspace) && String.eqb (ws_branch w) (ws_branch workspace)
  | None => false
  end.

Definition recordReleasedAppTaskWorkspace (now : Z) (claim : AppTaskClaim) (workspace : AppTaskWorkspace) : M unit :=
  StateTransaction.atomically (
    tree ← readNarrow (clm_taskId claim);
    attempt ← gets (fun s => Ok (readAttempt s (clm_attemptId claim)));
    match obj_get (clm_taskId claim) (resources tree), attempt with
    | Some resource, Some attempt =>
        if releasedBy claim workspace attempt then
          commitMutation now (mkMutation [mkFence (clm_taskId claim) (md_resourceVersion (metadata resource)) None None]
            None [] [] [] [with_att_workspace (Some workspace) (bumpAttempt attempt)] [] [] [] [] [] [] [] [] [] [] [])
        else mret tt
    | _, _ => mret tt
    end).

(** ** Releasing one attempt *)

Section Release.
Context `{Crypto} (now : Z).

(** The attempt ends as interrupted with a reason, its events return to the
    pending input and the Task is pending again. *)
Definition interrupt (taskId : string) (resource : AppTaskResource) (attempt : AppTaskAttempt) (summary reason : string)
    (noteSummary : bool) (tree : TaskTree) : TaskTree :=
  restoreAttemptEvents tree taskId resource attempt (toISOString now)
  |> finishAttempt taskId at_interrupted summary now
  |> updAttempt (att_id attempt) (fun a => with_att_failureReason (Some reason) (bumpAttempt a))
  |> updResource taskId (touchResource now (fun st =>
       let st := st |> with_st_phase pending |> with_st_currentAttemptId None in
       if noteSummary then with_st_summary (Some summary) st else st)).

Inductive StaleRelease : Type := stale_released | stale_superseded | stale_missing.

Definition STALE_RESULT : string := "Stale reconciliation result was rejected; retrying from current task facts".

(** A rejected result releases the same attempt, fenced on the state just read. *)
Definition releaseStaleAppTaskResult (claim : AppTaskClaim) (summary : string) : M StaleRelease :=
  let taskId := clm_taskId claim in
  tree ← readContext [taskId] [] [];
  match obj_get taskId (resources tree) with
  | None => mret stale_missing
  | Some resource =>
      if negb (bool_decide (st_currentAttemptId (status resource) = Some (clm_attemptId claim))) then mret stale_superseded else
      match obj_get (clm_attemptId claim) (attempts tree) with
      | None => mret stale_superseded
      | Some attempt =>
          if negb (bool_decide (att_state attempt = at_running)) || negb (String.eqb (att_taskId attempt) taskId) ||
             negb (Z.eqb (att_taskGeneration attempt) (clm_generation claim)) then mret stale_superseded
          else
            let tree := interrupt taskId resource attempt summary "stale-reconciliation-result" false tree in
            after ← lift (taskOf tree taskId);
            _ ← commitMutation now (mkMutation
                  [mkFence taskId (md_resourceVersion (metadata resource)) (Some (md_generation (metadata resource)))
                     (Some (Some (clm_attemptId claim)))]
                  None [] [resourceWrite now tree after true] []
                  (option_list (obj_get (clm_attemptId claim) (attempts tree))) [] [] [] [] [] [] [] [] [] [] []);
            mret stale_released
      end
  end.

(** An owner stops one attempt's input without closing the Task. *)
Definition stopStatus (generation : Z) (reason : string) (keys : list string) (st : TaskStatus) : TaskStatus :=
  let st := dropWaits keys st |> with_st_phase attention |> with_st_observedGeneration generation
            |> with_st_currentAttemptId None |> with_st_executionRetryAt None |> with_st_summary (Some reason) in
  if bool_decide (is_Some (st_retryExhausted st)) then st
  else st |> with_st_executionFailures None |> with_st_executionFailureAttemptId (Some None).

Definition stopAppTaskAttempt (taskId attemptId : string) (expectedGeneration : Z) (reason : string)
    : M (bool * list string) :=
  tree ← readContext [taskId] [] [];
  stored ← gets (fun s => Ok (readAttempt s attemptId));
  match obj_get taskId (resources tree), stored with
  | Some resource, Some attempt =>
      if negb (String.eqb (att_taskId attempt) taskId) || negb (Z.eqb (att_taskGeneration attempt) expectedGeneration)
      then throws "Attempt stop is stale or mismatched"
      else
        let keys := taskInputAdmissionKeys (default [] (att_events attempt)) (default [] (att_continuedInputKeys attempt)) in
        if bool_decide (att_failureReason attempt = Some "owner-stopped") then mret (false, keys)
        else if negb (bool_decide (st_currentAttemptId (status resource) = Some attemptId)) ||
                negb (bool_decide (att_state attempt = at_running))
        then throws "Attempt stop is stale or mismatched"
        else
          let scope := beginResourceMutationScopeForTasks tree [taskId] in
          let tree := finishAttempt taskId at_interrupted reason now tree
                      |> updAttempt attemptId (with_att_failureReason (Some "owner-stopped"))
                      |> updResource taskId (touchResource now (stopStatus expectedGeneration reason keys)) in
          _ ← commitScope now scope tree (fun m => m);
          mret (true, keys)
  | _, _ => throws "Attempt stop is stale or mismatched"
  end.

(** ** Recovering attempts of a previous runtime *)

(** What identifies the attempt that recovery judged. *)
Record AppTaskAttemptRecovery : Type := mkAttemptRecovery {
  rec_taskId : string;
  rec_intent : AppTaskIntent;
  rec_events : option (list AppTaskTriggerEvent);
  rec_eventsTruncated : bool;
  rec_trigger : option (obj json);
  rec_sessionId : option string;
  rec_taskGeneration : Z;
  rec_attemptGeneration : Z;
  rec_taskResourceVersion : Z;
  rec_attemptId : string;
  rec_attemptResourceVersion : Z;
  rec_leaseId : option string;
  rec_leaseVersion : option Z;
  rec_legacyLeaseLess : bool }.

Definition recoveryOf (resource : AppTaskResource) (attempt : AppTaskAttempt) : AppTaskAttemptRecovery :=
  mkAttemptRecovery (md_id (metadata resource)) (resourceIntent resource)
    (match att_events attempt with Some [] | None => None | l => l end)
    (bool_decide (att_eventsTruncated attempt = Some true)) (attemptTrigger attempt) (nonempty (att_sessionId attempt))
    (md_generation (metadata resource)) (att_taskGeneration attempt) (md_resourceVersion (metadata resource))
    (att_id attempt) (att_resourceVersion attempt) (lease_id <$> att_lease attempt) (lease_version <$> att_lease attempt)
    (bool_decide (att_lease attempt = None)).

Definition isRunning (resource : AppTaskResource) : bool := bool_decide (st_phase (status resource) = running).

(** A foreign current attempt makes the whole read fail, as in the code. *)
Fixpoint recoverable (runtimeId : string) (nowMs : Z) (includeFreshLeases : bool) (tree : TaskTree)
    (rs : list AppTaskResource) : res (list AppTaskAttemptRecovery) :=
  match rs with
  | [] => Ok []
  | r :: rs =>
      if negb (isRunning r) then recoverable runtimeId nowMs includeFreshLeases tree rs else
      attempt ← currentResourceAttempt tree r;
      rest ← recoverable runtimeId nowMs includeFreshLeases tree rs;
      Ok (match attempt with
          | Some a => if String.eqb (att_runtimeId a) runtimeId || (negb includeFreshLeases && leaseIsFresh a nowMs None)
                      then rest else recoveryOf r a :: rest
          | None => rest
          end)
  end.

Definition recoverableAppTaskAttempts (runtimeId : string) (nowMs : Z) (includeFreshLeases : bool) (candidates : list string)
    : M (list AppTaskAttemptRecovery) :=
  match candidates with
  | [] => mret []
  | _ =>
      tree ← readContext candidates [] [];
      lift (recoverable runtimeId nowMs includeFreshLeases tree (obj_values (resources tree)))
  end.

(** The lease belongs to the attempt's own session and runtime. *)
Definition ownLease (a : AppTaskAttempt) : bool :=
  match nonempty (att_sessionId a), att_lease a with
  | Some sessionId, Some lease =>
      bool_decide (lease_sessionId lease = Some sessionId) && String.eqb (lease_runtimeId lease) (att_runtimeId a)
  | _, _ => false
  end.

Definition expiredAgentSessionAppTaskAttempt (taskId : string) (nowMs : Z) (activity : option AttemptSessionActivity)
    : M (option AppTaskAttemptRecovery) :=
  tree ← readContext [taskId] [] [];
  match obj_get taskId (resources tree) with
  | Some resource =>
      if negb (isRunning resource) then mret None else
      attempt ← lift (currentResourceAttempt tree resource);
      mret (match attempt with
            | Some a => if isManagedAgentHandler (att_handler a) && ownLease a && negb (leaseIsFresh a nowMs activity)
                        then Some (recoveryOf resource a) else None
            | None => None
            end)
  | None => mret None
  end.

(** The state that was judged is still the current one. *)
Definition sameRecovery (rc : AppTaskAttemptRecovery) (resource : AppTaskResource) (attempt : AppTaskAttempt) : bool :=
  Z.eqb (md_generation (metadata resource)) (rec_taskGeneration rc) &&
  Z.eqb (md_resourceVersion (metadata resource)) (rec_taskResourceVersion rc) &&
  bool_decide (st_currentAttemptId (status resource) = Some (rec_attemptId rc)) &&
  String.eqb (att_id attempt) (rec_attemptId rc) && Z.eqb (att_resourceVersion attempt) (rec_attemptResourceVersion rc).

Definition sameLease (rc : AppTaskAttemptRecovery) (attempt : AppTaskAttempt) : bool :=
  match att_lease attempt with
  | Some l => bool_decide (rec_leaseId rc = Some (lease_id l)) && bool_decide (rec_leaseVersion rc = Some (lease_version l))
  | None => false
  end.

Definition interruptAndCommit (taskId : string) (resource : AppTaskResource) (attempt : AppTaskAttempt)
    (summary reason : string) (noteSummary : bool) (tree : TaskTree) : M unit :=
  let scope := beginResourceMutationScopeForTasks tree [taskId] in
  commitScope now scope (interrupt taskId resource attempt summary reason noteSummary tree) (fun m => m).

(** [Some ids] tells that the attempt was released, with its sessions. *)
Definition releaseInterruptedAppTaskAttempt (runtimeId : string) (rc : AppTaskAttemptRecovery) (summary : string)
    : M (option (list string)) :=
  let taskId := rec_taskId rc in
  tree ← readContext [taskId] [] [];
  match obj_get taskId (resources tree) with
  | None => mret None
  | Some resource =>
      if negb (isRunning resource) then mret None else
      current ← lift (currentResourceAttempt tree resource);
      match current with
      | None => mret None
      | Some attempt =>
          if String.eqb (att_runtimeId attempt) runtimeId || negb (sameRecovery rc resource attempt) ||
             negb (if rec_legacyLeaseLess rc then bool_decide (att_lease attempt = None) else sameLease rc attempt)
          then mret None
          else
            let recovered := summary +:+ "; " +:+ (if taskExecutionRetryExhausted resource
              then "automatic retries remain exhausted; owner repair or explicit retry required"
              else "retrying from current task facts") in
            _ ← interruptAndCommit taskId resource attempt recovered "previous-runtime-attempt-requeued" false tree;
            mret (Some (option_list (nonempty (att_sessionId attempt))))
      end
  end.

Definition releaseTerminalSessionExpiredAppTaskAttempt (rc : AppTaskAttemptRecovery) (sessionId terminalStatus summary : string)
    (nowMs : Z) (activity : option AttemptSessionActivity) : M (option (list string)) :=
  let taskId := rec_taskId rc in
  tree ← readContext [taskId] [] [];
  match obj_get taskId (resources tree) with
  | None => mret None
  | Some resource =>
      if negb (isRunning resource) then mret None else
      current ← lift (currentResourceAttempt tree resource);
      match current with
      | None => mret None
      | Some attempt =>
          if isManagedAgentHandler (att_handler attempt) && sameRecovery rc resource attempt &&
             bool_decide (att_sessionId attempt = Some sessionId) && sameLease rc attempt &&
             match att_lease attempt with
             | Some l => bool_decide (lease_sessionId l = Some sessionId) && String.eqb (lease_runtimeId l) (att_runtimeId attempt)
             | None => false
             end && negb (leaseIsFresh attempt nowMs activity)
          then
            let recovered := summary +:+ "; terminal agent session " +:+ sessionId +:+ " (" +:+ terminalStatus +:+
                  ") cannot return this expired attempt; retrying from current task facts" in
            _ ← interruptAndCommit taskId resource attempt recovered "terminal-agent-session-expired-lease-requeued" true tree;
            mret (Some [sessionId])
          else mret None
      end
  end.

Definition releaseLateTerminalWorkflowAppTaskAttempt (taskId : string) (generation : Z) (sessionId summary : string) : M bool :=
  tree ← readContext [taskId] [] [];
  match obj_get taskId (resources tree) with
  | None => mret false
  | Some resource =>
      if negb (isRunning resource) then mret false else
      current ← lift (currentResourceAttempt tree resource);
      match current with
      | None => mret false
      | Some attempt =>
          if Z.eqb (att_taskGeneration attempt) generation && bool_decide (att_sessionId attempt = Some sessionId) then
            _ ← interruptAndCommit taskId resource attempt (summary +:+ "; retrying the same task from current facts")
                  "late-terminal-workflow-result-requeued" true tree;
            mret true
          else mret false
      end
  end.

(** ** Repairs over indexed candidates *)

Record Repair : Type := mkRepair { rep_taskId : string; rep_summary : string }.

(** A repair inspects one Task of the tree as it is now. *)
Definition repairLoop (step : TaskTree -> AppTaskResource -> option (TaskTree * string)) (tree : TaskTree)
    : TaskTree * ResourceMutationScope * list Repair :=
  fold_left (fun acc id =>
    let '(tree, scope, repairs) := acc in
    match obj_get id (resources tree) with
    | Some r =>
        match step tree r with
        | Some (tree', summary) =>
            (tree', trackResourceMutationTask tree scope (md_id (metadata r)), repairs ++ [mkRepair (md_id (metadata r)) summary])
        | None => acc
        end
    | None => acc
    end) (obj_keys (resources tree)) (tree, emptyResourceMutationScope tree, []).

Definition runRepair (step : TaskTree -> AppTaskResource -> option (TaskTree * string)) (candidates : list string)
    : M (list Repair) :=
  match candidates with
  | [] => mret []
  | _ =>
      tree ← readContext candidates [] [];
      let '(tree, scope, repairs) := repairLoop step tree in
      match repairs with
      | [] => mret []
      | _ => _ ← commitScope now scope tree (fun m => m); mret repairs
      end
  end.

Definition requeueWith (summary : string) (st : TaskStatus) : TaskStatus :=
  st |> with_st_phase pending |> with_st_currentAttemptId None |> with_st_summary (Some summary).

Definition recoveryAttentionStep (tree : TaskTree) (r : AppTaskResource) : option (TaskTree * string) :=
  let taskId := md_id (metadata r) in
  if negb (bool_decide (st_phase (status r) = attention)) then None else
  match latestTaskAttempt tree taskId None with
  | Some a =>
      if bool_decide (att_failureReason a = Some "previous-runtime-attempt-not-recoverable") then
        let base := default ("Interrupted reconciliation " +:+ taskId +:+
          " cannot resume because its previous runtime did not persist the trigger packet")
          (nonempty (trim <$> st_summary (status r))) in
        let summary := base +:+ "; retrying from current task facts" in
        Some (tree |> updAttempt (att_id a) (fun a => with_att_failureReason (Some "previous-runtime-attempt-requeued") (bumpAttempt a))
                   |> updResource taskId (touchResource now (requeueWith summary)), summary)
      else None
  | None => None
  end.

Definition repairPreviousRuntimeRecoveryAttention : list string -> M (list Repair) := runRepair recoveryAttentionStep.

(** Open Conditions on requests that the destination App never admitted. *)
Definition missingRequests (isAdmitted : string -> bool) (tree : TaskTree) (r : AppTaskResource) : list (string * string) :=
  omap (fun conditionId =>
    match obj_get conditionId (conditions tree) with
    | Some c =>
        if negb (isSatisfied c) && String.eqb (cs_type (cond_spec c)) "app.dependency.updated" &&
           startsWith (cs_subject (cond_spec c)) "id:"
        then let requestId := trim (Conditions.slice 3 (cs_subject (cond_spec c))) in
             if negb (String.eqb requestId "") && negb (isAdmitted requestId) then Some (conditionId, requestId) else None
        else None
    | None => None
    end) (default [] (st_conditionIds (status r))).

Definition unadmittedStep (isAdmitted : string -> bool) (tree : TaskTree) (r : AppTaskResource) : option (TaskTree * string) :=
  let taskId := md_id (metadata r) in
  if negb (bool_decide (st_phase (status r) = waiting)) then None else
  match missingRequests isAdmitted tree r with
  | [] => None
  | missing =>
      let one := Nat.eqb (length missing) 1 in
      let summary := "App dependency request" +:+ (if one then "" else "s") +:+ " " +:+ String.concat ", " (map snd missing) +:+
        " " +:+ (if one then "was" else "were") +:+ " not admitted; retrying the same Task from current facts" in
      Some (fold_left (fun tree m => unlinkExactTaskCondition now taskId m.1 tree) missing tree
            |> updResource taskId (touchResource now (fun st => requeueWith summary st
                 |> with_st_observedGeneration (Z.max 0 (md_generation (metadata r) - 1)))), summary)
  end.

Definition repairUnadmittedAppDependencyWaits (isAdmitted : string -> bool) : list string -> M (list Repair) :=
  runRepair (unadmittedStep isAdmitted).

Definition withoutAttemptStep (tree : TaskTree) (r : AppTaskResource) : option (TaskTree * string) :=
  let taskId := md_id (metadata r) in
  if negb (isRunning r) then None else
  let attemptId := nonempty (st_currentAttemptId (status r)) in
  let attempt := attemptId ≫= fun id => obj_get id (attempts tree) in
  if match attempt with Some a => bool_decide (att_state a = at_running) | None => false end then None else
  let summary := match attemptId with
    | Some id => "Running reconciliation " +:+ taskId +:+ " referenced missing or non-running attempt " +:+ id +:+
                 "; retrying from current task facts"
    | None => "Running reconciliation " +:+ taskId +:+ " had no current attempt; retrying from current task facts"
    end in
  let mark a := bumpAttempt a |> with_att_failureReason (Some "running-without-current-attempt-requeued")
                |> with_att_summary (Some summary) |> with_att_finishedAt (Some (default (toISOString now) (att_finishedAt a))) in
  Some (match attempt with Some a => updAttempt (att_id a) mark tree | None => tree end
        |> updResource taskId (touchResource now (requeueWith summary)), summary).

Definition repairRunningAppTasksWithoutAttempt : list string -> M (list Repair) := runRepair withoutAttemptStep.

End Release.
End TaskRelease.
