(* ===== verification/TaskControl.v ===== *)
(** Explicit control of a Task ([src/app/core/tasks/app-task-reconciler.ts]):
    retrying a failed Task, closing or cancelling one, and reopening a closed
    one.  Each is fenced on the exact generation and version the caller saw and
    leaves a durable receipt under its control key, so a repeated request
    returns the same facts and applies nothing. *)
From S2P Require Import Prelude Json TaskState TaskTree Transaction ResourceStore StoreInvariant StoreCommit Snapshot.
From S2P Require Import Context Approval Conditions Records Time TaskInputs TaskEvents TaskIntent TaskMutation.
From S2P Require Import TaskOutcome TaskLease TaskContract TaskActions TaskSettle.

Module TaskControl.
Import ResourceStore TaskTree TaskInputs TaskEvents TaskIntent Time TaskMutation TaskOutcome TaskLease TaskActions TaskSettle.

(** What a caller names: the Task at one generation and version. *)
Record ControlTarget : Type := mkTarget {
  tg_appId : string;
  tg_taskId : string;
  tg_expectedGeneration : Z;
  tg_expectedResourceVersion : Z;
  tg_controlKey : option string }.

Definition targetName (t : ControlTarget) : string := "Task " +:+ tg_appId t +:+ "/" +:+ tg_taskId t.

Definition usedKey (t : ControlTarget) : string :=
  "Task control key " +:+ default "" (tg_controlKey t) +:+ " was already used for a different operation".

(** The receipt under a key belongs to this very operation. *)
Definition sameOperation (t : ControlTarget) (action : ControlAction) (c : AppTaskControlReceipt) : bool :=
  bool_decide (ctl_action c = action) && String.eqb (ctl_appId c) (tg_appId t) && String.eqb (ctl_taskId c) (tg_taskId t) &&
  Z.eqb (ctl_expectedGeneration c) (tg_expectedGeneration t) &&
  Z.eqb (ctl_expectedResourceVersion c) (tg_expectedResourceVersion t).

Definition priorControl (t : ControlTarget) : M (option AppTaskControlReceipt) :=
  gets (fun s => Ok (nonempty (tg_controlKey t) ≫= readControlReceipt s)).

(** The Task at exactly the expected generation and version. *)
Definition expectExact (t : ControlTarget) (tree : TaskTree) : res AppTaskResource :=
  match obj_get (tg_taskId t) (resources tree) with
  | None => Throw (targetName t +:+ " was not found")
  | Some r =>
      if negb (Z.eqb (md_generation (metadata r)) (tg_expectedGeneration t)) then
        Throw (targetName t +:+ " generation changed: expected " +:+ show_Z (tg_expectedGeneration t) +:+ ", current " +:+
               show_Z (md_generation (metadata r)))
      else if negb (Z.eqb (md_resourceVersion (metadata r)) (tg_expectedResourceVersion t)) then
        Throw (targetName t +:+ " resource version changed: expected " +:+ show_Z (tg_expectedResourceVersion t) +:+
               ", current " +:+ show_Z (md_resourceVersion (metadata r)))
      else Ok r
  end.

(** The receipts an operation leaves: one when it has a key. *)
Definition controlReceipts (t : ControlTarget) (action : ControlAction) (now applied_version : Z) (result : option ControlResult)
    : list AppTaskControlReceipt :=
  match nonempty (tg_controlKey t) with
  | Some key => [mkControl key (tg_appId t) (tg_taskId t) action (tg_expectedGeneration t) (tg_expectedResourceVersion t)
                   applied_version now result]
  | None => []
  end.

(** ** Retrying *)

Section Control.
Context `{Crypto} (now : Z).

(** [AppTaskRetryReceipt], as the control receipt keeps it. *)
Definition retryReceipt (receiptId : string) (t : ControlTarget) (resourceVersion : Z) (previousAttemptId : string)
    : ControlResult :=
  mkControlResult None (Some previousAttemptId)
    (Some (JObj [("receiptId", JStr receiptId); ("action", JStr "app.task.retry"); ("disposition", JStr "requeued");
       ("appId", JStr (tg_appId t)); ("taskId", JStr (tg_taskId t));
       ("generation", JNum (num (tg_expectedGeneration t)));
       ("previousResourceVersion", JNum (num (tg_expectedResourceVersion t)));
       ("resourceVersion", JNum (num resourceVersion)); ("previousAttemptId", JStr previousAttemptId);
       ("acceptedAt", JStr (toISOString now))])).

(** Only a Task whose last attempt failed, and that is not executing, is retried. *)
Definition retryEligible (t : ControlTarget) (resource : AppTaskResource) (attempt : option AppTaskAttempt)
    : res AppTaskAttempt :=
  let cooling := bool_decide (st_phase (status resource) = pending) &&
                 bool_decide (is_Some (st_executionRetryAt (status resource))) in
  if negb (bool_decide (st_phase (status resource) = attention)) && negb cooling then
    Throw (targetName t +:+ " is not eligible for retry: phase is " +:+ phaseName (st_phase (status resource)) +:+
           ", expected a failed attempt awaiting retry")
  else match attempt with
       | Some a =>
           if unsuccessful a && bool_decide (nonempty (st_currentAttemptId (status resource)) = None) then Ok a
           else Throw (targetName t +:+ " is not eligible for retry: its current generation has no completed failed attempt")
       | None => Throw (targetName t +:+ " is not eligible for retry: its current generation has no completed failed attempt")
       end.

Definition retryStatus (generation : Z) (st : TaskStatus) : TaskStatus :=
  clearFailures st |> with_st_phase pending |> with_st_observedGeneration (Z.max 0 (generation - 1))
    |> with_st_currentAttemptId None.

Definition retryInTree (receiptId : string) (t : ControlTarget) (tree : TaskTree) : M ControlResult :=
  let taskId := tg_taskId t in
  resource ← lift (expectExact t tree);
  attempt ← gets (fun s => Ok (match st_retryExhausted (status resource) with
                               | Some x => readAttempt s (re_attemptId x)
                               | None => latestTaskAttempt tree taskId (Some (tg_expectedGeneration t))
                               end));
  attempt ← lift (retryEligible t resource attempt);
  let scope := beginResourceMutationScopeForTasks tree [taskId] in
  let tree := if bool_decide (att_state attempt = at_failed)
              then restoreAttemptEvents tree taskId resource attempt (toISOString now) else tree in
  let tree := updResource taskId (touchResource now (retryStatus (md_generation (metadata resource)))) tree in
  let version := md_resourceVersion (metadata resource) + 1 in
  let receipt := retryReceipt receiptId t version (att_id attempt) in
  _ ← commitScope now scope tree (fun m => with_closure [] [] [] (controlReceipts t act_retry now version (Some receipt)) m);
  mret receipt.

Definition retryFailedAppTask (receiptId : string) (t : ControlTarget) : M ControlResult :=
  cancelled ← gets (fun s => Ok (isCancelled s (tg_taskId t)));
  if (cancelled : bool) then
    throws ("Cannot retry cancelled task " +:+ tg_appId t +:+ "/" +:+ tg_taskId t +:+ "; create a new linked task")
  else
  prior ← priorControl t;
  match prior with
  | Some c =>
      if negb (sameOperation t act_retry c) then throws (usedKey t)
      else match ctl_result c with
           | Some result => mret result
           | None => throws ("Task retry control receipt " +:+ default "" (tg_controlKey t) +:+ " has no valid result")
           end
  | None => tree ← readContext [tg_taskId t] [] []; retryInTree receiptId t tree
  end.

(** ** Reopening *)

Record ReopenInput : Type := mkReopen {
  re_target : ControlTarget;
  re_reason : string;
  re_input : option json;
  re_intent : option AppTaskIntent }.

Definition reopenKey (i : ReopenInput) : string := default "" (tg_controlKey (re_target i)).

Definition reopenResult (i : ReopenInput) (closure : AppTaskCancellation) (generation resourceVersion : Z) : ControlResult :=
  mkControlResult (Some closure) None
    (Some (JObj ([("taskId", JStr (tg_taskId (re_target i))); ("generation", JNum (num generation));
        ("resourceVersion", JNum (num resourceVersion)); ("reason", JStr (trim (re_reason i)))] ++
       match re_input i with
       | Some v => [("input", v); ("admissionKey", JStr ("task-reopen:" +:+ reopenKey i))]
       | None => []
       end))).

(** A repeated reopening: the same target, reason and input. *)
Definition sameReopening (i : ReopenInput) (c : AppTaskControlReceipt) (result : ControlResult) : bool :=
  let t := re_target i in
  let field k := match cres_other result with Some (JObj o) => obj_get k o | _ => None end in
  bool_decide (ctl_action c = act_reopen) && String.eqb (ctl_taskId c) (tg_taskId t) &&
  Z.eqb (ctl_expectedGeneration c) (tg_expectedGeneration t) &&
  Z.eqb (ctl_expectedResourceVersion c) (tg_expectedResourceVersion t) &&
  str_is (field "reason") (trim (re_reason i)) && opt_deep_eqb (field "input") (re_input i).

(** The requirements the responsible App mapped the continuation to. *)
Definition reopenSpec (i : ReopenInput) (resource : AppTaskResource) : res TaskSpec :=
  match re_intent i with
  | None => Ok (spec resource)
  | Some intent =>
      let s := in_spec intent in
      let intent := mkIntent (tg_taskId (re_target i))
        (mkSpec (spec_parentId (spec resource)) (spec_outcome s) (spec_acceptance s) (spec_agent s) (spec_owner s)
           (spec_workflow s) (spec_executor s) (spec_input s) (spec_outputs s) (spec_dependsOn s) (spec_priority s)
           (spec_category s)) (in_mode intent) in
      intent ← normalizeTaskAgent intent ("Task " +:+ in_id intent);
      _ ← validateIntent intent;
      if bool_decide (spec_executor (in_spec intent) = Some "conversation")
      then Throw "Conversation input must use its linked successor" else Ok (resourceSpec intent)
  end.

(** A fresh lifecycle: nothing of the closed one is restored. *)
Definition reopenedResource (i : ReopenInput) (maxEventId : Z) (newSpec : TaskSpec) (r : AppTaskResource) : AppTaskResource :=
  mkResource (mkMetadata (md_id (metadata r)) (md_creator (metadata r)) (md_generation (metadata r) + 1)
      (md_resourceVersion (metadata r) + 1) (Some maxEventId)) newSpec
    (mkStatus (tg_expectedGeneration (re_target i)) pending (Some human) None None None None (Some None) None None None None
       false (Some ("Reopened at the user's request: " +:+ trim (re_reason i))) None None None None None (toISOString now)).

Definition reopenTrigger (i : ReopenInput) (generation : Z) : AppTaskTrigger :=
  let event := [("type", JStr "app.task.reopen.requested"); ("source", JStr "human");
                ("data", JObj [("reason", JStr (trim (re_reason i)))])] in
  mkTrigger (tg_taskId (re_target i)) generation 1 (Some [mkTriggerEvent event (toISOString now)]) event (toISOString now).

Definition checkReopen (i : ReopenInput) (parentCancelled : bool) (resource : option AppTaskResource)
    (closure : option AppTaskCancellation) : res (AppTaskResource * AppTaskCancellation) :=
  match resource, closure with
  | Some r, Some c =>
      if negb (Z.eqb (md_generation (metadata r)) (tg_expectedGeneration (re_target i))) ||
         negb (Z.eqb (md_resourceVersion (metadata r)) (tg_expectedResourceVersion (re_target i)))
      then Throw "Task version changed; read the current Task before reopening"
      else if parentCancelled then Throw "Reopen the closed parent before its child"
      else if bool_decide (spec_executor (spec r) = Some "conversation") then
        Throw "Conversation input must use its linked successor"
      else if bool_decide (is_Some (re_input i)) && bool_decide (re_intent i = None) then
        Throw "Task continuation requires the responsible App's mapped requirements"
      else Ok (r, c)
  | _, _ => Throw "Only a closed or cancelled Task can be reopened"
  end.

(** [maxEventId] is [MAX(id)] of the event table, 0 when it is empty. *)
Definition reopenInTree (maxEventId : Z) (i : ReopenInput) (tree : TaskTree) : M ControlResult :=
  let t := re_target i in
  let taskId := tg_taskId t in
  let found := obj_get taskId (resources tree) in
  parentCancelled ← gets (fun s => Ok (match found with Some r => isCancelled s (spec_parentId (spec r)) | None => false end));
  '(resource, closure) ← lift (checkReopen i parentCancelled found (obj_get taskId (cancellations tree)));
  let scope := beginResourceMutationScopeForTasks tree [taskId] in
  newSpec ← lift (reopenSpec i resource);
  let after := reopenedResource i maxEventId newSpec resource in
  let generation := md_generation (metadata after) in
  let version := md_resourceVersion (metadata after) in
  let tree := tree |> setResource after taskId |> with_cancellations (obj_delete taskId (cancellations tree)) in
  let tree := match re_input i with
              | None => with_taskTriggers (obj_set taskId (reopenTrigger i generation) (taskTriggers tree)) tree
              | Some _ => tree
              end in
  let result := reopenResult i closure generation version in
  _ ← commitScope now scope tree (with_closure [] [] [taskId]
        [mkControl (reopenKey i) (tg_appId t) taskId act_reopen (tg_expectedGeneration t) (tg_expectedResourceVersion t)
           version now (Some result)]);
  mret result.

Definition reopenAppTask (maxEventId : Z) (i : ReopenInput) : M ControlResult :=
  StateTransaction.atomically (
    _ ← lift (requireNonEmptyString (Some (JStr (re_reason i))) "Task reopening reason");
    _ ← lift (requireNonEmptyString (Some (JStr (reopenKey i))) "Task reopening control key");
    appId ← gets (fun s => Ok (appId s));
    if negb (String.eqb (tg_appId (re_target i)) appId) then throws "Task reopening belongs to another App" else
    prior ← gets (fun s => Ok (readControlReceipt s (reopenKey i)));
    match prior with
    | Some c =>
        match ctl_result c with
        | Some result => if sameReopening i c result then mret result
                         else throws "Task control key was already used for a different operation"
        | None => throws "Task control key was already used for a different operation"
        end
    | None => tree ← readContext [tg_taskId (re_target i)] [] []; reopenInTree maxEventId i tree
    end).

(** ** Closing and cancelling *)

Record CloseInput : Type := mkClose {
  ls_target : ControlTarget;
  ls_reason : string;
  ls_actor : option ResourceCreator;
  ls_appPolicy : bool;
  ls_kind : ClosureKind;
  ls_afterResult : option string }.

Record CancellationResult : Type := mkCancelResult {
  cn_cancellation : AppTaskCancellation;
  cn_cancelledAttemptId : option string;
  cn_applied : bool }.

(** [readPastCancellation]: the closure a later reopening keeps. *)
Definition readPastCancellation (s : store) (taskId : string) (generation resourceVersion : Z) : option AppTaskCancellation :=
  head (filter (fun c => ctl_taskId c = taskId /\ ctl_action c = act_reopen /\ ctl_expectedGeneration c = generation /\
      ctl_expectedResourceVersion c = resourceVersion) (map snd (map_to_list (controls s))))
    ≫= fun c => ctl_result c ≫= cres_closure.

Definition kindOf (c : AppTaskCancellation) : ClosureKind := default ck_cancelled (can_kind c).

(** The recorded closure is the one this request asks for. *)
Definition sameClosure (i : CloseInput) (c : AppTaskCancellation) : res unit :=
  if negb (bool_decide (kindOf c = ls_kind i)) then Throw "The Task was ended by a different control"
  else if bool_decide (ls_kind i = ck_closed) && negb (bool_decide (can_acceptedResultAttemptId c = ls_afterResult i))
  then Throw "The Task was closed against a different accepted result" else Ok tt.

(** Closing needs the accepted result to be the last word on the Task. *)
Definition checkCompletion (i : CloseInput) (tree : TaskTree) (resource : AppTaskResource) (accepted : option AppTaskAttempt)
    : res unit :=
  let t := ls_target i in
  let settled := match accepted with
    | Some a => String.eqb (att_taskId a) (tg_taskId t) && Z.eqb (att_taskGeneration a) (tg_expectedGeneration t) &&
                match att_acceptedResult a with
                | Some r => bool_decide (ar_state r = r_converged) || bool_decide (ar_state r = r_incomplete)
                | None => false
                end
    | None => false
    end in
  if bool_decide (ls_kind i = ck_closed) &&
     (negb settled || negb (bool_decide (st_observedAttemptId (status resource) = ls_afterResult i)) ||
      negb (bool_decide (st_phase (status resource) = converged)) ||
      bool_decide (is_Some (nonempty (st_currentAttemptId (status resource)))) || obj_has (tg_taskId t) (taskTriggers tree))
  then Throw "Cannot close after a result while newer or unresolved work remains" else Ok tt.

Definition closeReason (i : CloseInput) : string :=
  match nonempty (Some (trim (ls_reason i))) with
  | Some r => r
  | None => match ls_kind i with ck_closed => "owner ended the Task" | ck_cancelled => "human requested cancellation" end
  end.

Definition closeSummary (i : CloseInput) : string :=
  let verb := match ls_kind i with ck_closed => "Closed" | ck_cancelled => "Cancelled" end in
  match ls_actor i with
  | Some _ => verb +:+ " by creator: " +:+ closeReason i
  | None => if bool_decide (ls_kind i = ck_closed) || ls_appPolicy i then verb +:+ " by App policy: " +:+ closeReason i
            else "Cancelled by human: " +:+ closeReason i
  end.

Definition closeDecider (i : CloseInput) : Decider :=
  match ls_actor i with
  | Some a => by_creator a
  | None => if bool_decide (ls_kind i = ck_closed) || ls_appPolicy i then by_app_policy else by_human
  end.

(** The status a closed Task keeps. *)
Definition closedStatus (i : CloseInput) (generation : Z) (st : TaskStatus) : TaskStatus :=
  let st' := st |> with_st_phase (if bool_decide (ls_kind i = ck_closed) && bool_decide (st_phase st = converged)
                                  then converged else attention)
               |> with_st_observedGeneration generation |> with_st_currentAttemptId None in
  let st' := match ls_kind i with
             | ck_closed => st'
             | ck_cancelled => st' |> with_st_summary (Some (closeSummary i)) |> with_st_response (Some (closeSummary i))
                                   |> with_st_result None
             end in
  st' |> with_st_facts (Some (default [] (st_facts st))) |> with_st_conditionIds (Some []).

(** The closed tree: the running attempt is interrupted and loses its lease,
    the pending input and the waits are dropped. *)
Definition closedTree (i : CloseInput) (resource : AppTaskResource) (tree : TaskTree) : TaskTree :=
  let taskId := tg_taskId (ls_target i) in
  let attemptId := nonempty (st_currentAttemptId (status resource)) in
  let tree := match attemptId ≫= fun id => obj_get id (attempts tree) with
              | Some a => finishAttempt taskId at_interrupted (closeSummary i) now tree
                          |> updAttempt (att_id a) (fun a => a |> with_att_reason (closeSummary i) |> with_att_lease None)
              | None => tree
              end in
  with_taskTriggers (obj_delete taskId (taskTriggers tree)) tree
  |> updResource taskId (touchResource now (closedStatus i (md_generation (metadata resource)))).

Definition commitTaskCancellation (i : CloseInput) (resource : AppTaskResource) (tree : TaskTree) : M CancellationResult :=
  let t := ls_target i in
  let taskId := tg_taskId t in
  let scope := beginResourceMutationScopeForTasks tree [taskId] in
  let conditionIds := default [] (st_conditionIds (status resource)) in
  let tree := closedTree i resource tree in
  after ← lift (taskOf tree taskId);
  let version := md_resourceVersion (metadata after) in
  let cancellation := mkCancellation (Some (ls_kind i)) (nonempty (ls_afterResult i)) (tg_appId t) taskId
    (md_generation (metadata after)) version (spec_outcome (spec after)) (closeReason i) (closeSummary i) (toISOString now)
    (Some (closeDecider i)) (st_response (status after)) (st_result (status after)) (st_facts (status after)) in
  _ ← commitScope now scope tree
        (with_closure [cancellation] conditionIds [] (controlReceipts t act_cancel now version None));
  mret (mkCancelResult cancellation (nonempty (st_currentAttemptId (status resource))) true).

Definition replayClosure (i : CloseInput) (c : AppTaskControlReceipt) : M CancellationResult :=
  let t := ls_target i in
  if negb (sameOperation t act_cancel c) then throws (usedKey t) else
  recorded ← gets (fun s => Ok (match readPastCancellation s (tg_taskId t) (tg_expectedGeneration t)
                                        (tg_expectedResourceVersion t + 1) with
                                | Some c => Some c
                                | None => readCancellation s (tg_taskId t)
                                end));
  match recorded with
  | None => throws ("Task cancellation receipt " +:+ default "" (tg_controlKey t) +:+ " has no terminal facts")
  | Some cancellation => _ ← lift (sameClosure i cancellation); mret (mkCancelResult cancellation None false)
  end.

Definition closeTask (i : CloseInput) : M CancellationResult :=
  let t := ls_target i in
  appId ← gets (fun s => Ok (appId s));
  if negb (String.eqb (tg_appId t) appId) then throws ("Task cancellation belongs to another App: " +:+ tg_appId t) else
  _ ← gets (fun s => match ls_actor i with
                     | Some actor => assertResourceCreator (readTask s (tg_taskId t) ≫= fun r => md_creator (metadata r)) actor
                     | None => Ok tt
                     end);
  prior ← priorControl t;
  match prior with
  | Some c => replayClosure i c
  | None =>
      existing ← gets (fun s => Ok (readCancellation s (tg_taskId t)));
      match existing with
      | Some c =>
          if negb (Z.eqb (can_generation c) (tg_expectedGeneration t)) ||
             negb (Z.eqb (can_resourceVersion c) (tg_expectedResourceVersion t + 1))
          then throws (targetName t +:+ " was already cancelled at another version")
          else _ ← lift (sameClosure i c); mret (mkCancelResult c None false)
      | None =>
          tree ← readContext [tg_taskId t] [] [];
          resource ← lift (expectExact t tree);
          accepted ← gets (fun s => Ok (ls_afterResult i ≫= readAttempt s));
          _ ← lift (checkCompletion i tree resource accepted);
          commitTaskCancellation i resource tree
      end
  end.

Definition closeAppTask (t : ControlTarget) (reason : string) (actor : option ResourceCreator) (appPolicy : bool)
    (afterResult : string) : M CancellationResult :=
  _ ← lift (requireNonEmptyString (Some (JStr afterResult)) "Task completion afterResult");
  closeTask (mkClose t reason actor appPolicy ck_closed (Some afterResult)).

Definition cancelAppTask (t : ControlTarget) (reason : string) (actor : option ResourceCreator) (appPolicy : bool)
    : M CancellationResult :=
  closeTask (mkClose t reason actor appPolicy ck_cancelled None).

End Control.
End TaskControl.
