(* ===== verification/TaskQueries.v ===== *)
(** Bounded reads for agents and the work queue
    ([src/app/core/tasks/app-task-reconciler.ts]): the child context and the live
    snapshot an attempt is given, and the ordered queue of runnable Tasks with
    ageing priorities. *)
From S2P Require Import Prelude Json TaskState TaskTree Transaction ResourceStore StoreInvariant StoreCommit.
From S2P Require Import RecoveryIndex Snapshot Context Approval Conditions Records Time TaskInputs TaskEvents.
From S2P Require Import TaskIntent TaskMutation TaskOutcome TaskLease TaskContract TaskActions.

Module TaskQueries.
Import ResourceStore TaskTree TaskInputs TaskEvents TaskIntent Time TaskMutation TaskOutcome TaskLease TaskActions.

(** ** Bounded text *)

Definition MAX_LIVE_CHILD_CONTEXT : nat := 16.
Definition MAX_COMPLETED_CHILD_CONTEXT : nat := 8.
Definition MAX_APP_TASK_LIVE_SNAPSHOT : nat := 64.
Definition MAX_CHILD_FACTS : nat := 4.
Definition MAX_CHILD_CONTEXT_TEXT : nat := 512.
Definition MAX_SNAPSHOT_CONTEXT_TEXT : nat := 256.
Definition MAX_SNAPSHOT_RELATED_TASK_IDS : nat := 8.

(** [value.slice(0, n)]. *)
Definition cut (n : nat) (value : string) : string := unchars (take n (chars value)).

Definition boundedChildContextText (value : string) : string :=
  if Nat.leb (length (chars value)) MAX_CHILD_CONTEXT_TEXT then value
  else cut (MAX_CHILD_CONTEXT_TEXT - 3) value +:+ "...".

Definition boundedChildFacts (facts : list string) : list string :=
  map boundedChildContextText (take MAX_CHILD_FACTS facts).

(** ** Facts of one Task *)

Record ReadinessContext : Type := mkReadinessContext {
  rx_state : ReadinessState; rx_reason : string; rx_relatedTaskIds : list string }.

Record LiveContext : Type := mkLive {
  lv_taskId : string;
  lv_parentId : string;
  lv_generation : Z;
  lv_phase : Phase;
  lv_outcome : string;
  lv_agent : option string;
  lv_workflow : option string;
  lv_executor : option string;
  lv_input : obj json;
  lv_priority : option TaskPriority;
  lv_category : option string;
  lv_dependsOn : list string;
  lv_conditions : list ConditionDecl;
  lv_readiness : option ReadinessContext;
  lv_latestAttempt : option (string * option string);
  lv_hasLiveChildren : bool;
  lv_updatedAt : string;
  lv_summary : option string;
  lv_facts : list string }.

Definition linkedSpecs (tree : TaskTree) (resource : AppTaskResource) : list ConditionDecl :=
  omap (fun id => (fun c => mkDecl (cond_id c) (cond_spec c)) <$> obj_get id (conditions tree))
    (default [] (st_conditionIds (status resource))).

Definition hasLiveChildren (tree : TaskTree) (taskId : string) : bool :=
  negb (Nat.eqb (length (liveChildTaskIds tree taskId)) 0).

Definition liveTaskContext (tree : TaskTree) (resource : AppTaskResource) (readiness : option AppTaskReadiness)
    : res LiveContext :=
  attempt ← currentResourceAttempt tree resource;
  let s := spec resource in
  let st := status resource in
  Ok (mkLive (md_id (metadata resource)) (spec_parentId s) (md_generation (metadata resource)) (st_phase st)
    (boundedChildContextText (spec_outcome s)) (nonempty (spec_owner s)) (nonempty (spec_workflow s))
    (nonempty (spec_executor s)) (default [] (spec_input s)) (spec_priority s) (nonempty (spec_category s))
    (default [] (spec_dependsOn s)) (linkedSpecs tree resource)
    ((fun r => mkReadinessContext (rd_state r) (boundedChildContextText (rd_reason r))
        (take MAX_LIVE_CHILD_CONTEXT (rd_related_ids r))) <$> readiness)
    ((fun a => (att_handler a, nonempty (att_failureReason a))) <$> attempt)
    (hasLiveChildren tree (md_id (metadata resource))) (st_updatedAt st)
    (boundedChildContextText <$> nonempty (st_summary st)) (boundedChildFacts (default [] (st_facts st)))).

Record SnapshotContext : Type := mkSnapshotContext {
  sx_taskId : string;
  sx_parentId : string;
  sx_generation : Z;
  sx_phase : Phase;
  sx_outcome : string;
  sx_agent : option string;
  sx_executor : option string;
  sx_priority : option TaskPriority;
  sx_category : option string;
  sx_dependsOn : list string;
  sx_conditions : list ConditionDecl;
  sx_readiness : option ReadinessContext;
  sx_hasLiveChildren : bool;
  sx_updatedAt : string }.

(** The snapshot names a Condition without what it expects. *)
Definition snapshotCondition (c : AppTaskCondition) : ConditionDecl :=
  let s := cond_spec c in
  mkDecl (cond_id c) (mkConditionSpec (cs_type s) (cs_subject s) JNull (nonempty (cs_requestedAction s))
    (nonempty (cs_owner s)) (cs_reviewAfterMs s) None).

Definition liveTaskSnapshotContext (tree : TaskTree) (resource : AppTaskResource) (readiness : option AppTaskReadiness)
    : SnapshotContext :=
  let s := spec resource in
  mkSnapshotContext (md_id (metadata resource)) (spec_parentId s) (md_generation (metadata resource))
    (st_phase (status resource)) (cut MAX_SNAPSHOT_CONTEXT_TEXT (boundedChildContextText (spec_outcome s)))
    (nonempty (spec_owner s)) (nonempty (spec_executor s)) (spec_priority s) (nonempty (spec_category s))
    (take MAX_LIVE_CHILD_CONTEXT (default [] (spec_dependsOn s)))
    (omap (fun id => snapshotCondition <$> obj_get id (conditions tree)) (default [] (st_conditionIds (status resource))))
    ((fun r => mkReadinessContext (rd_state r) (cut MAX_SNAPSHOT_CONTEXT_TEXT (boundedChildContextText (rd_reason r)))
        (take MAX_SNAPSHOT_RELATED_TASK_IDS (rd_related_ids r))) <$> readiness)
    (hasLiveChildren tree (md_id (metadata resource))) (st_updatedAt (status resource)).

(** ** Child context *)

Record CompletedChild : Type := mkCompleted {
  ch_taskId : string;
  ch_parentId : string;
  ch_generation : Z;
  ch_outcome : string;
  ch_agent : string;
  ch_workflow : option string;
  ch_executor : option string;
  ch_input : obj json;
  ch_priority : option TaskPriority;
  ch_summary : string;
  ch_facts : list string;
  ch_completedAt : string }.

Record CancelledChild : Type := mkCancelledChild {
  cc_kind : ClosureKind;
  cc_taskId : string;
  cc_parentId : string;
  cc_generation : Z;
  cc_outcome : string;
  cc_summary : string;
  cc_facts : list string;
  cc_cancelledAt : string }.

Record ChildContext : Type := mkChildContext {
  cx_live : list LiveContext;
  cx_completed : list CompletedChild;
  cx_cancelled : list CancelledChild }.

Definition completedChild (r : TaskCompletionReceipt) : CompletedChild :=
  mkCompleted (rcp_id r) (rcp_parentId r) (rcp_generation r) (boundedChildContextText (rcp_outcome r)) (rcp_owner r)
    (nonempty (rcp_workflow r)) (nonempty (rcp_executor r)) (default [] (rcp_input r)) (rcp_priority r)
    (boundedChildContextText (rcp_summary r)) (boundedChildFacts (rcp_facts r)) (rcp_completedAt r).

Definition cancelledChild (parentId : string) (c : AppTaskCancellation) : CancelledChild :=
  mkCancelledChild (default ck_cancelled (can_kind c)) (can_taskId c) parentId (can_generation c)
    (boundedChildContextText (can_outcome c)) (boundedChildContextText (can_summary c))
    (boundedChildFacts (default [] (can_facts c))) (can_cancelledAt c).

(** Orders of the listings: by id, and by completion with the latest first. *)
Definition byId (a b : AppTaskResource) : Prop := String.le (md_id (metadata a)) (md_id (metadata b)).
Definition byCompletion (a b : TaskCompletionReceipt) : Prop := String.le (rcp_completedAt b) (rcp_completedAt a).

#[export] Instance byId_dec a b : Decision (byId a b).
Proof. unfold byId. apply _. Defined.
#[export] Instance byCompletion_dec a b : Decision (byCompletion a b).
Proof. unfold byCompletion. apply _. Defined.

(** [readCancelledChildren] of the store: latest request first. *)
Definition byRequest (a b : string * CancellationRow) : Prop :=
  (cw_requested_at b.2 <? cw_requested_at a.2) ||
  ((cw_requested_at a.2 =? cw_requested_at b.2) && String.leb a.1 b.1) = true.

#[export] Instance byRequest_dec a b : Decision (byRequest a b).
Proof. unfold byRequest. apply _. Defined.

Definition readCancelledChildren (s : store) (parentId : string) (limit : nat) : list AppTaskCancellation :=
  map (fun e => cw_cancellation e.2) (take limit (merge_sort byRequest
    (filter (fun e => (e.1, rel_parent, parentId) ∈ relations s) (map_to_list (ResourceStore.cancellations s))))).

Fixpoint liveContexts (tree : TaskTree) (readiness : obj AppTaskReadiness) (rs : list AppTaskResource) : res (list LiveContext) :=
  match rs with
  | [] => Ok []
  | r :: rs =>
      x ← liveTaskContext tree r (obj_get (md_id (metadata r)) readiness);
      rest ← liveContexts tree readiness rs;
      Ok (x :: rest)
  end.

Section Reads.
Context (config : AppTaskContext).

Definition appTaskConcurrencyLimit : Z := TaskTree.configuredLimit (cx_maxConcurrent config).

Definition readAppTaskChildContext (s : store) (taskId : string) : res ChildContext :=
  let runningIds := RecoveryIndex.listTaskIdsByPhase s [running] appTaskConcurrencyLimit in
  tree ← Context.readTaskContext s (Context.mkInput (set_of (taskId :: runningIds)) [] [] true
           (Some (Z.of_nat MAX_LIVE_CHILD_CONTEXT)));
  let readiness := appTaskReadinessById tree (cx_maxConcurrent config) in
  live ← liveContexts tree readiness (take MAX_LIVE_CHILD_CONTEXT (merge_sort byId
           (filter (fun r => spec_parentId (spec r) = taskId /\ obj_has (md_id (metadata r)) (cancellations tree) = false)
              (obj_values (resources tree)))));
  Ok (mkChildContext live
    (map completedChild (take MAX_COMPLETED_CHILD_CONTEXT (merge_sort byCompletion
       (filter (fun r => rcp_parentId r = taskId) (obj_values (receipts tree))))))
    (map (cancelledChild taskId) (readCancelledChildren s taskId MAX_COMPLETED_CHILD_CONTEXT))).

(** The live Tasks of the App besides the one that reads, and whether there are more. *)
Definition readAppTaskLiveSnapshot (s : store) (currentTaskId : string) : res (list SnapshotContext * bool) :=
  let indexedIds := RecoveryIndex.listLiveTaskIds s currentTaskId (Z.of_nat MAX_APP_TASK_LIVE_SNAPSHOT + 1) in
  let runningIds := RecoveryIndex.listTaskIdsByPhase s [running] appTaskConcurrencyLimit in
  tree ← Context.readTaskContext s (Context.mkInput (set_of (indexedIds ++ runningIds)) [] [] false (Some 1));
  let readiness := appTaskReadinessById tree (cx_maxConcurrent config) in
  let candidates := merge_sort byId (filter (fun r => set_has (md_id (metadata r)) indexedIds = true /\
                      st_phase (status r) <> converged) (obj_values (resources tree))) in
  Ok (map (fun r => liveTaskSnapshotContext tree r (obj_get (md_id (metadata r)) readiness))
        (take MAX_APP_TASK_LIVE_SNAPSHOT candidates),
      Nat.ltb MAX_APP_TASK_LIVE_SNAPSHOT (length indexedIds)).

(** ** The queue *)

Definition rankOf (p : TaskPriority) : Z := match p with P0 => 0 | P1 => 1 | P2 => 2 | P3 => 3 end.
Definition priorityAt (rank : Z) : TaskPriority :=
  if rank =? 0 then P0 else if rank =? 1 then P1 else if rank =? 2 then P2 else P3.

Definition appTaskPriorityAgingIntervalMs : Z := 5 * 60 * 1000.

(** A Task that waits is promoted one rank per interval, never to P0. *)
Definition agedRank (declared : Z) (ageMs : Z) : Z :=
  Z.max (if declared =? 0 then 0 else 1) (declared - ageMs / appTaskPriorityAgingIntervalMs).

Definition effectiveAppTaskPriority (resource : AppTaskResource) (nowMs : Z) (readyAt : option string) : TaskPriority :=
  let declared := default P2 (spec_priority (spec resource)) in
  match Date_parse (default (st_updatedAt (status resource)) readyAt) with
  | Fin q => priorityAt (agedRank (rankOf declared) (Z.max 0 (nowMs - Qfloor q)))
  | _ => declared
  end.

Definition hasSatisfiedConditionReconciliation (tree : TaskTree) (resource : AppTaskResource) : bool :=
  bool_decide (st_phase (status resource) = waiting) && hasSatisfiedTaskCondition tree (md_id (metadata resource)).

Record QueueEntry : Type := mkEntry { qe_taskId : string; qe_priority : TaskPriority; qe_lane : Lane }.

Definition entryPriority (tree : TaskTree) (nowMs : Z) (taskId : string) (resource : AppTaskResource) : TaskPriority :=
  let trigger := obj_get taskId (taskTriggers tree) in
  if match trigger with Some t => triggerHasDirectProjectComment (tr_event t) | None => false end ||
     hasSatisfiedConditionReconciliation tree resource
  then P0 else effectiveAppTaskPriority resource nowMs (tr_observedAt <$> trigger).

Definition entryLane (tree : TaskTree) (taskId : string) (resource : AppTaskResource) : Lane :=
  default (taskTriggerLane (tr_event <$> obj_get taskId (taskTriggers tree))) (st_lane (status resource)).

Definition queueEntry (tree : TaskTree) (nowMs : Z) (resource : AppTaskResource) : QueueEntry :=
  let id := md_id (metadata resource) in
  mkEntry id (entryPriority tree nowMs id resource) (entryLane tree id resource).

(** The order of the queue: human lane, effective priority, persisted input,
    recovery order. *)
Definition queueKey (tree : TaskTree) (nowMs : Z) (x : nat * AppTaskResource) : Z * Z * Z * Z :=
  let e := queueEntry tree nowMs x.2 in
  (if bool_decide (qe_lane e = human) then 0 else 1, rankOf (qe_priority e),
   if obj_has (qe_taskId e) (taskTriggers tree) then 0 else 1, Z.of_nat x.1).

Definition key_leb (a b : Z * Z * Z * Z) : bool :=
  let '(a1, a2, a3, a4) := a in
  let '(b1, b2, b3, b4) := b in
  (a1 <? b1) || (a1 =? b1) && ((a2 <? b2) || (a2 =? b2) && ((a3 <? b3) || (a3 =? b3) && (a4 <=? b4))).

Definition queue_le (tree : TaskTree) (nowMs : Z) (a b : nat * AppTaskResource) : Prop :=
  key_leb (queueKey tree nowMs a) (queueKey tree nowMs b) = true.

#[export] Instance queue_le_dec tree nowMs a b : Decision (queue_le tree nowMs a b).
Proof. unfold queue_le. apply _. Defined.

(** The runnable Tasks among candidates; a foreign attempt makes it fail. *)
Fixpoint keepRunnable (now : Z) (tree : TaskTree) (rs : list (nat * AppTaskResource)) : res (list (nat * AppTaskResource)) :=
  match rs with
  | [] => Ok []
  | x :: rs =>
      ready ← isRunnableOnPassiveResync now tree x.2;
      rest ← keepRunnable now tree rs;
      Ok (if (ready : bool) then x :: rest else rest)
  end.

Definition listRunnableAppTaskQueueEntries (now : Z) (s : store) : res (list QueueEntry) :=
  let candidates := set_of (map RecoveryIndex.ca_taskId
                      (RecoveryIndex.items (RecoveryIndex.listRecoveryCandidates s now 10000 None))) in
  tree ← Context.readTaskContext s (Context.mkInput candidates [] [] true None);
  runnable ← keepRunnable now tree (omap (fun x => (fun r => (x.1, r)) <$> obj_get x.2 (resources tree))
               (imap (fun i id => (i, id)) candidates));
  Ok (map (fun x => queueEntry tree now x.2) (merge_sort (queue_le tree now) runnable)).

Definition listRunnableAppTaskIds (now : Z) (s : store) : res (list string) :=
  entries ← listRunnableAppTaskQueueEntries now s; Ok (map qe_taskId entries).

Definition appTaskQueueEntries (now : Z) (s : store) (taskIds : list string) : res (list QueueEntry) :=
  let requested := set_of taskIds in
  if Nat.eqb (length requested) 0 then Ok [] else
  tree ← Context.readTaskContext s (Context.mkInput requested [] [] true None);
  Ok (omap (fun taskId => (fun r => mkEntry taskId (entryPriority tree now taskId r) (entryLane tree taskId r))
              <$> obj_get taskId (resources tree)) requested).

End Reads.
End TaskQueries.
