(* ===== verification/TaskLaws.v ===== *)
(** Laws of the reconciler's shared steps: running a store program, what the
    bounded tree an operation edits still has in common with the store, and
    what committing a scope of it writes.

    The central notion is [derived s fin tree]: [tree] was read from [s] and
    edited so that every Task but the one an operation settles ([fin]) kept its
    current attempt or lost it together with the running phase, and no attempt
    but the settled one changed its state or its Task. *)
From S2P Require Import Prelude Json TaskState TaskTree Transaction ResourceStore StoreInvariant StoreCommit.
From S2P Require Import StoreEffects Snapshot Context Approval Conditions Records Time TaskInputs TaskEvents.
From S2P Require Import TaskIntent TaskMutation TaskOutcome TaskLease TaskContract TaskActions TaskSettle.

Module TaskLaws.
Import ResourceStore StoreEffects TaskTree TaskInputs TaskEvents TaskIntent Time TaskMutation TaskOutcome TaskLease
  TaskActions TaskSettle.

(** ** Running store programs *)

Lemma run_bind {A B} (m : M A) (f : A -> M B) s b s' :
  (m ≫= f) s = (Ok b, s') -> exists a s1, m s = (Ok a, s1) /\ f a s1 = (Ok b, s').
Proof. apply StoreInvariant.bind_Ok. Qed.

Lemma run_lift {A} (r : res A) s a s' : lift r s = (Ok a, s') -> r = Ok a /\ s' = s.
Proof. intros H. unfold lift in H. by injection H as -> ->. Qed.

Lemma run_gets {A} (f : store -> res A) s a s' : gets f s = (Ok a, s') -> f s = Ok a /\ s' = s.
Proof. intros H. unfold gets in H. by injection H as -> ->. Qed.

Lemma gets_bind {A B} (f : store -> res A) (k : A -> M B) s :
  (gets f ≫= k) s = match f s with Ok a => k a s | Throw e => (Throw e, s) end.
Proof. unfold mbind, M_bind, bind, gets. by destruct (f s). Qed.

Lemma run_ret {A} (a : A) s b s' : (mret a : M A) s = (Ok b, s') -> b = a /\ s' = s.
Proof. intros H. injection H as <- <-. done. Qed.

Lemma res_bind_Ok {A B} (x : res A) (f : A -> res B) b : (x ≫= f) = Ok b -> exists a, x = Ok a /\ f a = Ok b.
Proof. destruct x; [|done]. simpl. eauto. Qed.

Lemma Ok_inj {A} (a b : A) : Ok a = Ok b -> a = b.
Proof. congruence. Qed.

Lemma run_commit now m s a s' :
  commitMutation now m s = (Ok a, s') -> admissible s m = Ok true /\ applyMutation now m s = (Ok true, s').
Proof.
  unfold commitMutation. destruct (commit now m s) as [[[]|e] s1] eqn:E; [|done..]. intros [= _ <-].
  apply StoreCommit.commit_cases in E as [(_ & ? & ?)|[? _]]; done.
Qed.

Lemma commit_fails now m s e s' : commitMutation now m s = (Throw e, s') -> s' = s.
Proof.
  unfold commitMutation. destruct (commit now m s) as [[[]|e'] s1] eqn:E; [done| |];
    intros [= _ <-]; by apply StoreCommit.commit_cases in E as [(? & _)|[_ ?]].
Qed.

(** [step]s of a program that returned. *)
Ltac run_step H a s :=
  let E := fresh "E" in
  apply run_bind in H as (a & s & E & H);
  try (apply run_lift in E as [E ->]); try (apply run_gets in E as [E ->]).

(** ** Objects *)

Lemma obj_get_set {V} k j (v : V) o : obj_get k (obj_set j v o) = if String.eqb j k then Some v else obj_get k o.
Proof.
  destruct (String.eqb_spec j k) as [->|Hne]; [apply obj_get_set_eq|]. apply obj_get_set_ne. congruence.
Qed.

Lemma elem_of_obj_set {V} k j (v w : V) o : (k, v) ∈ obj_set j w o -> (k, v) = (j, w) \/ (k, v) ∈ o.
Proof.
  induction o as [|[i u] o IH]; cbn [obj_set].
  - intros H%list_elem_of_singleton. by left.
  - destruct (String.eqb_spec i j) as [->|Hne]; intros [H|H]%elem_of_cons; auto.
    + right. by right.
    + right. rewrite H. by left.
    + destruct (IH H); [by left|]. right. by right.
Qed.

Lemma upd_resource_get id f tree k :
  obj_get k (resources (updResource id f tree)) =
  if String.eqb id k then f <$> obj_get k (resources tree) else obj_get k (resources tree).
Proof.
  unfold updResource. destruct (obj_get id (resources tree)) as [r|] eqn:E; simpl.
  - rewrite obj_get_set. destruct (String.eqb_spec id k) as [->|]; [by rewrite E|done].
  - destruct (String.eqb_spec id k) as [->|]; [by rewrite E|done].
Qed.

Lemma upd_attempt_get id f tree k :
  obj_get k (attempts (updAttempt id f tree)) =
  if String.eqb id k then f <$> obj_get k (attempts tree) else obj_get k (attempts tree).
Proof.
  unfold updAttempt. destruct (obj_get id (attempts tree)) as [r|] eqn:E; simpl.
  - rewrite obj_get_set. destruct (String.eqb_spec id k) as [->|]; [by rewrite E|done].
  - destruct (String.eqb_spec id k) as [->|]; [by rewrite E|done].
Qed.

Lemma upd_resource_attempts id f tree : attempts (updResource id f tree) = attempts tree.
Proof. unfold updResource. by case_cond. Qed.
Lemma upd_resource_triggers id f tree : taskTriggers (updResource id f tree) = taskTriggers tree.
Proof. unfold updResource. by case_cond. Qed.
Lemma upd_attempt_resources id f tree : resources (updAttempt id f tree) = resources tree.
Proof. unfold updAttempt. by case_cond. Qed.
Lemma upd_attempt_triggers id f tree : taskTriggers (updAttempt id f tree) = taskTriggers tree.
Proof. unfold updAttempt. by case_cond. Qed.

(** ** Ownership of one Task *)

(** No attempt owns the Task. *)
Definition idle (r : AppTaskResource) : Prop :=
  st_currentAttemptId (status r) = None /\ st_phase (status r) <> running.

(** The owner did not change. *)
Definition same_owner (r r' : AppTaskResource) : Prop :=
  st_currentAttemptId (status r') = st_currentAttemptId (status r) /\
  (st_phase (status r') = running <-> st_phase (status r) = running).

Definition same_identity (r r' : AppTaskResource) : Prop := md_id (metadata r') = md_id (metadata r).

(** The owner changes at most by letting the Task go. *)
Definition lets_go (r r' : AppTaskResource) : Prop :=
  st_currentAttemptId (status r') = st_currentAttemptId (status r) \/ st_currentAttemptId (status r') = None.

#[export] Instance same_owner_preorder : PreOrder same_owner.
Proof.
  split; [by intros r; split|]. intros a b c [E1 H1] [E2 H2]. split; [congruence|]. tauto.
Qed.

Lemma same_owner_idle r r' : same_owner r r' -> idle r -> idle r'.
Proof. intros [E H] [E' H']. split; [congruence|tauto]. Qed.

Lemma touch_identity now f r : same_identity r (touchResource now f r).
Proof. done. Qed.

Lemma touch_current now f r :
  st_currentAttemptId (status (touchResource now f r)) = st_currentAttemptId (f (status r)).
Proof. unfold touchResource, keepExhausted. simpl. by case_cond. Qed.

Lemma touch_running now f r :
  st_phase (status (touchResource now f r)) = running <-> st_phase (f (status r)) = running.
Proof.
  unfold touchResource, keepExhausted. simpl. case_cond; [|done]. simpl. split; [done|].
  repeat (apply andb_true_iff in Heqb as [Heqb ?]). intros Hr.
  match goal with H : bool_decide (st_phase _ = pending) = true |- _ => apply bool_decide_eq_true_1 in H; simpl in H end.
  congruence.
Qed.

Lemma touch_same now f r :
  st_currentAttemptId (f (status r)) = st_currentAttemptId (status r) ->
  (st_phase (f (status r)) = running <-> st_phase (status r) = running) ->
  same_owner r (touchResource now f r).
Proof. intros E H. split; [by rewrite touch_current|]. by rewrite touch_running. Qed.

Lemma touch_idle now f r :
  st_currentAttemptId (f (status r)) = None -> st_phase (f (status r)) <> running -> idle (touchResource now f r).
Proof. intros E H. split; [by rewrite touch_current|]. by rewrite touch_running. Qed.

(** ** Trees derived from a store *)

(** The Task and the attempt an operation settles. *)
Definition settles : Type := option (string * string).

Record derived (s : store) (fin : settles) (tree : TaskTree) : Prop := mkDerived {
  dv_named : forall k r', obj_get k (resources tree) = Some r' -> k <> "";
  dv_resources : forall k r', obj_get k (resources tree) = Some r' ->
    exists r, readTask s k = Some r /\ same_identity r r' /\
      (same_owner r r' \/ idle r' \/ (fst <$> fin = Some k /\ lets_go r r'));
  dv_attempts : forall a x', (a, x') ∈ attempts tree ->
    exists x, readAttempt s a = Some x /\ att_id x' = att_id x /\ att_taskId x' = att_taskId x /\
      (att_state x' = att_state x \/ snd <$> fin = Some a) }.

(** The settled attempt is the stored current attempt of the settled Task. *)
Definition settles_current (s : store) (fin : settles) : Prop :=
  forall t a, fin = Some (t, a) -> exists r, readTask s t = Some r /\ st_currentAttemptId (status r) = Some a.

Lemma context_run input s tree s' :
  gets (fun s => Context.readTaskContext s input) s = (Ok tree, s') -> Context.readTaskContext s input = Ok tree /\ s' = s.
Proof. intros H. by apply run_gets in H. Qed.

Lemma context_resources s input tree t r :
  Context.readTaskContext s input = Ok tree -> obj_get t (resources tree) = Some r -> readTask s t = Some r.
Proof.
  unfold Context.readTaskContext. destruct (m_app_metadata s); [|done]. cbv zeta. intros [= <-] Hr.
  by apply Context.pick_Some in Hr as [_ ?].
Qed.

Lemma context_attempts s input tree a x :
  Context.readTaskContext s input = Ok tree -> (a, x) ∈ attempts tree -> readAttempt s a = Some x.
Proof.
  unfold Context.readTaskContext. destruct (m_app_metadata s); [|done]. cbv zeta. intros [= <-] Hx.
  apply Context.contextAttempts_sound in Hx as (row & Hrow & <-). unfold readAttempt. by rewrite Hrow.
Qed.

Lemma context_triggers s input tree t r :
  Context.readTaskContext s input = Ok tree -> obj_get t (resources tree) = Some r ->
  obj_get t (taskTriggers tree) = readTrigger s t.
Proof.
  unfold Context.readTaskContext. destruct (m_app_metadata s); [|done]. cbv zeta. intros [= <-] Hr.
  apply Context.pick_Some in Hr as [Hin _]. by apply Context.obj_get_pick_in.
Qed.

Lemma linked_named s l t : Context.linked s l t -> t <> "".
Proof. destruct 1 as [|t r k ? ? Hk]; [done|]. by apply Context.relatedIds_nonempty in Hk. Qed.

Lemma contextTaskIds_named s input t : t ∈ Context.contextTaskIds s input -> t <> "".
Proof.
  unfold Context.contextTaskIds. rewrite elem_of_set_of, !elem_of_app. intros [H|[H|H]].
  - by apply Context.elem_of_ancestry, linked_named in H.
  - case_cond_in H; [by apply not_elem_of_nil in H|]. unfold Context.children, Context.allChildren, Context.limitedChildren in H.
    repeat case_cond_in H; try (by apply not_elem_of_nil in H); apply list_elem_of_filter in H as [H _]; naive_solver.
  - by apply list_elem_of_filter in H as [[_ ?] _].
Qed.

Lemma context_named s input tree t r :
  Context.readTaskContext s input = Ok tree -> obj_get t (resources tree) = Some r -> t <> "".
Proof.
  unfold Context.readTaskContext. destruct (m_app_metadata s); [|done]. cbv zeta. intros [= <-] Hr.
  apply Context.pick_Some in Hr as [Hin _]. by eapply contextTaskIds_named.
Qed.

Lemma context_derived s input tree fin : Context.readTaskContext s input = Ok tree -> derived s fin tree.
Proof.
  intros H. split.
  - intros k r Hr. by eapply context_named.
  - intros k r Hr. exists r. split; [by eapply context_resources|]. split; [done|]. by left.
  - intros a x Hx. exists x. split; [by eapply context_attempts|]. auto.
Qed.

(** Editing what [derived] does not look at. *)
Lemma derived_same s fin tree tree' :
  resources tree' = resources tree -> attempts tree' = attempts tree -> derived s fin tree -> derived s fin tree'.
Proof. intros Er Ea [Hn Hr Ha]. split; [by rewrite Er|by rewrite Er|by rewrite Ea]. Qed.

(** Replacing the record of a Task. *)
Lemma derived_set s fin tree k r r' :
  derived s fin tree -> obj_get k (resources tree) = Some r -> same_identity r r' ->
  (same_owner r r' \/ idle r' \/ (fst <$> fin = Some k /\ lets_go r r')) ->
  derived s fin (setResource r' k tree).
Proof.
  intros [Hn Hr Ha] Hk Hid Hown. split; [| |done].
  { simpl. intros j x. rewrite obj_get_set. destruct (String.eqb_spec k j) as [<-|]; intros Hj; eauto. }
  simpl. intros j x. rewrite obj_get_set.
  destruct (String.eqb_spec k j) as [<-|]; [|apply Hr]. intros [= <-].
  destruct (Hr k r Hk) as (r0 & Hr0 & Hid0 & Hown0). exists r0. split; [done|]. split; [by etrans|].
  destruct Hown as [Hs|[Hi|[Hf Hl]]]; [|by auto|].
  - destruct Hown0 as [Hs0|[Hi0|[Hf0 Hl0]]].
    + left. by etrans.
    + right. left. by eapply same_owner_idle.
    + right. right. split; [done|]. destruct Hs as [E _]. unfold lets_go in *. rewrite E. done.
  - right. right. split; [done|]. unfold lets_go in *.
    destruct Hown0 as [[E0 _]|[[E0 _]|[_ Hl0]]]; [rewrite <- E0; tauto| |];
      destruct Hl as [E|E]; rewrite E; auto; try (right; congruence).
Qed.

Lemma derived_upd s fin tree k f :
  derived s fin tree ->
  (forall r, obj_get k (resources tree) = Some r -> same_identity r (f r) /\
     (same_owner r (f r) \/ idle (f r) \/ (fst <$> fin = Some k /\ lets_go r (f r)))) ->
  derived s fin (updResource k f tree).
Proof.
  intros Hd Hf. unfold updResource. destruct (obj_get k (resources tree)) as [r|] eqn:E; [|done].
  destruct (Hf r eq_refl). by apply (derived_set _ _ _ _ r).
Qed.

Lemma derived_upd_attempt s fin tree a f :
  derived s fin tree ->
  (forall x, att_id (f x) = att_id x /\ att_taskId (f x) = att_taskId x /\ (att_state (f x) = att_state x \/ snd <$> fin = Some a)) ->
  derived s fin (updAttempt a f tree).
Proof.
  intros [Hn Hr Ha] Hf. split; [by rewrite upd_attempt_resources..|]. intros b x'. unfold updAttempt.
  destruct (obj_get a (attempts tree)) as [x0|] eqn:E; [|apply Ha]. simpl.
  intros [[= -> ->]|Hin]%elem_of_obj_set; [|by apply Ha].
  destruct (Ha a x0) as (x & Hx & Hid & Ht & Hst); [by apply obj_get_Some_elem|]. destruct (Hf x0) as (Fid & Ft & Fst).
  exists x. split; [done|]. split; [congruence|]. split; [congruence|]. destruct Fst as [->|]; auto.
Qed.

(** Touching a Task without changing its owner, and letting it go. *)
Lemma derived_touch s fin tree k now f :
  derived s fin tree ->
  (forall st, st_currentAttemptId (f st) = st_currentAttemptId st /\ (st_phase (f st) = running <-> st_phase st = running)) ->
  derived s fin (updResource k (touchResource now f) tree).
Proof.
  intros Hd Hf. apply derived_upd; [done|]. intros r _. split; [done|]. left. by apply touch_same; apply Hf.
Qed.

Lemma derived_release s fin tree k now f :
  derived s fin tree ->
  (forall st, st_currentAttemptId (f st) = None /\ st_phase (f st) <> running) ->
  derived s fin (updResource k (touchResource now f) tree).
Proof.
  intros Hd Hf. apply derived_upd; [done|]. intros r _. split; [done|]. right. left. by apply touch_idle; apply Hf.
Qed.

(** The recorded current attempt of the settled Task is the settled one. *)
Lemma derived_current s fin tree t a r :
  derived s fin tree -> settles_current s fin -> fin = Some (t, a) -> obj_get t (resources tree) = Some r ->
  st_currentAttemptId (status r) = Some a \/ st_currentAttemptId (status r) = None.
Proof.
  intros [_ Hr _] Hc -> Hk. destruct (Hr t r Hk) as (r0 & Hr0 & _ & Hown).
  destruct (Hc t a eq_refl) as (r1 & Hr1 & E0). rewrite Hr0 in Hr1. injection Hr1 as <-. unfold same_owner, idle, lets_go in Hown.
  destruct Hown as [[E _]|[[E _]|[_ [E|E]]]]; rewrite E; auto.
Qed.

Lemma finish_current t state summary now tree :
  match obj_get t (resources (finishAttempt t state summary now tree)) with
  | Some r => st_currentAttemptId (status r) = None
  | None => True
  end.
Proof.
  unfold finishAttempt. destruct (obj_get t (resources tree)) as [r|] eqn:E; [|by rewrite E].
  rewrite upd_resource_get, String.eqb_refl. match goal with |- context [_ <$> ?x] => by destruct x end.
Qed.

Lemma derived_finish s fin tree t a state summary now :
  derived s fin tree -> settles_current s fin -> fin = Some (t, a) ->
  derived s fin (finishAttempt t state summary now tree).
Proof.
  intros Hd Hc Ef. unfold finishAttempt. destruct (obj_get t (resources tree)) as [r|] eqn:E; [|done].
  pose proof (derived_current _ _ _ _ _ _ Hd Hc Ef E) as Hcur.
  apply derived_upd.
  - destruct (nonempty _) as [b|] eqn:Eb; [|done]. simpl. destruct (obj_get b (attempts tree)); [|done].
    assert (b = a) as ->. { destruct Hcur as [H|H]; rewrite H in Eb; [|done]. by apply nonempty_Some in Eb as [[= ->] _]. }
    apply derived_upd_attempt; [done|]. intros y. unfold endAttempt. subst fin. split_ands; [..|by right];
      by destruct (_ && _).
  - intros r' _. split; [done|]. right. right. subst fin. split; [done|]. right. by case_cond.
Qed.

Lemma derived_prune s fin tree : derived s fin tree -> derived s fin (pruneUnlinkedConditions tree).
Proof. by apply derived_same. Qed.

Lemma derived_unlinkExact s fin tree now t c : derived s fin tree -> derived s fin (unlinkExactTaskCondition now t c tree).
Proof.
  intros H. unfold unlinkExactTaskCondition. case_cond; [|done]. apply derived_prune. by apply derived_touch.
Qed.

Lemma derived_unlinkSatisfied s fin tree now t : derived s fin tree -> derived s fin (unlinkSatisfiedTaskConditions now t tree).
Proof.
  intros H. unfold unlinkSatisfiedTaskConditions. case_cond; [done|]. apply derived_prune. by apply derived_touch.
Qed.

Lemma derived_triggers s fin tree v : derived s fin tree -> derived s fin (with_taskTriggers v tree).
Proof. by apply derived_same. Qed.

Lemma derived_consume s fin tree t agent ids keys :
  derived s fin tree -> derived s fin (consumeSettledTaskEvents tree t agent ids keys).
Proof. intros H. unfold consumeSettledTaskEvents. repeat case_cond; by try apply derived_triggers. Qed.

Lemma derived_restore `{Crypto} s fin tree t r a at_ :
  derived s fin tree -> derived s fin (restoreAttemptEvents tree t r a at_).
Proof. intros Hd. unfold restoreAttemptEvents. repeat case_cond; by try apply derived_triggers. Qed.

(** *** Input waits *)

(** Nothing but the input waits of the Task changed. *)
Definition waits_only (r r' : AppTaskResource) : Prop :=
  metadata r' = metadata r /\ spec r' = spec r /\
  status r' = with_st_inputWaits (st_inputWaits (status r')) (status r).

#[export] Instance waits_only_preorder : PreOrder waits_only.
Proof.
  split; [by intros [? ? []]|]. intros a b c (M1 & S1 & E1) (M2 & S2 & E2).
  split; [congruence|]. split; [congruence|]. transitivity (with_st_inputWaits (st_inputWaits (status c)) (status b)); [done|].
  by rewrite E1.
Qed.

Lemma waits_only_owner r r' : waits_only r r' -> same_identity r r' /\ same_owner r r'.
Proof. intros (Em & _ & Es). unfold same_identity, same_owner. by rewrite Em, Es. Qed.

Lemma waits_only_set w r : waits_only r (with_status (with_st_inputWaits w (status r)) r).
Proof. done. Qed.

Lemma retain_waits s r keys w r' : retainTaskInputWait s r keys w = Ok r' -> waits_only r r'.
Proof.
  unfold retainTaskInputWait. destruct keys as [|k ks]; [intros [= <-]; reflexivity|].
  destruct (readAdmissions s (k :: ks)) as [adm|]; [|done]. intros E. injection E as E. rewrite <- E. clear E r'.
  change (waits_only r (fold_left (fun task key => match obj_get key adm with
    | Some a => if outstanding (md_id (metadata task)) (md_generation (metadata task)) a
                then with_status (with_st_inputWaits (Some (obj_set key w (default [] (st_inputWaits (status task))))) (status task)) task
                else task
    | None => task
    end) (k :: ks) r)).
  generalize (k :: ks) as l. intros l. revert r. induction l as [|x l IH]; intros r; [reflexivity|]. cbn [fold_left].
  etrans; [|apply IH]. repeat case_cond; try reflexivity. apply waits_only_set.
Qed.

Lemma retainAssigned_waits s g keys l r r' : retainAssigned s g keys l r = Ok r' -> waits_only r r'.
Proof.
  revert r. induction l as [|k l IH]; intros r; cbn [retainAssigned]; [intros [= <-]; reflexivity|].
  intros (r1 & H1 & H)%res_bind_Ok. etrans; [|by apply IH].
  case_cond_in H1; [injection H1 as <-; reflexivity|]. by eapply retain_waits.
Qed.

Lemma dropWaits_waits keys r : waits_only r (with_status (dropWaits keys (status r)) r).
Proof. unfold dropWaits. destruct (st_inputWaits (status r)) eqn:E; [by case_cond|]. destruct r as [? ? []]. simpl in *. by subst. Qed.

Lemma derived_waits s fin tree k r r' :
  derived s fin tree -> obj_get k (resources tree) = Some r -> waits_only r r' -> derived s fin (setResource r' k tree).
Proof. intros Hd Hk [Hi Ho]%waits_only_owner. apply (derived_set _ _ _ _ r); auto. Qed.

Lemma outcome_tree s tree claim input kind outcome :
  inputOutcomeAdmissions s tree claim input kind = Ok outcome ->
  exists r r', obj_get (cl_taskId claim) (resources tree) = Some r /\ waits_only r r' /\
    oc_tree outcome = setResource r' (cl_taskId claim) tree.
Proof.
  unfold inputOutcomeAdmissions. intros (keys & _ & H)%res_bind_Ok.
  destruct (obj_get (cl_taskId claim) (resources tree)) as [r|]; [|done].
  apply res_bind_Ok in H as (assigned & _ & H). apply res_bind_Ok in H as (r1 & H1%retainAssigned_waits & H).
  apply res_bind_Ok in H as (adm & _ & [= <-]). eexists r, _. split; [done|]. split; [|done].
  etrans; [done|]. apply dropWaits_waits.
Qed.

Lemma derived_outcome s fin tree s0 claim input kind outcome :
  derived s fin tree -> inputOutcomeAdmissions s0 tree claim input kind = Ok outcome -> derived s fin (oc_tree outcome).
Proof. intros Hd (r & r' & Hk & Hw & ->)%outcome_tree. by eapply derived_waits. Qed.

Lemma derived_retainKeys s fin s0 t wait keys tree tree' :
  derived s fin tree -> retainKeys s0 t wait keys tree = Ok tree' -> derived s fin tree'.
Proof.
  revert tree. induction keys as [|k keys IH]; intros tree Hd; cbn [retainKeys]; [by intros [= <-]|].
  intros (r & Hr & H)%res_bind_Ok. apply res_bind_Ok in H as (r' & H1%retain_waits & H).
  unfold taskOf in Hr. destruct (obj_get t (resources tree)) as [r0|] eqn:E; [|done]. injection Hr as ->.
  eapply IH; [|exact H]. by eapply derived_waits.
Qed.

(** *** Actions and Conditions *)

Lemma derived_actions s fin app now claim tree actions tree' lines :
  derived s fin tree -> applyTaskActions app now tree claim actions = Ok (tree', lines) -> derived s fin tree'.
Proof.
  intros Hd ([] & _ & H)%res_bind_Ok. revert tree lines Hd H.
  induction actions as [|a actions IH]; intros tree lines Hd; cbn [applyEach]; [by intros [= <- _]|].
  intros ([t1 line] & H1 & H)%res_bind_Ok. apply res_bind_Ok in H as ([t2 ls] & H2 & [= <- <-]).
  eapply IH; [|exact H2]. unfold applyAction in H1. case_cond_in H1.
  - injection H1 as <- _. by apply derived_unlinkExact.
  - apply res_bind_Ok in H1 as (r & _ & H1). apply res_bind_Ok in H1 as ([] & _ & [= <- _]). by apply derived_release.
Qed.

Lemma derived_materialize s fin now t l tree tree' :
  derived s fin tree -> materializeWaitingConditions now t l tree = Ok tree' -> derived s fin tree'.
Proof.
  intros Hd (ds & _ & H)%res_bind_Ok. apply res_bind_Ok in H as (t1 & H1 & [= <-]).
  apply derived_prune, derived_touch; [|done]. revert tree Hd H1.
  generalize (obj_values ds) as decls. intros decls. induction decls as [|d decls IH]; intros tree Hd; cbn [materializeAll];
    [by intros [= <-]|]. intros (t2 & H2 & H)%res_bind_Ok. eapply IH; [|exact H].
  unfold materializeOne in H2. apply res_bind_Ok in H2 as (sp & _ & H2).
  repeat case_cond_in H2; simplify_eq; auto; try by apply (derived_same _ _ tree).
  apply derived_upd; [by apply (derived_same _ _ tree)|]. intros r _. unfold rebaseWaits, same_identity.
  destruct (st_inputWaits (status r)); simpl; split_ands; auto; by left.
Qed.

Lemma applied_frame db tree now event allowed :
  resources (Conditions.ac_tree (Conditions.applyConditionEvent db tree now event allowed)) = resources tree /\
  attempts (Conditions.ac_tree (Conditions.applyConditionEvent db tree now event allowed)) = attempts tree.
Proof.
  unfold Conditions.applyConditionEvent.
  set (pg := Conditions.conditionLoop db tree allowed now event).
  assert (forall wakes acc, resources acc.1.1 = resources tree -> attempts acc.1.1 = attempts tree ->
    let x := fold_left (Conditions.wakeStep now event) wakes acc in
    resources x.1.1 = resources tree /\ attempts x.1.1 = attempts tree) as Hloop.
  { induction wakes as [|w wakes IH]; intros [[t0 ws] c] Er Ea; [done|]. cbn [fold_left]. apply IH;
      unfold Conditions.wakeStep; case_cond; done. }
  specialize (Hloop (obj_values (Conditions.pg_wakes pg)) (Conditions.set_conditions (Conditions.pg_conditions pg) tree, [],
    Conditions.pg_changed pg) eq_refl eq_refl). cbv zeta in Hloop.
  by destruct (fold_left _ _ _) as [[t0 ws] c].
Qed.

Lemma event_frame db tree now event :
  resources (Conditions.applyAppTaskConditionEvent db tree now event).2 = resources tree /\
  attempts (Conditions.applyAppTaskConditionEvent db tree now event).2 = attempts tree.
Proof. apply applied_frame. Qed.

Lemma applyPending_frame db now l tree scope :
  resources (applyPending db now l (tree, scope)).1 = resources tree /\
  attempts (applyPending db now l (tree, scope)).1 = attempts tree.
Proof.
  unfold applyPending. revert tree scope. induction l as [|e l IH]; intros tree scope; [done|]. cbn [fold_left].
  pose proof (event_frame db tree (toISOString now) (te_event e)) as [Er Ea].
  destruct (Conditions.applyAppTaskConditionEvent _ _ _ _) as [wakes t1]. cbn [fst snd] in *.
  destruct (IH t1 (fold_left (fun sc w => trackResourceMutationTask t1 sc (Conditions.wk_taskId w)) wakes scope)) as [E1 E2].
  by rewrite E1, E2.
Qed.

(** *** Edits never drop a Task *)

Definition has (t : string) (tree : TaskTree) : Prop := is_Some (obj_get t (resources tree)).

Lemma has_same t tree tree' : resources tree' = resources tree -> has t tree -> has t tree'.
Proof. unfold has. by intros ->. Qed.
Lemma has_upd t k f tree : has t tree -> has t (updResource k f tree).
Proof. unfold has. rewrite upd_resource_get. case_cond; [|done]. by rewrite fmap_is_Some. Qed.
Lemma has_upd_attempt t a f tree : has t tree -> has t (updAttempt a f tree).
Proof. apply has_same, upd_attempt_resources. Qed.
Lemma has_set t k r tree : has t tree -> has t (setResource r k tree).
Proof. unfold has. simpl. rewrite obj_get_set. case_cond; eauto. Qed.
Lemma has_finish t k state summary now tree : has t tree -> has t (finishAttempt k state summary now tree).
Proof.
  intros H. unfold finishAttempt. case_cond; [|done]. apply has_upd. repeat (case_cond; try done). by apply has_upd_attempt.
Qed.
Lemma has_consume t tree k agent ids keys : has t tree -> has t (consumeSettledTaskEvents tree k agent ids keys).
Proof. intros H. unfold consumeSettledTaskEvents. repeat case_cond; done. Qed.
Lemma has_restore `{Crypto} t tree k r a at_ : has t tree -> has t (restoreAttemptEvents tree k r a at_).
Proof. intros Hh. unfold restoreAttemptEvents. repeat case_cond; done. Qed.
Lemma has_outcome t s tree claim input kind outcome :
  has t tree -> inputOutcomeAdmissions s tree claim input kind = Ok outcome -> has t (oc_tree outcome).
Proof. intros Hh (r & r' & _ & _ & ->)%outcome_tree. by apply has_set. Qed.
Lemma has_retainKeys t s k wait keys tree tree' : has t tree -> retainKeys s k wait keys tree = Ok tree' -> has t tree'.
Proof.
  revert tree. induction keys as [|j keys IH]; intros tree Hh; cbn [retainKeys]; [by intros [= <-]|].
  intros (r & _ & H)%res_bind_Ok. apply res_bind_Ok in H as (r' & _ & H). eapply IH; [|exact H]. by apply has_set.
Qed.
Lemma has_unlinkExact t now k c tree : has t tree -> has t (unlinkExactTaskCondition now k c tree).
Proof. intros H. unfold unlinkExactTaskCondition. case_cond; [|done]. eapply has_same; [done|]. by apply has_upd. Qed.
Lemma has_unlinkSatisfied t now k tree : has t tree -> has t (unlinkSatisfiedTaskConditions now k tree).
Proof.
  intros H. unfold unlinkSatisfiedTaskConditions. case_cond; [done|]. eapply has_same; [done|]. by apply has_upd.
Qed.
Lemma has_actions t app now claim tree actions tree' lines :
  has t tree -> applyTaskActions app now tree claim actions = Ok (tree', lines) -> has t tree'.
Proof.
  intros Hd ([] & _ & H)%res_bind_Ok. revert tree lines Hd H.
  induction actions as [|a actions IH]; intros tree lines Hd; cbn [applyEach]; [by intros [= <- _]|].
  intros ([t1 line] & H1 & H)%res_bind_Ok. apply res_bind_Ok in H as ([t2 ls] & H2 & [= <- <-]).
  eapply IH; [|exact H2]. unfold applyAction in H1. case_cond_in H1.
  - injection H1 as <- _. by apply has_unlinkExact.
  - apply res_bind_Ok in H1 as (r & _ & H1). apply res_bind_Ok in H1 as ([] & _ & [= <- _]). by apply has_upd.
Qed.
Lemma has_materialize t now k l tree tree' : has t tree -> materializeWaitingConditions now k l tree = Ok tree' -> has t tree'.
Proof.
  intros Hd (ds & _ & H)%res_bind_Ok. apply res_bind_Ok in H as (t1 & H1 & [= <-]).
  eapply has_same; [done|]. apply has_upd. revert tree Hd H1.
  generalize (obj_values ds) as decls. intros decls. induction decls as [|d decls IH]; intros tree Hd; cbn [materializeAll];
    [by intros [= <-]|]. intros (t2 & H2 & H)%res_bind_Ok. eapply IH; [|exact H].
  unfold materializeOne in H2. apply res_bind_Ok in H2 as (sp & _ & H2).
  repeat case_cond_in H2; simplify_eq; auto; by apply has_upd.
Qed.
#[export] Hint Resolve has_upd has_upd_attempt has_set has_finish has_consume has_restore has_outcome has_retainKeys
  derived_finish derived_prune derived_unlinkExact derived_unlinkSatisfied derived_triggers derived_consume derived_restore
  derived_outcome derived_retainKeys derived_actions derived_materialize : may.

(** A Task that an edit releases is idle. *)
Lemma released_idle t now f tree :
  has t tree -> (forall st, st_currentAttemptId (f st) = None /\ st_phase (f st) <> running) ->
  exists r, obj_get t (resources (updResource t (touchResource now f) tree)) = Some r /\ idle r.
Proof.
  intros [r Hr] Hf. rewrite upd_resource_get, String.eqb_refl, Hr. simpl. eexists. split; [done|]. by apply touch_idle; apply Hf.
Qed.

End TaskLaws.
