(* ===== verification/TaskScenario.v ===== *)
(** A concrete run of the reconciler, used to evaluate its operations: an App
    with one Task, admitted, claimed and settled; and a run of two Tasks that share
    a Condition. *)
From S2P Require Import Prelude Json TaskState TaskTree Transaction ResourceStore StoreInvariant StoreCommit Snapshot.
From S2P Require Import Context Approval Conditions Records Time TaskInputs TaskEvents TaskIntent TaskMutation.
From S2P Require Import TaskOutcome TaskAdmission TaskLease OutputPaths TaskClaim TaskContract TaskActions TaskSettle.
From S2P Require Import TaskRelease TaskControl.

Module TaskScenario.
Import ResourceStore TaskTree TaskInputs TaskEvents TaskIntent Time TaskMutation TaskOutcome TaskAdmission TaskLease TaskClaim
  TaskActions TaskSettle TaskRelease TaskControl.

(** The digest is the canonical text itself, and no file exists. *)
#[export] Instance sample_digest : Crypto := fun text => text.
#[export] Instance sample_files : FileSystem := mkFileSystem (fun _ => false) (fun p => p) ["work"].

Definition start : Z := 1704067200000.

Definition root_task : AppTaskResource :=
  mkResource (mkMetadata "root" None 1 1 None) (mkSpec "" "run the demo" [] (Some "owner") None None None None None None None None)
    (mkStatus 1 converged None None None None None None None None None None false None None None None None None (toISOString start)).

(** A new App after its bootstrap, with its root Task. *)
Definition new_app : store :=
  (bootstrapSnapshot start (toISOString start) "r1" (mkTree (Some 1) (Some "demo") None None (Some "root") [] [("root", root_task)] [] [] [] [] [] [])
     [] (emptyStore "demo" ∅ ∅)).2.

Definition sample_spec : TaskSpec := mkSpec "root" "ship it" ["tests pass"] (Some "builder") None None None None None None None None.
Definition sample_request : obj json := [("id", JNum (num 7)); ("type", JStr "app.task.requested"); ("source", JStr "ops")].
Definition sample_observe : ObserveInput :=
  mkObserve (mkIntent "t1" sample_spec false) "builder" (Some sample_request) (Some "key1") None false.
Definition sample_config : AppTaskContext := mkTaskContext "/apps/demo.app" "/apps/demo.app" "builder" (num 2) None.
Definition sample_env (uuid : string) : ClaimEnv := mkClaimEnv "rt1" uuid "lease1" [].
Definition sample_claim_input : ClaimInput := mkClaimInput "t1" "builder" "auto" None None None (fun _ => None).

Definition observed_app : store := (observeAppTaskIntent start sample_observe new_app).2.
Definition claim_run : res (option AppTaskClaimResult) * store :=
  claimObservedAppTask sample_config (sample_env "u1") (start + 1000) sample_claim_input observed_app.
Definition claimed_app : store := claim_run.2.
Definition sample_claim : AppTaskClaim :=
  match claim_run.1 with
  | Ok (Some (claimed c)) => c
  | _ => mkClaim "" 0 0 "" "" "" "" (mkIntent "" sample_spec false) [] false [] None [] [] None
  end.

Definition sample_complete : CompleteInput :=
  mkComplete (mkResultInput "done" (Some "answer") None None None) [] None None None None.
Definition completed_app : store := (completeAppTask (start + 2000) sample_claim sample_complete claimed_app).2.
Definition sample_failure : FailureDetails := mkDetails None None None None.
Definition failed_app : store := (failAppTaskAttempt [] sample_config (start + 2000) sample_claim "crash" sample_failure claimed_app).2.

End TaskScenario.

(** A consequence of the bounded read of [completeAppTask]
    ([src/app/core/tasks/app-task-reconciler.ts]): a Condition that two Tasks
    share is deleted when the first of them completes. *)
Module TaskFindings.
Import ResourceStore TaskTree TaskInputs TaskEvents TaskIntent Time TaskMutation TaskOutcome TaskAdmission TaskLease TaskClaim
  TaskActions TaskSettle TaskScenario.

(** Two siblings that wait for one Condition, which is satisfied. *)
Definition sharing (id : string) : AppTaskResource :=
  mkResource (mkMetadata id None 1 1 None) sample_spec
    (mkStatus 1 waiting None None None None None None None None None None false None None None None (Some ["review"]) None (toISOString start)).

Definition review : AppTaskCondition :=
  mkCondition "review" 1 1 (mkConditionSpec "review.done" "doc:1" (JBool true) None (Some "human") None None) 1 cs_true
    None None None (Some (toISOString start)) None.

Definition shared_app : store :=
  (bootstrapSnapshot start (toISOString start) "r1" (mkTree (Some 1) (Some "demo") None None (Some "root") [("review", review)]
     [("root", root_task); ("t1", sharing "t1"); ("t2", sharing "t2")] [] [] [] [] [] []) []
     (emptyStore "demo" ∅ ∅)).2.

(** Claiming and completing one Task. *)
Definition pass (taskId uuid : string) (at_ : Z) (s : store) : store :=
  match claimObservedAppTask sample_config (sample_env uuid) at_
          (mkClaimInput taskId "builder" "auto" None None None (fun _ => None)) s with
  | (Ok (Some (claimed c)), s) => (completeAppTask (at_ + 1000) c sample_complete s).2
  | (_, s) => s
  end.

Definition first_done : store := pass "t1" "u1" (start + 1000) shared_app.
Definition both_done : store := pass "t2" "u2" (start + 3000) first_done.

Definition phase_of (s : store) (t : string) : option Phase := (fun r => st_phase (status r)) <$> readTask s t.
Definition links_of (s : store) (t : string) : option (list string) := readTask s t ≫= fun r => st_conditionIds (status r).

(** The first completion deletes the shared Condition, although the second Task
    still links it; the second Task then completes and is left waiting for a
    Condition that is not stored. *)
Lemma shared_condition_lost :
  ResourceStore.conditions shared_app !! "review" = Some review /\
  phase_of first_done "t1" = Some converged /\ ResourceStore.conditions first_done !! "review" = None /\
  links_of first_done "t2" = Some ["review"] /\
  phase_of both_done "t2" = Some waiting /\ links_of both_done "t2" = Some ["review"].
Proof. split_ands; vm_compute; reflexivity. Qed.

End TaskFindings.
