(* ===== verification/TaskOwnership.v ===== *)
(** One owner per Task.  A Task is running exactly when it has a current
    attempt; that attempt is stored, is running and belongs to the Task.  Every
    operation of the reconciler keeps this, whatever the order they run in, and
    so the result of an attempt is accepted at most once. *)
From S2P Require Import Prelude Json TaskState TaskTree Transaction ResourceStore StoreInvariant StoreCommit.
From S2P Require Import StoreEffects Snapshot Context Approval Conditions Records Time TaskInputs TaskEvents.
From S2P Require Import TaskIntent TaskMutation TaskOutcome TaskAdmission TaskLease OutputPaths TaskClaim.
From S2P Require Import TaskContract TaskActions TaskSettle TaskRelease TaskControl TaskLaws.

Module TaskOwnership.
Import ResourceStore StoreEffects TaskTree TaskInputs TaskEvents TaskIntent Time TaskMutation TaskOutcome TaskAdmission
  TaskLease TaskClaim TaskActions TaskSettle TaskRelease TaskControl TaskLaws.

(** ** The invariant *)

(** The Task runs, under an attempt that is its own. *)
Definition runs (s : store) (t : string) (r : AppTaskResource) : Prop :=
  st_phase (status r) = running /\
  exists a x, st_currentAttemptId (status r) = Some a /\ a <> "" /\ readAttempt s a = Some x /\
    att_state x = at_running /\ att_taskId x = t.

Definition owned (s : store) : Prop := forall t r, readTask s t = Some r -> idle r \/ runs s t r.

(** The invariant of the store and of ownership together. *)
Definition sound (s : store) : Prop := store_wf s /\ owned s.

(** How the owner of a Task may change: it keeps its attempt, loses it, or gets
    one that did not exist before; and no attempt and no control receipt is
    forgotten. *)
Record evolves (s s' : store) : Prop := mkEvolves {
  ev_owner : forall t r' a, readTask s' t = Some r' -> st_currentAttemptId (status r') = Some a ->
    readAttempt s a = None \/ exists r, readTask s t = Some r /\ st_currentAttemptId (status r) = Some a;
  ev_attempts : forall a, is_Some (readAttempt s a) -> is_Some (readAttempt s' a);
  ev_controls : forall k c, controls s !! k = Some c -> controls s' !! k = Some c;
  ev_appId : appId s' = appId s }.

#[export] Instance evolves_preorder : PreOrder evolves.
Proof.
  split.
  - intros s. split; [eauto|done..].
  - intros s1 s2 s3 [O1 A1 C1 E1] [O2 A2 C2 E2]. split; [|auto|auto|congruence]. intros t r' a Hr' Ha.
    destruct (O2 t r' a Hr' Ha) as [Hn|(r & Hr & Hc)]; [|by eapply O1]. left. apply eq_None_not_Some. intros Hs.
    apply A1 in Hs as [x Hx]. congruence.
Qed.

Lemma evolves_frame s s' :
  (forall t, readTask s' t = readTask s t) -> (forall a, readAttempt s' a = readAttempt s a) -> controls s' = controls s ->
  appId s' = appId s -> evolves s s'.
Proof. intros Ht Ha Hc Hi. split; [intros t r' a; rewrite Ht; eauto|intros a; by rewrite Ha|by rewrite Hc|done]. Qed.

(** ** Mutations taken from a tree *)

Record from_tree (tree : TaskTree) (m : AppTaskResourceMutation) : Prop := mkFromTree {
  ft_tasks : forall w, w ∈ mu_tasks m -> obj_get (w_id w) (resources tree) = Some (w_resource w);
  ft_attempts : forall x, x ∈ mu_attempts m -> (att_id x, x) ∈ attempts tree;
  ft_deletes : mu_deleteTaskIds m = [] /\ mu_deleteAttemptIds m = [] }.

Lemma stored_id s t r : store_ok s -> readTask s t = Some r -> md_id (metadata r) = t.
Proof.
  unfold readTask. intros Hs. destruct (tasks s !! t) as [row|] eqn:E; [|done]. intros [= <-].
  by destruct (ok_rows s Hs t row E).
Qed.

Lemma stored_attempt_id s a x : store_ok s -> readAttempt s a = Some x -> att_id x = a.
Proof.
  unfold readAttempt. intros Hs. destruct (ResourceStore.attempts s !! a) as [row|] eqn:E; [|done]. intros [= <-].
  exact (ok_attempts s Hs a row E).
Qed.

Lemma derived_id s fin tree k r :
  store_ok s -> derived s fin tree -> obj_get k (resources tree) = Some r -> md_id (metadata r) = k.
Proof. intros Hs Hd Hk. destruct (dv_resources _ _ _ Hd k r Hk) as (r0 & H0 & -> & _). by eapply stored_id. Qed.

(** ** Committing an edited tree *)

(** What an operation that settles [fin] leaves: the settled Task is idle and
    is written. *)
Definition lets_settled (fin : settles) (tree : TaskTree) (m : AppTaskResourceMutation) : Prop :=
  forall t a, fin = Some (t, a) ->
    (exists r, obj_get t (resources tree) = Some r /\ idle r) /\ exists w, w ∈ mu_tasks m /\ w_id w = t.

(** The attempt that owns a running Task survives the commit, unless its Task
    was settled. *)
Lemma owner_survives s s' now m fin tree b t a x :
  owned s -> derived s fin tree -> settles_current s fin ->
  (forall y, y ∈ mu_attempts m -> (att_id y, y) ∈ attempts tree \/ readAttempt s (att_id y) = None) ->
  mu_deleteAttemptIds m = [] -> applyMutation now m s = (Ok b, s') ->
  readAttempt s a = Some x -> att_state x = at_running -> att_taskId x = t ->
  fst <$> fin <> Some t ->
  exists x', readAttempt s' a = Some x' /\ att_state x' = at_running /\ att_taskId x' = t.
Proof.
  intros Ho Hd Hc Hf Hdel Hm Hx Hst Ht Hne. rewrite (applyMutation_attempts _ _ _ _ _ _ Hm), Hdel.
  destruct (lastBy att_id (mu_attempts m) a) as [y|] eqn:E; [|by exists x].
  apply lastBy_Some in E as [Hy Ey]. apply Hf in Hy. rewrite Ey in Hy. destruct Hy as [Hy|Hy]; [|congruence].
  destruct (dv_attempts _ _ _ Hd a y Hy) as (x0 & Hx0 & _ & Et & Est).
  rewrite Hx in Hx0. injection Hx0 as <-. exists y. split; [done|]. split; [|congruence].
  destruct Est as [->|Ea]; [done|]. destruct fin as [[t0 a0]|]; [|done]. injection Ea as ->.
  destruct (Hc t0 a eq_refl) as (r0 & Hr0 & Ecur).
  destruct (Ho t0 r0 Hr0) as [[En _]|(_ & a1 & x1 & E1 & _ & Hx1 & _ & Ht1)]; [congruence|].
  assert (a1 = a) as -> by congruence. rewrite Hx in Hx1. injection Hx1 as <-. simpl in Hne. congruence.
Qed.

Lemma commit_owned s s' now m fin tree b :
  store_ok s -> owned s -> derived s fin tree -> settles_current s fin -> from_tree tree m ->
  lets_settled fin tree m -> applyMutation now m s = (Ok b, s') -> owned s'.
Proof.
  intros Hs Ho Hd Hc Hf Hl Hm t r. rewrite (StoreCommit.applyMutation_resources _ _ _ _ _ _ Hm), lastWrite_lastBy.
  rewrite (proj1 (ft_deletes _ _ Hf)). destruct (decide (fst <$> fin = Some t)) as [Et|Hne].
  - destruct fin as [[t0 a0]|]; [|done]. injection Et as ->. destruct (Hl t a0 eq_refl) as ((r' & Hr' & Hi) & w & Hw & Ew).
    destruct (lastBy w_id (mu_tasks m) t) as [w'|] eqn:E; [|by destruct (lastBy_None _ _ _ w E Hw)].
    apply lastBy_Some in E as [Hw' E']. intros [= <-]. apply (ft_tasks _ _ Hf) in Hw'. left.
    rewrite E', Hr' in Hw'. by injection Hw' as <-.
  - assert (forall r0, readTask s t = Some r0 -> same_owner r0 r -> idle r \/ runs s' t r) as Hkeep.
    { intros r0 Hr0 Hsame. destruct (Ho t r0 Hr0) as [Hi|(Hrun & a & x & Ecur & Hane & Hx & Hst & Ht)].
      - left. by eapply same_owner_idle.
      - right. destruct Hsame as [E Hiff]. split; [by apply Hiff|].
        destruct (owner_survives s s' now m fin tree b t a x) as (x' & ? & ? & ?); auto;
          [intros y Hy; left; by apply (ft_attempts _ _ Hf)|by apply (ft_deletes _ _ Hf)|]. exists a, x'. by rewrite E. }
    destruct (lastBy w_id (mu_tasks m) t) as [w|] eqn:E.
    + apply lastBy_Some in E as [Hw E']. intros [= <-]. apply (ft_tasks _ _ Hf) in Hw. rewrite E' in Hw.
      destruct (dv_resources _ _ _ Hd t _ Hw) as (r0 & Hr0 & _ & [Hsame|[Hi|[Hbad _]]]); [eauto|by left|done].
    + intros Hr. by apply (Hkeep r).
Qed.

Lemma commit_evolves s s' now m fin tree b :
  derived s fin tree -> from_tree tree m -> applyMutation now m s = (Ok b, s') -> evolves s s'.
Proof.
  intros Hd Hf Hm. split.
  - intros t r' a. rewrite (StoreCommit.applyMutation_resources _ _ _ _ _ _ Hm), lastWrite_lastBy, (proj1 (ft_deletes _ _ Hf)).
    destruct (lastBy w_id (mu_tasks m) t) as [w|] eqn:E; [|eauto]. apply lastBy_Some in E as [Hw <-]. intros [= <-] Ha. right.
    apply (ft_tasks _ _ Hf) in Hw. destruct (dv_resources _ _ _ Hd _ _ Hw) as (r & Hr & _ & [[Hs _]|[[Hs _]|[_ [Hs|Hs]]]]);
      rewrite Hs in Ha; [|done| |done]; eauto.
  - intros a Ha. rewrite (applyMutation_attempts _ _ _ _ _ _ Hm), (proj2 (ft_deletes _ _ Hf)). by destruct (lastBy _ _ _).
  - apply (applyMutation_controlRows _ _ _ _ _ Hm).
  - by eapply applyMutation_appId.
Qed.

(** ** Scopes *)

Lemma elem_of_track tree scope id t :
  t ∈ sc_writeTaskIds (trackResourceMutationTask tree scope id) <-> t ∈ sc_writeTaskIds scope \/ (t = id /\ id <> "").
Proof.
  unfold trackResourceMutationTask, fenceResourceMutationTask.
  destruct (String.eqb_spec id "") as [->|Hne]; [naive_solver|]. simpl.
  assert (t ∈ set_add id (sc_writeTaskIds scope) <-> t ∈ sc_writeTaskIds scope \/ t = id /\ id <> "") as H.
  { rewrite elem_of_set_add. naive_solver. }
  repeat (case_cond; simpl; try done).
Qed.

Lemma elem_of_tracks tree scope ids t :
  t ∈ sc_writeTaskIds (fold_left (trackResourceMutationTask tree) ids scope) <->
  t ∈ sc_writeTaskIds scope \/ (t ∈ ids /\ t <> "").
Proof.
  revert scope. induction ids as [|i ids IH]; intros scope; cbn [fold_left]; [set_solver|].
  rewrite IH, elem_of_track, elem_of_cons. naive_solver.
Qed.

Lemma scopeWrites_elem now tree ids ws w :
  scopeWrites now tree ids = Ok ws -> w ∈ ws -> exists id r, id ∈ ids /\ obj_get id (resources tree) = Some r /\
    w_resource w = r /\ w_trigger w = obj_get (md_id (metadata r)) (taskTriggers tree).
Proof.
  revert ws. induction ids as [|i ids IH]; intros ws; cbn [scopeWrites]; [intros [= <-] Hw; by apply not_elem_of_nil in Hw|].
  destruct (obj_get i (resources tree)) as [r|] eqn:E.
  - intros (ready & _ & H)%res_bind_Ok. apply res_bind_Ok in H as (rest & Hrest & [= <-]).
    intros [->|Hw]%elem_of_cons; [exists i, r; split_ands; auto; by left|].
    destruct (IH rest Hrest Hw) as (j & r' & ? & ?). exists j, r'. split; [by right|done].
  - intros H Hw. destruct (IH ws H Hw) as (j & r' & ? & ?). exists j, r'. split; [by right|done].
Qed.

Lemma scopeWrites_covers now tree ids ws id r :
  scopeWrites now tree ids = Ok ws -> id ∈ ids -> obj_get id (resources tree) = Some r ->
  exists w, w ∈ ws /\ w_resource w = r.
Proof.
  revert ws. induction ids as [|i ids IH]; intros ws; cbn [scopeWrites]; [intros _ Hw; by apply not_elem_of_nil in Hw|].
  intros H [->|Hin]%elem_of_cons Hr.
  - rewrite Hr in H. apply res_bind_Ok in H as (ready & _ & H). apply res_bind_Ok in H as (rest & Hrest & [= <-]).
    exists (resourceWrite now tree r ready). split; [by left|done].
  - destruct (obj_get i (resources tree)) as [ri|]; [|by eapply IH].
    apply res_bind_Ok in H as (ready & _ & H). apply res_bind_Ok in H as (rest & Hrest & [= <-]).
    destruct (IH rest Hrest Hin Hr) as (w & ? & ?). exists w. split; [by right|done].
Qed.

(** What a caller adds to the mutation of a scope. *)
Definition extends (ext : AppTaskResourceMutation -> AppTaskResourceMutation) : Prop :=
  forall m, mu_tasks (ext m) = mu_tasks m /\ mu_attempts (ext m) = mu_attempts m /\
    mu_deleteTaskIds (ext m) = mu_deleteTaskIds m /\ mu_deleteAttemptIds (ext m) = mu_deleteAttemptIds m.

Lemma extends_id : extends (fun m => m).
Proof. done. Qed.
Lemma extends_admissions l : extends (with_admissions l).
Proof. done. Qed.
Lemma extends_closure a b c d : extends (with_closure a b c d).
Proof. done. Qed.
#[export] Hint Resolve extends_id extends_admissions extends_closure : may.

(** The mutation of a scope over an edited tree. *)
Lemma finish_from_tree s fin now scope tree m :
  store_ok s -> derived s fin tree -> finishResourceMutationScope now scope tree = Ok m ->
  from_tree tree m /\
  forall t r, t ∈ sc_writeTaskIds scope -> obj_get t (resources tree) = Some r ->
    exists w, w ∈ mu_tasks m /\ w_id w = t /\ w_resource w = r /\ w_trigger w = obj_get t (taskTriggers tree).
Proof.
  intros Hs Hd (ws & Hws & [= <-])%res_bind_Ok. split.
  - split; simpl; [| |done].
    + intros w Hw. destruct (scopeWrites_elem _ _ _ _ _ Hws Hw) as (id & r & _ & Hr & E & _).
      unfold w_id. rewrite E. by rewrite (derived_id s fin tree id r).
    + intros x [_ Hx]%list_elem_of_filter. apply list_elem_of_fmap in Hx as ([k y] & -> & Hin). simpl.
      destruct (dv_attempts _ _ _ Hd k y Hin) as (x0 & Hx0 & E & _). rewrite E, (stored_attempt_id s k x0); done.
  - intros t r Ht Hr. simpl. destruct (scopeWrites_covers _ _ _ _ t r Hws) as (w & Hw & E); [by apply elem_of_tracks; left|done|].
    destruct (scopeWrites_elem _ _ _ _ _ Hws Hw) as (id & r' & _ & Hr' & E' & Etr).
    assert (md_id (metadata r) = t) as Eid by by eapply derived_id.
    exists w. split; [done|]. unfold w_id. rewrite E. split; [done|]. split; [done|].
    rewrite Etr, <- E', E, Eid. done.
Qed.

(** What a committed scope leaves in the store. *)
Lemma scope_commit s s' fin now scope tree ext :
  sound s -> derived s fin tree -> settles_current s fin -> extends ext ->
  (forall t a, fin = Some (t, a) -> t ∈ sc_writeTaskIds scope /\ exists r, obj_get t (resources tree) = Some r /\ idle r) ->
  commitScope now scope tree ext s = (Ok tt, s') ->
  owned s' /\
  forall t r, t ∈ sc_writeTaskIds scope -> obj_get t (resources tree) = Some r ->
    readTask s' t = Some r /\ readTrigger s' t = obj_get t (taskTriggers tree).
Proof.
  intros [[Hs Hroutes] Ho] Hd Hc Hext Hfin H. unfold commitScope in H. run_step H m s1. apply run_commit in H as [_ Hm].
  destruct (finish_from_tree s fin now scope tree m Hs Hd E) as [[Ft Fa Fd] Hw].
  destruct (Hext m) as (Et & Ea & E1 & E2).
  assert (from_tree tree (ext m)) as Hf by (split; rewrite ?Et, ?Ea, ?E1, ?E2; done).
  split.
  - apply (commit_owned s s' now (ext m) fin tree true); auto. intros t a Efin.
    destruct (Hfin t a Efin) as (Hin & r & Hr & Hi). split; [eauto|]. rewrite Et.
    destruct (Hw t r Hin Hr) as (w & ? & ? & _). eauto.
  - intros t r Hin Hr. destruct (Hw t r Hin Hr) as (w & Hw1 & Hw2 & Hw3 & Hw4).
    rewrite (StoreCommit.applyMutation_resources _ _ _ _ _ _ Hm), (applyMutation_triggers _ _ _ _ _ _ Hm), lastWrite_lastBy, Et.
    destruct (lastBy w_id (mu_tasks m) t) as [w'|] eqn:El; [|by destruct (lastBy_None _ _ _ w El Hw1)].
    apply lastBy_Some in El as [Hw' Ew']. pose proof (Ft w' Hw') as Hr'. rewrite Ew', Hr in Hr'. injection Hr' as Hr'.
    simpl. split; [by rewrite Hr'|].
    unfold finishResourceMutationScope in E. apply res_bind_Ok in E as (ws & Hws & [= <-]). simpl in Hw'.
    destruct (scopeWrites_elem _ _ _ _ _ Hws Hw') as (id & r' & _ & _ & Er & Etr). rewrite Etr, <- Er, <- Hr'.
    by rewrite (derived_id s fin tree t r).
Qed.

(** ** Programs that keep the invariant *)

(** Wherever the program stops, with a value or an error, the store is sound
    and has evolved from the one it started with. *)
Definition safe {A} (m : M A) (s : store) : Prop := sound (m s).2 /\ evolves s (m s).2.

Lemma safe_still {A} (m : M A) s : sound s -> (m s).2 = s -> safe m s.
Proof. intros Hs E. unfold safe. by rewrite E. Qed.
#[export] Hint Extern 0 (safe _ _) => (apply safe_still; [assumption|reflexivity]) : core.

Lemma safe_ret {A} (a : A) s : sound s -> safe (mret a) s.
Proof. done. Qed.

Lemma safe_throws {A} e s : sound s -> safe (throws (A := A) e) s.
Proof. done. Qed.

Lemma safe_gets {A B} (f : store -> res A) (k : A -> M B) s :
  sound s -> (forall a, f s = Ok a -> safe (k a) s) -> safe (gets f ≫= k) s.
Proof. intros Hs Hk. unfold safe, mbind, M_bind, bind, gets. destruct (f s) as [a|]; [by apply Hk|done]. Qed.

Lemma safe_lift {A B} (r : res A) (k : A -> M B) s :
  sound s -> (forall a, r = Ok a -> safe (k a) s) -> safe (lift r ≫= k) s.
Proof. intros Hs Hk. by apply (safe_gets (fun _ => r)). Qed.

(** A program that only reads. *)
Definition reads {A} (m : M A) : Prop := forall s, (m s).2 = s.

Lemma reads_ret {A} (a : A) : reads (mret a).
Proof. done. Qed.
Lemma reads_lift {A} (r : res A) : reads (lift r).
Proof. done. Qed.
Lemma reads_bind {A B} (m : M A) (k : A -> M B) : reads m -> (forall a, reads (k a)) -> reads (m ≫= k).
Proof.
  intros Hm Hk s. unfold mbind, M_bind, bind. specialize (Hm s). destruct (m s) as [[a|] s1]; simpl in *; subst; [apply Hk|done].
Qed.
#[export] Hint Resolve reads_ret reads_lift reads_bind : may.

Lemma safe_last {A B} (m : M A) (k : A -> M B) s : safe m s -> (forall a, reads (k a)) -> safe (m ≫= k) s.
Proof.
  intros Hm Hk. unfold safe, mbind, M_bind, bind in *. destruct (m s) as [[a|] s1]; [|done]. rewrite Hk. done.
Qed.

Lemma safe_then {A B} (m : M A) (k : A -> M B) s :
  safe m s -> (forall a s1, m s = (Ok a, s1) -> safe (k a) s1) -> safe (m ≫= k) s.
Proof.
  intros Hm Hk. unfold safe, mbind, M_bind, bind in *. destruct (m s) as [[a|] s1] eqn:E; [|done].
  destruct (Hk a s1 eq_refl). split; [done|]. by etrans; [apply Hm|].
Qed.


(** The attempt exists and does not own the Task: it has been finished. *)
Definition retired (s : store) (t a : string) : Prop :=
  is_Some (readAttempt s a) /\ forall r, readTask s t = Some r -> st_currentAttemptId (status r) <> Some a.

Lemma retired_evolves s s' t a : evolves s s' -> retired s t a -> retired s' t a.
Proof.
  intros [O A _ _] [[x Hx] Hr]. split; [eauto|]. intros r Hr' Hc. destruct (O t r a Hr' Hc) as [Hn|(r0 & H0 & Hc0)]; [congruence|].
  by apply (Hr r0).
Qed.

(** A safe program whose results marked by [done_] mean that the claim is finished. *)
Definition settling {A} (claim : AppTaskClaim) (done_ : A -> bool) (m : M A) (s : store) : Prop :=
  safe m s /\ forall a s', m s = (Ok a, s') -> done_ a = true -> retired s' (clm_taskId claim) (clm_attemptId claim).

Lemma settling_still {A} claim done_ (m : M A) s :
  sound s -> (forall a s', m s = (Ok a, s') -> done_ a = false) -> (m s).2 = s -> settling claim done_ m s.
Proof. intros Hs Hd E. split; [by apply safe_still|]. intros a s' H. by rewrite (Hd a s' H). Qed.
#[export] Hint Extern 0 (settling _ _ _ _) =>
  (apply settling_still; [assumption|intros ? ? [= <- _]; reflexivity|reflexivity]) : core.

Lemma settling_gets {A B} claim done_ (f : store -> res A) (k : A -> M B) s :
  sound s -> (forall a, f s = Ok a -> settling claim done_ (k a) s) -> settling claim done_ (gets f ≫= k) s.
Proof.
  intros Hs Hk. split; [apply safe_gets; [done|]; intros a Ea; by apply Hk|]. intros b s'. rewrite gets_bind.
  destruct (f s) as [a|] eqn:Ea; [by apply Hk|done].
Qed.

Lemma settling_lift {A B} claim done_ (r : res A) (k : A -> M B) s :
  sound s -> (forall a, r = Ok a -> settling claim done_ (k a) s) -> settling claim done_ (lift r ≫= k) s.
Proof. intros Hs Hk. by apply (settling_gets claim done_ (fun _ => r)). Qed.

Ltac safe_read a E := first
  [ apply safe_gets; [done|intros a E] | apply safe_lift; [done|intros a E]
  | apply settling_gets; [done|intros a E] | apply settling_lift; [done|intros a E] ].

(** A commit that is rejected changes nothing. *)
Lemma safe_committed s now m :
  sound s -> (forall s1, admissible s m = Ok true -> applyMutation now m s = (Ok true, s1) -> owned s1 /\ evolves s s1) ->
  safe (commitMutation now m) s.
Proof.
  intros [Hwf Ho] Hm. unfold safe. pose proof (StoreInvariant.commit_wf now m s Hwf) as Hwf'.
  assert (store_wf (commitMutation now m s).2) as Hw by (unfold commitMutation; by destruct (commit now m s) as [[[]|] s1]).
  destruct (commitMutation now m s) as [[[]|e] s1] eqn:E; simpl in *.
  - apply run_commit in E as [Ha E]. by destruct (Hm s1 Ha E).
  - by rewrite (commit_fails _ _ _ _ _ E).
Qed.

Lemma safe_commit s fin now m tree :
  sound s -> derived s fin tree -> settles_current s fin -> from_tree tree m -> lets_settled fin tree m ->
  safe (commitMutation now m) s.
Proof.
  intros [[Hs Hr] Ho] Hd Hc Hf Hl. apply safe_committed; [done|]. intros s1 _ E. split.
  - by eapply (commit_owned s s1 now m fin tree true).
  - by eapply commit_evolves.
Qed.

Lemma safe_scope s fin now scope tree ext :
  sound s -> derived s fin tree -> settles_current s fin -> extends ext ->
  (forall t a, fin = Some (t, a) -> t ∈ sc_writeTaskIds scope /\ exists r, obj_get t (resources tree) = Some r /\ idle r) ->
  safe (commitScope now scope tree ext) s.
Proof.
  intros Hs Hd Hc Hext Hfin. apply safe_lift; [done|]. intros m Hm.
  destruct (finish_from_tree s fin now scope tree m (proj1 (proj1 Hs)) Hd Hm) as [[Ft Fa Fd] Hw].
  destruct (Hext m) as (Et & Ea & E1 & E2). apply (safe_commit s fin _ _ tree); auto.
  - split; rewrite ?Et, ?Ea, ?E1, ?E2; done.
  - intros t a Efin. destruct (Hfin t a Efin) as (Hin & r & Hr & Hi). split; [eauto|]. rewrite Et.
    destruct (Hw t r Hin Hr) as (w & ? & ? & _). eauto.
Qed.

(** ** Settled claims *)

Lemma match_claim resource attempt claim r x :
  matchingClaimAttempt resource attempt claim = Some (r, x) ->
  resource = Some r /\ attempt = Some x /\ st_currentAttemptId (status r) = Some (clm_attemptId claim) /\
  att_state x = at_running.
Proof.
  unfold matchingClaimAttempt. destruct resource as [r0|]; [|done]. destruct attempt as [x0|]; [|done].
  case_cond; [|done]. intros [= -> ->]. reflect_bools. by split_ands.
Qed.

Lemma match_task tree claim r x :
  matchingTaskAttempt tree claim = Some (r, x) ->
  obj_get (clm_taskId claim) (resources tree) = Some r /\ obj_get (clm_attemptId claim) (attempts tree) = Some x /\
  st_currentAttemptId (status r) = Some (clm_attemptId claim) /\ att_state x = at_running.
Proof. unfold matchingTaskAttempt. case_cond; [|done]. apply match_claim. Qed.

(** The Task and attempt a claim names. *)
Definition claimed_by (claim : AppTaskClaim) : settles := Some (clm_taskId claim, clm_attemptId claim).

Lemma settles_claim s input tree t a r :
  Context.readTaskContext s input = Ok tree -> obj_get t (resources tree) = Some r ->
  st_currentAttemptId (status r) = Some a -> settles_current s (Some (t, a)).
Proof.
  intros Hc Hr Ha t' a' [= <- <-]. apply (context_resources _ _ _ _ _ Hc) in Hr. eauto.
Qed.

Lemma settles_none s : settles_current s None.
Proof. done. Qed.

Lemma elem_of_begin tree claim actions t r :
  obj_get (clm_taskId claim) (resources tree) = Some r -> clm_taskId claim <> "" ->
  t = clm_taskId claim \/ t ∈ unblockedIds actions /\ t <> "" ->
  t ∈ sc_writeTaskIds (beginResourceMutationScope tree claim actions).
Proof.
  intros Hr Hne Ht. unfold beginResourceMutationScope. rewrite Hr.
  assert (forall scope id, sc_writeTaskIds (fenceResourceMutationTask tree scope id) = sc_writeTaskIds scope) as Hfence.
  { intros. unfold fenceResourceMutationTask. by repeat case_cond. }
  assert (forall l scope, t ∈ sc_writeTaskIds scope \/ t ∈ unblockedIds l /\ t <> "" ->
    t ∈ sc_writeTaskIds (fold_left (fun scope a => if kindIs a "unblock-task"
      then trackResourceMutationTask tree scope (textField (default [] (actionFields a)) "taskId") else scope) l scope)) as Hgen.
  { induction l as [|a l IH]; intros scope; cbn [fold_left].
    - intros [H|[H _]]; [done|by apply not_elem_of_nil in H].
    - intros H. apply IH. unfold unblockedIds in H |- *. simpl in H. destruct (kindIs a "unblock-task").
      + rewrite elem_of_track. rewrite elem_of_cons in H. naive_solver.
      + done. }
  apply Hgen. rewrite Hfence, elem_of_track. naive_solver.
Qed.

(** A claim that matches the bounded read settles its own attempt. *)
Lemma match_settles s input tree claim r :
  Context.readTaskContext s input = Ok tree ->
  obj_get (clm_taskId claim) (resources tree) = Some r -> st_currentAttemptId (status r) = Some (clm_attemptId claim) ->
  derived s (claimed_by claim) tree /\ settles_current s (claimed_by claim) /\ has (clm_taskId claim) tree /\
  clm_taskId claim <> "".
Proof.
  intros Hc Hr Ha. split; [by eapply context_derived|]. split; [by eapply settles_claim|].
  split; [by exists r|]. by eapply context_named.
Qed.

(** The last step of a settlement: the Task is released and the scope committed. *)
Lemma settling_commit {A} s claim done_ now scope tree ext (k : unit -> M A) :
  sound s -> derived s (claimed_by claim) tree -> settles_current s (claimed_by claim) ->
  (exists r, obj_get (clm_taskId claim) (resources tree) = Some r /\ idle r) ->
  extends ext -> clm_taskId claim ∈ sc_writeTaskIds scope -> (forall u, reads (k u)) ->
  settling claim done_ (commitScope now scope tree ext ≫= k) s.
Proof.
  intros Hs Hd Hc Hi Hext Hin Hk.
  assert (forall t a, claimed_by claim = Some (t, a) ->
    t ∈ sc_writeTaskIds scope /\ exists r, obj_get t (resources tree) = Some r /\ idle r) as Hfin by by intros t a [= <- <-].
  assert (safe (commitScope now scope tree ext) s) as Hsafe by by apply (safe_scope s (claimed_by claim)).
  split; [by apply safe_last|]. intros x s' ([] & s1 & E & Hx)%run_bind _. specialize (Hk tt s1). rewrite Hx in Hk. simpl in Hk. subst s'.
  destruct Hsafe as [_ Hev]. rewrite E in Hev. destruct (Hc _ _ eq_refl) as (r0 & Hr0 & Ha). split.
  - apply Hev. destruct Hs as [_ Ho]. destruct (Ho _ _ Hr0) as [[Hn _]|(_ & a & y & Ha' & _ & Hy & _)]; [congruence|].
    replace (clm_attemptId claim) with a by congruence. by exists y.
  - destruct (scope_commit s s1 _ now scope tree ext Hs Hd Hc Hext Hfin E) as [_ Hw]. destruct Hi as (r & Hr & [Hn _]).
    destruct (Hw _ _ Hin Hr) as [Hr' _]. intros r'. rewrite Hr'. intros [= <-]. congruence.
Qed.

(** ** Settling operations *)

Lemma completed_not_running r b : completedPhase r b <> running.
Proof. unfold completedPhase. by repeat case_cond. Qed.

Lemma derived_accept s now claim input keys tree :
  derived s (claimed_by claim) tree -> settles_current s (claimed_by claim) ->
  derived s (claimed_by claim) (acceptConverged now claim input keys tree).
Proof.
  intros Hd Hc. unfold acceptConverged. eapply derived_finish; [|done|done].
  apply derived_unlinkSatisfied, derived_consume, derived_upd_attempt; auto.
Qed.

Definition isApplied {A} (r : Settlement A) : bool := match r with settle_stale => false | applied _ => true end.
Definition notSuperseded (r : FailureOutcome) : bool := match r with fail_superseded _ => false | _ => true end.

Lemma complete_settles now claim input s : sound s -> settling claim isApplied (completeAppTask now claim input) s.
Proof.
  intros Hs. unfold completeAppTask. safe_read tree Hctx. destruct (matchingTaskAttempt tree claim) as [[r x]|] eqn:Em; [|done].
  apply match_task in Em as (Hr & Hx & Ha & Hst). destruct (match_settles s _ _ _ _ Hctx Hr Ha) as (Hd & Hc & Hh & Hne).
  safe_read outcome Ho. safe_read u Hu. safe_read pair_ Ht. destruct pair_ as [tree2 lines].
  pose proof (derived_outcome _ _ _ _ _ _ _ _ Hd Ho) as Hd1. pose proof (derived_actions _ _ _ _ _ _ _ _ _ Hd1 Ht) as Hd2.
  pose proof (derived_accept _ now _ input (oc_keys outcome) _ Hd2 Hc) as Hd3.
  cbv zeta. set (tree3 := acceptConverged _ _ _ _ _) in *. safe_read after_ Hres.
  apply settling_commit; auto with may.
  - apply derived_upd_attempt; [apply derived_release; [done|]|].
    + intros st. split; [done|]. apply completed_not_running.
    + intros y. split_ands; [..|left]; unfold releaseWorkspace; by repeat case_cond.
  - rewrite upd_attempt_resources. apply released_idle.
    + unfold taskOf in Hres. unfold has. by case_cond_in Hres.
    + intros st. split; [done|]. apply completed_not_running.
  - apply elem_of_tracks. left. pose proof (outcome_tree _ _ _ _ _ _ Ho) as (r0 & r1 & _ & _ & Eo).
    eapply elem_of_begin; [|done|by left]. rewrite Eo. simpl. by rewrite obj_get_set, String.eqb_refl.
Qed.

Lemma failed_status s rowOrder config now r x y retry :
  failedExecutionState rowOrder config s now r x = (y, retry) -> forall st, st_phase (retry st) <> running.
Proof. unfold failedExecutionState. intros [= _ <-] st. simpl. by case_cond. Qed.

Lemma report_settles rowOrder config now claim input s : sound s -> settling claim isApplied (reportAppTaskFailure rowOrder config now claim input) s.
Proof.
  intros Hs. unfold reportAppTaskFailure. safe_read tree Hctx. destruct (matchingTaskAttempt tree claim) as [[r x]|] eqn:Em; [|done].
  apply match_task in Em as (Hr & Hx & Ha & Hst). destruct (match_settles s _ _ _ _ Hctx Hr Ha) as (Hd & Hc & Hh & Hne).
  safe_read u1 H1. safe_read u2 H2. safe_read yr Hy. destruct yr as [y retry]. apply Ok_inj in Hy.
  pose proof (failed_status _ _ _ _ _ _ _ _ Hy) as Hph.
  safe_read outcome Ho. safe_read tree4 Hk. cbv zeta.
  assert (derived s (claimed_by claim) (oc_tree outcome)) as Hd1 by (eapply derived_outcome; [|exact Ho]; by apply derived_upd_attempt; auto).
  assert (has (clm_taskId claim) (oc_tree outcome)) as Hh1 by (eapply has_outcome; [|exact Ho]; by apply has_upd_attempt).
  assert (derived s (claimed_by claim) tree4) as Hd4 by (eapply derived_retainKeys; [|exact Hk]; apply derived_upd_attempt; auto).
  assert (has (clm_taskId claim) tree4) as Hh4 by (eapply has_retainKeys; [|exact Hk]; by apply has_upd_attempt).
  apply settling_commit; auto with may.
  - apply derived_release; [|intros st; split; [done|apply Hph]]. eapply derived_finish; [|done|done]. by apply derived_consume.
  - apply released_idle; [by apply has_finish, has_consume|]. intros st; split; [done|apply Hph].
  - eapply elem_of_begin; [exact Hr|done|by left].
Qed.

(** The tree in which a failed attempt has let its Task go. *)
Lemma failed_tree `{Crypto} s claim now tree r x at_ failure failed F :
  derived s (claimed_by claim) tree -> settles_current s (claimed_by claim) -> has (clm_taskId claim) tree ->
  (forall y, att_id (failed y) = att_id y /\ att_taskId (failed y) = att_taskId y /\ att_state (failed y) = att_state y) ->
  (forall st, st_currentAttemptId (F st) = None /\ st_phase (F st) <> running) ->
  let final := updResource (clm_taskId claim) (touchResource now F) (updAttempt (clm_attemptId claim) failed
    (finishAttempt (clm_taskId claim) at_failed failure now (restoreAttemptEvents tree (clm_taskId claim) r x at_))) in
  derived s (claimed_by claim) final /\ exists r', obj_get (clm_taskId claim) (resources final) = Some r' /\ idle r'.
Proof.
  intros Hd Hc Hh Hf HF final. split.
  - apply derived_release; [|done]. apply derived_upd_attempt; [eapply derived_finish; [|done|done]; by apply derived_restore|].
    intros y. destruct (Hf y) as (? & ? & ?). auto.
  - apply released_idle; [by apply has_upd_attempt, has_finish, has_restore|done].
Qed.

(** The optional parts of a failure do not concern ownership. *)
Lemma failure_notes details (retry : TaskStatus -> TaskStatus) st :
  (forall st, st_phase (retry st) <> running) ->
  let noted st := match fd_facts details with Some f => with_st_facts (Some f) st | None => st end in
  let kept st := match fd_result details with Some r => with_st_result (Some r) st | None => st end in
  forall g summary, st_currentAttemptId (kept (noted (with_st_summary summary (with_st_currentAttemptId None
    (with_st_observedGeneration g (retry st)))))) = None /\
  st_phase (kept (noted (with_st_summary summary (with_st_currentAttemptId None (with_st_observedGeneration g (retry st)))))) <> running.
Proof. intros Hr noted kept g summary. subst noted kept. by destruct (fd_facts details), (fd_result details); simpl. Qed.

Lemma failed_attempt_kept details y :
  let failed a := with_att_failureReason (Some (default "HandlerExecutionFailed" (fd_reason details)))
    (match fd_unacceptedResult details with Some r => with_att_unacceptedResult (Some r) a | None => a end) in
  att_id (failed y) = att_id y /\ att_taskId (failed y) = att_taskId y /\ att_state (failed y) = att_state y.
Proof. simpl. by case_cond. Qed.

Lemma fail_settles `{Crypto} rowOrder config now claim failure details s :
  sound s -> settling claim notSuperseded (failAppTaskAttempt rowOrder config now claim failure details) s.
Proof.
  intros Hs. unfold failAppTaskAttempt. safe_read tree Hctx.
  destruct (matchingClaimAttempt _ _ claim) as [[r x]|] eqn:Em; [|done].
  apply match_claim in Em as (Hr & Hx & Ha & Hst). destruct (match_settles s _ _ _ _ Hctx Hr Ha) as (Hd & Hc & Hh & Hne).
  safe_read yr Hy. destruct yr as [y retry]. apply Ok_inj in Hy. pose proof (failed_status _ _ _ _ _ _ _ _ Hy) as Hph.
  safe_read outcome Ho. cbv zeta.
  assert (derived s (claimed_by claim) (oc_tree outcome)) as Hd1 by (eapply derived_outcome; [|exact Ho]; by apply derived_upd_attempt; auto).
  assert (has (clm_taskId claim) (oc_tree outcome)) as Hh1 by (eapply has_outcome; [|exact Ho]; by apply has_upd_attempt).
  match goal with |- settling _ _ (commitScope _ _ (updResource _ (touchResource _ ?F) (updAttempt _ ?g (finishAttempt _ _ _ _
      (restoreAttemptEvents _ _ ?r1 ?x1 ?at1)))) _ ≫= _) _ =>
    destruct (failed_tree s claim now (oc_tree outcome) r1 x1 at1 failure g F Hd1 Hc Hh1) as [Hd2 Hi] end.
  { intros z. apply failed_attempt_kept. }
  { intros st. by apply failure_notes. }
  apply settling_commit; auto with may. eapply elem_of_begin; [exact Hr|done|by left].
Qed.

Lemma applyPending_scope db now l tree scope t :
  t ∈ sc_writeTaskIds scope -> t ∈ sc_writeTaskIds (applyPending db now l (tree, scope)).2.
Proof.
  unfold applyPending. revert tree scope. induction l as [|e l IH]; intros tree scope Ht; [done|]. cbn [fold_left].
  destruct (Conditions.applyAppTaskConditionEvent _ _ _ _) as [wakes t1]. apply IH. cbn [snd].
  revert scope Ht. induction wakes as [|w wakes IHw]; intros scope Ht; [done|]. cbn [fold_left]. apply IHw.
  apply elem_of_track. by left.
Qed.

Lemma defer_not_running now tree t c h o r e : deferPhase now tree t c h o r e <> running.
Proof. unfold deferPhase. by case_cond. Qed.

Lemma derived_installWaits s now claim input accepted tree tree' b :
  derived s (claimed_by claim) tree -> settles_current s (claimed_by claim) -> has (clm_taskId claim) tree ->
  installWaits now claim input accepted tree = Ok (tree', b) ->
  derived s (claimed_by claim) tree' /\ has (clm_taskId claim) tree'.
Proof.
  intros Hd Hc Hh (tree2 & H2 & [= <- _])%res_bind_Ok.
  assert (derived s (claimed_by claim) tree2 /\ has (clm_taskId claim) tree2) as [Hd2 Hh2].
  { set (tree1 := finishAttempt _ _ _ _ _) in H2.
    assert (derived s (claimed_by claim) tree1) as Hd1.
    { eapply derived_finish; [|done|done]. apply derived_upd_attempt; auto. }
    assert (has (clm_taskId claim) tree1) as Hh1 by by apply has_finish, has_upd_attempt.
    destruct (df_conditions input); [by injection H2 as <-|].
    split; [by eapply derived_materialize|by eapply has_materialize]. }
  split; [by apply derived_unlinkSatisfied|by apply has_unlinkSatisfied].
Qed.

Lemma deferInTree_settles db now claim input outcome reviewAt s :
  sound s -> derived s (claimed_by claim) (oc_tree outcome) -> settles_current s (claimed_by claim) ->
  has (clm_taskId claim) (oc_tree outcome) -> clm_taskId claim <> "" ->
  settling claim isApplied (deferInTree db now claim input outcome reviewAt) s.
Proof.
  intros Hs Hd Hc Hh Hne. unfold deferInTree. safe_read u0 H0. safe_read pair_ Ha. destruct pair_ as [tree1 lines].
  safe_read u1 H1. safe_read u2 H2. safe_read pair_ Hi. destruct pair_ as [tree2 had].
  set (tree0 := consumeSettledTaskEvents _ _ _ _ _) in *.
  assert (derived s (claimed_by claim) tree0) as Hd0 by by apply derived_consume.
  assert (has (clm_taskId claim) tree0) as Hh0 by by apply has_consume.
  assert (derived s (claimed_by claim) tree1) as Hd1 by by eapply derived_actions.
  assert (has (clm_taskId claim) tree1) as Hh1 by by eapply has_actions.
  destruct (derived_installWaits s now claim input _ _ _ _ Hd1 Hc Hh1 Hi) as [Hd2 Hh2].
  case_cond; [done|]. safe_read tree3 Hk.
  assert (derived s (claimed_by claim) tree3) as Hd3 by by eapply derived_retainKeys.
  assert (has (clm_taskId claim) tree3) as Hh3 by by eapply has_retainKeys.
  match goal with |- settling _ _ (let '(_, _) := applyPending _ _ _ (?x, _) in _) _ => set (tree4 := x) in * end.
  set (scope := beginResourceMutationScope tree0 claim (df_actions input)).
  set (l := pendingOf tree0 (clm_taskId claim)).
  pose proof (applyPending_frame db now l tree4 scope) as [Er Ea].
  assert (clm_taskId claim ∈ sc_writeTaskIds scope) as Hscope.
  { destruct Hh0 as [r0 Hr0]. eapply elem_of_begin; [exact Hr0|done|by left]. }
  pose proof (applyPending_scope db now l tree4 scope (clm_taskId claim) Hscope) as Hin.
  destruct (applyPending db now l (tree4, scope)) as [tree5 scope5]. cbn [fst snd] in *.
  assert (derived s (claimed_by claim) tree4) as Hd4.
  { apply derived_release; [done|]. intros st. split; [done|]. apply defer_not_running. }
  apply settling_commit; auto with may.
  - by apply (derived_same _ _ tree4).
  - rewrite Er. apply released_idle; [done|]. intros st. split; [done|]. apply defer_not_running.
Qed.

Lemma defer_settles db now claim input s : sound s -> settling claim isApplied (deferAppTask db now claim input) s.
Proof.
  intros Hs. unfold deferAppTask. safe_read tree Hctx. destruct (matchingTaskAttempt tree claim) as [[r x]|] eqn:Em; [|done].
  apply match_task in Em as (Hr & Hx & Ha & Hst). destruct (match_settles s _ _ _ _ Hctx Hr Ha) as (Hd & Hc & Hh & Hne).
  safe_read outcome Ho. safe_read after_ Hres. safe_read rv Hrv. apply deferInTree_settles; auto.
  - by eapply derived_outcome.
  - by eapply has_outcome.
Qed.

(** Changes of a running attempt do not settle it. *)
Lemma changes_safe now claim input s : sound s -> safe (applyRunningTaskChanges now claim input) s.
Proof.
  intros Hs. unfold applyRunningTaskChanges. safe_read tree Hctx. destruct (matchingTaskAttempt tree claim) as [[r x]|]; [|done].
  pose proof (context_derived s _ tree None Hctx) as Hd.
  safe_read keys Hk. safe_read u0 H0. safe_read u1 H1. safe_read pair_ Ha. destruct pair_ as [tree1 lines].
  safe_read tree2 H2. safe_read tree3 H3. cbv zeta.
  assert (derived s None tree1) as Hd1 by by eapply derived_actions.
  assert (derived s None tree2) as Hd2.
  { destruct (rc_conditions input); [by injection H2 as <-|by eapply derived_materialize]. }
  assert (derived s None tree3) as Hd3 by by eapply derived_retainKeys.
  apply safe_last; [|auto with may]. apply (safe_scope s None); [done| |done|auto with may|done].
  apply derived_touch; [|done]. apply derived_upd_attempt; [done|]. intros y. auto.
Qed.

(** ** Leases, sessions and workspaces *)

(** Writing an attempt that keeps its state and Task. *)
Lemma safe_attempt s now m x x' :
  sound s -> readAttempt s (att_id x) = Some x ->
  att_id x' = att_id x -> att_taskId x' = att_taskId x -> att_state x' = att_state x ->
  mu_tasks m = [] -> mu_attempts m = [x'] -> mu_deleteTaskIds m = [] -> mu_deleteAttemptIds m = [] ->
  safe (commitMutation now m) s.
Proof.
  intros Hs Hx Hid Ht Hst E1 E2 E3 E4.
  set (tree := mkTree None None None None None [] [] [(att_id x, x')] [] [] [] [] []).
  apply (safe_commit s None now m tree); [done| |done| |done].
  - split; [done|done|]. intros a y [= -> ->]%list_elem_of_singleton. exists x. auto.
  - split; [by rewrite E1; intros w Hw; apply not_elem_of_nil in Hw| |done].
    rewrite E2. intros y ->%list_elem_of_singleton. rewrite Hid. by left.
Qed.

Lemma context_attempt s input tree a x :
  sound s -> Context.readTaskContext s input = Ok tree -> obj_get a (attempts tree) = Some x ->
  readAttempt s a = Some x /\ att_id x = a.
Proof.
  intros [[Hs _] _] Hc Hx%obj_get_Some_elem. apply (context_attempts _ _ _ _ _ Hc) in Hx. split; [done|].
  by eapply stored_attempt_id.
Qed.

Lemma refresh_same uuid now nowMs sid x :
  att_id (refreshAttemptLease uuid now nowMs sid x) = att_id x /\
  att_taskId (refreshAttemptLease uuid now nowMs sid x) = att_taskId x /\
  att_state (refreshAttemptLease uuid now nowMs sid x) = att_state x.
Proof. unfold refreshAttemptLease. by destruct (boundedLeaseTimes now nowMs). Qed.

Lemma renew_safe uuid now claim nowMs s : sound s -> safe (renewAppTaskAttemptLease uuid now claim nowMs) s.
Proof.
  intros Hs. unfold renewAppTaskAttemptLease. safe_read tree Hctx.
  destruct (matchingClaimAttempt _ _ claim) as [[r x]|] eqn:Em; [|done]. apply match_claim in Em as (_ & Hx & _).
  apply (context_attempt _ _ _ _ _ Hs Hctx) in Hx as [Hx Hid]. apply safe_last; [|auto with may].
  destruct (refresh_same uuid now nowMs (att_sessionId x) (bumpAttempt x)) as (? & ? & ?).
  apply (safe_attempt s now _ x (refreshAttemptLease uuid now nowMs (att_sessionId x) (bumpAttempt x))); try done; by rewrite Hid.
Qed.

Lemma attach_same uuid now sid x :
  att_id (attachSession uuid now sid x) = att_id x /\ att_taskId (attachSession uuid now sid x) = att_taskId x /\
  att_state (attachSession uuid now sid x) = att_state x.
Proof. unfold attachSession. apply (refresh_same uuid now (num now) (Some sid) (with_att_sessionId (Some sid) (bumpAttempt x))). Qed.

Lemma record_session_safe uuid now claim sid s : sound s -> safe (recordAppTaskAttemptSession uuid now claim sid) s.
Proof.
  intros Hs. unfold recordAppTaskAttemptSession. safe_read tree Hctx.
  destruct (matchingClaimAttempt _ _ claim) as [[r x]|] eqn:Em; [|done]. apply match_claim in Em as (_ & Hx & _).
  apply (context_attempt _ _ _ _ _ Hs Hctx) in Hx as [Hx Hid]. case_cond; [done|]. apply safe_last; [|auto with may].
  destruct (attach_same uuid now sid x) as (? & ? & ?).
  apply (safe_attempt s now _ x (attachSession uuid now sid x)); try done; by rewrite Hid.
Qed.

Lemma associate_safe uuid now t g a sid s : sound s -> safe (associateAppTaskSession uuid now t g a sid) s.
Proof.
  intros Hs. unfold associateAppTaskSession. safe_read tree Hctx.
  destruct (obj_get t (resources tree)) as [r|]; [|done]. case_cond; [done|].
  destruct (_ ≫= _) as [x|] eqn:Ex; [|done]. do 2 (case_cond; [done|]).
  destruct (nonempty _) as [c|]; [|done]. simpl in Ex. apply (context_attempt _ _ _ _ _ Hs Hctx) in Ex as [Hx Hid].
  apply safe_last; [|auto with may]. destruct (attach_same uuid now sid x) as (? & ? & ?).
  apply (safe_attempt s now _ x (attachSession uuid now sid x)); try done; by rewrite Hid.
Qed.

Lemma workspace_safe now claim w s : sound s -> safe (recordAppTaskAttemptWorkspace now claim w) s.
Proof.
  intros Hs. unfold recordAppTaskAttemptWorkspace. safe_read tree Hctx. destruct (matchingTaskAttempt tree claim); [|done].
  apply safe_last; [|auto with may]. apply (safe_scope s None); [done| |done|auto with may|done].
  apply derived_touch; [|done]. apply derived_upd_attempt; [by eapply context_derived|auto].
Qed.

Lemma safe_atomically {A} (m : M A) s : sound s -> safe m s -> safe (StateTransaction.atomically m) s.
Proof. intros Hs Hm. unfold safe, StateTransaction.atomically in *. by destruct (m s) as [[]?]. Qed.

Lemma released_workspace_safe now claim w s : sound s -> safe (recordReleasedAppTaskWorkspace now claim w) s.
Proof.
  intros Hs. apply safe_atomically; [done|]. safe_read tree Hctx. safe_read stored Hstored. apply Ok_inj in Hstored.
  destruct (obj_get _ (resources tree)) as [r|]; [|done]. destruct stored as [x|]; [|done]. case_cond; [|done].
  assert (att_id x = clm_attemptId claim) as Hid by (eapply stored_attempt_id; [apply Hs|done]).
  apply (safe_attempt s now _ x (with_att_workspace (Some w) (bumpAttempt x))); try done; by rewrite Hid.
Qed.

(** ** Interrupted attempts *)

Section Interrupt.
Context `{Crypto} (now : Z).

Lemma interrupt_released s input tree t r a x summary reason note :
  Context.readTaskContext s input = Ok tree -> obj_get t (resources tree) = Some r ->
  st_currentAttemptId (status r) = Some a ->
  let tree' := interrupt now t r x summary reason note tree in
  derived s (Some (t, a)) tree' /\ settles_current s (Some (t, a)) /\
  exists r', obj_get t (resources tree') = Some r' /\ idle r'.
Proof.
  intros Hctx Hr Ha. cbv zeta. pose proof (settles_claim _ _ _ _ _ _ Hctx Hr Ha) as Hc.
  pose proof (context_derived s _ tree (Some (t, a)) Hctx) as Hd.
  assert (forall st : TaskStatus, st_currentAttemptId (if note then
      with_st_summary (Some summary) (with_st_currentAttemptId None (with_st_phase pending st)) else
      with_st_currentAttemptId None (with_st_phase pending st)) = None /\
    st_phase (if note then with_st_summary (Some summary) (with_st_currentAttemptId None (with_st_phase pending st)) else
      with_st_currentAttemptId None (with_st_phase pending st)) <> running) as Hf by (intros st; by destruct note).
  split; [|split; [done|]]; unfold interrupt.
  - apply derived_release; [|done]. apply derived_upd_attempt; [|auto].
    eapply derived_finish; [|done|done]. by apply derived_restore.
  - apply released_idle; [|done]. apply has_upd_attempt, has_finish, has_restore. by exists r.
Qed.

Lemma safe_interrupt s input tree t r a x summary reason note :
  sound s -> Context.readTaskContext s input = Ok tree -> obj_get t (resources tree) = Some r ->
  st_currentAttemptId (status r) = Some a -> safe (interruptAndCommit now t r x summary reason note tree) s.
Proof.
  intros Hs Hctx Hr Ha. destruct (interrupt_released s input tree t r a x summary reason note Hctx Hr Ha) as (Hd & Hc & Hi).
  apply (safe_scope s (Some (t, a))); [done..|auto with may|]. intros t' a' [= <- <-]. split; [|done].
  apply elem_of_tracks. right. split; [by left|]. by eapply context_named.
Qed.

Lemma current_attempt tree r x :
  currentResourceAttempt tree r = Ok (Some x) -> exists a, st_currentAttemptId (status r) = Some a /\
    obj_get a (attempts tree) = Some x /\ att_taskId x = md_id (metadata r) /\ att_state x = at_running.
Proof.
  unfold currentResourceAttempt. destruct (nonempty _) as [a|] eqn:E; [|done]. apply nonempty_Some in E as [E _].
  destruct (obj_get a (attempts tree)) as [y|] eqn:Ey; [|done]. destruct (String.eqb_spec (att_taskId y) (md_id (metadata r))); [|done].
  case_bool_decide; [|done]. intros [= <-]. eauto.
Qed.

Lemma release_interrupted_safe rt rc summary s : sound s -> safe (releaseInterruptedAppTaskAttempt now rt rc summary) s.
Proof.
  intros Hs. unfold releaseInterruptedAppTaskAttempt. safe_read tree Hctx.
  destruct (obj_get _ (resources tree)) as [r|] eqn:Hr; [|done]. case_cond; [done|]. safe_read cur Hcur.
  destruct cur as [x|]; [|done]. case_cond; [done|]. apply current_attempt in Hcur as (a & Ha & _).
  apply safe_last; [|auto with may]. by eapply safe_interrupt.
Qed.

Lemma release_terminal_safe rc sid st summary nowMs act s :
  sound s -> safe (releaseTerminalSessionExpiredAppTaskAttempt now rc sid st summary nowMs act) s.
Proof.
  intros Hs. unfold releaseTerminalSessionExpiredAppTaskAttempt. safe_read tree Hctx.
  destruct (obj_get _ (resources tree)) as [r|] eqn:Hr; [|done]. case_cond; [done|]. safe_read cur Hcur.
  destruct cur as [x|]; [|done]. case_cond; [|done]. apply current_attempt in Hcur as (a & Ha & _).
  apply safe_last; [|auto with may]. by eapply safe_interrupt.
Qed.

Lemma release_late_safe t g sid summary s : sound s -> safe (releaseLateTerminalWorkflowAppTaskAttempt now t g sid summary) s.
Proof.
  intros Hs. unfold releaseLateTerminalWorkflowAppTaskAttempt. safe_read tree Hctx.
  destruct (obj_get _ (resources tree)) as [r|] eqn:Hr; [|done]. case_cond; [done|]. safe_read cur Hcur.
  destruct cur as [x|]; [|done]. case_cond; [|done]. apply current_attempt in Hcur as (a & Ha & _).
  apply safe_last; [|auto with may]. by eapply safe_interrupt.
Qed.

Lemma release_stale_safe claim summary s : sound s -> safe (releaseStaleAppTaskResult now claim summary) s.
Proof.
  intros Hs. unfold releaseStaleAppTaskResult. safe_read tree Hctx.
  destruct (obj_get _ (resources tree)) as [r|] eqn:Hr; [|done]. case_cond; [done|]. reflect_bools.
  destruct (obj_get _ (attempts tree)) as [x|] eqn:Hx; [|done]. case_cond; [done|]. cbv zeta.
  destruct (interrupt_released s _ tree _ r _ x summary "stale-reconciliation-result" false Hctx Hr Heqb) as (Hd & Hc & r' & Hr' & Hi).
  set (tree' := interrupt _ _ _ _ _ _ _ _) in *. safe_read after_ Ha. unfold taskOf in Ha. rewrite Hr' in Ha. injection Ha as <-.
  apply safe_last; [|auto with may].
  assert (md_id (metadata r') = clm_taskId claim) as Hid by (eapply derived_id; [apply Hs|exact Hd|done]).
  apply (safe_commit s (Some (clm_taskId claim, clm_attemptId claim)) now _ tree'); [done..| |].
  - split; simpl; [| |done].
    + intros w ->%list_elem_of_singleton. unfold w_id. simpl. by rewrite Hid.
    + destruct (obj_get (clm_attemptId claim) (attempts tree')) as [y|] eqn:Ey; simpl; [|intros ? Hn; by apply not_elem_of_nil in Hn].
      intros z ->%list_elem_of_singleton. apply obj_get_Some_elem in Ey.
      destruct (dv_attempts _ _ _ Hd _ _ Ey) as (y0 & Hy0 & E & _). rewrite E.
      by rewrite (stored_attempt_id s _ y0 (proj1 (proj1 Hs)) Hy0).
  - intros t a [= <- <-]. split; [by exists r'|]. exists (resourceWrite now tree' r' true). simpl. split; [by left|].
    unfold w_id. simpl. done.
Qed.

Lemma stop_safe t a g reason s : sound s -> safe (stopAppTaskAttempt now t a g reason) s.
Proof.
  intros Hs. unfold stopAppTaskAttempt. safe_read tree Hctx. safe_read stored Hstored.
  destruct (obj_get t (resources tree)) as [r|] eqn:Hr; [|done]. destruct stored as [x|]; [|done].
  repeat (case_cond; [done|]). reflect_bools. cbv zeta.
  pose proof (settles_claim _ _ _ _ _ _ Hctx Hr ltac:(eassumption)) as Hc.
  assert (forall keys st, st_currentAttemptId (stopStatus g reason keys st) = None /\ st_phase (stopStatus g reason keys st) <> running) as Hst.
  { intros keys st. unfold stopStatus. by case_cond. }
  apply safe_last; [|auto with may]. apply (safe_scope s (Some (t, a))); [done| |done|auto with may|].
  - apply derived_release; [|by intros; apply Hst]. apply derived_upd_attempt; [|auto].
    eapply derived_finish; [by eapply context_derived|done|done].
  - intros t' a' [= <- <-]. split; [apply elem_of_tracks; right; split; [by left|by eapply context_named]|].
    apply released_idle; [apply has_upd_attempt, has_finish; by exists r|by intros; apply Hst].
Qed.

(** ** Repairs *)

Lemma repair_safe step candidates s :
  sound s -> (forall tree r tree' summary, derived s None tree -> obj_get (md_id (metadata r)) (resources tree) = Some r ->
    step tree r = Some (tree', summary) -> derived s None tree') ->
  safe (runRepair now step candidates) s.
Proof.
  intros Hs Hstep. unfold runRepair. destruct candidates as [|c cs]; [done|]. safe_read tree Hctx.
  pose proof (context_derived s _ tree None Hctx) as Hd.
  assert (derived s None (repairLoop step tree).1.1) as Hd'.
  { unfold repairLoop. assert (forall keys acc, derived s None acc.1.1 ->
      derived s None (fold_left (fun acc id =>
        let '(tree, scope, repairs) := acc in
        match obj_get id (resources tree) with
        | Some r => match step tree r with
                    | Some (tree', summary) => (tree', trackResourceMutationTask tree scope (md_id (metadata r)),
                                                repairs ++ [mkRepair (md_id (metadata r)) summary])
                    | None => acc
                    end
        | None => acc
        end) keys acc).1.1) as Hloop; [|by apply Hloop].
    induction keys as [|k keys IH]; intros [[t0 sc] reps] H0; [done|]. cbn [fold_left]. apply IH.
    destruct (obj_get k (resources t0)) as [r|] eqn:Er; [|done]. destruct (step t0 r) as [[t1 sm]|] eqn:Es; [|done].
    cbn [fst]. eapply Hstep; [exact H0| |exact Es].
    by rewrite (derived_id s None t0 k r (proj1 (proj1 Hs)) H0 Er). }
  destruct (repairLoop step tree) as [[tree' scope] repairs]. cbn [fst] in Hd'. destruct repairs; [done|].
  apply safe_last; [|auto with may]. apply (safe_scope s None); [done..|auto with may|done].
Qed.

Lemma repair_attention_safe candidates s : sound s -> safe (repairPreviousRuntimeRecoveryAttention now candidates) s.
Proof.
  intros Hs. apply repair_safe; [done|]. intros tree r tree' summary Hd _. unfold recoveryAttentionStep.
  case_cond; [done|]. case_cond; [|done]. case_cond; [|done]. intros [= <- _].
  apply derived_release; [|done]. apply derived_upd_attempt; auto.
Qed.

Lemma derived_unlinks s fin time t (l : list (string * string)) tree :
  derived s fin tree -> derived s fin (fold_left (fun tree m => unlinkExactTaskCondition time t m.1 tree) l tree).
Proof. revert tree. induction l as [|x l IH]; intros tree Hd; [done|]. cbn [fold_left]. by apply IH, derived_unlinkExact. Qed.

Lemma repair_unadmitted_safe adm candidates s : sound s -> safe (repairUnadmittedAppDependencyWaits now adm candidates) s.
Proof.
  intros Hs. apply repair_safe; [done|]. intros tree r tree' summary Hd _. unfold unadmittedStep.
  case_cond; [done|]. destruct (missingRequests adm tree r) as [|m0 ms]; [done|]. intros [= <- _].
  apply derived_release; [|done]. by apply (derived_unlinks s None now _ (m0 :: ms)).
Qed.

Lemma repair_running_safe candidates s : sound s -> safe (repairRunningAppTasksWithoutAttempt now candidates) s.
Proof.
  intros Hs. apply repair_safe; [done|]. intros tree r tree' summary Hd _. unfold withoutAttemptStep.
  case_cond; [done|]. case_cond; [done|]. intros [= <- _]. apply derived_release; [|done].
  case_cond; [|done]. apply derived_upd_attempt; [done|auto].
Qed.

End Interrupt.

(** ** Control *)

Section Control.
Context `{Crypto} (now : Z).

Lemma expect_exact t tree r : expectExact t tree = Ok r -> obj_get (tg_taskId t) (resources tree) = Some r.
Proof. unfold expectExact. destruct (obj_get _ _) as [r0|]; [|done]. repeat (case_cond; [done|]). by intros [= ->]. Qed.

Lemma retry_safe receiptId t s : sound s -> safe (retryFailedAppTask now receiptId t) s.
Proof.
  intros Hs. unfold retryFailedAppTask. safe_read c0 H0. case_cond; [done|]. unfold priorControl. safe_read prior H1.
  destruct prior as [c|]; [by repeat case_cond|]. safe_read tree Hctx. unfold retryInTree.
  safe_read r Hr. safe_read at0 Hat0. safe_read att Hatt. cbv zeta. apply safe_last; [|auto with may].
  apply (safe_scope s None); [done| |done|auto with may|done]. apply derived_release; [|done].
  pose proof (context_derived s _ tree None Hctx) as Hd. case_cond; [|done]. by apply derived_restore.
Qed.

Lemma reopenInTree_safe maxId i input tree s :
  sound s -> Context.readTaskContext s input = Ok tree -> safe (reopenInTree now maxId i tree) s.
Proof.
  intros Hs Hctx. unfold reopenInTree. safe_read p0 H0. safe_read rc Hrc. destruct rc as [r c]. safe_read sp Hsp. cbv zeta.
  assert (obj_get (tg_taskId (re_target i)) (resources tree) = Some r) as Hr.
  { unfold checkReopen in Hrc. destruct (obj_get _ (resources tree)) as [r0|]; [|done]. destruct (obj_get _ (cancellations tree)); [|done].
    repeat (case_cond_in Hrc; [done|]). by injection Hrc as -> _. }
  apply safe_last; [|auto with may]. apply (safe_scope s None); [done| |done|auto with may|done].
  assert (derived s None (setResource (reopenedResource now i maxId sp r) (tg_taskId (re_target i)) tree)) as Hd.
  { eapply (derived_set _ _ _ _ r); [by eapply context_derived|done|done|]. by right; left. }
  case_cond; (eapply derived_same; [..|exact Hd]; done).
Qed.

Lemma reopen_safe maxId i s : sound s -> safe (reopenAppTask now maxId i) s.
Proof.
  intros Hs. apply safe_atomically; [done|]. safe_read u0 H0. safe_read u1 H1. safe_read ap_ H2. case_cond; [done|].
  safe_read prior Hp. destruct prior as [c|]; [by repeat case_cond|]. safe_read tree Hctx. by eapply reopenInTree_safe.
Qed.

Lemma closed_status i g st :
  st_currentAttemptId (closedStatus i g st) = None /\ st_phase (closedStatus i g st) <> running.
Proof. unfold closedStatus. destruct (ls_kind i); simpl; by repeat case_cond. Qed.

Lemma close_commit_safe i input r tree s :
  sound s -> Context.readTaskContext s input = Ok tree -> obj_get (tg_taskId (ls_target i)) (resources tree) = Some r ->
  safe (commitTaskCancellation now i r tree) s.
Proof.
  intros Hs Hctx Hr. unfold commitTaskCancellation. safe_read after_ Ha. cbv zeta. apply safe_last; [|auto with may].
  set (t := tg_taskId (ls_target i)) in *. set (fin := (fun a => (t, a)) <$> nonempty (st_currentAttemptId (status r)) : settles).
  assert (settles_current s fin) as Hc.
  { subst fin. destruct (nonempty _) as [a|] eqn:E; [|done]. apply nonempty_Some in E as [E _]. by eapply settles_claim. }
  pose proof (context_derived s _ tree fin Hctx) as Hd.
  set (tree1 := match nonempty (st_currentAttemptId (status r)) ≫= fun id => obj_get id (attempts tree) with
              | Some a => finishAttempt t at_interrupted (closeSummary i) now tree
                          |> updAttempt (att_id a) (fun a => a |> with_att_reason (closeSummary i) |> with_att_lease None)
              | None => tree
              end).
  assert (derived s fin tree1) as Hd1.
  { subst tree1 fin. destruct (nonempty _) as [a|]; [|done]. simpl. destruct (obj_get a (attempts tree)); [|done].
    apply derived_upd_attempt; [|auto]. by eapply derived_finish. }
  assert (has t tree1) as Hh1.
  { subst tree1. case_cond; [|by exists r]. apply has_upd_attempt, has_finish. by exists r. }
  apply (safe_scope s fin); [done| |done|auto with may|].
  - unfold closedTree. fold t. fold tree1. apply derived_release; [|intros; apply closed_status]. by apply derived_triggers.
  - intros t' a' Efin. assert (t' = t) as -> by (subst fin; destruct (nonempty _); by simplify_eq/=).
    split; [apply elem_of_tracks; right; split; [by left|by eapply context_named]|].
    unfold closedTree. fold t. fold tree1. apply released_idle; [done|intros; apply closed_status].
Qed.

Lemma close_safe i s : sound s -> safe (closeTask now i) s.
Proof.
  intros Hs. unfold closeTask. safe_read ap_ H0. case_cond; [done|]. safe_read u1 H1. unfold priorControl. safe_read prior H2.
  destruct prior as [c|].
  { unfold replayClosure. case_cond; [done|]. safe_read rec H3. destruct rec; [|done]. by safe_read u4 H4. }
  safe_read ex_ H3. destruct ex_ as [c|]; [case_cond; [done|]; by safe_read u4 H4|].
  safe_read tree Hctx. safe_read r Hr. safe_read acc H4. safe_read u5 H5. eapply close_commit_safe; [done|exact Hctx|].
  by apply expect_exact.
Qed.

Lemma closeApp_safe t reason actor pol after s : sound s -> safe (closeAppTask now t reason actor pol after) s.
Proof. intros Hs. unfold closeAppTask. safe_read u0 H0. by apply close_safe. Qed.

Lemma cancelApp_safe t reason actor pol s : sound s -> safe (cancelAppTask now t reason actor pol) s.
Proof. intros Hs. by apply close_safe. Qed.

End Control.

(** ** Admission *)

(** Writing one Task whose owner does not change. *)
Lemma safe_one_task s now m w :
  sound s -> mu_tasks m = [w] -> mu_attempts m = [] -> mu_deleteTaskIds m = [] -> mu_deleteAttemptIds m = [] ->
  (admissible s m = Ok true -> match readTask s (w_id w) with
                               | Some r => same_owner r (w_resource w)
                               | None => idle (w_resource w)
                               end) -> safe (commitMutation now m) s.
Proof.
  intros [Hwf Ho] E1 E2 E3 E4 Hw. apply safe_committed; [done|]. intros s1 Hadm Hm. specialize (Hw Hadm).
  assert (forall a, readAttempt s1 a = readAttempt s a) as Hatt.
  { intros a. by rewrite (applyMutation_attempts _ _ _ _ _ _ Hm), E2, E4. }
  split; [|split; [|intros a; by rewrite Hatt|apply (applyMutation_controlRows _ _ _ _ _ Hm)|by eapply applyMutation_appId]]; intros t r.
  - rewrite (StoreCommit.applyMutation_resources _ _ _ _ _ _ Hm), lastWrite_lastBy, E1, E3. cbn [lastBy].
    assert (forall r0, readTask s t = Some r0 -> same_owner r0 r -> idle r \/ runs s1 t r) as Hkeep.
    { intros r0 Hr0 Hsame. destruct (Ho t r0 Hr0) as [Hi|(Hrun & a & x & Ha & Hane & Hx & ?)].
      - left. by eapply same_owner_idle.
      - right. destruct Hsame as [Ec Hp]. split; [by apply Hp|]. exists a, x. rewrite Ec, Hatt. done. }
    destruct (String.eqb_spec (w_id w) t) as [<-|Hne]; simpl; [intros [= <-]|intros Hr; by apply (Hkeep r)].
    destruct (readTask s (w_id w)) as [r0|] eqn:Er; [eauto|by left].
  - intros a. rewrite (StoreCommit.applyMutation_resources _ _ _ _ _ _ Hm), lastWrite_lastBy, E1, E3. cbn [lastBy].
    destruct (String.eqb_spec (w_id w) t) as [<-|Hne]; simpl; [intros [= <-] Ha|eauto]. right.
    destruct (readTask s (w_id w)) as [r0|] eqn:Er; [|by destruct Hw as [E _]; rewrite E in Ha].
    destruct Hw as [E _]. rewrite E in Ha. eauto.
Qed.

Section Admission.
Context `{Crypto} (config : AppTaskContext) (now : Z).

Lemma record_trigger_safe t event s : sound s -> safe (recordAppTaskTrigger config now t event) s.
Proof.
  intros Hs. unfold recordAppTaskTrigger. safe_read tree Hctx. safe_read c0 H0. safe_read k0 H1.
  destruct (obj_get t (resources tree)) as [r|] eqn:Hr; [|done]. repeat (case_cond; [done|]).
  safe_read nx Hn. cbv zeta. apply safe_last; [|auto with may].
  pose proof (context_resources _ _ _ _ _ Hctx Hr) as Hr0.
  eapply safe_one_task; [done..|]. intros _. unfold w_id. simpl.
  rewrite (stored_id s t r (proj1 (proj1 Hs)) Hr0), Hr0. done.
Qed.

Lemma observed_owner appId input existing g a b c :
  md_id (metadata (observedResource now appId input existing g a b c)) =
    match existing with Some r => if a then md_id (metadata r) else in_id (ob_intent input) | None => in_id (ob_intent input) end /\
  match existing with
  | Some r => same_owner r (observedResource now appId input existing g a b c)
  | None => idle (observedResource now appId input existing g a b c)
  end.
Proof.
  unfold observedResource. destruct existing as [r|]; [|done]. destruct a; [|by destruct c].
  case_cond; [|done]. by destruct c.
Qed.

Lemma observeInTree_safe input key agent hash tree cin s :
  sound s -> Context.readTaskContext s cin = Ok tree -> safe (observeInTree now input key agent hash tree) s.
Proof.
  intros Hs Hctx. unfold observeInTree. set (id := in_id (ob_intent input)) in *. cbv zeta.
  set (same := match obj_get id (resources tree) with Some r => _ | None => false end). clearbody same.
  match goal with |- context [Z.max 1 ?x] => set (gen := if same then _ else Z.max 1 x) in * end. clearbody gen.
  safe_read ap_ Happ. safe_read u1 H1. safe_read triggers Ht.
  match goal with |- context [observedResource now ap_ input ?e gen same ?c ?l] =>
    pose proof (observed_owner ap_ input e gen same c l) as [Hid Hown];
    set (r' := observedResource now ap_ input e gen same c l) in * end.
  set (r2 := if isFreshHumanRequest key (ob_trigger input) then _ else r').
  assert (same_owner r' r2 /\ md_id (metadata r2) = md_id (metadata r')) as [Hso Hid2].
  { subst r2. case_cond; [|done]. split; [|done]. by apply touch_same. }
  clearbody r2. safe_read rd Hrd. apply safe_last; [|auto with may].
  assert (md_id (metadata r2) = id) as Hid3.
  { rewrite Hid2, Hid. destruct (obj_get id (resources tree)) as [r|] eqn:E; [|done]. case_cond; [|done].
    eapply stored_id; [apply Hs|]. by eapply context_resources. }
  eapply safe_one_task; [done..|]. intros Hadm. unfold w_id. simpl. rewrite Hid3.
  destruct (obj_get id (resources tree)) as [r|] eqn:E.
  - rewrite (context_resources _ _ _ _ _ Hctx E). by etrans.
  - assert (readTask s id = None) as ->; [|by eapply same_owner_idle].
    unfold admissible in Hadm. simpl in Hadm. rewrite Hid3 in Hadm. unfold readTask.
    destruct (tasks s !! id); [|done]. by simpl in Hadm.
Qed.

Lemma observe_safe input s : sound s -> safe (observeAppTaskIntent now input) s.
Proof.
  intros Hs. unfold observeAppTaskIntent. safe_read intent Hi. safe_read u0 H0. safe_read c0 H1. case_cond; [done|].
  case_cond; [done|]. safe_read tree Hctx.
  cbv zeta. destruct (obj_get _ (resources tree)) as [r|]; [case_cond; [done|]|].
  all: safe_read u2 H2; safe_read rp Hrp; destruct rp; [done|]; by eapply observeInTree_safe.
Qed.

End Admission.

(** ** Claims *)

Lemma recovery_frame now t input s :
  (forall k, readTask (setRecoveryState now t input s).2 k = readTask s k) /\
  (forall a, readAttempt (setRecoveryState now t input s).2 a = readAttempt s a) /\
  controls (setRecoveryState now t input s).2 = controls s /\ appId (setRecoveryState now t input s).2 = appId s.
Proof.
  unfold setRecoveryState, StateTransaction.atomically.
  assert (forall row x y z, tasks s !! t = Some row -> forall k,
    readTask (set_tasks (<[t := set_recovery x y z row]> (tasks s)) s) k = readTask s k) as Hset.
  { intros row x y z Hrow k. unfold readTask. simpl. destruct (decide (t = k)) as [->|Hne].
    - by rewrite lookup_insert_eq, Hrow.
    - by rewrite lookup_insert_ne. }
  cbv zeta. match goal with |- context [match ri_ready ?i with _ => _ end] => generalize i; intros inp end.
  assert (forall b x y z row, tasks s !! t = Some row ->
    let r := if (b : bool) then (Ok true, set_tasks (<[t := set_recovery x y z row]> (tasks s)) s) else (Ok false, s) in
    let r := match r with (Ok v, d) => (Ok v, d) | (Throw e, _) => (Throw e, s) end in
    (forall k, readTask r.2 k = readTask s k) /\ (forall a, readAttempt r.2 a = readAttempt s a) /\
    controls r.2 = controls s /\ appId r.2 = appId s) as Hcase.
  { intros [] x y z row Hrow; simpl; split_ands; intros; first [done|by eapply Hset]. }
  destruct (tasks s !! t) as [row|] eqn:Hrow; destruct (ri_ready inp), (ri_changed inp), (ri_nextCheckAt inp);
    try (split_ands; done); by apply Hcase.
Qed.

Lemma recovery_safe now t input s : sound s -> safe (setRecoveryState now t input) s.
Proof.
  intros [Hwf Ho]. destruct (recovery_frame now t input s) as (Hr & Ha & Hc & Hi). split; [split|by apply evolves_frame].
  - by apply StoreInvariant.setRecoveryState_wf.
  - intros k r. unfold runs. rewrite Hr. setoid_rewrite Ha. apply Ho.
Qed.

Lemma ack_safe now input rev next s :
  sound s -> safe (acknowledgeIndexedRecoveryWait now input rev next) s.
Proof.
  intros Hs. unfold acknowledgeIndexedRecoveryWait. apply safe_last; [by apply recovery_safe|auto with may].
Qed.

(** A commit of an edited tree adds no attempt. *)
Lemma scope_no_new s fin now scope tree ext s' a :
  sound s -> derived s fin tree -> extends ext -> commitScope now scope tree ext s = (Ok tt, s') ->
  readAttempt s a = None -> readAttempt s' a = None.
Proof.
  intros Hs Hd Hext H Ha. unfold commitScope in H. run_step H m s1. apply run_commit in H as [_ Hm].
  destruct (finish_from_tree s fin now scope tree m (proj1 (proj1 Hs)) Hd E) as [[_ Fa [_ Fd]] _].
  destruct (Hext m) as (_ & Ea & _ & E2). rewrite (applyMutation_attempts _ _ _ _ _ _ Hm), Ea, E2, Fd.
  destruct (lastBy att_id (mu_attempts m) a) as [y|] eqn:El; [|done].
  apply lastBy_Some in El as [Hy Ey]. apply Fa in Hy. rewrite Ey in Hy.
  destruct (dv_attempts _ _ _ Hd a y Hy) as (x & Hx & _). congruence.
Qed.

(** A Task without a current attempt is idle. *)
Lemma owned_idle s t r : owned s -> readTask s t = Some r -> nonempty (st_currentAttemptId (status r)) = None -> idle r.
Proof.
  intros Ho Hr Hn. destruct (Ho t r Hr) as [Hi|(_ & a & x & Ea & Hane & _)]; [done|]. rewrite Ea in Hn. simpl in Hn.
  by destruct (String.eqb_spec a "").
Qed.

Lemma derived_idle s tree t r r' :
  derived s None tree -> readTask s t = Some r -> idle r -> obj_get t (resources tree) = Some r' -> idle r'.
Proof.
  intros Hd Hr Hi Hr'. destruct (dv_resources _ _ _ Hd t r' Hr') as (r0 & Hr0 & _ & [Hs|[H|[? _]]]); [|done|done].
  rewrite Hr in Hr0. injection Hr0 as <-. by eapply same_owner_idle.
Qed.

(** The tree in which an exhausted allowance is adopted. *)
Lemma adoption_derived s input tree r x g claim scope kind outcome now f :
  sound s -> Context.readTaskContext s input = Ok tree -> obj_get (md_id (metadata r)) (resources tree) = Some r ->
  readAttempt s (att_id x) = Some x -> nonempty (st_currentAttemptId (status r)) = None ->
  (forall y, att_id (g y) = att_id y /\ att_taskId (g y) = att_taskId y /\ att_state (g y) = att_state y) ->
  inputOutcomeAdmissions s (updAttempt (att_id x) g (with_attempts (obj_set (att_id x) x (attempts tree)) tree)) claim scope kind
    = Ok outcome ->
  (forall st, st_currentAttemptId (f st) = st_currentAttemptId st /\ st_phase (f st) <> running) ->
  derived s None (updResource (md_id (metadata r)) (touchResource now f) (oc_tree outcome)).
Proof.
  intros Hs Hctx Hr Hx Hn Hg Eo Hf. pose proof (context_derived s _ tree None Hctx) as Hd.
  set (tree1 := with_attempts (obj_set (att_id x) x (attempts tree)) tree) in *.
  assert (derived s None tree1) as Hd1.
  { destruct Hd as [Dn Dr Da]. split; [done|done|]. simpl. intros a y [[= -> ->]|Hin]%elem_of_obj_set; [|by apply Da].
    exists x. auto. }
  assert (derived s None (oc_tree outcome)) as Hd2.
  { eapply derived_outcome; [|exact Eo]. apply derived_upd_attempt; [done|]. intros y. destruct (Hg y) as (? & ? & ?). auto. }
  apply derived_upd; [done|]. intros r' Hr'. split; [done|]. right. left.
  assert (idle r') as [Ei _].
  { eapply derived_idle; [done|by eapply context_resources| |exact Hr'].
    eapply owned_idle; [apply Hs|by eapply context_resources|done]. }
  destruct (Hf (status r')) as [Ec Hp]. apply touch_idle; [by rewrite Ec|done].
Qed.

(** Adopting a retained failure sequence. *)
Lemma exhaust_run rowOrder config now input tree r s b s' :
  sound s -> Context.readTaskContext s input = Ok tree -> obj_get (md_id (metadata r)) (resources tree) = Some r ->
  exhaustRetainedFailures rowOrder config now tree r s = (b, s') ->
  sound s' /\ evolves s s' /\ (b = Ok false -> s' = s) /\ (forall a, readAttempt s a = None -> readAttempt s' a = None).
Proof.
  intros Hs Hctx Hr H.
  assert (forall scope tree' ext, derived s None tree' -> extends ext ->
    let m := commitScope now scope tree' ext ≫= fun _ => mret true in
    m s = (b, s') -> sound s' /\ evolves s s' /\ (b = Ok false -> s' = s) /\ (forall a, readAttempt s a = None -> readAttempt s' a = None)) as Hcommit.
  { intros scope tree' ext Hd Hext m Hm. assert (safe m s) as Hsafe.
    { apply safe_last; [|auto with may]. by apply (safe_scope s None). }
    unfold safe in Hsafe. rewrite Hm in Hsafe. split; [apply Hsafe|]. split; [apply Hsafe|]. subst m. unfold mbind, M_bind, bind in Hm.
    destruct (commitScope now scope tree' ext s) as [[[]|e] s1] eqn:E; injection Hm as <- <-; (split; [done|]).
    - intros a Ha. exact (scope_no_new s None now scope tree' ext s1 a Hs Hd Hext E Ha).
    - intros a Ha. unfold commitScope in E. unfold mbind, M_bind, bind, lift in E.
      destruct (finishResourceMutationScope _ _ _); [|by injection E as _ <-]. by rewrite (commit_fails _ _ _ _ _ E). }
  unfold exhaustRetainedFailures in H. cbv zeta in H. set (n := executionFailureSequence rowOrder s r) in *.
  rewrite gets_bind in H. fold n in H.
  pose proof (context_derived s _ tree None Hctx) as Hd. case_cond_in H.
  - case_cond_in H; [|by injection H as <- <-]. eapply Hcommit; [..|exact H]; [|auto with may]. by apply derived_touch.
  - reflect_bools. rewrite gets_bind in H.
    destruct (nonempty n.2 ≫= readAttempt s) as [x|] eqn:Ex; [|by injection H as <- <-].
    case_cond_in H; [by injection H as <- <-|].
    assert (readAttempt s (att_id x) = Some x) as Hx.
    { destruct (nonempty n.2) as [a|]; [|done]. simpl in Ex. by rewrite (stored_attempt_id s a x (proj1 (proj1 Hs)) Ex). }
    rewrite gets_bind in H. destruct (inputOutcomeAdmissions s _ _ _ _) as [outcome|e] eqn:Eo in H; [|by injection H as <- <-].
    eapply Hcommit; [..|exact H]; [|auto with may]. eapply adoption_derived; [exact Hs|exact Hctx|exact Hr|exact Hx| |..|exact Eo|]; try done.
    by apply eq_None_not_Some.
Qed.

End TaskOwnership.
