(* ===== verification/TaskReconciler.v ===== *)
(** The reconciler as a whole: a transition system over the store whose steps
    are the reconciler's operations, and what holds in every reachable state. *)
From S2P Require Import Prelude Json TaskState TaskTree Transaction ResourceStore StoreInvariant StoreCommit.
From S2P Require Import StoreEffects Snapshot Context Approval Conditions Records Time TaskInputs TaskEvents.
From S2P Require Import TaskIntent TaskMutation TaskOutcome TaskAdmission TaskLease OutputPaths TaskClaim.
From S2P Require Import TaskContract TaskActions TaskSettle TaskRelease TaskControl TaskLaws TaskScenario.
From S2P Require Import TaskOwnership.

Module TaskReconciler.
Import ResourceStore StoreEffects TaskTree TaskInputs TaskEvents TaskIntent Time TaskMutation TaskOutcome TaskAdmission
  TaskLease TaskClaim TaskActions TaskSettle TaskRelease TaskControl TaskLaws TaskOwnership.

(** ** Installing an attempt *)

(** Committing a Task that a new attempt owns. *)
Lemma claim_owned s s' now m fin tree t x w b :
  owned s -> derived s fin tree -> settles_current s fin -> (forall t' a, fin = Some (t', a) -> t' = t) ->
  mu_tasks m = [w] -> w_id w = t -> st_phase (status (w_resource w)) = running ->
  st_currentAttemptId (status (w_resource w)) = Some (att_id x) -> att_id x <> "" ->
  (forall y, y ∈ mu_attempts m -> (att_id y, y) ∈ attempts tree \/ readAttempt s (att_id y) = None) ->
  lastBy att_id (mu_attempts m) (att_id x) = Some x -> att_state x = at_running -> att_taskId x = t ->
  mu_deleteTaskIds m = [] -> mu_deleteAttemptIds m = [] -> applyMutation now m s = (Ok b, s') -> owned s'.
Proof.
  intros Ho Hd Hc Hfin E1 Ew Hph Hcur Hne Hatt Hlast Hst Ht D1 D2 Hm t' r.
  rewrite (StoreCommit.applyMutation_resources _ _ _ _ _ _ Hm), lastWrite_lastBy, E1, D1. cbn [lastBy].
  destruct (String.eqb_spec (w_id w) t') as [Et|Hnt]; simpl.
  - intros [= <-]. right. split; [done|]. exists (att_id x), x.
    rewrite (applyMutation_attempts _ _ _ _ _ _ Hm), Hlast. split_ands; congruence.
  - intros Hr. destruct (Ho t' r Hr) as [Hi|(Hrun & a & y & Ha & Hane & Hy & Hys & Hyt)]; [by left|]. right. split; [done|].
    destruct (owner_survives s s' now m fin tree b t' a y) as (y' & ? & ? & ?); auto.
    + destruct fin as [[t0 a0]|]; [|done]. simpl. intros [= ->]. specialize (Hfin t' a0 eq_refl). congruence.
    + exists a, y'. auto.
Qed.

Lemma claim_evolves s s' now m x w b :
  mu_tasks m = [w] -> st_currentAttemptId (status (w_resource w)) = Some (att_id x) -> readAttempt s (att_id x) = None ->
  mu_deleteTaskIds m = [] -> mu_deleteAttemptIds m = [] -> applyMutation now m s = (Ok b, s') -> evolves s s'.
Proof.
  intros E1 Hcur Hnew D1 D2 Hm. split.
  - intros t r' a. rewrite (StoreCommit.applyMutation_resources _ _ _ _ _ _ Hm), lastWrite_lastBy, E1, D1. cbn [lastBy].
    destruct (String.eqb_spec (w_id w) t); simpl; [intros [= <-]; left; congruence|eauto].
  - intros a Ha. rewrite (applyMutation_attempts _ _ _ _ _ _ Hm), D2. by destruct (lastBy _ _ _).
  - apply (applyMutation_controlRows _ _ _ _ _ Hm).
  - by eapply applyMutation_appId.
Qed.

Lemma safe_commitClaim now input m result s : safe (commitMutation now m) s -> safe (commitClaim now input m result) s.
Proof.
  unfold safe, commitClaim. destruct (commitMutation now m s) as [[[]|e] s1]; [done|]. simpl. by case_cond.
Qed.

Section Claim.
Context `{Crypto} `{FileSystem} (config : AppTaskContext) (env : ClaimEnv) (now : Z) (input : ClaimInput).

(** The generated attempt id is new. *)
Definition fresh (s : store) : Prop := forall g, readAttempt s (newAttemptId env g) = None.

Lemma new_attempt_facts r hash agent handler prior ce re keys trigger :
  let x := newAttempt env now input r hash agent handler prior ce re keys trigger in
  att_id x = newAttemptId env (md_generation (metadata r)) /\ att_state x = at_running /\ att_taskId x = ci_taskId input.
Proof. cbv zeta. unfold newAttempt. by destruct (refresh_same (ce_leaseUuid env) now (num now) None (mkAttempt
    (newAttemptId env (md_generation (metadata r))) 1 (ci_taskId input) (md_generation (metadata r)) hash agent handler None
    (ce_runtimeId env) at_running (default "event" (ci_reason input)) None (match ce with [] => None | l => Some l end)
    (match re with [] => None | _ => Some true end) (match keys with [] => None | l => Some l end) None
    (match ce with [] => Some trigger | _ => None end) (toISOString now) None None None None (prior ≫= att_unacceptedResult)
    None None None None)) as (? & ? & ?). Qed.

Lemma lastBy_snoc {A} (key : A -> string) l x : lastBy key (l ++ [x]) (key x) = Some x.
Proof. induction l as [|a l IH]; simpl; [by rewrite String.eqb_refl|]. by rewrite IH. Qed.

Lemma install_safe s fin fence conds tree r intent agent paths prev prior canRecover stale ce re :
  sound s -> fresh s -> derived s fin tree -> settles_current s fin ->
  (forall t a, fin = Some (t, a) -> t = ci_taskId input) ->
  (forall x, prev = Some x -> canRecover = true -> fin = Some (ci_taskId input, att_id x)) ->
  safe (installAttempt config env now input fence conds tree r intent agent paths prev prior canRecover stale ce re) s.
Proof.
  intros Hs Hfresh Hd Hc Hfin Hrep. unfold installAttempt. set (t := ci_taskId input) in *. cbv zeta.
  set (replaced := if canRecover then prev else None). safe_read u0 H0'.
  match goal with |- context [obj_get t (resources (updResource t _ (with_taskTriggers _ (with_attempts _ ?tr))))] => set (tree1 := tr) in * end.
  assert (derived s fin tree1) as Hd1.
  { subst tree1 replaced. destruct canRecover; [|done]. destruct prev as [x|]; [|done].
    apply derived_upd_attempt; [|auto]. eapply derived_finish; [done|done|]. by apply Hrep. }
  match goal with |- context [newAttempt env now input r ?h agent ?hd ?pf ce re ?ks ?tr] =>
    destruct (new_attempt_facts r h agent hd pf ce re ks tr) as (Hid & Hst & Ht);
    set (x := newAttempt env now input r h agent hd pf ce re ks tr) in * end.
  match goal with |- safe (match obj_get t (resources ?tr) with _ => _ end) s => set (tree2 := tr) in * end.
  destruct (obj_get t (resources tree2)) as [after|] eqn:Ea; [|done].
  apply safe_commitClaim.
  assert (exists r1, obj_get t (resources tree1) = Some r1 /\ after = touchResource now (fun st => st |> with_st_phase running
      |> with_st_currentAttemptId (Some (att_id x)) |> with_st_admissionFailures None
      |> with_st_executionRetryAt None |> with_st_freshHumanInput false) r1) as (r1 & Hr1 & Eafter).
  { subst tree2. rewrite upd_resource_get, String.eqb_refl in Ea. simpl in Ea. destruct (obj_get t (resources tree1)); [|done].
    injection Ea as <-. eauto. }
  assert (md_id (metadata after) = t) as Hidafter by (rewrite Eafter; simpl; eapply derived_id; [apply Hs|exact Hd1|done]).
  apply safe_committed; [done|]. intros s1 _ Hm. destruct Hs as [Hwf Ho]. split.
  2: { apply (claim_evolves s s1 now _ x (resourceWrite now tree2 after false) true) with (6 := Hm); try done.
       - simpl. by rewrite Eafter, touch_current.
       - rewrite Hid. apply Hfresh. }
  apply (claim_owned s s1 now _ fin tree1 t x (resourceWrite now tree2 after false) true) with (16 := Hm); simpl; try done.
  - rewrite Eafter. by apply touch_running.
  - rewrite Eafter. by rewrite touch_current.
  - intros y [Hy|Hy]%elem_of_app; [|apply list_elem_of_singleton in Hy as ->; right; rewrite Hid; apply Hfresh].
    apply list_elem_of_omap in Hy as (i & _ & Hy). subst tree2. rewrite upd_resource_attempts in Hy. simpl in Hy.
    rewrite obj_get_set in Hy. case_cond_in Hy.
    + injection Hy as <-. right. rewrite Hid. apply Hfresh.
    + left. apply obj_get_Some_elem in Hy. destruct (dv_attempts _ _ _ Hd1 _ _ Hy) as (y0 & Hy0 & E & _).
      rewrite E. by rewrite (stored_attempt_id s i y0 (proj1 Hwf) Hy0).
  - exact (lastBy_snoc att_id _ x).
Qed.

(** ** The claim *)

Lemma refuse_safe s fin scope tree prev canRecover summary :
  sound s -> derived s fin tree -> settles_current s fin -> has (ci_taskId input) tree ->
  (forall t a, fin = Some (t, a) -> t = ci_taskId input) -> ci_taskId input ∈ sc_writeTaskIds scope ->
  (forall x, prev = Some x -> fin = Some (ci_taskId input, att_id x)) ->
  safe (refuseClaim now input scope tree prev canRecover summary) s.
Proof.
  intros Hs Hd Hc Hh Hfin Hin Hprev. unfold refuseClaim.
  assert (forall tree', derived s fin tree' -> has (ci_taskId input) tree' -> forall f,
    (forall st, st_currentAttemptId (f st) = None /\ st_phase (f st) <> running) ->
    safe (commitScope now scope (updResource (ci_taskId input) (touchResource now f) tree') (fun m => m)) s) as Hcommit.
  { intros tree' Hd' Hh' f Hf. apply (safe_scope s fin); [done|by apply derived_release|done|auto with may|].
    intros t a E. rewrite (Hfin t a E). split; [done|]. by apply released_idle. }
  destruct prev as [x|]; [destruct canRecover; [|done]|].
  - safe_read u0 H0'. cbv zeta. apply safe_last; [|auto with may]. apply Hcommit; [..|done].
    + apply derived_upd_attempt; [|auto]. by eapply derived_finish; auto.
    + by apply has_upd_attempt, has_finish.
  - safe_read u0 H0'. cbv zeta. apply safe_last; [|auto with may]. by apply Hcommit.
Qed.

Lemma repairRunning_laws s fin r tree tree' stale :
  derived s fin tree -> has (ci_taskId input) tree -> repairRunning now input r tree = (tree', stale) ->
  derived s fin tree' /\ has (ci_taskId input) tree'.
Proof.
  intros Hd Hh. unfold repairRunning. intros [= <- _]. split.
  - apply derived_release; [|done]. case_cond; [|done]. apply derived_upd_attempt; auto.
  - apply has_upd. case_cond; [|done]. by apply has_upd_attempt.
Qed.

Lemma notClaimable_safe tree r intent rev s : sound s -> safe (notClaimable now input tree r intent rev) s.
Proof.
  intros Hs. unfold notClaimable. do 2 (case_cond; [done|]). destruct (unmetDependencies tree intent).
  - case_cond; [|done]. apply safe_last; [by apply ack_safe|auto with may].
  - apply safe_last; [by apply ack_safe|auto with may].
Qed.

(** Nothing was written when the Task may be claimed. *)
Lemma notClaimable_run tree r intent rev s s' : notClaimable now input tree r intent rev s = (Ok None, s') -> s' = s.
Proof.
  unfold notClaimable. do 2 (case_cond; [done|]). destruct (unmetDependencies tree intent).
  - case_cond; [|by intros [= <-]]. intros (u & s1 & _ & ?)%run_bind. done.
  - intros (u & s1 & _ & ?)%run_bind. done.
Qed.

Lemma claimRunnable_safe cin rev tree r s :
  sound s -> fresh s -> Context.readTaskContext s cin = Ok tree -> obj_get (ci_taskId input) (resources tree) = Some r ->
  safe (claimRunnable config env now input rev tree r) s.
Proof.
  intros Hs Hfresh Hctx Hr. unfold claimRunnable. set (t := ci_taskId input) in *. cbv zeta. safe_read prev Hprev.
  set (fin := (fun x => (t, att_id x)) <$> prev : settles).
  assert (settles_current s fin) as Hc.
  { subst fin. destruct prev as [x|]; [|done]. apply current_attempt in Hprev as (a & Ha & Hx & _).
    destruct (context_attempt _ _ _ _ _ Hs Hctx Hx) as [_ Eid]. rewrite <- Eid in Ha. exact (settles_claim s cin tree t (att_id x) r Hctx Hr Ha). }
  assert (forall t' a, fin = Some (t', a) -> t' = t) as Hfin by (subst fin; destruct prev; naive_solver).
  pose proof (context_derived s _ tree fin Hctx) as Hd0. assert (has t tree) as Hh0 by by exists r.
  set (rep := if bool_decide (st_phase (status r) = running) && bool_decide (prev = None) then _ else (tree, None)).
  assert (derived s fin rep.1 /\ has t rep.1) as [Hd Hh].
  { subst rep. case_cond; [|done]. destruct (repairRunning now input r tree) as [tree' st] eqn:E. simpl.
    by eapply repairRunning_laws. }
  destruct rep as [tree1 stale]. cbn [fst] in Hd, Hh. clear Hd0 Hh0.
  assert (t ∈ sc_writeTaskIds (beginResourceMutationScopeForTasks tree [t])) as Hin.
  { apply elem_of_tracks. right. split; [by left|]. by eapply context_named. }
  set (can := match prev with Some a => _ | None => false end). clearbody can.
  destruct (claimAdmission config input _ _) as [paths|summary].
  2: { apply (refuse_safe s fin); auto. intros x ->. done. }
  destruct (splitBatch r _) as [ce re].
  match goal with |- safe (match obj_get t (resources ?tr) with _ => _ end) s => set (tree2 := tr) in * end.
  assert (derived s fin tree2) as Hd2.
  { subst tree2. destruct prev as [x|]; [|done]. case_cond; [|done]. apply derived_release; [|done].
    apply derived_upd_attempt; [|auto]. by eapply derived_finish. }
  destruct (obj_get t (resources tree2)) as [r2|] eqn:Er2; [|done].
  assert (forall x, safe x s -> safe (match prev with
    | Some a => if bool_decide (st_phase (status r2) = running) && negb can then mret (busy t (att_id a)) else x
    | None => x end) s) as Hgo by (intros x Hx; destruct prev; [case_cond|]; done).
  apply Hgo. apply safe_then; [by apply notClaimable_safe|]. intros [res|] s1 E1.
  { destruct (notClaimable_safe tree2 r2 (resourceIntent r) rev s Hs) as [Hn _]. rewrite E1 in Hn. done. }
  apply notClaimable_run in E1 as ->. apply (install_safe s fin); auto. intros x -> _. done.
Qed.

(** A pass that asks for another leaves the generated id new. *)
Definition again (m : M (option AppTaskClaimResult)) (s : store) : Prop :=
  safe m s /\ forall s', m s = (Ok None, s') -> fresh s'.

Lemma again_some {A} (m : M A) (f : A -> AppTaskClaimResult) s : safe m s -> again (m ≫= (fun a => mret (Some (f a)))) s.
Proof.
  intros Hm. split; [by apply safe_last; [|auto with may]|]. intros s' (a & s1 & _ & [=])%run_bind.
Qed.

Lemma again_lift {A} (r : res A) k s : sound s -> (forall a, r = Ok a -> again (k a) s) -> again (lift r ≫= k) s.
Proof.
  intros Hs Hk. unfold again, safe, mbind, M_bind, bind, lift. destruct r as [a|]; [by apply Hk|]. by split.
Qed.

Lemma again_gets {A} (f : store -> res A) k s : sound s -> (forall a, f s = Ok a -> again (k a) s) -> again (gets f ≫= k) s.
Proof.
  intros Hs Hk. unfold again, safe. rewrite gets_bind. destruct (f s) as [a|]; [by apply Hk|]. by split.
Qed.

Lemma again_then {A} (m : M A) k s :
  safe m s -> (forall a s1, m s = (Ok a, s1) -> again (k a) s1) -> again (m ≫= k) s.
Proof.
  intros Hm Hk. split; [apply safe_then; [done|]; intros a s1 E; by apply Hk|].
  intros s' (a & s1 & E & Hn)%run_bind. by apply (Hk a s1 E).
Qed.

(** One pass keeps the invariant, and the generated id stays new for the next. *)
Lemma claimPass_again s : sound s -> fresh s -> again (claimPass config env now input) s.
Proof.
  intros Hs Hfresh. unfold claimPass.
  apply again_gets; [done|]. intros rev _. apply again_gets; [done|]. intros tree Hctx.
  apply again_gets; [done|]. intros cancelled _. destruct cancelled; [by split|].
  destruct (obj_get (ci_taskId input) (resources tree)) as [r|] eqn:Hr; [|by split].
  apply again_gets; [done|]. intros persisted _. apply again_gets; [done|]. intros allowed _.
  match goal with |- again (?m ≫= ?k) s => assert (exists u, m = lift u) as [u ->] end.
  { destruct persisted as [x|]; [case_cond; [by eexists (Throw _)|]|]; by exists (Ok tt). }
  apply again_lift; [done|]. intros [] _. case_cond; [by split|].
  assert (obj_get (md_id (metadata r)) (resources tree) = Some r) as Hr'.
  { by rewrite (derived_id s None tree (ci_taskId input) r (proj1 (proj1 Hs)) (context_derived s _ tree None Hctx) Hr). }
  assert (forall b s1, exhaustRetainedFailures (ce_rowOrder env) config now tree r s = (b, s1) ->
    safe (exhaustRetainedFailures (ce_rowOrder env) config now tree r) s /\ (b = Ok false -> s1 = s) /\ fresh s1) as He.
  { intros b s1 E. destruct (exhaust_run _ _ _ _ _ _ _ _ _ Hs Hctx Hr' E) as (? & ? & ? & Hnew).
    split_ands; [unfold safe; by rewrite E|done|].
    intros g. apply Hnew, Hfresh. }
  apply again_then; [destruct (exhaustRetainedFailures _ _ _ _ _ s) as [b s1]; by destruct (He b s1 eq_refl)|].
  intros b s1 E. destruct (He (Ok b) s1 E) as (Hs1 & Hsame & Hf1). unfold safe in Hs1. rewrite E in Hs1.
  destruct b; [split; [by apply safe_still; [apply Hs1|]|by intros s' [= <-]]|]. rewrite (Hsame eq_refl).
  case_cond.
  - apply again_lift; [done|]. intros [x|] _; [by split|]. by apply (again_some _ (fun _ => _)), ack_safe.
  - destruct (pendingTaskExecutionRetryAt r now) as [at'|]; [by apply (again_some _ (fun _ => _)), ack_safe|].
    apply (again_some _ id). by eapply claimRunnable_safe.
Qed.

Lemma claimLoop_safe fuel s : sound s -> fresh s -> safe (claimLoop config env now input fuel) s.
Proof.
  revert s. induction fuel as [|fuel IH]; intros s Hs Hf; [done|]. simpl. destruct (claimPass_again s Hs Hf) as [Hp Hn].
  apply safe_then; [done|]. destruct Hp as [Hp _]. intros [res|] s1 E; rewrite E in Hp; [done|]. apply IH; [done|by apply Hn].
Qed.

Lemma claim_safe s : sound s -> fresh s -> safe (claimObservedAppTask config env now input) s.
Proof. apply claimLoop_safe. Qed.

End Claim.
(** ** Condition events *)

Lemma bumpWoken_get a t :
  obj_get t (resources (Conditions.bumpWoken a)) =
  (fun r => if obj_has (md_id (metadata r)) (Conditions.ac_wakes a) then Conditions.bumpResource r else r)
    <$> obj_get t (resources (Conditions.ac_tree a)).
Proof.
  simpl. induction (resources (Conditions.ac_tree a)) as [|[k r0] l IH]; [done|]. simpl. by destruct (String.eqb k t).
Qed.

Lemma track_safe db now nowMs event ids inTx cache s :
  sound s -> let s' := (Conditions.trackAppTaskConditionEventForTasks db now nowMs event ids inTx cache s).2 in
  sound s' /\ evolves s s'.
Proof.
  intros Hs. assert (sound s /\ evolves s s) as Hsame by done. unfold Conditions.trackAppTaskConditionEventForTasks. cbv zeta.
  case_cond; [done|]. destruct (Context.readTaskContext s _) as [tree|] eqn:Hctx; [|done]. case_cond; [done|].
  set (a := Conditions.applyConditionEvent _ _ _ _ _). destruct (Conditions.ac_changed a); [|done].
  assert (safe (commitMutation nowMs (Conditions.conditionMutation a)) s) as Hc.
  { destruct (applied_frame db tree now event (Some (filter (fun t => Conditions.stillEligible db s tree event t = true) (set_of ids)))) as [Er Ea].
    fold a in Er, Ea. pose proof (context_derived s _ tree None Hctx) as Hd.
    assert (derived s None (Conditions.bumpWoken a)) as Hd'.
    { split.
      - intros k r'. rewrite bumpWoken_get, Er. intros (r & Hr & _)%fmap_Some. exact (dv_named _ _ _ Hd k r Hr).
      - intros k r'. rewrite bumpWoken_get, Er. intros (r & Hr & ->)%fmap_Some.
        destruct (dv_resources _ _ _ Hd k r Hr) as (r0 & ? & Hi & Ho). exists r0. split; [done|]. by case_cond.
      - simpl. rewrite Ea. apply Hd. }
    apply (safe_commit s None nowMs _ (Conditions.bumpWoken a)); [done|done|done| |done]. split; [|by intros x Hx%not_elem_of_nil|done].
    intros w Hw. simpl in Hw. apply list_elem_of_fmap in Hw as (r & -> & Hr). apply list_elem_of_filter in Hr as [Hwake Hr].
    apply list_elem_of_omap in Hr as (t & _ & Hr). rewrite Er in Hr. unfold w_id. cbn [w_resource].
    change (md_id (metadata (Conditions.bumpResource r))) with (md_id (metadata r)).
    assert (md_id (metadata r) = t) as Et by (eapply derived_id; [apply Hs|exact Hd|done]). rewrite Et in *.
    rewrite bumpWoken_get, Er, Hr. simpl. by rewrite Et, Hwake. }
  unfold safe, commitMutation in Hc. unfold Snapshot.commitTaskMutation.
  destruct (commit nowMs (Conditions.conditionMutation a) s) as [[[]|] s1]; done.
Qed.

(** ** The transition system *)

Section System.
Context `{Crypto} `{FileSystem} (config : AppTaskContext) (db : option (string -> store)).

(** What the holder of a claim does with it. *)
Inductive claim_use : Type :=
| use_complete (input : CompleteInput)
| use_defer (input : DeferInput)
| use_report (rowOrder : list string) (input : ReportInput)
| use_fail (rowOrder : list string) (failure : string) (details : FailureDetails)
| use_changes (input : RunningChanges)
| use_renew (uuid : string) (nowMs : number)
| use_session (uuid sessionId : string)
| use_workspace (workspace : AppTaskWorkspace).

(** Whether the use took effect. *)
Definition useClaim (now : Z) (claim : AppTaskClaim) (u : claim_use) : M bool :=
  match u with
  | use_complete input => r ← completeAppTask now claim input; mret (isApplied r)
  | use_defer input => r ← deferAppTask db now claim input; mret (isApplied r)
  | use_report order input => r ← reportAppTaskFailure order config now claim input; mret (isApplied r)
  | use_fail order failure details => r ← failAppTaskAttempt order config now claim failure details; mret (notSuperseded r)
  | use_changes input => _ ← applyRunningTaskChanges now claim input; mret true
  | use_renew uuid nowMs => renewAppTaskAttemptLease uuid now claim nowMs
  | use_session uuid sessionId => recordAppTaskAttemptSession uuid now claim sessionId
  | use_workspace workspace => recordAppTaskAttemptWorkspace now claim workspace
  end.

(** The uses that finish the attempt. *)
Definition finishes (u : claim_use) : bool :=
  match u with use_complete _ | use_defer _ | use_report _ _ | use_fail _ _ _ => true | _ => false end.

Inductive operation : Type :=
| op_observe (input : ObserveInput)
| op_trigger (taskId : string) (event : obj json)
| op_claim (env : ClaimEnv) (input : ClaimInput)
| op_use (claim : AppTaskClaim) (u : claim_use)
| op_associate (uuid taskId : string) (generation : Z) (attemptId : option string) (sessionId : string)
| op_released (claim : AppTaskClaim) (workspace : AppTaskWorkspace)
| op_interrupted (runtimeId : string) (recovery : AppTaskAttemptRecovery) (summary : string)
| op_terminal (recovery : AppTaskAttemptRecovery) (sessionId state summary : string) (nowMs : Z)
    (activity : option AttemptSessionActivity)
| op_late (taskId : string) (generation : Z) (sessionId summary : string)
| op_stale (claim : AppTaskClaim) (summary : string)
| op_stop (taskId attemptId : string) (generation : Z) (reason : string)
| op_repair_attention (candidates : list string)
| op_repair_waits (admitted : string -> bool) (candidates : list string)
| op_repair_running (candidates : list string)
| op_retry (receiptId : string) (target : ControlTarget)
| op_reopen (maxEventId : Z) (input : ReopenInput)
| op_close (target : ControlTarget) (reason : string) (actor : option ResourceCreator) (policy : bool) (after : string)
| op_cancel (target : ControlTarget) (reason : string) (actor : option ResourceCreator) (policy : bool)
| op_event (now : string) (event : obj json) (taskIds : list string) (inTransaction : bool)
    (cache : option Snapshot.TaskSnapshotCache)
| op_recovery (taskId : string) (input : RecoveryInput).

Definition perform (now : Z) (o : operation) (s : store) : store :=
  match o with
  | op_observe input => (observeAppTaskIntent now input s).2
  | op_trigger t event => (recordAppTaskTrigger config now t event s).2
  | op_claim env input => (claimObservedAppTask config env now input s).2
  | op_use claim u => (useClaim now claim u s).2
  | op_associate uuid t g a sid => (associateAppTaskSession uuid now t g a sid s).2
  | op_released claim w => (recordReleasedAppTaskWorkspace now claim w s).2
  | op_interrupted rt rc summary => (releaseInterruptedAppTaskAttempt now rt rc summary s).2
  | op_terminal rc sid st summary nowMs act => (releaseTerminalSessionExpiredAppTaskAttempt now rc sid st summary nowMs act s).2
  | op_late t g sid summary => (releaseLateTerminalWorkflowAppTaskAttempt now t g sid summary s).2
  | op_stale claim summary => (releaseStaleAppTaskResult now claim summary s).2
  | op_stop t a g reason => (stopAppTaskAttempt now t a g reason s).2
  | op_repair_attention l => (repairPreviousRuntimeRecoveryAttention now l s).2
  | op_repair_waits adm l => (repairUnadmittedAppDependencyWaits now adm l s).2
  | op_repair_running l => (repairRunningAppTasksWithoutAttempt now l s).2
  | op_retry receipt t => (retryFailedAppTask now receipt t s).2
  | op_reopen maxId input => (reopenAppTask now maxId input s).2
  | op_close t reason actor pol after => (closeAppTask now t reason actor pol after s).2
  | op_cancel t reason actor pol => (cancelAppTask now t reason actor pol s).2
  | op_event nowText event ids inTx cache =>
      (Conditions.trackAppTaskConditionEventForTasks db nowText now event ids inTx cache s).2
  | op_recovery t input => (setRecoveryState now t input s).2
  end.

(** [crypto.randomUUID] gives a claim an id that no attempt has. *)
Definition generates_fresh (o : operation) (s : store) : Prop :=
  match o with op_claim env _ => fresh env s | _ => True end.

(** A history of the store: any operations, in any order, at any times. *)
Inductive history (s : store) : store -> Prop :=
| history_nil : history s s
| history_snoc s1 now o : history s s1 -> generates_fresh o s1 -> history s (perform now o s1).

Lemma use_settles now claim u s :
  sound s -> finishes u = true -> settling claim id (useClaim now claim u) s.
Proof.
  intros Hs. assert (forall A f (m : M A), settling claim f m s -> settling claim id (r ← m; mret (f r)) s) as Hk.
  { intros A f m [Hm Hr]. split; [by apply safe_last; [|auto with may]|]. intros b s' (a & s1 & E & [= <- <-])%run_bind. by apply Hr. }
  destruct u; intros Hf; try discriminate Hf; simpl; apply Hk;
    [by apply complete_settles|by apply defer_settles|by apply report_settles|by apply fail_settles].
Qed.

Lemma use_safe now claim u s : sound s -> safe (useClaim now claim u) s.
Proof.
  intros Hs. destruct (finishes u) eqn:Hf; [by apply use_settles|]. destruct u; try discriminate Hf; simpl;
    [apply safe_last; [by apply changes_safe|auto with may]|by apply renew_safe|by apply record_session_safe|by apply workspace_safe].
Qed.

Lemma perform_safe now o s : sound s -> generates_fresh o s -> sound (perform now o s) /\ evolves s (perform now o s).
Proof.
  intros Hs Hf. destruct o; simpl;
    first [ by apply observe_safe | by apply record_trigger_safe | by apply claim_safe | by apply use_safe
          | by apply associate_safe | by apply released_workspace_safe | by apply release_interrupted_safe
          | by apply release_terminal_safe | by apply release_late_safe | by apply release_stale_safe | by apply stop_safe
          | by apply repair_attention_safe | by apply repair_unadmitted_safe | by apply repair_running_safe
          | by apply retry_safe | by apply reopen_safe | by apply closeApp_safe | by apply cancelApp_safe
          | by apply track_safe | by apply recovery_safe ].
Qed.

Lemma history_safe s s' : sound s -> history s s' -> sound s' /\ evolves s s'.
Proof.
  intros Hs Hh. induction Hh as [|s1 now o Hh [Hs1 He1] Hf]; [done|].
  destruct (perform_safe now o s1 Hs1 Hf) as [Hs2 He2]. split; [done|by etrans].
Qed.

(** A store where nothing runs yet, such as one just bootstrapped. *)
Definition initial (s : store) : Prop := store_wf s /\ forall t r, readTask s t = Some r -> idle r.

Lemma initial_sound s : initial s -> sound s.
Proof. intros [Hs Hi]. split; [done|]. intros t r Hr. left. by apply (Hi t). Qed.

(** A finished claim matches nothing any more. *)
Lemma retired_stale s cin tree claim x :
  Context.readTaskContext s cin = Ok tree -> retired s (clm_taskId claim) (clm_attemptId claim) ->
  matchingClaimAttempt (obj_get (clm_taskId claim) (resources tree)) x claim = None /\ matchingTaskAttempt tree claim = None.
Proof.
  intros Hctx [_ Hr].
  assert (forall y, matchingClaimAttempt (obj_get (clm_taskId claim) (resources tree)) y claim = None) as Hn.
  { intros y. destruct (matchingClaimAttempt _ y claim) as [[r0 x0]|] eqn:E; [|done].
    apply match_claim in E as (E & _ & Hc & _). by apply (context_resources _ _ _ _ _ Hctx), Hr in E. }
  split; [done|]. unfold matchingTaskAttempt. by case_cond.
Qed.

Lemma retired_use now claim u s :
  retired s (clm_taskId claim) (clm_attemptId claim) ->
  (useClaim now claim u s).2 = s /\ (useClaim now claim u s).1 <> Ok true.
Proof.
  intros Hr. destruct u; simpl; unfold completeAppTask, deferAppTask, reportAppTaskFailure, failAppTaskAttempt,
    applyRunningTaskChanges, renewAppTaskAttemptLease, recordAppTaskAttemptSession, recordAppTaskAttemptWorkspace, readContext;
    unfold mbind, M_bind, bind, gets;
    (destruct (Context.readTaskContext s _) as [tree|] eqn:Hctx; [|done]);
    match goal with |- context [matchingClaimAttempt _ ?y claim] => destruct (retired_stale s _ tree claim y Hctx Hr) as [-> _]
                  | _ => destruct (retired_stale s _ tree claim None Hctx Hr) as [_ ->] end; done.
Qed.

End System.

(** ** Properties *)

(** C2.  Whatever operations run on the store, in whatever order and whether
    they succeed, are refused or throw: a Task is running exactly when it names
    a current attempt, that attempt is stored, still running and belongs to
    this Task, and the tables of the store stay consistent. *)
Theorem running_tasks_owned `{Crypto} `{FileSystem} config db s s' (Hinit : initial s) (Hhist : history config db s s') :
  store_wf s' /\
  forall t r, readTask s' t = Some r ->
    (st_phase (status r) = running <-> is_Some (st_currentAttemptId (status r))) /\
    forall a, st_currentAttemptId (status r) = Some a ->
      exists x, readAttempt s' a = Some x /\ att_state x = at_running /\ att_taskId x = t.
Proof.
  destruct (history_safe config db s s' (initial_sound s Hinit) Hhist) as [[Hwf Ho] _]. split; [done|]. intros t r Hr.
  destruct (Ho t r Hr) as [[Hn Hp]|(Hp & a & x & Ha & _ & Hx & Hst & Ht)].
  - rewrite Hn. split; [|done]. split; [done|]. by intros [? ?].
  - rewrite Ha. split; [by split; [eauto|]|]. intros a' [= <-]. eauto.
Qed.

(** C3.  A claim is settled at most once.  After a completion, a deferral, a
    report or a failure took effect, whatever operations follow, no use of the
    same claim has an effect: it changes nothing in the store and does not
    report success. *)
Theorem claim_settled_once `{Crypto} `{FileSystem} config db s now claim u s1 s2 now' u'
    (Hs : sound s) (Hu : finishes u = true) (Hdone : useClaim config db now claim u s = (Ok true, s1))
    (Hhist : history config db s1 s2) :
  (useClaim config db now' claim u' s2).2 = s2 /\ (useClaim config db now' claim u' s2).1 <> Ok true.
Proof.
  destruct (use_settles config db now claim u s Hs Hu) as [[Hs1 _] Hr]. rewrite Hdone in Hs1.
  apply retired_use. eapply retired_evolves; [by eapply history_safe|]. by apply (Hr true s1 Hdone).
Qed.

(** ** Witnesses *)

Import TaskScenario.

Lemma new_app_initial : initial new_app.
Proof.
  split; [apply StoreInvariant.bootstrap_wf, StoreInvariant.emptyStore_wf|]. intros t r Hr.
  assert (readTask new_app t = (fun x => row_resource x) <$> tasks new_app !! t) as E by done.
  rewrite E in Hr. apply fmap_Some in Hr as (row & Hrow & ->). apply elem_of_map_to_list in Hrow.
  assert (Forall (fun e => bool_decide (st_currentAttemptId (status (row_resource e.2)) = None) &&
    negb (bool_decide (st_phase (status (row_resource e.2)) = running)) = true) (map_to_list (tasks new_app))) as Hall
    by (vm_compute; repeat constructor).
  rewrite Forall_forall in Hall. apply Hall in Hrow. simpl in Hrow. reflect_bools. by split.
Qed.

Lemma no_attempts_fresh env s : ResourceStore.attempts s = ∅ -> fresh env s.
Proof. intros E g. unfold readAttempt. rewrite E. by rewrite lookup_empty. Qed.

Lemma claimed_history : history sample_config None new_app claimed_app.
Proof.
  assert (claimed_app = perform sample_config None (start + 1000) (op_claim (sample_env "u1") sample_claim_input) observed_app) as ->
    by (unfold claimed_app, claim_run; cbn [perform]; reflexivity).
  apply history_snoc; [|apply no_attempts_fresh; vm_compute; reflexivity].
  assert (observed_app = perform sample_config None start (op_observe sample_observe) new_app) as ->
    by (unfold observed_app; cbn [perform]; reflexivity).
  apply history_snoc; [apply history_nil|exact I].
Qed.

Lemma claimed_sound : sound claimed_app.
Proof. apply (history_safe sample_config None new_app claimed_app (initial_sound _ new_app_initial) claimed_history). Qed.

Lemma running_tasks_owned_witness :
  exists x, readAttempt claimed_app "r_1_u1" = Some x /\ att_state x = at_running /\ att_taskId x = "t1".
Proof.
  destruct (running_tasks_owned sample_config None new_app claimed_app new_app_initial claimed_history) as [_ Hown].
  destruct (readTask claimed_app "t1") as [r|] eqn:Hr; [|vm_compute in Hr; discriminate].
  apply (proj2 (Hown "t1" r Hr)). vm_compute in Hr. injection Hr as <-. reflexivity.
Defined.

Lemma claim_settled_once_witness :
  (useClaim sample_config None (start + 3000) sample_claim (use_fail [] "late crash" sample_failure) completed_app).2 = completed_app /\
  (useClaim sample_config None (start + 3000) sample_claim (use_fail [] "late crash" sample_failure) completed_app).1 <> Ok true.
Proof.
  apply (claim_settled_once sample_config None claimed_app (start + 2000) sample_claim (use_complete sample_complete)
    completed_app completed_app).
  - exact claimed_sound.
  - reflexivity.
  - apply injective_projections; vm_compute; reflexivity.
  - apply history_nil.
Defined.

End TaskReconciler.
