(* ===== verification/TaskBatches.v ===== *)
(** Batches of pending input: how a claim divides the events that wait for a
    Task ([claimObservedAppTask] of [src/app/core/tasks/app-task-reconciler.ts]). *)
From S2P Require Import Prelude Json TaskState TaskTree Transaction ResourceStore StoreInvariant StoreCommit Snapshot.
From S2P Require Import Context Approval Conditions Records Time TaskInputs TaskEvents TaskIntent TaskMutation.
From S2P Require Import TaskOutcome TaskLease OutputPaths TaskClaim.

Module TaskBatches.
Import ResourceStore TaskTree TaskInputs TaskEvents TaskIntent TaskClaim.

(** ** Positions *)

Definition positions (events : list AppTaskTriggerEvent) : list (nat * AppTaskTriggerEvent) := imap (fun i e => (i, e)) events.

Lemma elem_of_positions events i e : (i, e) ∈ positions events <-> events !! i = Some e.
Proof.
  unfold positions. rewrite elem_of_lookup_imap. split; [by intros (j & y & [= -> ->] & Hy)|]. intros H. by exists i, e.
Qed.

Lemma positions_fst events : map fst (positions events) = seq 0 (length events).
Proof.
  apply list_eq. intros i. unfold positions. rewrite list_lookup_fmap, list_lookup_imap.
  destruct (decide (i < length events)%nat) as [Hi|Hi].
  - rewrite lookup_seq_lt by done. destruct (lookup_lt_is_Some_2 events i Hi) as [e ->]. done.
  - rewrite lookup_seq_ge, lookup_ge_None_2 by lia. done.
Qed.

Lemma positions_snd events : map snd (positions events) = events.
Proof.
  apply list_eq. intros i. unfold positions. rewrite list_lookup_fmap, list_lookup_imap. by destruct (events !! i).
Qed.

Lemma positions_nodup events : NoDup (map fst (positions events)).
Proof. rewrite positions_fst. apply NoDup_seq. Qed.

(** Filtering positions. *)
Lemma elem_of_kept P `{forall x, Decision (P x)} events i :
  i ∈ map fst (filter P (positions events)) <-> exists e, events !! i = Some e /\ P (i, e).
Proof.
  rewrite list_elem_of_fmap. setoid_rewrite list_elem_of_filter. split.
  - intros ([j e] & -> & Hp & He%elem_of_positions). by exists e.
  - intros (e & He & Hp). exists (i, e). by rewrite elem_of_positions.
Qed.

Lemma kept_nodup P `{forall x, Decision (P x)} events : NoDup (map fst (filter P (positions events))).
Proof.
  apply (NoDup_fmap_fst _).
  - intros i a b Ha Hb. apply list_elem_of_filter in Ha as [_ Ha%elem_of_positions].
    apply list_elem_of_filter in Hb as [_ Hb%elem_of_positions]. congruence.
  - apply NoDup_filter, (NoDup_fmap_1 fst), positions_nodup.
Qed.

(** ** Selected positions *)

Definition humanOrder (events : list AppTaskTriggerEvent) : list nat :=
  map fst (filter (fun x => isHumanEntry x.2 = true) (positions events)).
Definition otherOrder (events : list AppTaskTriggerEvent) : list nat :=
  map fst (filter (fun x => isHumanEntry x.2 = false) (positions events)).

Lemma selectPositions_eq events : selectPositions events = take MAX_TASK_EVENTS_PER_ATTEMPT (humanOrder events ++ otherOrder events).
Proof. unfold selectPositions, humanOrder, otherOrder. by rewrite map_app. Qed.

Lemma order_perm events : humanOrder events ++ otherOrder events ≡ₚ seq 0 (length events).
Proof.
  rewrite <- positions_fst. unfold humanOrder, otherOrder. rewrite <- map_app. apply Permutation_map.
  induction (positions events) as [|x l IH]; [done|]. rewrite !filter_cons.
  destruct (isHumanEntry x.2) eqn:E; simpl; [by rewrite IH|]. rewrite <- Permutation_middle. by rewrite IH.
Qed.

(** What makes a selection acceptable: distinct positions of the batch, as many
    as the bound allows, and only human ones while a human one is left out. *)
Record well_chosen (events : list AppTaskTriggerEvent) (sel : list nat) : Prop := mkChosen {
  ch_nodup : NoDup sel;
  ch_inside : forall i, i ∈ sel -> (i < length events)%nat;
  ch_length : length sel = Nat.min MAX_TASK_EVENTS_PER_ATTEMPT (length events);
  ch_human : forall i, i ∈ humanOrder events -> i ∉ sel -> forall j, j ∈ sel -> j ∈ humanOrder events }.

Lemma select_well_chosen events : well_chosen events (selectPositions events).
Proof.
  rewrite selectPositions_eq. pose proof (order_perm events) as Hp. set (l := humanOrder events ++ otherOrder events) in *.
  assert (NoDup l) as Hnd by (rewrite Hp; apply NoDup_seq).
  assert (length l = length events) as Hlen by (rewrite Hp; apply length_seq). split.
  - eapply sublist_NoDup; [exact Hnd|apply sublist_take].
  - intros i Hi. assert (i ∈ seq 0 (length events)) as Hs.
    { rewrite <- Hp. eapply elem_of_submseteq; [exact Hi|]. apply sublist_submseteq, sublist_take. }
    apply elem_of_seq in Hs. lia.
  - by rewrite length_take, Hlen.
  - intros i Hi Hn j Hj. subst l. destruct (decide (length (humanOrder events) <= MAX_TASK_EVENTS_PER_ATTEMPT)%nat) as [Hle|Hgt].
    + destruct Hn. rewrite take_app_ge by done. apply elem_of_app. by left.
    + rewrite take_app_le in Hj by lia. eapply elem_of_submseteq; [exact Hj|]. apply sublist_submseteq, sublist_take.
Qed.

Lemma elem_of_removelast {A} (x : A) l : x ∈ removelast l -> x ∈ l.
Proof. induction l as [|a [|b l] IH]; [done|by intros ?%not_elem_of_nil|]. intros [->|H]%elem_of_cons; [by left|right; by apply IH]. Qed.

Lemma removelast_nodup {A} (l : list A) : NoDup l -> NoDup (removelast l).
Proof.
  induction l as [|a [|b l] IH]; [done|intros _; constructor|]. intros [Hn Hl]%NoDup_cons. change (NoDup (a :: removelast (b :: l))).
  apply NoDup_cons. split; [|by apply IH]. intros Hin. by apply Hn, elem_of_removelast.
Qed.

Lemma removelast_length {A} (l : list A) : length (removelast l) = Nat.pred (length l).
Proof. induction l as [|a [|b l] IH]; [done|done|]. change (length (removelast (a :: b :: l))) with (S (length (removelast (b :: l)))). by rewrite IH. Qed.

Lemma correction_well_chosen events sel c :
  well_chosen events sel -> (forall i, c = Some i -> i ∈ humanOrder events) -> well_chosen events (withCorrection c sel).
Proof.
  intros [Hnd Hin Hlen Hh] Hc. destruct c as [i|]; [|done]. specialize (Hc i eq_refl). unfold withCorrection.
  case_bool_decide as Hi; [done|]. specialize (Hh i Hc Hi).
  assert (i < length events)%nat as Hlt.
  { apply elem_of_kept in Hc as (e & He & _). by apply lookup_lt_Some in He. }
  assert (forall sel', NoDup sel' -> (forall j, j ∈ sel' -> j ∈ sel) ->
    S (length sel') = Nat.min MAX_TASK_EVENTS_PER_ATTEMPT (length events) -> well_chosen events (sel' ++ [i])) as Hgo.
  { intros sel' H1 H2 H3. assert (forall j, j ∈ sel' ++ [i] -> j ∈ sel \/ j = i) as Hj.
    { intros j [?|Hi']%elem_of_app; [auto|]. apply list_elem_of_singleton in Hi'. auto. } split.
    - apply NoDup_app. split; [done|]. split; [|apply NoDup_singleton]. intros j Hj' Hji%list_elem_of_singleton. subst j. auto.
    - intros j [?| ->]%Hj; auto.
    - rewrite length_app. cbn [length]. lia.
    - intros _ _ _ j [?| ->]%Hj; auto. }
  destruct (Nat.leb_spec MAX_TASK_EVENTS_PER_ATTEMPT (length sel)) as [Hle|Hgt].
  - apply Hgo; [by apply removelast_nodup|intros j; apply elem_of_removelast|]. rewrite removelast_length. unfold MAX_TASK_EVENTS_PER_ATTEMPT in *. lia.
  - exfalso. assert (sel ≡ₚ seq 0 (length events)) as Hall.
    { apply submseteq_length_Permutation; [|rewrite length_seq; lia].
      apply NoDup_submseteq; [done|]. intros j Hj. apply elem_of_seq. specialize (Hin j Hj). lia. }
    apply Hi. rewrite Hall. apply elem_of_seq. lia.
Qed.

(** ** Picking *)

Lemma picked_perm events sel : pickEvents true sel events ++ pickEvents false sel events ≡ₚ events.
Proof.
  rewrite <- (positions_snd events) at 3. unfold pickEvents. rewrite <- map_app. apply Permutation_map. fold (positions events).
  induction (positions events) as [|x l IH]; [done|]. rewrite !filter_cons.
  destruct (bool_decide (x.1 ∈ sel)) eqn:E; simpl; [by rewrite IH|]. rewrite <- Permutation_middle. by rewrite IH.
Qed.

Lemma picked_sublist b events sel : sublist (pickEvents b sel events) events.
Proof.
  rewrite <- (positions_snd events) at 2. unfold pickEvents. apply sublist_map, sublist_filter.
Qed.

Lemma elem_of_picked b sel events e :
  e ∈ pickEvents b sel events <-> exists i, events !! i = Some e /\ bool_decide (i ∈ sel) = b.
Proof.
  unfold pickEvents. fold (positions events). rewrite list_elem_of_fmap. setoid_rewrite list_elem_of_filter. split.
  - intros ([i e'] & -> & Hb & He%elem_of_positions). by exists i.
  - intros (i & He & Hb). exists (i, e). by rewrite elem_of_positions.
Qed.

Lemma picked_length events sel : well_chosen events sel -> length (pickEvents true sel events) = length sel.
Proof.
  intros [Hnd Hin _ _]. unfold pickEvents. fold (positions events). rewrite length_map, <- (length_map fst).
  apply Permutation_length, NoDup_Permutation; [apply kept_nodup|done|]. intros i. rewrite elem_of_kept. split.
  - intros (e & _ & Hb). by apply bool_decide_eq_true in Hb.
  - intros Hi. destruct (lookup_lt_is_Some_2 events i (Hin i Hi)) as [e He]. exists e. split; [done|]. by apply bool_decide_eq_true.
Qed.

Lemma in_humanOrder events i e : events !! i = Some e -> i ∈ humanOrder events <-> isHumanEntry e = true.
Proof.
  intros He. unfold humanOrder. rewrite elem_of_kept. split; [|eauto]. intros (e' & He' & Hh). simpl in Hh. congruence.
Qed.

Lemma correction_human events c : correctionPosition events = Some c ->
  exists e, events !! c = Some e /\ isHumanEntry e = true /\ str_is (obj_get "type" (te_event e)) "app.task.requested" = true.
Proof.
  unfold correctionPosition. intros Hl. apply last_Some_elem_of, elem_of_kept in Hl as (e & He & Hb). simpl in Hb.
  apply andb_true_iff in Hb as [? ?]. eauto.
Qed.

(** The positions a claim takes. *)
Definition chosenPositions (r : AppTaskResource) (events : list AppTaskTriggerEvent) : list nat :=
  withCorrection (if bool_decide (is_Some (st_retryExhausted (status r))) && st_freshHumanInput (status r)
                  then correctionPosition events else None) (selectPositions events).

Lemma split_chosen r events : well_chosen events (chosenPositions r events).
Proof.
  apply correction_well_chosen; [apply select_well_chosen|]. intros i Hi. case_cond_in Hi; [|done].
  apply correction_human in Hi as (e & He & Hh & _). by apply (in_humanOrder events i e).
Qed.

Lemma split_length r events : length (splitBatch r events).1 = Nat.min MAX_TASK_EVENTS_PER_ATTEMPT (length events).
Proof.
  change (splitBatch r events).1 with (pickEvents true (chosenPositions r events) events).
  rewrite (picked_length events _ (split_chosen r events)). apply (ch_length _ _ (split_chosen r events)).
Qed.

(** ** Properties *)

(** A claim divides the pending batch without losing or duplicating an
    event and keeps the admission order on both sides.  It takes at most 32
    events, and all of a smaller batch; human input is left for a later attempt
    only when the whole claimed batch is human; and an exhausted Task that got
    fresh human input always receives the last human request. *)
Theorem claim_batch_bounded (r : AppTaskResource) (events : list AppTaskTriggerEvent) :
  let (claimedEvents, remainingEvents) := splitBatch r events in
  claimedEvents ++ remainingEvents ≡ₚ events /\
  sublist claimedEvents events /\ sublist remainingEvents events /\
  length claimedEvents = Nat.min 32 (length events) /\
  (forall e, e ∈ remainingEvents -> isHumanEntry e = true -> forall e', e' ∈ claimedEvents -> isHumanEntry e' = true) /\
  (st_retryExhausted (status r) <> None -> st_freshHumanInput (status r) = true ->
   forall c e, correctionPosition events = Some c -> events !! c = Some e -> e ∈ claimedEvents).
Proof.
  pose proof (split_length r events) as Hlen. pose proof (split_chosen r events) as Hsel. unfold splitBatch in *.
  fold (chosenPositions r events) in Hlen |- *. set (sel := chosenPositions r events) in *.
  split_ands; [apply picked_perm|apply picked_sublist|apply picked_sublist|exact Hlen| |].
  - intros e (i & He & Hi%bool_decide_eq_false)%elem_of_picked Hh e' (j & He' & Hj%bool_decide_eq_true)%elem_of_picked.
    apply (in_humanOrder events j e' He'), (ch_human _ _ Hsel i); [by apply (in_humanOrder events i e He)|done|done].
  - intros Hx Hf c e Hc He. apply elem_of_picked. exists c. split; [done|]. apply bool_decide_eq_true.
    subst sel. unfold chosenPositions. rewrite Hf, Hc, bool_decide_true by by apply not_eq_None_Some. simpl. unfold withCorrection. case_bool_decide; [done|]. apply elem_of_app. right. by left.
Qed.

End TaskBatches.
