(* ===== verification/TaskProgress.v ===== *)
(** Progress of the reconciler: a claim decides within two passes, and a failed
    execution spends exactly one allowance and gives its input back. *)
From S2P Require Import Prelude Json TaskState TaskTree Transaction ResourceStore StoreInvariant StoreCommit.
From S2P Require Import StoreEffects Snapshot Context Approval Conditions Records Time TaskInputs TaskEvents.
From S2P Require Import TaskIntent TaskMutation TaskOutcome TaskAdmission TaskLease OutputPaths TaskClaim.
From S2P Require Import TaskContract TaskActions TaskSettle TaskRelease TaskControl TaskLaws TaskScenario.
From S2P Require Import TaskOwnership TaskReconciler.

Module TaskProgress.
Import ResourceStore StoreEffects TaskTree TaskInputs TaskEvents TaskIntent Time TaskMutation TaskOutcome TaskAdmission
  TaskLease TaskClaim TaskActions TaskSettle TaskRelease TaskControl TaskLaws TaskOwnership TaskReconciler.

(** ** Adoption happens once *)

(** The retry bookkeeping of a Task agrees with the configured allowance. *)
Definition adopted (config : AppTaskContext) (r : AppTaskResource) : Prop :=
  st_executionFailureAttemptId (status r) <> None /\
  (is_Some (st_retryExhausted (status r)) \/ is_Some (nonempty (st_currentAttemptId (status r))) \/
   reaches (default 0 (st_executionFailures (status r))) (configuredLimit config) = false).

Lemma adopted_stops rowOrder config now tree r s :
  adopted config r -> exhaustRetainedFailures rowOrder config now tree r s = (Ok false, s).
Proof.
  intros [Hn Ha]. unfold exhaustRetainedFailures. cbv zeta. rewrite gets_bind.
  destruct (st_executionFailureAttemptId (status r)) as [ref|] eqn:Er; [|done].
  assert ((executionFailureSequence rowOrder s r).1 = st_executionFailures (status r)) as Es
    by (unfold executionFailureSequence; by rewrite Er).
  rewrite Es. rewrite (bool_decide_false (Some ref = None)) by done.
  destruct Ha as [Ha|[Ha| ->]].
  - by rewrite (bool_decide_true _ Ha).
  - by rewrite (bool_decide_true (is_Some (nonempty _)) Ha), orb_true_r.
  - by rewrite orb_true_r.
Qed.

Lemma adopted_touch config now f r :
  adopted config (with_status (f (status r)) r) -> adopted config (touchResource now f r).
Proof. unfold adopted, touchResource, keepExhausted. simpl. by case_cond. Qed.

(** The Task a committed scope was edited last. *)
Lemma scope_updated s s' now scope tree ext t f r :
  sound s -> derived s None (updResource t f tree) -> extends ext -> t ∈ sc_writeTaskIds scope ->
  obj_get t (resources tree) = Some r -> commitScope now scope (updResource t f tree) ext s = (Ok tt, s') ->
  readTask s' t = Some (f r).
Proof.
  intros Hs Hd Hext Hin Hr H. destruct (scope_commit s s' None now scope _ ext Hs Hd ltac:(done) Hext ltac:(done) H) as [_ Hw].
  apply (Hw t (f r) Hin). by rewrite upd_resource_get, String.eqb_refl, Hr.
Qed.

Lemma exhaust_adopts rowOrder config now input tree r s s' :
  sound s -> Context.readTaskContext s input = Ok tree -> obj_get (md_id (metadata r)) (resources tree) = Some r ->
  exhaustRetainedFailures rowOrder config now tree r s = (Ok true, s') ->
  exists r', readTask s' (md_id (metadata r)) = Some r' /\ adopted config r'.
Proof.
  intros Hs Hctx Hr H. set (t := md_id (metadata r)) in *. pose proof (context_derived s _ tree None Hctx) as Hd.
  unfold exhaustRetainedFailures in H. cbv zeta in H. fold t in H. set (n := executionFailureSequence rowOrder s r) in *.
  rewrite gets_bind in H. fold n in H. case_cond_in H.
  - case_cond_in H; [|done]. run_step H u s1. destruct u. injection H as <-. eexists. split.
    + refine (scope_updated s s1 now _ tree _ t _ r Hs _ _ _ Hr E); [by apply derived_touch|auto with may|].
      apply elem_of_tracks. right. split; [by left|]. by eapply context_named.
    + apply adopted_touch. split; [done|]. simpl. apply orb_true_iff in Heqb as [Hb|Hb].
      * apply orb_true_iff in Hb as [Hb|Hb]; apply bool_decide_eq_true in Hb; auto.
      * apply negb_true_iff in Hb. auto.
  - rewrite gets_bind in H. destruct (nonempty n.2 ≫= readAttempt s) as [x|] eqn:Ex; [|done]. case_cond_in H; [done|].
    rewrite gets_bind in H. destruct (inputOutcomeAdmissions s _ _ _ _) as [outcome|e] eqn:Eo in H; [|done].
    run_step H u s1. destruct u. injection H as <-.
    pose proof (outcome_tree _ _ _ _ _ _ Eo) as (r0 & r1 & _ & _ & Eoc).
    assert (readAttempt s (att_id x) = Some x) as Hx.
    { destruct (nonempty n.2) as [a|]; [|done]. simpl in Ex. by rewrite (stored_attempt_id s a x (proj1 (proj1 Hs)) Ex). }
    reflect_bools. eexists. split.
    + refine (scope_updated s s1 now _ (oc_tree outcome) _ t _ r1 Hs _ _ _ _ E).
      * eapply adoption_derived; [exact Hs|exact Hctx|exact Hr|exact Hx| |..|exact Eo|]; try done. by apply eq_None_not_Some.
      * auto with may.
      * apply elem_of_tracks. right. split; [by left|]. by eapply context_named.
      * rewrite Eoc. simpl. by rewrite obj_get_set, String.eqb_refl.
    + apply adopted_touch. split; [done|]. left. by eexists.
Qed.

(** ** The second pass decides *)

Section Passes.
Context `{Crypto} `{FileSystem} (config : AppTaskContext) (env : ClaimEnv) (now : Z) (input : ClaimInput).

(** A pass asks for another only when it adopted a sequence. *)
Lemma claimPass_none s s' :
  claimPass config env now input s = (Ok None, s') ->
  exists tree r, Context.readTaskContext s (Context.mkInput [ci_taskId input] [] [] true None) = Ok tree /\
    obj_get (ci_taskId input) (resources tree) = Some r /\
    exhaustRetainedFailures (ce_rowOrder env) config now tree r s = (Ok true, s').
Proof.
  unfold claimPass. rewrite gets_bind. unfold readContext. rewrite gets_bind.
  destruct (Context.readTaskContext s _) as [tree|] eqn:Hctx; [|done]. rewrite gets_bind. case_cond; [done|].
  destruct (obj_get (ci_taskId input) (resources tree)) as [r|] eqn:Hr; [|done]. rewrite !gets_bind.
  intros (u & s1 & Hu & H1)%run_bind. assert (s1 = s) as -> by (repeat case_cond_in Hu; by injection Hu).
  case_cond_in H1; [done|]. apply run_bind in H1 as ([] & s2 & He & H2).
  - injection H2 as <-. eauto.
  - exfalso. case_cond_in H2.
    + apply run_bind in H2 as ([x|] & s3 & _ & H3); [done|]. by apply run_bind in H3 as (u' & s4 & _ & ?).
    + case_cond_in H2; by apply run_bind in H2 as (u' & s3 & _ & ?).
Qed.

Lemma claimPass_twice s s1 s2 :
  sound s -> claimPass config env now input s = (Ok None, s1) -> claimPass config env now input s1 <> (Ok None, s2).
Proof.
  intros Hs (tree & r & Hctx & Hr & He)%claimPass_none (tree' & r' & Hctx' & Hr' & He')%claimPass_none.
  pose proof (derived_id s None tree (ci_taskId input) r (proj1 (proj1 Hs)) (context_derived s _ tree None Hctx) Hr) as Hid.
  rewrite <- Hid in Hr. destruct (exhaust_adopts _ _ _ _ _ _ _ _ Hs Hctx Hr He) as (r1 & Hr1 & Ha).
  apply (context_resources _ _ _ _ _ Hctx') in Hr'. rewrite Hid in Hr1.
  assert (r' = r1) as -> by congruence. by rewrite (adopted_stops _ _ _ _ _ _ Ha) in He'.
Qed.

Lemma claimLoop_stable n s : sound s ->
  claimLoop config env now input (2 + n) s = claimLoop config env now input 2 s /\
  (claimLoop config env now input 2 s).1 <> Ok None.
Proof.
  intros Hs. simpl. unfold mbind, M_bind, bind.
  destruct (claimPass config env now input s) as [[[x|]|e] s1] eqn:E1; [done| |done].
  destruct (claimPass config env now input s1) as [[[x|]|e] s2] eqn:E2; [done| |done].
  by destruct (claimPass_twice s s1 s2 Hs E1).
Qed.

End Passes.

(** ** What a failed execution leaves *)

Definition isSignal (e : AppTaskTriggerEvent) : bool := negb (isTick (te_event e)).

(** Appending keeps the earlier signals in front and adds the new ones behind. *)
Lemma append_signals `{Crypto} events e at_ :
  filter (fun e => isSignal e = true) (appendTaskTriggerEvent events e at_) =
  filter (fun e => isSignal e = true) events ++
    (if existsb (sameIdentity e) events || isTick e then [] else [mkTriggerEvent e at_]).
Proof.
  unfold appendTaskTriggerEvent, appendChange. destruct (existsb (sameIdentity e) events); [by rewrite app_nil_r|].
  assert (forall l : list AppTaskTriggerEvent, filter (fun x => isSignal x = true) (filter (fun x => isTick (te_event x) = false) l) =
    filter (fun x => isSignal x = true) l) as Hff.
  { intros l. rewrite list_filter_filter. apply list_filter_iff. intros x. unfold isSignal. destruct (isTick (te_event x)); naive_solver. }
  destruct (isTick e) eqn:Et; simpl.
  - rewrite app_nil_r. assert (filter (fun x => isSignal x = true) (filter (fun x => isTick (te_event x) = false) events ++
      [mkTriggerEvent e at_]) = filter (fun x => isSignal x = true) events) as E.
    { rewrite filter_app, Hff, filter_cons, decide_False, filter_nil; [apply app_nil_r|]. unfold isSignal. simpl. by rewrite Et. }
    repeat case_cond; done.
  - rewrite filter_app. f_equal. rewrite filter_cons, decide_True; [done|]. unfold isSignal. simpl. by rewrite Et.
Qed.

Lemma append_prefix `{Crypto} events incoming :
  filter (fun e => isSignal e = true) events `prefix_of` filter (fun e => isSignal e = true) (appendBatch events incoming).
Proof.
  unfold appendBatch. revert events. induction incoming as [|e l IH]; intros events; [done|]. simpl.
  etrans; [|apply IH]. rewrite append_signals. by eexists.
Qed.

(** The trigger a failed attempt leaves. *)
Lemma restore_pending `{Crypto} tree t r x at_ :
  attemptBatch x <> [] ->
  exists tr, obj_get t (taskTriggers (restoreAttemptEvents tree t r x at_)) = Some tr /\
    taskTriggerEvents tr = appendBatch (attemptBatch x) (pendingOf tree t).
Proof.
  intros Hne. unfold restoreAttemptEvents. destruct (attemptBatch x) as [|e l]; [done|].
  assert (forall k, appendBatch (e :: l) k <> []) as Hk.
  { intros k. unfold appendBatch. assert (forall acc : list AppTaskTriggerEvent, acc <> [] ->
      fold_left (fun acc e => appendTaskTriggerEvent acc (te_event e) (te_observedAt e)) k acc <> []) as Hf; [|by apply Hf].
    induction k as [|i k IH]; intros acc Hacc; [done|]. simpl. apply IH. unfold appendTaskTriggerEvent, appendChange.
    repeat case_cond; simpl; try done; by intros [_ ?]%app_nil. }
  destruct (appendBatch (e :: l) (pendingOf tree t)) as [|e1 l1] eqn:E; [by destruct (Hk (pendingOf tree t))|].
  simpl. rewrite obj_get_set, String.eqb_refl. eexists. split; [done|]. done.
Qed.

Lemma finish_triggers t state summary now tree : taskTriggers (finishAttempt t state summary now tree) = taskTriggers tree.
Proof.
  unfold finishAttempt. case_cond; [|done]. rewrite upd_resource_triggers. repeat case_cond; by rewrite ?upd_attempt_triggers.
Qed.

Definition failureLimit (config : AppTaskContext) (r : AppTaskResource) : FailureLimit :=
  match st_retryExhausted (status r) with Some x => limited (num (re_limit x)) | None => configuredLimit config end.

Definition pendingEvents (s : store) (t : string) : list AppTaskTriggerEvent :=
  match readTrigger s t with Some tr => taskTriggerEvents tr | None => [] end.

(** The allowance the failure of [x] spends, and whether it was the last. *)
Definition failureCount (rowOrder : list string) (s : store) (r : AppTaskResource) : Z :=
  default 0 (executionFailureSequence rowOrder s r).1 + 1.
Definition spent (rowOrder : list string) (config : AppTaskContext) (s : store) (r : AppTaskResource) (x : AppTaskAttempt) : bool :=
  reaches (failureCount rowOrder s r) (failureLimit config r) || bool_decide (is_Some (att_retryExhausted x)).

Lemma failed_state_facts rowOrder config s now r x y retry :
  failedExecutionState rowOrder config s now r x = (y, retry) ->
  att_id y = att_id x /\ attemptBatch y = attemptBatch x /\
  bool_decide (is_Some (att_retryExhausted y)) = spent rowOrder config s r x /\
  forall st, st_executionFailures (retry st) = Some (failureCount rowOrder s r) /\
    st_executionFailureAttemptId (retry st) = Some (Some (att_id x)) /\
    st_retryExhausted (retry st) = att_retryExhausted y /\
    (st_phase (retry st) = attention \/ (st_phase (retry st) = pending /\ reaches (failureCount rowOrder s r) (failureLimit config r) = false)) /\
    (st_phase (retry st) = attention -> spent rowOrder config s r x = true).
Proof.
  unfold failedExecutionState, spent, failureLimit, failureCount. set (n := _ + 1). set (l := match _ with Some _ => _ | None => _ end).
  intros [= <- <-]. destruct (reaches n l) eqn:E; simpl; split_ands; auto; intros st; split_ands; auto. done.
Qed.

(** The optional parts of a failure keep the retry bookkeeping. *)
Lemma failure_keeps details (retry : TaskStatus -> TaskStatus) st g summary :
  let noted st := match fd_facts details with Some f => with_st_facts (Some f) st | None => st end in
  let kept st := match fd_result details with Some r => with_st_result (Some r) st | None => st end in
  let st' := kept (noted (with_st_summary summary (with_st_currentAttemptId None (with_st_observedGeneration g (retry st))))) in
  st_executionFailures st' = st_executionFailures (retry st) /\
  st_executionFailureAttemptId st' = st_executionFailureAttemptId (retry st) /\
  st_retryExhausted st' = st_retryExhausted (retry st) /\ st_phase st' = st_phase (retry st) /\ st_currentAttemptId st' = None.
Proof. simpl. by destruct (fd_facts details), (fd_result details). Qed.

Lemma touch_fields now f r :
  let st := f (status r) in let st' := status (touchResource now f r) in
  st_executionFailures st' = st_executionFailures st /\ st_executionFailureAttemptId st' = st_executionFailureAttemptId st /\
  st_retryExhausted st' = st_retryExhausted st /\
  (st_currentAttemptId st = None -> st_phase st = pending -> st_phase st' = if bool_decide (is_Some (st_retryExhausted st)) then attention else pending) /\
  (st_phase st = attention -> st_phase st' = attention).
Proof.
  unfold touchResource, keepExhausted. simpl. destruct (bool_decide (is_Some _)) eqn:E1; simpl.
  - split_ands; try (by case_cond). intros -> ->. by rewrite !bool_decide_true.
  - by split_ands.
Qed.

(** What the store holds of a Task that was just settled. *)
Lemma settled_reads s s' claim now scope tree ext r :
  sound s -> derived s (claimed_by claim) tree -> settles_current s (claimed_by claim) -> extends ext ->
  clm_taskId claim ∈ sc_writeTaskIds scope -> obj_get (clm_taskId claim) (resources tree) = Some r -> idle r ->
  commitScope now scope tree ext s = (Ok tt, s') ->
  readTask s' (clm_taskId claim) = Some r /\ readTrigger s' (clm_taskId claim) = obj_get (clm_taskId claim) (taskTriggers tree).
Proof.
  intros Hs Hd Hc Hext Hin Hr Hi H.
  destruct (scope_commit s s' (claimed_by claim) now scope tree ext Hs Hd Hc Hext) as [_ Hw]; [|done|by apply Hw].
  intros t a [= <- <-]. eauto.
Qed.

Definition failedStatus (claim : AppTaskClaim) (details : FailureDetails) (summary : string) (retry : TaskStatus -> TaskStatus)
    (st : TaskStatus) : TaskStatus :=
  let noted st := match fd_facts details with Some f => with_st_facts (Some f) st | None => st end in
  let kept st := match fd_result details with Some r => with_st_result (Some r) st | None => st end in
  kept (noted (with_st_summary (Some summary) (with_st_currentAttemptId None
    (with_st_observedGeneration (clm_generation claim) (retry st))))).

(** What a failure that takes effect reads and writes. *)
Lemma fail_run `{Crypto} rowOrder config now claim failure details s out s' :
  sound s -> failAppTaskAttempt rowOrder config now claim failure details s = (Ok out, s') -> notSuperseded out = true ->
  exists r x y retry tree r2,
    readTask s (clm_taskId claim) = Some r /\ readAttempt s (clm_attemptId claim) = Some x /\ att_id x = clm_attemptId claim /\
    failedExecutionState rowOrder config s now r x = (y, retry) /\
    let exhausted := bool_decide (is_Some (att_retryExhausted y)) in
    let summary := failureSummary exhausted failure in
    readTask s' (clm_taskId claim) = Some (touchResource now (failedStatus claim details summary retry) r2) /\
    readTrigger s' (clm_taskId claim) =
      obj_get (clm_taskId claim) (taskTriggers (restoreAttemptEvents tree (clm_taskId claim) r y (toISOString now))) /\
    pendingOf tree (clm_taskId claim) = pendingEvents s (clm_taskId claim) /\
    exists retryAt, out = if exhausted then fail_exhausted summary else fail_retrying summary retryAt.
Proof.
  intros Hs Hrun Hdone. unfold failAppTaskAttempt in Hrun. run_step Hrun tree s1.
  destruct (matchingClaimAttempt _ _ claim) as [[r x]|] eqn:Em; [|by injection Hrun as <-].
  apply match_claim in Em as (Hr & Hx & Ha & Hst). destruct (match_settles s _ _ _ _ E Hr Ha) as (Hd & Hc & Hh & Hne).
  destruct (context_attempt s _ tree _ x Hs E Hx) as [Hx0 Hxid].
  cbv zeta in Hrun. rewrite gets_bind in Hrun.
  destruct (failedExecutionState rowOrder config s now r x) as [y retry] eqn:Ey.
  pose proof (failed_status _ _ _ _ _ _ _ _ Ey) as Hph.
  cbv zeta in Hrun. rewrite gets_bind in Hrun. destruct (inputOutcomeAdmissions s _ _ _ _) as [outcome|] eqn:Eo in Hrun; [|done].
  run_step Hrun u s1. destruct u. run_step Hrun after s2. injection Hrun as <- <-.
  assert (derived s (claimed_by claim) (oc_tree outcome)) as Hd1 by (eapply derived_outcome; [|exact Eo]; by apply derived_upd_attempt; auto).
  assert (has (clm_taskId claim) (oc_tree outcome)) as Hh1 by (eapply has_outcome; [|exact Eo]; by apply has_upd_attempt).
  match type of E0 with commitScope _ _ (updResource _ (touchResource _ ?F) (updAttempt _ ?g (finishAttempt _ _ _ _
      (restoreAttemptEvents _ _ ?r1 ?x1 ?at1)))) _ _ = _ =>
    destruct (failed_tree s claim now (oc_tree outcome) r1 x1 at1 failure g F Hd1 Hc Hh1) as [Hd2 (r' & Hr' & Hi)] end.
  { intros z. apply failed_attempt_kept. }
  { intros st. by apply failure_notes. }
  match type of Hr' with obj_get _ (resources ?tr) = _ => set (final := tr) in * end.
  assert (readTask s1 (clm_taskId claim) = Some r' /\
    readTrigger s1 (clm_taskId claim) = obj_get (clm_taskId claim) (taskTriggers final)) as [Hr1 Htr].
  { eapply settled_reads; [exact Hs|exact Hd2|exact Hc| | |exact Hr'|exact Hi|exact E0]; [auto with may|].
    eapply elem_of_begin; [exact Hr|done|by left]. }
  pose proof (outcome_tree _ _ _ _ _ _ Eo) as (r0 & r1 & _ & _ & Eoc).
  subst final. rewrite upd_resource_get, String.eqb_refl in Hr'. apply fmap_Some in Hr' as (r2 & _ & ->).
  exists r, x, y, retry, (oc_tree outcome), r2. cbv zeta. split; [by eapply context_resources|].
  split_ands; try done.
  - by rewrite Htr, upd_resource_triggers, upd_attempt_triggers, finish_triggers.
  - unfold pendingOf, pendingEvents. rewrite Eoc. simpl. by rewrite upd_attempt_triggers, (context_triggers _ _ _ _ _ E Hr).
  - by eexists.
Qed.

(** ** Properties *)

(** C12.  A claim decides: the passes that only adopt a retained failure
    sequence do not repeat, so two passes always reach a result or an error,
    and more passes would change nothing. *)
Theorem claim_decides `{Crypto} `{FileSystem} config env now input s n (Hs : sound s) :
  claimLoop config env now input (2 + n) s = claimObservedAppTask config env now input s /\
  (claimObservedAppTask config env now input s).1 <> Ok None.
Proof. unfold claimObservedAppTask. exact (claimLoop_stable config env now input n s Hs). Qed.

(** C11.  A failed execution that takes effect spends exactly one allowance and
    lets its Task go.  The Task is pending again while the allowance lasts, and
    waits for attention once it is spent, which is what the caller is told.
    The input of the attempt returns in front of what arrived meanwhile. *)
Theorem failed_execution_effect `{Crypto} rowOrder config now claim failure details s out s'
    (Hs : sound s) (Hrun : failAppTaskAttempt rowOrder config now claim failure details s = (Ok out, s'))
    (Hdone : notSuperseded out = true) :
  exists r x r', readTask s (clm_taskId claim) = Some r /\ readAttempt s (clm_attemptId claim) = Some x /\
    readTask s' (clm_taskId claim) = Some r' /\
    st_executionFailures (status r') = Some (failureCount rowOrder s r) /\
    st_executionFailureAttemptId (status r') = Some (Some (clm_attemptId claim)) /\
    st_currentAttemptId (status r') = None /\
    st_phase (status r') = (if spent rowOrder config s r x then attention else pending) /\
    bool_decide (is_Some (st_retryExhausted (status r'))) = spent rowOrder config s r x /\
    (spent rowOrder config s r x = true <-> exists m, out = fail_exhausted m) /\
    (attemptBatch x <> [] -> exists tr, readTrigger s' (clm_taskId claim) = Some tr /\
       taskTriggerEvents tr = appendBatch (attemptBatch x) (pendingEvents s (clm_taskId claim)) /\
       filter (fun e => isSignal e = true) (attemptBatch x) `prefix_of` filter (fun e => isSignal e = true) (taskTriggerEvents tr)).
Proof.
  destruct (fail_run rowOrder config now claim failure details s out s' Hs Hrun Hdone)
    as (r & x & y & retry & tree & r2 & Hr & Hx & Hxid & Ey & Hr' & Htr & Hp & retryAt & ->).
  destruct (failed_state_facts _ _ _ _ _ _ _ _ Ey) as (Hyid & Hyb & Hys & Hretry). rewrite Hys in *.
  set (F := failedStatus _ _ _ _) in Hr'. destruct (touch_fields now F r2) as (T1 & T2 & T3 & T4 & T5).
  destruct (failure_keeps details retry (status r2) (clm_generation claim) (Some (failureSummary (spent rowOrder config s r x) failure)))
    as (K1 & K2 & K3 & K4 & K5). fold (failedStatus claim details (failureSummary (spent rowOrder config s r x) failure) retry (status r2))
    in K1, K2, K3, K4, K5. fold F in K1, K2, K3, K4, K5.
  destruct (Hretry (status r2)) as (F1 & F2 & F3 & F4 & F5). exists r, x, (touchResource now F r2). split_ands; try done.
  - by rewrite T1, K1.
  - by rewrite T2, K2, F2, Hxid.
  - by rewrite touch_current.
  - destruct F4 as [F4|[F4 _]].
    + by rewrite T5, (F5 F4) by (by rewrite K4).
    + by rewrite T4, K3, F3, Hys by (by rewrite ?K4, ?K5).
  - by rewrite T3, K3, F3, Hys.
  - destruct (spent rowOrder config s r x); split; try done; [by eauto|by intros [m ?]].
  - intros Hb. rewrite <- Hyb in Hb |- *. destruct (restore_pending tree (clm_taskId claim) r y (toISOString now) Hb) as (tr & Htr1 & Hev).
    exists tr. rewrite Htr, Hev, Hp. split_ands; [done|done|apply append_prefix].
Qed.





(** ** Witnesses *)

Import TaskScenario.

Lemma claim_decides_witness :
  claimLoop sample_config (sample_env "u1") (start + 1000) sample_claim_input 5 claimed_app =
    claimObservedAppTask sample_config (sample_env "u1") (start + 1000) sample_claim_input claimed_app /\
  (claimObservedAppTask sample_config (sample_env "u1") (start + 1000) sample_claim_input claimed_app).1 <> Ok None.
Proof.
  apply (claim_decides sample_config (sample_env "u1") (start + 1000) sample_claim_input claimed_app 3).
  exact claimed_sound.
Defined.

Lemma failed_execution_effect_witness :
  exists r', readTask failed_app "t1" = Some r' /\ st_executionFailures (status r') = Some 1 /\ st_currentAttemptId (status r') = None.
Proof.
  destruct (failed_execution_effect [] sample_config (start + 2000) sample_claim "crash" sample_failure claimed_app
    (fail_retrying "crash" (Some (num (start + 32000)))) failed_app) as (r & x & r' & Hr & _ & Hr' & Hf & _ & Hc & _).
  - exact claimed_sound.
  - apply injective_projections; vm_compute; reflexivity.
  - reflexivity.
  - change (clm_taskId sample_claim) with "t1" in Hr, Hr'. exists r'. split; [exact Hr'|]. split; [|exact Hc].
    rewrite Hf. f_equal. vm_compute in Hr. injection Hr as <-. vm_compute. reflexivity.
Defined.

End TaskProgress.
