(* ===== verification/ClaimEffect.v ===== *)
(** What a successful claim means ([claimObservedAppTask] of
    [src/app/core/tasks/app-task-reconciler.ts]): the claim handed out is the
    one the store holds. *)
From S2P Require Import Prelude Json TaskState TaskTree Transaction ResourceStore StoreInvariant StoreCommit.
From S2P Require Import StoreEffects Snapshot Context Approval Conditions Records Time TaskInputs TaskEvents.
From S2P Require Import TaskIntent TaskMutation TaskOutcome TaskAdmission TaskLease OutputPaths TaskClaim.
From S2P Require Import TaskContract TaskActions TaskSettle TaskRelease TaskControl TaskLaws TaskScenario.
From S2P Require Import TaskOwnership TaskReconciler TaskBatches TaskProgress.

Module ClaimEffect.
Import ResourceStore StoreEffects TaskTree TaskInputs TaskEvents TaskIntent Time TaskMutation TaskOutcome TaskAdmission
  TaskLease TaskClaim TaskActions TaskSettle TaskRelease TaskControl TaskLaws TaskOwnership TaskReconciler TaskProgress.

(** ** Leases *)

Lemma ltb_num a b : number_ltb (num a) (num b) = (a <? b).
Proof.
  unfold number_ltb, num. rewrite Z.ltb_antisym. f_equal. unfold Qle_bool, inject_Z. simpl. by rewrite !Z.mul_1_r.
Qed.

(** A lease is live exactly until its duration after the activity has passed. *)
Lemma lease_window leaseUuid now sessionId x later :
  0 <= now -> now + APP_TASK_ATTEMPT_LEASE_DURATION_MS <= 253402300799999 -> att_sessionId x = nonempty sessionId ->
  leaseIsFresh (refreshAttemptLease leaseUuid now (num now) sessionId x) later None =
  (later <? now + APP_TASK_ATTEMPT_LEASE_DURATION_MS).
Proof.
  intros H0 Hmax Hsid. unfold refreshAttemptLease, boundedLeaseTimes.
  assert (boundedActivity now (num now) = now) as ->.
  { unfold boundedActivity, num, number_to_Z. rewrite Qfloor_Z. lia. }
  unfold leaseIsFresh. cbn [with_att_lease att_lease lease_runtimeId att_runtimeId lease_sessionId att_sessionId lease_expiresAt].
  rewrite String.eqb_refl, <- Hsid, bool_decide_true by done. cbn [negb orb].
  rewrite Date_parse_toISOString by (unfold in_range, APP_TASK_ATTEMPT_LEASE_DURATION_MS in *; lia).
  rewrite ltb_num. change (isFinite (num _)) with true. destruct (later <? _); [done|]. by destruct (nonempty (att_sessionId x)).
Qed.

Section Effect.
Context `{Crypto} `{FileSystem} (config : AppTaskContext) (env : ClaimEnv) (now : Z) (input : ClaimInput).

Definition inside (paths : list (list string)) : Prop :=
  Forall (fun p => OutputPaths.canonical (cx_appDir config) `prefix_of` p \/ OutputPaths.canonical (cx_projectDir config) `prefix_of` p) paths.

Lemma admitted_inside intent agent paths :
  claimAdmission config input intent agent = Ok paths ->
  inside paths /\ forall f, ci_isAgentRunnable input = Some f -> f agent = true.
Proof.
  unfold claimAdmission, OutputPaths.resolveAppTaskOutputPaths. destruct (OutputPaths.resolveOutputs _ _ _ _) as [ps|] eqn:E; [|done].
  intros Hp. assert (ps = paths) as -> by (repeat case_cond_in Hp; by simplify_eq). split.
  - apply OutputPaths.resolveOutputs_inside in E as [_ E]. eapply Forall_impl; [exact E|]. intros p (root & Hin & Hp').
    apply elem_of_cons in Hin as [->|Hin]; [by left|]. apply list_elem_of_singleton in Hin as ->. by right.
  - intros f Hf. rewrite Hf in Hp. by case_cond_in Hp.
Qed.

(** The facts of a claim that the store confirms. *)
Record confirmed (s : store) (c : AppTaskClaim) : Prop := mkConfirmed {
  cf_task : clm_taskId c = ci_taskId input;
  cf_current : assertAppTaskClaimCurrent s c = Ok tt;
  cf_bounded : (length (clm_events c) <= MAX_TASK_EVENTS_PER_ATTEMPT)%nat;
  cf_paths : inside (clm_declaredOutputPaths c);
  cf_runnable : forall f, ci_isAgentRunnable input = Some f -> f (clm_agent c) = true;
  cf_attempt : exists x, readAttempt s (clm_attemptId c) = Some x /\ att_runtimeId x = ce_runtimeId env /\
    default [] (att_events x) = clm_events c /\ att_startedAt x = toISOString now /\
    (0 <= now -> now + APP_TASK_ATTEMPT_LEASE_DURATION_MS <= 253402300799999 -> forall later,
       leaseIsFresh x later None = (later <? now + APP_TASK_ATTEMPT_LEASE_DURATION_MS)) }.

Lemma commitClaim_run m result c s s' :
  commitClaim now input m result s = (Ok (claimed c), s') ->
  result = claimed c /\ applyMutation now m s = (Ok true, s').
Proof.
  unfold commitClaim. destruct (commitMutation now m s) as [[[]|e] s1] eqn:E; [|by case_cond].
  intros [= -> ->]. split; [done|]. by apply run_commit in E as [_ E].
Qed.

Lemma new_attempt_more r hash agent handler prior ce re keys trigger :
  let x := newAttempt env now input r hash agent handler prior ce re keys trigger in
  att_taskGeneration x = md_generation (metadata r) /\ att_handler x = handler /\ att_specHash x = hash /\
  att_runtimeId x = ce_runtimeId env /\ default [] (att_events x) = ce /\ att_startedAt x = toISOString now /\
  (0 <= now -> now + APP_TASK_ATTEMPT_LEASE_DURATION_MS <= 253402300799999 -> forall later,
     leaseIsFresh x later None = (later <? now + APP_TASK_ATTEMPT_LEASE_DURATION_MS)).
Proof.
  cbv zeta. split_ands; [..|intros H1 H2 later; by apply lease_window];
    unfold newAttempt, refreshAttemptLease; destruct (boundedLeaseTimes now (num now)); by destruct ce.
Qed.

Lemma finish_metadata t state summary tree r1 :
  obj_get t (resources (finishAttempt t state summary now tree)) = Some r1 ->
  exists r0, obj_get t (resources tree) = Some r0 /\ metadata r1 = metadata r0.
Proof.
  unfold finishAttempt. destruct (obj_get t (resources tree)) as [r|] eqn:E; [|by rewrite E].
  rewrite upd_resource_get, String.eqb_refl. intros (r0 & Hr0 & ->)%fmap_Some. exists r0. split; [|done].
  rewrite <- E, <- Hr0. repeat case_cond; by rewrite ?upd_attempt_resources.
Qed.

(** A claim matches the records it was made from. *)
Lemma assert_current s c r x :
  readTask s (clm_taskId c) = Some r -> readAttempt s (clm_attemptId c) = Some x ->
  md_generation (metadata r) = clm_generation c -> st_currentAttemptId (status r) = Some (clm_attemptId c) ->
  att_state x = at_running -> att_taskGeneration x = clm_generation c -> att_handler x = clm_handler c ->
  att_specHash x = clm_specHash c -> assertAppTaskClaimCurrent s c = Ok tt.
Proof.
  intros Hr Hx Hg Hc Hst Hxg Hh Hs. unfold assertAppTaskClaimCurrent, matchingClaimAttempt. rewrite Hr, Hx.
  rewrite (bool_decide_true _ Hc), (bool_decide_true _ Hst), Hxg, Hh, Hs, Z.eqb_refl, !String.eqb_refl. simpl. rewrite Hg.
  by rewrite bool_decide_true.
Qed.

Lemma install_run s fence conds tree r intent agent paths prev prior canRecover stale ce re c s' :
  (length ce <= MAX_TASK_EVENTS_PER_ATTEMPT)%nat -> inside paths ->
  (forall f, ci_isAgentRunnable input = Some f -> f agent = true) ->
  obj_get (ci_taskId input) (resources tree) = Some r ->
  (forall k r0, obj_get k (resources tree) = Some r0 -> md_id (metadata r0) = k) ->
  installAttempt config env now input fence conds tree r intent agent paths prev prior canRecover stale ce re s = (Ok (claimed c), s') ->
  confirmed s' c.
Proof.
  intros Hlen Hin Hrun Hr Hids H1. unfold installAttempt in H1. cbv zeta in H1. run_step H1 u s1.
  match type of H1 with context [newAttempt env now input r ?h agent ?hd ?pf ce re ?ks ?tr] =>
    destruct (new_attempt_facts env now input r h agent hd pf ce re ks tr) as (Hid & Hst & Ht);
    destruct (new_attempt_more r h agent hd pf ce re ks tr) as (Hg & Hh & Hs & Hrt & Hev & Hat & Hlease);
    set (x := newAttempt env now input r h agent hd pf ce re ks tr) in * end.
  match type of H1 with context [obj_get _ (resources ?tr)] => set (tree2 := tr) in * end.
  destruct (obj_get (ci_taskId input) (resources tree2)) as [after|] eqn:Ea; [|done].
  apply commitClaim_run in H1 as [[= <-] Hm].
  assert (exists f r1, st_currentAttemptId (f (status r1)) = Some (att_id x) /\ after = touchResource now f r1 /\ metadata r1 = metadata r)
    as (f & r1 & Hcur & Eafter & Emeta).
  { subst tree2. rewrite upd_resource_get, String.eqb_refl in Ea. apply fmap_Some in Ea as (r1 & Hr1 & ->). eexists _, r1.
    split_ands; [|done|]; [done|]. simpl in Hr1. destruct canRecover; [destruct prev|]; try congruence.
    rewrite upd_attempt_resources in Hr1. apply finish_metadata in Hr1 as (r0 & Hr0 & ->). congruence. }
  assert (md_id (metadata after) = ci_taskId input) as Hma by (rewrite Eafter; simpl; rewrite Emeta; by apply Hids).
  assert (readTask s' (ci_taskId input) = Some after) as Hr'.
  { rewrite (StoreCommit.applyMutation_resources _ _ _ _ _ _ Hm), lastWrite_lastBy. simpl. unfold w_id. simpl.
    by rewrite Hma, String.eqb_refl. }
  assert (readAttempt s' (att_id x) = Some x) as Hx'.
  { rewrite (applyMutation_attempts _ _ _ _ _ _ Hm). cbn [mu_attempts claimMutation]. by rewrite lastBy_snoc. }
  split; cbn [clm_taskId clm_events clm_declaredOutputPaths clm_agent]; try done.
  - eapply (assert_current _ _ after x); simpl; try done.
    + rewrite Eafter. simpl. by rewrite Emeta.
    + by rewrite Eafter, touch_current.
  - exists x. done.
Qed.

Lemma refuse_run scope tree prev canRecover summary s c s' :
  refuseClaim now input scope tree prev canRecover summary s <> (Ok (claimed c), s').
Proof.
  unfold refuseClaim. intros Hx. destruct prev as [x|]; [destruct canRecover|]; try done;
    apply run_bind in Hx as (u & s1 & _ & Hx); cbv zeta in Hx; by apply run_bind in Hx as (u' & s2 & _ & Hx).
Qed.

Lemma notClaimable_not tree r intent rev s c s' : notClaimable now input tree r intent rev s <> (Ok (Some (claimed c)), s').
Proof.
  unfold notClaimable. intros Hx. do 2 (case_cond_in Hx; [done|]). destruct (unmetDependencies tree intent).
  - case_cond_in Hx; [|done]. by apply run_bind in Hx as (u & s1 & _ & Hx).
  - by apply run_bind in Hx as (u & s1 & _ & Hx).
Qed.

Lemma split_bounded r l ce re : splitBatch r l = (ce, re) -> (length ce <= MAX_TASK_EVENTS_PER_ATTEMPT)%nat.
Proof.
  intros E. pose proof (TaskBatches.split_length r l) as Hl. rewrite E in Hl. cbn [fst] in Hl. rewrite Hl. lia.
Qed.

Lemma claimRunnable_run cin rev tree r s c s' :
  sound s -> Context.readTaskContext s cin = Ok tree -> obj_get (ci_taskId input) (resources tree) = Some r ->
  claimRunnable config env now input rev tree r s = (Ok (claimed c), s') -> confirmed s' c.
Proof.
  intros Hs Hctx Hr H1. unfold claimRunnable in H1. cbv zeta in H1. run_step H1 prev s1.
  set (t := ci_taskId input) in *.
  set (rep := if bool_decide (st_phase (status r) = running) && bool_decide (prev = None) then _ else (tree, None)) in H1.
  assert (forall k r0, obj_get k (resources rep.1) = Some r0 -> md_id (metadata r0) = k) as Hids.
  { pose proof (context_derived s _ tree None Hctx) as Hd0. assert (has t tree) as Hh0 by by exists r. intros k r0.
    eapply derived_id; [apply Hs|]. subst rep. case_cond; [|exact Hd0].
    destruct (repairRunning now input r tree) as [tree' st] eqn:E'. eapply repairRunning_laws; [exact Hd0|exact Hh0|exact E']. }
  destruct rep as [tree1 stale]. cbn [fst] in Hids.
  set (can := match prev with Some a => _ | None => false end) in H1. clearbody can.
  destruct (claimAdmission config input _ _) as [paths|summary] eqn:Eadm; [|by apply refuse_run in H1].
  apply admitted_inside in Eadm as [Hin Hrunnable].
  destruct (splitBatch r _) as [ce re] eqn:Esplit. apply split_bounded in Esplit.
  match type of H1 with match obj_get t (resources ?tr) with _ => _ end s = _ => set (tree2 := tr) in * end.
  assert (forall k r0, obj_get k (resources tree2) = Some r0 -> md_id (metadata r0) = k) as Hids2.
  { subst tree2. destruct prev as [x|]; [|done]. case_cond; [|done]. intros k r0. rewrite upd_resource_get, upd_attempt_resources.
    destruct (String.eqb_spec t k) as [<-|Hne]; [intros (r1 & Hr1 & ->)%fmap_Some; simpl;
      apply finish_metadata in Hr1 as (r2 & Hr2 & ->); eauto|].
    intros Hr0. apply Hids. unfold finishAttempt in Hr0. destruct (obj_get t (resources tree1)); [|done].
    rewrite upd_resource_get in Hr0. destruct (String.eqb_spec t k); [done|]. repeat case_cond_in Hr0; by rewrite ?upd_attempt_resources in Hr0. }
  destruct (obj_get t (resources tree2)) as [r2|] eqn:Er2; [|done].
  match type of H1 with match prev with Some _ => _ | None => ?g end s = _ => set (go := g) in H1 end.
  assert (go s = (Ok (claimed c), s')) as Hgo by (destruct prev; [by case_cond_in H1|done]).
  subst go. apply run_bind in Hgo as ([res|] & s2 & En & Hgo).
  - injection Hgo as -> ->. by apply notClaimable_not in En.
  - apply notClaimable_run in En as ->. by eapply install_run.
Qed.

Lemma claimPass_run s c s' :
  sound s -> claimPass config env now input s = (Ok (Some (claimed c)), s') -> confirmed s' c.
Proof.
  intros Hs. unfold claimPass. rewrite gets_bind. unfold readContext. rewrite gets_bind.
  destruct (Context.readTaskContext s _) as [tree|] eqn:Hctx; [|done]. rewrite gets_bind. case_cond; [done|].
  destruct (obj_get (ci_taskId input) (resources tree)) as [r|] eqn:Hr; [|done]. rewrite !gets_bind.
  intros (u & s1 & Hu & H1)%run_bind. assert (s1 = s) as -> by (repeat case_cond_in Hu; by injection Hu).
  case_cond_in H1; [done|]. apply run_bind in H1 as ([] & s2 & He & H2); [done|].
  assert (obj_get (md_id (metadata r)) (resources tree) = Some r) as Hr'.
  { by rewrite (derived_id s None tree (ci_taskId input) r (proj1 (proj1 Hs)) (context_derived s _ tree None Hctx) Hr). }
  destruct (exhaust_run _ _ _ _ _ _ _ _ _ Hs Hctx Hr' He) as (_ & _ & Hsame & _). rewrite (Hsame eq_refl) in H2.
  case_cond_in H2.
  - apply run_bind in H2 as ([x|] & s3 & _ & H3); [done|]. by apply run_bind in H3 as (u' & s4 & _ & ?).
  - case_cond_in H2; [by apply run_bind in H2 as (u' & s3 & _ & ?)|].
    apply run_bind in H2 as (res & s3 & H2 & [= -> ->]). by eapply claimRunnable_run.
Qed.

End Effect.

(** ** Properties *)

(** C7.  A claim that is handed out is current: the store confirms it as the
    running attempt of the Task.  Its batch is bounded and is the one the
    attempt records, its declared outputs lie inside the App or the domain
    directory, its agent is one the caller can run, and its lease is live for
    exactly the lease duration. *)
Theorem claim_is_current `{Crypto} `{FileSystem} config env now input s c s' (Hs : sound s) (Hfresh : fresh env s)
    (Hclaim : claimObservedAppTask config env now input s = (Ok (Some (claimed c)), s')) :
  confirmed config env now input s' c.
Proof.
  unfold claimObservedAppTask in Hclaim. cbn [claimLoop] in Hclaim. apply run_bind in Hclaim as ([res|] & s1 & E1 & H1).
  - injection H1 as -> ->. by eapply claimPass_run.
  - destruct (claimPass_again config env now input s Hs Hfresh) as [[Hs1 _] _]. rewrite E1 in Hs1.
    apply run_bind in H1 as ([res|] & s2 & E2 & H2); [|done]. injection H2 as -> ->. by eapply claimPass_run.
Qed.

(** ** Witnesses *)

Import TaskScenario.

Lemma claim_is_current_witness : assertAppTaskClaimCurrent claimed_app sample_claim = Ok tt.
Proof.
  apply (claim_is_current sample_config (sample_env "u1") (start + 1000) sample_claim_input observed_app sample_claim claimed_app).
  - pose proof (observe_safe start sample_observe new_app (initial_sound _ new_app_initial)) as [Hs _]. exact Hs.
  - apply no_attempts_fresh. vm_compute. reflexivity.
  - apply injective_projections; vm_compute; reflexivity.
Defined.

End ClaimEffect.
