(* ===== verification/TaskReplay.v ===== *)
(** Repeated requests: control keys, admission keys and closures make the
    reconciler's requests safe to send again
    ([src/app/core/tasks/app-task-reconciler.ts]). *)
From S2P Require Import Prelude Json TaskState TaskTree Transaction ResourceStore StoreInvariant StoreCommit.
From S2P Require Import StoreEffects Snapshot Context Approval Conditions Records Time TaskInputs TaskEvents.
From S2P Require Import TaskIntent TaskMutation TaskOutcome TaskAdmission TaskLease OutputPaths TaskClaim.
From S2P Require Import TaskContract TaskActions TaskSettle TaskRelease TaskControl TaskLaws TaskScenario.
From S2P Require Import TaskOwnership TaskReconciler.

Module TaskReplay.
Import ResourceStore StoreEffects TaskTree TaskInputs TaskEvents TaskIntent Time TaskMutation TaskOutcome TaskAdmission
  TaskLease TaskClaim TaskActions TaskSettle TaskRelease TaskControl TaskLaws TaskOwnership TaskReconciler.

(** ** Control keys *)

Lemma lift_bind {A B} (r : res A) (k : A -> M B) s :
  (lift r ≫= k) s = match r with Ok a => k a s | Throw e => (Throw e, s) end.
Proof. by destruct r. Qed.

(** The receipts a committed scope adds. *)
Lemma scope_controls now scope tree ext receipts s s' :
  (forall m, mu_controlReceipts (ext m) = receipts) -> commitScope now scope tree ext s = (Ok tt, s') ->
  forall c, c ∈ receipts -> readControlReceipt s' (ctl_controlKey c) = Some c.
Proof.
  intros Hext H c Hc. unfold commitScope in H. run_step H m s1. apply run_commit in H as [_ Hm].
  apply (applyMutation_controlRows _ _ _ _ _ Hm). by rewrite Hext.
Qed.

Section Control.
Context `{Crypto} `{FileSystem} (config : AppTaskContext) (db : option (string -> store)).

Lemma retry_receipt now receiptId t s result s1 key :
  nonempty (tg_controlKey t) = Some key -> retryFailedAppTask now receiptId t s = (Ok result, s1) ->
  exists c, readControlReceipt s1 key = Some c /\ sameOperation t act_retry c = true /\ ctl_result c = Some result.
Proof.
  intros Hkey H1. unfold retryFailedAppTask in H1. rewrite gets_bind in H1. case_cond_in H1; [done|].
  unfold priorControl in H1. rewrite gets_bind, Hkey in H1. simpl in H1.
  destruct (readControlReceipt s key) as [c|] eqn:Ec.
  { case_cond_in H1; [done|]. destruct (ctl_result c) eqn:Er; [|done]. injection H1 as <- <-. exists c.
    split_ands; auto. by apply negb_false_iff. }
  run_step H1 tree s2. unfold retryInTree in H1. run_step H1 r s2. run_step H1 a s2. run_step H1 a' s2.
  cbv zeta in H1. run_step H1 u s2. destruct u. injection H1 as <- <-.
  match goal with E : commitScope _ _ _ _ _ = (Ok tt, s2) |- _ =>
    eapply (scope_controls _ _ _ _ (controlReceipts t act_retry now (md_resourceVersion (metadata r) + 1)
      (Some (retryReceipt now receiptId t (md_resourceVersion (metadata r) + 1) (att_id a'))))) in E; [|done|] end.
  2: { unfold controlReceipts. rewrite Hkey. by left. }
  eexists. split; [exact E3|]. split; [|done]. unfold sameOperation. simpl.
  by rewrite !String.eqb_refl, !Z.eqb_refl.
Qed.

Lemma history_controls s s' key c :
  sound s -> history config db s s' -> readControlReceipt s key = Some c -> readControlReceipt s' key = Some c.
Proof. intros Hs Hh. destruct (history_safe config db s s' Hs Hh) as [_ He]. apply (ev_controls _ _ He). Qed.

Lemma deep_eqb_refl v : json_wf v -> deep_eqb v v = true.
Proof. intros Hv. apply (Conditions.stable_deep v v Hv Hv). apply Conditions.json_eqb_refl. Qed.

(** The result of a reopening is recognised as that of the same request. *)
Lemma sameReopening_refl i c closure g v :
  (forall x, re_input i = Some x -> json_wf x) ->
  ctl_action c = act_reopen -> ctl_taskId c = tg_taskId (re_target i) ->
  ctl_expectedGeneration c = tg_expectedGeneration (re_target i) ->
  ctl_expectedResourceVersion c = tg_expectedResourceVersion (re_target i) ->
  sameReopening i c (reopenResult i closure g v) = true.
Proof.
  intros Hwf E1 E2 E3 E4. unfold sameReopening. rewrite bool_decide_true, E2, E3, E4, String.eqb_refl, !Z.eqb_refl by done. simpl.
  rewrite String.eqb_refl. simpl. destruct (re_input i) as [x|]; [|done]. simpl. by apply deep_eqb_refl, Hwf.
Qed.

Lemma reopen_receipt now maxId i s result s1 :
  (forall x, re_input i = Some x -> json_wf x) -> reopenAppTask now maxId i s = (Ok result, s1) ->
  (exists c, readControlReceipt s1 (reopenKey i) = Some c /\ ctl_result c = Some result /\ sameReopening i c result = true) /\
  (exists u, requireNonEmptyString (Some (JStr (re_reason i))) "Task reopening reason" = Ok u) /\
  (exists u, requireNonEmptyString (Some (JStr (reopenKey i))) "Task reopening control key" = Ok u) /\
  String.eqb (tg_appId (re_target i)) (appId s) = true.
Proof.
  intros Hwf H1. unfold reopenAppTask, StateTransaction.atomically in H1.
  match type of H1 with match ?b s with _ => _ end = _ => destruct (b s) as [[v|e] s'] eqn:E; [|done] end.
  injection H1 as <- <-. run_step E u1 s2. run_step E u2 s2. rewrite gets_bind in E. case_cond_in E; [done|].
  split; [|by split_ands; eauto; apply negb_false_iff]. rewrite gets_bind in E.
  destruct (readControlReceipt s (reopenKey i)) as [c|] eqn:Ec.
  { destruct (ctl_result c) eqn:Er; [|done]. case_cond_in E; [|done]. injection E as <- <-. eauto. }
  run_step E tree s2. unfold reopenInTree in E. run_step E pc s2. run_step E rc s2. destruct rc as [r closure].
  cbv zeta in E. run_step E sp s2. run_step E u s2. destruct u. injection E as <- <-.
  match goal with E : commitScope _ _ _ (with_closure _ _ _ ?l) _ = (Ok tt, s2) |- _ =>
    apply (scope_controls _ _ _ _ l) with (c := default (mkControl "" "" "" act_reopen 0 0 0 0 None) (head l)) in E; [|done|by left] end.
  simpl in *. eexists. split; [eassumption|]. split; [done|]. by apply sameReopening_refl.
Qed.

End Control.

(** ** Admission keys *)

(** What a committed observation leaves. *)
Lemma observeInTree_run `{Crypto} now input key agent hash tree cin s o s1 :
  sound s -> Context.readTaskContext s cin = Ok tree -> observeInTree now input key agent hash tree s = (Ok o, s1) ->
  let id := in_id (ob_intent input) in
  is_Some (readTask s1 id) /\ (obj_get id (resources tree) = None -> readTask s id = None) /\
  forall k, key = Some k -> exists adm, admissions s1 !! k = Some adm /\ adm_taskId adm = id.
Proof.
  intros Hs Hctx Hrun id. unfold observeInTree in Hrun. cbv zeta in Hrun. fold id in Hrun.
  set (same := match obj_get id (resources tree) with Some r => _ | None => false end) in Hrun. clearbody same.
  match type of Hrun with context [Z.max 1 ?x] => set (gen := if same then _ else Z.max 1 x) in * end. clearbody gen.
  rewrite gets_bind in Hrun. run_step Hrun u1 s2. run_step Hrun triggers s2.
  match type of Hrun with context [observedResource now ?ap_ input ?e gen same ?c ?l] =>
    pose proof (observed_owner now ap_ input e gen same c l) as [Hid _];
    set (r' := observedResource now ap_ input e gen same c l) in * end.
  set (r2 := if isFreshHumanRequest key (ob_trigger input) then _ else r') in Hrun.
  assert (md_id (metadata r2) = id) as Hid2.
  { subst r2. transitivity (md_id (metadata r')); [by case_cond|]. rewrite Hid.
    destruct (obj_get id (resources tree)) as [r|] eqn:Er; [|done]. case_cond; [|done].
    eapply stored_id; [apply Hs|]. by eapply context_resources. }
  clearbody r2. run_step Hrun rd s2. run_step Hrun u s2. destruct u. injection Hrun as <- <-.
  apply run_commit in E2 as [Hadm Hm]. split_ands.
  - rewrite (StoreCommit.applyMutation_resources _ _ _ _ _ _ Hm), lastWrite_lastBy. cbn [lastBy observeMutation mu_tasks].
    unfold w_id. simpl. rewrite Hid2, String.eqb_refl. by eexists.
  - intros En. unfold admissible in Hadm. simpl in Hadm. rewrite En in Hadm. simpl in Hadm. rewrite Hid2 in Hadm. unfold readTask.
    destruct (tasks s !! id); [|done]. by simpl in Hadm.
  - intros k ->. rewrite (applyMutation_admissions _ _ _ _ _ _ Hm). simpl. rewrite String.eqb_refl. by eexists.
Qed.

Lemma context_admission s ids keys conds h l tree k :
  Context.readTaskContext s (Context.mkInput ids keys conds h l) = Ok tree -> k ∈ keys -> k <> "" ->
  obj_get k (appTaskAdmissions tree) = admissions s !! k.
Proof.
  unfold Context.readTaskContext. destruct (m_app_metadata s); [|done]. cbv zeta. intros [= <-] Hk Hne. simpl.
  unfold Context.contextAdmissions. rewrite Context.obj_get_pick. destruct (set_has k _) eqn:E; [done|].
  destruct (admissions s !! k) eqn:Ek; [|done]. apply set_has_false in E. destruct E. apply Context.elem_of_selectIds. eauto.
Qed.

(** Programs that change nothing and report no change. *)
Definition quiet (m : M Observation) (s : store) : Prop :=
  (m s).2 = s /\ forall o, (m s).1 = Ok o -> obs_changed o = false.

Lemma quiet_lift {A} (r : res A) k s : (forall a, r = Ok a -> quiet (k a) s) -> quiet (lift r ≫= k) s.
Proof. intros Hk. unfold quiet. rewrite lift_bind. destruct r; [by apply Hk|done]. Qed.

Lemma quiet_gets {A} (f : store -> res A) k s : (forall a, f s = Ok a -> quiet (k a) s) -> quiet (gets f ≫= k) s.
Proof. intros Hk. unfold quiet. rewrite gets_bind. destruct (f s); [by apply Hk|done]. Qed.

Lemma lift_fails {A B} (r : res A) (k : A -> M B) s e s1 :
  (forall a, k a s = (Throw e, s1) -> s1 = s) -> (lift r ≫= k) s = (Throw e, s1) -> s1 = s.
Proof. rewrite lift_bind. destruct r; [eauto|]. intros _ Hx. by injection Hx. Qed.

(** An observation that is not committed leaves the store alone. *)
Lemma observeInTree_fails `{Crypto} now input key agent hash tree s e s1 :
  observeInTree now input key agent hash tree s = (Throw e, s1) -> s1 = s.
Proof.
  unfold observeInTree. cbv zeta. rewrite gets_bind. do 3 (apply lift_fails; intros ?). unfold mbind, M_bind, bind.
  destruct (commitMutation _ _ s) as [[[]|e'] s2] eqn:Ec; intros Hx; [done|]. apply (f_equal snd) in Hx. simpl in Hx. subst s1.
  by apply commit_fails in Ec.
Qed.

(** A key whose Task exists admits nothing again. *)
Lemma known_key_quiet `{Crypto} now input s key adm :
  sound s -> admissions s !! key = Some adm -> is_Some (readTask s (adm_taskId adm)) ->
  trim <$> ob_admissionKey input = Some key -> quiet (observeAppTaskIntent now input) s.
Proof.
  intros Hs Hadm [r0 Hr0] Hkey. unfold observeAppTaskIntent. apply quiet_lift. intros intent _. cbn [ob_admissionKey ob_trigger ob_intent].
  apply quiet_lift. intros _ _. apply quiet_gets. intros c _. case_cond; [done|]. rewrite Hkey. case_bool_decide as Hne; [done|].
  apply quiet_gets. intros tree Hctx. cbv zeta.
  pose proof (context_admission s _ _ _ _ _ tree key Hctx ltac:(by left) ltac:(congruence)) as Ha. rewrite Hadm in Ha.
  set (go := _ ← lift (validateParentReference _ _ _); _).
  assert (quiet go s) as Hgo.
  { apply quiet_lift. intros _ _. apply quiet_lift. intros replayed Hrep. unfold replayedAdmission in Hrep. simpl in Hrep. rewrite Ha in Hrep.
    case_cond_in Hrep; [done|]. apply orb_false_iff in Heqb0 as [Et _]. apply negb_false_iff, String.eqb_eq in Et.
    apply Ok_inj in Hrep. subst replayed. destruct (obj_get (adm_taskId adm) (resources tree)) eqn:Er;
      [by split; [|intros o [= <-]]|].
    match goal with |- quiet ?m s => destruct (m s) as [[o|e] s1] eqn:Eo; unfold quiet; rewrite Eo end;
      [|by apply observeInTree_fails in Eo].
    apply (observeInTree_run _ _ _ _ _ _ _ _ _ _ Hs Hctx) in Eo as (_ & Hn & _). simpl in Hn. rewrite <- Et in Hn. specialize (Hn Er). congruence. }
  destruct (obj_get _ (resources tree)); [|done]. case_cond; [|done]. by split; [|intros o [= <-]].
Qed.

(** An observation that reports a change was committed. *)
Lemma observe_changed `{Crypto} now input s o s1 key :
  sound s -> trim <$> ob_admissionKey input = Some key -> observeAppTaskIntent now input s = (Ok o, s1) -> obs_changed o = true ->
  exists adm, admissions s1 !! key = Some adm /\ is_Some (readTask s1 (adm_taskId adm)).
Proof.
  intros Hs Hkey Hrun Hnew. unfold observeAppTaskIntent in Hrun. run_step Hrun intent s2. cbn [ob_admissionKey ob_trigger ob_intent] in Hrun.
  run_step Hrun u s2. rewrite gets_bind in Hrun. case_cond_in Hrun; [done|]. rewrite Hkey in Hrun. case_bool_decide; [done|].
  run_step Hrun tree s2. cbv zeta in Hrun.
  set (go := _ ← lift (validateParentReference _ _ _); _) in Hrun.
  assert (go s = (Ok o, s1)) as Hgo.
  { destruct (obj_get _ (resources tree)); [|done]. case_cond_in Hrun; [|done]. injection Hrun as <- _. done. }
  clear Hrun. subst go. run_step Hgo u2 s2. run_step Hgo rep s2. destruct rep as [r|]; [by injection Hgo as <- _|].
  match goal with E : Context.readTaskContext s _ = Ok tree |- _ =>
    apply (observeInTree_run _ _ _ _ _ _ _ _ _ _ Hs E) in Hgo as (Ht & _ & Ha) end.
  destruct (Ha key eq_refl) as (adm & Hadm & Eid). exists adm. by rewrite Eid.
Qed.

(** ** Properties *)



(** ** Witnesses *)

Import TaskScenario.

Definition sample_target : ControlTarget := mkTarget "demo" "t1" 1 3 (Some "retry-1").
Definition retried_app : store := (retryFailedAppTask (start + 3000) "receipt-1" sample_target failed_app).2.
Definition later_app : store := (recordAppTaskTrigger sample_config (start + 4000) "t1" [("id", JNum (num 9)); ("type", JStr "note")] retried_app).2.

Lemma failed_sound : sound failed_app.
Proof.
  pose proof (fail_settles [] sample_config (start + 2000) sample_claim "crash" sample_failure claimed_app claimed_sound) as [[Hs _] _].
  exact Hs.
Qed.



End TaskReplay.
