(* ===== verification/TaskAnswers.v ===== *)
(** Answers: what a requester reads after its input was completed
    ([completeAppTask], [readAppTaskAdmissionOutcome] of
    [src/app/core/tasks/app-task-reconciler.ts]). *)
From S2P Require Import Prelude Json TaskState TaskTree Transaction ResourceStore StoreInvariant StoreCommit.
From S2P Require Import StoreEffects Snapshot Context Approval Conditions Records Time TaskInputs TaskEvents.
From S2P Require Import TaskIntent TaskMutation TaskOutcome TaskAdmission TaskLease OutputPaths TaskClaim.
From S2P Require Import TaskContract TaskActions TaskSettle TaskRelease TaskControl TaskLaws TaskScenario.
From S2P Require Import TaskOwnership TaskReconciler TaskReplay.

Module TaskAnswers.
Import ResourceStore StoreEffects TaskTree TaskInputs TaskEvents TaskIntent Time TaskMutation TaskOutcome TaskAdmission
  TaskLease TaskClaim TaskActions TaskSettle TaskRelease TaskControl TaskLaws TaskOwnership TaskReconciler.

(** ** Attempts of a context *)

Lemma ranked_attempt s referenced t a row :
  (a, row) ∈ Context.rankedAttempts s referenced t -> ar_task_id row = t /\ ResourceStore.attempts s !! a = Some row.
Proof.
  unfold Context.rankedAttempts. intros (i & Hi & _)%elem_of_take. apply list_elem_of_lookup_2 in Hi. rewrite merge_sort_Permutation in Hi.
  apply list_elem_of_filter in Hi as [Ht Hi]. by apply elem_of_map_to_list in Hi.
Qed.

Lemma ranked_nodup s referenced t : NoDup (map fst (Context.rankedAttempts s referenced t)).
Proof.
  unfold Context.rankedAttempts. eapply sublist_NoDup; [|apply sublist_map, sublist_take].
  rewrite (Permutation_map fst (merge_sort_Permutation _ _)). apply (NoDup_fmap_fst _).
  - intros k x y [_ Hx]%list_elem_of_filter [_ Hy]%list_elem_of_filter. apply elem_of_map_to_list in Hx, Hy. congruence.
  - apply NoDup_filter, NoDup_map_to_list.
Qed.

Lemma flat_map_nodup {A B} (f : A -> list B) l :
  NoDup l -> (forall x, x ∈ l -> NoDup (f x)) -> (forall x y b, x ∈ l -> y ∈ l -> b ∈ f x -> b ∈ f y -> x = y) -> NoDup (flat_map f l).
Proof.
  intros Hl Hf Hinj. induction Hl as [|x l Hx Hl IH]; simpl; [constructor|]. apply NoDup_app. split_ands.
  - apply Hf. by left.
  - intros b Hb Hb'. apply elem_of_flat_map in Hb' as (y & Hy & Hby). apply Hx. rewrite (Hinj x y b); set_solver.
  - apply IH; [intros; apply Hf; by right|]. intros y z b Hy Hz. apply Hinj; by right.
Qed.

Lemma map_flat_map {A B C} (f : B -> C) (g : A -> list B) l : map f (flat_map g l) = flat_map (fun x => map f (g x)) l.
Proof. induction l as [|x l IH]; simpl; [done|]. by rewrite map_app, IH. Qed.

Lemma context_attempts_wf s input tree : Context.readTaskContext s input = Ok tree -> obj_wf (attempts tree).
Proof.
  unfold Context.readTaskContext. destruct (m_app_metadata s); [|done]. cbv zeta. intros [= <-]. simpl. unfold Context.contextAttempts, obj_wf.
  destruct (Context.ci_includeHistory input); [|constructor]. set (ref := Context.referencedAttemptIds _).
  eapply sublist_NoDup; [|apply sublist_map, sublist_filter]. rewrite map_flat_map. apply flat_map_nodup.
  - unfold Context.contextTaskIds. apply NoDup_set_of.
  - intros t _. rewrite map_map. apply (ranked_nodup s ref t).
  - intros t u b _ _ Ht Hu. rewrite map_map in Ht, Hu. apply list_elem_of_fmap in Ht as ([a x] & -> & Hx), Hu as ([a' y] & E & Hy).
    simpl in E. subst a'. apply ranked_attempt in Hx as [<- Hx], Hy as [<- Hy]. congruence.
Qed.

(** ** Attempts a scope writes *)

Lemma fence_versions tree scope t :
  sc_originalAttemptVersions (fenceResourceMutationTask tree scope t) = sc_originalAttemptVersions scope.
Proof. unfold fenceResourceMutationTask. by repeat case_cond. Qed.

Lemma track_versions tree scope t :
  sc_originalAttemptVersions (trackResourceMutationTask tree scope t) = sc_originalAttemptVersions scope.
Proof. unfold trackResourceMutationTask, fenceResourceMutationTask. repeat (case_cond; simpl); done. Qed.

Lemma tracks_versions tree ids scope :
  sc_originalAttemptVersions (fold_left (trackResourceMutationTask tree) ids scope) = sc_originalAttemptVersions scope.
Proof. revert scope. induction ids as [|i ids IH]; intros scope; simpl; [done|]. by rewrite IH, track_versions. Qed.

(** An attempt of a written Task whose version moved is stored. *)
Lemma scope_attempt s s' fin now scope tree ext a x :
  sound s -> derived s fin tree -> extends ext -> obj_wf (attempts tree) -> obj_get a (attempts tree) = Some x ->
  att_taskId x ∈ sc_writeTaskIds scope -> obj_get a (sc_originalAttemptVersions scope) <> Some (att_resourceVersion x) ->
  commitScope now scope tree ext s = (Ok tt, s') -> readAttempt s' a = Some x.
Proof.
  intros Hs Hd Hext Hwf Hx Hin Hv H. unfold commitScope in H. run_step H m s1. apply run_commit in H as [_ Hm].
  assert (forall k y, (k, y) ∈ attempts tree -> att_id y = k) as Hids.
  { intros k y Hy. destruct (dv_attempts _ _ _ Hd k y Hy) as (x0 & Hx0 & E1 & _). rewrite E1. eapply stored_attempt_id; [apply Hs|done]. }
  pose proof (obj_get_Some_elem _ _ _ Hx) as Hel. pose proof (Hids a x Hel) as Ha.
  destruct (Hext m) as (_ & Ea & _ & E2). unfold finishResourceMutationScope in E. apply res_bind_Ok in E as (ws & _ & [= <-]).
  rewrite (applyMutation_attempts _ _ _ _ _ _ Hm), Ea, E2. simpl. rewrite <- Ha, lastBy_unique; [done| |].
  - apply list_elem_of_filter. split; [|apply list_elem_of_fmap; by exists (a, x)]. split.
    + apply elem_of_tracks. by left.
    + rewrite Ha, tracks_versions. done.
  - intros y [_ Hy]%list_elem_of_filter Ey. apply list_elem_of_fmap in Hy as ([k z] & -> & Hz). simpl in *.
    rewrite (Hids k z Hz), Ha in Ey. subst k. apply (obj_get_wf _ _ _ Hwf) in Hz. congruence.
Qed.

Lemma begin_versions tree claim actions :
  sc_originalAttemptVersions (beginResourceMutationScope tree claim actions) =
  map (fun a => (att_id a, att_resourceVersion a)) (obj_values (attempts tree)).
Proof.
  unfold beginResourceMutationScope. set (sc := match obj_get (clm_taskId claim) (resources tree) with Some _ => _ | None => _ end).
  transitivity (sc_originalAttemptVersions sc).
  - clearbody sc. revert sc. induction actions as [|x l IH]; intros sc; [done|]. simpl. rewrite IH. case_cond; [apply track_versions|done].
  - subst sc. destruct (obj_get (clm_taskId claim) (resources tree)); [rewrite fence_versions|]; by rewrite track_versions.
Qed.

Lemma original_version s fin tree a :
  store_ok s -> derived s fin tree -> obj_get a (map (fun a => (att_id a, att_resourceVersion a)) (obj_values (attempts tree))) =
  att_resourceVersion <$> obj_get a (attempts tree).
Proof.
  intros Hs Hd. assert (forall k y, (k, y) ∈ attempts tree -> att_id y = k) as Hids.
  { intros k y Hy. destruct (dv_attempts _ _ _ Hd k y Hy) as (x0 & Hx0 & E1 & _). rewrite E1. by eapply stored_attempt_id. }
  unfold obj_values. revert Hids. generalize (attempts tree). intros o Hids. induction o as [|[k y] o IH]; [done|]. simpl.
  rewrite (Hids k y) by (by left). destruct (String.eqb _ _); [done|]. apply IH. intros j z Hz. apply Hids. by right.
Qed.

(** ** Actions leave the claimed Task alone *)

Lemma unlinkExact_frame now t c tree :
  attempts (unlinkExactTaskCondition now t c tree) = attempts tree /\
  forall k, st_currentAttemptId ∘ status <$> obj_get k (resources (unlinkExactTaskCondition now t c tree)) =
            st_currentAttemptId ∘ status <$> obj_get k (resources tree).
Proof.
  unfold unlinkExactTaskCondition. case_cond; [|done]. simpl. split; [apply upd_resource_attempts|]. intros k.
  rewrite upd_resource_get. case_cond; [|done]. destruct (obj_get k (resources tree)); [|done]. cbn. f_equal. apply touch_current.
Qed.

Lemma unlinkSatisfied_frame now t tree :
  attempts (unlinkSatisfiedTaskConditions now t tree) = attempts tree /\
  forall k, st_currentAttemptId ∘ status <$> obj_get k (resources (unlinkSatisfiedTaskConditions now t tree)) =
            st_currentAttemptId ∘ status <$> obj_get k (resources tree).
Proof.
  unfold unlinkSatisfiedTaskConditions. case_cond; [done|]. simpl. split; [apply upd_resource_attempts|]. intros k.
  rewrite upd_resource_get. case_cond; [|done]. destruct (obj_get k (resources tree)); [|done]. cbn. f_equal. apply touch_current.
Qed.

(** A validated unblocking names a Task that is not running. *)
Lemma unblocks_other tree t actions ids a :
  validateEach tree t actions ids = Ok tt -> a ∈ actions -> kindIs a "retire-condition" = false ->
  exists r, obj_get (textField (default [] (actionFields a)) "taskId") (resources tree) = Some r /\ st_phase (status r) <> running.
Proof.
  revert ids. induction actions as [|b actions IH]; intros ids H Ha Hk; [by apply not_elem_of_nil in Ha|].
  cbn [validateEach] in H. destruct (actionFields b) as [o|] eqn:Eo; [|done]. case_cond_in H; [done|].
  apply elem_of_cons in Ha as [->|Ha].
  - rewrite Hk in H. case_cond_in H; [|done]. apply res_bind_Ok in H as (ids' & H & _). unfold validateUnblock in H.
    apply res_bind_Ok in H as (i & _ & H). do 2 (case_cond_in H; [done|]). apply res_bind_Ok in H as (e & _ & H).
    apply res_bind_Ok in H as (u & _ & H). case_cond_in H; [done|]. apply res_bind_Ok in H as (r & Hr & H).
    rewrite Eo. simpl. unfold mutableActionResource in Hr. exists r. split.
    + case_cond_in Hr; [|done]. case_cond_in Hr; [|done]. by injection Hr as <-.
    + destruct (_ || _) eqn:Ep in H; [|done]. apply orb_true_iff in Ep as [Ep|Ep]; apply bool_decide_eq_true in Ep; congruence.
  - case_cond_in H; [apply res_bind_Ok in H as (ids' & _ & H); eauto|].
    case_cond_in H; [|done]. apply res_bind_Ok in H as (ids' & _ & H); eauto.
Qed.

Lemma actions_frame app now claim tree actions tree' lines r :
  obj_get (clm_taskId claim) (resources tree) = Some r -> st_phase (status r) = running ->
  applyTaskActions app now tree claim actions = Ok (tree', lines) ->
  attempts tree' = attempts tree /\
  st_currentAttemptId ∘ status <$> obj_get (clm_taskId claim) (resources tree') = Some (st_currentAttemptId (status r)).
Proof.
  intros Hr Hrun ([] & Hv & H)%res_bind_Ok. unfold validateTaskActions in Hv. destruct (Nat.ltb _ _); [done|].
  assert (forall a, a ∈ actions -> kindIs a "retire-condition" = false ->
    textField (default [] (actionFields a)) "taskId" <> clm_taskId claim) as Hother.
  { intros a Ha Hk Eq. destruct (unblocks_other _ _ _ _ _ Hv Ha Hk) as (r' & Hr' & Hn). rewrite Eq in Hr'. congruence. }
  assert (st_currentAttemptId ∘ status <$> obj_get (clm_taskId claim) (resources tree) = Some (st_currentAttemptId (status r))) as Hc
    by by rewrite Hr.
  clear Hv Hr. revert tree lines Hc H.
  induction actions as [|a actions IH]; intros tree lines Hc; cbn [applyEach]; [by intros [= <- _]|].
  intros ([t1 line] & H1 & H)%res_bind_Ok. apply res_bind_Ok in H as ([t2 ls] & H2 & [= <- <-]).
  assert (attempts t1 = attempts tree /\ st_currentAttemptId ∘ status <$> obj_get (clm_taskId claim) (resources t1) =
    Some (st_currentAttemptId (status r))) as [Ea Hc1].
  { unfold applyAction in H1. destruct (kindIs a "retire-condition") eqn:Ek.
    - injection H1 as <- _. destruct (unlinkExact_frame now (clm_taskId claim)
        (textField (default [] (actionFields a)) "conditionId") tree) as [-> ->]. done.
    - apply res_bind_Ok in H1 as (r1 & _ & H1). apply res_bind_Ok in H1 as ([] & _ & [= <- _]).
      rewrite upd_resource_attempts, upd_resource_get. split; [done|].
      rewrite (proj2 (String.eqb_neq _ _)); [done|]. apply (Hother a); [by left|done]. }
  rewrite <- Ea. eapply IH; [|done|exact H2]. intros b Hb. apply Hother. by right.
Qed.

(** ** The attempt of an accepted result *)

Lemma wf_upd_attempt a f tree : obj_wf (attempts tree) -> obj_wf (attempts (updAttempt a f tree)).
Proof. unfold updAttempt. case_cond; [|done]. simpl. apply obj_set_wf. Qed.

Lemma consume_frame tree t agent ids keys :
  attempts (consumeSettledTaskEvents tree t agent ids keys) = attempts tree /\
  resources (consumeSettledTaskEvents tree t agent ids keys) = resources tree.
Proof. unfold consumeSettledTaskEvents. by repeat case_cond. Qed.

(** [y] is the attempt [x] after the result [accepted] ended it. *)
Record settled_attempt (accepted : AcceptedResult) (x y : AppTaskAttempt) : Prop := mkSettled {
  sa_id : att_id y = att_id x;
  sa_task : att_taskId y = att_taskId x;
  sa_generation : att_taskGeneration y = att_taskGeneration x;
  sa_version : att_resourceVersion y = att_resourceVersion x + 1;
  sa_accepted : att_acceptedResult y = Some accepted }.

Lemma settled_end state summary now accepted x :
  settled_attempt accepted x (endAttempt state summary now (with_att_acceptedResult (Some accepted) x)).
Proof. unfold endAttempt. by case_cond. Qed.

Lemma settled_release accepted x b w y : settled_attempt accepted x y -> settled_attempt accepted x (releaseWorkspace b w y).
Proof. intros []. unfold releaseWorkspace. by repeat case_cond. Qed.

Definition convergedResult (claim : AppTaskClaim) (input : CompleteInput) (keys : list string) (tree : TaskTree) : AcceptedResult :=
  acceptedAttemptResult tree (clm_taskId claim) r_converged (co_result input) (co_acceptedLiveEventIds input) (Some keys)
    (default (defaultTaskAcceptance claim (default [] (ri_facts (co_result input)))) (co_acceptanceBasis input)).

Lemma accept_attempt now claim input keys tree x :
  obj_wf (attempts tree) -> obj_get (clm_attemptId claim) (attempts tree) = Some x -> clm_attemptId claim <> "" ->
  st_currentAttemptId ∘ status <$> obj_get (clm_taskId claim) (resources tree) = Some (Some (clm_attemptId claim)) ->
  obj_wf (attempts (acceptConverged now claim input keys tree)) /\
  exists y, obj_get (clm_attemptId claim) (attempts (acceptConverged now claim input keys tree)) = Some y /\
    settled_attempt (convergedResult claim input keys tree) x y.
Proof.
  intros Hwf Hx Hne Hc. unfold acceptConverged. cbv zeta. fold (convergedResult claim input keys tree).
  set (acc := convergedResult claim input keys tree).
  set (t1 := updAttempt (clm_attemptId claim) _ tree). set (t2 := consumeSettledTaskEvents _ _ _ _ _).
  destruct (consume_frame t1 (clm_taskId claim) (clm_agent claim) (ar_acceptedLiveEventIds acc) (ar_inputKeys acc)) as [Ea Er].
  fold t2 in Ea, Er. destruct (unlinkSatisfied_frame now (clm_taskId claim) t2) as [Ea2 Er2]. set (t3 := unlinkSatisfiedTaskConditions _ _ _) in *.
  assert (attempts t3 = attempts t1) as E3 by congruence.
  assert (obj_wf (attempts t3)) as Hwf3 by (rewrite E3; by apply wf_upd_attempt).
  assert (obj_get (clm_attemptId claim) (attempts t3) = Some (with_att_acceptedResult (Some acc) x)) as Hx3
    by (rewrite E3; unfold t1; by rewrite upd_attempt_get, String.eqb_refl, Hx).
  specialize (Er2 (clm_taskId claim)). rewrite Er in Er2. unfold t1 in Er2. rewrite upd_attempt_resources, Hc in Er2.
  unfold finishAttempt. destruct (obj_get (clm_taskId claim) (resources t3)) as [r|] eqn:Er3; [|done].
  injection Er2 as Er2. cbn in Er2. rewrite Er2.
  replace (nonempty (Some (clm_attemptId claim))) with (Some (clm_attemptId claim)) by (by destruct (clm_attemptId claim)).
  cbn [mbind option_bind]. rewrite Hx3.
  rewrite upd_resource_attempts. split; [by apply wf_upd_attempt|].
  rewrite upd_attempt_get, String.eqb_refl, Hx3. eexists. split; [reflexivity|]. apply settled_end.
Qed.

(** ** The answered inputs *)

Lemma checked_keys claim adms keys k :
  checkInputKeys claim adms keys = Ok tt -> k ∈ keys ->
  exists a, obj_get k adms = Some a /\ outstanding (cl_taskId claim) (cl_generation claim) a = true.
Proof.
  induction keys as [|j keys IH]; cbn [checkInputKeys]; intros H Hk; [by apply not_elem_of_nil in Hk|].
  destruct (obj_get j adms) as [a|] eqn:Ea; [|done]. destruct (outstanding _ _ a) eqn:Eo; [|done].
  apply elem_of_cons in Hk as [->|Hk]; eauto.
Qed.

Lemma read_admission s keys adms k :
  readAdmissions s keys = Ok adms -> k ∈ keys -> k <> "" -> obj_get k adms = admissions s !! k.
Proof.
  unfold readAdmissions. destruct (Context.readTaskContext s _) as [tree|] eqn:E; [|done]. intros [= <-] Hk Hne.
  by eapply TaskReplay.context_admission.
Qed.

(** The write an answer makes for a key it names. *)
Lemma answer_write s tree claim live keys report outcome k :
  inputOutcomeAdmissions s tree claim (mkResultScope live (Some keys) report) oc_answer = Ok outcome -> k ∈ keys ->
  exists a, admissions s !! k = Some a /\ outstanding (cl_taskId claim) (cl_generation claim) a = true /\ k <> "" /\
    lastBy fst (oc_writes outcome) k = Some (k, with_adm_resultAttemptId (Some (cl_attemptId claim)) a).
Proof.
  intros (ks & Hks & H)%res_bind_Ok Hk. destruct (obj_get (cl_taskId claim) (resources tree)) as [r|]; [|done].
  apply res_bind_Ok in H as (assigned & _ & H). apply res_bind_Ok in H as (r1 & _ & H). apply res_bind_Ok in H as (adms & Hadms & [= <-]).
  unfold resultInputKeys in Hks. cbn [rs_inputKeys] in Hks. destruct (_ || _) eqn:Eb in Hks; [done|].
  apply res_bind_Ok in Hks as (adms0 & H0 & Hks). apply res_bind_Ok in Hks as ([] & Hchk & [= <-]).
  assert (k <> "") as Hne.
  { apply orb_false_iff in Eb as [_ Eb]. intros ->. apply not_true_iff_false in Eb. apply Eb, existsb_exists.
    exists "". split; [by apply list_elem_of_In|done]. }
  destruct (checked_keys _ _ _ _ Hchk Hk) as (a & Ha & Hout). rewrite (read_admission _ _ _ _ H0 Hk Hne) in Ha.
  assert (k ∈ set_of keys) as Hk' by by apply elem_of_set_of.
  exists a. split_ands; try done. simpl. unfold outcomeWrites.
  apply (lastBy_unique fst _ (k, with_adm_resultAttemptId (Some (cl_attemptId claim)) a)).
  - apply list_elem_of_omap. exists k. split; [done|]. rewrite (read_admission _ _ _ _ Hadms Hk' Hne), Ha. simpl. by rewrite Hout.
  - intros [j b] (i & Hi & Hb)%list_elem_of_omap. simpl. intros ->.
    destruct (obj_get i adms) as [c|] eqn:Ei; [|done]. simpl in Hb. destruct (outstanding _ _ c) eqn:Eo; [|done]. injection Hb as <- <-.
    rewrite (read_admission _ _ _ _ Hadms Hk' Hne) in Ei. congruence.
Qed.

Lemma outcome_keys s tree claim live keys report kind outcome :
  inputOutcomeAdmissions s tree claim (mkResultScope live (Some keys) report) kind = Ok outcome -> oc_keys outcome = set_of keys.
Proof.
  intros (ks & Hks & H)%res_bind_Ok. destruct (obj_get (cl_taskId claim) (resources tree)) as [r|]; [|done].
  apply res_bind_Ok in H as (assigned & _ & H). apply res_bind_Ok in H as (r1 & _ & H). apply res_bind_Ok in H as (adms & Hadms & [= <-]).
  unfold resultInputKeys in Hks. cbn [rs_inputKeys] in Hks. destruct (_ || _) in Hks; [done|].
  apply res_bind_Ok in Hks as (adms0 & H0 & Hks). by apply res_bind_Ok in Hks as ([] & Hchk & [= <-]).
Qed.

(** Reading an answer follows the admission to its attempt. *)
Lemma answer_read s t k a y accepted :
  is_Some (m_app_metadata s) -> k <> "" -> admissions s !! k = Some (with_adm_resultAttemptId (Some (att_id y)) a) ->
  adm_taskId a = t -> att_id y <> "" -> readAttempt s (att_id y) = Some y -> att_taskId y = t ->
  adm_taskGeneration a <= att_taskGeneration y -> att_acceptedResult y = Some accepted -> ar_state accepted = r_converged ->
  readAppTaskAdmissionOutcome s t k q_answer =
  Ok (Some (mkAdmissionOutcome (att_id y) (att_taskGeneration y) None false (report_accepted accepted))).
Proof.
  intros [md Hmd] Hk Ha Ht Hne Hy Hty Hg Hacc Hst. unfold readAppTaskAdmissionOutcome.
  destruct (readAdmissions s [k]) as [adms|] eqn:E.
  2: { unfold readAdmissions, Context.readTaskContext in E. by rewrite Hmd in E. }
  cbn [mbind res_bind]. rewrite (read_admission _ _ _ k E ltac:(by left) Hk), Ha. cbn [adm_taskId with_adm_resultAttemptId].
  rewrite Ht, String.eqb_refl. cbn [negb adm_resultAttemptId with_adm_resultAttemptId adm_taskGeneration].
  replace (nonempty (Some (att_id y))) with (Some (att_id y)) by (by destruct (att_id y)).
  cbn [mbind option_bind]. rewrite Hy, Hty, String.eqb_refl, (proj2 (Z.ltb_ge _ _) Hg), Hacc. cbn [negb orb].
  by rewrite bool_decide_true by done.
Qed.

(** A matching claim owns its Task. *)
Lemma match_owns s input tree claim r x :
  sound s -> Context.readTaskContext s input = Ok tree -> matchingTaskAttempt tree claim = Some (r, x) ->
  st_phase (status r) = running /\ att_taskId x = clm_taskId claim /\ att_id x = clm_attemptId claim /\
  clm_attemptId claim <> "" /\ att_taskGeneration x = clm_generation claim.
Proof.
  intros [[Hok _] Ho] Hctx Hm. pose proof (match_task _ _ _ _ Hm) as (Hr & Hx & Hc & _).
  pose proof (context_attempts _ _ _ _ _ Hctx (obj_get_Some_elem _ _ _ Hx)) as Hx'.
  destruct (Ho _ _ (context_resources _ _ _ _ _ Hctx Hr)) as [[Hi _]|(Hp & a & y & Ha & Hne & Hy & _ & Ht)]; [congruence|].
  rewrite Hc in Ha. injection Ha as <-. rewrite Hx' in Hy. injection Hy as <-.
  split_ands; auto; [by eapply stored_attempt_id|].
  unfold matchingTaskAttempt, matchingClaimAttempt in Hm. rewrite Hr, Hx in Hm. repeat case_cond_in Hm; try done. by reflect_bools.
Qed.

(** The tree a completion commits holds the settled attempt. *)
Lemma completed_attempt s ctx tree claim r x outcome now input tree2 lines :
  sound s -> Context.readTaskContext s ctx = Ok tree -> matchingTaskAttempt tree claim = Some (r, x) ->
  (exists r0 r1, obj_get (clm_taskId claim) (resources tree) = Some r0 /\ waits_only r0 r1 /\
     oc_tree outcome = setResource r1 (clm_taskId claim) tree) ->
  applyTaskActions (appId s) now (oc_tree outcome) claim (co_actions input) = Ok (tree2, lines) ->
  obj_wf (attempts (acceptConverged now claim input (oc_keys outcome) tree2)) /\
  exists y, obj_get (clm_attemptId claim) (attempts (acceptConverged now claim input (oc_keys outcome) tree2)) = Some y /\
    settled_attempt (convergedResult claim input (oc_keys outcome) tree2) x y.
Proof.
  intros Hs Hctx Hm (r0 & r1 & Hr0 & Hw & Eo) Hacts. destruct (match_owns _ _ _ _ _ _ Hs Hctx Hm) as (Hrun & _ & _ & Hne & _).
  pose proof (match_task _ _ _ _ Hm) as (Hr & Hx & Hc & _). rewrite Hr in Hr0. injection Hr0 as <-.
  destruct (waits_only_owner _ _ Hw) as [_ [Ec Ep]].
  assert (obj_get (clm_taskId claim) (resources (oc_tree outcome)) = Some r1) as Hr1
    by (rewrite Eo; simpl; by rewrite obj_get_set, String.eqb_refl).
  destruct (actions_frame _ _ _ _ _ _ _ r1 Hr1 (proj2 Ep Hrun) Hacts) as [Ea Ecur].
  apply accept_attempt; [..|rewrite Ecur; congruence]; rewrite ?Ea, ?Eo; try done. simpl. by eapply context_attempts_wf.
Qed.

(** What a committed scope does to the admissions and the metadata. *)
Lemma scope_admissions now scope tree writes s s' k :
  commitScope now scope tree (with_admissions writes) s = (Ok tt, s') ->
  m_app_metadata s' = m_app_metadata s /\
  forall e, lastBy fst writes k = Some e -> admissions s' !! k = Some e.2.
Proof.
  intros H. unfold commitScope in H. run_step H m s1. apply run_commit in H as [_ Hm].
  split; [by eapply applyMutation_metadata|]. intros e He. rewrite (applyMutation_admissions _ _ _ _ _ _ Hm). simpl. by rewrite He.
Qed.

(** The records an accepted completion leaves. *)
Lemma completed_records now claim input keys s c s' k :
  sound s -> co_inputKeys input = Some keys -> k ∈ keys -> completeAppTask now claim input s = (Ok (applied c), s') ->
  exists a y tree, readAttempt s' (clm_attemptId claim) = Some y /\ att_id y = clm_attemptId claim /\ att_id y <> "" /\
    att_taskId y = clm_taskId claim /\ att_taskGeneration y = clm_generation claim /\
    att_acceptedResult y = Some (convergedResult claim input (set_of keys) tree) /\
    k <> "" /\ outstanding (clm_taskId claim) (clm_generation claim) a = true /\
    admissions s' !! k = Some (with_adm_resultAttemptId (Some (clm_attemptId claim)) a) /\ is_Some (m_app_metadata s').
Proof.
  intros Hs Hkeys Hk Hrun. unfold completeAppTask in Hrun. run_step Hrun tree s1. rename E into Hctx.
  destruct (matchingTaskAttempt tree claim) as [[r x]|] eqn:Em; [|done].
  destruct (match_owns _ _ _ _ _ _ Hs Hctx Em) as (_ & Htask & Hid & Hne & Hgen).
  pose proof (match_task _ _ _ _ Em) as (Hr & Hx & Hc & _). destruct (match_settles s _ _ _ _ Hctx Hr Hc) as (Hd & Hcur & _ & Hnt).
  run_step Hrun outcome s1. rename E into Ho. run_step Hrun u s1. run_step Hrun pr s1. destruct pr as [tree2 lines]. rename E0 into Hacts.
  cbv zeta in Hrun. run_step Hrun after_ s1. run_step Hrun v s1. destruct v. injection Hrun as _ <-. rename E1 into Hcommit.
  pose proof (outcome_tree _ _ _ _ _ _ Ho) as (r0 & r1 & Hr0 & Hw & Eo).
  destruct (completed_attempt s _ _ _ _ _ outcome now input tree2 lines Hs Hctx Em ltac:(eauto) Hacts) as (Hwf & y & Hy & Hset).
  pose proof (derived_outcome _ _ _ _ _ _ _ _ Hd Ho) as Hd1. pose proof (derived_actions _ _ _ _ _ _ _ _ _ Hd1 Hacts) as Hd2.
  pose proof (derived_accept _ now _ input (oc_keys outcome) _ Hd2 Hcur) as Hd3. set (tree3 := acceptConverged _ _ _ _ _) in *.
  rewrite Hkeys in Ho. destruct (answer_write _ _ _ _ _ _ _ k Ho Hk) as (a & Ha & Hout & Hnk & Hlast).
  set (tree4 := updAttempt _ _ _) in Hcommit.
  assert (derived s (claimed_by claim) tree4) as Hd4.
  { apply derived_upd_attempt; [apply derived_release; [done|]|].
    - intros st. split; [done|]. apply completed_not_running.
    - intros z. split_ands; [..|left]; unfold releaseWorkspace; by repeat case_cond. }
  assert (exists z, obj_get (clm_attemptId claim) (attempts tree4) = Some z /\
    settled_attempt (convergedResult claim input (oc_keys outcome) tree2) x z) as (z & Hz & [Ei Et Eg Ev Eacc]).
  { unfold tree4. rewrite upd_attempt_get, String.eqb_refl, upd_resource_attempts, Hy. eexists. split; [done|]. by apply settled_release. }
  destruct (scope_admissions _ _ _ _ _ _ k Hcommit) as [Hmd Hadm]. rewrite (outcome_keys _ _ _ _ _ _ _ _ Ho) in Eacc.
  exists a, z, tree2. split_ands; try done; try congruence.
  - eapply scope_attempt; [done|exact Hd4| |..|exact Hcommit]; [auto with may| |done| |].
    + apply wf_upd_attempt. by rewrite upd_resource_attempts.
    + apply elem_of_tracks. left. eapply elem_of_begin; [|done|left; congruence]. rewrite Eo. simpl. by rewrite obj_get_set, String.eqb_refl.
    + rewrite tracks_versions, begin_versions, (original_version s _ _ _ (proj1 (proj1 Hs)) Hd1), Eo. simpl. rewrite Hx. simpl.
      intros [= Heq]. lia.
  - by rewrite (Hadm _ Hlast).
  - rewrite Hmd. unfold Context.readTaskContext in Hctx. by destruct (m_app_metadata s).
Qed.

(** ** Properties *)


(** ** Witnesses *)

Import TaskScenario.

Definition keyed_complete : CompleteInput :=
  mkComplete (mkResultInput "done" (Some "answer") None None None) [] None None None (Some ["key1"]).
Definition answered_app : store := (completeAppTask (start + 2000) sample_claim keyed_complete claimed_app).2.


End TaskAnswers.
