(* ===== verification/TaskOrder.v ===== *)
(** The order of the runnable queue
    ([effectiveAppTaskPriority], [listRunnableAppTaskQueueEntries] of
    [src/app/core/tasks/app-task-reconciler.ts]): priorities age with waiting
    time, and the queue lists exactly the runnable candidates in order. *)
From S2P Require Import Prelude Json TaskState TaskTree Transaction ResourceStore StoreInvariant StoreCommit.
From S2P Require Import StoreEffects RecoveryIndex Recovery Snapshot Context Approval Conditions Records Time.
From S2P Require Import TaskInputs TaskEvents TaskIntent TaskMutation TaskOutcome TaskLease TaskContract TaskActions.
From S2P Require Import TaskSettle TaskQueries TaskLaws TaskScenario TaskOwnership TaskReconciler.

Module TaskOrder.
Import ResourceStore TaskTree TaskInputs TaskEvents TaskIntent Time TaskMutation TaskOutcome TaskQueries TaskLaws.

(** ** Ageing *)

Lemma rank_bounds p : 0 <= rankOf p <= 3.
Proof. by destruct p. Qed.

Lemma rank_at r : 0 <= r <= 3 -> rankOf (priorityAt r) = r.
Proof.
  intros Hr. assert (r = 0 \/ r = 1 \/ r = 2 \/ r = 3) as [->|[->|[->| ->]]] by lia; done.
Qed.

Lemma aged_bounds p age : 0 <= age -> (if rankOf p =? 0 then 0 else 1) <= agedRank (rankOf p) age <= rankOf p.
Proof.
  intros Ha. unfold agedRank. pose proof (rank_bounds p). assert (0 <= age / appTaskPriorityAgingIntervalMs).
  { apply Z.div_pos; [done|]. unfold appTaskPriorityAgingIntervalMs. lia. }
  destruct (Z.eqb_spec (rankOf p) 0); lia.
Qed.

Lemma aged_monotone p a b : 0 <= a <= b -> agedRank (rankOf p) b <= agedRank (rankOf p) a.
Proof.
  intros Hab. unfold agedRank. assert (a / appTaskPriorityAgingIntervalMs <= b / appTaskPriorityAgingIntervalMs).
  { apply Z.div_le_mono; [unfold appTaskPriorityAgingIntervalMs; lia|lia]. } lia.
Qed.

(** ** The order *)

#[export] Instance queue_le_total tree now : Total (queue_le tree now).
Proof.
  intros a b. unfold queue_le. destruct (queueKey tree now a) as [[[a1 a2] a3] a4], (queueKey tree now b) as [[[b1 b2] b3] b4].
  unfold key_leb. rewrite !orb_true_iff, !andb_true_iff, !orb_true_iff, !andb_true_iff, !orb_true_iff, !andb_true_iff.
  rewrite !Z.ltb_lt, !Z.eqb_eq, !Z.leb_le. lia.
Qed.

#[export] Instance queue_le_trans tree now : Transitive (queue_le tree now).
Proof.
  intros a b c. unfold queue_le.
  destruct (queueKey tree now a) as [[[a1 a2] a3] a4], (queueKey tree now b) as [[[b1 b2] b3] b4], (queueKey tree now c) as [[[c1 c2] c3] c4].
  unfold key_leb. rewrite !orb_true_iff, !andb_true_iff, !orb_true_iff, !andb_true_iff, !orb_true_iff, !andb_true_iff.
  rewrite !Z.ltb_lt, !Z.eqb_eq, !Z.leb_le. lia.
Qed.

(** Human work first, then the smaller rank. *)
Definition entry_le (a b : QueueEntry) : Prop :=
  (qe_lane a = human /\ qe_lane b <> human) \/
  ((qe_lane a = human <-> qe_lane b = human) /\ rankOf (qe_priority a) <= rankOf (qe_priority b)).

Lemma queue_entry_le tree now a b :
  queue_le tree now a b -> entry_le (queueEntry tree now a.2) (queueEntry tree now b.2).
Proof.
  unfold queue_le, queueKey, key_leb, entry_le. rewrite !orb_true_iff, !andb_true_iff, !orb_true_iff, !Z.ltb_lt, !Z.eqb_eq.
  do 2 case_bool_decide; naive_solver lia.
Qed.

Lemma keepRunnable_spec now tree rs kept :
  keepRunnable now tree rs = Ok kept ->
  sublist kept rs /\ forall x, x ∈ kept <-> x ∈ rs /\ isRunnableOnPassiveResync now tree x.2 = Ok true.
Proof.
  revert kept. induction rs as [|y rs IH]; intros kept; cbn [keepRunnable]; [intros [= <-]; split; [done|]; set_solver|].
  intros (ready & Hr & H)%res_bind_Ok. apply res_bind_Ok in H as (rest & Hk & H). apply Ok_inj in H. subst kept.
  destruct (IH rest Hk) as [Hsub Hin]. destruct ready.
  - split; [by constructor|]. intros x. rewrite !elem_of_cons, Hin. naive_solver.
  - split; [by constructor|]. intros x. rewrite elem_of_cons, Hin. naive_solver congruence.
Qed.

Lemma sorted_map {A B} (R : A -> A -> Prop) (S : B -> B -> Prop) (f : A -> B) l :
  (forall a b, R a b -> S (f a) (f b)) -> StronglySorted R l -> StronglySorted S (map f l).
Proof.
  intros Hf. induction 1 as [|x l Hl IH Hx]; simpl; constructor; [done|]. apply Forall_map. eapply Forall_impl; [exact Hx|]. eauto.
Qed.

Definition queueCandidates (now : Z) (s : store) : list string :=
  set_of (map RecoveryIndex.ca_taskId (RecoveryIndex.items (RecoveryIndex.listRecoveryCandidates s now 10000 None))).

(** The candidates that have a Task record, with their position. *)
Definition positioned (tree : TaskTree) (ids : list string) : list (nat * AppTaskResource) :=
  omap (fun x => (fun r => (x.1, r)) <$> obj_get x.2 (resources tree)) (imap (fun i id => (i, id)) ids).

Lemma elem_of_positioned tree ids i r :
  (i, r) ∈ positioned tree ids <-> exists id, ids !! i = Some id /\ obj_get id (resources tree) = Some r.
Proof.
  unfold positioned. rewrite list_elem_of_omap. setoid_rewrite elem_of_lookup_imap. split.
  - intros (x & (j & id & -> & Hj) & Hx). simpl in Hx. apply fmap_Some in Hx as (r' & Hr' & [= -> ->]). eauto.
  - intros (id & Hi & Hr). exists (i, id). split; [eauto|]. simpl. by rewrite Hr.
Qed.

Lemma positioned_nodup tree ids : NoDup ids -> (forall k r, obj_get k (resources tree) = Some r -> md_id (metadata r) = k) ->
  NoDup (map (fun x => md_id (metadata x.2)) (positioned tree ids)).
Proof.
  intros Hnd Hid. assert (sublist (map (fun x => md_id (metadata x.2)) (positioned tree ids)) ids) as Hs; [|by eapply sublist_NoDup].
  unfold positioned. assert (forall k, sublist (map (fun x => md_id (metadata x.2)) (omap (fun x => (fun r => (x.1, r)) <$> obj_get x.2 (resources tree))
    (imap (fun i id => ((k + i)%nat, id)) ids))) ids) as Hk; [|by apply (Hk 0%nat)].
  clear Hnd. induction ids as [|id ids IH]; intros k; [done|]. rewrite imap_cons. simpl.
  assert (imap ((fun i id => ((k + i)%nat, id)) ∘ S) ids = imap (fun i id => ((S k + i)%nat, id)) ids) as ->.
  { apply imap_ext. intros j x _. simpl. f_equal. lia. }
  destruct (obj_get id (resources tree)) as [r|] eqn:E; simpl; [rewrite (Hid id r E); apply sublist_skip|apply sublist_cons]; apply (IH (S k)).
Qed.

(** ** Properties *)

(** Waiting promotes work: the effective priority never falls below the
    declared one, only rises with time, reaches P1 after two ageing intervals,
    and P0 stays reserved for work declared P0. *)
Theorem waiting_work_ages (r : AppTaskResource) (readyAt : option string) (t1 t2 : Z) (Ht : t1 <= t2) :
  let declared := default P2 (spec_priority (spec r)) in
  rankOf (effectiveAppTaskPriority r t2 readyAt) <= rankOf (effectiveAppTaskPriority r t1 readyAt) <= rankOf declared /\
  (effectiveAppTaskPriority r t1 readyAt = P0 <-> declared = P0) /\
  (forall z, Date_parse (default (st_updatedAt (status r)) readyAt) = num z ->
     z + 2 * appTaskPriorityAgingIntervalMs <= t1 -> rankOf (effectiveAppTaskPriority r t1 readyAt) <= 1).
Proof.
  cbv zeta. unfold effectiveAppTaskPriority. set (p := default P2 _). pose proof (rank_bounds p) as Hp.
  destruct (Date_parse _) as [q| | |]; [|split_ands; try done; lia..].
  pose proof (aged_bounds p (Z.max 0 (t1 - Qfloor q)) ltac:(lia)) as B1. pose proof (aged_bounds p (Z.max 0 (t2 - Qfloor q)) ltac:(lia)) as B2.
  assert (0 <= if rankOf p =? 0 then 0 else 1) by (by case_cond). rewrite !rank_at by lia. split_ands.
  - apply aged_monotone. lia.
  - lia.
  - split.
    + intros E. apply (f_equal rankOf) in E. rewrite rank_at in E by lia.
      destruct (Z.eqb_spec (rankOf p) 0) as [E0|]; [by destruct p|simpl in E; lia].
    + intros E. rewrite E in B1 |- *. simpl in B1. by assert (agedRank (rankOf P0) (Z.max 0 (t1 - Qfloor q)) = 0) as -> by (simpl; lia).
  - intros z [= ->] Hz. rewrite Qfloor_Z. unfold agedRank, appTaskPriorityAgingIntervalMs in *.
    assert (2 <= Z.max 0 (t1 - z) / (5 * 60 * 1000)) by (apply Z.div_le_lower_bound; lia). destruct (rankOf p =? 0); lia.
Qed.

(** The runnable queue lists each runnable candidate once and nothing
    else, human work first and then by effective priority. *)
Theorem runnable_queue_exact now s entries (Hs : store_wf s) (Hrun : listRunnableAppTaskQueueEntries now s = Ok entries) :
  StronglySorted entry_le entries /\ NoDup (map qe_taskId entries) /\
  exists tree, Context.readTaskContext s (Context.mkInput (queueCandidates now s) [] [] true None) = Ok tree /\
    forall id, id ∈ map qe_taskId entries <->
      id ∈ queueCandidates now s /\
      exists r, obj_get id (resources tree) = Some r /\ isRunnableOnPassiveResync now tree r = Ok true.
Proof.
  unfold listRunnableAppTaskQueueEntries in Hrun. fold (queueCandidates now s) in Hrun.
  apply res_bind_Ok in Hrun as (tree & Hctx & H1). apply res_bind_Ok in H1 as (kept & Hk & H2). apply Ok_inj in H2. subst entries.
  fold (positioned tree (queueCandidates now s)) in Hk. destruct (keepRunnable_spec _ _ _ _ Hk) as [Hsub Hin].
  assert (forall k r, obj_get k (resources tree) = Some r -> md_id (metadata r) = k) as Hid.
  { intros k r Hr. apply (context_resources _ _ _ _ _ Hctx) in Hr. unfold readTask in Hr.
    apply fmap_Some in Hr as (row & Hrow & ->). by destruct (ok_rows s (proj1 Hs) k row Hrow). }
  assert (map qe_taskId (map (fun x => queueEntry tree now x.2) (merge_sort (queue_le tree now) kept)) ≡ₚ
    map (fun x => md_id (metadata x.2)) kept) as Hperm by (rewrite map_map; by rewrite merge_sort_Permutation).
  split_ands.
  - eapply sorted_map; [intros a b; apply queue_entry_le|]. apply StronglySorted_merge_sort; apply _.
  - rewrite Hperm. eapply sublist_NoDup; [apply (positioned_nodup tree (queueCandidates now s)); [apply NoDup_set_of|done]|].
    by apply sublist_map.
  - exists tree. split; [done|]. intros id. rewrite Hperm, list_elem_of_fmap. split.
    + intros ([i r] & -> & [Hp Hready]%Hin). apply elem_of_positioned in Hp as (id & Hi & Hr). simpl in *. rewrite (Hid id r Hr).
      split; [by eapply list_elem_of_lookup_2|eauto].
    + intros ([i Hi]%list_elem_of_lookup & r & Hr & Hready). exists (i, r). split; [symmetry; exact (Hid id r Hr)|]. apply Hin.
      split; [|done]. apply elem_of_positioned. eauto.
Qed.

(** ** Witnesses *)

Import TaskScenario.

Definition waiting_task : AppTaskResource :=
  mkResource (mkMetadata "t9" None 1 1 None) (mkSpec "root" "wait" [] None None None None None None None (Some P3) None)
    (mkStatus 1 pending None None None None None None None None None None false None None None None None None (toISOString start)).

Lemma waiting_work_ages_witness :
  rankOf (effectiveAppTaskPriority waiting_task (start + 600000) None) <= 1 /\
  rankOf (effectiveAppTaskPriority waiting_task (start + 600000) None) <= rankOf (effectiveAppTaskPriority waiting_task start None).
Proof.
  split.
  - apply (waiting_work_ages waiting_task None (start + 600000) (start + 600000) (Z.le_refl _)) with (z := start).
    + apply Date_parse_toISOString. unfold in_range, start. lia.
    + unfold appTaskPriorityAgingIntervalMs. lia.
  - apply (waiting_work_ages waiting_task None start (start + 600000)). lia.
Defined.

Lemma runnable_queue_exact_witness :
  exists entries, listRunnableAppTaskQueueEntries (start + 1000) observed_app = Ok entries /\ "t1" ∈ map qe_taskId entries.
Proof.
  destruct (listRunnableAppTaskQueueEntries (start + 1000) observed_app) as [entries|e] eqn:E; [|vm_compute in E; discriminate].
  assert (store_wf observed_app) as Hwf.
  { pose proof (TaskOwnership.observe_safe start sample_observe new_app
      (TaskReconciler.initial_sound _ TaskReconciler.new_app_initial)) as [[Hwf _] _]. exact Hwf. }
  destruct (runnable_queue_exact (start + 1000) observed_app entries Hwf E) as (_ & _ & tree & Hctx & Hin).
  exists entries. split; [reflexivity|]. apply Hin. vm_compute in Hctx. injection Hctx as <-. split.
  - apply (bool_decide_unpack _). vm_compute. exact I.
  - eexists. split; [reflexivity|]. vm_compute. reflexivity.
Defined.

End TaskOrder.
