(* ===== verification/ContractLaws.v ===== *)
(** What an admitted result of a worker satisfies
    ([packages/sdk/src/task-contract.ts]). *)
From S2P Require Import Prelude Json TaskState TaskTree Records TaskContract.

Module ContractLaws.
Import TaskContract.

(** ** Normalized texts *)

Definition clean (s : string) : Prop := s <> "" /\ trim s = s.

Lemma normalized_clean v s : normalizedString v = Some s -> clean s.
Proof.
  unfold normalizedString. destruct v as [[| | |t| |]|]; try done. destruct (nonblank t) eqn:E; [|done]. intros [= <-].
  split; [|apply trim_idemp]. intros Ht. unfold nonblank in E. by rewrite Ht in E.
Qed.

Lemma strings_clean l t : allStrings l = Some t -> Forall clean t /\ length t = length l.
Proof.
  revert t. induction l as [|v l IH]; intros t; cbn [allStrings]; [by intros [= <-]|].
  destruct (normalizedString (Some v)) as [s|] eqn:E; [|done]. destruct (allStrings l) as [u|]; [|done]. intros [= <-].
  destruct (IH u eq_refl). split; [constructor; [by eapply normalized_clean|done]|simpl; congruence].
Qed.

Lemma array_clean v b t : normalizedStringArray v b = Some t -> Forall clean t.
Proof. unfold normalizedStringArray. destruct v as [[| | | |l|]|]; try done. case_cond; [done|]. apply strings_clean. Qed.

(** ** Parts of a result *)

Definition action_typed (a : TaskAction) : Prop :=
  match a with
  | unblock_task id g reason | retire_condition id g reason => clean id /\ 0 < g /\ clean reason
  end.

Lemma generation_positive v g : validGeneration v = Some g -> 0 < g.
Proof.
  unfold validGeneration. destruct v as [[| |n| | |]|]; try done. destruct (isInteger n && number_ltb (num 0) n) eqn:E; [|done].
  apply andb_true_iff in E as [Ei El]. intros [= <-]. destruct n as [q| | |]; try done. simpl in *.
  unfold Q_is_int in Ei. apply Z.eqb_eq in Ei. apply negb_true_iff in El.
  assert (~ (q <= inject_Z 0)%Q) as Hq by (intros Hq%Qle_bool_iff; unfold num in El; congruence).
  unfold Qle in Hq. simpl in Hq. destruct q as [n d]. simpl in *. unfold Qfloor.
  apply Z.mod_divide in Ei as [k Hk]; [|lia]. subst n. rewrite Z.div_mul by lia. nia.
Qed.

Lemma action_is_typed v i a : normalizeAction v i = Ok a -> action_typed a.
Proof.
  unfold normalizeAction. destruct v as [| | | | |o]; try done. cbv zeta. destruct (str_is (obj_get "kind" o) "update-task"); [done|].
  destruct (str_is (obj_get "kind" o) "unblock-task"); [|destruct (str_is (obj_get "kind" o) "retire-condition"); [|done]].
  all: destruct (normalizedString (obj_get _ o)) as [id|] eqn:E1; [|done].
  all: destruct (validGeneration (obj_get _ o)) as [g|] eqn:E2; [|done].
  all: destruct (normalizedString (obj_get "reason" o)) as [reason|] eqn:E3; [|done].
  all: intros [= <-]; (split; [exact (normalized_clean _ _ E1)|]); split; [exact (generation_positive _ _ E2)|exact (normalized_clean _ _ E3)].
Qed.

(** An observable Condition: a namespaced event type that is not internal
    scheduling, a typed subject, a canonical owner, a review of at least a
    minute, and progress only for App requests. *)
Definition condition_typed (c : TaskCondition) : Prop :=
  match c with
  | request_condition id _ => clean id
  | external_condition id sp =>
      clean id /\ clean (cs_type sp) /\ cs_type sp ∉ INTERNAL_TASK_SCHEDULING_CONDITION_TYPES /\ includes (cs_type sp) "." = true /\
      isTypedConditionSubject (cs_subject sp) = true /\
      (exists owner, cs_owner sp = Some owner /\ conditionOwnerPattern owner = true) /\
      (forall ms, cs_reviewAfterMs sp = Some ms -> MIN_CONDITION_REVIEW_AFTER_MS <= ms) /\
      (cs_progress sp <> None -> cs_type sp = "app.dependency.updated" /\ startsWith id "app-request:" = true)
  end.

Lemma review_bounded v ms : parseReviewAfterMs v = Some (Some ms) -> MIN_CONDITION_REVIEW_AFTER_MS <= ms.
Proof.
  unfold parseReviewAfterMs. destruct v as [[| |n| | |]|]; try done. case_cond; [|done]. intros [= <-].
  apply andb_true_iff in Heqb as [Ei El]. destruct n as [q| | |]; try done. simpl in *. apply negb_true_iff, negb_false_iff in El.
  apply Qle_bool_iff in El. apply Qfloor_resp_le in El. unfold num in El. by rewrite Qfloor_Z in El.
Qed.

Lemma condition_is_typed v i c : normalizeCondition v i = Ok c -> condition_typed c.
Proof.
  unfold normalizeCondition. destruct v as [| | | | |o]; try done.
  destruct (normalizedString (obj_get "id" o)) as [id|] eqn:Eid; [|done].
  destruct (normalizedString (obj_get "type" o)) as [type|] eqn:Et; [|done].
  destruct (set_has type _) eqn:Ei; [done|]. destruct (includes type ".") eqn:En; [|done]. cbn [negb].
  destruct (normalizedString (obj_get "subject" o)) as [subject|]; [|done]. destruct (isTypedConditionSubject subject) eqn:Es; [|done].
  cbn [negb]. destruct (obj_get "expected" o); [|done]. destruct (optionalString o "requestedAction"); [|done].
  destruct (normalizedString (obj_get "owner" o)) as [owner|]; [|done]. cbv zeta. destruct (conditionOwnerPattern owner) eqn:Eo; [|done].
  cbn [negb]. case_cond; [done|]. destruct (parseReviewAfterMs _) as [rv|] eqn:Er; [|done]. intros [= <-]. simpl.
  split; [exact (normalized_clean _ _ Eid)|]. split; [exact (normalized_clean _ _ Et)|]. split; [by apply set_has_false in Ei|].
  split; [done|]. split; [done|]. split; [eauto|]. split.
  - intros ms ->. by eapply review_bounded.
  - destruct (parseProgress (obj_get "progress" o)) eqn:Ep; [|done]. intros _.
    destruct (obj_get "progress" o) as [interest|]; [|done]. simpl in Heqb. rewrite !orb_false_iff, !negb_false_iff in Heqb.
    destruct Heqb as [[Ht Hst] _]. by apply String.eqb_eq in Ht.
Qed.

Lemma declaration_is_typed v i c : normalizeDeclaration v i = Ok c -> condition_typed c.
Proof.
  unfold normalizeDeclaration. destruct v as [| | | | |o]; try apply condition_is_typed.
  destruct (obj_get "requestId" o) as [r|]; [|apply condition_is_typed].
  destruct (normalizedString (Some r)) eqn:E; [|done]. case_cond; [done|]. intros [= <-]. by eapply normalized_clean.
Qed.

Lemma normalizeAll_Forall {A} (f : json -> Z -> res A) (P : A -> Prop) l i t :
  (forall v j a, f v j = Ok a -> P a) -> normalizeAll f l i = Ok t -> Forall P t /\ length t = length l.
Proof.
  intros Hf. revert i t. induction l as [|v l IH]; intros i t; cbn [normalizeAll]; [by intros [= <-]|].
  destruct (f v i) as [a|] eqn:E; [|done]. destruct (normalizeAll f l (i + 1)) as [rest|] eqn:Er; [|done]. intros [= <-].
  destruct (IH _ _ Er). split; [constructor; eauto|simpl; congruence].
Qed.

Lemma requests_distinct l i seen t :
  normalizeRequests l i seen = Ok t ->
  NoDup (map rq_id t) /\ (forall k, k ∈ map rq_id t -> k ∉ seen) /\ length t = length l /\
  Forall (fun r => clean (rq_id r) /\ clean (rq_appId r)) t.
Proof.
  revert i seen t. induction l as [|v l IH]; intros i seen t; cbn [normalizeRequests]; [intros [= <-]; split_ands; try done; [constructor|set_solver]|].
  destruct (normalizeRequest v i seen) as [r|] eqn:Er; [|done].
  destruct (normalizeRequests l (i + 1) (rq_id r :: seen)) as [rest|] eqn:Es; [|done]. intros [= <-].
  destruct (IH _ _ _ Es) as (Hnd & Hseen & Hlen & Hall).
  assert (rq_id r ∉ seen /\ clean (rq_id r) /\ clean (rq_appId r)) as (Hn & Hc1 & Hc2).
  { unfold normalizeRequest in Er. destruct v as [| | | | |o]; try done. cbv zeta in Er.
    destruct (normalizedString (obj_get "id" o)) as [id|] eqn:E1; [|done].
    destruct (normalizedString (obj_get "appId" o)) as [app|] eqn:E2; [|done]. case_cond_in Er; [done|].
    destruct (set_has id seen) eqn:E3; [done|]. apply set_has_false in E3.
    repeat (case_cond_in Er; try done). injection Er as <-. eauto using normalized_clean. }
  cbn [map]. split; [|split; [set_solver|split; [simpl; congruence|by constructor]]]. constructor; [|done]. intros Hin. by apply Hseen in Hin; set_solver.
Qed.

(** ** The header of a result *)

Record header_typed (o : obj json) (state : ResultState) (facts : list string) (response : option string)
    (result : option (obj json)) (reviewAt : option Z) : Prop := mkHeaderTyped {
  ht_summary : exists s, obj_get "summary" o = Some (JStr s) /\ clean (trim s);
  ht_facts : Forall clean facts /\ (length facts <= 32)%nat;
  ht_incomplete : state = r_incomplete -> facts <> [];
  ht_report : isTrue (obj_get "report" o) = true -> state <> r_converged /\ facts <> [];
  ht_response : state = r_waiting -> response = None;
  ht_result : forall r, result = Some r -> (byteLength (JSON_stringify (JObj r)) <= MAX_TASK_RESULT_BYTES)%nat;
  ht_reviewAt : forall z, reviewAt = Some z -> state = r_waiting }.

Lemma header_is_typed o state facts response result reviewAt :
  checkHeader o = Ok (state, facts, response, result, reviewAt) -> header_typed o state facts response result reviewAt.
Proof.
  unfold checkHeader. destruct (obj_get "summary" o) as [[| | |sm| |]|] eqn:Es; try done.
  destruct (nonblank sm) eqn:Eb; [|done]. cbn [negb]. destruct (normalizedStringArray _ true) as [fs|] eqn:Ef; [|done].
  destruct (Nat.ltb 32 (length fs)) eqn:El; [done|]. destruct (parseState _) as [st|]; [|done]. cbv zeta.
  destruct (bool_decide (is_Some (obj_get "report" o)) && _) eqn:Er; [done|].
  destruct (bool_decide (st = r_incomplete) && Nat.eqb (length fs) 0) eqn:Ei; [done|].
  destruct (bool_decide (st = r_incomplete) && (_ || _)); [done|]. destruct (optionalString o "response") as [rs|]; [|done].
  intros Hh. assert (state = st /\ facts = fs /\ response = rs /\
    match result with Some r => Nat.ltb MAX_TASK_RESULT_BYTES (byteLength (JSON_stringify (JObj r))) | None => false end = false /\
    bool_decide (st = r_waiting) && bool_decide (is_Some rs) = false /\
    (forall z, reviewAt = Some z -> st = r_waiting)) as (-> & -> & -> & Hb & Hw & Hrv).
  { destruct (obj_get "result" o) as [[| | | | |r]|]; try done.
    1: destruct (Nat.ltb MAX_TASK_RESULT_BYTES _) eqn:E1; [done|].
    all: destruct (bool_decide (st = r_waiting) && bool_decide (is_Some rs)) eqn:E2; [done|].
    all: destruct (obj_get "reviewAt" o) as [[| |n| | |]|]; try done; [destruct (negb (isSafeInteger n) || _); [done|]; case_bool_decide; [|done]|].
    all: injection Hh as <- <- <- <- <-; split_ands; try done. }
  split; try done.
  - exists sm. split; [done|]. split; [|apply trim_idemp]. intros Ht. unfold nonblank in Eb. by rewrite Ht in Eb.
  - split; [by eapply array_clean|]. apply Nat.ltb_ge in El. done.
  - intros -> ->. by rewrite bool_decide_true in Ei.
  - intros Ht. destruct (obj_get "report" o) as [v|]; [|done].
    rewrite (bool_decide_true (is_Some (Some v))), Ht in Er by done. cbn [andb negb] in Er. apply orb_false_iff in Er as [Er El0].
    apply orb_false_iff in Er as [Er _]. split; [by intros ->|]. intros ->. done.
  - intros ->. destruct rs; [|done]. by rewrite !bool_decide_true in Hw.
  - intros r ->. by apply Nat.ltb_ge in Hb.
Qed.

(** ** Admitted results *)

Record result_typed (r : TaskReconcileResult) : Prop := mkResultTyped {
  rt_summary : clean (res_summary r);
  rt_facts : Forall clean (res_facts r) /\ (length (res_facts r) <= 32)%nat;
  rt_actions : Forall action_typed (res_actions r) /\ (length (res_actions r) <= 16)%nat;
  rt_conditions : Forall condition_typed (res_conditions r) /\ (length (res_conditions r) <= 24)%nat;
  rt_requests : NoDup (map rq_id (res_requests r)) /\ (length (res_requests r) <= 8)%nat /\
    Forall (fun q => clean (rq_id q) /\ clean (rq_appId q)) (res_requests r);
  rt_waiting : res_state r = r_waiting -> res_response r = None;
  rt_not_waiting : res_state r <> r_waiting -> res_conditions r = [] /\ res_reviewAt r = None /\ res_continue r = false;
  rt_incomplete : res_state r = r_incomplete -> res_facts r <> [] /\ res_actions r = [] /\ res_requests r = [];
  rt_progress : res_report r = true \/ res_continue r = true -> res_state r <> r_converged /\ res_facts r <> [];
  rt_result : forall x, res_result r = Some x -> (byteLength (JSON_stringify (JObj x)) <= MAX_TASK_RESULT_BYTES)%nat }.

Lemma array_bounded o k limit msg l : arrayField o k limit msg = Ok l -> (length l <= limit)%nat.
Proof.
  unfold arrayField. destruct (obj_get k o) as [[| | | |t|]|]; try done; try (intros [= <-]; simpl; lia).
  destruct (Nat.ltb_spec limit (length t)); [done|]. intros [= <-]. done.
Qed.

(** ** Properties *)

(** C33.  Whatever a worker returns, what the contract admits is well formed:
    bounded lists of trimmed texts, positive generations, observable Conditions
    with canonical owners, distinct requests, and only the fields its state
    allows. *)
Theorem admitted_result_typed `{SchemaChecker} (output : json) (r : TaskReconcileResult)
    (Hok : admitTaskReconcileResult output = Ok r) : result_typed r.
Proof.
  unfold admitTaskReconcileResult in Hok. destruct output as [| | | | |o0]; try done.
  destruct (upgradeDependencies o0) as [o|]; [|done].
  destruct (checkHeader o) as [[[[[state facts] response] result] reviewAt]|] eqn:Eh; [|done].
  apply header_is_typed in Eh as [(sm & Esm & Hsm) [Hf1 Hf2] Hinc Hrep Hresp Hres Hrv].
  destruct (arrayField o "actions" _ _) as [ra|] eqn:E1; [|done]. apply array_bounded in E1.
  destruct (normalizeAll normalizeAction ra 0) as [actions|] eqn:E2; [|done].
  apply (normalizeAll_Forall _ action_typed) in E2 as [Ha1 Ha2]; [|intros; by eapply action_is_typed].
  destruct (arrayField o "conditions" _ _) as [rc|] eqn:E3; [|done]. apply array_bounded in E3.
  destruct (normalizeAll normalizeDeclaration rc 0) as [conds|] eqn:E4; [|done].
  apply (normalizeAll_Forall _ condition_typed) in E4 as [Hc1 Hc2]; [|intros; by eapply declaration_is_typed].
  destruct (negb (bool_decide (state = r_waiting)) && negb (Nat.eqb (length conds) 0)) eqn:E5; [done|].
  destruct (arrayField o "requests" _ _) as [rq|] eqn:E6; [|done]. apply array_bounded in E6.
  destruct (normalizeRequests rq 0 []) as [reqs|] eqn:E7; [|done]. apply requests_distinct in E7 as (Hr1 & _ & Hr2 & Hr3).
  destruct (bool_decide (is_Some (obj_get "continue" o)) && _) eqn:E8; [done|]. case_cond_in Hok; [done|]. injection Hok as <-.
  assert (isTrue (obj_get "continue" o) = true -> state = r_waiting /\ facts <> []) as Hcont.
  { intros Ht. destruct (obj_get "continue" o) as [v|]; [|done].
    rewrite (bool_decide_true (is_Some (Some v))), Ht in E8 by done. cbn [andb negb orb] in E8. apply orb_false_iff in E8 as [E8 E9].
    apply negb_false_iff, bool_decide_eq_true in E8. split; [done|]. by intros ->. }
  split; cbn [res_summary res_facts res_actions res_conditions res_requests res_state res_response res_reviewAt res_continue res_report res_result].
  - by rewrite Esm.
  - done.
  - destruct (bool_decide (state = r_incomplete)); [split; [constructor|simpl; lia]|split; [done|lia]].
  - split; [done|lia].
  - destruct (bool_decide (state = r_incomplete)); [split; [constructor|split; [simpl; lia|constructor]]|split_ands; [done|lia|done]].
  - done.
  - intros Hn. split_ands.
    + destruct conds; [done|]. by rewrite bool_decide_false in E5.
    + destruct reviewAt as [z|]; [|done]. by destruct (Hn (Hrv z eq_refl)).
    + destruct (isTrue (obj_get "continue" o)); [|done]. by destruct (Hcont eq_refl).
  - intros Hi. rewrite bool_decide_true by done. auto.
  - intros [Ht|Ht]; [auto|]. destruct (Hcont Ht) as [-> ?]. done.
  - done.
Qed.

(** ** Witnesses *)

(** A checker with exactly the documented meaning. *)
#[local] Instance documented_checker : SchemaChecker := {| Check := validates; firstError := fun _ _ => None |}.
#[local] Instance documented_laws : SchemaLaws.
Proof. intros s v. reflexivity. Qed.

Definition sample_output : json :=
  JObj [("state", JStr "waiting"); ("summary", JStr " waiting for the gate "); ("facts", JArr [JStr "built"]);
        ("conditions", JArr [JObj [("id", JStr "gate"); ("type", JStr "deploy.finished"); ("subject", JStr "env:prod");
                                   ("expected", JStr "ok"); ("owner", JStr "human")]])].

Lemma admitted_result_typed_witness :
  exists r, admitTaskReconcileResult sample_output = Ok r /\ length (res_conditions r) = 1%nat /\ result_typed r.
Proof.
  destruct (admitTaskReconcileResult sample_output) as [r|e] eqn:E; [|vm_compute in E; discriminate].
  exists r. split; [reflexivity|]. split; [|exact (admitted_result_typed sample_output r E)].
  vm_compute in E. injection E as <-. reflexivity.
Defined.

End ContractLaws.
