(* ===== verification/Containment.v ===== *)
(** * Containment stays free of cycles

    [validateParentReference] of the reconciler walks the parents of a new
    parent.  The walk of the model has fuel; here it is shown that the fuel
    suffices, that an accepted parent's chain ends without meeting the Task, and
    that a tree whose chains all end keeps that property under every admission
    the check accepts. *)
From S2P Require Import Prelude Json TaskState TaskTree Transaction ResourceStore Snapshot Context Records TaskIntent.

Module Containment.
Import TaskTree TaskIntent.

(** One step up the containment. *)
Definition up (tree : TaskTree) (id : string) : option string := nonempty (parentOf tree id).

(** [ends tree avoid n id]: the chain from [id] leaves the tree after [n] steps
    and does not meet [avoid]. *)
Inductive ends (tree : TaskTree) (avoid : string) : nat -> string -> Prop :=
| ends_here id : id <> avoid -> up tree id = None -> ends tree avoid 0 id
| ends_up n id p : id <> avoid -> up tree id = Some p -> ends tree avoid n p -> ends tree avoid (S n) id.

(** Every chain leaves the tree. *)
Inductive rooted (tree : TaskTree) : string -> Prop :=
| rooted_here id : up tree id = None -> rooted tree id
| rooted_up id p : up tree id = Some p -> rooted tree p -> rooted tree id.

Definition acyclic (tree : TaskTree) : Prop := forall id, rooted tree id.

Lemma parentOf_known tree id p : parentOf tree id = Some p -> id ∈ obj_keys (groups tree) ++ obj_keys (resources tree).
Proof.
  unfold parentOf. intros H. apply elem_of_app. destruct (obj_get id (resources tree)) eqn:Er.
  - right. apply list_elem_of_fmap. exists (id, a). split; [done|]. by apply obj_get_Some_elem.
  - left. destruct (obj_get id (groups tree)) eqn:Eg; [|done].
    apply list_elem_of_fmap. exists (id, t). split; [done|]. by apply obj_get_Some_elem.
Qed.

(** The walk always ends by itself: it has visited every node of the tree once
    before the fuel is used up. *)
Lemma parentWalk_total tree taskId fuel cursor seen :
  NoDup seen -> (forall x, x ∈ seen -> x ∈ obj_keys (groups tree) ++ obj_keys (resources tree)) ->
  (S (length (obj_keys (groups tree) ++ obj_keys (resources tree))) < fuel + length seen)%nat ->
  parentWalk fuel tree taskId cursor seen <> chain_open.
Proof.
  revert cursor seen. induction fuel as [|fuel IH]; intros cursor seen Hnd Hsub Hf.
  - assert (length seen <= length (obj_keys (groups tree) ++ obj_keys (resources tree)))%nat; [|lia].
    by apply submseteq_length, NoDup_submseteq.
  - simpl. destruct (nonempty cursor) as [c|]; [|done]. destruct (set_has c seen) eqn:Es; [done|].
    destruct (String.eqb c taskId); [done|]. destruct (parentOf tree c) as [p|] eqn:Ep.
    + apply IH; [by apply NoDup_set_add| |rewrite length_set_add, Es; lia].
      intros x [->|Hx]%elem_of_set_add; [by eapply parentOf_known|auto].
    + destruct fuel; [|done]. exfalso.
      assert (length seen <= length (obj_keys (groups tree) ++ obj_keys (resources tree)))%nat; [|lia].
      by apply submseteq_length, NoDup_submseteq.
Qed.

Lemma parentFuel_enough tree taskId cursor : parentWalk (parentFuel tree) tree taskId cursor [] <> chain_open.
Proof. apply parentWalk_total; [constructor|by intros x ?%elem_of_nil|unfold parentFuel; simpl; lia]. Qed.

Lemma parentWalk_end tree taskId fuel cursor seen :
  parentWalk fuel tree taskId cursor seen = chain_end ->
  forall c, nonempty cursor = Some c -> exists n, ends tree taskId n c.
Proof.
  revert cursor seen. induction fuel as [|fuel IH]; intros cursor seen; [done|]. simpl.
  intros H c Hc. rewrite Hc in H. destruct (set_has c seen); [done|].
  destruct (String.eqb c taskId) eqn:Et; [done|]. apply String.eqb_neq in Et.
  destruct (up tree c) as [p|] eqn:Eu; [|exists 0%nat; by constructor].
  destruct (IH _ _ H p Eu) as [n Hn]. exists (S n). by eapply ends_up.
Qed.

(** An accepted parent exists, and its chain ends without meeting the Task. *)
Lemma accepted_parent_ends tree taskId parentId :
  validateParentReference tree taskId parentId = Ok tt -> parentId <> "" -> exists n, ends tree taskId n parentId.
Proof.
  unfold validateParentReference. intros H Hne. do 3 (case_cond_in H; [done|]).
  destruct (parentWalk _ _ _ _ _) eqn:Ew; try done.
  - apply (parentWalk_end _ _ _ _ _ Ew). simpl. by destruct (String.eqb_spec parentId "").
  - by apply parentFuel_enough in Ew.
Qed.

(** A chain that avoids a Task is not changed by a write of the Task. *)
Definition placed (tree : TaskTree) (taskId : string) (r : AppTaskResource) : TaskTree :=
  with_resources (obj_set taskId r (resources tree)) tree.

Lemma up_placed_ne tree taskId r id : id <> taskId -> up (placed tree taskId r) id = up tree id.
Proof. intros H. unfold up, parentOf, placed. simpl. by rewrite obj_get_set_ne. Qed.

Lemma up_placed_eq tree taskId r : up (placed tree taskId r) taskId = nonempty (Some (spec_parentId (spec r))).
Proof. unfold up, parentOf, placed. simpl. by rewrite obj_get_set_eq. Qed.

Lemma ends_placed tree taskId r n id : ends tree taskId n id -> rooted (placed tree taskId r) id.
Proof.
  induction 1 as [id Hid Hu|n id p Hid Hu Hn IH]; [apply rooted_here|eapply rooted_up; [|exact IH]];
    by rewrite up_placed_ne.
Qed.

(** Containment is acyclic and stays so: when every chain of parents of a
    tree ends, and the reconciler accepts a parent for a Task, the chains still
    end after the Task was placed under that parent, for a new Task as for one
    that moves.  The accepted parent is a Task or group of the tree, is not the
    Task itself and is not below it. *)
Theorem containment_stays_acyclic tree taskId r
    (Hacyclic : acyclic tree)
    (Hparent : spec_parentId (spec r) <> "")
    (Haccepted : validateParentReference tree taskId (spec_parentId (spec r)) = Ok tt) :
  acyclic (placed tree taskId r) /\
  (exists n, ends tree taskId n (spec_parentId (spec r))) /\
  (obj_has (spec_parentId (spec r)) (resources tree) || obj_has (spec_parentId (spec r)) (groups tree)) = true.
Proof.
  destruct (accepted_parent_ends _ _ _ Haccepted Hparent) as [n Hn]. split_ands; [|by exists n|].
  - assert (rooted (placed tree taskId r) taskId) as Ht.
    { eapply rooted_up; [|by eapply ends_placed]. rewrite up_placed_eq. simpl. by destruct (String.eqb_spec (spec_parentId (spec r)) ""). }
    intros id. induction (Hacyclic id) as [id Hu|id p Hu Hp IH]; destruct (decide (id = taskId)) as [->|Hne]; try done.
    + apply rooted_here. by rewrite up_placed_ne.
    + eapply rooted_up; [|exact IH]. by rewrite up_placed_ne.
  - unfold validateParentReference in Haccepted. case_cond_in Haccepted; [done|].
    destruct (obj_has _ (resources tree)), (obj_has _ (groups tree)); done.
Qed.

(** ** A concrete tree: moving a Task to the root *)

Definition node (id parent : string) : AppTaskResource :=
  mkResource (mkMetadata id None 1 1 None)
    (mkSpec parent "ship it" ["tests pass"] None None None None None None None None None)
    (mkStatus 0 pending None None None None None (Some None) None None None None false None None None None None None "").

Definition small_tree : TaskTree :=
  mkTree (Some 1) None None None (Some "root") []
    [("a", node "a" "root"); ("b", node "b" "a")] [] [] [] [] []
    [("root", mkGroup "root" None None)].

Lemma small_tree_acyclic : acyclic small_tree.
Proof.
  assert (rooted small_tree "root") as Hr by (apply rooted_here; reflexivity).
  assert (rooted small_tree "a") as Ha by (apply (rooted_up _ "a" "root"); [reflexivity|done]).
  intros id. destruct (decide (id = "a")) as [->|Na]; [done|].
  destruct (decide (id = "b")) as [->|Nb]; [apply (rooted_up _ "b" "a"); [reflexivity|done]|].
  destruct (decide (id = "root")) as [->|Nr]; [done|].
  apply rooted_here. unfold up, parentOf. cbn [small_tree resources groups obj_get].
  repeat (rewrite (proj2 (String.eqb_neq _ _)) by done). done.
Qed.

(** The Task [b] moves from [a] to the root; [a] may not move below [b]. *)
Lemma containment_stays_acyclic_witness :
  acyclic (placed small_tree "b" (node "b" "root")) /\
  is_ok (validateParentReference small_tree "a" "b") = false.
Proof.
  split; [|reflexivity].
  apply (containment_stays_acyclic small_tree "b" (node "b" "root") small_tree_acyclic); [done|reflexivity].
Defined.

End Containment.
