(* ===== verification/Effects.v ===== *)
(** Programs over a state with classified errors, for the components that read
    and write other tables than those of the Task resource store.

    [E S A] is a function from the state to an outcome and the next state.  An
    error carries the class the source tests with [instanceof] and the message
    it builds.  As in the source, a statement that was executed before a throw
    stays executed unless the throw leaves a transaction ([atomic]). *)
From S2P Require Import Prelude.

Module Effects.

(** The error classes that handlers distinguish. *)
Inductive ErrorClass : Type :=
| PlainError
| AppTaskAdmissionError
| AppTaskRevisionAdmissionError
| ConversationRequestConflict
| ApprovalValidationError.

#[export] Instance ErrorClass_eq_dec : EqDecision ErrorClass.
Proof. solve_decision. Defined.

(** [error instanceof AppTaskAdmissionError]: the revision error extends it. *)
Definition isAdmissionError (c : ErrorClass) : bool :=
  match c with AppTaskAdmissionError | AppTaskRevisionAdmissionError => true | _ => false end.

Inductive out (A : Type) : Type :=
| Done (a : A)
| Raise (class : ErrorClass) (message : string).
Arguments Done {A} a.
Arguments Raise {A} class message.

Definition is_done {A} (o : out A) : bool := match o with Done _ => true | Raise _ _ => false end.

Definition of_res {A} (r : res A) : out A := match r with Ok a => Done a | Throw e => Raise PlainError e end.

Definition E (S A : Type) : Type := S -> out A * S.

#[export] Instance E_ret S : MRet (E S) := fun A a s => (Done a, s).
#[export] Instance E_bind S : MBind (E S) := fun A B f m s =>
  match m s with (Done a, s') => f a s' | (Raise c e, s') => (Raise c e, s') end.

Definition throw {S A} (message : string) : E S A := fun s => (Raise PlainError message, s).
Definition throwClass {S A} (c : ErrorClass) (message : string) : E S A := fun s => (Raise c message, s).
Definition reads {S A} (f : S -> A) : E S A := fun s => (Done (f s), s).
Definition asks {S A} (f : S -> res A) : E S A := fun s => (of_res (f s), s).
Definition checks {S A} (r : res A) : E S A := fun s => (of_res r, s).
Definition computes {S A} (o : out A) : E S A := fun s => (o, s).
Definition writes {S} (f : S -> S) : E S unit := fun s => (Done tt, f s).

(** An [UPDATE]: the new state and the number of changed rows. *)
Definition updates {S} (f : S -> Z * S) : E S Z := fun s => let '(n, s') := f s in (Done n, s').

(** [try { m } catch (e) { handler e }]. *)
Definition catching {S A} (m : E S A) (handler : ErrorClass -> string -> E S A) : E S A := fun s =>
  match m s with
  | (Done a, s') => (Done a, s')
  | (Raise c e, s') => handler c e s'
  end.

(** [stateTransaction]: all or nothing. *)
Definition atomic {S A} (m : E S A) : E S A := fun s =>
  match m s with
  | (Done a, s') => (Done a, s')
  | (Raise c e, _) => (Raise c e, s)
  end.

(** A program of a component run on the part of the state it owns. *)
Definition zoom {S T A} (get : S -> T) (set : T -> S -> S) (m : E T A) : E S A := fun s =>
  let '(r, t) := m (get s) in (r, set t s).

Fixpoint for_each {S A} (f : A -> E S unit) (l : list A) : E S unit :=
  match l with
  | [] => mret tt
  | a :: l => f a ≫= fun _ => for_each f l
  end.

(** ** Inversion of runs *)

Lemma bind_run {S A B} (m : E S A) (f : A -> E S B) s b s' :
  (m ≫= f) s = (Done b, s') -> exists a s1, m s = (Done a, s1) /\ f a s1 = (Done b, s').
Proof. unfold mbind, E_bind. destruct (m s) as [[a|c e] s1]; [eauto|done]. Qed.

Lemma bind_done {S A B} (m : E S A) (k : A -> E S B) s a s' : m s = (Done a, s') -> (m ≫= k) s = k a s'.
Proof. intros H. unfold mbind, E_bind. by rewrite H. Qed.

Lemma bind_raise {S A B} (m : E S A) (k : A -> E S B) s c e s' : m s = (Raise c e, s') -> (m ≫= k) s = (Raise c e, s').
Proof. intros H. unfold mbind, E_bind. by rewrite H. Qed.

Lemma atomic_done {S A} (m : E S A) s a s' : atomic m s = (Done a, s') -> m s = (Done a, s').
Proof. unfold atomic. by destruct (m s) as [[a0|c e] s1]. Qed.

Lemma atomic_raise {S A} (m : E S A) s c e s' : atomic m s = (Raise c e, s') -> s' = s.
Proof. unfold atomic. destruct (m s) as [[a0|c0 e0] s1]; intros H; [done|by injection H]. Qed.

Lemma bind_reads {S A B} (f : S -> A) (k : A -> E S B) s : (reads f ≫= k) s = k (f s) s.
Proof. done. Qed.

Lemma asks_bind {S A B} (f : S -> res A) (k : A -> E S B) s :
  (asks f ≫= k) s = match f s with Ok a => k a s | Throw e => (Raise PlainError e, s) end.
Proof. unfold mbind, E_bind, asks. by destruct (f s). Qed.

Lemma checks_bind {S A B} (r : res A) (k : A -> E S B) s :
  (checks r ≫= k) s = match r with Ok a => k a s | Throw e => (Raise PlainError e, s) end.
Proof. unfold mbind, E_bind, checks. by destruct r. Qed.

Lemma updates_bind {S B} (f : S -> Z * S) (k : Z -> E S B) s : (updates f ≫= k) s = k (f s).1 (f s).2.
Proof. unfold mbind, E_bind, updates. by destruct (f s). Qed.

Lemma writes_bind {S B} (f : S -> S) (k : unit -> E S B) s : (writes f ≫= k) s = k tt (f s).
Proof. done. Qed.

(** A program that only reads leaves the state of the one before it. *)
Lemma bind_reading {S A B} (m : E S A) (k : A -> E S B) s :
  (forall a s', (k a s').2 = s') -> ((m ≫= k) s).2 = (m s).2.
Proof. intros Hk. unfold mbind, E_bind. destruct (m s) as [[a|c e] s']; [apply Hk|done]. Qed.

(** ** Programs that keep an invariant

    [keeps P m]: whether it returns or throws, the program ends in a state that
    satisfies [P] when it started in one. *)
Definition keeps {S A} (P : S -> Prop) (m : E S A) : Prop := forall s, P s -> P (m s).2.

Section Keeps.
Context {S : Type} (P : S -> Prop).

Lemma done_keeps {A} (a : A) : keeps P (mret a : E S A).
Proof. by intros s. Qed.
Lemma keeps_throw {A} e : keeps P (throw e : E S A).
Proof. by intros s. Qed.
Lemma keeps_throwClass {A} c e : keeps P (throwClass c e : E S A).
Proof. by intros s. Qed.
Lemma keeps_reads {A} (f : S -> A) : keeps P (reads f).
Proof. by intros s. Qed.
Lemma keeps_asks {A} (f : S -> res A) : keeps P (asks f).
Proof. by intros s. Qed.
Lemma keeps_checks {A} (r : res A) : keeps P (checks r).
Proof. by intros s. Qed.
Lemma keeps_computes {A} (o : out A) : keeps P (computes o).
Proof. by intros s. Qed.
Lemma keeps_writes f : (forall s, P s -> P (f s)) -> keeps P (writes f).
Proof. intros H s Hs. by apply H. Qed.
Lemma keeps_updates f : (forall s, P s -> P (f s).2) -> keeps P (updates f).
Proof. intros H s Hs. unfold updates. specialize (H s Hs). by destruct (f s). Qed.

Lemma bind_keeps {A B} (m : E S A) (f : A -> E S B) : keeps P m -> (forall a, keeps P (f a)) -> keeps P (m ≫= f).
Proof.
  intros Hm Hf s Hs. specialize (Hm s Hs). unfold mbind, E_bind. destruct (m s) as [[a|c e] s']; [by apply Hf|done].
Qed.

Lemma keeps_catching {A} (m : E S A) h : keeps P m -> (forall c e, keeps P (h c e)) -> keeps P (catching m h).
Proof.
  intros Hm Hh s Hs. specialize (Hm s Hs). unfold catching. destruct (m s) as [[a|c e] s']; [done|by apply Hh].
Qed.

Lemma keeps_atomic {A} (m : E S A) : keeps P m -> keeps P (atomic m).
Proof. intros Hm s Hs. specialize (Hm s Hs). unfold atomic. by destruct (m s) as [[a|c e] s']. Qed.

Lemma keeps_for_each {A} (f : A -> E S unit) l : (forall a, keeps P (f a)) -> keeps P (for_each f l).
Proof. intros Hf. induction l; [apply done_keeps|]. apply bind_keeps; [done|]. by intros []. Qed.

End Keeps.

#[export] Hint Resolve done_keeps keeps_throw keeps_throwClass keeps_reads keeps_asks keeps_checks keeps_computes : may.

(** Walks the structure of a program; what remains are the writes. *)
Ltac keeps_walk :=
  repeat first
    [ progress auto with may
    | apply bind_keeps; [|intros ?]
    | apply keeps_catching; [|intros ? ?]
    | apply keeps_atomic
    | apply keeps_for_each; intros ?
    | match goal with
      | |- keeps _ (if ?b then _ else _) => destruct b eqn:?
      | |- keeps _ (match ?x with _ => _ end) => destruct x eqn:?
      end ].

End Effects.
