(* ===== verification/Keyset.v ===== *)
(** Keyset pagination, for the queries that continue after the last row they
    returned: [WHERE key > cursor ORDER BY key LIMIT n].

    [R] orders the rows by their key.  The rows of one table have distinct keys,
    so what lies strictly after a row is exactly the rest of the listing. *)
From S2P Require Import Prelude.

Module Keyset.

Section Keyset.
Context {A : Type} (R : relation A) `{!RelDecision R, !Total R, !Transitive R}.

(** Rows strictly after another one. *)
Definition after (x e : A) : Prop := ~ R e x.
#[export] Instance after_dec x e : Decision (after x e).
Proof. unfold after. apply _. Defined.

(** A listing: sorted, and every row comes once and with its own key. *)
Record listing (l : list A) : Prop := {
  ls_sorted : StronglySorted R l;
  ls_distinct : NoDup l;
  ls_antisym : forall a b, a ∈ l -> b ∈ l -> R a b -> R b a -> a = b }.

Lemma listing_sort (rows : list A) :
  NoDup rows -> (forall a b, a ∈ rows -> b ∈ rows -> R a b -> R b a -> a = b) -> listing (merge_sort R rows).
Proof.
  intros Hnd Ha. split.
  - apply (StronglySorted_merge_sort R).
  - by rewrite (merge_sort_Permutation R).
  - intros a b. rewrite !(merge_sort_Permutation R). apply Ha.
Qed.

Lemma listing_filter (P : A -> Prop) `{forall x, Decision (P x)} l : listing l -> listing (filter P l).
Proof.
  intros [Hs Hd Ha]. split.
  - clear Hd Ha. induction Hs as [|e l Hl IH He]; [constructor|]. rewrite filter_cons. case_decide; [|done].
    constructor; [done|]. rewrite Forall_forall in *. intros x [_ Hx]%list_elem_of_filter. auto.
  - eapply sublist_NoDup; [exact Hd|]. apply sublist_filter.
  - intros a b [_ ?]%list_elem_of_filter [_ ?]%list_elem_of_filter. auto.
Qed.

(** Filtering before the sort or after it lists the same rows. *)
Lemma filter_of_sorted (rows : list A) (P Q : A -> Prop) `{forall x, Decision (P x), forall x, Decision (Q x)} :
  NoDup rows -> (forall a b, a ∈ rows -> b ∈ rows -> R a b -> R b a -> a = b) ->
  merge_sort R (filter (fun x => P x /\ Q x) rows) = filter Q (merge_sort R (filter P rows)).
Proof.
  intros Hnd Ha. apply (StronglySorted_unique_strong R).
  - intros x y Hx Hy. rewrite (merge_sort_Permutation R) in Hx. apply list_elem_of_filter in Hx as [_ Hx].
    apply list_elem_of_filter in Hy as [_ Hy]. rewrite (merge_sort_Permutation R) in Hy.
    apply list_elem_of_filter in Hy as [_ Hy]. by apply Ha.
  - apply (StronglySorted_merge_sort R).
  - apply listing_filter, listing_sort.
    + eapply sublist_NoDup; [exact Hnd|]. apply sublist_filter.
    + intros a b [_ ?]%list_elem_of_filter [_ ?]%list_elem_of_filter. auto.
  - rewrite (merge_sort_Permutation R). rewrite (merge_sort_Permutation R), list_filter_filter.
    rewrite (list_filter_iff _ (fun x => Q x /\ P x)); [done|]. tauto.
Qed.

(** What lies strictly after a row of the listing is the rest of it. *)
Lemma filter_beyond l1 x l2 : listing (l1 ++ x :: l2) -> filter (after x) (l1 ++ x :: l2) = l2.
Proof.
  intros [Hs Hd Ha]. rewrite filter_app, filter_cons_False.
  2:{ unfold after. intros Hn. apply Hn. by destruct (total R x x). }
  assert (filter (after x) l1 = []) as ->.
  { apply filter_nil_iff. intros e He Hn. apply Hn.
    eapply (StronglySorted_app_1_elem_of R); [exact Hs|done|by left]. }
  simpl. assert (forall e, e ∈ l2 -> after x e) as Hall.
  { intros e He Hle. apply StronglySorted_app_1_r in Hs. inversion Hs as [|? ? _ Hx]; subst.
    rewrite Forall_forall in Hx. assert (x = e) as <-.
    { apply Ha; [set_solver|set_solver|by apply Hx|done]. }
    apply NoDup_app in Hd as (_ & _ & Hd). by apply NoDup_cons in Hd as [? _]. }
  clear -Hall. induction l2 as [|e l2 IH]; [done|]. rewrite filter_cons_True by (apply Hall; set_solver).
  f_equal. apply IH. set_solver.
Qed.

(** The same, for a cursor that is the last row of what was read. *)
Lemma filter_after_last l1 l2 x : last l1 = Some x -> listing (l1 ++ l2) -> filter (after x) (l1 ++ l2) = l2.
Proof. intros [l ->]%last_Some Hl. rewrite <- app_assoc in *. by apply filter_beyond. Qed.

End Keyset.
End Keyset.
