(* ===== verification/InboxStore.v ===== *)
(** The App inbox ([src/app/core/state/app-inbox-store.ts], schema
    [src/lib/db/app-inbox-schema.ts]): the durable rows of accepted App input,
    their admission under an idempotency key, the failure evidence that paces
    recovery, and the listings and counts that other components read.

    A row is split into the columns only [INSERT] writes ([InboxIdentity]) and
    those statements update later ([InboxState]).  JSON columns hold the value
    they encode.  Row ids, Apps and keys compare by code unit, as the binary
    collation of SQLite does. *)
From S2P Require Import Prelude Json TaskState TaskTree Transaction ResourceStore StoreInvariant Snapshot Context.
From S2P Require Import Approval Conditions Records TaskInputs TaskEvents Effects.

Module InboxStore.
Import Effects.

(** ** Rows *)

Inductive AppInboxStatus : Type := i_pending | i_handling | i_done.

#[export] Instance AppInboxStatus_eq_dec : EqDecision AppInboxStatus.
Proof. solve_decision. Defined.

Record AppResult : Type := mkAppResult {
  ar_summary : string;
  ar_response : option string;
  ar_result : option (obj json);
  ar_facts : option (list string) }.

(** Input execution facts.  The decision of a Conversation turn is opaque here. *)
Inductive AppInboxHandling : Type :=
| h_executing
| h_decided (decision : json) (requestRevisions : option (obj Z))
| h_failed (reason : string)
| h_stopped (reason : string).

Inductive AppInboxRecoveryStage : Type := input_admission | input_result | input_feedback.

#[export] Instance AppInboxRecoveryStage_eq_dec : EqDecision AppInboxRecoveryStage.
Proof. solve_decision. Defined.

Definition stageName (s : AppInboxRecoveryStage) : string :=
  match s with
  | input_admission => "input-admission"
  | input_result => "input-result"
  | input_feedback => "input-feedback"
  end.

Record AppInboxRecoveryFailure : Type := mkFailure {
  rf_failures : Z;
  rf_fingerprint : string;
  rf_observationFingerprint : option string;
  rf_error : string;
  rf_firstFailedAt : Z;
  rf_lastFailedAt : Z;
  rf_retryAt : Z;
  rf_reportedAt : option Z;
  rf_recoveredAt : option Z }.

(** The failures by stage name. *)
Definition AppInboxRecovery : Type := obj AppInboxRecoveryFailure.

Record AppInputSource : Type := mkSource { src_kind : string; src_id : string }.
Record AppInput : Type := mkInput { inp_kind : string; inp_data : json }.

(** The columns written once. *)
Record InboxIdentity : Type := mkIdentity {
  c_id : string;
  c_app_id : string;
  c_creator : option ResourceCreator;
  c_parent_id : option string;
  c_target_task_id : option string;
  c_continues_request_id : option string;
  c_conversation_id : option string;
  c_conversation_seq : option Z;
  c_channel : option string;
  c_channel_target_id : option string;
  c_channel_thread_id : option string;
  c_channel_message_id : option Z;
  c_reply_to_source_id : option string;
  c_source : AppInputSource;
  c_input : AppInput;
  c_idempotency_key : option string;
  c_created_at : Z }.

(** The columns statements update. *)
Record InboxState : Type := mkState {
  c_topic_id : option string;
  c_status : AppInboxStatus;
  c_session_id : option string;
  c_waiting_on_kind : option string;
  c_waiting_on_id : option string;
  c_task_admission_key : option string;
  c_execution_task_id : option string;
  c_result : option AppResult;
  c_handling : option AppInboxHandling;
  c_recovery : option AppInboxRecovery;
  c_available_at : option Z;
  c_review_at : option Z;
  c_lease_generation : Z;
  c_lease_owner : option string;
  c_lease_expires_at : option Z;
  c_origin_event_id : option Z;
  c_started_at : option Z;
  c_changed_at : option Z;
  c_updated_at : Z;
  c_completed_at : option Z }.

Definition set_topic_id (x : option string) (c : InboxState) : InboxState :=
  mkState x (c_status c) (c_session_id c) (c_waiting_on_kind c) (c_waiting_on_id c) (c_task_admission_key c)
  (c_execution_task_id c) (c_result c) (c_handling c) (c_recovery c) (c_available_at c) (c_review_at c)
  (c_lease_generation c) (c_lease_owner c) (c_lease_expires_at c) (c_origin_event_id c) (c_started_at c)
  (c_changed_at c) (c_updated_at c) (c_completed_at c).
Definition set_status (x : AppInboxStatus) (c : InboxState) : InboxState :=
  mkState (c_topic_id c) x (c_session_id c) (c_waiting_on_kind c) (c_waiting_on_id c) (c_task_admission_key c)
  (c_execution_task_id c) (c_result c) (c_handling c) (c_recovery c) (c_available_at c) (c_review_at c)
  (c_lease_generation c) (c_lease_owner c) (c_lease_expires_at c) (c_origin_event_id c) (c_started_at c)
  (c_changed_at c) (c_updated_at c) (c_completed_at c).
Definition set_session_id (x : option string) (c : InboxState) : InboxState :=
  mkState (c_topic_id c) (c_status c) x (c_waiting_on_kind c) (c_waiting_on_id c) (c_task_admission_key c)
  (c_execution_task_id c) (c_result c) (c_handling c) (c_recovery c) (c_available_at c) (c_review_at c)
  (c_lease_generation c) (c_lease_owner c) (c_lease_expires_at c) (c_origin_event_id c) (c_started_at c)
  (c_changed_at c) (c_updated_at c) (c_completed_at c).
Definition set_waiting_on_kind (x : option string) (c : InboxState) : InboxState :=
  mkState (c_topic_id c) (c_status c) (c_session_id c) x (c_waiting_on_id c) (c_task_admission_key c)
  (c_execution_task_id c) (c_result c) (c_handling c) (c_recovery c) (c_available_at c) (c_review_at c)
  (c_lease_generation c) (c_lease_owner c) (c_lease_expires_at c) (c_origin_event_id c) (c_started_at c)
  (c_changed_at c) (c_updated_at c) (c_completed_at c).
Definition set_waiting_on_id (x : option string) (c : InboxState) : InboxState :=
  mkState (c_topic_id c) (c_status c) (c_session_id c) (c_waiting_on_kind c) x (c_task_admission_key c)
  (c_execution_task_id c) (c_result c) (c_handling c) (c_recovery c) (c_available_at c) (c_review_at c)
  (c_lease_generation c) (c_lease_owner c) (c_lease_expires_at c) (c_origin_event_id c) (c_started_at c)
  (c_changed_at c) (c_updated_at c) (c_completed_at c).
Definition set_task_admission_key (x : option string) (c : InboxState) : InboxState :=
  mkState (c_topic_id c) (c_status c) (c_session_id c) (c_waiting_on_kind c) (c_waiting_on_id c) x
  (c_execution_task_id c) (c_result c) (c_handling c) (c_recovery c) (c_available_at c) (c_review_at c)
  (c_lease_generation c) (c_lease_owner c) (c_lease_expires_at c) (c_origin_event_id c) (c_started_at c)
  (c_changed_at c) (c_updated_at c) (c_completed_at c).
Definition set_execution_task_id (x : option string) (c : InboxState) : InboxState :=
  mkState (c_topic_id c) (c_status c) (c_session_id c) (c_waiting_on_kind c) (c_waiting_on_id c)
  (c_task_admission_key c) x (c_result c) (c_handling c) (c_recovery c) (c_available_at c) (c_review_at c)
  (c_lease_generation c) (c_lease_owner c) (c_lease_expires_at c) (c_origin_event_id c) (c_started_at c)
  (c_changed_at c) (c_updated_at c) (c_completed_at c).
Definition set_result (x : option AppResult) (c : InboxState) : InboxState :=
  mkState (c_topic_id c) (c_status c) (c_session_id c) (c_waiting_on_kind c) (c_waiting_on_id c)
  (c_task_admission_key c) (c_execution_task_id c) x (c_handling c) (c_recovery c) (c_available_at c)
  (c_review_at c) (c_lease_generation c) (c_lease_owner c) (c_lease_expires_at c) (c_origin_event_id c)
  (c_started_at c) (c_changed_at c) (c_updated_at c) (c_completed_at c).
Definition set_handling (x : option AppInboxHandling) (c : InboxState) : InboxState :=
  mkState (c_topic_id c) (c_status c) (c_session_id c) (c_waiting_on_kind c) (c_waiting_on_id c)
  (c_task_admission_key c) (c_execution_task_id c) (c_result c) x (c_recovery c) (c_available_at c)
  (c_review_at c) (c_lease_generation c) (c_lease_owner c) (c_lease_expires_at c) (c_origin_event_id c)
  (c_started_at c) (c_changed_at c) (c_updated_at c) (c_completed_at c).
Definition set_recovery (x : option AppInboxRecovery) (c : InboxState) : InboxState :=
  mkState (c_topic_id c) (c_status c) (c_session_id c) (c_waiting_on_kind c) (c_waiting_on_id c)
  (c_task_admission_key c) (c_execution_task_id c) (c_result c) (c_handling c) x (c_available_at c)
  (c_review_at c) (c_lease_generation c) (c_lease_owner c) (c_lease_expires_at c) (c_origin_event_id c)
  (c_started_at c) (c_changed_at c) (c_updated_at c) (c_completed_at c).
Definition set_available_at (x : option Z) (c : InboxState) : InboxState :=
  mkState (c_topic_id c) (c_status c) (c_session_id c) (c_waiting_on_kind c) (c_waiting_on_id c)
  (c_task_admission_key c) (c_execution_task_id c) (c_result c) (c_handling c) (c_recovery c) x (c_review_at c)
  (c_lease_generation c) (c_lease_owner c) (c_lease_expires_at c) (c_origin_event_id c) (c_started_at c)
  (c_changed_at c) (c_updated_at c) (c_completed_at c).
Definition set_review_at (x : option Z) (c : InboxState) : InboxState :=
  mkState (c_topic_id c) (c_status c) (c_session_id c) (c_waiting_on_kind c) (c_waiting_on_id c)
  (c_task_admission_key c) (c_execution_task_id c) (c_result c) (c_handling c) (c_recovery c)
  (c_available_at c) x (c_lease_generation c) (c_lease_owner c) (c_lease_expires_at c) (c_origin_event_id c)
  (c_started_at c) (c_changed_at c) (c_updated_at c) (c_completed_at c).
Definition set_lease_generation (x : Z) (c : InboxState) : InboxState :=
  mkState (c_topic_id c) (c_status c) (c_session_id c) (c_waiting_on_kind c) (c_waiting_on_id c)
  (c_task_admission_key c) (c_execution_task_id c) (c_result c) (c_handling c) (c_recovery c)
  (c_available_at c) (c_review_at c) x (c_lease_owner c) (c_lease_expires_at c) (c_origin_event_id c)
  (c_started_at c) (c_changed_at c) (c_updated_at c) (c_completed_at c).
Definition set_lease_owner (x : option string) (c : InboxState) : InboxState :=
  mkState (c_topic_id c) (c_status c) (c_session_id c) (c_waiting_on_kind c) (c_waiting_on_id c)
  (c_task_admission_key c) (c_execution_task_id c) (c_result c) (c_handling c) (c_recovery c)
  (c_available_at c) (c_review_at c) (c_lease_generation c) x (c_lease_expires_at c) (c_origin_event_id c)
  (c_started_at c) (c_changed_at c) (c_updated_at c) (c_completed_at c).
Definition set_lease_expires_at (x : option Z) (c : InboxState) : InboxState :=
  mkState (c_topic_id c) (c_status c) (c_session_id c) (c_waiting_on_kind c) (c_waiting_on_id c)
  (c_task_admission_key c) (c_execution_task_id c) (c_result c) (c_handling c) (c_recovery c)
  (c_available_at c) (c_review_at c) (c_lease_generation c) (c_lease_owner c) x (c_origin_event_id c)
  (c_started_at c) (c_changed_at c) (c_updated_at c) (c_completed_at c).
Definition set_origin_event_id (x : option Z) (c : InboxState) : InboxState :=
  mkState (c_topic_id c) (c_status c) (c_session_id c) (c_waiting_on_kind c) (c_waiting_on_id c)
  (c_task_admission_key c) (c_execution_task_id c) (c_result c) (c_handling c) (c_recovery c)
  (c_available_at c) (c_review_at c) (c_lease_generation c) (c_lease_owner c) (c_lease_expires_at c) x
  (c_started_at c) (c_changed_at c) (c_updated_at c) (c_completed_at c).
Definition set_started_at (x : option Z) (c : InboxState) : InboxState :=
  mkState (c_topic_id c) (c_status c) (c_session_id c) (c_waiting_on_kind c) (c_waiting_on_id c)
  (c_task_admission_key c) (c_execution_task_id c) (c_result c) (c_handling c) (c_recovery c)
  (c_available_at c) (c_review_at c) (c_lease_generation c) (c_lease_owner c) (c_lease_expires_at c)
  (c_origin_event_id c) x (c_changed_at c) (c_updated_at c) (c_completed_at c).
Definition set_changed_at (x : option Z) (c : InboxState) : InboxState :=
  mkState (c_topic_id c) (c_status c) (c_session_id c) (c_waiting_on_kind c) (c_waiting_on_id c)
  (c_task_admission_key c) (c_execution_task_id c) (c_result c) (c_handling c) (c_recovery c)
  (c_available_at c) (c_review_at c) (c_lease_generation c) (c_lease_owner c) (c_lease_expires_at c)
  (c_origin_event_id c) (c_started_at c) x (c_updated_at c) (c_completed_at c).
Definition set_updated_at (x : Z) (c : InboxState) : InboxState :=
  mkState (c_topic_id c) (c_status c) (c_session_id c) (c_waiting_on_kind c) (c_waiting_on_id c)
  (c_task_admission_key c) (c_execution_task_id c) (c_result c) (c_handling c) (c_recovery c)
  (c_available_at c) (c_review_at c) (c_lease_generation c) (c_lease_owner c) (c_lease_expires_at c)
  (c_origin_event_id c) (c_started_at c) (c_changed_at c) x (c_completed_at c).
Definition set_completed_at (x : option Z) (c : InboxState) : InboxState :=
  mkState (c_topic_id c) (c_status c) (c_session_id c) (c_waiting_on_kind c) (c_waiting_on_id c)
  (c_task_admission_key c) (c_execution_task_id c) (c_result c) (c_handling c) (c_recovery c)
  (c_available_at c) (c_review_at c) (c_lease_generation c) (c_lease_owner c) (c_lease_expires_at c)
  (c_origin_event_id c) (c_started_at c) (c_changed_at c) (c_updated_at c) x.

Record InboxRow : Type := mkRow { ident : InboxIdentity; state : InboxState }.

(** The table, by its primary key. *)
Abbreviation inbox := (gmap string InboxRow).

(** ** Items *)

Record InboxWait : Type := mkWait { wt_kind : string; wt_id : string }.
Record InboxLease : Type := mkLease { ls_generation : Z; ls_owner : string; ls_expiresAt : Z }.

Record AppInboxItem : Type := mkItem {
  it_id : string;
  it_appId : string;
  it_creator : option ResourceCreator;
  it_parentId : option string;
  it_targetTaskId : option string;
  it_topicId : option string;
  it_continuesRequestId : option string;
  it_conversationId : option string;
  it_conversationSequence : option Z;
  it_channel : option string;
  it_channelTargetId : option string;
  it_channelThreadId : option string;
  it_channelMessageId : option Z;
  it_replyToSourceId : option string;
  it_source : AppInputSource;
  it_input : AppInput;
  it_status : AppInboxStatus;
  it_sessionId : option string;
  it_waitingOn : option InboxWait;
  it_taskAdmissionKey : option string;
  it_executionTaskId : option string;
  it_result : option AppResult;
  it_handling : option AppInboxHandling;
  it_recovery : option AppInboxRecovery;
  it_availableAt : option Z;
  it_reviewAt : option Z;
  it_lease : option InboxLease;
  it_originEventId : option Z;
  it_idempotencyKey : option string;
  it_createdAt : Z;
  it_startedAt : option Z;
  it_changedAt : Z;
  it_updatedAt : Z;
  it_completedAt : option Z }.

Definition requiredText (value field : string) : res string :=
  if nonblank value then Ok value else Throw ("Invalid App inbox " +:+ field).

(** [optionalText] drops the empty string. *)
Definition optionalText (value : option string) : option string := nonempty value.

#[local] Instance res_bind' : MBind res := fun A B f x => match x with Ok a => f a | Throw e => Throw e end.
#[local] Instance res_ret' : MRet res := @Ok.

Definition rowToItem (row : InboxRow) : res AppInboxItem :=
  let i := ident row in
  let c := state row in
  id ← requiredText (c_id i) "id";
  appId ← requiredText (c_app_id i) "app_id";
  sourceKind ← requiredText (src_kind (c_source i)) "source_kind";
  sourceId ← requiredText (src_id (c_source i)) "source_id";
  inputKind ← requiredText (inp_kind (c_input i)) "input_kind";
  mret (mkItem id appId (c_creator i) (optionalText (c_parent_id i)) (optionalText (c_target_task_id i))
    (optionalText (c_topic_id c)) (optionalText (c_continues_request_id i)) (optionalText (c_conversation_id i))
    (c_conversation_seq i) (optionalText (c_channel i)) (optionalText (c_channel_target_id i))
    (optionalText (c_channel_thread_id i)) (c_channel_message_id i) (optionalText (c_reply_to_source_id i))
    (mkSource sourceKind sourceId) (mkInput inputKind (inp_data (c_input i)))
    (c_status c) (optionalText (c_session_id c))
    (match optionalText (c_waiting_on_kind c), optionalText (c_waiting_on_id c) with
     | Some k, Some w => Some (mkWait k w)
     | _, _ => None
     end)
    (optionalText (c_task_admission_key c)) (optionalText (c_execution_task_id c)) (c_result c) (c_handling c)
    (c_recovery c) (c_available_at c) (c_review_at c)
    (match optionalText (c_lease_owner c), c_lease_expires_at c with
     | Some o, Some e => Some (mkLease (c_lease_generation c) o e)
     | _, _ => None
     end)
    (c_origin_event_id c) (optionalText (c_idempotency_key i)) (c_created_at i) (c_started_at c)
    (default (c_created_at i) (c_changed_at c)) (c_updated_at c) (c_completed_at c)).

Fixpoint rowsToItems (rows : list InboxRow) : res (list AppInboxItem) :=
  match rows with
  | [] => mret []
  | row :: rows => item ← rowToItem row; items ← rowsToItems rows; mret (item :: items)
  end.

(** ** Statements *)

(** [UPDATE app_inbox_items SET ... WHERE id = ? AND cond]. *)
Definition updateWhere (id : string) (cond : InboxRow -> bool) (f : InboxState -> InboxState) (t : inbox) : Z * inbox :=
  match t !! id with
  | Some row => if cond row then (1, <[id := mkRow (ident row) (f (state row))]> t) else (0, t)
  | None => (0, t)
  end.

(** The rows a query selects, in the order of the table. *)
Definition select (P : InboxRow -> bool) (t : inbox) : list InboxRow :=
  filter (fun row => P row = true) (map snd (map_to_list t)).

Definition getAppInboxItem (t : inbox) (id : string) : res (option AppInboxItem) :=
  match t !! id with
  | Some row => item ← rowToItem row; mret (Some item)
  | None => mret None
  end.

(** ** Failure evidence *)

Definition MAX_RECOVERY_ERROR_LENGTH : nat := 1000.

Definition NUL : string := String.String (ascii_of_nat 0) "".

Section Recovery.
Context `{Crypto}.

Definition boundedError (error : string) : string := String.substring 0 MAX_RECOVERY_ERROR_LENGTH error.

Definition failureFingerprint (stage : AppInboxRecoveryStage) (error : string) : string :=
  sha256 (stageName stage +:+ NUL +:+ boundedError error).

(** An unresolved failure of the stage. *)
Definition open_failure (prior : option AppInboxRecoveryFailure) : option AppInboxRecoveryFailure :=
  match prior with
  | Some p => if bool_decide (rf_recoveredAt p = None) then Some p else None
  | None => None
  end.

Definition nextFailure (stage : AppInboxRecoveryStage) (prior : option AppInboxRecoveryFailure) (error : string)
    (now : Z) (observationFingerprint : option string) : AppInboxRecoveryFailure :=
  let failures := match open_failure prior with Some p => rf_failures p + 1 | None => 1 end in
  let fingerprint := failureFingerprint stage error in
  mkFailure failures fingerprint (nonempty observationFingerprint) (boundedError error)
    (match open_failure prior with Some p => rf_firstFailedAt p | None => now end) now
    (now + taskAdmissionRetryDelay failures)
    (match prior with
     | Some p => if String.eqb (rf_fingerprint p) fingerprint then rf_reportedAt p else None
     | None => None
     end) None.

(** The deadline column of a stage. *)
Definition set_due (stage : AppInboxRecoveryStage) (at_ : option Z) (c : InboxState) : InboxState :=
  match stage with input_admission => set_available_at at_ c | _ => set_review_at at_ c end.

Definition priorFailure (item : AppInboxItem) (stage : AppInboxRecoveryStage) : option AppInboxRecoveryFailure :=
  it_recovery item ≫= obj_get (stageName stage).

Definition recordAppInboxRecoveryFailure (inputId : string) (stage : AppInboxRecoveryStage) (error : string) (now : Z)
    (observationFingerprint : option string) : E inbox AppInboxRecoveryFailure :=
  atomic (
    item ← asks (fun t => getAppInboxItem t inputId);
    match item with
    | None => throw ("App inbox item " +:+ inputId +:+ " is missing")
    | Some item =>
        let failure := nextFailure stage (priorFailure item stage) error now observationFingerprint in
        let recovery := obj_set (stageName stage) failure (default [] (it_recovery item)) in
        changed ← updates (updateWhere inputId
          (fun row => negb (bool_decide (c_status (state row) = i_done)) || bool_decide (stage = input_feedback))
          (fun c => c |> set_recovery (Some recovery) |> set_due stage (Some (rf_retryAt failure))
                      |> set_changed_at (Some now) |> set_updated_at now));
        if negb (changed =? 1) then throw ("App inbox item " +:+ inputId +:+ " is no longer recoverable")
        else mret failure
    end).

Definition markAppInboxRecoveryReported (inputId : string) (stage : AppInboxRecoveryStage) (fingerprint : string)
    (now : Z) : E inbox bool :=
  atomic (
    item ← asks (fun t => getAppInboxItem t inputId);
    match item ≫= fun item => (item,.) <$> priorFailure item stage with
    | None => mret false
    | Some (item, prior) =>
        if bool_decide (is_Some (rf_recoveredAt prior)) || negb (String.eqb (rf_fingerprint prior) fingerprint)
        then mret false
        else if bool_decide (is_Some (rf_reportedAt prior)) then mret true
        else
          let reported := mkFailure (rf_failures prior) (rf_fingerprint prior) (rf_observationFingerprint prior)
            (rf_error prior) (rf_firstFailedAt prior) (rf_lastFailedAt prior) (rf_retryAt prior) (Some now)
            (rf_recoveredAt prior) in
          let recovery := obj_set (stageName stage) reported (default [] (it_recovery item)) in
          changed ← updates (updateWhere inputId (fun _ => true)
            (fun c => c |> set_recovery (Some recovery) |> set_changed_at (Some now) |> set_updated_at now));
          mret (changed =? 1)
    end).

Definition resolveAppInboxRecovery (inputId : string) (stage : AppInboxRecoveryStage) (now : Z) : E inbox unit :=
  atomic (
    item ← asks (fun t => getAppInboxItem t inputId);
    match item ≫= fun item => (item,.) <$> priorFailure item stage with
    | None => mret tt
    | Some (item, prior) =>
        if bool_decide (is_Some (rf_recoveredAt prior)) then mret tt
        else
          let recovered := mkFailure (rf_failures prior) (rf_fingerprint prior) (rf_observationFingerprint prior)
            (rf_error prior) (rf_firstFailedAt prior) (rf_lastFailedAt prior) (rf_retryAt prior) (rf_reportedAt prior)
            (Some now) in
          let recovery := obj_set (stageName stage) recovered (default [] (it_recovery item)) in
          _ ← updates (updateWhere inputId (fun _ => true)
            (fun c => c |> set_recovery (Some recovery) |> set_due stage None |> set_changed_at (Some now)
                        |> set_updated_at now));
          mret tt
    end).

End Recovery.

(** ** Listings *)

(** Code units of a text; [\uffff] lies above every code unit of the model. *)
Definition units (s : string) : list Z := map chr (chars s).

Fixpoint units_ltb (a b : list Z) : bool :=
  match a, b with
  | _, [] => false
  | [], _ :: _ => true
  | x :: a, y :: b => (x <? y) || ((x =? y) && units_ltb a b)
  end.

(** [key >= prefix AND key < prefix || '\uffff']. *)
Definition inPrefixRange (prefix key : string) : bool :=
  negb (units_ltb (units key) (units prefix)) && units_ltb (units key) (units prefix ++ [65535]).

(** [ORDER BY idempotency_key, id] and [ORDER BY created_at DESC, id DESC]. *)
Definition byKey (a b : InboxRow) : Prop :=
  let ka := default "" (c_idempotency_key (ident a)) in
  let kb := default "" (c_idempotency_key (ident b)) in
  String.ltb ka kb || (String.eqb ka kb && String.leb (c_id (ident a)) (c_id (ident b))) = true.

Definition newestFirst (a b : InboxRow) : Prop :=
  (c_created_at (ident b) <? c_created_at (ident a)) ||
  ((c_created_at (ident a) =? c_created_at (ident b)) && String.leb (c_id (ident b)) (c_id (ident a))) = true.

Definition oldestFirst (a b : InboxRow) : Prop :=
  (c_created_at (ident a) <? c_created_at (ident b)) ||
  ((c_created_at (ident a) =? c_created_at (ident b)) && String.leb (c_id (ident a)) (c_id (ident b))) = true.

#[export] Instance byKey_dec : RelDecision byKey.
Proof. intros a b. unfold byKey. apply _. Defined.
#[export] Instance newestFirst_dec : RelDecision newestFirst.
Proof. intros a b. unfold newestFirst. apply _. Defined.
#[export] Instance oldestFirst_dec : RelDecision oldestFirst.
Proof. intros a b. unfold oldestFirst. apply _. Defined.

Definition isDone (row : InboxRow) : bool := bool_decide (c_status (state row) = i_done).

Definition columnIs (c : option string) (v : string) : bool := bool_decide (c = Some v).

Definition hasConversationExecutionTask (t : inbox) (appId taskId : string) : bool :=
  existsb (fun row => String.eqb (c_app_id (ident row)) appId && columnIs (c_execution_task_id (state row)) taskId &&
    bool_decide (is_Some (c_conversation_id (ident row)))) (map snd (map_to_list t)).

Definition listAppInboxItemsByIdempotencyPrefix (t : inbox) (sourceAppId prefix : string) : res (list AppInboxItem) :=
  rowsToItems (take 256 (merge_sort byKey (select (fun row =>
    String.eqb (src_kind (c_source (ident row))) "app" && String.eqb (src_id (c_source (ident row))) sourceAppId &&
    match c_idempotency_key (ident row) with Some k => inPrefixRange prefix k | None => false end) t))).

(** A limit argument: an integer within bounds. *)
Definition boundedCount (limit : number) (top : Z) : bool :=
  isSafeInteger limit && (1 <=? number_to_Z limit) && (number_to_Z limit <=? top).

Definition listOpenAppInboxItemsByIdempotencyPrefix (t : inbox) (appId sourceAppId prefix : string)
    (limit : option number) : res (list AppInboxItem) :=
  appId ← requiredText appId "appId";
  sourceAppId ← requiredText sourceAppId "sourceAppId";
  prefix ← requiredText prefix "prefix";
  let limit := default (num 64) limit in
  if negb (boundedCount limit 256) then Throw "App inbox lineage query limit must be an integer from 1 to 256"
  else rowsToItems (take (Z.to_nat (number_to_Z limit)) (merge_sort byKey (select (fun row =>
    String.eqb (c_app_id (ident row)) appId && negb (isDone row) &&
    String.eqb (src_kind (c_source (ident row))) "app" && String.eqb (src_id (c_source (ident row))) sourceAppId &&
    match c_idempotency_key (ident row) with
    | Some k => negb (String.eqb k "") && inPrefixRange prefix k
    | None => false
    end) t))).

(** [AppInboxQuery]; the status is one of the three. *)
Record AppInboxQuery : Type := mkQuery {
  q_appId : option string;
  q_status : option AppInboxStatus;
  q_idempotencyKey : option string;
  q_limit : option number }.

Definition optionalParam (value : option string) (field : string) : res (option string) :=
  match value with Some v => v ← requiredText v field; mret (Some v) | None => mret None end.

Definition listAppInboxItems (t : inbox) (query : AppInboxQuery) : res (list AppInboxItem) :=
  appId ← optionalParam (q_appId query) "appId";
  key ← optionalParam (q_idempotencyKey query) "idempotencyKey";
  let limit := default (num 100) (q_limit query) in
  if negb (boundedCount limit 500) then Throw "App inbox query limit must be an integer from 1 to 500"
  else rowsToItems (take (Z.to_nat (number_to_Z limit)) (merge_sort newestFirst (select (fun row =>
    match appId with Some a => String.eqb (c_app_id (ident row)) a | None => true end &&
    match q_status query with Some s => bool_decide (c_status (state row) = s) | None => true end &&
    match key with Some k => columnIs (c_idempotency_key (ident row)) k && negb (String.eqb k "") | None => true end) t))).

Definition dueAt (now : Z) (at_ : option Z) : bool := match at_ with Some a => a <=? now | None => true end.

Definition listAppInboxItemsWaitingOnTask (t : inbox) (appId taskId : string) (now : Z) (includeDeferred : bool)
    : res (list AppInboxItem) :=
  appId ← requiredText appId "appId";
  taskId ← requiredText taskId "taskId";
  rowsToItems (merge_sort oldestFirst (select (fun row =>
    String.eqb (c_app_id (ident row)) appId && bool_decide (c_status (state row) = i_handling) &&
    columnIs (c_waiting_on_kind (state row)) "task" && columnIs (c_waiting_on_id (state row)) taskId &&
    (includeDeferred || dueAt now (c_review_at (state row)))) t)).

Definition listAppInboxConversationItems (t : inbox) (appId conversationId : string) (limit : number)
    (topicId : option string) : res (list AppInboxItem) :=
  _ ← requiredText appId "appId";
  _ ← requiredText conversationId "conversationId";
  topicId ← optionalParam topicId "topicId";
  if negb (boundedCount limit 200) then Throw "Conversation message limit must be an integer from 1 to 200"
  else rowsToItems (take (Z.to_nat (number_to_Z limit)) (merge_sort newestFirst (select (fun row =>
    String.eqb (c_app_id (ident row)) appId && columnIs (c_conversation_id (ident row)) conversationId &&
    match topicId with Some p => columnIs (c_topic_id (state row)) p | None => true end) t))).

(** *** Task dependencies, by pages *)

Record AppInboxTaskDependencyKey : Type := mkDependencyKey {
  dk_appId : string;
  dk_taskId : string;
  dk_inputId : string;
  dk_admissionKey : option string }.

Record AppInboxTaskDependencyPage : Type := mkDependencyPage {
  dp_items : list AppInboxTaskDependencyKey;
  dp_nextCursor : option AppInboxTaskDependencyKey }.

(** [(app_id, waiting_on_id, id)], compared as a row value. *)
Definition dependencyPosition (row : InboxRow) : string * string * string :=
  (c_app_id (ident row), default "" (c_waiting_on_id (state row)), c_id (ident row)).

Definition position_leb (a b : string * string * string) : bool :=
  let '(a1, a2, a3) := a in
  let '(b1, b2, b3) := b in
  String.ltb a1 b1 || (String.eqb a1 b1 && (String.ltb a2 b2 || (String.eqb a2 b2 && String.leb a3 b3))).

Definition byPosition (a b : InboxRow) : Prop := position_leb (dependencyPosition a) (dependencyPosition b) = true.
#[export] Instance byPosition_dec : RelDecision byPosition.
Proof. intros a b. unfold byPosition. apply _. Defined.

Definition awaitsTask (now : Z) (row : InboxRow) : bool :=
  bool_decide (c_status (state row) = i_handling) && bool_decide (c_lease_owner (state row) = None) &&
  columnIs (c_waiting_on_kind (state row)) "task" && bool_decide (is_Some (c_waiting_on_id (state row))) &&
  dueAt now (c_review_at (state row)).

Definition cursorPosition (after : AppInboxTaskDependencyKey) : string * string * string :=
  (dk_appId after, dk_taskId after, dk_inputId after).

Definition afterPosition (after : option (string * string * string)) (row : InboxRow) : bool :=
  match after with
  | None => true
  | Some c => negb (position_leb (dependencyPosition row) c)
  end.

Definition rowToDependencyKey (row : InboxRow) : res AppInboxTaskDependencyKey :=
  appId ← requiredText (c_app_id (ident row)) "app_id";
  taskId ← requiredText (default "" (c_waiting_on_id (state row))) "waiting_on_id";
  inputId ← requiredText (c_id (ident row)) "id";
  mret (mkDependencyKey appId taskId inputId (optionalText (c_task_admission_key (state row)))).

Fixpoint rowsToDependencyKeys (rows : list InboxRow) : res (list AppInboxTaskDependencyKey) :=
  match rows with
  | [] => mret []
  | row :: rows => key ← rowToDependencyKey row; keys ← rowsToDependencyKeys rows; mret (key :: keys)
  end.

(** The parameters of the clause that continues after a cursor. *)
Definition checkedCursor (after : option AppInboxTaskDependencyKey) : res (option (string * string * string)) :=
  match after with
  | None => mret None
  | Some a =>
      _ ← requiredText (dk_appId a) "after.appId";
      _ ← requiredText (dk_taskId a) "after.taskId";
      _ ← requiredText (dk_inputId a) "after.inputId";
      mret (Some (cursorPosition a))
  end.

Definition listAppInboxTaskDependencyKeys (t : inbox) (after : option AppInboxTaskDependencyKey) (limit : option number)
    (now : Z) : res AppInboxTaskDependencyPage :=
  let limit := default (num 256) limit in
  if negb (boundedCount limit 1000) then
    Throw "App inbox task dependency limit must be an integer from 1 to 1000"
  else
    let n := Z.to_nat (number_to_Z limit) in
    after ← checkedCursor after;
    keys ← rowsToDependencyKeys (take (S n) (merge_sort byPosition
             (select (fun row => awaitsTask now row && afterPosition after row) t)));
    let items := take n keys in
    mret (mkDependencyPage items (if Nat.ltb n (length keys) then last items else None)).

(** *** Health *)

Record AppInboxHealth : Type := mkHealth {
  hl_appId : string;
  hl_total : Z;
  hl_pending : Z;
  hl_handling : Z;
  hl_done : Z;
  hl_ready : Z;
  hl_waitingOnDependency : Z;
  hl_activeLeases : Z;
  hl_expiredLeases : Z;
  hl_oldestPendingAgeMs : option Z;
  hl_oldestHandlingItemAgeMs : option Z }.

(** Another row of the Conversation has an execution Task. *)
Definition conversationOwned (t : inbox) (row : InboxRow) : bool :=
  match c_conversation_id (ident row) with
  | None => false
  | Some cid => existsb (fun owned => String.eqb (c_app_id (ident owned)) (c_app_id (ident row)) &&
      columnIs (c_conversation_id (ident owned)) cid && bool_decide (is_Some (c_execution_task_id (state owned))))
      (map snd (map_to_list t))
  end.

Definition leaseBy (row : InboxRow) (P : Z -> bool) : bool :=
  match c_lease_expires_at (state row) with Some e => P e | None => false end.

Definition isReady (t : inbox) (now : Z) (row : InboxRow) : bool :=
  negb (isDone row) && bool_decide (c_execution_task_id (state row) = None) && negb (conversationOwned t row) &&
  ((bool_decide (c_lease_owner (state row) = None) &&
    match c_available_at (state row) with Some a => a <=? now | None => false end) ||
   leaseBy row (fun e => e <=? now)).

Definition isStatus (s : AppInboxStatus) (row : InboxRow) : bool := bool_decide (c_status (state row) = s).

Definition waitsOnDependency (row : InboxRow) : bool :=
  isStatus i_handling row && bool_decide (c_lease_owner (state row) = None) &&
  bool_decide (is_Some (c_waiting_on_kind (state row))) && bool_decide (is_Some (c_waiting_on_id (state row))).

Definition hasActiveLease (now : Z) (row : InboxRow) : bool :=
  isStatus i_handling row && bool_decide (is_Some (c_lease_owner (state row))) && leaseBy row (fun e => now <? e).

Definition hasExpiredLease (now : Z) (row : InboxRow) : bool :=
  isStatus i_handling row && bool_decide (is_Some (c_lease_owner (state row))) && leaseBy row (fun e => e <=? now).

(** [SUM(CASE WHEN P THEN 1 ELSE 0 END)] and [MIN(CASE WHEN P THEN created_at END)]. *)
Definition countRows (P : InboxRow -> bool) (rows : list InboxRow) : Z :=
  Z.of_nat (length (filter (fun row => P row = true) rows)).

Definition oldest (P : InboxRow -> bool) (rows : list InboxRow) : option Z :=
  foldr (fun row acc => if P row then Some (match acc with Some a => Z.min (c_created_at (ident row)) a
                                                       | None => c_created_at (ident row) end) else acc) None rows.

Definition healthOf (t : inbox) (now : Z) (appId : string) : AppInboxHealth :=
  let rows := select (fun row => String.eqb (c_app_id (ident row)) appId) t in
  let age (at_ : option Z) := (fun a => Z.max 0 (now - a)) <$> at_ in
  mkHealth appId (Z.of_nat (length rows)) (countRows (isStatus i_pending) rows) (countRows (isStatus i_handling) rows)
    (countRows isDone rows) (countRows (isReady t now) rows) (countRows waitsOnDependency rows)
    (countRows (hasActiveLease now) rows) (countRows (hasExpiredLease now) rows)
    (age (oldest (isStatus i_pending) rows)) (age (oldest (isStatus i_handling) rows)).

(** [GROUP BY app_id ORDER BY app_id]. *)
Definition inboxApps (t : inbox) : list string :=
  js_sort (set_of (map (fun row => c_app_id (ident row)) (map snd (map_to_list t)))).

Definition listAppInboxHealth (t : inbox) (appId : option string) (now : Z) : res (list AppInboxHealth) :=
  appId ← optionalParam appId "appId";
  let apps := filter (fun a => match appId with Some x => String.eqb a x | None => true end = true) (inboxApps t) in
  _ ← (fix go (l : list string) : res unit :=
         match l with [] => mret tt | a :: l => _ ← requiredText a "app_id"; go l end) apps;
  mret (map (healthOf t now) apps).

(** ** Creation *)

Record CreateAppInboxItem : Type := mkCreate {
  cr_id : option string;
  cr_appId : string;
  cr_creator : option ResourceCreator;
  cr_parentId : option string;
  cr_targetTaskId : option string;
  cr_topicId : option string;
  cr_conversationId : option string;
  cr_conversationSequence : option number;
  cr_channel : option string;
  cr_channelTargetId : option string;
  cr_channelThreadId : option string;
  cr_channelMessageId : option number;
  cr_replyToSourceId : option string;
  cr_source : AppInputSource;
  cr_input : AppInput;
  cr_originEventId : option number;
  cr_idempotencyKey : option string }.

(** A safe integer of at least [low]. *)
Definition safeFrom (low : Z) (n : number) : bool := isSafeInteger n && (low <=? number_to_Z n).

Definition validateCreator (creator : option ResourceCreator) : res (option string) :=
  match creator with
  | Some c =>
      _ ← requiredText (creator_appId c) "creator.appId";
      optionalParam (creator_taskId c) "creator.taskId"
  | None => mret None
  end.

Definition validateCreate (input : CreateAppInboxItem) : res unit :=
  _ ← requiredText (cr_appId input) "appId";
  _ ← requiredText (src_id (cr_source input)) "source.id";
  _ ← requiredText (inp_kind (cr_input input)) "input.kind";
  _ ← validateCreator (cr_creator input);
  _ ← optionalParam (cr_targetTaskId input) "targetTaskId";
  _ ← optionalParam (cr_topicId input) "topicId";
  if negb (set_has (src_kind (cr_source input)) ["human"; "app"; "system"]) then
    Throw ("Invalid App inbox source kind: " +:+ src_kind (cr_source input))
  else
  let hasConversation := bool_decide (is_Some (cr_conversationId input)) in
  let hasSequence := bool_decide (is_Some (cr_conversationSequence input)) in
  if hasSequence && negb hasConversation then Throw "App inbox conversationSequence requires conversationId"
  else if String.eqb (src_kind (cr_source input)) "human" && negb (Bool.eqb hasConversation hasSequence) then
    Throw "Human App inbox conversationId and conversationSequence must be provided together"
  else if match cr_conversationSequence input with Some n => negb (safeFrom 0 n) | None => false end then
    Throw "App inbox conversationSequence must be a non-negative safe integer"
  else if match cr_channelMessageId input with Some n => negb (safeFrom 1 n) | None => false end then
    Throw "App inbox channelMessageId must be a positive safe integer"
  else if match cr_originEventId input with Some n => negb (safeFrom 1 n) | None => false end then
    Throw "App inbox originEventId must be a positive safe integer"
  else mret tt.

(** The inserted row. *)
Definition newRow (id : string) (now : Z) (input : CreateAppInboxItem) : InboxRow :=
  mkRow
    (mkIdentity id (cr_appId input) (cr_creator input) (cr_parentId input) (cr_targetTaskId input) None
       (cr_conversationId input) (number_to_Z <$> cr_conversationSequence input) (cr_channel input)
       (cr_channelTargetId input) (cr_channelThreadId input) (number_to_Z <$> cr_channelMessageId input)
       (cr_replyToSourceId input) (cr_source input) (cr_input input) (cr_idempotencyKey input) now)
    (mkState (cr_topicId input) i_pending None None None None None None None None (Some now) None 0 None None
       (number_to_Z <$> cr_originEventId input) None (Some now) now None).

(** The two unique indexes. *)
Definition sameIdempotency (a b : InboxIdentity) : bool :=
  match c_idempotency_key a with
  | Some k => negb (String.eqb k "") && columnIs (c_idempotency_key b) k && String.eqb (c_app_id a) (c_app_id b)
  | None => false
  end.

Definition sameSequence (a b : InboxIdentity) : bool :=
  match c_conversation_id a, c_conversation_seq a with
  | Some cid, Some n =>
      columnIs (c_conversation_id b) cid && bool_decide (c_conversation_seq b = Some n) &&
      String.eqb (c_app_id a) (c_app_id b)
  | _, _ => false
  end.

Definition conflicts (a b : InboxIdentity) : bool := sameIdempotency a b || sameSequence a b.

(** [INSERT OR IGNORE]. *)
Definition insertOrIgnore (row : InboxRow) (t : inbox) : Z * inbox :=
  let id := c_id (ident row) in
  if bool_decide (is_Some (t !! id)) || existsb (fun other => conflicts (ident row) (ident other)) (map snd (map_to_list t))
  then (0, t)
  else (1, <[id := row]> t).

Definition existingRow (id : string) (input : CreateAppInboxItem) (t : inbox) : option InboxRow :=
  match nonempty (cr_idempotencyKey input) with
  | Some k => head (select (fun row => String.eqb (c_app_id (ident row)) (cr_appId input) &&
                columnIs (c_idempotency_key (ident row)) k && negb (String.eqb k "")) t)
  | None => t !! id
  end.

(** [isDeepStrictEqual(item.input, input.input)]. *)
Definition sameInput (a b : AppInput) : bool :=
  String.eqb (inp_kind a) (inp_kind b) && deep_eqb (inp_data a) (inp_data b).

Definition matchesRequest (item : AppInboxItem) (input : CreateAppInboxItem) : bool :=
  bool_decide (it_parentId item = cr_parentId input) && bool_decide (it_targetTaskId item = cr_targetTaskId input) &&
  bool_decide (it_topicId item = cr_topicId input) &&
  String.eqb (src_kind (it_source item)) (src_kind (cr_source input)) &&
  String.eqb (src_id (it_source item)) (src_id (cr_source input)) &&
  match cr_creator input with Some c => bool_decide (it_creator item = Some c) | None => true end &&
  sameInput (it_input item) (cr_input input).

(** [createAppInboxItem]; [uuid] is what [randomUUID] returns. *)
Definition createAppInboxItem (uuid : string) (now : Z) (input : CreateAppInboxItem) : E inbox (AppInboxItem * bool) :=
  _ ← checks (validateCreate input);
  let id := default ("app_" +:+ uuid) (cr_id input) in
  changes ← updates (insertOrIgnore (newRow id now input));
  if changes =? 1 then
    item ← asks (fun t => getAppInboxItem t id);
    match item with
    | Some item => mret (item, true)
    | None => throw ("Created App inbox item " +:+ id +:+ " is missing")
    end
  else
    existing ← reads (existingRow id input);
    match existing with
    | None => throw ("App inbox item " +:+ id +:+ " conflicted with an unknown row")
    | Some row =>
        item ← checks (rowToItem row);
        if negb (String.eqb (it_appId item) (cr_appId input)) then
          throw ("App inbox item " +:+ id +:+ " already belongs to App " +:+ it_appId item)
        else if negb (matchesRequest item input) then
          throw ("App inbox idempotency key " +:+ default id (cr_idempotencyKey input) +:+
                 " was reused with different input")
        else
          match cr_originEventId input, it_originEventId item with
          | Some n, Some e =>
              if number_eqb (num e) n then mret (item, false)
              else throw ("App inbox item " +:+ it_id item +:+ " already belongs to event " +:+ show_Z e)
          | Some n, None =>
              _ ← updates (updateWhere (it_id item) (fun row => bool_decide (c_origin_event_id (state row) = None))
                    (fun c => c |> set_origin_event_id (Some (number_to_Z n)) |> set_updated_at now));
              linked ← asks (fun t => getAppInboxItem t (it_id item));
              match linked with
              | Some item => mret (item, false)
              | None => throw ("Linked App inbox item " +:+ it_id item +:+ " is missing")
              end
          | None, _ => mret (item, false)
          end
    end.

End InboxStore.
