(* ===== verification/ConversationRequests.v ===== *)
(** Accepted Requests of a Conversation
    ([src/app/core/state/conversation-requests.ts], schema of the updates in
    [packages/sdk/src/conversation-contract.ts]): revisioned promises to a human
    that are changed only by writers who saw the current revision, and whose
    changes can be sent again. *)
From S2P Require Import Prelude Json TaskState TaskTree Transaction ResourceStore StoreInvariant Snapshot Context.
From S2P Require Import Approval Conditions Records TaskInputs TaskEvents Effects InboxStore.

Module ConversationRequests.
Import Effects InboxStore.

(** ** Data *)

Record TaskRef : Type := mkTaskRef { ref_appId : string; ref_taskId : string }.

#[export] Instance TaskRef_eq_dec : EqDecision TaskRef.
Proof. solve_decision. Defined.

Inductive Disposition : Type := fulfilled | withdrawn | unfulfilled.

#[export] Instance Disposition_eq_dec : EqDecision Disposition.
Proof. solve_decision. Defined.

Record Closure : Type := mkClosure { cl_disposition : Disposition; cl_reason : string; cl_messageId : string }.

#[export] Instance Closure_eq_dec : EqDecision Closure.
Proof. solve_decision. Defined.

Record RequestRow : Type := mkRequestRow {
  rq_revision : Z;
  rq_scope : string;
  rq_closed : bool;
  rq_topic_id : option string;
  rq_task_refs : list TaskRef;
  rq_closure : option Closure;
  rq_update_key : string;
  rq_updated_at : Z }.

(** The primary key: App, Conversation, id. *)
Abbreviation requestKey := (string * string * string)%type.
Abbreviation requests := (gmap (string * string * string) RequestRow).

(** [conversation_request_inputs]: App, Conversation, input, Request. *)
Abbreviation requestInputs := (gset (string * string * string * string)).

Record AppConversationRequest : Type := mkRequest {
  req_id : string;
  req_revision : Z;
  req_scope : string;
  req_closed : bool;
  req_topicId : option string;
  req_taskRefs : list TaskRef;
  req_closure : option Closure }.

Definition view (id : string) (row : RequestRow) : AppConversationRequest :=
  mkRequest id (rq_revision row) (rq_scope row) (rq_closed row) (nonempty (rq_topic_id row)) (rq_task_refs row)
    (rq_closure row).

Definition readConversationRequest (t : requests) (appId conversationId id : string) : option AppConversationRequest :=
  view id <$> t !! (appId, conversationId, id).

(** ** Updates *)

(** The disposition [None] is ["open"]. *)
Record AppConversationRequestUpdate : Type := mkUpdate {
  up_id : string;
  up_expectedRevision : Z;
  up_inputIds : option (list string);
  up_scope : option string;
  up_disposition : option Disposition;
  up_reason : option string;
  up_taskRefs : option (list TaskRef) }.

Definition MAX_CONVERSATION_REQUESTS_PER_TURN : nat := 8.

Definition lengthWithin (low high : nat) (s : string) : bool :=
  Nat.leb low (String.length s) && Nat.leb (String.length s) high.

Definition onSome {A} (P : A -> bool) (v : option A) : bool := match v with Some a => P a | None => true end.

(** [Check(conversationRequestUpdatesSchema, updates)]. *)
Definition validUpdate (u : AppConversationRequestUpdate) : bool :=
  lengthWithin 1 200 (up_id u) &&
  onSome (fun l => Nat.leb 1 (length l) && Nat.leb (length l) 96 && forallb (fun i => Nat.leb 1 (String.length i)) l &&
                   bool_decide (NoDup l)) (up_inputIds u) &&
  (0 <=? up_expectedRevision u) && (up_expectedRevision u <=? MAX_SAFE_INTEGER - 1) &&
  onSome (lengthWithin 1 2000) (up_scope u) &&
  onSome (fun r => lengthWithin 1 2000 r && existsb (fun c => negb (is_ws c)) (chars r)) (up_reason u) &&
  onSome (fun l => Nat.leb (length l) 32 && forallb (fun r =>
    Nat.leb 1 (String.length (ref_appId r)) && Nat.leb 1 (String.length (ref_taskId r))) l) (up_taskRefs u).

Definition validUpdates (l : list AppConversationRequestUpdate) : bool :=
  Nat.leb (length l) MAX_CONVERSATION_REQUESTS_PER_TURN && forallb validUpdate l.

Record ConversationRequestUpdatesInput : Type := mkUpdates {
  ui_appId : string;
  ui_conversationId : string;
  ui_topicId : option string;
  ui_topicSelected : bool;
  ui_updates : list AppConversationRequestUpdate;
  ui_updateKey : string;
  ui_messageId : option string;
  ui_actor : option ResourceCreator }.

(** The actor's Task executes, or is awaited by, an input of the Conversation. *)
Definition ownsConversation (t : inbox) (input : ConversationRequestUpdatesInput) (actor : ResourceCreator) : bool :=
  String.eqb (creator_appId actor) (ui_appId input) &&
  match creator_taskId actor with
  | Some taskId => existsb (fun row => String.eqb (c_app_id (ident row)) (ui_appId input) &&
      columnIs (c_conversation_id (ident row)) (ui_conversationId input) &&
      (columnIs (c_execution_task_id (state row)) taskId ||
       (columnIs (c_waiting_on_kind (state row)) "task" && columnIs (c_waiting_on_id (state row)) taskId)))
      (map snd (map_to_list t))
  | None => false
  end.

(** Links are kept in the order they were first added. *)
Definition addRefs (refs more : list TaskRef) : list TaskRef :=
  fold_left (fun refs r => if bool_decide (r ∈ refs) then refs else refs ++ [r]) more refs.

Definition blank (s : option string) : bool := match s with Some s => negb (nonblank s) | None => true end.

Definition prepareUpdate (t : requests) (input : ConversationRequestUpdatesInput) (update : AppConversationRequestUpdate)
    : out (AppConversationRequest * bool) :=
  let row := t !! (ui_appId input, ui_conversationId input, up_id update) in
  let current := view (up_id update) <$> row in
  let scope := match up_scope update with Some s => Some s | None => req_scope <$> current end in
  if blank scope then Raise ConversationRequestConflict ("New Request " +:+ up_id update +:+ " requires a scope")
  else
  let scope := default "" scope in
  let closed := bool_decide (is_Some (up_disposition update)) in
  if closed && (blank (up_reason update) || bool_decide (nonempty (ui_messageId input) = None)) then
    Raise PlainError "Request closure requires a reason and Conversation explanation"
  else
  let closure := (fun d => mkClosure d (default "" (up_reason update)) (default "" (ui_messageId input)))
                 <$> up_disposition update in
  let refs := addRefs (match current with Some c => req_taskRefs c | None => [] end)
                (default [] (up_taskRefs update)) in
  if Nat.ltb 32 (length refs) then Raise PlainError "Accepted Request Task link limit reached"
  else
  let revision := match current with Some c => req_revision c | None => 0 end in
  let replayed := match row, current with
    | Some r, Some c => String.eqb (rq_update_key r) (ui_updateKey input) &&
        (req_revision c =? up_expectedRevision update + 1) && String.eqb (req_scope c) scope &&
        bool_decide (req_closure c = closure) && bool_decide (req_taskRefs c = refs)
    | _, _ => false
    end in
  if negb replayed && negb (revision =? up_expectedRevision update) then
    Raise ConversationRequestConflict
      ("Accepted Request " +:+ up_id update +:+ " revision changed: expected " +:+ show_Z (up_expectedRevision update) +:+
       ", current " +:+ show_Z revision +:+ "; review its current scope and revision")
  else if negb replayed && closed && match current with Some c => negb (String.eqb (req_scope c) scope) | None => false end then
    Raise ConversationRequestConflict
      ("Request " +:+ up_id update +:+ " closure changes scope; save the authorized correction as open first, " +:+
       "then close the returned revision without changing scope")
  else
  let topicId := if ui_topicSelected input then ui_topicId input
                 else match ui_topicId input with Some p => Some p | None => current ≫= req_topicId end in
  Done (mkRequest (up_id update) (up_expectedRevision update + 1) scope closed (nonempty topicId) refs closure, replayed).

Fixpoint prepareEach (t : requests) (input : ConversationRequestUpdatesInput) (ids : list string)
    (updates : list AppConversationRequestUpdate) : out (list (AppConversationRequest * bool)) :=
  match updates with
  | [] => Done []
  | u :: updates =>
      if set_has (up_id u) ids then Raise PlainError "Repeated accepted Request update"
      else match prepareUpdate t input u with
           | Raise c e => Raise c e
           | Done p =>
               match prepareEach t input (set_add (up_id u) ids) updates with
               | Raise c e => Raise c e
               | Done ps => Done (p :: ps)
               end
           end
  end.

Definition prepareConversationRequestUpdates (box : inbox) (t : requests) (input : ConversationRequestUpdatesInput)
    : out (list (AppConversationRequest * bool)) :=
  if negb (validUpdates (ui_updates input)) then Raise PlainError "Invalid accepted Request updates"
  else if match ui_actor input with Some a => negb (ownsConversation box input a) | None => false end then
    Raise PlainError "Conversation Request actor does not own this Conversation"
  else prepareEach t input [] (ui_updates input).

(** The row an [INSERT ... ON CONFLICT DO UPDATE] leaves. *)
Definition requestRow (input : ConversationRequestUpdatesInput) (now : Z) (r : AppConversationRequest) : RequestRow :=
  mkRequestRow (req_revision r) (req_scope r) (req_closed r) (req_topicId r) (req_taskRefs r) (req_closure r)
    (ui_updateKey input) now.

Definition saveRequest (input : ConversationRequestUpdatesInput) (now : Z) (t : requests)
    (p : AppConversationRequest * bool) : requests :=
  if p.2 then t else <[(ui_appId input, ui_conversationId input, req_id p.1) := requestRow input now p.1]> t.

(** Runs in one transaction: nothing is written unless every update is
    prepared. *)
Definition applyConversationRequestUpdates (box : inbox) (input : ConversationRequestUpdatesInput) (now : Z)
    : E requests unit := fun t =>
  match prepareConversationRequestUpdates box t input with
  | Raise c e => (Raise c e, t)
  | Done prepared => (Done tt, fold_left (saveRequest input now) prepared t)
  end.

(** Linking admitted work keeps the revision and the scope. *)
Definition linkConversationRequestTask (appId conversationId id : string) (revision : Z) (ref : TaskRef)
    : E requests unit := fun t =>
  match t !! (appId, conversationId, id) with
  | Some row =>
      if negb (rq_revision row =? revision) || rq_closed row then
        (Raise ConversationRequestConflict "Accepted Request changed before Task admission", t)
      else if bool_decide (ref ∈ rq_task_refs row) then (Done tt, t)
      else if Nat.leb 32 (length (rq_task_refs row)) then
        (Raise PlainError "Accepted Request Task link limit reached", t)
      else (Done tt, <[(appId, conversationId, id) :=
              mkRequestRow (rq_revision row) (rq_scope row) (rq_closed row) (rq_topic_id row)
                (rq_task_refs row ++ [ref]) (rq_closure row) (rq_update_key row) (rq_updated_at row)]> t)
  | None => (Raise ConversationRequestConflict "Accepted Request changed before Task admission", t)
  end.

(** [INSERT OR IGNORE] of the inputs; the Request must exist. *)
Definition linkConversationRequestInputs (t : requests) (appId conversationId requestId : string) (inputIds : list string)
    (links : requestInputs) : res requestInputs :=
  match inputIds with
  | [] => Ok links
  | _ => if bool_decide (is_Some (t !! (appId, conversationId, requestId)))
         then Ok (fold_left (fun l i => {[(appId, conversationId, i, requestId)]} ∪ l) inputIds links)
         else Throw "FOREIGN KEY constraint failed"
  end.

(** ** Listings *)

(** The Requests of a Conversation. *)
Definition conversationRows (t : requests) (appId conversationId : string) : list (string * RequestRow) :=
  omap (fun e => let '((a, c, id), row) := e in
    if String.eqb a appId && String.eqb c conversationId then Some (id, row) else None) (map_to_list t).

Definition byId (a b : string * RequestRow) : Prop := String.leb a.1 b.1 = true.
#[export] Instance byId_dec : RelDecision byId.
Proof. intros a b. unfold byId. apply _. Defined.

(** [ORDER BY (status = 'open') DESC, (topic_id = ?) DESC, updated_at DESC, id]:
    a missing Topic compares as [NULL] and comes last. *)
Definition listRank (topicId : option string) (e : string * RequestRow) : Z * Z * Z :=
  (if rq_closed e.2 then 1 else 0,
   match topicId, rq_topic_id e.2 with
   | Some p, Some q => if String.eqb q p then 0 else 1
   | Some _, None => 2
   | None, _ => 0
   end, - rq_updated_at e.2).

Definition listOrder (topicId : option string) (a b : string * RequestRow) : Prop :=
  let '(a1, a2, a3) := listRank topicId a in
  let '(b1, b2, b3) := listRank topicId b in
  (a1 <? b1) || ((a1 =? b1) && ((a2 <? b2) || ((a2 =? b2) && ((a3 <? b3) || ((a3 =? b3) && String.leb a.1 b.1))))) = true.
#[export] Instance listOrder_dec topicId : RelDecision (listOrder topicId).
Proof. intros a b. unfold listOrder. destruct (listRank topicId a) as [[? ?] ?], (listRank topicId b) as [[? ?] ?]. apply _. Defined.

Definition listConversationRequests (t : requests) (appId conversationId : string) (topicId : option string)
    (taskRef : option TaskRef) : list AppConversationRequest :=
  let topicId := nonempty topicId in
  map (fun e => view e.1 e.2) (take 12 (merge_sort (listOrder topicId) (filter (fun e =>
    match topicId with Some p => negb (rq_closed e.2) || columnIs (rq_topic_id e.2) p | None => true end &&
    match taskRef with Some r => bool_decide (r ∈ rq_task_refs e.2) | None => true end = true)
    (conversationRows t appId conversationId)))).

(** A page of open Requests after an id, with the start of their scope. *)
Definition pageOpenConversationRequests (t : requests) (appId conversationId afterId : string)
    : list (string * Z * string) :=
  map (fun e => (e.1, rq_revision e.2, String.substring 0 160 (rq_scope e.2)))
    (take 12 (merge_sort byId (filter (fun e => negb (rq_closed e.2) && String.ltb afterId e.1 = true)
      (conversationRows t appId conversationId)))).

(** The Requests linked to some inputs, each with its inputs, by Request id. *)
Definition listConversationInputRequests (t : requests) (links : requestInputs) (appId conversationId : string)
    (inputIds : list string) : list (AppConversationRequest * list string) :=
  omap (fun e =>
    match js_sort (filter (fun i => (appId, conversationId, i, e.1) ∈ links) (set_of inputIds)) with
    | [] => None
    | linked => Some (view e.1 e.2, linked)
    end) (merge_sort byId (conversationRows t appId conversationId)).

End ConversationRequests.
