(* ===== verification/ConversationTopics.v ===== *)
(** Topics of a Conversation ([src/app/core/state/conversations.ts]): their
    table, the Topic a saved input belongs to, and the Topic a Task is linked
    to.  A Topic is addressed by its id or by the first eight characters of it.

    Of the event table, the rows Conversations read: conversation messages with
    their parsed payload.  The Task references that decorate a Topic for display
    are not part of the result. *)
From S2P Require Import Prelude Json TaskState TaskTree Transaction ResourceStore StoreInvariant StoreCommit Snapshot.
From S2P Require Import Context Approval Conditions Records Time TaskInputs TaskEvents TaskIntent TaskMutation.
From S2P Require Import TaskOutcome TaskAdmission Effects InboxStore.

Module ConversationTopics.
Import TaskEvents Effects InboxStore.

#[local] Instance res_bind' : MBind res := fun A B f x => match x with Ok a => f a | Throw e => Throw e end.
#[local] Instance res_ret' : MRet res := @Ok.

(** ** Tables *)

Record TopicRow : Type := mkTopic {
  tp_app_id : string;
  tp_conversation_id : string;
  tp_title : string;
  tp_opened_by : string;
  tp_origin_message_id : string;
  tp_created_at : Z }.

#[export] Instance TopicRow_eq_dec : EqDecision TopicRow.
Proof. solve_decision. Defined.

Abbreviation topics := (gmap string TopicRow).

(** Selections of an input by App, Conversation and input id: the Topic, [None]
    for no Topic, and the time. *)
Abbreviation selections := (gmap (string * string * string) (option string * Z)).

(** A row of [events]: its id, type and payload. *)
Record EventRow : Type := mkEventRow { er_id : Z; er_type : string; er_data : json }.

(** ** Reading Topics *)

(** [ORDER BY created_at DESC, id DESC]. *)
Definition newestTopic (a b : string * TopicRow) : Prop :=
  (tp_created_at b.2 <? tp_created_at a.2) ||
  ((tp_created_at a.2 =? tp_created_at b.2) && String.leb b.1 a.1) = true.
#[export] Instance newestTopic_dec : RelDecision newestTopic.
Proof. intros a b. unfold newestTopic. apply _. Defined.

Definition topicsOf (t : topics) (appId conversationId : string) : list (string * TopicRow) :=
  filter (fun e => tp_app_id e.2 = appId /\ tp_conversation_id e.2 = conversationId) (map_to_list t).

Definition drop_chars (n : nat) (s : string) : string := String.substring n (String.length s) s.

(** [lower] of SQLite: ASCII letters only. *)
Definition sqlLower (s : string) : string :=
  unchars (map (fun c => if (65 <=? chr c) && (chr c <=? 90) then lower_char c else c) (chars s)).

(** [id LIKE 'topic_%']: the underscore stands for any character. *)
Definition likeTopic (id : string) : bool :=
  String.eqb (sqlLower (String.substring 0 5 id)) "topic" && Nat.leb 6 (String.length id).

Definition shortRef (id : string) : string :=
  String.substring 0 8 (sqlLower (if likeTopic id then drop_chars 6 id else id)).

Definition readConversationTopic (t : topics) (appId conversationId idOrRef : string)
    : res (option (string * TopicRow)) :=
  text ← requiredText idOrRef "topic id or ref";
  let normalized := toLowerCase text in
  let rows := topicsOf t appId conversationId in
  match head (filter (fun e => sqlLower e.1 ∈ [normalized; "topic_" +:+ normalized]) rows) with
  | Some e => mret (Some e)
  | None =>
      match merge_sort newestTopic (filter (fun e => shortRef e.1 = normalized) rows) with
      | [] => mret None
      | [e] => mret (Some e)
      | _ :: _ :: _ => Throw ("Conversation Topic ref " +:+ idOrRef +:+ " is ambiguous")
      end
  end.

(** A page after the position [cursor]; [None] as the next cursor ends the list. *)
Definition listConversationTopicPage (t : topics) (appId conversationId : string) (limit : option number)
    (cursor : option (Z * string)) : res (list (string * TopicRow) * option (Z * string)) :=
  _ ← requiredText appId "topic appId";
  _ ← requiredText conversationId "topic conversationId";
  let limit := default (num 12) limit in
  if negb (boundedCount limit 100)
  then Throw "Conversation topic limit must be an integer from 1 to 100"
  else
    let count := Z.to_nat (number_to_Z limit) in
    let beyond (e : string * TopicRow) :=
      match cursor with
      | None => true
      | Some (at_, id) => (tp_created_at e.2 <? at_) || ((tp_created_at e.2 =? at_) && String.ltb e.1 id)
      end in
    let rows := take (S count) (merge_sort newestTopic (filter (fun e => beyond e = true) (topicsOf t appId conversationId))) in
    let page := take count rows in
    mret (page, if Nat.ltb count (length rows)
                then match last page with Some e => Some (tp_created_at e.2, e.1) | None => None end
                else None).

(** ** The Topic of a message *)

Definition messageTopic (e : EventRow) : option json := record_field (record_field (Some (er_data e)) "metadata") "topicId".

Definition trimmedOrNone (v : option json) : option string :=
  match v with Some (JStr s) => if nonblank s then Some (trim s) else None | _ => None end.

Definition isMessageOf (appId conversationId : string) (e : EventRow) : bool :=
  String.eqb (er_type e) "conversation.message.created" &&
  str_is (record_field (Some (er_data e)) "appId") appId &&
  str_is (record_field (Some (er_data e)) "conversationId") conversationId.

Definition newestEvent (a b : EventRow) : Prop := er_id b <= er_id a.
#[export] Instance newestEvent_dec : RelDecision newestEvent.
Proof. intros a b. unfold newestEvent. apply _. Defined.

Definition newestRow (a b : InboxRow) : Prop := c_created_at (ident b) <= c_created_at (ident a).
#[export] Instance newestRow_dec : RelDecision newestRow.
Proof. intros a b. unfold newestRow. apply _. Defined.

(** The event id a message id such as ["event:12"] names; [-1]: none. *)
Definition namedEventId (id : string) : Z :=
  if startsWith id "event:" then
    let n := Number_of_string (drop_chars 6 id) in
    if isSafeInteger n then number_to_Z n else -1
  else -1.

Definition readConversationMessageTopicId (t : inbox) (events : list EventRow) (appId conversationId messageId : string)
    : res (option string) :=
  id ← requiredText messageId "conversation message id";
  let rows := select (fun row => String.eqb (c_app_id (ident row)) appId && columnIs (c_conversation_id (ident row)) conversationId &&
    (String.eqb (src_id (c_source (ident row))) id || String.eqb ("result:" +:+ c_id (ident row)) id ||
     String.eqb ("failure:" +:+ c_id (ident row)) id)) t in
  match head (merge_sort newestRow rows) ≫= (fun row => trimmedOrNone (JStr <$> c_topic_id (state row))) with
  | Some topicId => mret (Some topicId)
  | None =>
      mret (head (merge_sort newestEvent (filter (fun e =>
              isMessageOf appId conversationId e && (str_is (record_field (Some (er_data e)) "messageId") id ||
                Z.eqb (er_id e) (namedEventId id)) = true) events))
            ≫= fun e => trimmedOrNone (messageTopic e))
  end.

(** ** The Topic of an input *)

Definition hasConversationInputTopicSelection (sel : selections) (item : AppInboxItem) : bool :=
  match it_conversationId item with
  | Some conversationId => bool_decide (is_Some (sel !! (it_appId item, conversationId, it_id item)))
  | None => false
  end.

(** The first candidate that names a Topic. *)
Fixpoint firstTopic (t : topics) (appId conversationId : string) (candidates : list (option json)) : res (option string) :=
  match candidates with
  | [] => mret None
  | Some (JStr candidate) :: candidates =>
      if nonblank candidate then
        topic ← readConversationTopic t appId conversationId candidate;
        match topic with
        | Some e => mret (Some e.1)
        | None => firstTopic t appId conversationId candidates
        end
      else firstTopic t appId conversationId candidates
  | _ :: candidates => firstTopic t appId conversationId candidates
  end.

Definition readConversationInputTopicId (box : inbox) (t : topics) (sel : selections) (events : list EventRow)
    (item : AppInboxItem) : res (option string) :=
  match it_conversationId item with
  | None => mret None
  | Some conversationId =>
      let hint := record_field (record_field (Some (inp_data (it_input item))) "context") "conversationTopicId" in
      replied ← match it_replyToSourceId item with
                | Some source => readConversationMessageTopicId box events (it_appId item) conversationId source
                | None => mret None
                end;
      match sel !! (it_appId item, conversationId, it_id item) with
      | Some (selected, _) =>
          match selected with
          | Some topicId =>
              if nonblank topicId then
                topic ← readConversationTopic t (it_appId item) conversationId topicId;
                mret (fst <$> topic)
              else mret None
          | None => mret None
          end
      | None => firstTopic t (it_appId item) conversationId [JStr <$> replied; JStr <$> it_topicId item; hint]
      end
  end.

(** ** Creating Topics *)

Record CreateConversationTopic : Type := mkCreateTopic {
  ct_id : string;
  ct_appId : string;
  ct_conversationId : string;
  ct_title : string;
  ct_openedBy : string;
  ct_originMessageId : string }.

Definition createConversationTopic (now : Z) (input : CreateConversationTopic) : E topics unit :=
  id ← checks (requiredText (ct_id input) "topic id");
  appId ← checks (requiredText (ct_appId input) "topic appId");
  conversationId ← checks (requiredText (ct_conversationId input) "topic conversationId");
  title ← checks (requiredText (ct_title input) "topic title");
  openedBy ← checks (requiredText (ct_openedBy input) "topic openedBy");
  origin ← checks (requiredText (ct_originMessageId input) "topic originMessageId");
  _ ← writes (fun t => match t !! id with
                       | Some _ => t
                       | None => <[id := mkTopic appId conversationId title openedBy origin now]> t
                       end);
  row ← reads (fun t : topics => t !! id);
  if match row with
     | Some r => String.eqb (tp_app_id r) appId && String.eqb (tp_conversation_id r) conversationId &&
                 String.eqb (tp_title r) title && String.eqb (tp_opened_by r) openedBy &&
                 String.eqb (tp_origin_message_id r) origin
     | None => false
     end
  then mret tt
  else throw ("Conversation topic " +:+ id +:+ " conflicts with an existing topic").

(** ** Links to Tasks *)

(** [ORDER BY topic.created_at, topic.id]. *)
Definition oldestTopic (a b : string * TopicRow) : Prop := newestTopic b a.
#[export] Instance oldestTopic_dec : RelDecision oldestTopic.
Proof. intros a b. unfold oldestTopic. apply _. Defined.

Record TopicLink : Type := mkTopicLink { tl_appId : string; tl_conversationId : string; tl_topicId : string }.

Definition listConversationTopicLinksForTask (t : topics) (links : gmap (string * string * string) Z) (appId taskId : string)
    : res (list TopicLink) :=
  app ← requiredText appId "topic task appId";
  task ← requiredText taskId "topic taskId";
  mret (map (fun e => mkTopicLink (tp_app_id e.2) (tp_conversation_id e.2) e.1)
    (filter (fun e => tp_app_id e.2 <> "" /\ tp_conversation_id e.2 <> "" /\ e.1 <> "")
      (merge_sort oldestTopic (filter (fun e => is_Some (links !! (e.1, app, task))) (map_to_list t))))).

End ConversationTopics.
