(* ===== verification/RequestLaws.v ===== *)
(** What holds of accepted Requests ([ConversationRequests]): an update is
    saved only over the revision its writer saw, can be sent again without an
    effect, and never loses another writer's update; every saved Request is well
    formed. *)
From S2P Require Import Prelude Json TaskState TaskTree Transaction ResourceStore StoreInvariant Snapshot Context.
From S2P Require Import Approval Conditions Records TaskInputs TaskEvents Effects InboxStore ConversationRequests.

Module RequestLaws.
Import Effects InboxStore ConversationRequests.

(** ** Links *)

Lemma addRefs_cons refs r more :
  addRefs refs (r :: more) = addRefs (if bool_decide (r ∈ refs) then refs else refs ++ [r]) more.
Proof. done. Qed.

Lemma elem_of_addRefs refs more r : r ∈ addRefs refs more <-> r ∈ refs \/ r ∈ more.
Proof.
  revert refs. induction more as [|x more IH]; intros refs; [unfold addRefs; simpl; set_solver|].
  rewrite addRefs_cons, IH. case_bool_decide; set_solver.
Qed.

Lemma NoDup_addRefs refs more : NoDup refs -> NoDup (addRefs refs more).
Proof.
  revert refs. induction more as [|x more IH]; intros refs Hnd; [done|]. rewrite addRefs_cons.
  case_bool_decide; [by apply IH|]. apply IH, NoDup_app. split_ands; [done|set_solver|apply NoDup_singleton].
Qed.

Lemma addRefs_known refs more : (forall r, r ∈ more -> r ∈ refs) -> addRefs refs more = refs.
Proof.
  induction more as [|x more IH]; intros H; [done|]. rewrite addRefs_cons.
  rewrite bool_decide_true by (apply H; set_solver). apply IH. set_solver.
Qed.

Lemma addRefs_idemp refs more : addRefs (addRefs refs more) more = addRefs refs more.
Proof. apply addRefs_known. intros r Hr. apply elem_of_addRefs. by right. Qed.

(** ** One prepared update *)

Section Prepared.
Context (t : requests) (input : ConversationRequestUpdatesInput).

Abbreviation key u := (ui_appId input, ui_conversationId input, up_id u).

(** The revision a writer has to name. *)
Definition currentRevision (t : requests) (k : requestKey) : Z :=
  match t !! k with Some row => rq_revision row | None => 0 end.

(** What preparing an update [u] as [(r, replayed)] shows. *)
Record prepared (u : AppConversationRequestUpdate) (r : AppConversationRequest) (replayed : bool) : Prop := {
  pr_id : req_id r = up_id u;
  pr_revision : req_revision r = up_expectedRevision u + 1;
  pr_scope : Some (req_scope r) = match up_scope u with Some s => Some s | None => rq_scope <$> t !! key u end;
  pr_nonblank : nonblank (req_scope r) = true;
  pr_closed : req_closed r = bool_decide (is_Some (up_disposition u));
  pr_explained : req_closed r = true -> blank (up_reason u) = false /\ nonempty (ui_messageId input) <> None;
  pr_closure : req_closure r = (fun d => mkClosure d (default "" (up_reason u)) (default "" (ui_messageId input)))
                 <$> up_disposition u;
  pr_refs : req_taskRefs r = addRefs (match t !! key u with Some row => rq_task_refs row | None => [] end)
                               (default [] (up_taskRefs u));
  pr_limit : (length (req_taskRefs r) <= 32)%nat;
  pr_fence : replayed = false -> currentRevision t (key u) = up_expectedRevision u;
  pr_replayed : replayed = true -> exists row, t !! key u = Some row /\ rq_update_key row = ui_updateKey input /\
    rq_revision row = up_expectedRevision u + 1 /\ rq_scope row = req_scope r /\ rq_closure row = req_closure r /\
    rq_task_refs row = req_taskRefs r }.

Lemma explained closed reason message :
  closed && (blank reason || bool_decide (nonempty message = None)) = false ->
  closed = true -> blank reason = false /\ nonempty message <> None.
Proof. intros H ->. simpl in H. by reflect_bools. Qed.

Lemma prepareUpdate_prepared u r b : prepareUpdate t input u = Done (r, b) -> prepared u r b.
Proof.
  unfold prepareUpdate. intros H. destruct (t !! key u) as [row|] eqn:Erow.
  - simpl in H. destruct (blank _) eqn:Eb; [done|]. destruct (_ && _) eqn:Ex in H; [done|].
    destruct (Nat.ltb _ _) eqn:El; [done|]. apply Nat.ltb_ge in El.
    assert (nonblank (default "" match up_scope u with Some s => Some s | None => Some (rq_scope row) end) = true)
      as Hb by (by destruct (up_scope u); simpl in *; apply negb_false_iff in Eb).
    destruct (_ && bool_decide (rq_task_refs row = _)) eqn:Er; simpl in H; [|do 2 (case_cond_in H; [done|])];
      injection H as <- <-; split; simpl; unfold currentRevision; rewrite ?Erow; try done;
      try (by destruct (up_scope u)); try (by apply explained); reflect_bools.
    + intros _. exists row. split_ands; auto.
    + done.
  - simpl in H. destruct (blank _) eqn:Eb; [done|]. destruct (_ && _) eqn:Ex in H; [done|].
    destruct (Nat.ltb _ _) eqn:El; [done|]. apply Nat.ltb_ge in El.
    case_cond_in H; [done|]. rewrite andb_false_r in H. injection H as <- <-.
    destruct (up_scope u) as [sc|] eqn:Es; [|done]. unfold blank in Eb.
    split; simpl; unfold currentRevision; rewrite ?Erow, ?Es; try done; try (by apply explained); reflect_bools; auto.
    intros _. by destruct (up_expectedRevision u).
Qed.

End Prepared.

Abbreviation keyOf input u := (ui_appId input, ui_conversationId input, up_id u).

(** ** A batch *)

Lemma prepareEach_spec t input ids us ps :
  prepareEach t input ids us = Done ps ->
  Forall2 (fun u p => prepared t input u p.1 p.2) us ps /\ NoDup (map up_id us) /\ (forall u, u ∈ us -> up_id u ∉ ids).
Proof.
  revert ids ps. induction us as [|u us IH]; intros ids ps H; simpl in H.
  - injection H as <-. split_ands; [constructor|constructor|set_solver].
  - destruct (set_has (up_id u) ids) eqn:Es; [done|]. apply set_has_false in Es.
    destruct (prepareUpdate t input u) as [[r b]|] eqn:Eu; [|done].
    destruct (prepareEach t input _ us) as [ps'|] eqn:Ep; [|done]. injection H as <-.
    destruct (IH _ _ Ep) as (Hf & Hnd & Hids). split_ands.
    + constructor; [by apply prepareUpdate_prepared|done].
    + simpl. apply NoDup_cons. split; [|done]. intros (x & Hx & Hin)%list_elem_of_fmap.
      apply (Hids x Hin), elem_of_set_add. by left.
    + intros x [->|Hx]%elem_of_cons; [done|]. intros Hin. apply (Hids x Hx), elem_of_set_add. by right.
Qed.

(** What the writes of a prepared batch leave, key by key. *)
Lemma save_frame input now ps t k :
  (forall p, p ∈ ps -> p.2 = false -> k <> (ui_appId input, ui_conversationId input, req_id p.1)) ->
  fold_left (saveRequest input now) ps t !! k = t !! k.
Proof.
  revert t. induction ps as [|p ps IH]; intros t H; [done|]. simpl. rewrite IH by (intros; apply H; set_solver).
  unfold saveRequest. destruct p.2 eqn:Ep; [done|]. rewrite lookup_insert_ne; [done|]. symmetry. apply H; [set_solver|done].
Qed.

Lemma save_written input now ps t p :
  p ∈ ps -> p.2 = false -> NoDup (map (fun p => req_id p.1) ps) ->
  fold_left (saveRequest input now) ps t !! (ui_appId input, ui_conversationId input, req_id p.1) =
  Some (requestRow input now p.1).
Proof.
  revert t. induction ps as [|q ps IH]; intros t Hp Hnew Hnd; [set_solver|]. simpl in *.
  apply NoDup_cons in Hnd as [Hq Hnd]. apply elem_of_cons in Hp as [->|Hp]; [|by apply IH].
  rewrite save_frame; [unfold saveRequest; rewrite Hnew; by rewrite lookup_insert_eq|].
  intros x Hx _ [=]. apply Hq, list_elem_of_fmap. by exists x.
Qed.

Lemma prepared_ids t input us ps :
  Forall2 (fun u p => prepared t input u p.1 p.2) us ps -> map (fun p => req_id p.1) ps = map up_id us.
Proof. induction 1 as [|u p us ps Hp _ IH]; [done|]. simpl. by rewrite IH, (pr_id _ _ _ _ _ Hp). Qed.

Lemma prepare_done box t input ps :
  prepareConversationRequestUpdates box t input = Done ps ->
  Forall2 (fun u p => prepared t input u p.1 p.2) (ui_updates input) ps /\ NoDup (map up_id (ui_updates input)).
Proof.
  unfold prepareConversationRequestUpdates. intros H. do 2 (case_cond_in H; [done|]).
  apply prepareEach_spec in H as (? & ? & _). done.
Qed.

(** What an accepted batch leaves for each of its updates. *)
Lemma applied box input now t t' :
  applyConversationRequestUpdates box input now t = (Done tt, t') ->
  (forall u, u ∈ ui_updates input -> exists r b, prepared t input u r b /\
     t' !! keyOf input u = (if b then t !! keyOf input u else Some (requestRow input now r))) /\
  (forall k, (forall u, u ∈ ui_updates input -> k <> keyOf input u) -> t' !! k = t !! k).
Proof.
  unfold applyConversationRequestUpdates. destruct (prepareConversationRequestUpdates box t input) as [ps|] eqn:Ep; [|done].
  intros [= <-]. apply prepare_done in Ep as [Hf Hnd]. pose proof (prepared_ids _ _ _ _ Hf) as Hids. split.
  - intros u Hu. apply list_elem_of_lookup in Hu as [i Hi]. destruct (Forall2_lookup_l _ _ _ _ _ Hf Hi) as ([r b] & Hp & Hpr).
    simpl in Hpr. exists r, b. split; [done|]. destruct b.
    + apply save_frame. intros p Hin Hnew [= E]. apply list_elem_of_lookup in Hin as [j Hj].
      assert (map (fun p => req_id p.1) ps !! j = map (fun p => req_id p.1) ps !! i) as Hij.
      { rewrite !list_lookup_fmap, Hj, Hp. simpl. by rewrite <- E, (pr_id _ _ _ _ _ Hpr). }
      rewrite Hids in Hij. rewrite (list_lookup_fmap up_id _ i), Hi in Hij. simpl in Hij.
      assert (j = i) as ->; [|rewrite Hp in Hj; by injection Hj as <-]. eapply NoDup_lookup; [exact Hnd|exact Hij|]. by rewrite list_lookup_fmap, Hi.
    + replace (up_id u) with (req_id r) by apply Hpr. apply (save_written input now ps t (r, false)); [|done|by rewrite Hids].
      by eapply list_elem_of_lookup_2.
  - intros k Hk. apply save_frame. intros p Hin _. apply list_elem_of_lookup in Hin as [i Hi].
    destruct (Forall2_lookup_r _ _ _ _ _ Hf Hi) as (u & Hu & Hpr). rewrite (pr_id _ _ _ _ _ Hpr). apply Hk.
    by eapply list_elem_of_lookup_2.
Qed.

(** ** Well-formed Requests *)

(** A saved Request has a revision and a scope, is closed exactly when it has a
    closure with a reason and an explanation, and has few, distinct links. *)
Definition wellFormed (row : RequestRow) : Prop :=
  1 <= rq_revision row /\ nonblank (rq_scope row) = true /\
  (rq_closed row = true <-> exists c, rq_closure row = Some c /\ nonblank (cl_reason c) = true /\ cl_messageId c <> "") /\
  (rq_closed row = false <-> rq_closure row = None) /\
  (length (rq_task_refs row) <= 32)%nat /\ NoDup (rq_task_refs row).

Definition requests_ok (t : requests) : Prop := forall k row, t !! k = Some row -> wellFormed row.

Lemma prepared_wellFormed t input u r b now :
  requests_ok t -> 0 <= up_expectedRevision u -> prepared t input u r b -> wellFormed (requestRow input now r).
Proof.
  intros Hok Hexp Hp. pose proof (pr_closed _ _ _ _ _ Hp) as Hc. pose proof (pr_closure _ _ _ _ _ Hp) as Hcl.
  pose proof (pr_explained _ _ _ _ _ Hp) as Hx. unfold wellFormed, requestRow. simpl. split_ands.
  - rewrite (pr_revision _ _ _ _ _ Hp). lia.
  - apply Hp.
  - rewrite Hcl. destruct (up_disposition u) as [d|]; simpl in *; rewrite Hc in *; [|split; [done|by intros (? & ? & _)]].
    split; [|done]. intros _. destruct (Hx eq_refl) as [Hr Hm]. eexists. split; [done|]. simpl.
    destruct (up_reason u); [|done]. destruct (ui_messageId input) as [m|]; [|done]. simpl in *. split; [by apply negb_false_iff in Hr|].
    by destruct (String.eqb_spec m "").
  - rewrite Hcl, Hc. by destruct (up_disposition u).
  - apply Hp.
  - rewrite (pr_refs _ _ _ _ _ Hp). apply NoDup_addRefs. destruct (t !! keyOf input u) eqn:E; [|constructor].
    by apply Hok in E as (_ & _ & _ & _ & _ & ?).
Qed.

Lemma valid_revision us u : validUpdates us = true -> u ∈ us -> 0 <= up_expectedRevision u.
Proof.
  unfold validUpdates. intros [_ H]%andb_true_iff Hu. rewrite forallb_forall in H. apply list_elem_of_In in Hu.
  apply H in Hu. unfold validUpdate in Hu. reflect_bools. done.
Qed.

Lemma apply_valid box input now t t' :
  applyConversationRequestUpdates box input now t = (Done tt, t') -> validUpdates (ui_updates input) = true.
Proof.
  unfold applyConversationRequestUpdates, prepareConversationRequestUpdates. by destruct (validUpdates _).
Qed.

Lemma apply_keeps_ok box input now : keeps requests_ok (applyConversationRequestUpdates box input now).
Proof.
  intros t Hok. destruct (applyConversationRequestUpdates box input now t) as [[[]|c e] t'] eqn:E; simpl.
  - destruct (applied _ _ _ _ _ E) as [Hu Hframe]. pose proof (apply_valid _ _ _ _ _ E) as Hv. intros k row Hk.
    destruct (decide (Exists (fun u => k = keyOf input u) (ui_updates input))) as [Hex|Hn].
    + apply Exists_exists in Hex as (u & Hin & ->). destruct (Hu u Hin) as (r & b & Hp & Hval). rewrite Hk in Hval.
      destruct b; [by eapply Hok|]. injection Hval as ->. eapply prepared_wellFormed; [done| |done]. by eapply valid_revision.
    + rewrite Hframe in Hk; [by eapply Hok|]. intros u Hin ->. apply Hn, Exists_exists. eauto.
  - unfold applyConversationRequestUpdates in E. destruct (prepareConversationRequestUpdates _ _ _); [done|]. by injection E as _ _ <-.
Qed.

Lemma link_keeps_ok appId conversationId id revision ref :
  keeps requests_ok (linkConversationRequestTask appId conversationId id revision ref).
Proof.
  intros t Hok. unfold linkConversationRequestTask. destruct (t !! _) as [row|] eqn:E; [|done].
  repeat (case_cond; [done|]). reflect_bools. intros k row' Hk. simpl in Hk. apply lookup_insert_Some in Hk as [[<- <-]|[_ Hk]]; [|by eapply Hok].
  destruct (Hok _ _ E) as (? & ? & ? & ? & ? & ?). unfold wellFormed. simpl. split_ands; try done.
  - rewrite length_app. simpl. apply Nat.leb_gt in Heqb1. lia.
  - apply NoDup_app. split_ands; [done|set_solver|apply NoDup_singleton].
Qed.

(** ** Sending a batch again *)

(** An update whose effect is saved is recognised. *)
Lemma prepareUpdate_again t t' input u r b row :
  prepared t input u r b -> t' !! keyOf input u = Some row ->
  rq_update_key row = ui_updateKey input -> rq_revision row = up_expectedRevision u + 1 ->
  rq_scope row = req_scope r -> rq_closure row = req_closure r -> rq_task_refs row = req_taskRefs r ->
  exists r', prepareUpdate t' input u = Done (r', true).
Proof.
  intros Hp Hrow Hkey Hrev Hscope Hcl Hrefs. unfold prepareUpdate. rewrite Hrow. simpl. rewrite Hscope.
  assert (match up_scope u with Some s => Some s | None => Some (req_scope r) end = Some (req_scope r)) as ->.
  { pose proof (pr_scope _ _ _ _ _ Hp) as Hs. by destruct (up_scope u); [injection Hs as ->|]. }
  unfold blank at 1. rewrite (pr_nonblank _ _ _ _ _ Hp). simpl.
  assert (bool_decide (is_Some (up_disposition u)) &&
    (blank (up_reason u) || bool_decide (nonempty (ui_messageId input) = None)) = false) as ->.
  { rewrite <- (pr_closed _ _ _ _ _ Hp). destruct (req_closed r) eqn:Ec; [|done].
    destruct (pr_explained _ _ _ _ _ Hp Ec) as [-> Hm]. by rewrite bool_decide_false. }
  assert (addRefs (rq_task_refs row) (default [] (up_taskRefs u)) = req_taskRefs r) as ->.
  { rewrite Hrefs, (pr_refs _ _ _ _ _ Hp). apply addRefs_idemp. }
  rewrite (proj2 (Nat.ltb_ge _ _) (pr_limit _ _ _ _ _ Hp)).
  rewrite Hkey, Hrev, Hcl, Hrefs, (pr_closure _ _ _ _ _ Hp), String.eqb_refl, Z.eqb_refl, String.eqb_refl.
  rewrite !bool_decide_true by done. simpl. eauto.
Qed.

Lemma prepareEach_again t input us ids :
  NoDup (map up_id us) -> (forall u, u ∈ us -> up_id u ∉ ids) ->
  (forall u, u ∈ us -> exists r, prepareUpdate t input u = Done (r, true)) ->
  exists ps, prepareEach t input ids us = Done ps /\ forall p, p ∈ ps -> p.2 = true.
Proof.
  revert ids. induction us as [|u us IH]; intros ids Hnd Hids Hp; simpl.
  - exists []. split; [done|set_solver].
  - simpl in Hnd. apply NoDup_cons in Hnd as [Hu Hnd].
    rewrite (proj2 (set_has_false _ _) (Hids u ltac:(set_solver))). destruct (Hp u ltac:(set_solver)) as [r ->].
    destruct (IH (set_add (up_id u) ids) Hnd) as (ps & -> & Hps).
    + intros x Hx [E|Hin]%elem_of_set_add; [|by apply (Hids x); [set_solver|]].
      apply Hu, list_elem_of_fmap. by exists x.
    + intros x Hx. apply Hp. set_solver.
    + eexists. split; [done|]. intros p [->|Hin]%elem_of_cons; auto.
Qed.

Lemma save_replayed input now ps t : (forall p, p ∈ ps -> p.2 = true) -> fold_left (saveRequest input now) ps t = t.
Proof.
  induction ps as [|p ps IH]; intros H; [done|]. simpl. unfold saveRequest at 2. rewrite (H p) by set_solver.
  apply IH. set_solver.
Qed.

(** ** Properties *)

(** Updates of accepted Requests are serialized.  An accepted batch leaves
    every Request it names at the revision after the one its writer saw, which
    was the saved one unless the same batch had been saved before; it changes
    no other Request, and a refused batch changes nothing.  Another writer that
    names the same revision afterwards, under another key, is refused. *)
Theorem request_updates_serialized box input now t :
  (forall c e, (applyConversationRequestUpdates box input now t).1 = Raise c e ->
     (applyConversationRequestUpdates box input now t).2 = t) /\
  (forall t', applyConversationRequestUpdates box input now t = (Done tt, t') ->
     (forall u, u ∈ ui_updates input ->
        currentRevision t' (keyOf input u) = up_expectedRevision u + 1 /\
        (exists row, t' !! keyOf input u = Some row /\ rq_update_key row = ui_updateKey input) /\
        (currentRevision t (keyOf input u) = up_expectedRevision u \/ t' !! keyOf input u = t !! keyOf input u)) /\
     (forall k, (forall u, u ∈ ui_updates input -> k <> keyOf input u) -> t' !! k = t !! k) /\
     (forall box' later now' u u', u ∈ ui_updates input -> u' ∈ ui_updates later -> keyOf later u' = keyOf input u ->
        up_expectedRevision u' = up_expectedRevision u -> ui_updateKey later <> ui_updateKey input ->
        is_done (applyConversationRequestUpdates box' later now' t').1 = false /\
        (applyConversationRequestUpdates box' later now' t').2 = t')).
Proof.
  assert (forall box input now t c e, (applyConversationRequestUpdates box input now t).1 = Raise c e ->
     (applyConversationRequestUpdates box input now t).2 = t) as Href.
  { intros b i n x c e. unfold applyConversationRequestUpdates. by destruct (prepareConversationRequestUpdates b x i). }
  split; [apply Href|]. intros t' Happ. destruct (applied _ _ _ _ _ Happ) as [Hu Hframe].
  assert (forall u, u ∈ ui_updates input -> currentRevision t' (keyOf input u) = up_expectedRevision u + 1 /\
     (exists row, t' !! keyOf input u = Some row /\ rq_update_key row = ui_updateKey input) /\
     (currentRevision t (keyOf input u) = up_expectedRevision u \/ t' !! keyOf input u = t !! keyOf input u)) as Heach.
  { intros u Hin. destruct (Hu u Hin) as (r & b & Hp & Hval). unfold currentRevision at 1. rewrite Hval. destruct b.
    - destruct (pr_replayed _ _ _ _ _ Hp eq_refl) as (row & Hrow & Hkey & Hrev & _). rewrite Hrow. split_ands; eauto.
    - simpl. split_ands; [apply Hp|eauto|left; by apply Hp]. }
  split_ands; [done|done|]. intros box' later now' u u' Hin Hin' Hk Hexp Hne.
  destruct (applyConversationRequestUpdates box' later now' t') as [[[]|c e] t''] eqn:E.
  - exfalso. destruct (applied _ _ _ _ _ E) as [Hu' _]. destruct (Hu' u' Hin') as (r & b & Hp & _).
    destruct (Heach u Hin) as (Hrev & (row & Hrow & Hkey) & _). destruct b.
    + destruct (pr_replayed _ _ _ _ _ Hp eq_refl) as (row' & Hrow' & Hkey' & _). rewrite Hk, Hrow in Hrow'. congruence.
    + pose proof (pr_fence _ _ _ _ _ Hp eq_refl) as Hf. rewrite Hk, Hrev, Hexp in Hf. lia.
  - split; [done|]. change t'' with ((Raise (A := unit) c e, t'').2). rewrite <- E. apply (Href _ _ _ _ c e). by rewrite E.
Qed.

(** An accepted batch of Request updates can be sent again under its key, at
    any time before the Requests it named change: it is accepted and nothing
    changes. *)
Theorem request_updates_replayable box input now t t' now'
    (Happ : applyConversationRequestUpdates box input now t = (Done tt, t')) :
  applyConversationRequestUpdates box input now' t' = (Done tt, t').
Proof.
  destruct (applied _ _ _ _ _ Happ) as [Hu _]. unfold applyConversationRequestUpdates in *.
  destruct (prepareConversationRequestUpdates box t input) as [ps|] eqn:Ep; [|done].
  pose proof (prepare_done _ _ _ _ Ep) as [_ Hnd]. unfold prepareConversationRequestUpdates in *.
  do 2 (case_cond_in Ep; [done|]). clear Happ.
  destruct (prepareEach_again t' input (ui_updates input) [] Hnd) as (ps' & -> & Hps).
  - intros u _. apply not_elem_of_nil.
  - intros u Hin. destruct (Hu u Hin) as (r & b & Hp & Hval). destruct b.
    + destruct (pr_replayed _ _ _ _ _ Hp eq_refl) as (row & Hrow & ? & ? & ? & ? & ?). rewrite Hrow in Hval.
      by eapply prepareUpdate_again.
    + eapply prepareUpdate_again; [done|exact Hval|done|apply Hp|done|done|done].
  - by rewrite save_replayed.
Qed.

(** ** A concrete Conversation *)

Definition sample_update (expected : Z) (d : option Disposition) : AppConversationRequestUpdate :=
  mkUpdate "r1" expected None (Some "ship the report") d (Some "sent") (Some [mkTaskRef "demo" "t1"]).
Definition sample_updates (key : string) (u : AppConversationRequestUpdate) : ConversationRequestUpdatesInput :=
  mkUpdates "demo" "c1" None false [u] key (Some "m1") None.

Definition opened_requests : requests :=
  (applyConversationRequestUpdates ∅ (sample_updates "k1" (sample_update 0 None)) 10 ∅).2.

(** The Request is opened, opening it again changes nothing, and it is closed
    with its scope. *)
Lemma request_updates_replayable_witness :
  applyConversationRequestUpdates ∅ (sample_updates "k1" (sample_update 0 None)) 20 opened_requests =
    (Done tt, opened_requests) /\
  is_done (applyConversationRequestUpdates ∅ (sample_updates "k2" (sample_update 1 (Some fulfilled))) 30 opened_requests).1 = true.
Proof.
  split; [|vm_compute; reflexivity].
  apply (request_updates_replayable ∅ (sample_updates "k1" (sample_update 0 None)) 10 ∅ opened_requests 20).
  apply injective_projections; [vm_compute; reflexivity|reflexivity].
Defined.

(** A second writer that saw no Request is refused, one that saw it is not. *)
Lemma request_updates_serialized_witness :
  is_done (applyConversationRequestUpdates ∅ (sample_updates "k2" (sample_update 0 None)) 20 opened_requests).1 = false /\
  is_done (applyConversationRequestUpdates ∅ (sample_updates "k2" (sample_update 1 None)) 20 opened_requests).1 = true.
Proof.
  split; [|vm_compute; reflexivity].
  destruct (request_updates_serialized ∅ (sample_updates "k1" (sample_update 0 None)) 10 ∅) as [_ H].
  destruct (H opened_requests) as (_ & _ & Hlater); [apply injective_projections; [vm_compute; reflexivity|reflexivity]|].
  apply (Hlater ∅ (sample_updates "k2" (sample_update 0 None)) 20 (sample_update 0 None) (sample_update 0 None));
    [by left|by left|reflexivity|reflexivity|done].
Defined.

End RequestLaws.
