(* ===== verification/EventAdmission.v ===== *)
(** The journal of event admissions
    ([src/app/core/state/app-event-admission-store.ts], tables in
    [src/lib/db/schema.ts]): for each event a plan with one command per App.  A
    command is translated at most once, admitted at most once, and retried until
    then; the plan completes when no command is pending.

    The payload of a command is the JSON value its column encodes; [seen] holds
    the ids of the [events] table, which the plan references. *)
From S2P Require Import Prelude Json TaskState Effects Records.

Module EventAdmission.
Import Effects.

(** ** Data *)

Inductive RouteBody : Type :=
| unresolved (subscriptionIds : list string) (resolveTask : bool)
| noop
| r_inbox (input : obj json)
| r_task (intent : option (obj json))
| exact_task (targetedTaskId : string).

Record AppEventAdmissionRoute : Type := mkRoute {
  rt_appId : string;
  rt_routeId : string;
  rt_body : RouteBody;
  rt_conditionTaskIds : list string }.

Inductive CommandStatus : Type := cmd_pending | cmd_admitted | cmd_superseded.
Inductive PlanStatus : Type := plan_pending | plan_completed | plan_superseded.

#[export] Instance CommandStatus_eq_dec : EqDecision CommandStatus.
Proof. solve_decision. Defined.
#[export] Instance PlanStatus_eq_dec : EqDecision PlanStatus.
Proof. solve_decision. Defined.

Record AppEventAdmissionCommand : Type := mkCommand {
  cm_route : AppEventAdmissionRoute;
  cm_payloadVersion : Z;
  cm_status : CommandStatus;
  cm_lastError : option string;
  cm_admittedAt : option Z;
  cm_resolvedSnapshotId : option string }.

Record AppEventAdmissionPlan : Type := mkPlan {
  pl_eventId : Z;
  pl_registrySnapshotId : string;
  pl_registryGeneration : Z;
  pl_status : PlanStatus;
  pl_commands : list AppEventAdmissionCommand;
  pl_lastError : option string;
  pl_createdAt : Z;
  pl_updatedAt : Z;
  pl_completedAt : option Z }.

Record PlanRow : Type := mkPlanRow {
  pr_registry_snapshot_id : string;
  pr_registry_generation : Z;
  pr_status : PlanStatus;
  pr_last_error : option string;
  pr_created_at : Z;
  pr_updated_at : Z;
  pr_completed_at : option Z }.

Record CommandRow : Type := mkCommandRow {
  cr_route_kind : string;
  cr_route_id : string;
  cr_resolved_snapshot_id : option string;
  cr_payload_version : Z;
  cr_payload : json;
  cr_status : CommandStatus;
  cr_last_error : option string;
  cr_admitted_at : option Z;
  cr_updated_at : Z }.

Record Journal : Type := mkJournal {
  plans : gmap Z PlanRow;
  commands : gmap (Z * string) CommandRow;
  seen : gset Z }.

Definition APP_EVENT_ADMISSION_PAYLOAD_VERSION : Z := 2.

(** ** Encoding *)

Definition requiredText (value field : string) : res string :=
  if nonblank value then Ok (trim value) else Throw ("Invalid App event admission " +:+ field).

Definition requiredPositiveInteger (value : number) (field : string) : res Z :=
  if isSafeInteger value && (0 <? number_to_Z value) then Ok (number_to_Z value)
  else Throw ("Invalid App event admission " +:+ field).

Definition kindName (b : RouteBody) : string :=
  match b with
  | unresolved _ _ => "unresolved"
  | noop => "noop"
  | r_inbox _ => "inbox"
  | r_task _ => "task"
  | exact_task _ => "exact-task"
  end.

Definition strings (l : list string) : json := JArr (map JStr l).

Definition serializeRoute (route : AppEventAdmissionRoute) : json :=
  let conditions := ("conditionTaskIds", strings (rt_conditionTaskIds route)) in
  match rt_body route with
  | unresolved ids resolve => JObj [("subscriptionIds", strings ids); ("resolveTask", JBool resolve); conditions]
  | noop => JObj [conditions]
  | r_inbox input => JObj [("input", JObj input); conditions]
  | r_task intent => JObj [("intent", match intent with Some i => JObj i | None => JNull end); conditions]
  | exact_task t => JObj [("targetedTaskId", JStr t); conditions]
  end.

Definition parsePayload (value : json) : res (obj json) :=
  match value with JObj o => Ok o | _ => Throw "Invalid App event admission payload JSON: payload is not an object" end.

Fixpoint allStrings (l : list json) : option (list string) :=
  match l with
  | [] => Some []
  | JStr s :: l => (s ::.) <$> allStrings l
  | _ => None
  end.

Definition stringList (value : option json) (field : string) : res (list string) :=
  match value with
  | Some (JArr l) =>
      match allStrings l with
      | Some l => Ok (filter (fun s => s <> "") (map trim l))
      | None => Throw ("Invalid App event admission " +:+ field)
      end
  | _ => Throw ("Invalid App event admission " +:+ field)
  end.

#[local] Instance res_bind' : MBind res := fun A B f x => match x with Ok a => f a | Throw e => Throw e end.
#[local] Instance res_ret' : MRet res := @Ok.

(** The body of a stored command. *)
Definition routeBody (kind : string) (payload : obj json) : res RouteBody :=
  if String.eqb kind "unresolved" then
    match obj_get "resolveTask" payload with
    | Some (JBool r) => ids ← stringList (obj_get "subscriptionIds" payload) "subscriptionIds"; mret (unresolved ids r)
    | _ => Throw "Invalid App admission resolveTask"
    end
  else if String.eqb kind "noop" then mret noop
  else if String.eqb kind "inbox" then
    match obj_get "input" payload with
    | Some (JObj i) => mret (r_inbox i)
    | _ => Throw "Invalid App event admission inbox input"
    end
  else if String.eqb kind "task" then
    match obj_get "intent" payload with
    | Some (JObj i) => mret (r_task (Some i))
    | Some JNull => mret (r_task None)
    | _ => Throw "Invalid App event admission task intent"
    end
  else if String.eqb kind "exact-task" then
    match obj_get "targetedTaskId" payload with
    | Some (JStr t) => t ← requiredText t "targetedTaskId"; mret (exact_task t)
    | _ => Throw "Invalid App event admission targetedTaskId"
    end
  else Throw ("Invalid App event admission route_kind: " +:+ kind).

Definition commandFromRow (appId : string) (row : CommandRow) : res AppEventAdmissionCommand :=
  appId ← requiredText appId "app_id";
  routeId ← requiredText (cr_route_id row) "route_id";
  kind ← requiredText (cr_route_kind row) "route_kind";
  version ← requiredPositiveInteger (num (cr_payload_version row)) "payload_version";
  if negb (version =? 1) && negb (version =? APP_EVENT_ADMISSION_PAYLOAD_VERSION) then
    Throw ("Unsupported App event admission payload version: " +:+ show_Z version)
  else
    payload ← parsePayload (cr_payload row);
    body ← routeBody kind payload;
    conditions ← (if String.eqb kind "inbox" && (version =? 1) && bool_decide (obj_get "conditionTaskIds" payload = None)
                  then mret [] else stringList (obj_get "conditionTaskIds" payload) "conditionTaskIds");
    mret (mkCommand (mkRoute appId routeId body conditions) version (cr_status row) (nonempty (cr_last_error row))
            (cr_admitted_at row) (nonempty (cr_resolved_snapshot_id row))).

(** ** Reads *)

(** The commands of an event, by App. *)
Definition planRows (j : Journal) (eventId : Z) : list (string * CommandRow) :=
  omap (fun e => if e.1.1 =? eventId then Some (e.1.2, e.2) else None) (map_to_list (commands j)).

Definition byApp (a b : string * CommandRow) : Prop := String.leb a.1 b.1 = true.
#[export] Instance byApp_dec : RelDecision byApp.
Proof. intros a b. unfold byApp. apply _. Defined.

Fixpoint readCommands (rows : list (string * CommandRow)) : res (list AppEventAdmissionCommand) :=
  match rows with
  | [] => mret []
  | (appId, row) :: rows => c ← commandFromRow appId row; cs ← readCommands rows; mret (c :: cs)
  end.

Definition getAppEventAdmissionPlan (j : Journal) (eventId : Z) : res (option AppEventAdmissionPlan) :=
  match plans j !! eventId with
  | None => mret None
  | Some p =>
      cs ← readCommands (merge_sort byApp (planRows j eventId));
      id ← requiredPositiveInteger (num eventId) "event_id";
      snapshot ← requiredText (pr_registry_snapshot_id p) "registry_snapshot_id";
      generation ← requiredPositiveInteger (num (pr_registry_generation p)) "registry_generation";
      mret (Some (mkPlan id snapshot generation (pr_status p) cs (nonempty (pr_last_error p)) (pr_created_at p)
                    (pr_updated_at p) (pr_completed_at p)))
  end.

(** A bounded slice of the pending plans whose cooldown has passed. *)
Definition oldestUpdate (a b : Z * PlanRow) : Prop :=
  (pr_updated_at a.2 <? pr_updated_at b.2) || ((pr_updated_at a.2 =? pr_updated_at b.2) && (a.1 <=? b.1)) = true.
#[export] Instance oldestUpdate_dec : RelDecision oldestUpdate.
Proof. intros a b. unfold oldestUpdate. apply _. Defined.

Definition pendingPlan (updatedBefore : option Z) (e : Z * PlanRow) : bool :=
  bool_decide (pr_status e.2 = plan_pending) &&
  match updatedBefore with Some b => pr_updated_at e.2 <=? b | None => true end.

Fixpoint readPlans (j : Journal) (ids : list Z) : res (list AppEventAdmissionPlan) :=
  match ids with
  | [] => mret []
  | id :: ids =>
      p ← getAppEventAdmissionPlan j id;
      ps ← readPlans j ids;
      mret (match p with Some p => p :: ps | None => ps end)
  end.

Definition listPendingAppEventAdmissionPlans (j : Journal) (updatedBefore : option Z) (limit : option number)
    : res (list AppEventAdmissionPlan) :=
  let limit := default (num 100) limit in
  if negb (isSafeInteger limit && (1 <=? number_to_Z limit) && (number_to_Z limit <=? 500)) then
    Throw "App event admission recovery limit must be an integer between 1 and 500"
  else readPlans j (map fst (take (Z.to_nat (number_to_Z limit)) (merge_sort oldestUpdate
         (filter (fun e => pendingPlan updatedBefore e = true) (map_to_list (plans j)))))).

(** ** Writes *)

(** The checks on the routes of a new plan. *)
Fixpoint checkRoutes (appIds : list string) (routes : list AppEventAdmissionRoute) : res unit :=
  match routes with
  | [] => mret tt
  | r :: routes =>
      _ ← requiredText (rt_appId r) "route appId";
      _ ← requiredText (rt_routeId r) "route routeId";
      if set_has (rt_appId r) appIds then
        Throw ("App event admission plan has multiple routes for App " +:+ rt_appId r)
      else checkRoutes (set_add (rt_appId r) appIds) routes
  end.

Definition newCommandRow (now : Z) (r : AppEventAdmissionRoute) : CommandRow :=
  mkCommandRow (kindName (rt_body r)) (rt_routeId r) None APP_EVENT_ADMISSION_PAYLOAD_VERSION (serializeRoute r)
    cmd_pending None None now.

(** [INSERT]: the key must be free. *)
Fixpoint insertCommands (eventId now : Z) (routes : list AppEventAdmissionRoute) (cs : gmap (Z * string) CommandRow)
    : res (gmap (Z * string) CommandRow) :=
  match routes with
  | [] => mret cs
  | r :: routes =>
      match cs !! (eventId, rt_appId r) with
      | Some _ => Throw "UNIQUE constraint failed"
      | None => insertCommands eventId now routes (<[(eventId, rt_appId r) := newCommandRow now r]> cs)
      end
  end.

(** The transaction that saves a plan with its commands. *)
Definition savePlan (eventId : Z) (snapshot : string) (generation : Z) (routes : list AppEventAdmissionRoute) (now : Z)
    : E Journal unit := fun j =>
  if negb (bool_decide (eventId ∈ seen j)) then (Raise PlainError "FOREIGN KEY constraint failed", j)
  else if bool_decide (is_Some (plans j !! eventId)) then (Raise PlainError "UNIQUE constraint failed", j)
  else match insertCommands eventId now routes (commands j) with
       | Throw e => (Raise PlainError e, j)
       | Ok cs => (Done tt, mkJournal (<[eventId := mkPlanRow snapshot generation plan_pending None now now None]> (plans j))
                              cs (seen j))
       end.

Definition createAppEventAdmissionPlan (eventId : number) (registrySnapshotId : string) (registryGeneration : number)
    (routes : list AppEventAdmissionRoute) (now : Z) : E Journal AppEventAdmissionPlan :=
  id ← checks (requiredPositiveInteger eventId "eventId");
  _ ← checks (requiredText registrySnapshotId "registrySnapshotId");
  generation ← checks (requiredPositiveInteger registryGeneration "registryGeneration");
  match routes with
  | [] => throw "App event admission plan requires at least one route"
  | _ =>
      _ ← checks (checkRoutes [] routes);
      existing ← asks (fun j => getAppEventAdmissionPlan j id);
      match existing with
      | Some plan => mret plan
      | None =>
          _ ← savePlan id registrySnapshotId generation routes now;
          created ← asks (fun j => getAppEventAdmissionPlan j id);
          match created with
          | Some plan => mret plan
          | None => throw "App event admission plan was not persisted"
          end
      end
  end.

(** [UPDATE app_event_admission_commands ... WHERE event_id, app_id AND cond]. *)
Definition updateCommand (k : Z * string) (cond : CommandRow -> bool) (f : CommandRow -> CommandRow) (j : Journal)
    : Z * Journal :=
  match commands j !! k with
  | Some row => if cond row then (1, mkJournal (plans j) (<[k := f row]> (commands j)) (seen j)) else (0, j)
  | None => (0, j)
  end.

Definition updatePlan (eventId : Z) (f : PlanRow -> PlanRow) (j : Journal) : Z * Journal :=
  match plans j !! eventId with
  | Some p => if bool_decide (pr_status p = plan_pending)
              then (1, mkJournal (<[eventId := f p]> (plans j)) (commands j) (seen j)) else (0, j)
  | None => (0, j)
  end.

Definition isPending (row : CommandRow) : bool := bool_decide (cr_status row = cmd_pending).

(** A translation is frozen before any effect. *)
Definition resolveAppEventAdmissionCommand (eventId : Z) (route : AppEventAdmissionRoute) (registrySnapshotId : string)
    (now : Z) : E Journal unit :=
  changed ← updates (updateCommand (eventId, rt_appId route)
    (fun row => String.eqb (cr_route_kind row) "unresolved" && isPending row)
    (fun row => mkCommandRow (kindName (rt_body route)) (rt_routeId route) (Some registrySnapshotId)
                  APP_EVENT_ADMISSION_PAYLOAD_VERSION (serializeRoute route) (cr_status row) None (cr_admitted_at row) now));
  if negb (changed =? 1) then throw "App event translation no longer owns its pending command" else mret tt.

Definition markAppEventAdmissionCommandAdmitted (eventId : Z) (appId : string) (now : Z) : E Journal unit :=
  changed ← updates (updateCommand (eventId, appId) isPending
    (fun row => mkCommandRow (cr_route_kind row) (cr_route_id row) (cr_resolved_snapshot_id row) (cr_payload_version row)
                  (cr_payload row) cmd_admitted None
                  (match cr_admitted_at row with Some a => Some a | None => Some now end) now));
  if changed =? 0 then
    row ← reads (fun j => commands j !! (eventId, appId));
    if bool_decide (cr_status <$> row = Some cmd_admitted) then mret tt
    else throw ("App event admission command " +:+ show_Z eventId +:+ "/" +:+ appId +:+ " is unavailable")
  else mret tt.

Definition recordAppEventAdmissionCommandFailure (eventId : Z) (appId message : string) (now : Z) : E Journal unit :=
  _ ← updates (updateCommand (eventId, appId) isPending
    (fun row => mkCommandRow (cr_route_kind row) (cr_route_id row) (cr_resolved_snapshot_id row) (cr_payload_version row)
                  (cr_payload row) (cr_status row) (Some message) (cr_admitted_at row) now));
  _ ← updates (updatePlan eventId (fun p => mkPlanRow (pr_registry_snapshot_id p) (pr_registry_generation p) (pr_status p)
                  (Some message) (pr_created_at p) now (pr_completed_at p)));
  mret tt.

Definition completeAppEventAdmissionPlan (eventId now : Z) : E Journal bool :=
  pending ← reads (fun j => existsb (fun e => isPending e.2) (planRows j eventId));
  if (pending : bool) then mret false
  else
    changed ← updates (updatePlan eventId (fun p => mkPlanRow (pr_registry_snapshot_id p) (pr_registry_generation p)
      plan_completed None (pr_created_at p) now (match pr_completed_at p with Some c => Some c | None => Some now end)));
    if 0 <? changed then mret true
    else reads (fun j => bool_decide (pr_status <$> plans j !! eventId = Some plan_completed)).

End EventAdmission.
