(* ===== verification/EventAdmissionLaws.v ===== *)
(** What holds of the admission journal ([EventAdmission]): a saved plan reads
    back as it was planned, translations and admissions are final, and through
    any history of operations a completed plan has no pending command. *)
From S2P Require Import Prelude Json TaskState Effects Records EventAdmission.

Module EventAdmissionLaws.
Import Effects EventAdmission.

(** ** Round trips *)

(** Text that trimming keeps. *)
Definition clean (s : string) : Prop := trim s = s /\ s <> "".

Definition cleanBody (b : RouteBody) : Prop :=
  match b with
  | unresolved ids _ => forall i, i ∈ ids -> clean i
  | exact_task t => clean t
  | _ => True
  end.

Definition cleanRoute (r : AppEventAdmissionRoute) : Prop :=
  clean (rt_appId r) /\ clean (rt_routeId r) /\ cleanBody (rt_body r) /\ forall i, i ∈ rt_conditionTaskIds r -> clean i.

Lemma clean_required s f : clean s -> requiredText s f = Ok s.
Proof. intros [Ht Hne]. unfold requiredText, nonblank. rewrite Ht. by rewrite (proj2 (String.eqb_neq _ _)). Qed.

Lemma allStrings_strings l : allStrings (map JStr l) = Some l.
Proof. induction l as [|s l IH]; [done|]. simpl. by rewrite IH. Qed.

Lemma stringList_strings l f : (forall i, i ∈ l -> clean i) -> stringList (Some (strings l)) f = Ok l.
Proof.
  intros H. unfold stringList, strings. rewrite allStrings_strings. f_equal.
  induction l as [|s l IH]; [done|]. simpl. destruct (H s ltac:(by left)) as [-> Hne].
  rewrite filter_cons_True by done. f_equal. apply IH. intros i Hi. apply H. by right.
Qed.

Lemma body_roundtrip r : cleanRoute r -> exists payload,
  serializeRoute r = JObj payload /\ routeBody (kindName (rt_body r)) payload = Ok (rt_body r) /\
  obj_get "conditionTaskIds" payload = Some (strings (rt_conditionTaskIds r)).
Proof.
  intros (_ & _ & Hb & _). destruct r as [a i b cs]. simpl in *.
  destruct b as [ids rs| |input|[intent|]|t]; eexists; (split; [reflexivity|]); (split; [|reflexivity]); try reflexivity;
    unfold routeBody; cbn [kindName obj_get String.eqb Ascii.eqb Bool.eqb].
  - by rewrite stringList_strings.
  - by rewrite clean_required.
Qed.

Definition pendingCommand (r : AppEventAdmissionRoute) : AppEventAdmissionCommand :=
  mkCommand r APP_EVENT_ADMISSION_PAYLOAD_VERSION cmd_pending None None None.

Lemma command_roundtrip now r : cleanRoute r -> commandFromRow (rt_appId r) (newCommandRow now r) = Ok (pendingCommand r).
Proof.
  intros Hr. destruct (body_roundtrip r Hr) as (payload & Hp & Hbody & Hcond). destruct Hr as (Ha & Hi & Hb & Hc).
  unfold commandFromRow. cbn [newCommandRow cr_route_id cr_route_kind cr_payload_version cr_payload cr_status cr_last_error
    cr_admitted_at cr_resolved_snapshot_id]. rewrite (clean_required _ _ Ha), (clean_required _ _ Hi).
  unfold mbind, res_bind'. rewrite (clean_required (kindName (rt_body r))) by (by destruct (rt_body r)).
  change (requiredPositiveInteger (num APP_EVENT_ADMISSION_PAYLOAD_VERSION) "payload_version") with (Ok 2).
  cbv iota beta. rewrite Hp. change (negb (2 =? 1) && negb (2 =? APP_EVENT_ADMISSION_PAYLOAD_VERSION)) with false. cbv iota.
  change (parsePayload (JObj payload)) with (Ok payload). cbv iota beta. rewrite Hbody, Hcond.
  change (2 =? 1) with false. rewrite andb_false_r. cbv iota beta. cbn [andb]. cbv iota beta. rewrite stringList_strings by done. by destruct r.
Qed.

Lemma readCommands_map now rs : (forall r, r ∈ rs -> cleanRoute r) ->
  readCommands (map (fun r => (rt_appId r, newCommandRow now r)) rs) = Ok (map pendingCommand rs).
Proof.
  induction rs as [|r rs IH]; intros H; [done|]. simpl. rewrite command_roundtrip by (apply H; by left).
  simpl. rewrite IH by (intros; apply H; by right). done.
Qed.

(** ** Saving a plan *)

Lemma checkRoutes_ok ids routes :
  checkRoutes ids routes = Ok tt -> NoDup (map rt_appId routes) /\ forall r, r ∈ routes -> rt_appId r ∉ ids.
Proof.
  revert ids. induction routes as [|r routes IH]; intros ids H; [split; [constructor|set_solver]|]. simpl in H.
  destruct (requiredText (rt_appId r) _); [|done]. simpl in H. destruct (requiredText (rt_routeId r) _); [|done]. simpl in H.
  destruct (set_has (rt_appId r) ids) eqn:Es; [done|]. apply set_has_false in Es.
  destruct (IH _ H) as [Hnd Hids]. split.
  - simpl. apply NoDup_cons. split; [|done]. intros (x & Hx & Hin)%list_elem_of_fmap.
    apply (Hids x Hin), elem_of_set_add. by left.
  - intros x [->|Hx]%elem_of_cons; [done|]. intros Hin. apply (Hids x Hx), elem_of_set_add. by right.
Qed.

Lemma insertCommands_ok eventId now routes cs :
  NoDup (map rt_appId routes) -> (forall r, r ∈ routes -> cs !! (eventId, rt_appId r) = None) ->
  exists cs', insertCommands eventId now routes cs = Ok cs' /\
    map_to_list cs' ≡ₚ map (fun r => ((eventId, rt_appId r), newCommandRow now r)) routes ++ map_to_list cs.
Proof.
  revert cs. induction routes as [|r routes IH]; intros cs Hnd Hfree; [by exists cs|]. simpl in *.
  apply NoDup_cons in Hnd as [Hr Hnd]. rewrite Hfree by (by left).
  destruct (IH (<[(eventId, rt_appId r) := newCommandRow now r]> cs) Hnd) as (cs' & Hcs & Hperm).
  - intros x Hx. rewrite lookup_insert_ne; [apply Hfree; by right|]. intros [= E]. apply Hr, list_elem_of_fmap. by exists x.
  - exists cs'. split; [done|]. rewrite Hperm, map_to_list_insert by (apply Hfree; by left).
    by rewrite Permutation_middle.
Qed.

Definition rowOf (eventId : Z) (e : Z * string * CommandRow) : option (string * CommandRow) :=
  if e.1.1 =? eventId then Some (e.1.2, e.2) else None.

Lemma planRows_rowOf j eventId : planRows j eventId = omap (rowOf eventId) (map_to_list (commands j)).
Proof. done. Qed.

Lemma rows_of_new eventId now routes :
  omap (rowOf eventId) (map (fun r => ((eventId, rt_appId r), newCommandRow now r)) routes) =
  map (fun r => (rt_appId r, newCommandRow now r)) routes.
Proof. induction routes as [|r routes IH]; [done|]. cbn. unfold rowOf. simpl. rewrite Z.eqb_refl. f_equal. exact IH. Qed.

Lemma elem_of_planRows j eventId a row : (a, row) ∈ planRows j eventId <-> commands j !! (eventId, a) = Some row.
Proof.
  unfold planRows. rewrite list_elem_of_omap. split.
  - intros ([[e x] r] & Hin & H). simpl in H. destruct (Z.eqb_spec e eventId) as [->|]; [|done]. injection H as -> ->.
    by apply elem_of_map_to_list.
  - intros H. exists (eventId, a, row). rewrite elem_of_map_to_list. split; [done|]. simpl. by rewrite Z.eqb_refl.
Qed.

#[export] Instance byApp_total : Total byApp.
Proof. intros a b. apply String.leb_total. Qed.
#[export] Instance byApp_trans : Transitive byApp.
Proof. intros a b c H1 H2. unfold byApp in *. apply Is_true_true, (transitivity (R := String.le) (y := b.1)); by apply Is_true_true. Qed.

Definition byAppId (a b : AppEventAdmissionCommand) : Prop :=
  String.leb (rt_appId (cm_route a)) (rt_appId (cm_route b)) = true.

Lemma sorted_commands now rs :
  StronglySorted byApp (map (fun r => (rt_appId r, newCommandRow now r)) rs) -> StronglySorted byAppId (map pendingCommand rs).
Proof.
  induction rs as [|r rs IH]; intros H; [constructor|]. simpl in *. inversion H as [|? ? Hs Hf]; subst.
  constructor; [by apply IH|]. apply List.Forall_map. exact (proj1 (List.Forall_map _ _ _) Hf).
Qed.

(** ** Histories *)

(** The operations on the journal; an event is recorded before its plan. *)
Inductive op : Type :=
| o_event (eventId : Z)
| o_create (eventId : number) (snapshot : string) (generation : number) (routes : list AppEventAdmissionRoute) (now : Z)
| o_resolve (eventId : Z) (route : AppEventAdmissionRoute) (snapshot : string) (now : Z)
| o_admit (eventId : Z) (appId : string) (now : Z)
| o_fail (eventId : Z) (appId message : string) (now : Z)
| o_complete (eventId now : Z).

(** The journal after an operation, whether it returned or threw. *)
Definition after (o : op) (j : Journal) : Journal :=
  match o with
  | o_event e => mkJournal (plans j) (commands j) ({[e]} ∪ seen j)
  | o_create e s g rs now => (createAppEventAdmissionPlan e s g rs now j).2
  | o_resolve e r s now => (resolveAppEventAdmissionCommand e r s now j).2
  | o_admit e a now => (markAppEventAdmissionCommandAdmitted e a now j).2
  | o_fail e a m now => (recordAppEventAdmissionCommandFailure e a m now j).2
  | o_complete e now => (completeAppEventAdmissionPlan e now j).2
  end.

Definition run (l : list op) (j : Journal) : Journal := fold_left (fun j o => after o j) l j.

(** The journal is consistent: a plan belongs to a known event and has commands,
    a command belongs to a plan, its admission time is recorded exactly when it
    is admitted, and a completed plan has no pending command. *)
Record journal_ok (j : Journal) : Prop := {
  jo_seen : forall e p, plans j !! e = Some p -> e ∈ seen j;
  jo_plan : forall e a row, commands j !! (e, a) = Some row -> is_Some (plans j !! e);
  jo_commands : forall e p, plans j !! e = Some p -> exists a row, commands j !! (e, a) = Some row;
  jo_admitted : forall k row, commands j !! k = Some row ->
    (cr_status row = cmd_admitted <-> is_Some (cr_admitted_at row));
  jo_completed : forall e p, plans j !! e = Some p ->
    (pr_status p = plan_completed <-> is_Some (pr_completed_at p)) /\
    (pr_status p = plan_completed -> forall a row, commands j !! (e, a) = Some row -> cr_status row <> cmd_pending) }.

Lemma insertCommands_lookup eventId now routes cs cs' k row :
  insertCommands eventId now routes cs = Ok cs' -> cs' !! k = Some row ->
  cs !! k = Some row \/ (k.1 = eventId /\ exists r, row = newCommandRow now r).
Proof.
  revert cs. induction routes as [|r routes IH]; intros cs H Hk; simpl in H; [injection H as <-; by left|].
  destruct (cs !! (eventId, rt_appId r)); [done|]. destruct (IH _ H Hk) as [Hin|Hin]; [|by right].
  apply lookup_insert_Some in Hin as [[<- <-]|[_ Hin]]; [right; eauto|by left].
Qed.

Lemma insertCommands_keeps eventId now routes cs cs' k row :
  insertCommands eventId now routes cs = Ok cs' -> cs !! k = Some row -> cs' !! k = Some row.
Proof.
  revert cs. induction routes as [|r routes IH]; intros cs H Hk; simpl in H; [by injection H as <-|].
  destruct (cs !! (eventId, rt_appId r)) eqn:E; [done|]. apply (IH _ H). rewrite lookup_insert_ne; [done|]. congruence.
Qed.

Lemma insertCommands_first eventId now r routes cs cs' :
  insertCommands eventId now (r :: routes) cs = Ok cs' -> is_Some (cs' !! (eventId, rt_appId r)).
Proof.
  simpl. destruct (cs !! (eventId, rt_appId r)); [done|]. intros H.
  eexists. eapply insertCommands_keeps; [exact H|]. apply lookup_insert_eq.
Qed.

(** What creating a plan does to the journal. *)
Lemma create_effect e s g rs now j :
  (createAppEventAdmissionPlan e s g rs now j).2 = j \/
  exists id generation cs, plans j !! id = None /\ id ∈ seen j /\ rs <> [] /\ insertCommands id now rs (commands j) = Ok cs /\
    (createAppEventAdmissionPlan e s g rs now j).2 =
    mkJournal (<[id := mkPlanRow s generation plan_pending None now now None]> (plans j)) cs (seen j).
Proof.
  unfold createAppEventAdmissionPlan. rewrite checks_bind. destruct (requiredPositiveInteger e _) as [id|]; [|by left].
  rewrite checks_bind. destruct (requiredText s _); [|by left]. rewrite checks_bind.
  destruct (requiredPositiveInteger g _) as [generation|]; [|by left]. destruct rs as [|r rs]; [by left|].
  rewrite checks_bind. destruct (checkRoutes [] (r :: rs)); [|by left]. rewrite asks_bind.
  destruct (getAppEventAdmissionPlan j id) as [[plan|]|] eqn:Eg; [by left| |by left].
  rewrite bind_reading by (intros ? ?; rewrite asks_bind; repeat case_cond; done).
  unfold savePlan. destruct (bool_decide (id ∈ seen j)) eqn:Es; [|by left].
  destruct (bool_decide (is_Some (plans j !! id))) eqn:Hp; [by left|].
  destruct (insertCommands id now (r :: rs) (commands j)) as [cs|] eqn:Ei; [|by left]. right. reflect_bools.
  exists id, generation, cs. split_ands; try done. by apply eq_None_not_Some.
Qed.

Lemma create_keeps_ok e s g rs now : keeps journal_ok (createAppEventAdmissionPlan e s g rs now).
Proof.
  intros j Hj. destruct (create_effect e s g rs now j) as [->|(id & gen & cs & Hfree & Hseen & Hne & Hins & ->)]; [done|].
  assert (forall k row, cs !! k = Some row -> commands j !! k = Some row \/ (k.1 = id /\ exists r, row = newCommandRow now r))
    as Hcs by (intros; by eapply insertCommands_lookup).
  split; simpl.
  - intros x p [[<- _]|[_ Hp]]%lookup_insert_Some; [done|by eapply jo_seen].
  - intros x a row Hrow. destruct (decide (x = id)) as [->|Hx]; [rewrite lookup_insert_eq; eauto|].
    rewrite lookup_insert_ne by done. destruct (Hcs _ _ Hrow) as [H|[H _]]; [by eapply jo_plan|done].
  - intros x p [[<- _]|[Hx Hp]]%lookup_insert_Some.
    + destruct rs as [|r rs]; [done|]. destruct (insertCommands_first _ _ _ _ _ _ Hins) as [row Hr]. eauto.
    + destruct (jo_commands j Hj x p Hp) as (a & row & Hr). exists a, row. by eapply insertCommands_keeps.
  - intros k row Hrow. destruct (Hcs _ _ Hrow) as [H|[_ [r ->]]]; [by eapply jo_admitted|]. simpl. split; [done|by intros [? ?]].
  - intros x p [[<- <-]|[Hx Hp]]%lookup_insert_Some; [split; [simpl; split; [done|by intros [? ?]]|done]|].
    destruct (jo_completed j Hj x p Hp) as [H1 H2]. split; [done|]. intros Hc a row Hrow.
    destruct (Hcs _ _ Hrow) as [H|[H _]]; [by eapply H2|done].
Qed.

(** A write of one command that keeps it in its state, or admits it. *)
Lemma updateCommand_keeps_ok k cond f :
  (forall row, (cr_status row = cmd_admitted <-> is_Some (cr_admitted_at row)) ->
     (cr_status (f row) = cmd_admitted <-> is_Some (cr_admitted_at (f row)))) ->
  (forall row, cond row = true -> cr_status row = cmd_pending) ->
  forall j, journal_ok j -> journal_ok (updateCommand k cond f j).2.
Proof.
  intros Hadm Hcond j Hj. unfold updateCommand. destruct (commands j !! k) as [row|] eqn:Ek; [|done].
  destruct (cond row) eqn:Ec; [|done]. apply Hcond in Ec. simpl. split; simpl.
  - apply Hj.
  - intros e a r Hr. destruct (decide (k = (e, a))) as [->|Hne]; [by eapply jo_plan|].
    rewrite lookup_insert_ne in Hr by done. by eapply jo_plan.
  - intros e p Hp. destruct (jo_commands j Hj e p Hp) as (a & r & Hr). exists a.
    destruct (decide (k = (e, a))) as [->|Hne]; [rewrite lookup_insert_eq; eauto|]. exists r. by rewrite lookup_insert_ne.
  - intros k' r [[<- <-]|[_ Hr]]%lookup_insert_Some; [apply Hadm|]; by eapply jo_admitted.
  - intros e p Hp. destruct (jo_completed j Hj e p Hp) as [H1 H2]. split; [done|]. intros Hc a r.
    destruct (decide (k = (e, a))) as [->|Hne]; [by destruct (H2 Hc a row Ek)|].
    rewrite lookup_insert_ne by done. by apply H2.
Qed.

Lemma updatePlan_keeps_ok e f :
  (forall p, pr_status p = plan_pending -> (pr_status p = plan_completed <-> is_Some (pr_completed_at p)) ->
     (pr_status (f p) = plan_completed <-> is_Some (pr_completed_at (f p)))) ->
  forall j, journal_ok j ->
    (forall p, pr_status (f p) = plan_completed -> pr_status p <> plan_completed ->
       forall a row, commands j !! (e, a) = Some row -> cr_status row <> cmd_pending) ->
    journal_ok (updatePlan e f j).2.
Proof.
  intros Hf j Hj Hdone. unfold updatePlan. destruct (plans j !! e) as [p|] eqn:Ep; [|done].
  case_bool_decide as Hp; [|done]. simpl. destruct (jo_completed j Hj e p Ep) as [H1 H2]. split; simpl.
  - intros x q [[<- _]|[_ Hq]]%lookup_insert_Some; by eapply jo_seen.
  - intros x a row Hr. destruct (decide (e = x)) as [->|Hne]; [rewrite lookup_insert_eq; eauto|].
    rewrite lookup_insert_ne by done. by eapply jo_plan.
  - intros x q [[<- _]|[_ Hq]]%lookup_insert_Some; by eapply jo_commands.
  - apply Hj.
  - intros x q [[<- <-]|[Hne Hq]]%lookup_insert_Some; [|by apply (jo_completed j Hj)].
    split; [by apply Hf|]. intros Hc. apply (Hdone p Hc). congruence.
Qed.

Lemma isPending_true row : isPending row = true -> cr_status row = cmd_pending.
Proof. unfold isPending. intros H. by reflect_bools. Qed.

Lemma complete_keeps_ok e now : keeps journal_ok (completeAppEventAdmissionPlan e now).
Proof.
  intros j Hj. unfold completeAppEventAdmissionPlan. rewrite bind_reads.
  destruct (existsb _ _) eqn:Ex; [done|]. rewrite updates_bind.
  assert (journal_ok (updatePlan e (fun p => mkPlanRow (pr_registry_snapshot_id p) (pr_registry_generation p)
      plan_completed None (pr_created_at p) now (match pr_completed_at p with Some c => Some c | None => Some now end)) j).2)
    as Hok.
  { apply updatePlan_keeps_ok; [|done|].
    - intros p _ _. simpl. split; [|done]. by destruct (pr_completed_at p).
    - intros p _ _ a row Hr Hp. apply elem_of_planRows in Hr. apply not_true_iff_false in Ex. destruct Ex.
      apply existsb_exists. exists (a, row). split; [by apply list_elem_of_In|]. unfold isPending. simpl. by rewrite bool_decide_true. }
  case_cond; done.
Qed.

Lemma after_keeps_ok o j : journal_ok j -> journal_ok (after o j).
Proof.
  intros Hj. destruct o as [e|e s g rs now|e r s now|e a now|e a m now|e now]; simpl.
  - destruct Hj. split; simpl; try done. intros x p Hp. set_solver.
  - by apply create_keeps_ok.
  - revert j Hj. change (keeps journal_ok (resolveAppEventAdmissionCommand e r s now)). unfold resolveAppEventAdmissionCommand.
    apply bind_keeps; [apply keeps_updates, updateCommand_keeps_ok; [done|]|intros; case_cond; auto with may].
    intros row H. reflect_bools. by apply isPending_true.
  - revert j Hj. change (keeps journal_ok (markAppEventAdmissionCommandAdmitted e a now)).
    unfold markAppEventAdmissionCommandAdmitted. apply bind_keeps; [apply keeps_updates, updateCommand_keeps_ok|].
    + intros row _. simpl. split; [|done]. by destruct (cr_admitted_at row).
    + intros row H. by apply isPending_true.
    + intros n. keeps_walk.
  - revert j Hj. change (keeps journal_ok (recordAppEventAdmissionCommandFailure e a m now)).
    unfold recordAppEventAdmissionCommandFailure. apply bind_keeps; [apply keeps_updates, updateCommand_keeps_ok; [done|]|].
    + intros row H. by apply isPending_true.
    + intros _. apply bind_keeps; [|auto with may]. apply keeps_updates. intros j Hj. apply updatePlan_keeps_ok; [done|done|].
      intros p Hc Hn. done.
  - by apply complete_keeps_ok.
Qed.

Lemma run_keeps_ok l j : journal_ok j -> journal_ok (run l j).
Proof. revert j. induction l as [|o l IH]; intros j Hj; [done|]. apply IH. by apply after_keeps_ok. Qed.

(** ** What is final *)

(** The route of a translated command, and of an admitted one all but nothing. *)
Definition settles (row row' : CommandRow) : Prop :=
  (cr_route_kind row <> "unresolved" ->
     cr_route_kind row' = cr_route_kind row /\ cr_route_id row' = cr_route_id row /\ cr_payload row' = cr_payload row /\
     cr_payload_version row' = cr_payload_version row /\ cr_resolved_snapshot_id row' = cr_resolved_snapshot_id row) /\
  (cr_status row <> cmd_pending -> row' = row).

#[export] Instance settles_preorder : PreOrder settles.
Proof.
  split; [by intros row|]. intros r1 r2 r3 [H1 K1] [H2 K2]. split.
  - intros Hk. destruct (H1 Hk) as (E1 & E2 & E3 & E4 & E5). rewrite <- E1 in Hk.
    destruct (H2 Hk) as (F1 & F2 & F3 & F4 & F5). split_ands; congruence.
  - intros Hs. rewrite <- (K1 Hs). apply K2. by rewrite (K1 Hs).
Qed.

Definition settled (j j' : Journal) : Prop :=
  forall k row, commands j !! k = Some row -> exists row', commands j' !! k = Some row' /\ settles row row'.

Lemma settled_refl j : settled j j.
Proof. intros k row H. by exists row. Qed.

Lemma updateCommand_settled k cond f j :
  (forall row, cond row = true -> settles row (f row)) -> settled j (updateCommand k cond f j).2.
Proof.
  intros Hf. unfold updateCommand. destruct (commands j !! k) as [row|] eqn:Ek; [|apply settled_refl].
  destruct (cond row) eqn:Ec; [|apply settled_refl]. intros k' r Hr. simpl.
  destruct (decide (k = k')) as [->|Hne]; [|exists r; by rewrite lookup_insert_ne].
  rewrite lookup_insert_eq. assert (r = row) as -> by congruence. exists (f row). eauto.
Qed.

Lemma updatePlan_commands e f j : commands (updatePlan e f j).2 = commands j.
Proof. unfold updatePlan. repeat case_cond; done. Qed.

Lemma after_settled o j : settled j (after o j).
Proof.
  destruct o as [e|e s g rs now|e r s now|e a now|e a m now|e now]; simpl.
  - intros k row Hr. by exists row.
  - destruct (create_effect e s g rs now j) as [->|(id & gen & cs & _ & _ & _ & Hins & ->)]; [apply settled_refl|].
    intros k row Hr. exists row. split; [by eapply insertCommands_keeps|done].
  - unfold resolveAppEventAdmissionCommand. rewrite bind_reading by (intros; case_cond; done). unfold updates.
    match goal with |- context [updateCommand ?k ?c ?f j] => pose proof (updateCommand_settled k c f j) as H;
      destruct (updateCommand k c f j) end.
    apply H. intros row Hc. reflect_bools. by split; [|rewrite isPending_true].
  - unfold markAppEventAdmissionCommandAdmitted. rewrite bind_reading by (intros; case_cond; [rewrite bind_reads; case_cond; done|done]). unfold updates.
    match goal with |- context [updateCommand ?k ?c ?f j] => pose proof (updateCommand_settled k c f j) as H;
      destruct (updateCommand k c f j) end.
    apply H. intros row Hc. by split; [|rewrite isPending_true].
  - unfold recordAppEventAdmissionCommandFailure. rewrite updates_bind.
    match goal with |- context [updateCommand ?k ?c ?f j] => pose proof (updateCommand_settled k c f j) as H;
      set (j1 := (updateCommand k c f j).2) in * end.
    rewrite bind_reading by done. unfold updates. destruct (updatePlan e _ j1) as [n j2] eqn:E2.
    assert (commands j2 = commands j1) as Hc by (change j2 with ((n, j2).2); rewrite <- E2; apply updatePlan_commands).
    intros k row Hr. simpl. rewrite Hc. revert k row Hr. apply H. intros row Hp. by split; [|rewrite isPending_true].
  - unfold completeAppEventAdmissionPlan. rewrite bind_reads. case_cond; [apply settled_refl|].
    rewrite bind_reading by (intros; case_cond; done). unfold updates. destruct (updatePlan e _ j) as [n j2] eqn:E2.
    assert (commands j2 = commands j) as Hc by (change j2 with ((n, j2).2); rewrite <- E2; apply updatePlan_commands).
    intros k row Hr. exists row. simpl. by rewrite Hc.
Qed.

Lemma run_settled l j : settled j (run l j).
Proof.
  revert j. induction l as [|o l IH]; intros j; [apply settled_refl|]. intros k row Hr.
  destruct (after_settled o j k row Hr) as (r1 & H1 & S1). destruct (IH (after o j) k r1 H1) as (r2 & H2 & S2).
  exists r2. split; [done|]. by transitivity r1.
Qed.

Lemma run_app l1 l2 j : run (l1 ++ l2) j = run l2 (run l1 j).
Proof. apply fold_left_app. Qed.

(** ** Reading a new plan *)

Lemma checkRoutes_clean ids routes :
  (forall r, r ∈ routes -> cleanRoute r) -> NoDup (map rt_appId routes) -> (forall r, r ∈ routes -> rt_appId r ∉ ids) ->
  checkRoutes ids routes = Ok tt.
Proof.
  revert ids. induction routes as [|r routes IH]; intros ids Hc Hnd Hids; [done|]. simpl in *.
  apply NoDup_cons in Hnd as [Hr Hnd]. destruct (Hc r ltac:(by left)) as (Ha & Hi & _).
  rewrite (clean_required _ _ Ha), (clean_required _ _ Hi). simpl.
  rewrite (proj2 (set_has_false _ _) (Hids r ltac:(by left))). apply IH; [set_solver|done|].
  intros x Hx [E|Hin]%elem_of_set_add; [|by apply (Hids x); [right|]]. apply Hr, list_elem_of_fmap. by exists x.
Qed.

Lemma planRows_new j id now routes cs :
  (forall a, commands j !! (id, a) = None) ->
  map_to_list cs ≡ₚ map (fun r => ((id, rt_appId r), newCommandRow now r)) routes ++ map_to_list (commands j) ->
  forall ps, planRows (mkJournal ps cs (seen j)) id ≡ₚ map (fun r => (rt_appId r, newCommandRow now r)) routes.
Proof.
  intros Hfree Hperm ps. rewrite planRows_rowOf. simpl. rewrite Hperm, omap_app, rows_of_new.
  assert (omap (rowOf id) (map_to_list (commands j)) = []) as ->; [|by rewrite app_nil_r].
  destruct (omap (rowOf id) (map_to_list (commands j))) as [|[a row] l] eqn:E; [done|].
  assert ((a, row) ∈ planRows j id) as Hin by (rewrite planRows_rowOf, E; by left).
  apply elem_of_planRows in Hin. by rewrite Hfree in Hin.
Qed.

Lemma positive_num z f : isSafeInteger (num z) && (0 <? z) = true -> requiredPositiveInteger (num z) f = Ok z.
Proof.
  intros H. unfold requiredPositiveInteger. assert (number_to_Z (num z) = z) as -> by (apply Qfloor_Z). by rewrite H.
Qed.

Lemma read_new_plan j id snapshot generation now routes cs :
  (forall a, commands j !! (id, a) = None) -> (forall r, r ∈ routes -> cleanRoute r) -> clean snapshot ->
  isSafeInteger (num id) && (0 <? id) = true -> isSafeInteger (num generation) && (0 <? generation) = true ->
  map_to_list cs ≡ₚ map (fun r => ((id, rt_appId r), newCommandRow now r)) routes ++ map_to_list (commands j) ->
  exists out, getAppEventAdmissionPlan
      (mkJournal (<[id := mkPlanRow snapshot generation plan_pending None now now None]> (plans j)) cs (seen j)) id =
    Ok (Some (mkPlan id snapshot generation plan_pending out None now now None)) /\
    out ≡ₚ map pendingCommand routes /\ StronglySorted byAppId out.
Proof.
  intros Hfree Hclean Hsnap Hid Hgen Hperm. unfold getAppEventAdmissionPlan. simpl. rewrite lookup_insert_eq.
  set (j' := mkJournal _ cs (seen j)). pose proof (planRows_new j id now routes cs Hfree Hperm
    (<[id := mkPlanRow snapshot generation plan_pending None now now None]> (plans j))) as Hrows. fold j' in Hrows.
  pose proof (Permutation_trans (merge_sort_Permutation byApp (planRows j' id)) Hrows) as Hsort.
  destruct (Permutation_map_inv _ _ Hsort) as (rs & Hrs & Hp).
  pose proof (StronglySorted_merge_sort byApp (planRows j' id)) as Hss. rewrite Hrs in Hss |- *.
  rewrite readCommands_map by (intros r Hr; apply Hclean; by rewrite Hp). simpl.
  rewrite (positive_num _ _ Hid). simpl. rewrite (clean_required _ _ Hsnap). simpl. rewrite (positive_num _ _ Hgen). simpl.
  exists (map pendingCommand rs). split_ands; [done| |by eapply sorted_commands]. by rewrite Hp.
Qed.

Lemma safe_num n : isSafeInteger n = true -> isSafeInteger (num (number_to_Z n)) = true.
Proof.
  destruct n as [q| | |]; simpl; try done. intros H. reflect_bools. unfold Q_is_int. simpl. rewrite Z.mod_1_r. simpl.
  rewrite Z.div_1_r. by apply Z.leb_le.
Qed.

(** ** Properties *)

Definition empty_journal : Journal := mkJournal ∅ ∅ ∅.

Lemma empty_ok : journal_ok empty_journal.
Proof. split; simpl; intros *; by rewrite lookup_empty. Qed.

(** A new plan reads back as it was planned: the routes, when their texts
    carry no surrounding blanks, come back as pending commands of the current
    payload version, one per App and in App order, and creating the plan again
    with any routes returns what is saved and changes nothing. *)
Theorem admission_plan_roundtrip j eventId snapshot generation routes now
    (Hj : journal_ok j)
    (Hid : isSafeInteger eventId && (0 <? number_to_Z eventId) = true)
    (Hgen : isSafeInteger generation && (0 <? number_to_Z generation) = true)
    (Hsnap : clean snapshot)
    (Hroutes : forall r, r ∈ routes -> cleanRoute r)
    (Hne : routes <> []) (Hnd : NoDup (map rt_appId routes))
    (Hseen : number_to_Z eventId ∈ seen j)
    (Hnew : plans j !! number_to_Z eventId = None) :
  exists cs j', createAppEventAdmissionPlan eventId snapshot generation routes now j =
    (Done (mkPlan (number_to_Z eventId) snapshot (number_to_Z generation) plan_pending cs None now now None), j') /\
    cs ≡ₚ map pendingCommand routes /\ StronglySorted byAppId cs /\
    forall snapshot' generation' routes' now', requiredText snapshot' "registrySnapshotId" = Ok snapshot' ->
      isSafeInteger generation' && (0 <? number_to_Z generation') = true -> routes' <> [] -> checkRoutes [] routes' = Ok tt ->
      createAppEventAdmissionPlan eventId snapshot' generation' routes' now' j' =
        (Done (mkPlan (number_to_Z eventId) snapshot (number_to_Z generation) plan_pending cs None now now None), j').
Proof.
  set (id := number_to_Z eventId) in *. set (gen := number_to_Z generation) in *.
  assert (forall a, commands j !! (id, a) = None) as Hfree.
  { intros a. destruct (commands j !! (id, a)) eqn:E; [|done]. apply (jo_plan j Hj) in E as [p Hp]. congruence. }
  destruct (insertCommands_ok id now routes (commands j) Hnd) as (cs' & Hins & Hperm); [intros; apply Hfree|].
  assert (isSafeInteger (num id) && (0 <? id) = true) as Hid' by (subst id; apply andb_true_iff in Hid as [? ->]; by rewrite safe_num).
  assert (isSafeInteger (num gen) && (0 <? gen) = true) as Hgen' by (subst gen; apply andb_true_iff in Hgen as [? ->]; by rewrite safe_num).
  destruct (read_new_plan j id snapshot gen now routes cs' Hfree Hroutes Hsnap Hid' Hgen' Hperm) as (out & Hread & Hout & Hsorted).
  set (j' := mkJournal (<[id := _]> (plans j)) cs' (seen j)) in *. exists out, j'.
  assert (requiredPositiveInteger eventId "eventId" = Ok id) as Hid2 by (unfold requiredPositiveInteger; fold id; by rewrite Hid).
  split_ands; [|done|done|].
  - unfold createAppEventAdmissionPlan. rewrite checks_bind, Hid2, checks_bind, (clean_required _ _ Hsnap), checks_bind.
    unfold requiredPositiveInteger. fold gen. rewrite Hgen. destruct routes as [|r routes]; [done|].
    rewrite checks_bind, checkRoutes_clean by (done || by intros ? ? ?%elem_of_nil). rewrite asks_bind.
    unfold getAppEventAdmissionPlan at 1. rewrite Hnew. cbn [mret res_ret'].
    rewrite (bind_done _ _ j tt j'); [|unfold savePlan; rewrite bool_decide_true by done; cbn [negb];
      rewrite bool_decide_false by (rewrite Hnew; by intros [? ?]); by rewrite Hins].
    rewrite asks_bind, Hread. done.
  - intros snapshot' generation' routes' now' Hs' Hg' Hne' Hc'. unfold createAppEventAdmissionPlan.
    rewrite checks_bind, Hid2, checks_bind, Hs', checks_bind. unfold requiredPositiveInteger. rewrite Hg'.
    destruct routes' as [|r routes']; [done|]. rewrite checks_bind, Hc', asks_bind, Hread. done.
Qed.

(** C37.  The journal is consistent after any history of operations, refused and
    repeated ones included; in particular a completed plan has no pending
    command, and an admission time is recorded exactly for admitted commands.
    What was translated or admitted is final: a translated command keeps its
    route and payload, and an admitted one does not change at all. *)
Theorem admission_journal_consistent l1 l2 :
  let j := run l1 empty_journal in
  let j' := run (l1 ++ l2) empty_journal in
  journal_ok j /\
  (forall e a row, commands j !! (e, a) = Some row -> exists row',
     commands j' !! (e, a) = Some row' /\
     (cr_route_kind row <> "unresolved" ->
        cr_route_kind row' = cr_route_kind row /\ cr_route_id row' = cr_route_id row /\ cr_payload row' = cr_payload row) /\
     (cr_status row = cmd_admitted -> row' = row)).
Proof.
  intros j j'. split; [apply run_keeps_ok, empty_ok|]. intros e a row Hr. subst j'. rewrite run_app. fold j.
  destruct (run_settled l2 j (e, a) row Hr) as (row' & Hrow & [Hk Hs]). exists row'. split_ands; [done| |].
  - intros H. by destruct (Hk H) as (? & ? & ? & _).
  - intros H. apply Hs. by rewrite H.
Qed.

(** ** A concrete plan *)

Definition sample_routes : list AppEventAdmissionRoute :=
  [mkRoute "ops" "sub-1" (unresolved ["sub-1"] false) ["t1"]; mkRoute "desk" "exact" (exact_task "t9") []].
Definition sample_journal : Journal := run [o_event 7] empty_journal.

Lemma sample_clean r : r ∈ sample_routes -> cleanRoute r.
Proof.
  intros [->|[->|[]%elem_of_nil]%elem_of_cons]%elem_of_cons; unfold cleanRoute, clean; simpl; split_ands; try done;
    intros i Hi; apply list_elem_of_In in Hi; simpl in Hi;
    first [done | destruct Hi as [<-|[]]; done].
Qed.

(** The plan of event 7 lists [desk] before [ops]. *)
Lemma admission_plan_roundtrip_witness :
  exists j', createAppEventAdmissionPlan (num 7) "boot:1" (num 1) sample_routes 100 sample_journal =
    (Done (mkPlan 7 "boot:1" 1 plan_pending (map pendingCommand (reverse sample_routes)) None 100 100 None), j').
Proof.
  destruct (admission_plan_roundtrip sample_journal (num 7) "boot:1" (num 1) sample_routes 100)
    as (cs & j' & H & Hp & Hs & _).
  - apply run_keeps_ok, empty_ok.
  - reflexivity.
  - reflexivity.
  - done.
  - apply sample_clean.
  - done.
  - apply (bool_decide_unpack _). vm_compute. exact I.
  - apply (bool_decide_unpack _). vm_compute. exact I.
  - reflexivity.
  - exists j'. rewrite H. assert (cs = map pendingCommand (reverse sample_routes)) as ->; [|reflexivity].
    assert ((createAppEventAdmissionPlan (num 7) "boot:1" (num 1) sample_routes 100 sample_journal).1 =
      Done (mkPlan 7 "boot:1" 1 plan_pending (map pendingCommand (reverse sample_routes)) None 100 100 None)) as Hrun
      by (vm_compute; reflexivity).
    rewrite H in Hrun. by injection Hrun.
Defined.

(** A run: the translation of [ops] is frozen, both commands are admitted, and
    the plan completes only then. *)
Example sample_run :
  let j := run [o_event 7; o_create (num 7) "boot:1" (num 1) sample_routes 100; o_complete 7 110;
                o_resolve 7 (mkRoute "ops" "sub-1" (r_inbox [("kind", JStr "note")]) []) "boot:1" 120;
                o_resolve 7 (mkRoute "ops" "sub-2" noop []) "boot:1" 130; o_admit 7 "ops" 140; o_admit 7 "desk" 150;
                o_fail 7 "ops" "late" 160; o_complete 7 170] empty_journal in
  pr_status <$> plans j !! 7 = Some plan_completed /\
  (fun r => (cr_route_kind r, cr_route_id r, cr_admitted_at r, cr_last_error r)) <$> commands j !! (7, "ops") =
    Some ("inbox", "sub-1", Some 140, None).
Proof. vm_compute. split; reflexivity. Qed.

End EventAdmissionLaws.
