(* ===== verification/EventSelector.v ===== *)
(** Declarative event selection ([packages/sdk/src/event.ts]): which events a
    subscription of an App selects. *)
From S2P Require Import Prelude Json.

Module EventSelector.

(** The canonical fields of an App event; a target is an object of texts and
    flags. *)
Record AppEvent : Type := mkEvent {
  ev_type : string;
  ev_data : obj json;
  ev_source : option string;
  ev_owner : option string;
  ev_target : option (obj json);
  ev_action : option string;
  ev_urgency : option string }.

Record SelectorSpec : Type := mkSelector {
  sl_type : string;
  sl_target : option (obj json);
  sl_project : option string;
  sl_source : option string;
  sl_owner : option string;
  sl_urgency : option string;
  sl_actions : option (list string);
  sl_metricIds : option (list string);
  sl_agents : option (list string);
  sl_lanes : option (list string);
  sl_verdicts : option (list string);
  sl_intents : option (list string) }.

Inductive EventSelector : Type :=
| selectType (type : string)
| selectSpec (s : SelectorSpec).

Definition eventSelectorType (s : EventSelector) : string :=
  match s with selectType t => t | selectSpec s => sl_type s end.

Definition stripPrefix (prefix s : string) : string :=
  if startsWith s prefix then String.substring (String.length prefix) (String.length s) s else s.

Definition normalizedOwner (value : option json) : string :=
  stripPrefix "agent:" (match value with Some (JStr s) => trim s | _ => "" end).

(** The first key the data has, else the first the target has. *)
Fixpoint firstOf (o : obj json) (keys : list string) : option json :=
  match keys with
  | [] => None
  | k :: keys => match obj_get k o with Some v => Some v | None => firstOf o keys end
  end.

Definition selectedValue (event : AppEvent) (keys : list string) : option json :=
  match (if set_has "action" keys then ev_action event else None) with
  | Some a => Some (JStr a)
  | None =>
      match firstOf (ev_data event) keys with
      | Some v => Some v
      | None => firstOf (default [] (ev_target event)) keys
      end
  end.

(** [===] on the primitive values of a target. *)
Definition strictEq (a : option json) (b : json) : bool :=
  match a, b with
  | Some (JStr x), JStr y => String.eqb x y
  | Some (JBool x), JBool y => Bool.eqb x y
  | Some (JNum x), JNum y => number_eqb x y
  | Some JNull, JNull => true
  | _, _ => false
  end.

Definition targetMatches (event : AppEvent) (e : string * json) : bool :=
  let actual := obj_get e.1 (default [] (ev_target event)) in
  if String.eqb e.1 "owner" then String.eqb (normalizedOwner actual) (normalizedOwner (Some e.2))
  else strictEq actual e.2.

(** The last conditions: a list that is not empty has to contain the value. *)
Definition selects (event : AppEvent) (values : option (list string)) (keys : list string) : bool :=
  match values with
  | None | Some [] => true
  | Some l => match selectedValue event keys with Some (JStr v) => set_has v l | _ => false end
  end.

Definition matchesEventSelector (selector : EventSelector) (event : AppEvent) : bool :=
  match selector with
  | selectType t => String.eqb (ev_type event) t
  | selectSpec s =>
      String.eqb (ev_type event) (sl_type s) &&
      match nonempty (sl_project s) with
      | Some p => strictEq (selectedValue event ["project"; "projectId"; "project_id"]) (JStr p)
      | None => true
      end &&
      match nonempty (sl_source s) with Some x => bool_decide (ev_source event = Some x) | None => true end &&
      match nonempty (sl_owner s) with
      | Some o => String.eqb (normalizedOwner (JStr <$> ev_owner event)) (normalizedOwner (Some (JStr o)))
      | None => true
      end &&
      forallb (targetMatches event) (default [] (sl_target s)) &&
      match nonempty (sl_urgency s) with
      | Some u => String.eqb (default "normal" (ev_urgency event)) u
      | None => true
      end &&
      selects event (sl_actions s) ["action"] && selects event (sl_metricIds s) ["metricId"; "metric_id"] &&
      selects event (sl_agents s) ["agent"] && selects event (sl_lanes s) ["lane"] &&
      selects event (sl_verdicts s) ["reviewedVerdict"; "verdict"] && selects event (sl_intents s) ["intent"]
  end.

(** An event is only looked up under its own type. *)
Lemma matches_type selector event :
  matchesEventSelector selector event = true -> ev_type event = eventSelectorType selector.
Proof. destruct selector as [t|s]; simpl; intros H; reflect_bools; done. Qed.

End EventSelector.
