(* ===== verification/InboxAdmission.v ===== *)
(** Admitting saved input to Tasks ([src/app/core/state/inbox.ts],
    [src/app/core/inbox/input-context.ts], [src/app/core/state/resource-creator.ts]):
    one transaction observes the Task intent and links the inbox row, its Topic
    and its Request to the Task; a row is later completed with the exact answer
    of its Task or rejected for good.

    The state is that of one App: its Task resource store, the inbox, the
    accepted Requests with the inputs they answer, the Topics with their
    selections and Task links, and the events. *)
From S2P Require Import Prelude Json TaskState TaskTree Transaction ResourceStore StoreInvariant StoreCommit Snapshot.
From S2P Require Import Context Approval Conditions Records Time TaskInputs TaskEvents TaskIntent TaskMutation.
From S2P Require Import TaskOutcome TaskAdmission Effects InboxStore ConversationRequests ConversationTopics.

Module InboxAdmission.
Import ResourceStore TaskTree TaskInputs TaskEvents TaskIntent TaskMutation TaskAdmission.
Import Effects ConversationTopics InboxStore ConversationRequests.

Record Db : Type := mkDb {
  db_store : store;
  db_inbox : inbox;
  db_requests : requests;
  db_requestInputs : requestInputs;
  db_topics : topics;
  db_selections : selections;
  db_topicTasks : gmap (string * string * string) Z;
  db_events : list EventRow }.

Definition set_store (x : store) (d : Db) : Db :=
  mkDb x (db_inbox d) (db_requests d) (db_requestInputs d) (db_topics d) (db_selections d) (db_topicTasks d) (db_events d).
Definition set_inbox (x : inbox) (d : Db) : Db :=
  mkDb (db_store d) x (db_requests d) (db_requestInputs d) (db_topics d) (db_selections d) (db_topicTasks d) (db_events d).
Definition set_requests (x : requests) (d : Db) : Db :=
  mkDb (db_store d) (db_inbox d) x (db_requestInputs d) (db_topics d) (db_selections d) (db_topicTasks d) (db_events d).
Definition set_requestInputs (x : requestInputs) (d : Db) : Db :=
  mkDb (db_store d) (db_inbox d) (db_requests d) x (db_topics d) (db_selections d) (db_topicTasks d) (db_events d).
Definition set_topics (x : topics) (d : Db) : Db :=
  mkDb (db_store d) (db_inbox d) (db_requests d) (db_requestInputs d) x (db_selections d) (db_topicTasks d) (db_events d).
Definition set_selections (x : selections) (d : Db) : Db :=
  mkDb (db_store d) (db_inbox d) (db_requests d) (db_requestInputs d) (db_topics d) x (db_topicTasks d) (db_events d).
Definition set_topicTasks (x : gmap (string * string * string) Z) (d : Db) : Db :=
  mkDb (db_store d) (db_inbox d) (db_requests d) (db_requestInputs d) (db_topics d) (db_selections d) x (db_events d).
Definition set_events (x : list EventRow) (d : Db) : Db :=
  mkDb (db_store d) (db_inbox d) (db_requests d) (db_requestInputs d) (db_topics d) (db_selections d) (db_topicTasks d) x.

(** Programs of the inbox and of the Requests, on the database. *)
Definition onInbox {A} (m : E inbox A) : E Db A := zoom db_inbox set_inbox m.
Definition onRequests {A} (m : E requests A) : E Db A := zoom db_requests set_requests m.

(** ** Input contexts *)

Record AppInputContext : Type := mkContext {
  ctx_id : string;
  ctx_source : AppInputSource;
  ctx_humanRequested : bool;
  ctx_parentId : option string;
  ctx_input : AppInput }.

Definition readInputContext (t : inbox) (item : AppInboxItem) : res AppInputContext :=
  parent ← match it_parentId item with Some p => getAppInboxItem t p | None => mret None end;
  mret (mkContext (it_id item) (it_source item)
    (String.eqb (src_kind (it_source item)) "human" ||
     match parent with Some p => String.eqb (src_kind (it_source p)) "human" | None => false end)
    (it_parentId item) (it_input item)).

Definition sourceJson (s : AppInputSource) : json := JObj [("kind", JStr (src_kind s)); ("id", JStr (src_id s))].
Definition inputJson (i : AppInput) : json := JObj [("kind", JStr (inp_kind i)); ("data", inp_data i)].

Definition contextJson (c : AppInputContext) : json :=
  JObj ([("id", JStr (ctx_id c)); ("source", sourceJson (ctx_source c))] ++
        (if ctx_humanRequested c then [("humanRequested", JBool true)] else []) ++
        match ctx_parentId c with Some p => [("parentId", JStr p)] | None => [] end ++
        [("input", inputJson (ctx_input c))]).

(** ** Attachments *)

Inductive AppTaskAttachment : Type :=
| existing (taskId : string)
| desired (intent : AppTaskIntent) (expectedGeneration : option number).

Definition attachmentTaskId (a : AppTaskAttachment) : string :=
  match a with existing t => t | desired i _ => in_id i end.

Record RequestLink : Type := mkRequestLink {
  rl_appId : string; rl_conversationId : string; rl_id : string; rl_revision : Z }.

Record TaskInputAdmission : Type := mkTaskInput {
  ti_appId : string;
  ti_attachment : AppTaskAttachment;
  ti_idempotencyKey : string;
  ti_context : AppInputContext;
  ti_authorize : option (Db -> res unit);
  ti_creator : option ResourceCreator;
  ti_creatorRevision : bool;
  ti_inboxInputId : option string;
  ti_topicId : option string;
  ti_requestLink : option RequestLink }.

Definition with_key (key : string) (i : TaskInputAdmission) : TaskInputAdmission :=
  mkTaskInput (ti_appId i) (ti_attachment i) key (ti_context i) (ti_authorize i) (ti_creator i) (ti_creatorRevision i)
    (ti_inboxInputId i) (ti_topicId i) (ti_requestLink i).

Definition sameSource (a b : AppInputSource) : bool :=
  String.eqb (src_kind a) (src_kind b) && String.eqb (src_id a) (src_id b).

(** [assertResourceCreator]. *)
Definition isCreator (creator : option ResourceCreator) (actor : ResourceCreator) : bool :=
  bool_decide (creator = Some actor).

Section Admission.
Context `{Crypto} (config : AppTaskContext) (taskMode : bool) (now : Z).

(** Conversation execution consumes saved Conversation input only. *)
Definition assertTaskInputCompatible (input : TaskInputAdmission) : E Db unit :=
  if taskMode then mret tt
  else
    let taskId := trim (attachmentTaskId (ti_attachment input)) in
    appId ← reads (fun d => appId (db_store d));
    owned ← reads (fun d => hasConversationExecutionTask (db_inbox d) appId taskId);
    if negb owned then mret tt
    else
      item ← asks (fun d => getAppInboxItem (db_inbox d) (ctx_id (ti_context input)));
      match item with
      | Some item =>
          if bool_decide (it_conversationId item = None) || negb (String.eqb (it_appId item) (ti_appId input)) ||
             bool_decide (it_status item = i_done) || bool_decide (is_Some (it_lease item)) ||
             negb (bool_decide (it_executionTaskId item = Some taskId)) ||
             negb (bool_decide (it_taskAdmissionKey item = Some (ti_idempotencyKey input))) ||
             negb (String.eqb (ti_idempotencyKey input) ("conversation-input:" +:+ it_id item)) ||
             negb (sameSource (it_source item) (ctx_source (ti_context input))) ||
             negb (sameInput (it_input item) (ctx_input (ti_context input)))
          then throwClass AppTaskAdmissionError
            "Conversation Tasks require Conversation input admission; return the current Conversation decision or select an ordinary work Task for follow-up"
          else mret tt
      | None => throwClass AppTaskAdmissionError
            "Conversation Tasks require Conversation input admission; return the current Conversation decision or select an ordinary work Task for follow-up"
      end.

(** The class of what [observeAppTaskIntent] throws: work for a closed Task
    cannot be admitted unchanged. *)
Definition observeClass (s : store) (input : ObserveInput) : ErrorClass :=
  match normalizeTaskAgent (ob_intent input) ("Task " +:+ in_id (ob_intent input)) with
  | Ok intent =>
      match validateIntent intent with
      | Ok _ => if isCancelled s (in_id intent) then AppTaskAdmissionError else PlainError
      | Throw _ => PlainError
      end
  | Throw _ => PlainError
  end.

Definition observing (input : ObserveInput) : E Db Observation := fun d =>
  match observeAppTaskIntent now input (db_store d) with
  | (Ok o, s) => (Done o, set_store s d)
  | (Throw e, s) => (Raise (observeClass (db_store d) input) e, set_store s d)
  end.

(** The human Condition a reply was shown with, when it is named exactly. *)
Definition correlatedHumanCondition (ctx : AppInputContext) : obj json :=
  match inp_data (ctx_input ctx) with
  | JObj data =>
      match obj_get "context" data with
      | Some (JObj c) =>
          match obj_get "displayedHumanCondition" c with
          | Some (JObj shown) =>
              match obj_get "conditionId" shown, obj_get "conditionGeneration" shown, obj_get "taskGeneration" shown with
              | Some (JStr id), Some (JNum cg), Some (JNum tg) =>
                  if String.eqb (src_kind (ctx_source ctx)) "human" && isSafeInteger cg && isSafeInteger tg
                  then [("conditionId", JStr id); ("conditionGeneration", JNum cg); ("taskGeneration", JNum tg)]
                  else []
              | _, _, _ => []
              end
          | _ => []
          end
      | _ => []
      end
  | _ => []
  end.

Definition requestTrigger (input : TaskInputAdmission) (taskId key : string) : obj json :=
  [("type", JStr "app.task.requested");
   ("source", JStr (if String.eqb (src_kind (ctx_source (ti_context input))) "human" || ctx_humanRequested (ti_context input)
                    then "human" else "app-inbox:" +:+ ti_appId input));
   ("owner", JStr ("agent:" +:+ cx_agent config));
   ("target", JObj [("project", JStr (ti_appId input)); ("taskId", JStr taskId)]);
   ("idempotencyKey", JStr key);
   ("data", JObj ([("project", JStr (ti_appId input)); ("taskId", JStr taskId); ("appId", JStr (ti_appId input));
                   ("idempotencyKey", JStr key); ("request", contextJson (ti_context input))] ++
                  correlatedHumanCondition (ti_context input)))].

Definition observeRequest (input : TaskInputAdmission) (intent : AppTaskIntent) (key : string) : E Db Observation :=
  observing (mkObserve intent (cx_agent config) (Some (requestTrigger input (in_id intent) key)) (Some key)
    (ti_creator input) (ti_creatorRevision input)).

(** A requirement revision keeps the Task under its parent. *)
Definition with_parent (parentId : string) (i : AppTaskIntent) : AppTaskIntent :=
  let s := in_spec i in
  mkIntent (in_id i) (mkSpec parentId (spec_outcome s) (spec_acceptance s) (spec_agent s) (spec_owner s) (spec_workflow s)
    (spec_executor s) (spec_input s) (spec_outputs s) (spec_dependsOn s) (spec_priority s) (spec_category s)) (in_mode i).

(** The generation-fenced revision an App may make of its own Task. *)
Definition revisedIntent (input : TaskInputAdmission) (intent : AppTaskIntent) (expected : number) (key : string)
    : E Db AppTaskIntent :=
  if negb (isSafeInteger expected && (1 <=? number_to_Z expected)) then
    throwClass AppTaskRevisionAdmissionError "Task revision expectedGeneration must be a positive integer"
  else if negb (bool_decide (ti_creator input = Some (mkCreator (ti_appId input) None)) && ti_creatorRevision input) then
    throwClass AppTaskRevisionAdmissionError "Task revision requires trusted App-only creator authority"
  else
    current ← reads (fun d => readTask (db_store d) (in_id intent));
    match current with
    | None => throwClass AppTaskRevisionAdmissionError
                ("Task " +:+ in_id intent +:+ " does not exist in App " +:+ ti_appId input)
    | Some current =>
        closed ← reads (fun d => isCancelled (db_store d) (in_id intent));
        if (closed : bool) then throwClass AppTaskRevisionAdmissionError ("Cannot revise closed Task " +:+ in_id intent)
        else if negb (isCreator (md_creator (metadata current)) (mkCreator (ti_appId input) None)) then
          throwClass AppTaskRevisionAdmissionError "Only the exact App-only creator may revise this Task"
        else
          prior ← match nonempty (ti_inboxInputId input) with
                  | Some _ =>
                      admissions ← asks (fun d => readAdmissions (db_store d) [key]);
                      mret (obj_get key admissions)
                  | None => mret None
                  end;
          if match prior with Some a => negb (String.eqb (adm_taskId a) (in_id intent)) | None => false end then
            throwClass AppTaskRevisionAdmissionError "Task revision input identity was reused for a different Task"
          else if bool_decide (prior = None) && negb (number_eqb (num (md_generation (metadata current))) expected) then
            throwClass AppTaskRevisionAdmissionError
              ("Task requirements changed; expected generation " +:+ String_of_number expected +:+ ", current generation " +:+
               show_Z (md_generation (metadata current)) +:+ ". Read the current Task before revising it")
          else mret (with_parent (spec_parentId (spec current)) intent)
    end.

Definition admitAuthorizedTaskInput (input : TaskInputAdmission) : E Db Observation :=
  own ← reads (fun d => appId (db_store d));
  if negb (String.eqb (ti_appId input) own) then throw "Task input belongs to another App"
  else
  let key := trim (ti_idempotencyKey input) in
  if String.eqb key "" then throw "App task idempotency key must be non-empty"
  else match ti_attachment input with
  | existing taskId =>
      let taskId := trim taskId in
      if String.eqb taskId "" then throw "Existing task id must be non-empty"
      else
        admissions ← asks (fun d => readAdmissions (db_store d) [key]);
        match obj_get key admissions with
        | Some a =>
            if negb (String.eqb (adm_taskId a) taskId) then throw "Task input identity was reused for different work"
            else
              task ← reads (fun d => readTask (db_store d) taskId);
              match task with
              | None => throw ("Admitted Task " +:+ taskId +:+ " is missing")
              | Some _ => mret (mkObservation taskId (adm_taskGeneration a) false)
              end
        | None =>
            intent ← reads (fun d => readAppTaskIntent (db_store d) taskId);
            match intent with
            | None => throwClass AppTaskAdmissionError ("Task " +:+ taskId +:+ " does not exist in App " +:+ ti_appId input)
            | Some intent => observeRequest input intent key
            end
        end
  | desired intent None => observeRequest input intent key
  | desired intent (Some expected) =>
      intent ← revisedIntent input intent expected key;
      observeRequest input intent key
  end.

(** The row is correlation, never an execution owner. *)
Definition linkTaskInput (inputId taskId admissionKey : string) : E inbox unit :=
  changed ← updates (updateWhere inputId
    (fun row => negb (isDone row) && bool_decide (c_execution_task_id (state row) = None))
    (fun c => c |> set_status i_handling |> set_waiting_on_kind (Some "task") |> set_waiting_on_id (Some taskId)
                |> set_task_admission_key (Some admissionKey) |> set_available_at None |> set_review_at None
                |> set_lease_owner None |> set_lease_expires_at None |> set_changed_at (Some now) |> set_updated_at now));
  if negb (changed =? 1) then throw "Task input is unavailable" else mret tt.

(** [linkConversationTopicTask]: the Topic must exist. *)
Definition linkConversationTopicTask (topicId appId taskId : string) : E Db unit :=
  topicId ← checks (requiredText topicId "topic id");
  appId ← checks (requiredText appId "topic task appId");
  taskId ← checks (requiredText taskId "topic taskId");
  known ← reads (fun d => bool_decide (is_Some (db_topics d !! topicId)));
  linked ← reads (fun d => bool_decide (is_Some (db_topicTasks d !! (topicId, appId, taskId))));
  if (linked : bool) then mret tt
  else if (known : bool) then writes (fun d => set_topicTasks (<[(topicId, appId, taskId) := now]> (db_topicTasks d)) d)
  else throw "FOREIGN KEY constraint failed".

(** The Task a row waits for. *)
Definition taskWait (item : AppInboxItem) : option string :=
  match it_waitingOn item with
  | Some w => if String.eqb (wt_kind w) "task" then Some (wt_id w) else None
  | None => None
  end.

(** A saved input that may not be admitted as it is. *)
Definition unavailable (item : AppInboxItem) : bool :=
  bool_decide (it_status item = i_done) || bool_decide (is_Some (it_executionTaskId item)) ||
  match it_lease item with Some l => now <? ls_expiresAt l | None => false end.

(** The keys under which released Hosts may have admitted the input. *)
Definition admissionAliases (key itemId taskId : string) : list string :=
  [key; "task:" +:+ itemId +:+ ":desired:" +:+ taskId; "task:" +:+ itemId +:+ ":existing:" +:+ taskId].

(** The Topic and the Request the admitted work belongs to. *)
Definition linkConversation (input : TaskInputAdmission) (topicId : option string) (taskId : string) : E Db unit :=
  _ ← match nonempty topicId with
      | Some p => linkConversationTopicTask p (ti_appId input) taskId
      | None => mret tt
      end;
  match ti_requestLink input with
  | Some l => onRequests (linkConversationRequestTask (rl_appId l) (rl_conversationId l) (rl_id l) (rl_revision l)
                (mkTaskRef (ti_appId input) taskId))
  | None => mret tt
  end.

Definition matchesSaved (input : TaskInputAdmission) (item : AppInboxItem) : bool :=
  String.eqb (it_id item) (ctx_id (ti_context input)) && String.eqb (it_appId item) (ti_appId input) &&
  sameInput (it_input item) (ctx_input (ti_context input)) && sameSource (it_source item) (ctx_source (ti_context input)).

(** An input that has a saved row. *)
Definition admitSaved (input : TaskInputAdmission) (item : AppInboxItem) : E Db Observation :=
  let target := attachmentTaskId (ti_attachment input) in
  if negb (String.eqb (ti_idempotencyKey input) ("task:" +:+ it_id item)) then
    throw "Task admission identity must belong to its input"
  else match taskWait item with
  | Some waited =>
      task ← reads (fun d => readTask (db_store d) waited);
      match task with
      | None => throw ("Attached Task " +:+ waited +:+ " is missing")
      | Some _ =>
          if negb (String.eqb target waited) then throw "Cannot remap an admitted input to different work"
          else admitAuthorizedTaskInput (with_key (default (ti_idempotencyKey input) (it_taskAdmissionKey item)) input)
      end
  | None =>
      if unavailable item then throw "Input is already owned or completed"
      else if match it_targetTaskId item with Some t => negb (String.eqb t target) | None => false end then
        throw "Cannot replace an exact Task target"
      else
        let keys := admissionAliases (ti_idempotencyKey input) (it_id item) target in
        admissions ← asks (fun d => readAdmissions (db_store d) keys);
        let key := match head (filter (fun k => is_Some (obj_get k admissions)) keys) with
                   | Some k => k
                   | None => ti_idempotencyKey input
                   end in
        task ← reads (fun d => readTask (db_store d) target);
        if bool_decide (obj_get key admissions = None) &&
           match it_originEventId item with
           | Some e => negb (e =? 0) &&
               (e <=? default 0 (task ≫= fun r => md_reopenedAfterEventId (metadata r)))
           | None => false
           end
        then throwClass AppTaskAdmissionError "This input predates Task reopening; submit fresh input for the new generation"
        else
          let input := with_key key input in
          o ← admitAuthorizedTaskInput input;
          _ ← onInbox (linkTaskInput (it_id item) (obs_taskId o) key);
          _ ← linkConversation input (match it_topicId item with Some p => Some p | None => ti_topicId input end) (obs_taskId o);
          mret o
  end.

Definition admitTaskInput (input : TaskInputAdmission) : E Db Observation :=
  atomic (
    _ ← match ti_authorize input with Some f => asks f | None => mret tt end;
    _ ← assertTaskInputCompatible input;
    match nonempty (ti_inboxInputId input) with
    | Some id =>
        item ← asks (fun d => getAppInboxItem (db_inbox d) id);
        match item with
        | Some item => if matchesSaved input item then admitSaved input item
                       else throw "Task admission does not match its saved input"
        | None => throw "Task admission does not match its saved input"
        end
    | None =>
        o ← admitAuthorizedTaskInput input;
        _ ← linkConversation input (ti_topicId input) (obs_taskId o);
        mret o
    end).

(** *** Finishing *)

Definition rejectionSummary (class : ErrorClass) (message : string) : string :=
  (if bool_decide (class = AppTaskRevisionAdmissionError) then "Task revision was not applied"
   else "Task input was not admitted") +:+ ": " +:+ message.

Definition rejectionResult (item : AppInboxItem) (class : ErrorClass) (message : string) : AppResult :=
  let summary := rejectionSummary class message in
  mkAppResult summary
    (Some (if bool_decide (class = AppTaskRevisionAdmissionError) then
             summary +:+ ". Read the current Task and submit a new revision with its current expectedGeneration."
           else if bool_decide (is_Some (it_targetTaskId item)) then
             summary +:+ ". Read the current Task and correct the target. If the user explicitly requested reopening, use task.reopen with the current generation, resource version and new App input."
           else summary +:+ ". Read the App input contract and submit a corrected request. The original requirement remains unresolved."))
    (Some [("disposition", JStr "admission-rejected"); ("appId", JStr (it_appId item)); ("requestId", JStr (it_id item))])
    None.

(** [json_remove(recovery_json, '$."input-admission".reportedAt')]. *)
Definition clearReported (recovery : option AppInboxRecovery) : option AppInboxRecovery :=
  match recovery with
  | Some r =>
      match obj_get (stageName input_admission) r with
      | Some f => Some (obj_set (stageName input_admission)
          (mkFailure (rf_failures f) (rf_fingerprint f) (rf_observationFingerprint f) (rf_error f) (rf_firstFailedAt f)
             (rf_lastFailedAt f) (rf_retryAt f) None (rf_recoveredAt f)) r)
      | None => Some r
      end
  | None => None
  end.

(** A deterministic rejection finishes the row without claiming the work done. *)
Definition rejectTaskInput (item : AppInboxItem) (class : ErrorClass) (message : string) : E inbox (option AppResult) :=
  let result := rejectionResult item class message in
  changed ← updates (updateWhere (it_id item)
    (fun row => isStatus i_pending row && bool_decide (c_execution_task_id (state row) = None) &&
                bool_decide (c_waiting_on_kind (state row) = None))
    (fun c => c |> set_status i_done |> set_handling (Some (h_failed message)) |> set_result (Some result)
                |> set_completed_at (Some now) |> set_recovery (clearReported (c_recovery c)) |> set_available_at None
                |> set_review_at None |> set_lease_owner None |> set_lease_expires_at None
                |> set_changed_at (Some now) |> set_updated_at now));
  mret (if changed =? 1 then Some result else None).

(** A compare-and-set projection of the exact answer. *)
Definition completeTaskInput (item : AppInboxItem) (result : AppResult) : E inbox bool :=
  match taskWait item with
  | None => mret false
  | Some taskId =>
      changed ← updates (updateWhere (it_id item)
        (fun row => isStatus i_handling row && bool_decide (c_lease_owner (state row) = None) &&
                    columnIs (c_waiting_on_kind (state row)) "task" && columnIs (c_waiting_on_id (state row)) taskId &&
                    bool_decide (c_task_admission_key (state row) = it_taskAdmissionKey item))
        (fun c => c |> set_status i_done |> set_result (Some result) |> set_completed_at (Some now)
                    |> set_available_at None |> set_review_at None |> set_changed_at (Some now) |> set_updated_at now));
      mret (changed =? 1)
  end.

End Admission.

(** ** Recovering the admission of an older row *)

#[export] Instance Feedback_eq_dec : EqDecision Feedback.
Proof. solve_decision. Defined.

(** Two admissions that agree but for the time of admission. *)
Definition sameAuthority (a b : AppTaskAdmission) : bool :=
  String.eqb (adm_taskId a) (adm_taskId b) && (adm_taskGeneration a =? adm_taskGeneration b) &&
  String.eqb (adm_specHash a) (adm_specHash b) &&
  opt_deep_eqb (JObj <$> adm_inputEvent a) (JObj <$> adm_inputEvent b) &&
  bool_decide (adm_resultAttemptId a = adm_resultAttemptId b) && bool_decide (adm_progress a = adm_progress b) &&
  bool_decide (adm_failure a = adm_failure b) && bool_decide (adm_reportAttemptId a = adm_reportAttemptId b) &&
  bool_decide (adm_reportRevision a = adm_reportRevision b).

(** The retained admissions of an input for the Task it waits for, by key. *)
Definition inputAdmissions (s : store) (item : AppInboxItem) (taskId : string) : list (string * AppTaskAdmission) :=
  omap (fun key => admissions s !! key ≫= fun a => if String.eqb (adm_taskId a) taskId then Some (key, a) else None)
    (js_sort (set_of (admissionAliases ("task:" +:+ it_id item) (it_id item) taskId))).

Definition recoverTaskInputAdmissionKey (item : AppInboxItem) : E Db (option string) :=
  match it_taskAdmissionKey item, taskWait item with
  | Some key, _ => mret (Some key)
  | None, None => mret None
  | None, Some taskId =>
      own ← reads (fun d => appId (db_store d));
      rows ← reads (fun d => if String.eqb own (it_appId item) then inputAdmissions (db_store d) item taskId else []);
      match rows with
      | [] => mret None
      | (key, first) :: _ =>
          if existsb (fun r => negb (sameAuthority r.2 first)) rows then mret None
          else
            _ ← onInbox (updates (updateWhere (it_id item)
                  (fun row => bool_decide (c_task_admission_key (state row) = None) &&
                     columnIs (c_waiting_on_kind (state row)) "task" && columnIs (c_waiting_on_id (state row)) taskId)
                  (set_task_admission_key (Some key))));
            mret (Some key)
      end
  end.

(** ** The active turn of a Conversation *)

Record ActiveTurn : Type := mkTurn {
  at_turnId : string;
  at_revision : Z;
  at_channel : option string;
  at_channelTargetId : option string;
  at_channelThreadId : option string;
  at_channelMessageId : option Z }.

(** The running attempt of a Task that executes an input of the Conversation. *)
Definition runningTurn (d : Db) (conversationId : string) : option (string * AttemptRow) :=
  head (omap (fun row =>
    if String.eqb (c_app_id (ident row)) (appId (db_store d)) && columnIs (c_conversation_id (ident row)) conversationId then
      c_execution_task_id (state row) ≫= fun t => tasks (db_store d) !! t ≫= fun r =>
      row_current_attempt_id r ≫= fun a => ResourceStore.attempts (db_store d) !! a ≫= fun x =>
      if bool_decide (ar_attempt_state x = at_running) then Some (a, x) else None
    else None) (map snd (map_to_list (db_inbox d)))).

(** The Conversation input an admission key names. *)
Definition turnInput (d : Db) (conversationId : string) (attempt : AppTaskAttempt) (key : string) : res (option AppInboxItem) :=
  if startsWith key "conversation-input:" then
    item ← getAppInboxItem (db_inbox d) (String.substring 19 (String.length key) key);
    mret (item ≫= fun i =>
      if String.eqb (it_appId i) (appId (db_store d)) && bool_decide (it_conversationId i = Some conversationId) &&
         bool_decide (it_executionTaskId i = Some (att_taskId attempt)) then Some i else None)
  else mret None.

Fixpoint turnInputs (d : Db) (conversationId : string) (attempt : AppTaskAttempt) (keys : list string)
    : res (list AppInboxItem) :=
  match keys with
  | [] => mret []
  | key :: keys =>
      item ← turnInput d conversationId attempt key;
      items ← turnInputs d conversationId attempt keys;
      mret (match item with Some i => i :: items | None => items end)
  end.

Definition readActiveAppTurn (d : Db) (conversationId : string) : res (option ActiveTurn) :=
  match runningTurn d conversationId with
  | None => mret None
  | Some (attemptId, row) =>
      let attempt := ar_attempt row in
      inputs ← turnInputs d conversationId attempt
                 (taskInputAdmissionKeys (default [] (att_events attempt)) (default [] (att_continuedInputKeys attempt)));
      let humans := filter (fun i => src_kind (it_source i) = "human") inputs in
      let source := match last humans with Some i => Some i | None => last inputs end in
      mret (Some (mkTurn attemptId (ar_task_generation row) (source ≫= it_channel)
        (source ≫= it_channelTargetId) (source ≫= it_channelThreadId)
        (match source ≫= it_channelMessageId with Some m => if m =? 0 then None else Some m | None => None end)))
  end.

End InboxAdmission.
