(* ===== verification/InboxHost.v ===== *)
(** The inbox Host ([src/app/core/inbox/app-inbox-host.ts], with
    [inbox/input-context.ts], [inbox/input-result.ts] and
    [apps/input-routing.ts]): it routes accepted input to a Conversation or to a
    Task, retries admissions that failed, reports rejections until a route
    accepts them, and projects the answers of Tasks back onto the rows.

    App code (schema checks, [task], [toInput]) and the callbacks of the
    composition are functions of the declarations and of [Options].  Callbacks
    that notify are logged.  The asynchronous parts are split at their awaits:
    a page is read in one step, each row is handled in its own, and the
    projection of an answer is a step before and one after the dependency was
    read.  The clock is read once per step. *)
From S2P Require Import Prelude Json TaskState TaskTree Transaction ResourceStore StoreInvariant StoreCommit Snapshot.
From S2P Require Import Context Approval Conditions Records Time TaskInputs TaskEvents TaskIntent TaskMutation.
From S2P Require Import TaskOutcome TaskAdmission Effects InboxStore ConversationRequests InboxAdmission EventSelector.
From S2P Require Import EventAdmission.

Module InboxHost.
Import Effects InboxStore InboxAdmission EventSelector.

(** ** App declarations *)

Record ConversationPolicy : Type := mkConversation {
  cp_taskMode : bool;
  cp_inputKinds : option (list string);
  cp_conversationId : option string }.

Record Subscription : Type := mkSubscription {
  sub_id : string;
  sub_event : EventSelector;
  sub_toInput : AppEvent -> res (option AppInput) }.

Record Action : Type := mkAction {
  ac_description : string;
  ac_inputSchema : json;
  ac_check : json -> res unit;
  ac_toInput : json -> res AppInput }.

(** A validated App definition.  [ad_accepts] is the App's input schema, with
    the diagnostics [assertValidAppInput] throws. *)
Record AppDef : Type := mkApp {
  ad_id : string;
  ad_agent : option string;
  ad_owner : option string;
  ad_accepts : AppInput -> res unit;
  ad_tasks : bool;
  ad_task : option (AppInputContext -> out (option AppTaskAttachment));
  ad_conversation : option ConversationPolicy;
  ad_subscriptions : list Subscription;
  ad_actions : obj Action }.

(** ** Routing ([input-routing.ts]) *)

Inductive InputRoute : Type := to_conversation | to_task.

#[export] Instance InputRoute_eq_dec : EqDecision InputRoute.
Proof. solve_decision. Defined.

Definition appInputRoute (app : AppDef) (kind : string) (targetTaskId : option string) (appRequest : bool)
    : option InputRoute :=
  if negb appRequest && bool_decide (nonempty targetTaskId = None) &&
     match ad_conversation app with
     | Some c => match cp_inputKinds c with Some ks => set_has kind ks | None => true end
     | None => false
     end
  then Some to_conversation
  else if ad_tasks app && bool_decide (is_Some (ad_task app)) then Some to_task else None.

Definition taskModeConversation (app : AppDef) : bool :=
  match ad_conversation app with Some c => cp_taskMode c | None => false end.

(** ** The Host *)

Record AppInboxFailure : Type := mkInboxFailure {
  fl_item : AppInboxItem;
  fl_stage : AppInboxRecoveryStage;
  fl_error : string;
  fl_evidence : option AppInboxRecoveryFailure }.

(** A report selected for the caller of an input. *)
Record TaskInputReport : Type := mkReport {
  rp_result : AppResult;
  rp_attemptId : string;
  rp_reportRevision : option Z;
  rp_blocked : bool;
  rp_state : option string }.

Inductive UpdateStatus : Type := up_done | up_blocked.

(** What was sent to the composition. *)
Inductive Notice : Type :=
| n_failure (f : AppInboxFailure)
| n_update (item : AppInboxItem) (result : AppResult) (status : UpdateStatus)
| n_report (item : AppInboxItem) (report : TaskInputReport)
| n_conversation (appId conversationId : string).

Record AppTurnTarget : Type := mkTurnTarget {
  tt_appId : string; tt_conversationId : string; tt_turnId : string; tt_expectedRevision : Z }.

(** [AppInboxHostOptions]: the callbacks of the composition.  A callback that
    notifies returns what the source uses of it: whether an accountable route
    accepted the feedback. *)
Record Options : Type := mkOptions {
  op_attachTask : option (TaskInputAdmission -> E Db string);
  op_admitConversation : option (CreateAppInboxItem -> E Db (AppInboxItem * bool));
  op_onRequestUpdated : option (AppInboxItem -> AppResult -> UpdateStatus -> res bool);
  op_onReport : AppInboxItem -> TaskInputReport -> res unit;
  op_onConversationChanged : option (string -> string -> res unit);
  op_stopConversationTurn : option (AppTurnTarget -> E Db unit);
  op_readsDependencies : bool }.

Record Host : Type := mkHost {
  ho_db : Db;
  ho_apps : obj AppDef;
  ho_closed : bool;
  ho_admissionCursor : option string;
  ho_resultCursor : option AppInboxTaskDependencyKey;
  ho_log : list Notice }.

Definition set_db (x : Db) (h : Host) : Host :=
  mkHost x (ho_apps h) (ho_closed h) (ho_admissionCursor h) (ho_resultCursor h) (ho_log h).
Definition set_apps (x : obj AppDef) (h : Host) : Host :=
  mkHost (ho_db h) x (ho_closed h) (ho_admissionCursor h) (ho_resultCursor h) (ho_log h).
Definition set_closed (x : bool) (h : Host) : Host :=
  mkHost (ho_db h) (ho_apps h) x (ho_admissionCursor h) (ho_resultCursor h) (ho_log h).
Definition set_admissionCursor (x : option string) (h : Host) : Host :=
  mkHost (ho_db h) (ho_apps h) (ho_closed h) x (ho_resultCursor h) (ho_log h).
Definition set_resultCursor (x : option AppInboxTaskDependencyKey) (h : Host) : Host :=
  mkHost (ho_db h) (ho_apps h) (ho_closed h) (ho_admissionCursor h) x (ho_log h).
Definition set_log (x : list Notice) (h : Host) : Host :=
  mkHost (ho_db h) (ho_apps h) (ho_closed h) (ho_admissionCursor h) (ho_resultCursor h) x.

Definition onDb {A} (m : E Db A) : E Host A := zoom ho_db set_db m.
Definition onBox {A} (m : E inbox A) : E Host A := onDb (onInbox m).
Definition logs (n : Notice) : E Host unit := writes (fun h => set_log (ho_log h ++ [n]) h).

(** [try { m } catch {}]. *)
Definition quietly {S} (m : E S unit) : E S unit := catching m (fun _ _ => mret tt).

(** *** Registered Apps *)

Definition requiredHostText (value field : string) : res string :=
  if nonblank value then Ok (trim value) else Throw (field +:+ " must be a non-empty string").

Definition stripSuffix (suffix s : string) : string :=
  if endsWith s suffix then String.substring 0 (String.length s - String.length suffix) s else s.

Definition normalizeAppId (appId : string) : string := stripSuffix ".app" (trim appId).

Definition appIds (h : Host) : list string := js_sort (obj_keys (ho_apps h)).
Definition hasApp (h : Host) (appId : string) : bool := obj_has (normalizeAppId appId) (ho_apps h).

Definition requiredApp (appId : string) : E Host AppDef :=
  normalized ← checks (requiredHostText appId "App id");
  app ← reads (fun h => obj_get normalized (ho_apps h));
  match app with Some a => mret a | None => throw ("Unknown App: " +:+ normalized) end.

Definition describeActions (h : Host) (appId : string) : res (list (string * string * json)) :=
  match obj_get (normalizeAppId appId) (ho_apps h) with
  | None => Throw ("App " +:+ appId +:+ " is not loaded")
  | Some app => Ok (map (fun e => (e.1, ac_description e.2, ac_inputSchema e.2)) (ad_actions app))
  end.

#[local] Instance res_bind' : MBind res := fun A B f x => match x with Ok a => f a | Throw e => Throw e end.
#[local] Instance res_ret' : MRet res := @Ok.

Definition invokeAction (h : Host) (appId actionId : string) (params : json) : res AppInput :=
  let normalized := normalizeAppId appId in
  match obj_get normalized (ho_apps h) with
  | None => Throw ("App " +:+ appId +:+ " is not loaded")
  | Some app =>
      match obj_get actionId (ad_actions app) with
      | None => Throw ("App " +:+ normalized +:+ " has no action " +:+ actionId)
      | Some action =>
          _ ← ac_check action params;
          input ← ac_toInput action params;
          _ ← ad_accepts app input;
          mret input
      end
  end.

(** The subscriptions of the registered Apps, in registration order. *)
Definition subscriptions (apps : obj AppDef) : list (AppDef * Subscription) :=
  flat_map (fun app => map (app,.) (ad_subscriptions app)) (obj_values apps).

Definition subscriptionRoutes (h : Host) (event : AppEvent) : list (string * string) :=
  map (fun r => (ad_id r.1, sub_id r.2))
    (filter (fun r => matchesEventSelector (sub_event r.2) event = true)
       (filter (fun r => eventSelectorType (sub_event r.2) = ev_type event) (subscriptions (ho_apps h)))).

Definition translateSubscription (appId subscriptionId : string) (event : AppEvent) : E Host (option AppInput) :=
  app ← requiredApp appId;
  match list_find (fun s => sub_id s = subscriptionId) (ad_subscriptions app) with
  | None => throw ("App " +:+ appId +:+ " subscription " +:+ subscriptionId +:+ " is unavailable")
  | Some (_, s) =>
      input ← checks (sub_toInput s event);
      match input with
      | Some i => _ ← checks (ad_accepts app i); mret (Some i)
      | None => mret None
      end
  end.

(** The agent that answers for an App. *)
Definition agentOf (app : AppDef) : string :=
  stripPrefix "agent:" (trim (match ad_agent app with Some a => a | None => default "" (ad_owner app) end)).

Definition isOwnedApp (h : Host) (appId owner : string) : bool :=
  let owner := trim owner in
  let normalized := if startsWith owner "agent:" then stripPrefix "agent:" owner else stripPrefix "app:" owner in
  match obj_get (trim appId) (ho_apps h) with
  | Some app => String.eqb (stripPrefix "app:" (trim (ad_id app))) normalized || String.eqb (agentOf app) normalized
  | None => false
  end.

Definition matchingAppIds (h : Host) (owner : string) (input : AppInput) : res (list string) :=
  owner ← requiredHostText owner "App owner";
  mret (js_sort (map ad_id (filter (fun app =>
    String.eqb (agentOf app) (stripPrefix "agent:" owner) && is_ok (ad_accepts app input) = true)
    (obj_values (ho_apps h))))).

Definition assertAcceptsInput (appId : string) (input : AppInput) : E Host unit :=
  app ← requiredApp appId;
  _ ← checks (ad_accepts app input);
  match appInputRoute app (inp_kind input) None false with
  | Some _ => mret tt
  | None => throw ("App " +:+ ad_id app +:+ " has no handler for input kind " +:+ inp_kind input)
  end.

(** *** Reload *)

Fixpoint registerApps (next : obj AppDef) (definitions : list AppDef) : res (obj AppDef) :=
  match definitions with
  | [] => mret next
  | app :: definitions =>
      if obj_has (ad_id app) next then Throw ("Duplicate App id: " +:+ ad_id app)
      else registerApps (next ++ [(ad_id app, app)]) definitions
  end.

(** A pending command the new declarations could not serve. *)
Definition checkPending (current next : obj AppDef) (appId : string) (row : EventAdmission.CommandRow) : res unit :=
  appId ← requiredHostText appId "Pending App event admission app id";
  kind ← requiredHostText (EventAdmission.cr_route_kind row) "Pending App event admission route kind";
  match obj_get appId next with
  | None =>
      if obj_has appId current
      then Throw ("Cannot remove App " +:+ appId +:+ " while it owns pending event admission commands")
      else mret tt
  | Some app =>
      if (String.eqb kind "task" || String.eqb kind "exact-task") && negb (ad_tasks app) then
        Throw ("Cannot remove task capability from App " +:+ appId +:+ " while it owns pending event admission commands")
      else if String.eqb kind "inbox" &&
              match prop (EventAdmission.cr_payload row) "input" with
              | Some (JObj i) => match obj_get "kind" i, obj_get "data" i with
                                 | Some (JStr k), Some d => negb (is_ok (ad_accepts app (mkInput k d)))
                                 | _, _ => true
                                 end
              | _ => true
              end then
        Throw ("Cannot install an input schema incompatible with pending event admission commands for App " +:+ appId)
      else if match prop (EventAdmission.cr_payload row) "conditionTaskIds" with
              | Some (JArr (_ :: _)) => negb (ad_tasks app)
              | _ => false
              end then
        Throw ("Cannot remove task capability from App " +:+ appId +:+ " while its pending admission includes Condition wakes")
      else mret tt
  end.

Fixpoint checkAll {A} (f : A -> res unit) (l : list A) : res unit :=
  match l with [] => mret tt | a :: l => _ ← f a; checkAll f l end.

Definition checkRemoved (t : inbox) (next : obj AppDef) (id : string) : res unit :=
  if obj_has id next then mret tt
  else if existsb (fun row => String.eqb (c_app_id (ident row)) id && negb (isDone row)) (map snd (map_to_list t))
  then Throw ("Cannot remove App " +:+ id +:+ " while it owns unfinished inbox items")
  else mret tt.

(** Pending commands come in the order of event and App. *)
Definition byEvent (a b : Z * string * EventAdmission.CommandRow) : Prop :=
  (a.1.1 <? b.1.1) || ((a.1.1 =? b.1.1) && String.leb a.1.2 b.1.2) = true.
#[export] Instance byEvent_dec : RelDecision byEvent.
Proof. intros a b. unfold byEvent. apply _. Defined.

Definition pendingCommands (j : EventAdmission.Journal) : list (Z * string * EventAdmission.CommandRow) :=
  filter (fun e => EventAdmission.isPending e.2 = true) (merge_sort byEvent (map_to_list (EventAdmission.commands j))).

Definition replaceApps (journal : EventAdmission.Journal) (definitions : list AppDef) : E Host unit :=
  next ← checks (registerApps [] definitions);
  current ← reads ho_apps;
  _ ← checks (checkAll (fun e => checkPending current next e.1.2 e.2) (pendingCommands journal));
  _ ← asks (fun h => checkAll (checkRemoved (db_inbox (ho_db h)) next) (obj_keys current));
  writes (set_apps next).

(** ** Failures *)

Section Operations.
Context `{Crypto} (options : Options) (now : Z).

Definition recoveryResult (item : AppInboxItem) (stage : AppInboxRecoveryStage) (message : string)
    (f : AppInboxRecoveryFailure) : AppResult :=
  mkAppResult ("App input " +:+ it_id item +:+ " could not complete " +:+ stageName stage +:+ ": " +:+ message) None
    (Some [("appId", JStr (it_appId item)); ("requestId", JStr (it_id item)); ("stage", JStr (stageName stage));
           ("disposition", JStr "recovery-pending"); ("fingerprint", JStr (rf_fingerprint f));
           ("firstFailedAt", JNum (num (rf_firstFailedAt f)))])
    (Some ["app-input:" +:+ it_appId item +:+ "/" +:+ it_id item; "recovery-stage:" +:+ stageName stage;
           "recovery-fingerprint:" +:+ rf_fingerprint f]).

(** Sends feedback to the caller; the answer tells whether a route accepted it. *)
Definition notifies (item : AppInboxItem) (result : AppResult) (status : UpdateStatus) : E Host bool :=
  match op_onRequestUpdated options with
  | None => mret false
  | Some f =>
      _ ← logs (n_update item result status);
      checks (f item result status)
  end.

Definition failure (item : AppInboxItem) (stage : AppInboxRecoveryStage) (message : string)
    (observationFingerprint : option string) : E Host unit :=
  evidence ← catching
    (f ← onBox (recordAppInboxRecoveryFailure (it_id item) stage message now observationFingerprint); mret (Some f))
    (fun _ _ => mret None);
  _ ← logs (n_failure (mkInboxFailure item stage message evidence));
  match evidence with
  | Some f =>
      if bool_decide (stage = input_admission) && bool_decide (rf_reportedAt f = None) &&
         bool_decide (is_Some (op_onRequestUpdated options)) then
        quietly (
          delivered ← notifies item (recoveryResult item stage message f) up_blocked;
          if (delivered : bool) then
            _ ← onBox (markAppInboxRecoveryReported (it_id item) stage (rf_fingerprint f) now); mret tt
          else mret tt)
      else mret tt
  | None => mret tt
  end.

(** ** Admission *)

(** App work without retained Conversation or executor ownership. *)
Definition isUnattachedTaskRequest (item : AppInboxItem) : bool :=
  String.eqb (src_kind (it_source item)) "app" && bool_decide (it_conversationId item = None) &&
  bool_decide (it_executionTaskId item = None) && bool_decide (it_waitingOn item = None) &&
  bool_decide (it_taskAdmissionKey item = None) && bool_decide (it_startedAt item = None) &&
  bool_decide (it_lease item = None).

Definition assertAppTaskInputRoute (app : AppDef) (kind : string) (targetTaskId : option string) : E Host unit :=
  match appInputRoute app kind targetTaskId true with
  | Some to_task => mret tt
  | _ => throwClass AppTaskAdmissionError ("App " +:+ ad_id app +:+ " has no Task handler for input kind " +:+ kind)
  end.

(** The rejected input's caller is told until a route accepts the feedback. *)
Definition reportRejection (item : AppInboxItem) : E Host unit :=
  match it_result item, priorFailure item input_admission with
  | Some result, Some evidence =>
      if bool_decide (is_Some (rf_reportedAt evidence)) then mret tt
      else
        catching (
          delivered ← notifies item (mkAppResult (ar_summary result) (ar_response result) (ar_result result)
            (Some (default [] (ar_facts result) ++ ["recovery-fingerprint:" +:+ rf_fingerprint evidence]))) up_done;
          if negb delivered then throw "No responsible route accepted the rejected input feedback"
          else
            _ ← onBox (markAppInboxRecoveryReported (it_id item) input_admission (rf_fingerprint evidence) now);
            _ ← onBox (resolveAppInboxRecovery (it_id item) input_feedback now);
            match it_conversationId item, op_onConversationChanged options with
            | Some c, Some f => _ ← logs (n_conversation (it_appId item) c); checks (f (it_appId item) c)
            | _, _ => mret tt
            end)
          (fun _ message => _ ← onBox (recordAppInboxRecoveryFailure (it_id item) input_feedback message now None); mret tt)
  | _, _ => mret tt
  end.

(** Resolving the work and attaching it. *)
Definition attachItem (item : AppInboxItem) (app : AppDef) : E Host unit :=
  _ ← (if isUnattachedTaskRequest item
       then assertAppTaskInputRoute app (inp_kind (it_input item)) (it_targetTaskId item) else mret tt);
  if bool_decide (appInputRoute app (inp_kind (it_input item)) (it_targetTaskId item) (isUnattachedTaskRequest item) =
                  Some to_conversation) then
    throw "Conversation input requires offline cutover to its Task execution owner"
  else match ad_task app, op_attachTask options with
  | Some resolve, attach =>
      if negb (ad_tasks app) then throw ("App " +:+ ad_id app +:+ " does not resolve input to Task work")
      else match attach with
      | None => throw "App task admission is not configured"
      | Some attach =>
          _ ← checks (ad_accepts app (it_input item));
          context ← asks (fun h => readInputContext (db_inbox (ho_db h)) item);
          attachment ← match it_targetTaskId item with
                       | Some t => mret (Some (existing t))
                       | None => computes (resolve context)
                       end;
          match attachment with
          | None => throw ("App " +:+ ad_id app +:+ " task resolver returned no Task attachment")
          | Some attachment =>
              let revision := match attachment with desired _ (Some _) => true | _ => false end in
              _ ← onDb (attach (mkTaskInput (ad_id app) attachment ("task:" +:+ it_id item) context None
                    (if revision then Some (default (mkCreator (ad_id app) None) (it_creator item)) else it_creator item)
                    revision (Some (it_id item)) (it_topicId item) None));
              quietly (onBox (resolveAppInboxRecovery (it_id item) input_admission now))
          end
      end
  | None, _ => throw ("App " +:+ ad_id app +:+ " does not resolve input to Task work")
  end.

(** An attached row whose old claim expired is fenced, never mapped again. *)
Definition fenceExpired (item : AppInboxItem) : E Host unit :=
  match it_lease item with
  | Some l =>
      _ ← onBox (updates (updateWhere (it_id item)
        (fun row => columnIs (c_lease_owner (state row)) (ls_owner l) && (c_lease_generation (state row) =? ls_generation l) &&
                    leaseBy row (fun e => e <=? now))
        (fun c => c |> set_lease_owner None |> set_lease_expires_at None)));
      mret tt
  | None => mret tt
  end.

Definition tryAdmit (item : AppInboxItem) : E Host unit :=
  app ← requiredApp (it_appId item);
  owned ← reads (fun h => match it_targetTaskId item with
                          | Some t => hasConversationExecutionTask (db_inbox (ho_db h)) (ad_id app) t
                          | None => false
                          end);
  if negb (taskModeConversation app) && owned then
    throwClass AppTaskAdmissionError "Conversation Task input must use conversationId without targetTaskId"
  else match taskWait item with
  | Some _ => fenceExpired item
  | None => attachItem item app
  end.

Definition admitTask (item : AppInboxItem) : E Host unit :=
  if bool_decide (it_status item = i_done) || bool_decide (is_Some (it_executionTaskId item)) then mret tt
  else if match it_availableAt item with Some a => now <? a | None => false end then mret tt
  else if match it_lease item with Some l => now <? ls_expiresAt l | None => false end then mret tt
  else
    catching (tryAdmit item) (fun class message =>
      if isAdmissionError class then
        result ← onBox (atomic (
          _ ← recordAppInboxRecoveryFailure (it_id item) input_admission message now None;
          rejectTaskInput now item class message));
        match result with
        | Some _ =>
            current ← asks (fun h => getAppInboxItem (db_inbox (ho_db h)) (it_id item));
            match current with Some i => reportRejection i | None => throw "item is null" end
        | None => mret tt
        end
      else failure item input_admission message None).

(** [AdmitAppInput] is a creation without a creator. *)
Definition retainedRequest (h : Host) (app : AppDef) (input : CreateAppInboxItem) : res (option AppInboxItem) :=
  match nonempty (cr_idempotencyKey input) with
  | Some key =>
      l ← listAppInboxItems (db_inbox (ho_db h)) (mkQuery (Some (ad_id app)) None (Some key) (Some (num 1)));
      mret (head l)
  | None => match nonempty (cr_id input) with
            | Some id => getAppInboxItem (db_inbox (ho_db h)) id
            | None => mret None
            end
  end.

Definition with_target (target : option string) (i : CreateAppInboxItem) : CreateAppInboxItem :=
  mkCreate (cr_id i) (cr_appId i) (cr_creator i) (cr_parentId i) target (cr_topicId i) (cr_conversationId i)
    (cr_conversationSequence i) (cr_channel i) (cr_channelTargetId i) (cr_channelThreadId i) (cr_channelMessageId i)
    (cr_replyToSourceId i) (cr_source i) (cr_input i) (cr_originEventId i) (cr_idempotencyKey i).

Definition with_conversation (conversationId : option string) (sequence : option number) (i : CreateAppInboxItem)
    : CreateAppInboxItem :=
  mkCreate (cr_id i) (cr_appId i) (cr_creator i) (cr_parentId i) (cr_targetTaskId i) (cr_topicId i) conversationId
    sequence (cr_channel i) (cr_channelTargetId i) (cr_channelThreadId i) (cr_channelMessageId i)
    (cr_replyToSourceId i) (cr_source i) (cr_input i) (cr_originEventId i) (cr_idempotencyKey i).

(** Saving the receipt, then admitting it to its Task. *)
Definition createAndAdmit (uuid : string) (input : CreateAppInboxItem) : E Host (AppInboxItem * bool) :=
  admitted ← onBox (createAppInboxItem uuid now input);
  _ ← admitTask admitted.1;
  item ← asks (fun h => getAppInboxItem (db_inbox (ho_db h)) (it_id admitted.1));
  match item with Some i => mret (i, admitted.2) | None => throw "item is null" end.

(** Input that was not saved before: to its Conversation, or as Task work. *)
Definition admitPrepared (uuid : string) (input : CreateAppInboxItem) (app : AppDef) (target : option string)
    (conversationInput : bool) : E Host (AppInboxItem * bool) :=
  let defaultId := trim <$> (ad_conversation app ≫= cp_conversationId) in
  let useDefault := conversationInput && bool_decide (cr_conversationId input = None) && bool_decide (is_Some defaultId) &&
                    bool_decide (is_Some (cr_originEventId input)) in
  let prepared := with_target target input in
  let prepared := if useDefault then with_conversation defaultId (cr_originEventId input) prepared else prepared in
  if conversationInput then
    match op_admitConversation options with
    | None => throw "Conversation Task admission is not configured"
    | Some f => onDb (f (with_conversation
        (Some (match cr_conversationId prepared with
               | Some c => c
               | None => match defaultId with Some d => d | None => ad_id app +:+ ":primary" end
               end)) (cr_conversationSequence prepared) prepared))
    end
  else createAndAdmit uuid prepared.

Definition admitInput (uuid : string) (input : CreateAppInboxItem) : E Host (AppInboxItem * bool) :=
  closed ← reads ho_closed;
  if (closed : bool) then throw "App input admission is closed"
  else
  app ← requiredApp (cr_appId input);
  _ ← checks (ad_accepts app (cr_input input));
  target ← checks (match cr_targetTaskId input with
                   | Some t => t ← requiredHostText t "targetTaskId"; mret (Some t)
                   | None => mret None
                   end);
  owned ← reads (fun h => match target with
                          | Some t => hasConversationExecutionTask (db_inbox (ho_db h)) (ad_id app) t
                          | None => false
                          end);
  if negb (taskModeConversation app) && owned then
    throw "Conversation Task input must use conversationId without targetTaskId"
  else
  let appRequest := String.eqb (src_kind (cr_source input)) "app" && bool_decide (nonempty (cr_conversationId input) = None) in
  let conversationInput :=
    bool_decide (appInputRoute app (inp_kind (cr_input input)) target appRequest = Some to_conversation) in
  retained ← (if conversationInput then asks (fun h => retainedRequest h app input) else mret None);
  match retained with
  | Some item =>
      if isUnattachedTaskRequest item then createAndAdmit uuid (with_target target input)
      else admitPrepared uuid input app target conversationInput
  | None => admitPrepared uuid input app target conversationInput
  end.

Definition stopTurn (target : AppTurnTarget) : E Host unit :=
  _ ← requiredApp (tt_appId target);
  match op_stopConversationTurn options with
  | None => throw "Conversation Task control is not configured"
  | Some stop => onDb (stop target)
  end.

Definition close : E Host unit := writes (set_closed true).

(** ** Recovering admissions *)

Definition unadmitted (row : InboxRow) : bool :=
  negb (isDone row) && bool_decide (c_execution_task_id (state row) = None) &&
  (negb (columnIs (c_waiting_on_kind (state row)) "task") || bool_decide (is_Some (c_lease_owner (state row)))) &&
  dueAt now (c_lease_expires_at (state row)) && dueAt now (c_available_at (state row)).

(** A rejection whose feedback no route has accepted yet. *)
Definition unreported (row : InboxRow) : bool :=
  bool_decide (c_execution_task_id (state row) = None) && isDone row &&
  bool_decide (c_waiting_on_kind (state row) = None) &&
  match c_handling (state row) with Some (h_failed _) => true | _ => false end &&
  match c_recovery (state row) ≫= obj_get (stageName input_admission) with
  | Some f => bool_decide (rf_reportedAt f = None)
  | None => false
  end && dueAt now (c_review_at (state row)).

Definition PAGE : nat := 64.

(** [ORDER BY id LIMIT 64], after the cursor. *)
Definition admissionPage (t : inbox) (cursor : option string) : list string :=
  take PAGE (merge_sort String.le (map (fun row => c_id (ident row))
    (select (fun row => (unadmitted row || unreported row) &&
       match nonempty cursor with Some c => String.ltb c (c_id (ident row)) | None => true end) t))).

(** Reads the page of a pass and moves the cursor; at the end it starts over. *)
Definition readAdmissionPage : E Host (list string) :=
  closed ← reads ho_closed;
  if (closed : bool) then mret []
  else
    cursor ← reads ho_admissionCursor;
    rows ← reads (fun h => admissionPage (db_inbox (ho_db h)) cursor);
    rows ← match rows, nonempty cursor with
           | [], Some _ => reads (fun h => admissionPage (db_inbox (ho_db h)) None)
           | _, _ => mret rows
           end;
    _ ← writes (set_admissionCursor (if Nat.eqb (length rows) PAGE then last rows else None));
    mret rows.

Definition recoverAdmission (id : string) : E Host unit :=
  closed ← reads ho_closed;
  if (closed : bool) then mret tt
  else
    item ← asks (fun h => getAppInboxItem (db_inbox (ho_db h)) id);
    match item with
    | Some item =>
        known ← reads (fun h => obj_has (it_appId item) (ho_apps h));
        if negb known then mret tt
        else if bool_decide (it_status item = i_done) then reportRejection item else admitTask item
    | None => mret tt
    end.

(** One pass without other steps in between. *)
Definition recoverAdmissions : E Host unit :=
  rows ← readAdmissionPage;
  for_each recoverAdmission rows.

(** ** Projecting answers *)

(** What a dependency reader returns about a Task. *)
Record TaskInputObservation : Type := mkObserved {
  ob_kind : string;
  ob_id : string;
  ob_status : string;
  ob_summary : option string;
  ob_response : option string;
  ob_result : option (obj json);
  ob_facts : option (list string);
  ob_reports : option (list TaskInputReport);
  ob_report : option TaskInputReport }.

Definition reviewable (status : string) : bool := set_has status ["attention"; "done"; "error"; "interrupted"; "unknown"].

(** A projection that waits for its dependency to be read. *)
Record Projection : Type := mkProjection {
  pj_item : AppInboxItem;
  pj_deferred : bool;
  pj_admissionKey : string }.

(** An unchanged failed observation that is not due again. *)
Definition suppressed (item : AppInboxItem) (deferred : bool) (fingerprint : string) : bool :=
  deferred && match priorFailure item input_result with
              | Some f => bool_decide (rf_recoveredAt f = None) &&
                          bool_decide (rf_observationFingerprint f = Some fingerprint)
              | None => false
              end.

Definition projectionFailed (item : AppInboxItem) (deferred : bool) (fingerprint message : string) : E Host unit :=
  if suppressed item deferred fingerprint then mret tt else failure item input_result message (Some fingerprint).

Definition errorFingerprint (message : string) : string := sha256 ("error" +:+ NUL +:+ message).

(** Before the await: the row has to wait for a Task, and its admission has to
    be known.  [None]: nothing is read. *)
Definition projectStart (item : AppInboxItem) (probeFreshEvidence : bool) : E Host (option Projection) :=
  closed ← reads ho_closed;
  let deferred := match it_reviewAt item with Some r => now <? r | None => false end in
  if (closed : bool) || negb (op_readsDependencies options) || bool_decide (it_status item = i_done) ||
     bool_decide (taskWait item = None) || (deferred && negb probeFreshEvidence) then mret None
  else
    catching (
      key ← onDb (recoverTaskInputAdmissionKey item);
      match nonempty key with
      | None => throw "Input has no unambiguous Task admission; repair its saved link before returning a result"
      | Some k => mret (Some (mkProjection item deferred k))
      end)
      (fun _ message => _ ← projectionFailed item deferred (errorFingerprint message) message; mret None).

(** Every report is attempted; the first failure is kept. *)
Fixpoint sendReports (item : AppInboxItem) (reports : list TaskInputReport) (failed : option string) : E Host (option string) :=
  match reports with
  | [] => mret failed
  | r :: reports =>
      failed ← (if bool_decide (is_Some (op_onRequestUpdated options)) then
                  _ ← logs (n_report item r);
                  mret (match op_onReport options item r with
                        | Ok _ => failed
                        | Throw e => match failed with Some f => Some f | None => Some e end
                        end)
                else mret failed);
      sendReports item reports failed
  end.

Definition observedResult (o : TaskInputObservation) : AppResult :=
  mkAppResult (match ob_summary o with
               | Some s => s
               | None => "Task " +:+ ob_id o +:+ " requires owner review (" +:+ ob_status o +:+ ")"
               end) (ob_response o) (ob_result o) (ob_facts o).

(** The row as it was read, with the recovered admission key. *)
Definition with_admissionKey (key : string) (i : AppInboxItem) : AppInboxItem :=
  mkItem (it_id i) (it_appId i) (it_creator i) (it_parentId i) (it_targetTaskId i) (it_topicId i)
    (it_continuesRequestId i) (it_conversationId i) (it_conversationSequence i) (it_channel i) (it_channelTargetId i)
    (it_channelThreadId i) (it_channelMessageId i) (it_replyToSourceId i) (it_source i) (it_input i) (it_status i)
    (it_sessionId i) (it_waitingOn i) (Some key) (it_executionTaskId i) (it_result i) (it_handling i) (it_recovery i)
    (it_availableAt i) (it_reviewAt i) (it_lease i) (it_originEventId i) (it_idempotencyKey i) (it_createdAt i)
    (it_startedAt i) (it_changedAt i) (it_updatedAt i) (it_completedAt i).

(** Saving the accepted answer, and telling the caller. *)
Definition finishProjection (p : Projection) (o : TaskInputObservation) : E Host unit :=
  let item := pj_item p in
  let result := observedResult o in
  completed ← onBox (completeTaskInput now (with_admissionKey (pj_admissionKey p) item) result);
  if negb completed then mret tt
  else
    _ ← onBox (resolveAppInboxRecovery (it_id item) input_result now);
    quietly (
      _ ← notifies item result up_done;
      match it_conversationId item, op_onConversationChanged options with
      | Some c, Some f => _ ← logs (n_conversation (it_appId item) c); checks (f (it_appId item) c)
      | _, _ => mret tt
      end).

(** A dependency reader answers about the Task it was asked for. *)
Definition mismatched (item : AppInboxItem) (o : TaskInputObservation) : bool :=
  negb (String.eqb (ob_kind o) "task") || negb (bool_decide (taskWait item = Some (ob_id o))).

(** After the await.  [fingerprint] digests the observation that was read. *)
Definition projectFinish (p : Projection) (fingerprint : string) (observed : res (option TaskInputObservation)) : E Host unit :=
  let item := pj_item p in
  match observed with
  | Throw message => projectionFailed item (pj_deferred p) (errorFingerprint message) message
  | Ok (Some o) =>
      if mismatched item o then
        let message := "Dependency reader returned a mismatched observation for task:" +:+ default "" (taskWait item) in
        projectionFailed item (pj_deferred p) (errorFingerprint message) message
      else if suppressed item (pj_deferred p) fingerprint then mret tt
      else
        closed ← reads ho_closed;
        if (closed : bool) then mret tt
        else
          catching (
            failed ← sendReports item (match ob_reports o with
                                       | Some rs => rs
                                       | None => match ob_report o with Some r => [r] | None => [] end
                                       end) None;
            if negb (reviewable (ob_status o)) then
              match failed with
              | Some e => throw e
              | None => onBox (resolveAppInboxRecovery (it_id item) input_result now)
              end
            else finishProjection p o)
            (fun _ message => projectionFailed item (pj_deferred p) fingerprint message)
  | Ok None =>
      if suppressed item (pj_deferred p) fingerprint then mret tt
      else
        closed ← reads ho_closed;
        if (closed : bool) then mret tt
        else failure item input_result "Task dependency evidence is unavailable" (Some fingerprint)
  end.

(** The rows to refresh for a Task, deferred ones included. *)
Definition refreshTaskResults (appId taskId : string) : E Host (list AppInboxItem) :=
  closed ← reads ho_closed;
  if (closed : bool) then mret []
  else asks (fun h => listAppInboxItemsWaitingOnTask (db_inbox (ho_db h)) appId taskId now true).

(** One bounded page of rows that wait for Tasks; at the end it starts over. *)
Definition recoverTaskResults : E Host (list AppInboxTaskDependencyKey) :=
  closed ← reads ho_closed;
  if (closed : bool) then mret []
  else
    cursor ← reads ho_resultCursor;
    page ← asks (fun h => listAppInboxTaskDependencyKeys (db_inbox (ho_db h)) cursor None now);
    page ← match dp_items page, cursor with
           | [], Some _ =>
               _ ← writes (set_resultCursor None);
               asks (fun h => listAppInboxTaskDependencyKeys (db_inbox (ho_db h)) None None now)
           | _, _ => mret page
           end;
    _ ← writes (set_resultCursor (dp_nextCursor page));
    mret (dp_items page).

End Operations.
End InboxHost.
