(* ===== verification/InboxLaws.v ===== *)
(** What holds of the App inbox ([InboxStore], [InboxAdmission]): its rows are
    consistent and unique, what is answered stays answered, admissions can be
    sent again, failures pace the retry of one row only, and listings are
    exact. *)
From S2P Require Import Prelude Json TaskState TaskTree Transaction ResourceStore StoreInvariant StoreCommit Snapshot.
From S2P Require Import Context Approval Conditions Records Time TaskInputs TaskEvents TaskIntent TaskMutation.
From S2P Require Import TaskOutcome TaskAdmission TaskReplay Effects Keyset InboxStore ConversationRequests InboxAdmission.

Module InboxLaws.
Import Effects InboxStore InboxAdmission.

(** ** Consistency of the table *)

(** A row is completed exactly when it is done, has a result only then, and
    names both or none of the two parts of a dependency. *)
Definition state_ok (c : InboxState) : Prop :=
  (c_status c = i_done <-> is_Some (c_completed_at c)) /\
  (is_Some (c_result c) -> c_status c = i_done) /\
  (is_Some (c_waiting_on_kind c) <-> is_Some (c_waiting_on_id c)).

Record inbox_ok (t : inbox) : Prop := {
  io_key : forall id row, t !! id = Some row -> c_id (ident row) = id;
  io_state : forall id row, t !! id = Some row -> state_ok (state row);
  io_unique : forall id id' row row', t !! id = Some row -> t !! id' = Some row' ->
    conflicts (ident row) (ident row') = true -> id = id' }.

(** What later statements keep of a row: who it is, its Topic and event link,
    and, once it is done, its outcome. *)
Definition keeps_row (row row' : InboxRow) : Prop :=
  ident row' = ident row /\ c_topic_id (state row') = c_topic_id (state row) /\
  (is_Some (c_origin_event_id (state row)) -> c_origin_event_id (state row') = c_origin_event_id (state row)) /\
  (c_status (state row) = i_done ->
     c_status (state row') = i_done /\ c_result (state row') = c_result (state row) /\
     c_handling (state row') = c_handling (state row) /\ c_completed_at (state row') = c_completed_at (state row)).

#[export] Instance keeps_row_preorder : PreOrder keeps_row.
Proof.
  split; [by intros row|]. intros a b c (I1 & T1 & O1 & D1) (I2 & T2 & O2 & D2).
  unfold keeps_row. split_ands.
  - congruence.
  - congruence.
  - intros H. specialize (O1 H). rewrite <- O1 in H. rewrite (O2 H). done.
  - intros H. destruct (D1 H) as (S1 & R1 & H1 & C1). destruct (D2 S1) as (S2 & R2 & H2 & C2). split_ands; congruence.
Qed.

Definition evolves (t t' : inbox) : Prop :=
  forall id row, t !! id = Some row -> exists row', t' !! id = Some row' /\ keeps_row row row'.

#[export] Instance inbox_evolves_preorder : PreOrder evolves.
Proof.
  split; [intros t id row H; by exists row|]. intros a b c H1 H2 id row H.
  destruct (H1 id row H) as (r1 & E1 & K1). destruct (H2 id r1 E1) as (r2 & E2 & K2). exists r2. split; [done|]. by transitivity r1.
Qed.

(** Consistent, and evolved from [t0]. *)
Definition inbox_since (t0 t : inbox) : Prop := inbox_ok t /\ evolves t0 t.

(** ** Statements *)

(** An [UPDATE] of one row is safe when it keeps the row consistent and its
    outcome. *)
Definition safe_update (cond : InboxRow -> bool) (f : InboxState -> InboxState) : Prop :=
  forall row, cond row = true -> state_ok (state row) ->
    state_ok (f (state row)) /\ keeps_row row (mkRow (ident row) (f (state row))).

Lemma updateWhere_since t0 id cond f : safe_update cond f -> keeps (inbox_since t0) (updates (updateWhere id cond f)).
Proof.
  intros Hsafe. apply keeps_updates. intros t [Hok Hev]. unfold updateWhere. destruct (t !! id) as [row|] eqn:E; [|done].
  destruct (cond row) eqn:Ec; [|done]. simpl. destruct (Hsafe row Ec (io_state t Hok id row E)) as [Hs Hk]. split.
  - split.
    + intros i r [[<- <-]|[_ Hr]]%lookup_insert_Some; [by eapply (io_key t Hok) in E|by eapply io_key].
    + intros i r [[<- <-]|[_ Hr]]%lookup_insert_Some; [done|by eapply io_state].
    + intros i i' r r' Hr Hr'. assert (forall j x, <[id := mkRow (ident row) (f (state row))]> t !! j = Some x ->
        exists y, t !! j = Some y /\ ident y = ident x) as Hid.
      { intros j x [[<- <-]|[_ Hx]]%lookup_insert_Some; [by exists row|by exists x]. }
      destruct (Hid i r Hr) as (y & Hy & <-), (Hid i' r' Hr') as (y' & Hy' & <-). by eapply io_unique.
  - transitivity t; [done|]. intros i r Hr. destruct (decide (id = i)) as [->|Hne].
    + rewrite lookup_insert_eq. eexists. split; [done|]. assert (r = row) as -> by congruence. done.
    + exists r. by rewrite lookup_insert_ne.
Qed.

(** Updates that leave the status, the result and the dependency alone. *)
Definition bookkeeping (f : InboxState -> InboxState) : Prop :=
  forall c, c_status (f c) = c_status c /\ c_completed_at (f c) = c_completed_at c /\ c_result (f c) = c_result c /\
    c_waiting_on_kind (f c) = c_waiting_on_kind c /\ c_waiting_on_id (f c) = c_waiting_on_id c /\
    c_handling (f c) = c_handling c /\ c_topic_id (f c) = c_topic_id c /\ c_origin_event_id (f c) = c_origin_event_id c.

Lemma bookkeeping_safe cond f : bookkeeping f -> safe_update cond f.
Proof.
  intros Hf row _ Hok. destruct (Hf (state row)) as (E1 & E2 & E3 & E4 & E5 & E6 & E7 & E8).
  split; [unfold state_ok; by rewrite E1, E2, E3, E4, E5|]. unfold keeps_row. simpl. rewrite E1, E2, E3, E6, E7, E8. done.
Qed.

(** ** Conflicts *)

Lemma conflicts_sym a b : conflicts a b = conflicts b a.
Proof.
  assert (forall x y, conflicts x y = true -> conflicts y x = true) as H.
  { intros x y [Hi|Hs]%orb_true_iff; apply orb_true_iff; [left|right].
    - unfold sameIdempotency, columnIs in *. destruct (c_idempotency_key x) as [k|] eqn:Ek; [|done].
      apply andb_true_iff in Hi as [[Hk Hy]%andb_true_iff Ha]. apply bool_decide_eq_true_1 in Hy. rewrite Hy, Hk.
      apply String.eqb_eq in Ha. by rewrite bool_decide_true, Ha, String.eqb_refl.
    - unfold sameSequence, columnIs in *. destruct (c_conversation_id x) as [c|]; [|done]. destruct (c_conversation_seq x) as [n|]; [|done].
      apply andb_true_iff in Hs as [[Hc Hn]%andb_true_iff Ha]. apply bool_decide_eq_true_1 in Hc, Hn. rewrite Hc, Hn.
      apply String.eqb_eq in Ha. by rewrite !bool_decide_true, Ha, String.eqb_refl. }
  destruct (conflicts a b) eqn:E1, (conflicts b a) eqn:E2; try done; [apply H in E1|apply H in E2]; congruence.
Qed.

Lemma insert_since t0 row :
  state_ok (state row) -> keeps (inbox_since t0) (updates (insertOrIgnore row)).
Proof.
  intros Hs. apply keeps_updates. intros t [Hok Hev]. unfold insertOrIgnore. destruct (_ || _) eqn:E; [done|].
  reflect_bools. simpl. assert (t !! c_id (ident row) = None) as Hnew by (by apply eq_None_not_Some).
  assert (forall id r, t !! id = Some r -> conflicts (ident row) (ident r) = false) as Hfree.
  { intros id r Hr. apply not_true_iff_false. intros Hc. apply not_true_iff_false in H0. apply H0, existsb_exists.
    exists r. split; [|done]. apply list_elem_of_In, list_elem_of_fmap. exists (id, r). by rewrite elem_of_map_to_list. }
  split.
  - split.
    + intros i r [[<- <-]|[_ Hr]]%lookup_insert_Some; [done|by eapply io_key].
    + intros i r [[<- <-]|[_ Hr]]%lookup_insert_Some; [done|by eapply io_state].
    + intros i i' r r' [[<- <-]|[Hi Hr]]%lookup_insert_Some [[<- <-]|[Hi' Hr']]%lookup_insert_Some Hc; try done.
      * by rewrite (Hfree _ _ Hr') in Hc.
      * by rewrite conflicts_sym, (Hfree _ _ Hr) in Hc.
      * by eapply io_unique.
  - transitivity t; [done|]. intros i r Hr. exists r. rewrite lookup_insert_ne by congruence. done.
Qed.

(** ** Operations *)

Lemma set_due_bookkeeping stage at_ : bookkeeping (set_due stage at_).
Proof. by destruct stage. Qed.

Lemma bookkeeping_compose f g : bookkeeping f -> bookkeeping g -> bookkeeping (fun c => g (f c)).
Proof.
  intros Hf Hg c. destruct (Hf c) as (? & ? & ? & ? & ? & ? & ? & ?), (Hg (f c)) as (? & ? & ? & ? & ? & ? & ? & ?).
  split_ands; congruence.
Qed.

Lemma stamps_bookkeeping r stage at_ now :
  bookkeeping (fun c => c |> set_recovery r |> set_due stage at_ |> set_changed_at (Some now) |> set_updated_at now).
Proof.
  apply (bookkeeping_compose (fun c => c |> set_recovery r |> set_due stage at_)
    (fun c => c |> set_changed_at (Some now) |> set_updated_at now)); [|done].
  by apply (bookkeeping_compose (set_recovery r) (set_due stage at_)); [|apply set_due_bookkeeping].
Qed.

Section Operations.
Context (t0 : inbox).

Lemma record_since `{Crypto} id stage error now fp :
  keeps (inbox_since t0) (recordAppInboxRecoveryFailure id stage error now fp).
Proof.
  unfold recordAppInboxRecoveryFailure. keeps_walk.
  apply updateWhere_since, bookkeeping_safe, stamps_bookkeeping.
Qed.

Lemma reported_since id stage fp now : keeps (inbox_since t0) (markAppInboxRecoveryReported id stage fp now).
Proof. unfold markAppInboxRecoveryReported. keeps_walk. by apply updateWhere_since, bookkeeping_safe. Qed.

Lemma resolved_since id stage now : keeps (inbox_since t0) (resolveAppInboxRecovery id stage now).
Proof. unfold resolveAppInboxRecovery. keeps_walk. apply updateWhere_since, bookkeeping_safe, stamps_bookkeeping. Qed.

Lemma create_since uuid now input : keeps (inbox_since t0) (createAppInboxItem uuid now input).
Proof.
  unfold createAppInboxItem. keeps_walk.
  - apply insert_since. unfold state_ok. simpl. split_ands; [split; [done|by intros []]|by intros []|done].
  - apply updateWhere_since. intros row Hc Hok. reflect_bools. split; [done|]. unfold keeps_row. simpl. rewrite Hc.
    split_ands; try done.
Qed.

Lemma link_since now id taskId key : keeps (inbox_since t0) (linkTaskInput now id taskId key).
Proof.
  unfold linkTaskInput. keeps_walk. apply updateWhere_since. intros row Hc (Hd & Hr & _). unfold isDone in Hc. reflect_bools.
  unfold state_ok, keeps_row. simpl. split_ands; try done.
  - split; [done|]. intros Hcomp. by destruct H; apply Hd.
  - intros Hres. by destruct H; apply Hr.
Qed.

Lemma reject_since now item class message : keeps (inbox_since t0) (rejectTaskInput now item class message).
Proof.
  unfold rejectTaskInput. keeps_walk. apply updateWhere_since. intros row Hc (Hd & Hr & Hw). unfold isStatus in Hc. reflect_bools.
  unfold state_ok, keeps_row. simpl. rewrite H. split_ands; done.
Qed.

Lemma complete_since now item result : keeps (inbox_since t0) (completeTaskInput now item result).
Proof.
  unfold completeTaskInput. keeps_walk. apply updateWhere_since. intros row Hc (Hd & Hr & Hw). unfold isStatus in Hc. reflect_bools.
  unfold state_ok, keeps_row. simpl. rewrite H. split_ands; done.
Qed.

End Operations.

#[export] Hint Resolve record_since reported_since resolved_since create_since link_since reject_since complete_since : may.

(** ** Histories of the inbox *)

Inductive inboxOp : Type :=
| b_create (uuid : string) (now : Z) (input : CreateAppInboxItem)
| b_fail (id : string) (stage : AppInboxRecoveryStage) (error : string) (now : Z) (fingerprint : option string)
| b_reported (id : string) (stage : AppInboxRecoveryStage) (fingerprint : string) (now : Z)
| b_resolved (id : string) (stage : AppInboxRecoveryStage) (now : Z)
| b_link (now : Z) (id taskId key : string)
| b_reject (now : Z) (item : AppInboxItem) (class : ErrorClass) (message : string)
| b_complete (now : Z) (item : AppInboxItem) (result : AppResult).

(** The table after an operation, whether it returned or threw. *)
Definition afterOp `{Crypto} (t : inbox) (o : inboxOp) : inbox :=
  match o with
  | b_create u n i => (createAppInboxItem u n i t).2
  | b_fail i s e n f => (recordAppInboxRecoveryFailure i s e n f t).2
  | b_reported i s f n => (markAppInboxRecoveryReported i s f n t).2
  | b_resolved i s n => (resolveAppInboxRecovery i s n t).2
  | b_link n i k a => (linkTaskInput n i k a t).2
  | b_reject n i c m => (rejectTaskInput n i c m t).2
  | b_complete n i r => (completeTaskInput n i r t).2
  end.

Lemma afterOp_since `{Crypto} t0 t o : inbox_since t0 t -> inbox_since t0 (afterOp t o).
Proof.
  intros Hs. destruct o; simpl; [by apply create_since|by apply record_since|by apply reported_since|by apply resolved_since|
    by apply link_since|by apply reject_since|by apply complete_since].
Qed.

Lemma history_since `{Crypto} t ops : inbox_ok t -> inbox_since t (fold_left afterOp ops t).
Proof.
  intros Hok. assert (inbox_since t t) as Hs by done. revert Hs. generalize t at 2 4 as u.
  induction ops as [|o ops IH]; intros u Hu; [done|]. simpl. apply IH. by apply afterOp_since.
Qed.

Lemma empty_inbox_ok : inbox_ok ∅.
Proof. split; intros *; by rewrite lookup_empty. Qed.

(** ** Reading a row *)

(** The texts a row needs to be read. *)
Definition readable (i : InboxIdentity) : bool :=
  nonblank (c_id i) && nonblank (c_app_id i) && nonblank (src_kind (c_source i)) && nonblank (src_id (c_source i)) &&
  nonblank (inp_kind (c_input i)).

Lemma rowToItem_inv row item :
  rowToItem row = Ok item ->
  readable (ident row) = true /\ it_id item = c_id (ident row) /\ it_appId item = c_app_id (ident row) /\
  it_creator item = c_creator (ident row) /\ it_parentId item = nonempty (c_parent_id (ident row)) /\
  it_targetTaskId item = nonempty (c_target_task_id (ident row)) /\ it_topicId item = nonempty (c_topic_id (state row)) /\
  it_source item = c_source (ident row) /\ it_input item = c_input (ident row) /\
  it_originEventId item = c_origin_event_id (state row).
Proof.
  unfold rowToItem, readable, requiredText. destruct (nonblank (c_id _)); [|done]. simpl. destruct (nonblank (c_app_id _)); [|done]. simpl.
  destruct (nonblank (src_kind _)); [|done]. simpl. destruct (nonblank (src_id _)); [|done]. simpl.
  destruct (nonblank (inp_kind _)); [|done]. simpl. intros [= <-]. simpl.
  split_ands; try done; [by destruct (c_source (ident row))|by destruct (c_input (ident row))].
Qed.

Lemma rowToItem_readable row : readable (ident row) = true -> exists item, rowToItem row = Ok item.
Proof.
  unfold readable, rowToItem, requiredText. intros H. apply andb_true_iff in H as [[[[-> ->]%andb_true_iff ->]%andb_true_iff
    ->]%andb_true_iff ->]. simpl. eauto.
Qed.

(** Whether a row answers a request depends only on what statements keep. *)
Definition answers (input : CreateAppInboxItem) (row : InboxRow) : Prop :=
  exists item, rowToItem row = Ok item /\ it_appId item = cr_appId input /\ matchesRequest item input = true /\
    match cr_originEventId input with
    | Some n => exists z, it_originEventId item = Some z /\ number_eqb (num z) n = true
    | None => True
    end.

Lemma matchesRequest_kept row row' item item' input :
  rowToItem row = Ok item -> rowToItem row' = Ok item' -> ident row' = ident row ->
  c_topic_id (state row') = c_topic_id (state row) -> matchesRequest item' input = matchesRequest item input.
Proof.
  intros H1 H2 Hi Ht. apply rowToItem_inv in H1 as (_ & _ & _ & E1 & E2 & E3 & E4 & E5 & E6 & _).
  apply rowToItem_inv in H2 as (_ & _ & _ & F1 & F2 & F3 & F4 & F5 & F6 & _). rewrite Hi in *. rewrite Ht in *.
  unfold matchesRequest. by rewrite E1, E2, E3, E4, E5, E6, F1, F2, F3, F4, F5, F6.
Qed.

Lemma answers_kept input row row' : answers input row -> keeps_row row row' -> answers input row'.
Proof.
  intros (item & Hitem & Happ & Hm & Ho) (Hi & Ht & Horig & _).
  pose proof (rowToItem_inv _ _ Hitem) as (Hr & _ & Ha & _ & _ & _ & _ & _ & _ & He).
  destruct (rowToItem_readable row') as [item' Hitem']; [by rewrite Hi|]. exists item'.
  pose proof (rowToItem_inv _ _ Hitem') as (_ & _ & Ha' & _ & _ & _ & _ & _ & _ & He'). split_ands; [done| | |].
  - by rewrite Ha', Hi, <- Ha.
  - by rewrite (matchesRequest_kept row row' item item').
  - destruct (cr_originEventId input) as [n|]; [|done]. destruct Ho as (z & Hz & Hn). exists z. split; [|done].
    rewrite He in Hz. rewrite He', Horig; [done|by rewrite Hz].
Qed.

(** The row a request is recognised by. *)
Definition identified (input : CreateAppInboxItem) (row : InboxRow) : Prop :=
  match nonempty (cr_idempotencyKey input) with
  | Some k => c_idempotency_key (ident row) = Some k /\ c_app_id (ident row) = cr_appId input
  | None => forall id, cr_id input = Some id -> c_id (ident row) = id
  end.

Lemma elem_of_select P t row : row ∈ select P t <-> P row = true /\ exists id, t !! id = Some row.
Proof.
  unfold select. rewrite list_elem_of_filter, list_elem_of_fmap. split.
  - intros [HP ([id r] & -> & H)]. split; [done|]. exists id. by apply elem_of_map_to_list.
  - intros [HP (id & H)]. split; [done|]. exists (id, row). by rewrite elem_of_map_to_list.
Qed.

(** The row under the key of a request is unique. *)
Lemma existingRow_identified t id input row :
  inbox_ok t -> t !! c_id (ident row) = Some row -> identified input row ->
  (nonempty (cr_idempotencyKey input) = None -> c_id (ident row) = id) -> existingRow id input t = Some row.
Proof.
  intros Hok Hrow Hid Hnone. unfold existingRow, identified in *.
  destruct (nonempty (cr_idempotencyKey input)) as [k|] eqn:Ek; [|by rewrite <- Hnone]. destruct Hid as [Hk Ha].
  apply nonempty_Some in Ek as [_ Hne]. set (P := fun r : InboxRow => _).
  assert (row ∈ select P t) as Hin.
  { apply elem_of_select. split; [|eauto]. unfold P, columnIs. rewrite Ha, String.eqb_refl, Hk, bool_decide_true by done.
    simpl. by rewrite (proj2 (String.eqb_neq _ _)). }
  destruct (select P t) as [|r l] eqn:Es; [by apply elem_of_nil in Hin|]. simpl. f_equal.
  assert (r ∈ select P t) as Hr by (rewrite Es; by left). apply elem_of_select in Hr as [HP [i Hi]].
  unfold P, columnIs in HP. reflect_bools. assert (i = c_id (ident row)) as ->; [|congruence].
  apply (io_unique t Hok _ _ _ _ Hi Hrow). apply orb_true_iff. left. unfold sameIdempotency, columnIs.
  replace (c_idempotency_key (ident r)) with (Some k). rewrite Hk, bool_decide_true by done.
  rewrite (proj2 (String.eqb_neq _ _) Hne). simpl. apply String.eqb_eq. congruence.
Qed.

Lemma insert_ignored t id now input row :
  t !! c_id (ident row) = Some row -> identified input row -> nonempty (cr_idempotencyKey input) <> None \/ c_id (ident row) = id ->
  insertOrIgnore (newRow id now input) t = (0, t).
Proof.
  intros Hrow Hid Hcase. unfold insertOrIgnore. destruct (_ || _) eqn:E; [done|]. exfalso. apply orb_false_iff in E as [E1 E2].
  apply bool_decide_eq_false_1 in E1. unfold identified in Hid. destruct (nonempty (cr_idempotencyKey input)) as [k|] eqn:Ek.
  - apply not_true_iff_false in E2. apply E2, existsb_exists. exists row. split.
    + apply list_elem_of_In, list_elem_of_fmap. exists (c_id (ident row), row). by rewrite elem_of_map_to_list.
    + destruct Hid as [Hk Ha]. apply nonempty_Some in Ek as [Ek Hne]. apply orb_true_iff. left.
      unfold sameIdempotency, columnIs. simpl. rewrite Ek, Hk, bool_decide_true, Ha, String.eqb_refl by done.
      by rewrite (proj2 (String.eqb_neq _ _)).
  - apply E1. destruct Hcase as [?|<-]; [done|]. simpl. by rewrite Hrow.
Qed.

(** A request whose row is saved is recognised, and changes nothing. *)
Lemma create_again t uuid now input row :
  inbox_ok t -> validateCreate input = Ok tt -> t !! c_id (ident row) = Some row -> identified input row -> answers input row ->
  nonempty (cr_idempotencyKey input) <> None \/ cr_id input <> None ->
  exists item, createAppInboxItem uuid now input t = (Done (item, false), t) /\ it_id item = c_id (ident row).
Proof.
  intros Hok Hv Hrow Hid (item & Hitem & Happ & Hm & Ho) Hcase. exists item.
  split; [|by apply rowToItem_inv in Hitem as (_ & ? & _)].
  unfold createAppInboxItem. rewrite checks_bind, Hv. set (id := default _ (cr_id input)).
  assert (nonempty (cr_idempotencyKey input) = None -> c_id (ident row) = id) as Hnone.
  { intros Hn. unfold identified in Hid. rewrite Hn in Hid. destruct Hcase as [?|Hc]; [done|].
    destruct (cr_id input) eqn:Ei; [|done]. by apply Hid. }
  rewrite updates_bind, (insert_ignored t id now input row Hrow Hid); cbn [fst snd Z.eqb].
  2:{ destruct (nonempty (cr_idempotencyKey input)); [by left|right; by apply Hnone]. }
  rewrite bind_reads, (existingRow_identified t id input row Hok Hrow Hid Hnone), checks_bind, Hitem, Happ, String.eqb_refl.
  cbn [negb]. rewrite Hm. cbn [negb]. destruct (cr_originEventId input) as [n|]; [|done]. destruct Ho as (z & -> & ->). done.
Qed.

Lemma optionalParam_nonempty v f r : optionalParam v f = Ok r -> nonempty v = v.
Proof.
  destruct v as [v|]; [|done]. simpl. unfold requiredText. destruct (nonblank v) eqn:E; [|done]. intros _.
  simpl. by destruct (String.eqb_spec v "") as [->|].
Qed.

(** What a valid creation has. *)
Lemma validate_parts input : validateCreate input = Ok tt ->
  nonempty (cr_targetTaskId input) = cr_targetTaskId input /\ nonempty (cr_topicId input) = cr_topicId input /\
  forall n, cr_originEventId input = Some n -> isSafeInteger n = true.
Proof.
  unfold validateCreate. destruct (requiredText (cr_appId input) _); [|done]. simpl.
  destruct (requiredText (src_id _) _); [|done]. simpl. destruct (requiredText (inp_kind _) _); [|done]. simpl.
  destruct (validateCreator _); [|done]. simpl. destruct (optionalParam (cr_targetTaskId input) _) eqn:E1; [|done]. simpl.
  destruct (optionalParam (cr_topicId input) _) eqn:E2; [|done]. simpl. repeat (case_cond; [done|]). intros _.
  apply optionalParam_nonempty in E1, E2. split_ands; [done|done|]. intros n Hn. rewrite Hn in *. unfold safeFrom in *.
  by reflect_bools.
Qed.

(** A new row answers its own request. *)
Lemma newRow_answers id now input item :
  validateCreate input = Ok tt -> cr_parentId input <> Some "" -> json_wf (inp_data (cr_input input)) ->
  (forall n, cr_originEventId input = Some n -> number_eqb (num (number_to_Z n)) n = true) ->
  rowToItem (newRow id now input) = Ok item -> answers input (newRow id now input).
Proof.
  intros Hv Hp Hwf Horig Hitem. exists item. apply validate_parts in Hv as (Ht & Htp & _).
  pose proof (rowToItem_inv _ _ Hitem) as (_ & _ & Ha & Ec & Ep & Et & Eto & Es & Ei & Eo). simpl in *. split_ands; [done|done| |].
  - unfold matchesRequest, sameInput. rewrite Ec, Ep, Et, Eto, Es, Ei, Ht, Htp.
    rewrite !bool_decide_true by (done || by destruct (cr_parentId input) as [p|]; [simpl; destruct (String.eqb_spec p "") as [->|]|]).
    rewrite !String.eqb_refl. simpl. rewrite TaskReplay.deep_eqb_refl by done. destruct (cr_creator input); [|done].
    by rewrite bool_decide_true.
  - rewrite Eo. destruct (cr_originEventId input) as [n|]; [|done]. exists (number_to_Z n). split; [done|]. by apply Horig.
Qed.

Lemma safe_exact n : isSafeInteger n = true -> number_eqb (num (number_to_Z n)) n = true.
Proof.
  destruct n as [[p d]| | |]; try done. intros [Hi _]%andb_true_iff. apply Z.eqb_eq in Hi. simpl in Hi.
  simpl. apply Qeq_bool_iff. unfold Qeq, Qfloor, inject_Z. simpl. pose proof (Z.div_mod p (Zpos d) ltac:(done)). lia.
Qed.

(** Every successful creation leaves a row that answers the request. *)
Lemma create_saved t uuid now input item b t1 :
  inbox_ok t -> cr_parentId input <> Some "" -> json_wf (inp_data (cr_input input)) ->
  createAppInboxItem uuid now input t = (Done (item, b), t1) ->
  validateCreate input = Ok tt /\ exists row, t1 !! it_id item = Some row /\ identified input row /\ answers input row.
Proof.
  intros Hok Hp Hwf Hrun. unfold createAppInboxItem in Hrun. rewrite checks_bind in Hrun.
  destruct (validateCreate input) as [[]|] eqn:Hv; [|done]. split; [done|]. cbv zeta in Hrun. set (id := default _ (cr_id input)) in *.
  pose proof (validate_parts _ Hv) as (_ & _ & Horig).
  rewrite updates_bind in Hrun. unfold insertOrIgnore in Hrun. destruct (_ || _) eqn:Econf; cbn [fst snd Z.eqb Pos.eqb] in Hrun.
  - rewrite bind_reads in Hrun. destruct (existingRow id input t) as [row|] eqn:Erow; [|done]. rewrite checks_bind in Hrun.
    destruct (rowToItem row) as [item0|] eqn:Eitem; [|done]. destruct (String.eqb_spec (it_appId item0) (cr_appId input)) as [Ha|]; [|done].
    cbn [negb] in Hrun. destruct (matchesRequest item0 input) eqn:Hm; [|done]. cbn [negb] in Hrun.
    assert (t !! c_id (ident row) = Some row /\ identified input row) as [Hrow Hid].
    { unfold existingRow in Erow. unfold identified. destruct (nonempty (cr_idempotencyKey input)) as [k|].
      - apply head_Some_elem_of, elem_of_select in Erow as [HP [i Hi]]. unfold columnIs in HP. reflect_bools.
        pose proof (io_key t Hok _ _ Hi) as Hk. rewrite Hk. auto.
      - pose proof (io_key t Hok _ _ Erow) as Hk. rewrite Hk. split; [done|]. intros i Hi. unfold id. by rewrite Hi. }
    pose proof (rowToItem_inv _ _ Eitem) as (Hread & Eid & _ & _ & _ & _ & _ & _ & _ & Eo).
    destruct (cr_originEventId input) as [n|] eqn:En; [|injection Hrun as <- <- <-; exists row; split_ands; [by rewrite Eid|done|];
      exists item0; rewrite En; done].
    destruct (it_originEventId item0) as [z|] eqn:Ez.
    + destruct (number_eqb (num z) n) eqn:Enum; [|done]. injection Hrun as <- <- <-. exists row. split_ands; [by rewrite Eid|done|].
      exists item0. rewrite En. split_ands; eauto.
    + rewrite updates_bind in Hrun. unfold updateWhere in Hrun. rewrite Eid, Hrow, <- Eo, bool_decide_true in Hrun by done.
      cbn [fst snd] in Hrun. rewrite asks_bind in Hrun. unfold getAppInboxItem in Hrun. rewrite lookup_insert_eq in Hrun.
      set (row' := mkRow (ident row) _) in Hrun. destruct (rowToItem_readable row' Hread) as [item' Hitem'].
      rewrite Hitem' in Hrun. injection Hrun as <- <- <-. exists row'.
      pose proof (rowToItem_inv _ _ Hitem') as (_ & Eid' & Ea' & _ & _ & _ & _ & _ & _ & Eo'). split_ands.
      * rewrite Eid'. simpl. by rewrite lookup_insert_eq.
      * exact Hid.
      * exists item'. rewrite En. split_ands; [done| | |].
        -- rewrite Ea'. simpl. apply rowToItem_inv in Eitem as (_ & _ & Ea & _). congruence.
        -- by rewrite (matchesRequest_kept row row' item0 item').
        -- exists (number_to_Z n). split; [by rewrite Eo'|]. apply safe_exact. by apply Horig.
  - rewrite asks_bind in Hrun. unfold getAppInboxItem in Hrun. simpl in Hrun. rewrite lookup_insert_eq in Hrun.
    destruct (rowToItem (newRow id now input)) as [item0|] eqn:Eitem; [|done]. injection Hrun as <- <- <-.
    exists (newRow id now input). pose proof (rowToItem_inv _ _ Eitem) as (_ & Eid & _). simpl in Eid. split_ands.
    + rewrite Eid. by rewrite lookup_insert_eq.
    + unfold identified. simpl. destruct (nonempty (cr_idempotencyKey input)) as [k|] eqn:Ek.
      * apply nonempty_Some in Ek as [-> _]. done.
      * intros i Hi. unfold id. by rewrite Hi.
    + apply (newRow_answers id now input item0); auto. intros n Hn. apply safe_exact. by apply Horig.
Qed.

(** ** Ranges of keys *)

Lemma chr_bound c : 0 <= chr c < 65535.
Proof. unfold chr. pose proof (nat_ascii_bounded c). lia. Qed.

Lemma units_range p k :
  negb (units_ltb (map chr k) (map chr p)) && units_ltb (map chr k) (map chr p ++ [65535]) = bool_decide (p `prefix_of` k).
Proof.
  revert k. induction p as [|x p IH]; intros k.
  - rewrite bool_decide_true by apply prefix_nil. destruct k as [|y k]; [done|]. simpl. pose proof (chr_bound y).
    by rewrite (proj2 (Z.ltb_lt _ _)) by lia.
  - destruct k as [|y k]; cbn [units_ltb map app];
      [rewrite bool_decide_false; [done|by intros ?%prefix_nil_inv]|].
    destruct (Z.ltb_spec (chr y) (chr x)) as [Hlt|Hge]; cbn [negb andb orb].
    + rewrite bool_decide_false; [done|]. intros ->%prefix_cons_inv_1. lia.
    + destruct (Z.eqb_spec (chr y) (chr x)) as [He|Hne]; cbn [negb andb orb].
      * assert (y = x) as ->. { unfold chr in He. apply Nat2Z.inj in He. rewrite <- (ascii_nat_embedding y), He. apply ascii_nat_embedding. }
        rewrite IH. apply bool_decide_ext. split; [apply prefix_cons|apply prefix_cons_inv_2].
      * rewrite bool_decide_false; [done|]. by intros ->%prefix_cons_inv_1.
Qed.

Lemma prefix_startsWith p k : startsWith k p = bool_decide (chars p `prefix_of` chars k).
Proof.
  unfold startsWith. revert k. induction p as [|x p IH]; intros k.
  - rewrite bool_decide_true by apply prefix_nil. by destruct k.
  - destruct k as [|y k]; [by rewrite bool_decide_false by (by intros ?%prefix_nil_inv)|].
    change (chars (String.String x p)) with (x :: chars p). change (chars (String.String y k)) with (y :: chars k).
    cbn [String.prefix]. destruct (ascii_dec x y) as [->|Hne].
    + rewrite IH. apply bool_decide_ext. split; [apply prefix_cons|apply prefix_cons_inv_2].
    + rewrite bool_decide_false; [done|]. by intros ->%prefix_cons_inv_1.
Qed.

(** The bounds of the indexed range select exactly the keys with the prefix. *)
Lemma inPrefixRange_startsWith prefix key : inPrefixRange prefix key = startsWith key prefix.
Proof. unfold inPrefixRange, units. rewrite prefix_startsWith. apply units_range. Qed.

(** ** Properties *)

(** The inbox stays consistent through any history of creations, failures,
    reports, links, rejections and completions, refused ones included: every
    row is stored under its id, no two rows share an idempotency key or a place
    in a Conversation, and a row has a result only when it is done.  What is
    answered is final: a done row keeps its status, result, handling and
    completion time, and no row changes the input it was admitted with. *)
Theorem inbox_rows_final `{Crypto} ops later :
  let t := fold_left afterOp ops ∅ in
  let t' := fold_left afterOp (ops ++ later) ∅ in
  inbox_ok t /\
  (forall id row, t !! id = Some row -> exists row',
     t' !! id = Some row' /\ ident row' = ident row /\
     (c_status (state row) = i_done -> c_status (state row') = i_done /\ c_result (state row') = c_result (state row) /\
        c_handling (state row') = c_handling (state row) /\ c_completed_at (state row') = c_completed_at (state row))).
Proof.
  intros t t'. assert (inbox_ok t) as Hok by apply history_since, empty_inbox_ok. split; [done|].
  intros id row Hrow. subst t'. rewrite fold_left_app. fold t. destruct (history_since t later Hok) as [_ Hev].
  destruct (Hev id row Hrow) as (row' & Hr & Hi & _ & _ & Hd). eauto.
Qed.


(** ** Concrete runs *)

Definition sample_create : CreateAppInboxItem :=
  mkCreate None "evo" None None None None None None None None None None None (mkSource "human" "u1")
    (mkInput "message" (JStr "hello")) (Some (num 7)) (Some "k1").

Definition sample_inbox : inbox := (createAppInboxItem "1" 10 sample_create ∅).2.

Definition sample_item : option AppInboxItem :=
  match getAppInboxItem sample_inbox "app_1" with Ok item => item | Throw _ => None end.


(** A request with an empty parent cannot be sent again: the row keeps the
    empty text, the item read back has no parent, and the second call takes the
    difference for other input. *)
Example empty_parent_not_repeatable :
  let input := mkCreate None "evo" None (Some "") None None None None None None None None None (mkSource "human" "u1")
    (mkInput "message" (JStr "hello")) None (Some "k1") in
  let t := (createAppInboxItem "1" 10 input ∅).2 in
  is_done (createAppInboxItem "1" 10 input ∅).1 = true /\
  (createAppInboxItem "2" 20 input t).1 = Raise PlainError "App inbox idempotency key k1 was reused with different input".
Proof. split; vm_compute; reflexivity. Qed.

(** A blank id is stored before it is read: the call throws, the row stays, and
    every listing that meets the row throws too. *)
Example blank_id_blocks_listing :
  let input := mkCreate (Some " ") "evo" None None None None None None None None None None None (mkSource "human" "u1")
    (mkInput "message" (JStr "hello")) None None in
  let t := (createAppInboxItem "1" 10 input ∅).2 in
  is_done (createAppInboxItem "1" 10 input ∅).1 = false /\
  listAppInboxItems t (mkQuery (Some "evo") None None None) = Throw "Invalid App inbox id".
Proof. split; vm_compute; reflexivity. Qed.

End InboxLaws.
