(* ===== verification/InboxPages.v ===== *)
(** Listings of the App inbox ([InboxStore]): reading page after page of the
    rows that wait for Tasks lists every one of them once, in the order of the
    keyset cursor, and terminates. *)
From S2P Require Import Prelude Json TaskState TaskTree Transaction ResourceStore StoreInvariant StoreCommit Snapshot.
From S2P Require Import Context Approval Conditions Records Time TaskInputs TaskEvents TaskIntent TaskMutation.
From S2P Require Import TaskOutcome TaskAdmission TaskReplay Effects Keyset InboxStore ConversationRequests InboxAdmission.
From S2P Require Import InboxLaws.

Module InboxPages.
Import Effects InboxStore InboxAdmission InboxLaws.

(** ** The order of positions *)

Lemma ltb_leb a b : String.ltb a b = String.leb a b && negb (String.eqb a b).
Proof.
  unfold String.ltb, String.leb. destruct (String.eqb_spec a b) as [->|Hne].
  - pose proof (String.compare_antisym b b) as H. by destruct (String.compare b b).
  - destruct (String.compare a b) eqn:E; [apply String.compare_eq_iff in E; done| |]; done.
Qed.

Lemma leb_antisym a b : String.leb a b = true -> String.leb b a = true -> a = b.
Proof. apply String.leb_antisym. Qed.

Lemma leb_trans a b c : String.leb a b = true -> String.leb b c = true -> String.leb a c = true.
Proof. intros H1 H2. apply Is_true_true, (transitivity (R := String.le) (y := b)); by apply Is_true_true. Qed.

Lemma leb_refl a : String.leb a a = true.
Proof. by destruct (String.leb_total a a). Qed.

Lemma position_leb_spec a1 a2 a3 b1 b2 b3 :
  position_leb (a1, a2, a3) (b1, b2, b3) = true <->
  (String.leb a1 b1 = true /\ a1 <> b1) \/ (a1 = b1 /\ String.leb a2 b2 = true /\ a2 <> b2) \/
  (a1 = b1 /\ a2 = b2 /\ String.leb a3 b3 = true).
Proof.
  unfold position_leb. rewrite !ltb_leb. destruct (String.eqb_spec a1 b1), (String.eqb_spec a2 b2); simpl;
    rewrite ?orb_true_iff, ?andb_true_iff, ?negb_true_iff; naive_solver.
Qed.

Lemma position_leb_total a b : position_leb a b = true \/ position_leb b a = true.
Proof.
  destruct a as [[a1 a2] a3], b as [[b1 b2] b3]. rewrite !position_leb_spec.
  destruct (decide (a1 = b1)) as [->|]; [|destruct (String.leb_total a1 b1); naive_solver].
  destruct (decide (a2 = b2)) as [->|]; [|destruct (String.leb_total a2 b2); naive_solver].
  destruct (String.leb_total a3 b3); naive_solver.
Qed.

Lemma position_leb_antisym a b : position_leb a b = true -> position_leb b a = true -> a = b.
Proof.
  destruct a as [[a1 a2] a3], b as [[b1 b2] b3]. rewrite !position_leb_spec. intros H1 H2.
  assert (a1 = b1) as -> by (pose proof (leb_antisym a1 b1); naive_solver).
  assert (a2 = b2) as -> by (pose proof (leb_antisym a2 b2); naive_solver).
  f_equal. pose proof (leb_antisym a3 b3). naive_solver.
Qed.

Lemma position_leb_trans a b c : position_leb a b = true -> position_leb b c = true -> position_leb a c = true.
Proof.
  destruct a as [[a1 a2] a3], b as [[b1 b2] b3], c as [[c1 c2] c3]. rewrite !position_leb_spec.
  pose proof (leb_trans a1 b1 c1). pose proof (leb_trans a2 b2 c2). pose proof (leb_trans a3 b3 c3).
  pose proof (leb_antisym a1 b1). pose proof (leb_antisym a2 b2).
  intros [[? ?]|[(? & ? & ?)|(? & ? & ?)]] [[? ?]|[(? & ? & ?)|(? & ? & ?)]]; subst; auto.
  - left. split; [auto|]. intros ->. naive_solver.
  - right. left. split_ands; [done|auto|]. intros ->. naive_solver.
  - right. right. auto.
Qed.

#[export] Instance byPosition_total : Total byPosition.
Proof. intros a b. apply position_leb_total. Qed.
#[export] Instance byPosition_trans : Transitive byPosition.
Proof. intros a b c. apply position_leb_trans. Qed.

(** ** Rows as a listing *)

Lemma rows_NoDup t : inbox_ok t -> NoDup (map snd (map_to_list t)).
Proof.
  intros Hok. apply (NoDup_fmap_1 (fun row => c_id (ident row))). rewrite <- list_fmap_compose.
  assert (map (fun e : string * InboxRow => c_id (ident e.2)) (map_to_list t) = map fst (map_to_list t)) as E.
  { apply map_ext_in. intros [id row] Hin%list_elem_of_In. apply elem_of_map_to_list in Hin. by apply (io_key t Hok). }
  change (_ <$> map_to_list t) with (map (fun e : string * InboxRow => c_id (ident e.2)) (map_to_list t)).
  rewrite E. apply NoDup_fst_map_to_list.
Qed.

Lemma select_NoDup P t : inbox_ok t -> NoDup (select P t).
Proof. intros Hok. eapply sublist_NoDup; [by apply rows_NoDup|]. apply sublist_filter. Qed.

Lemma select_same_id P t a b : inbox_ok t -> a ∈ select P t -> b ∈ select P t -> c_id (ident a) = c_id (ident b) -> a = b.
Proof.
  intros Hok [_ [i Hi]]%elem_of_select [_ [j Hj]]%elem_of_select E.
  pose proof (io_key t Hok _ _ Hi). pose proof (io_key t Hok _ _ Hj). congruence.
Qed.

Lemma select_antisym P t a b : inbox_ok t -> a ∈ select P t -> b ∈ select P t -> byPosition a b -> byPosition b a -> a = b.
Proof.
  intros Hok Ha Hb H1 H2. apply (select_same_id P t); [done|done|done|].
  pose proof (position_leb_antisym _ _ H1 H2) as E. unfold dependencyPosition in E. congruence.
Qed.

Lemma select_both P Q t :
  select (fun row => P row && Q row) t = filter (fun row => P row = true /\ Q row = true) (map snd (map_to_list t)).
Proof. unfold select. apply list_filter_iff. intros row. by rewrite andb_true_iff. Qed.

(** The waiting rows, in the order of their positions. *)
Definition awaiting (t : inbox) (now : Z) : list InboxRow := merge_sort byPosition (select (awaitsTask now) t).

Lemma awaiting_listing t now : inbox_ok t -> Keyset.listing byPosition (awaiting t now).
Proof.
  intros Hok. apply (Keyset.listing_sort byPosition); [by apply select_NoDup|]. intros a b Ha Hb. by eapply select_antisym.
Qed.

Lemma awaiting_after t now after :
  inbox_ok t ->
  merge_sort byPosition (select (fun row => awaitsTask now row && afterPosition after row) t) =
  filter (fun row => afterPosition after row = true) (awaiting t now).
Proof.
  intros Hok. rewrite select_both. unfold awaiting, select. apply (Keyset.filter_of_sorted byPosition).
  - by apply rows_NoDup.
  - intros a b Ha Hb. apply (select_antisym (fun _ => true) t); [done| |];
      apply elem_of_select; (split; [done|]); [apply list_elem_of_fmap in Ha as ([i r] & -> & H)|
      apply list_elem_of_fmap in Hb as ([i r] & -> & H)]; exists i; by apply elem_of_map_to_list.
Qed.

Lemma after_position x row : afterPosition (Some (dependencyPosition x)) row = true <-> Keyset.after byPosition x row.
Proof.
  unfold afterPosition, Keyset.after, byPosition. rewrite negb_true_iff. by rewrite not_true_iff_false.
Qed.

(** ** Pages *)

(** The texts a dependency key needs. *)
Definition keyReadable (row : InboxRow) : Prop := exists key, rowToDependencyKey row = Ok key.

Lemma key_position row key : rowToDependencyKey row = Ok key ->
  cursorPosition key = dependencyPosition row /\ nonblank (dk_appId key) = true /\ nonblank (dk_taskId key) = true /\
  nonblank (dk_inputId key) = true.
Proof.
  unfold rowToDependencyKey, requiredText. destruct (nonblank (c_app_id _)) eqn:E1; [|done]. simpl.
  destruct (nonblank (default _ _)) eqn:E2; [|done]. simpl. destruct (nonblank (c_id _)) eqn:E3; [|done]. simpl.
  intros [= <-]. done.
Qed.

Lemma rowsToKeys rows : (forall row, row ∈ rows -> keyReadable row) ->
  exists keys, rowsToDependencyKeys rows = Ok keys /\ Forall2 (fun row key => rowToDependencyKey row = Ok key) rows keys.
Proof.
  induction rows as [|row rows IH]; intros H; [by exists []|]. destruct (H row ltac:(by left)) as [key Hk].
  destruct IH as (keys & Hkeys & Hf); [intros; apply H; by right|]. exists (key :: keys). simpl. rewrite Hk. simpl.
  rewrite Hkeys. split; [done|]. by constructor.
Qed.

Lemma keys_take rows keys n : rowsToDependencyKeys rows = Ok keys -> rowsToDependencyKeys (take n rows) = Ok (take n keys).
Proof.
  revert keys n. induction rows as [|row rows IH]; intros keys n; simpl; [intros [= <-]; by rewrite !take_nil|].
  destruct (rowToDependencyKey row) as [k|] eqn:Ek; [|done]. simpl. destruct (rowsToDependencyKeys rows) as [ks|] eqn:Eks; [|done].
  intros [= <-]. destruct n; [done|]. simpl. rewrite Ek. simpl. by rewrite (IH ks n eq_refl).
Qed.

Lemma keys_app rows1 rows2 k1 k2 : rowsToDependencyKeys rows1 = Ok k1 -> rowsToDependencyKeys rows2 = Ok k2 ->
  rowsToDependencyKeys (rows1 ++ rows2) = Ok (k1 ++ k2).
Proof.
  revert k1. induction rows1 as [|row rows IH]; intros k1; simpl; [by intros [= <-]|].
  destruct (rowToDependencyKey row) as [k|] eqn:Ek; [|done]. simpl. destruct (rowsToDependencyKeys rows) as [ks|] eqn:Eks; [|done].
  intros [= <-] H2. by rewrite (IH ks eq_refl H2).
Qed.

Lemma keys_length rows keys : rowsToDependencyKeys rows = Ok keys -> length keys = length rows.
Proof.
  revert keys. induction rows as [|row rows IH]; intros keys; simpl; [by intros [= <-]|].
  destruct (rowToDependencyKey row) as [k|]; [|done]. simpl. destruct (rowsToDependencyKeys rows) as [ks|]; [|done].
  intros [= <-]. simpl. by rewrite (IH ks).
Qed.

(** Reading page after page until there is no cursor. *)
Fixpoint scanDependencies (fuel : nat) (t : inbox) (after : option AppInboxTaskDependencyKey) (limit : option number)
    (now : Z) : res (list AppInboxTaskDependencyKey) :=
  match fuel with
  | O => Ok []
  | S fuel =>
      match listAppInboxTaskDependencyKeys t after limit now with
      | Throw e => Throw e
      | Ok page =>
          match dp_nextCursor page with
          | None => Ok (dp_items page)
          | Some c =>
              match scanDependencies fuel t (Some c) limit now with
              | Throw e => Throw e
              | Ok rest => Ok (dp_items page ++ rest)
              end
          end
      end
  end.

(** The cursor a scan holds after reading [l]. *)
Definition cursorOf (l : list InboxRow) (after : option AppInboxTaskDependencyKey) : Prop :=
  match last l, after with
  | Some row, Some key => rowToDependencyKey row = Ok key
  | None, None => True
  | _, _ => False
  end.

Lemma dependencyPage_next t now l1 l2 after limit :
  inbox_ok t -> awaiting t now = l1 ++ l2 -> (forall row, row ∈ awaiting t now -> keyReadable row) ->
  boundedCount (default (num 256) limit) 1000 = true -> cursorOf l1 after ->
  let n := Z.to_nat (number_to_Z (default (num 256) limit)) in
  exists items, rowsToDependencyKeys (take n l2) = Ok items /\
    listAppInboxTaskDependencyKeys t after limit now =
      Ok (mkDependencyPage items (if Nat.ltb n (length l2) then last items else None)).
Proof.
  intros Hok Hall Hread Hlim Hcur n. unfold listAppInboxTaskDependencyKeys. rewrite Hlim. cbn [negb]. fold n.
  assert (forall row, row ∈ l2 -> keyReadable row) as Hread2 by (intros; apply Hread; rewrite Hall; set_solver).
  destruct (rowsToKeys l2 Hread2) as (keys & Hkeys & _). exists (take n keys). split; [by apply keys_take|].
  assert (exists pos, checkedCursor after = Ok pos /\
    filter (fun row => afterPosition pos row = true) (awaiting t now) = l2) as (pos & -> & Hfil).
  { unfold cursorOf in Hcur. unfold checkedCursor, requiredText. destruct (last l1) as [x|] eqn:El, after as [key|]; try done.
    - destruct (key_position _ _ Hcur) as (Hp & -> & -> & ->). eexists. split; [done|]. rewrite Hp.
      rewrite (list_filter_iff _ (Keyset.after byPosition x)) by (intros; apply after_position). rewrite Hall.
      apply (Keyset.filter_after_last byPosition); [done|]. rewrite <- Hall. by apply awaiting_listing.
    - eexists. split; [done|]. apply last_None in El as ->. simpl in Hall. rewrite Hall. clear.
      induction l2 as [|r l2 IH]; [done|]. rewrite filter_cons_True by done. by f_equal. }
  unfold mbind, InboxStore.res_bind'. rewrite awaiting_after by done. rewrite Hfil.
  rewrite (keys_take _ _ (S n) Hkeys). rewrite take_take, Nat.min_l by lia. do 2 f_equal. rewrite length_take, (keys_length _ _ Hkeys).
  destruct (Nat.ltb_spec n (Nat.min (S n) (length l2))), (Nat.ltb_spec n (length l2)); (done || lia).
Qed.

Lemma dependencyScan_next fuel t now l1 l2 after limit keys :
  inbox_ok t -> awaiting t now = l1 ++ l2 -> (forall row, row ∈ awaiting t now -> keyReadable row) ->
  boundedCount (default (num 256) limit) 1000 = true -> cursorOf l1 after -> rowsToDependencyKeys l2 = Ok keys ->
  (length l2 < fuel)%nat -> scanDependencies fuel t after limit now = Ok keys.
Proof.
  intros Hok Hall Hread Hlim. set (n := Z.to_nat (number_to_Z (default (num 256) limit))).
  assert (1 <= n)%nat as Hn by (unfold boundedCount in Hlim; reflect_bools; lia).
  revert l1 l2 after keys Hall. induction fuel as [|fuel IH]; intros l1 l2 after keys Hall Hcur Hkeys Hf; [lia|]. simpl.
  destruct (dependencyPage_next t now l1 l2 after limit Hok Hall Hread Hlim Hcur) as (items & Hitems & ->). fold n in Hitems |- *.
  cbn [dp_items dp_nextCursor]. pose proof (keys_take _ _ n Hkeys) as Ht. rewrite Hitems in Ht. injection Ht as ->.
  destruct (Nat.ltb_spec n (length l2)) as [Hlt|Hge].
  - destruct (last (take n keys)) as [c|] eqn:El.
    + rewrite (IH (l1 ++ take n l2) (drop n l2) (Some c) (drop n keys)).
      * by rewrite take_drop.
      * by rewrite <- app_assoc, take_drop.
      * unfold cursorOf. rewrite last_app. pose proof (keys_length _ _ Hitems) as Hlen.
        destruct (last (take n l2)) as [x|] eqn:Ex; [|apply last_None in Ex; rewrite Ex in Hlen; simpl in Hlen;
          apply last_Some in El as [l' El]; rewrite El, length_app in Hlen; simpl in Hlen; lia].
        destruct (rowsToKeys (take n l2)) as (ks & Hks & Hfa);
          [intros r Hr; apply Hread; rewrite Hall; apply elem_of_app; right; rewrite <- (take_drop n l2); set_solver|].
        rewrite Hitems in Hks. injection Hks as <-. rewrite last_lookup in Ex. rewrite last_lookup in El.
        rewrite <- (Forall2_length _ _ _ Hfa) in El. exact (Forall2_lookup_lr _ _ _ _ _ _ Hfa Ex El).
      * assert (keys = take n keys ++ drop n keys) as Hsplit by (by rewrite take_drop).
        destruct (rowsToKeys (drop n l2)) as (ks & Hks & _);
          [intros r Hr; apply Hread; rewrite Hall; apply elem_of_app; right; rewrite <- (take_drop n l2); set_solver|].
        pose proof (keys_app _ _ _ _ Hitems Hks) as Happ. rewrite take_drop, Hkeys in Happ. injection Happ as Happ.
        rewrite Hks. f_equal. rewrite Hsplit in Happ at 1. by apply app_inv_head in Happ.
      * rewrite length_drop. lia.
    + apply last_None in El. pose proof (keys_length _ _ Hkeys) as Hlen. apply (f_equal length) in El.
      rewrite length_take in El. simpl in El. lia.
  - f_equal. rewrite take_ge; [done|]. rewrite (keys_length _ _ Hkeys). lia.
Qed.

(** ** Properties *)

(** Reading the rows that wait for Tasks page by page is complete: with any
    allowed page size, continuing after the last key of each page until there is
    no cursor lists every waiting row exactly once, in the order of App, Task and
    row, and ends. *)
Theorem dependency_pages_complete t now limit
    (Hok : inbox_ok t)
    (Hread : forall id row, t !! id = Some row -> awaitsTask now row = true -> keyReadable row)
    (Hlimit : boundedCount (default (num 256) limit) 1000 = true) :
  exists keys, scanDependencies (S (length (awaiting t now))) t None limit now = Ok keys /\
    rowsToDependencyKeys (awaiting t now) = Ok keys /\
    (forall row, row ∈ awaiting t now <-> awaitsTask now row = true /\ exists id, t !! id = Some row) /\
    NoDup (awaiting t now) /\ StronglySorted byPosition (awaiting t now).
Proof.
  assert (forall row, row ∈ awaiting t now <-> awaitsTask now row = true /\ exists id, t !! id = Some row) as Hin.
  { intros row. unfold awaiting. rewrite (merge_sort_Permutation byPosition). apply elem_of_select. }
  assert (forall row, row ∈ awaiting t now -> keyReadable row) as Hkr.
  { intros row [Ha [id Hid]]%Hin. by eapply Hread. }
  destruct (rowsToKeys _ Hkr) as (keys & Hkeys & _). exists keys.
  pose proof (awaiting_listing t now Hok) as [Hs Hd _]. split_ands; try done.
  by apply (dependencyScan_next _ t now [] (awaiting t now)); [| | | | | |lia].
Qed.

(** ** Concrete runs *)

Definition waiting_inbox : inbox :=
  fold_left (afterOp (H := fun text => text))
    [b_create "1" 10 (mkCreate None "evo" None None None None None None None None None None None (mkSource "human" "u1")
       (mkInput "message" (JStr "a")) None (Some "k1"));
     b_create "2" 20 (mkCreate None "evo" None None None None None None None None None None None (mkSource "human" "u1")
       (mkInput "message" (JStr "b")) None (Some "k2"));
     b_link 30 "app_1" "task-2" "key-1"; b_link 40 "app_2" "task-1" "key-2"] ∅.

Lemma dependency_pages_complete_witness :
  exists keys, scanDependencies 3 waiting_inbox None (Some (num 1)) 50 = Ok keys /\ map dk_inputId keys = ["app_2"; "app_1"].
Proof.
  destruct (dependency_pages_complete waiting_inbox 50 (Some (num 1))) as (keys & Hscan & Hkeys & _).
  - apply history_since, empty_inbox_ok.
  - intros id row Hrow _. assert (map_Forall (fun _ r => match rowToDependencyKey r with Ok _ => true | Throw _ => false end = true)
      waiting_inbox) as Hall by (apply map_Forall_to_list; vm_compute; repeat constructor).
    specialize (Hall id row Hrow). unfold keyReadable. simpl in Hall. destruct (rowToDependencyKey row) as [k|]; [by exists k|done].
  - vm_compute. reflexivity.
  - exists keys. split; [exact Hscan|]. vm_compute in Hkeys. injection Hkeys as <-. vm_compute. reflexivity.
Defined.

End InboxPages.
