(* ===== verification/HostLaws.v ===== *)
(** What holds of the inbox Host ([InboxHost]) composed with the inbox and the
    Task admission it calls.  The Host is verified against what it relies on of
    the code that attaches work ([Attacher]); [InboxAdmission.admitTaskInput]
    discharges it. *)
From S2P Require Import Prelude Json TaskState TaskTree Transaction ResourceStore StoreInvariant StoreCommit Snapshot.
From S2P Require Import Context Approval Conditions Records Time TaskInputs TaskEvents TaskIntent TaskMutation.
From S2P Require Import TaskOutcome TaskAdmission TaskReplay Effects Keyset InboxStore ConversationRequests InboxAdmission.
From S2P Require Import TaskLease OutputPaths TaskClaim TaskContract TaskActions TaskSettle TaskRelease TaskControl.
From S2P Require Import TaskScenario EventSelector EventAdmission InboxHost InboxLaws.

Module HostLaws.
Import TaskIntent TaskMutation TaskAdmission ConversationRequests Effects InboxStore InboxAdmission EventSelector InboxHost InboxLaws.

(** ** Programs of parts of the state *)

Lemma keeps_zoom {S T A} (get : S -> T) (set : T -> S -> S) (P : T -> Prop) (m : E T A) :
  (forall t s, get (set t s) = t) -> keeps P m -> keeps (fun s => P (get s)) (zoom get set m).
Proof. intros Hgs Hm s Hs. specialize (Hm (get s) Hs). unfold zoom. destruct (m (get s)) as [r t]. simpl. by rewrite Hgs. Qed.

Lemma run_keeps {S A} (P : S -> Prop) (m : E S A) s r s' : keeps P m -> m s = (r, s') -> P s -> P s'.
Proof. intros Hk Hm Hs. specialize (Hk s Hs). by rewrite Hm in Hk. Qed.

(** A property of the inbox, as one of the database and of the Host. *)
Definition ofDb (P : inbox -> Prop) (d : Db) : Prop := P (db_inbox d).
Definition ofHost (P : inbox -> Prop) (h : Host) : Prop := P (db_inbox (ho_db h)).

Lemma keeps_onInbox {A} P (m : E inbox A) : keeps P m -> keeps (ofDb P) (onInbox m).
Proof. intros Hm. by apply (keeps_zoom db_inbox set_inbox). Qed.
Lemma keeps_onRequests {A} (P : inbox -> Prop) (m : E requests A) : keeps (ofDb P) (onRequests m).
Proof. intros d Hd. unfold onRequests, zoom. by destruct (m (db_requests d)). Qed.
Lemma keeps_onDb {A} P (m : E Db A) : keeps (ofDb P) m -> keeps (ofHost P) (onDb m).
Proof. intros Hm. by apply (keeps_zoom ho_db set_db (ofDb P)). Qed.
Lemma keeps_onBox {A} P (m : E inbox A) : keeps P m -> keeps (ofHost P) (onBox m).
Proof. intros Hm. by apply keeps_onDb, keeps_onInbox. Qed.
Lemma keeps_logs P n : keeps (ofHost P) (logs n).
Proof. by intros h. Qed.

#[export] Hint Resolve keeps_onInbox keeps_onRequests keeps_onDb keeps_onBox keeps_logs : may.

Lemma observing_inbox `{Crypto} now input d r d' : observing now input d = (r, d') -> db_inbox d' = db_inbox d.
Proof. unfold observing. destruct (observeAppTaskIntent _ _ _) as [[]]; by intros [= _ <-]. Qed.

Lemma keeps_observing `{Crypto} P now input : keeps (ofDb P) (observing now input).
Proof. intros d Hd. destruct (observing now input d) as [r d'] eqn:E. unfold ofDb. simpl. by rewrite (observing_inbox _ _ _ _ _ E). Qed.

#[export] Hint Resolve keeps_observing : may.

(** Observing the work of an input writes no row of the inbox. *)
Lemma keeps_authorized `{Crypto} P config now input : keeps (ofDb P) (admitAuthorizedTaskInput config now input).
Proof.
  unfold admitAuthorizedTaskInput, observeRequest, revisedIntent. keeps_walk.
Qed.

Lemma keeps_topicTask P now topic app task : keeps (ofDb P) (linkConversationTopicTask now topic app task).
Proof. unfold linkConversationTopicTask. keeps_walk. by apply keeps_writes. Qed.

#[export] Hint Resolve keeps_topicTask : may.

Lemma keeps_linkConversation P now input topic task : keeps (ofDb P) (linkConversation now input topic task).
Proof. unfold linkConversation. keeps_walk. Qed.

#[export] Hint Resolve keeps_authorized keeps_linkConversation : may.

Lemma keeps_compatible P mode input : keeps (ofDb P) (assertTaskInputCompatible mode input).
Proof. unfold assertTaskInputCompatible. keeps_walk. Qed.

#[export] Hint Resolve keeps_compatible : may.

(** A row that can be read has a non-empty id. *)
Lemma nonempty_id row item id : rowToItem row = Ok item -> c_id (ident row) = id -> nonempty (Some id) = Some id.
Proof.
  unfold rowToItem, requiredText. intros H <-. destruct (nonblank (c_id (ident row))) eqn:E; [|done].
  unfold nonempty. destruct (String.eqb_spec (c_id (ident row)) "") as [E0|]; [|done].
  rewrite E0 in E. vm_compute in E. discriminate E.
Qed.

Lemma admitTaskInput_since `{Crypto} config mode now t0 input :
  keeps (ofDb (inbox_since t0)) (admitTaskInput config mode now input).
Proof. unfold admitTaskInput, admitSaved. keeps_walk. Qed.

(** ** What the Host relies on of Task admission *)

(** A row that was handed to a Task. *)
Definition attachedTo (taskId : string) (c : InboxState) : Prop :=
  c_status c = i_handling /\ c_waiting_on_kind c = Some "task" /\ c_waiting_on_id c = Some taskId /\
  c_lease_owner c = None /\ is_Some (c_task_admission_key c).

Class Attacher (attach : TaskInputAdmission -> E Db string) : Prop := {
  attach_since : forall t0 i, keeps (ofDb (inbox_since t0)) (attach i);
  attach_refuses : forall i d class e d', attach i d = (Raise class e, d') -> d' = d;
  attach_links : forall i d taskId d' id row item,
    attach i d = (Done taskId, d') -> inbox_ok (db_inbox d) -> ti_inboxInputId i = Some id ->
    db_inbox d !! id = Some row -> rowToItem row = Ok item -> taskWait item = None ->
    exists row', db_inbox d' !! id = Some row' /\ attachedTo taskId (state row') }.

Lemma link_row now id taskId key t t' :
  linkTaskInput now id taskId key t = (Done tt, t') -> exists row', t' !! id = Some row' /\ attachedTo taskId (state row').
Proof.
  unfold linkTaskInput. rewrite updates_bind. unfold updateWhere. destruct (t !! id) as [row|]; [|done].
  destruct (_ && _); [|done]. simpl. intros [= <-]. eexists. split; [apply lookup_insert_eq|]. split_ands; done.
Qed.

(** Admitting a saved row that waits for nothing links it to the observed Task. *)
Lemma admitSaved_links `{Crypto} config now input item d o d' :
  taskWait item = None -> admitSaved config now input item d = (Done o, d') ->
  exists row', db_inbox d' !! it_id item = Some row' /\ attachedTo (obs_taskId o) (state row').
Proof.
  intros Hw. unfold admitSaved. rewrite Hw. destruct (negb _); [done|]. destruct (unavailable _ _); [done|].
  destruct (match it_targetTaskId item with Some _ => _ | None => _ end); [done|].
  intros (adms & d1 & H1 & Hrun)%bind_run. apply bind_run in Hrun as (task & d2 & H2 & Hrun).
  destruct (_ && _) in Hrun; [done|]. apply bind_run in Hrun as (o' & d3 & H3 & Hrun).
  apply bind_run in Hrun as ([] & d4 & H4 & Hrun). apply bind_run in Hrun as (u & d5 & H5 & [= -> ->]).
  unfold onInbox, zoom in H4. destruct (linkTaskInput _ _ _ _ _) as [r t4] eqn:Hl. injection H4 as -> <-.
  destruct (link_row _ _ _ _ _ _ Hl) as (row' & Hr & Ha).
  exists row'. split; [|done].
  by refine (run_keeps (ofDb (fun t => t !! it_id item = Some row')) _ _ _ _ (keeps_linkConversation _ _ _ _ _) H5 _).
Qed.

(** [attachTask] of the composition. *)
Definition attachTask `{Crypto} (config : AppTaskContext) (mode : bool) (now : Z) (input : TaskInputAdmission) : E Db string :=
  o ← admitTaskInput config mode now input; mret (obs_taskId o).

#[export] Instance admission_attaches `{Crypto} config mode now : Attacher (attachTask config mode now).
Proof.
  split.
  - intros t0 i. unfold attachTask. apply bind_keeps; [apply admitTaskInput_since|]. auto with may.
  - intros i d c e d'. unfold attachTask, mbind, E_bind. destruct (admitTaskInput config mode now i d) as [[o|c0 e0] d0] eqn:E; [done|].
    intros [= _ _ <-]. unfold admitTaskInput in E. by apply atomic_raise in E.
  - intros i d taskId d' id row item Hrun Hok Hid Hrow Hitem Hw. unfold attachTask in Hrun.
    apply bind_run in Hrun as (o & d1 & Hrun & [= <- <-]). apply atomic_done in Hrun.
    apply bind_run in Hrun as ([] & d2 & H2 & Hrun). assert (d2 = d) as ->.
    { destruct (ti_authorize i) as [f|]; [|by injection H2]. unfold asks in H2. by injection H2 as _ ->. }
    apply bind_run in Hrun as ([] & d3 & H3 & Hrun).
    pose proof (run_keeps (ofDb (fun t => t = db_inbox d)) _ _ _ _ (keeps_compatible _ _ _) H3 eq_refl) as Hk. unfold ofDb in Hk.
    pose proof (rowToItem_inv _ _ Hitem) as (_ & Eid & _). pose proof (io_key _ Hok _ _ Hrow) as Hkey.
    rewrite Hid in Hrun. rewrite (nonempty_id _ _ _ Hitem Hkey) in Hrun.
    rewrite asks_bind in Hrun. unfold getAppInboxItem in Hrun. rewrite Hk, Hrow, Hitem in Hrun. simpl in Hrun.
    destruct (matchesSaved i item); [|done]. apply admitSaved_links in Hrun; [|done]. by rewrite Eid, Hkey in Hrun.
Qed.

(** ** One row through the statements *)

Definition rowIs (id : string) (Q : InboxState -> Prop) (t : inbox) : Prop := exists row, t !! id = Some row /\ Q (state row).

Lemma rowIs_impl id (Q Q' : InboxState -> Prop) t : (forall c, Q c -> Q' c) -> rowIs id Q t -> rowIs id Q' t.
Proof. intros Himp (row & Hr & HQ). exists row. auto. Qed.

Lemma keeps_rowIs_update id Q id' cond f :
  (forall c, Q c -> Q (f c)) -> keeps (rowIs id Q) (updates (updateWhere id' cond f)).
Proof.
  intros Hf. apply keeps_updates. intros t (row & Hr & HQ). unfold updateWhere. destruct (t !! id') as [row'|] eqn:E; [|by exists row].
  destruct (cond row'); [|by exists row]. simpl. destruct (decide (id' = id)) as [->|Hne].
  - eexists. rewrite lookup_insert_eq. split; [done|]. simpl. apply Hf. assert (row' = row) as -> by congruence. done.
  - exists row. by rewrite lookup_insert_ne.
Qed.

(** A retry time in the future, a final rejection, and work that is handed over. *)
Definition paced (now : Z) (c : InboxState) : Prop := exists r, c_available_at c = Some r /\ now < r.
Definition rejected (c : InboxState) : Prop :=
  c_status c = i_done /\ is_Some (c_result c) /\ exists reason, c_handling c = Some (h_failed reason).
Definition handedOver (c : InboxState) : Prop :=
  c_waiting_on_kind c = Some "task" /\ is_Some (c_waiting_on_id c) /\ c_lease_owner c = None.

Lemma attached_handedOver taskId c : attachedTo taskId c -> handedOver c.
Proof. intros (_ & Hk & Hi & Hl & _). unfold handedOver. rewrite Hi. eauto. Qed.

(** A row none of these describe would be picked up again at once. *)
Lemma settled_not_unadmitted now c ident :
  paced now c \/ rejected c \/ handedOver c -> unadmitted now (mkRow ident c) = false.
Proof.
  unfold unadmitted, isDone, columnIs, dueAt. simpl. intros [(r & -> & Hr)|[(-> & _)|(-> & _ & ->)]].
  - rewrite (proj2 (Z.leb_gt r now)) by lia. by rewrite !andb_false_r.
  - done.
  - rewrite (bool_decide_true (Some "task" = Some "task")), (bool_decide_false (is_Some None)) by (done || by intros []).
    simpl. by rewrite andb_false_r.
Qed.

Lemma retryDelay_positive f : 0 < taskAdmissionRetryDelay f.
Proof. pose proof (proj1 retry_pacing f). lia. Qed.

(** Recording a failed admission paces its row and nothing else of it. *)
Lemma record_row `{Crypto} id row item message now fp t :
  t !! id = Some row -> rowToItem row = Ok item -> c_status (state row) <> i_done ->
  exists f c, recordAppInboxRecoveryFailure id input_admission message now fp t = (Done f, <[id := mkRow (ident row) c]> t) /\
    paced now c /\ c_status c = c_status (state row) /\ c_waiting_on_kind c = c_waiting_on_kind (state row) /\
    c_execution_task_id c = c_execution_task_id (state row).
Proof.
  intros Hrow Hitem Hnd. unfold recordAppInboxRecoveryFailure, atomic. rewrite asks_bind. unfold getAppInboxItem. rewrite Hrow, Hitem.
  simpl. rewrite updates_bind. unfold updateWhere. rewrite Hrow, bool_decide_false by done. simpl. do 2 eexists.
  split; [reflexivity|]. split_ands; try done. eexists. split; [reflexivity|]. simpl.
  match goal with |- context [taskAdmissionRetryDelay ?f] => pose proof (retryDelay_positive f) end. lia.
Qed.

(** The parts of an item that later statements compare. *)
Lemma rowToItem_state row item : rowToItem row = Ok item ->
  it_status item = c_status (state row) /\ it_availableAt item = c_available_at (state row) /\
  it_executionTaskId item = optionalText (c_execution_task_id (state row)) /\
  it_waitingOn item = match optionalText (c_waiting_on_kind (state row)), optionalText (c_waiting_on_id (state row)) with
                      | Some k, Some w => Some (mkWait k w) | _, _ => None end /\
  it_lease item = match optionalText (c_lease_owner (state row)), c_lease_expires_at (state row) with
                  | Some o, Some e => Some (mkLease (c_lease_generation (state row)) o e) | _, _ => None end.
Proof.
  unfold rowToItem, requiredText. destruct (nonblank (c_id _)); [|done]. simpl. destruct (nonblank (c_app_id _)); [|done]. simpl.
  destruct (nonblank (src_kind _)); [|done]. simpl. destruct (nonblank (src_id _)); [|done]. simpl.
  destruct (nonblank (inp_kind _)); [|done]. simpl. by intros [= <-].
Qed.

Lemma taskWait_row row item w : rowToItem row = Ok item -> taskWait item = Some w ->
  c_waiting_on_kind (state row) = Some "task" /\ c_waiting_on_id (state row) = Some w.
Proof.
  intros (_ & _ & _ & Ew & _)%rowToItem_state. unfold taskWait. rewrite Ew. unfold optionalText.
  destruct (nonempty (c_waiting_on_kind _)) as [k|] eqn:Ek; [|done]. destruct (nonempty (c_waiting_on_id _)) as [i|] eqn:Ei; [|done].
  simpl. destruct (String.eqb_spec k "task") as [->|]; [|done]. intros [= <-].
  apply nonempty_Some in Ek as [-> _], Ei as [-> _]. done.
Qed.

Lemma lease_row row item o e : rowToItem row = Ok item -> c_lease_owner (state row) = Some o -> o <> "" ->
  c_lease_expires_at (state row) = Some e -> it_lease item = Some (mkLease (c_lease_generation (state row)) o e).
Proof.
  intros (_ & _ & _ & _ & ->)%rowToItem_state Eo Hne ->. rewrite Eo. unfold optionalText, nonempty.
  by destruct (String.eqb_spec o "").
Qed.

(** ** Steps of the Host *)

Definition withInbox (t : inbox) (h : Host) : Host := set_db (set_inbox t (ho_db h)) h.
Abbreviation inboxOf h := (db_inbox (ho_db h)).

Lemma onBox_run {A} (m : E inbox A) h r t : m (inboxOf h) = (r, t) -> onBox m h = (r, withInbox t h).
Proof. intros Hm. unfold onBox, onDb, onInbox, zoom. by rewrite Hm. Qed.

(** What the composition supplies. *)
Class Lawful (options : Options) : Prop := {
  lawful_attach : forall attach, op_attachTask options = Some attach -> Attacher attach;
  lawful_conversation : forall f t0 i, op_admitConversation options = Some f -> keeps (ofDb (inbox_since t0)) (f i);
  lawful_stop : forall f t0 i, op_stopConversationTurn options = Some f -> keeps (ofDb (inbox_since t0)) (f i) }.

Section Steps.
Context `{Crypto} (options : Options) (now : Z).

Lemma keeps_notifies P item result status : keeps (ofHost P) (notifies options item result status).
Proof. unfold notifies. keeps_walk. Qed.

Lemma keeps_quietly {S} (P : S -> Prop) (m : E S unit) : keeps P m -> keeps P (quietly m).
Proof. intros Hm. unfold quietly. keeps_walk. Qed.

#[local] Hint Resolve keeps_notifies : may.

Lemma keeps_paced_mark id id' stage fp now' : keeps (rowIs id (paced now)) (markAppInboxRecoveryReported id' stage fp now').
Proof. unfold markAppInboxRecoveryReported. keeps_walk. by apply keeps_rowIs_update. Qed.

Lemma keeps_handed_resolve id id' stage now' : keeps (rowIs id handedOver) (resolveAppInboxRecovery id' stage now').
Proof. unfold resolveAppInboxRecovery. keeps_walk. apply keeps_rowIs_update. intros c. by destruct stage. Qed.

#[local] Hint Resolve keeps_paced_mark keeps_handed_resolve : may.

(** A failed admission is retried later, whatever its callbacks do. *)
Lemma failure_paces h id row item message :
  inbox_ok (inboxOf h) -> inboxOf h !! id = Some row -> rowToItem row = Ok item -> c_status (state row) <> i_done ->
  ofHost (rowIs id (paced now)) (failure options now item input_admission message None h).2.
Proof.
  intros Hok Hrow Hitem Hnd. unfold failure.
  destruct (record_row id row item message now None (inboxOf h) Hrow Hitem Hnd) as (f & c & Hrec & Hp & _).
  pose proof (rowToItem_inv _ _ Hitem) as (_ & Eid & _). rewrite (io_key _ Hok _ _ Hrow) in Eid. rewrite Eid.
  erewrite bind_done. 2:{ unfold catching. erewrite bind_done by (by apply onBox_run). reflexivity. }
  match goal with |- ofHost ?P (?m ?s).2 => assert (keeps (ofHost P) m) as Hk end.
  { keeps_walk. }
  apply Hk. eexists. split; [apply lookup_insert_eq|done].
Qed.

(** A rejected row is final, and the feedback about it leaves it so. *)
Definition rejection (item : AppInboxItem) (class : ErrorClass) (message : string) : E Host unit :=
  result ← onBox (atomic (
    _ ← recordAppInboxRecoveryFailure (it_id item) input_admission message now None;
    rejectTaskInput now item class message));
  match result with
  | Some _ =>
      current ← asks (fun h => getAppInboxItem (db_inbox (ho_db h)) (it_id item));
      match current with Some i => reportRejection options now i | None => throw "item is null" end
  | None => mret tt
  end.

Lemma keeps_since_report t0 item : keeps (ofHost (inbox_since t0)) (reportRejection options now item).
Proof. unfold reportRejection. keeps_walk. Qed.

Lemma rejectTask_run item class message id ident c t :
  it_id item = id -> t !! id = Some (mkRow ident c) ->
  exists r c', rejectTaskInput now item class message t = (Done r, <[id := mkRow ident c']> t) /\
    (r = None /\ c' = c \/ is_Some r /\ rejected c').
Proof.
  intros <- Hrow. unfold rejectTaskInput. rewrite updates_bind. unfold updateWhere. rewrite Hrow. simpl.
  destruct (isStatus i_pending (mkRow ident c) && _ && _) eqn:E; simpl; do 2 eexists.
  - split; [reflexivity|]. right. split; [eauto|]. unfold rejected. simpl. split_ands; eauto.
  - split; [by rewrite insert_id|]. by left.
Qed.

Lemma rejection_settles h id row item class message :
  inbox_ok (inboxOf h) -> inboxOf h !! id = Some row -> rowToItem row = Ok item -> c_status (state row) <> i_done ->
  ofHost (rowIs id (fun c => paced now c \/ rejected c)) (rejection item class message h).2.
Proof.
  intros Hok Hrow Hitem Hnd. unfold rejection.
  destruct (record_row id row item message now None (inboxOf h) Hrow Hitem Hnd) as (f & c & Hrec & Hp & _).
  pose proof (rowToItem_inv _ _ Hitem) as (_ & Eid & _). rewrite (io_key _ Hok _ _ Hrow) in Eid.
  destruct (rejectTask_run item class message id (ident row) c (<[id := mkRow (ident row) c]> (inboxOf h)) Eid
    (lookup_insert_eq _ _ _)) as (r & c' & Hrej & Hr).
  assert (inbox_since (inboxOf h) (<[id := mkRow (ident row) c]> (inboxOf h))) as Hs1.
  { refine (run_keeps _ _ _ _ _ (record_since (inboxOf h) id input_admission message now None) Hrec _). by split. }
  pose proof (run_keeps _ _ _ _ _ (reject_since _ now item class message) Hrej Hs1) as [Hs2 _].
  erewrite bind_done. 2:{ apply onBox_run. unfold atomic. rewrite Eid. erewrite bind_done by exact Hrec. by rewrite Hrej. }
  destruct Hr as [[-> ->]|[[x ->] Hrj]].
  - eexists. split; [apply lookup_insert_eq|]. auto.
  - set (t2 := <[id := mkRow (ident row) c']> _) in *. match goal with |- ofHost _ (?m ?s).2 => assert (keeps (ofHost (inbox_since t2)) m) as Hk end.
    { keeps_walk. apply keeps_since_report. }
    destruct (Hk (withInbox t2 h)) as [_ Hev]; [by split|]. unfold ofHost.
    destruct (Hev id (mkRow (ident row) c')) as (row' & Hrow' & Hkeep); [apply lookup_insert_eq|]. exists row'. split; [done|]. right.
    destruct Hrj as (Hd & Hres & Hh). destruct Hkeep as (_ & _ & _ & Hdone). destruct (Hdone Hd) as (E1 & E2 & E3 & _).
    unfold rejected. simpl in *. by rewrite E1, E2, E3.
Qed.

(** *** Admitting one row *)

(** A program that hands the row over, or throws and leaves the state as it was. *)
Definition handsOver {A} (id : string) (h : Host) (m : E Host A) : Prop :=
  match m h with
  | (Done _, h') => ofHost (rowIs id handedOver) h'
  | (Raise _ _, h') => h' = h
  end.

Definition reading {S A} (m : E S A) : Prop := forall s, (m s).2 = s.

Lemma reading_keeps {S A} (m : E S A) : (forall P : S -> Prop, keeps P m) -> reading m.
Proof. intros Hk s. by apply (Hk (fun s' => s' = s)). Qed.

Lemma handsOver_throw {A} id h c e : handsOver id h (throwClass c e : E Host A).
Proof. done. Qed.

Lemma handsOver_bind {A B} id h (m : E Host A) (k : A -> E Host B) :
  reading m -> (forall a, handsOver id h (k a)) -> handsOver id h (m ≫= k).
Proof.
  intros Hr Hk. unfold handsOver, mbind, E_bind. specialize (Hr h). destruct (m h) as [[a|c e] h'] eqn:E; simpl in Hr; subst; [apply Hk|done].
Qed.

Lemma quietly_done {S} (m : E S unit) s : exists s', quietly m s = (Done tt, s').
Proof. unfold quietly, catching. destruct (m s) as [[[]|c e] s']; eauto. Qed.

Ltac reads_only := apply reading_keeps; intros ?; unfold requiredApp, assertAppTaskInputRoute; keeps_walk.

Context `{!Lawful options}.

Lemma attachItem_settles h id row item app :
  inbox_ok (inboxOf h) -> inboxOf h !! id = Some row -> rowToItem row = Ok item -> taskWait item = None ->
  handsOver id h (attachItem options now item app).
Proof.
  intros Hok Hrow Hitem Hw. pose proof (rowToItem_inv _ _ Hitem) as (_ & Eid & _). rewrite (io_key _ Hok _ _ Hrow) in Eid.
  unfold attachItem. apply handsOver_bind; [reads_only|intros _].
  destruct (bool_decide _); [done|]. destruct (ad_task app) as [resolve|]; [|done]. destruct (negb _); [done|].
  destruct (op_attachTask options) as [attach|] eqn:Ea; [|done]. pose proof (lawful_attach attach Ea) as Hatt.
  apply handsOver_bind; [reads_only|intros _]. apply handsOver_bind; [reads_only|intros context].
  apply handsOver_bind; [reads_only|intros [attachment|]]; [|done].
  match goal with |- handsOver _ _ (onDb (attach ?i) ≫= _) => set (input := i) end.
  unfold handsOver, mbind, E_bind, onDb, zoom. destruct (attach input (ho_db h)) as [[taskId|c e] d'] eqn:Erun.
  - destruct (attach_links _ _ _ _ id row item Erun Hok) as (row' & Hrow' & Hat); [by rewrite <- Eid|done|done|done|].
    destruct (quietly_done (onBox (resolveAppInboxRecovery (it_id item) input_admission now)) (set_db d' h)) as [h' Hq].
    unfold mbind, E_bind, onDb, zoom in Hq |- *. rewrite Hq. refine (run_keeps _ _ _ _ _ _ Hq _).
    + apply keeps_quietly, keeps_onBox, keeps_handed_resolve.
    + exists row'. split; [done|]. by eapply attached_handedOver.
  - rewrite (attach_refuses _ _ _ _ _ Erun). by destruct h.
Qed.

(** Old claims name their owner and their expiry. *)
Definition lease_paired (c : InboxState) : Prop :=
  match c_lease_owner c with Some o => o <> "" /\ is_Some (c_lease_expires_at c) | None => True end.

Lemma fence_settles h id row item w :
  inbox_ok (inboxOf h) -> inboxOf h !! id = Some row -> rowToItem row = Ok item -> taskWait item = Some w ->
  unadmitted now row = true -> lease_paired (state row) -> handsOver id h (fenceExpired now item).
Proof.
  intros Hok Hrow Hitem Hw Hun Hpair. pose proof (rowToItem_inv _ _ Hitem) as (_ & Eid & _). rewrite (io_key _ Hok _ _ Hrow) in Eid.
  destruct (taskWait_row _ _ _ Hitem Hw) as [Hkind Hwait].
  unfold unadmitted in Hun. rewrite Hkind in Hun. unfold columnIs in Hun. rewrite (bool_decide_true (Some "task" = Some "task")) in Hun by done.
  destruct (c_lease_owner (state row)) as [o|] eqn:Eo;
    [|rewrite (bool_decide_false (is_Some None)) in Hun by (by intros []); simpl in Hun; by rewrite andb_false_r in Hun].
  unfold lease_paired in Hpair. rewrite Eo in Hpair. destruct Hpair as [Hne [e He]].
  assert (it_lease item = Some (mkLease (c_lease_generation (state row)) o e)) as Hl by (by eapply lease_row).
  unfold fenceExpired. rewrite Hl, Eid. unfold handsOver. erewrite bind_done.
  2:{ apply onBox_run. unfold updates, updateWhere. rewrite Hrow. unfold columnIs, leaseBy. rewrite Eo, He. simpl.
      rewrite bool_decide_true, Z.eqb_refl by done. simpl. rewrite He in Hun. reflect_bools.
      match goal with Hd : dueAt now (Some e) = true |- _ => simpl in Hd; rewrite Hd end. reflexivity. }
  simpl. eexists. split; [apply lookup_insert_eq|]. unfold handedOver. by rewrite <- Hkind.
Qed.

Lemma tryAdmit_settles h id row item :
  inbox_ok (inboxOf h) -> inboxOf h !! id = Some row -> rowToItem row = Ok item -> unadmitted now row = true ->
  lease_paired (state row) -> handsOver id h (tryAdmit options now item).
Proof.
  intros Hok Hrow Hitem Hun Hpair. unfold tryAdmit. apply handsOver_bind; [reads_only|intros app].
  apply handsOver_bind; [reads_only|intros owned]. destruct (_ && owned); [apply handsOver_throw|].
  destruct (taskWait item) as [w|] eqn:Ew; [by eapply fence_settles|by eapply attachItem_settles].
Qed.

(** The three guards of [admitTask] let a row that is due pass. *)
Lemma unadmitted_passes row item : rowToItem row = Ok item -> unadmitted now row = true ->
  c_status (state row) <> i_done /\
  bool_decide (it_status item = i_done) || bool_decide (is_Some (it_executionTaskId item)) = false /\
  match it_availableAt item with Some a => now <? a | None => false end = false /\
  match it_lease item with Some l => now <? ls_expiresAt l | None => false end = false.
Proof.
  intros (Es & Ea & Ee & _ & El)%rowToItem_state Hun. unfold unadmitted, isDone in Hun. reflect_bools.
  match goal with Hx : c_execution_task_id (state row) = None |- _ => rewrite Hx in Ee end. rewrite Es, Ea, Ee, El. split_ands.
  - done.
  - by rewrite (bool_decide_false (c_status (state row) = i_done)) by done.
  - destruct (c_available_at (state row)) as [a|]; [|done]. simpl in *. lia.
  - destruct (optionalText (c_lease_owner (state row))) as [o|]; [|done]. destruct (c_lease_expires_at (state row)) as [e|]; [|done]. simpl in *. lia.
Qed.

Lemma admitTask_settles h id row item :
  inbox_ok (inboxOf h) -> inboxOf h !! id = Some row -> rowToItem row = Ok item -> unadmitted now row = true ->
  lease_paired (state row) ->
  ofHost (rowIs id (fun c => paced now c \/ rejected c \/ handedOver c)) (admitTask options now item h).2.
Proof.
  intros Hok Hrow Hitem Hun Hpair. destruct (unadmitted_passes row item Hitem Hun) as (Hnd & G1 & G2 & G3).
  unfold admitTask. rewrite G1, G2, G3. pose proof (tryAdmit_settles h id row item Hok Hrow Hitem Hun Hpair) as Ht.
  unfold handsOver in Ht. unfold catching. destruct (tryAdmit options now item h) as [[[]|class message] h'].
  - eapply rowIs_impl; [|exact Ht]. auto.
  - subst h'. destruct (isAdmissionError class).
    + eapply rowIs_impl; [|by eapply (rejection_settles h id row item class message)].
      intros c [Hc|Hc]; auto.
    + eapply rowIs_impl; [|by eapply (failure_paces h id row item message)]. auto.
Qed.

(** *** The inbox through every step *)

Lemma keeps_since_failure t0 item stage message fp : keeps (ofHost (inbox_since t0)) (failure options now item stage message fp).
Proof. unfold failure. keeps_walk. Qed.

#[local] Hint Resolve keeps_since_report keeps_since_failure : may.

Lemma keeps_since_fence t0 item : keeps (ofHost (inbox_since t0)) (fenceExpired now item).
Proof.
  unfold fenceExpired. destruct (it_lease item); [|apply done_keeps]. apply bind_keeps; [|auto with may].
  by apply keeps_onBox, updateWhere_since, bookkeeping_safe.
Qed.

Lemma keeps_since_attach t0 item app : keeps (ofHost (inbox_since t0)) (attachItem options now item app).
Proof.
  unfold attachItem, assertAppTaskInputRoute. keeps_walk. apply keeps_onDb.
  match goal with Ha : op_attachTask options = Some ?a |- _ => pose proof (lawful_attach a Ha); apply attach_since end.
Qed.

#[local] Hint Resolve keeps_since_fence keeps_since_attach : may.

Lemma keeps_since_admitTask t0 item : keeps (ofHost (inbox_since t0)) (admitTask options now item).
Proof.
  unfold admitTask, tryAdmit, requiredApp. keeps_walk. apply keeps_onBox. keeps_walk.
Qed.

#[local] Hint Resolve keeps_since_admitTask : may.

Lemma keeps_since_recover t0 id : keeps (ofHost (inbox_since t0)) (recoverAdmission options now id).
Proof. unfold recoverAdmission. keeps_walk. Qed.

Lemma keeps_since_create t0 uuid input : keeps (ofHost (inbox_since t0)) (createAndAdmit options now uuid input).
Proof. unfold createAndAdmit. keeps_walk. Qed.

#[local] Hint Resolve keeps_since_create : may.

Lemma keeps_since_prepared t0 uuid input app target conv :
  keeps (ofHost (inbox_since t0)) (admitPrepared options now uuid input app target conv).
Proof. unfold admitPrepared. keeps_walk. apply keeps_onDb. by eapply lawful_conversation. Qed.

#[local] Hint Resolve keeps_since_prepared : may.

Lemma keeps_since_admit t0 uuid input : keeps (ofHost (inbox_since t0)) (admitInput options now uuid input).
Proof. unfold admitInput, requiredApp. keeps_walk. Qed.

Lemma keeps_since_stop t0 target : keeps (ofHost (inbox_since t0)) (stopTurn options target).
Proof. unfold stopTurn, requiredApp. keeps_walk. apply keeps_onDb. by eapply lawful_stop. Qed.

Lemma keeps_since_projectionFailed t0 item deferred fp message :
  keeps (ofHost (inbox_since t0)) (projectionFailed options now item deferred fp message).
Proof. unfold projectionFailed. keeps_walk. Qed.

#[local] Hint Resolve keeps_since_projectionFailed : may.

Lemma keeps_since_recoverKey t0 item : keeps (ofDb (inbox_since t0)) (recoverTaskInputAdmissionKey item).
Proof.
  unfold recoverTaskInputAdmissionKey. keeps_walk. by apply keeps_onInbox, updateWhere_since, bookkeeping_safe.
Qed.

#[local] Hint Resolve keeps_since_recoverKey : may.

Lemma keeps_since_start t0 item probe : keeps (ofHost (inbox_since t0)) (projectStart options now item probe).
Proof. unfold projectStart. keeps_walk. Qed.

Lemma keeps_reports P item reports failed : keeps (ofHost P) (sendReports options item reports failed).
Proof. revert failed. induction reports as [|r l IH]; intros failed; simpl; keeps_walk. Qed.

#[local] Hint Resolve keeps_reports : may.

Lemma keeps_since_finish t0 p fp observed : keeps (ofHost (inbox_since t0)) (projectFinish options now p fp observed).
Proof. unfold projectFinish, finishProjection. keeps_walk. Qed.

(** *** Answers *)

(** A property of a row the evidence columns do not matter for. *)
Definition stable (Q : InboxState -> Prop) : Prop :=
  forall c, Q c -> (forall r, Q (set_recovery r c)) /\ (forall a, Q (set_available_at a c)) /\ (forall a, Q (set_review_at a c)) /\
    (forall a, Q (set_changed_at a c)) /\ (forall a, Q (set_updated_at a c)).

Lemma stable_stamps Q r stage at_ n c : stable Q -> Q c ->
  Q (c |> set_recovery r |> set_due stage at_ |> set_changed_at (Some n) |> set_updated_at n).
Proof. intros HQ Hc. apply HQ, HQ. destruct stage; simpl; apply HQ, HQ, Hc. Qed.

Section Stable.
Context (id : string) (Q : InboxState -> Prop) (HQ : stable Q).

Lemma keeps_stable_record id' stage message n fp : keeps (rowIs id Q) (recordAppInboxRecoveryFailure id' stage message n fp).
Proof. unfold recordAppInboxRecoveryFailure. keeps_walk. apply keeps_rowIs_update. intros c. by apply stable_stamps. Qed.

Lemma keeps_stable_mark id' stage fp n : keeps (rowIs id Q) (markAppInboxRecoveryReported id' stage fp n).
Proof. unfold markAppInboxRecoveryReported. keeps_walk. apply keeps_rowIs_update. intros c Hc. by apply HQ, HQ, HQ. Qed.

Lemma keeps_stable_resolve id' stage n : keeps (rowIs id Q) (resolveAppInboxRecovery id' stage n).
Proof. unfold resolveAppInboxRecovery. keeps_walk. apply keeps_rowIs_update. intros c. by apply stable_stamps. Qed.

#[local] Hint Resolve keeps_stable_record keeps_stable_mark keeps_stable_resolve : may.

Lemma keeps_stable_failed item deferred fp message :
  keeps (ofHost (rowIs id Q)) (projectionFailed options now item deferred fp message).
Proof. unfold projectionFailed, failure. keeps_walk. Qed.

Lemma keeps_stable_failure item stage fp message : keeps (ofHost (rowIs id Q)) (failure options now item stage message fp).
Proof. unfold failure. keeps_walk. Qed.

End Stable.

(** A row that is as [c0] in what an answer is matched by, or was completed with
    the observed answer of the Task [c0] waits for. *)
Definition answeredBy (id : string) (c0 : InboxState) (p : Projection) (observed : res (option TaskInputObservation))
    (c : InboxState) : Prop :=
  (c_status c <> i_done /\ c_waiting_on_kind c = c_waiting_on_kind c0 /\ c_waiting_on_id c = c_waiting_on_id c0 /\
   c_task_admission_key c = c_task_admission_key c0) \/
  (id = it_id (pj_item p) /\ exists o, observed = Ok (Some o) /\ ob_kind o = "task" /\ reviewable (ob_status o) = true /\
   c_waiting_on_kind c0 = Some "task" /\ c_waiting_on_id c0 = Some (ob_id o) /\
   c_task_admission_key c0 = Some (pj_admissionKey p) /\ c_result c = Some (observedResult o)).

Lemma answeredBy_stable id c0 p observed : stable (answeredBy id c0 p observed).
Proof. intros c Hc. split_ands; intros; exact Hc. Qed.

#[local] Hint Resolve answeredBy_stable keeps_stable_failed keeps_stable_failure keeps_stable_resolve : may.

Lemma keeps_answered_complete id c0 p o :
  mismatched (pj_item p) o = false -> reviewable (ob_status o) = true ->
  keeps (rowIs id (answeredBy id c0 p (Ok (Some o))))
    (completeTaskInput now (with_admissionKey (pj_admissionKey p) (pj_item p)) (observedResult o)).
Proof.
  intros Hm Hrev. unfold mismatched in Hm. reflect_bools.
  unfold completeTaskInput. change (taskWait (with_admissionKey _ ?i)) with (taskWait i).
  match goal with Hw : taskWait _ = Some _ |- _ => rewrite Hw end. apply bind_keeps; [|auto with may].
  apply keeps_updates. intros t (row & Hrow & HQ). unfold updateWhere. simpl.
  destruct (t !! it_id (pj_item p)) as [row'|] eqn:E; [|by exists row].
  destruct (isStatus i_handling row' && _ && _ && _ && _) eqn:Ec; [|by exists row]. simpl.
  destruct (decide (it_id (pj_item p) = id)) as [Hid|Hne]; [|exists row; by rewrite lookup_insert_ne].
  eexists. rewrite Hid, lookup_insert_eq. split; [done|]. assert (row' = row) as -> by congruence. simpl.
  unfold isStatus, columnIs in Ec. reflect_bools. right. split; [done|]. exists o. destruct HQ as [(_ & E1 & E2 & E3)|(_ & o' & [= <-] & H')].
  - split_ands; try done; congruence.
  - destruct H' as (? & ? & ? & ? & ? & ?). done.
Qed.

Lemma keeps_answered id c0 p fp observed :
  keeps (ofHost (rowIs id (answeredBy id c0 p observed))) (projectFinish options now p fp observed).
Proof.
  unfold projectFinish, finishProjection. keeps_walk. apply keeps_onBox, keeps_answered_complete; [done|by apply negb_false_iff].
Qed.

End Steps.

(** ** Histories of the Host *)

Inductive hostOp : Type :=
| o_admit (uuid : string) (input : CreateAppInboxItem)
| o_page
| o_recover (id : string)
| o_start (item : AppInboxItem) (probe : bool)
| o_finish (p : Projection) (fingerprint : string) (observed : res (option TaskInputObservation))
| o_results
| o_refresh (appId taskId : string)
| o_replace (journal : EventAdmission.Journal) (definitions : list AppDef)
| o_stop (target : AppTurnTarget)
| o_close.

(** The Host after an operation at a time, whether it returned or threw. *)
Definition afterHost `{Crypto} (options : Options) (h : Host) (step : Z * hostOp) : Host :=
  let now := step.1 in
  match step.2 with
  | o_admit uuid input => (admitInput options now uuid input h).2
  | o_page => (readAdmissionPage now h).2
  | o_recover id => (recoverAdmission options now id h).2
  | o_start item probe => (projectStart options now item probe h).2
  | o_finish p fp observed => (projectFinish options now p fp observed h).2
  | o_results => (recoverTaskResults now h).2
  | o_refresh a t => (refreshTaskResults now a t h).2
  | o_replace j ds => (replaceApps j ds h).2
  | o_stop target => (stopTurn options target h).2
  | o_close => (close h).2
  end.

(** Steps that move a cursor, install Apps or close leave the inbox alone. *)
Lemma keeps_page P now : keeps (ofHost P) (readAdmissionPage now).
Proof. unfold readAdmissionPage. keeps_walk; by apply keeps_writes. Qed.
Lemma keeps_results P now : keeps (ofHost P) (recoverTaskResults now).
Proof. unfold recoverTaskResults. keeps_walk; by apply keeps_writes. Qed.
Lemma keeps_replace P j ds : keeps (ofHost P) (replaceApps j ds).
Proof. unfold replaceApps. keeps_walk. by apply keeps_writes. Qed.

Lemma keeps_refresh P now a t : keeps (ofHost P) (refreshTaskResults now a t).
Proof. unfold refreshTaskResults. keeps_walk. Qed.

Lemma afterHost_since `{Crypto} options `{!Lawful options} t0 h step :
  ofHost (inbox_since t0) h -> ofHost (inbox_since t0) (afterHost options h step).
Proof.
  intros Hs. destruct step as [now []]; simpl.
  - by apply keeps_since_admit.
  - by apply keeps_page.
  - by apply keeps_since_recover.
  - by apply keeps_since_start.
  - by apply keeps_since_finish.
  - by apply keeps_results.
  - by apply keeps_refresh.
  - by apply keeps_replace.
  - by apply keeps_since_stop.
  - exact Hs.
Qed.

Lemma host_history_since `{Crypto} options `{!Lawful options} t0 steps h :
  ofHost (inbox_since t0) h -> ofHost (inbox_since t0) (fold_left (afterHost options) steps h).
Proof. revert h. induction steps as [|x l IH]; intros h Hs; [done|]. simpl. apply IH. by apply afterHost_since. Qed.

(** ** Properties *)


(** C27.  An admission attempt never leaves a due row where it was.  When the
    open Host recovers a row that waits for admission and whose App is
    registered, then afterwards either the row is handed to a Task that owns it,
    or it is rejected for good with a result that says so, or its next retry
    lies in the future, and the row is no longer due: no input is dropped, and
    none is retried in a tight loop, whatever the App's resolver, the Task
    admission and the callbacks do. *)
Theorem admission_attempt_settles `{Crypto} options now h id row item
    (Hlawful : Lawful options)
    (Hok : inbox_ok (inboxOf h))
    (Hopen : ho_closed h = false)
    (Hrow : inboxOf h !! id = Some row)
    (Hitem : rowToItem row = Ok item)
    (Hdue : unadmitted now row = true)
    (Hlease : lease_paired (state row))
    (Happ : obj_has (it_appId item) (ho_apps h) = true) :
  exists row', inboxOf (recoverAdmission options now id h).2 !! id = Some row' /\ ident row' = ident row /\
    (paced now (state row') \/ rejected (state row') \/ handedOver (state row')) /\ unadmitted now row' = false.
Proof.
  assert (ofHost (rowIs id (fun c => paced now c \/ rejected c \/ handedOver c)) (recoverAdmission options now id h).2)
    as (row' & Hrow' & Hset).
  { unfold recoverAdmission. rewrite bind_reads, Hopen, asks_bind. unfold getAppInboxItem. rewrite Hrow, Hitem. simpl.
    rewrite bind_reads, Happ. simpl. destruct (unadmitted_passes now row item Hitem Hdue) as (Hnd & _).
    destruct (rowToItem_state _ _ Hitem) as (-> & _). rewrite bool_decide_false by done. by eapply admitTask_settles. }
  destruct (keeps_since_recover options now (inboxOf h) id h) as [_ Hev]; [by split|].
  destruct (Hev id row Hrow) as (r & Hr & Hi & _). assert (r = row') as -> by congruence. exists row'. split_ands; try done.
  destruct row' as [i c]. by apply settled_not_unadmitted.
Qed.

(** C28.  Answers are projected exactly.  When the projection of a dependency
    completes a row, the row waited for the Task the reader answered about,
    under the admission the projection started with, the reported state was one
    an owner reviews, and the stored result is the observed one.  Nothing else
    a projection does completes a row. *)
Theorem answer_projected_exactly `{Crypto} options now h p fingerprint observed id row row'
    (Hrow : inboxOf h !! id = Some row)
    (Hopen : c_status (state row) <> i_done)
    (Hrow' : inboxOf (projectFinish options now p fingerprint observed h).2 !! id = Some row')
    (Hdone : c_status (state row') = i_done) :
  id = it_id (pj_item p) /\
  exists o, observed = Ok (Some o) /\ ob_kind o = "task" /\ reviewable (ob_status o) = true /\
    c_waiting_on_kind (state row) = Some "task" /\ c_waiting_on_id (state row) = Some (ob_id o) /\
    c_task_admission_key (state row) = Some (pj_admissionKey p) /\ c_result (state row') = Some (observedResult o).
Proof.
  pose proof (keeps_answered options now id (state row) p fingerprint observed h) as Hk.
  destruct Hk as (r & Hr & [[Hnd _]|Hans]).
  - exists row. split; [done|]. left. done.
  - assert (r = row') as -> by congruence. done.
  - assert (r = row') as -> by congruence. exact Hans.
Qed.

(** ** Concrete runs *)

(** An App whose messages become work of Task [t9]. *)
Definition sample_app : AppDef :=
  mkApp "demo" (Some "builder") None (fun _ => Ok tt) true
    (Some (fun _ => Done (Some (desired (mkIntent "t9" TaskScenario.sample_spec false) None)))) None [] [].

Definition sample_options : Options :=
  mkOptions (Some (attachTask (H := TaskScenario.sample_digest) TaskScenario.sample_config false TaskScenario.start)) None
    (Some (fun _ _ _ => Ok true)) (fun _ _ => Ok tt) None None true.

Lemma sample_lawful : Lawful sample_options.
Proof. split; [|done|done]. simpl. intros attach [= <-]. apply _. Qed.

(** One saved message that was not admitted yet. *)
Definition sample_saved : inbox :=
  (createAppInboxItem "1" 10 (mkCreate None "demo" None None None None None None None None None None None
     (mkSource "human" "u1") (mkInput "message" (JStr "hello")) (Some (num 7)) (Some "k1")) ∅).2.

Definition sample_host : Host :=
  mkHost (mkDb TaskScenario.new_app sample_saved ∅ ∅ ∅ ∅ ∅ []) [("demo", sample_app)] false None None [].

Definition saved_row : InboxRow := default (mkRow (mkIdentity "" "" None None None None None None None None None None None
  (mkSource "" "") (mkInput "" JNull) None 0) (mkState None i_pending None None None None None None None None None None 0 None None
  None None None 0 None)) (sample_saved !! "app_1").

Definition attached_host : Host :=
  (recoverAdmission (H := TaskScenario.sample_digest) sample_options TaskScenario.start "app_1" sample_host).2.

Lemma sample_host_ok : inbox_ok (inboxOf sample_host).
Proof. apply (create_since ∅), (conj empty_inbox_ok). reflexivity. Qed.

Lemma admission_attempt_settles_witness :
  exists row', inboxOf attached_host !! "app_1" = Some row' /\ c_waiting_on_id (state row') = Some "t9" /\
    unadmitted TaskScenario.start row' = false.
Proof.
  destruct (rowToItem saved_row) as [item|] eqn:Ei; [|vm_compute in Ei; discriminate Ei].
  destruct (admission_attempt_settles (H := TaskScenario.sample_digest) sample_options TaskScenario.start sample_host "app_1"
    saved_row item) as (row' & Hrow' & _ & _ & Hnot).
  - apply sample_lawful.
  - apply sample_host_ok.
  - reflexivity.
  - vm_compute. reflexivity.
  - exact Ei.
  - vm_compute. reflexivity.
  - exact I.
  - vm_compute in Ei. injection Ei as <-. vm_compute. reflexivity.
  - exists row'. split_ands; [exact Hrow'| |exact Hnot].
    assert (c_waiting_on_id ∘ state <$> inboxOf attached_host !! "app_1" = Some (Some "t9")) as Hw by (vm_compute; reflexivity).
    unfold attached_host in Hw. rewrite Hrow' in Hw. by injection Hw.
Defined.

Definition attached_row : InboxRow := default saved_row (inboxOf attached_host !! "app_1").
Definition sample_projection : option Projection :=
  match rowToItem attached_row with Ok item => Some (mkProjection item false "task:app_1") | Throw _ => None end.
Definition sample_observed : TaskInputObservation := mkObserved "task" "t9" "done" (Some "shipped") None None None None None.

Lemma answer_projected_exactly_witness :
  exists p row', sample_projection = Some p /\
    inboxOf (projectFinish (H := TaskScenario.sample_digest) sample_options 50 p "f" (Ok (Some sample_observed)) attached_host).2
      !! "app_1" = Some row' /\
    c_status (state row') = i_done /\ c_result (state row') = Some (observedResult sample_observed).
Proof.
  destruct sample_projection as [p|] eqn:Ep; [|vm_compute in Ep; discriminate Ep]. exists p.
  destruct (inboxOf (projectFinish (H := TaskScenario.sample_digest) sample_options 50 p "f" (Ok (Some sample_observed)) attached_host).2
      !! "app_1") as [row'|] eqn:Er; [|vm_compute in Ep; injection Ep as <-; vm_compute in Er; discriminate Er].
  exists row'. assert (c_status (state row') = i_done) as Hd.
  { vm_compute in Ep. injection Ep as <-. vm_compute in Er. injection Er as <-. reflexivity. }
  split; [exact eq_refl|]. split; [exact eq_refl|]. split; [exact Hd|].
  destruct (answer_projected_exactly (H := TaskScenario.sample_digest) sample_options 50 attached_host p "f"
    (Ok (Some sample_observed)) "app_1" attached_row row') as (_ & o & [= <-] & _ & _ & _ & _ & _ & Hres); [| |exact Er|exact Hd|exact Hres].
  - vm_compute. reflexivity.
  - vm_compute. discriminate.
Defined.


End HostLaws.
