(* ===== verification/DependencyAdmission.v ===== *)
(** Requests of a running attempt to other Apps
    ([src/app/core/tasks/dependency-admission.ts]): an attempt names a request,
    the Host saves it in the inbox of the other App under an identity derived
    from the Task, its generation and the name, and returns the Condition that
    is true once the request is done.  Naming it again reuses the saved row.

    The state is that of [InboxAdmission]; the database opened from
    [persistDir] is the store's own.  [bus.emit] is an argument: publications
    are returned when they are deferred, and sent at once otherwise. *)
From S2P Require Import Prelude Json TaskState TaskTree Transaction ResourceStore StoreInvariant StoreCommit Snapshot.
From S2P Require Import Context Approval Conditions Records Time TaskInputs TaskEvents TaskIntent TaskMutation.
From S2P Require Import TaskOutcome TaskAdmission TaskLease TaskContract Effects InboxStore ConversationRequests.
From S2P Require Import InboxAdmission EventSelector EventAdmission InboxHost.

Module DependencyAdmission.
Import ResourceStore TaskTree TaskInputs TaskMutation TaskLease TaskContract.
Import EventSelector Effects InboxStore InboxAdmission InboxHost.

#[local] Instance res_bind' : MBind res := fun A B f x => match x with Ok a => f a | Throw e => Throw e end.
#[local] Instance res_ret' : MRet res := @Ok.

(** ** Receipts of a Task generation *)

(** [ORDER BY started_at DESC]. *)
Definition newestAttempt (a b : AttemptRow) : Prop := ar_started_at b <= ar_started_at a.
#[export] Instance newestAttempt_dec : RelDecision newestAttempt.
Proof. intros a b. unfold newestAttempt. apply _. Defined.

Definition generationAttempts (s : store) (taskId : string) (generation : Z) : list AppTaskAttempt :=
  map ar_attempt (merge_sort newestAttempt (filter (fun r => ar_task_id r = taskId /\ ar_task_generation r = generation)
    (map snd (map_to_list (ResourceStore.attempts s))))).

Definition readTaskChangeReceipt (s : store) (taskId : string) (generation : Z) (key : string) : option TaskChangeReceipt :=
  head (omap (fun a => default [] (att_changeReceipts a) |> obj_get key) (generationAttempts s taskId generation)).

Definition readTaskRequestReceipt (s : store) (taskId : string) (generation : Z) (localId : string) : option string :=
  head (flat_map (fun a => omap (fun r => if String.eqb (rr_id r) localId then Some (rr_requestId r) else None)
    (flat_map cr_requests (obj_values (default [] (att_changeReceipts a))))) (generationAttempts s taskId generation)).

(** ** Identity of a request *)

Section Identity.
Context `{Crypto}.

Definition taskRequestIdentity (appId : string) (claim : AppTaskClaim) (id : string) : string :=
  String.substring 0 24 (sha256 (JSON_stringify
    (JArr [JStr appId; JStr (clm_taskId claim); JNum (num (clm_generation claim)); JStr id]))).

Definition requestIdOf (appId : string) (claim : AppTaskClaim) (id : string) : string :=
  "appdep_" +:+ taskRequestIdentity appId claim id.

Definition lineagePrefix (appId : string) (claim : AppTaskClaim) : string :=
  "task-dependency:" +:+ appId +:+ ":" +:+ clm_taskId claim +:+ ":".

Definition generationPrefix (appId : string) (claim : AppTaskClaim) : string :=
  lineagePrefix appId claim +:+ show_Z (clm_generation claim) +:+ ":".

Definition requestKeyOf (appId : string) (claim : AppTaskClaim) (id : string) : string :=
  generationPrefix appId claim +:+ id +:+ ":" +:+ taskRequestIdentity appId claim id.

Definition callerOf (appId : string) (claim : AppTaskClaim) : ResourceCreator := mkCreator appId (Some (clm_taskId claim)).

(** [!item.creator || isDeepStrictEqual(item.creator, caller)]. *)
Definition createdBy (item : AppInboxItem) (caller : ResourceCreator) : bool :=
  match it_creator item with None => true | Some c => bool_decide (c = caller) end.

(** [/^[a-f0-9]{24}$/]. *)
Definition isHex (c : ascii) : bool :=
  (set_has (String.String c "") ["a"; "b"; "c"; "d"; "e"; "f"; "0"; "1"; "2"; "3"; "4"; "5"; "6"; "7"; "8"; "9"]).
Definition isIdentity (s : string) : bool := Nat.eqb (String.length s) 24 && forallb isHex (chars s).

Definition after (prefix s : string) : string := String.substring (String.length prefix) (String.length s) s.

(** The saved row the caller means by [id]. *)
Definition namedExact (d : Db) (claim : AppTaskClaim) (id : string) : res (option AppInboxItem) :=
  let appId := appId (db_store d) in
  stable ← getAppInboxItem (db_inbox d) (requestIdOf appId claim id);
  saved ← match nonempty (readTaskRequestReceipt (db_store d) (clm_taskId claim) (clm_generation claim) id) with
          | Some savedId => getAppInboxItem (db_inbox d) savedId
          | None => mret None
          end;
  exact ← match stable, saved with
          | Some i, _ => mret (Some i)
          | None, Some i => mret (Some i)
          | None, None => getAppInboxItem (db_inbox d) (stripPrefix "app-request:" id)
          end;
  mret (match exact with
        | Some i =>
            if String.eqb (src_kind (it_source i)) "app" && String.eqb (src_id (it_source i)) appId &&
               (bool_decide (is_Some saved) ||
                match it_idempotencyKey i with Some k => startsWith k (generationPrefix appId claim) | None => false end) &&
               createdBy i (callerOf appId claim)
            then Some i else None
        | None => None
        end).

Definition readNamedTaskRequest (d : Db) (claim : AppTaskClaim) (id : string) : res (option AppInboxItem) :=
  let appId := appId (db_store d) in
  exact ← namedExact d claim id;
  match exact with
  | Some i => mret (Some i)
  | None =>
      let namedPrefix := generationPrefix appId claim +:+ id +:+ ":" in
      items ← listAppInboxItemsByIdempotencyPrefix (db_inbox d) appId namedPrefix;
      let legacy := filter (fun i =>
        isIdentity (after namedPrefix (default "" (it_idempotencyKey i))) && createdBy i (callerOf appId claim) = true) items in
      if Nat.ltb 1 (length legacy)
      then Throw ("Request " +:+ id +:+ " has ambiguous historical identity; use its exact durable request id")
      else mret (head legacy)
  end.

(** The Condition that is true when a saved request is done. *)
Definition completionOf (requestId appId : string) : ConditionDecl :=
  mkDecl ("app-request:" +:+ requestId)
    (mkConditionSpec "app.dependency.updated" ("id:" +:+ requestId)
       (JObj [("field", JStr "status"); ("equals", JStr "done")]) None (Some ("app:" +:+ appId)) None None).

Definition requestCompletionCondition (item : AppInboxItem) : ConditionDecl := completionOf (it_id item) (it_appId item).

Definition resolveTaskRequestCondition (d : Db) (claim : AppTaskClaim) (id : string) : res ConditionDecl :=
  item ← readNamedTaskRequest d claim id;
  match item with
  | Some i => mret (requestCompletionCondition i)
  | None => Throw ("Condition refers to undeclared request " +:+ id)
  end.

(** ** Matching requests with saved ones *)

(** A Condition on a request, with the row it names. *)
Record Candidate : Type := mkCandidate {
  ca_condition : ConditionDecl;
  ca_requestId : string;
  ca_item : option AppInboxItem }.

(** [registry]: the installed Apps, when a registry is configured. *)
Definition assertInstalledAppDependency (registry : option (list AppDef)) (dependency : TaskAppRequest) : res unit :=
  match registry with
  | None => mret tt
  | Some apps =>
      match head (filter (fun a => ad_id a = rq_appId dependency) apps) with
      | Some target =>
          if ad_tasks target && bool_decide (is_Some (ad_task target)) then
            _ ← ad_accepts target (mkInput (rq_kind dependency) (rq_data dependency));
            match appInputRoute target (rq_kind dependency) (rq_taskId dependency) true with
            | Some to_task => mret tt
            | _ => Throw ("App " +:+ ad_id target +:+ " has no Task handler for input kind " +:+ rq_kind dependency)
            end
          else Throw ("App dependency " +:+ rq_id dependency +:+ " targets unavailable App " +:+ rq_appId dependency)
      | None => Throw ("App dependency " +:+ rq_id dependency +:+ " targets unavailable App " +:+ rq_appId dependency)
      end
  end.

Fixpoint checkRequests (registry : option (list AppDef)) (requests : list TaskAppRequest) (seen : list string) : res unit :=
  match requests with
  | [] => mret tt
  | r :: requests =>
      if set_has (rq_id r) seen then Throw ("Task result declares App dependency " +:+ rq_id r +:+ " more than once")
      else _ ← assertInstalledAppDependency registry r; checkRequests registry requests (rq_id r :: seen)
  end.

(** The rows of the Conditions the Task already waits for. *)
Fixpoint existingCandidates (d : Db) (conditions : list ConditionDecl) : res (list Candidate) :=
  match conditions with
  | [] => mret []
  | c :: conditions =>
      let subject := cs_subject (cd_spec c) in
      let requestId := if startsWith subject "id:" then after "id:" subject else "" in
      if negb (String.eqb (cs_type (cd_spec c)) "app.dependency.updated") || negb (startsWith (cd_id c) "app-request:") ||
         String.eqb requestId "" || negb (String.eqb (cd_id c) ("app-request:" +:+ requestId))
      then existingCandidates d conditions
      else
        item ← getAppInboxItem (db_inbox d) requestId;
        rest ← existingCandidates d conditions;
        mret (mkCandidate c requestId item :: rest)
  end.

Definition belongsToCaller (appId : string) (claim : AppTaskClaim) (item : AppInboxItem) : bool :=
  match it_creator item with
  | Some c => bool_decide (c = callerOf appId claim)
  | None => match it_idempotencyKey item with Some k => startsWith k (generationPrefix appId claim) | None => false end
  end.

Definition detachedOpenFor (d : Db) (claim : AppTaskClaim) (target : string) : res (list AppInboxItem) :=
  let appId := appId (db_store d) in
  items ← listOpenAppInboxItemsByIdempotencyPrefix (db_inbox d) target appId (lineagePrefix appId claim) None;
  mret (filter (fun i => belongsToCaller appId claim i = true) items).

Definition detachedMatch (item : AppInboxItem) : Candidate :=
  mkCandidate (requestCompletionCondition item) (it_id item) (Some item).

Definition requestInput (r : TaskAppRequest) : AppInput := mkInput (rq_kind r) (rq_data r).

(** The row asks the same of the same App and Task. *)
Definition sameMeaning (r : TaskAppRequest) (item : AppInboxItem) : bool :=
  bool_decide (it_targetTaskId item = rq_taskId r) && sameInput (it_input item) (requestInput r).

(** A row that created work names the Task it was resolved to. *)
Definition createdTaskMatches (r : TaskAppRequest) (item : AppInboxItem) : bool :=
  bool_decide (it_targetTaskId item = None) && bool_decide (is_Some (taskWait item)) &&
  bool_decide (taskWait item = rq_taskId r).

Definition targetMatches (r : TaskAppRequest) (item : AppInboxItem) : bool :=
  bool_decide (it_targetTaskId item = rq_taskId r) || createdTaskMatches r item.

(** [direct], then [exact], then open rows that were detached, by id or meaning. *)
Definition candidatesOf (d : Db) (claim : AppTaskClaim) (existing : list Candidate) (r : TaskAppRequest)
    : res (list Candidate) :=
  let appId := appId (db_store d) in
  let direct := filter (fun c => String.eqb (rq_id r) (ca_requestId c) || String.eqb (rq_id r) (cd_id (ca_condition c)) ||
                                 String.eqb (rq_id r) ("app-request:" +:+ ca_requestId c) = true) existing in
  let exact := filter (fun c => match ca_item c with
                                | Some i => String.eqb (it_appId i) (rq_appId r) && sameMeaning r i
                                | None => false
                                end = true) existing in
  match direct, exact with
  | _ :: _, _ => mret direct
  | [], _ :: _ => mret exact
  | [], [] =>
      detached ← getAppInboxItem (db_inbox d) (stripPrefix "app-request:" (rq_id r));
      let byId := match detached with
                  | Some i =>
                      if negb (bool_decide (it_status i = i_done)) && String.eqb (src_kind (it_source i)) "app" &&
                         String.eqb (src_id (it_source i)) appId &&
                         match it_idempotencyKey i with Some k => startsWith k (lineagePrefix appId claim) | None => false end &&
                         belongsToCaller appId claim i
                      then [detachedMatch i] else []
                  | None => []
                  end in
      match byId with
      | _ :: _ => mret byId
      | [] =>
          open ← detachedOpenFor d claim (rq_appId r);
          mret (map detachedMatch (filter (fun i => sameMeaning r i = true) open))
      end
  end.

Definition orNewWork (taskId : option string) : string := default "new work" taskId.

(** The candidate a request reuses; [None]: the request is new. *)
Definition matchUnnamed (d : Db) (claim : AppTaskClaim) (existing : list Candidate) (matched : list string)
    (r : TaskAppRequest) : res (option Candidate) :=
  candidates ← candidatesOf d claim existing r;
  match candidates with
  | [] => mret None
  | _ :: _ :: _ => Throw ("App dependency " +:+ rq_id r +:+ " ambiguously matches multiple open requests")
  | [c] =>
      if match ca_item c with Some i => negb (String.eqb (it_appId i) (rq_appId r)) | None => false end then
        Throw ("App dependency " +:+ rq_id r +:+ " refers to open request " +:+ ca_requestId c +:+ " for App " +:+
               default "" (it_appId <$> ca_item c) +:+ ", not " +:+ rq_appId r)
      else if match ca_item c with Some i => negb (targetMatches r i) | None => false end then
        Throw ("App dependency " +:+ rq_id r +:+ " refers to open request " +:+ ca_requestId c +:+ " for Task " +:+
               orNewWork (ca_item c ≫= it_targetTaskId) +:+ ", not " +:+ orNewWork (rq_taskId r))
      else if set_has (ca_requestId c) matched then
        Throw ("Open App request " +:+ ca_requestId c +:+ " is declared more than once")
      else mret (Some c)
  end.

Definition matchRequest (d : Db) (claim : AppTaskClaim) (existing : list Candidate) (matched : list string)
    (r : TaskAppRequest) : res (option Candidate) :=
  named ← readNamedTaskRequest d claim (rq_id r);
  match named with
  | Some item =>
      if negb (String.eqb (it_appId item) (rq_appId r)) || negb (targetMatches r item) ||
         (negb (set_has (rq_id r) [it_id item; "app-request:" +:+ it_id item]) && negb (sameInput (it_input item) (requestInput r)))
      then Throw ("Request " +:+ rq_id r +:+ " was already admitted with different input or target")
      else mret (Some (mkCandidate (requestCompletionCondition item) (it_id item) (Some item)))
  | None => matchUnnamed d claim existing matched r
  end.

(** Every request with what it reuses, and the rows that are reused. *)
Fixpoint matchRequests (d : Db) (claim : AppTaskClaim) (existing : list Candidate) (matched : list string)
    (requests : list TaskAppRequest) : res (list (TaskAppRequest * option Candidate) * list string) :=
  match requests with
  | [] => mret ([], matched)
  | r :: requests =>
      m ← matchRequest d claim existing matched r;
      '(rest, matched) ← matchRequests d claim existing (match m with Some c => ca_requestId c :: matched | None => matched end) requests;
      mret ((r, m) :: rest, matched)
  end.

(** ** Admission *)

Definition sameRequest (a b : TaskAppRequest) : bool :=
  String.eqb (rq_appId a) (rq_appId b) && bool_decide (rq_taskId a = rq_taskId b) && sameInput (requestInput a) (requestInput b).

Fixpoint checkDistinct (earlier requests : list TaskAppRequest) : res unit :=
  match requests with
  | [] => mret tt
  | r :: requests =>
      match head (filter (fun c => sameRequest c r = true) earlier) with
      | Some c => Throw ("App dependencies " +:+ rq_id c +:+ " and " +:+ rq_id r +:+ " request the same " +:+ rq_appId r +:+ " outcome")
      | None => checkDistinct (earlier ++ [r]) requests
      end
  end.

(** The publication that wakes ordinary admission. *)
Record Publication : Type := mkPublication {
  pb_requestId : string;
  pb_request : TaskAppRequest;
  pb_idempotencyKey : string }.

Definition newRequests (l : list (TaskAppRequest * option Candidate)) : list TaskAppRequest :=
  omap (fun e => match e.2 with None => Some e.1 | Some _ => None end) l.

(** The row of a new request. *)
Definition requestCreate (appId : string) (claim : AppTaskClaim) (r : TaskAppRequest) : CreateAppInboxItem :=
  mkCreate (Some (requestIdOf appId claim (rq_id r))) (rq_appId r) (Some (callerOf appId claim)) None (rq_taskId r) None None
    None None None None None None (mkSource "app" appId) (requestInput r) None (Some (requestKeyOf appId claim (rq_id r))).

(** [emit]: the bus, when publications are not deferred; it returns whether the
    event was delivered or stored. *)
Section Admit.
Context (registry : option (list AppDef)) (emit : option (Publication -> bool)) (now : Z) (claim : AppTaskClaim).

Definition admitNew (r : TaskAppRequest) : E Db Publication :=
  own ← reads (fun d => appId (db_store d));
  _ ← atomic (
    _ ← asks (fun d => assertAppTaskClaimCurrent (db_store d) claim);
    onInbox (createAppInboxItem "" now (requestCreate own claim r)));
  let p := mkPublication (requestIdOf own claim (rq_id r)) r (requestKeyOf own claim (rq_id r)) in
  match emit with
  | Some f => if f p then mret p
              else throw ("App dependency " +:+ rq_id r +:+ " was neither admitted nor durably published for App " +:+
                          rq_appId r +:+ "; the Task remains runnable")
  | None => mret p
  end.

Fixpoint admitAll (requests : list TaskAppRequest) : E Db (list Publication) :=
  match requests with
  | [] => mret []
  | r :: requests => p ← admitNew r; rest ← admitAll requests; mret (p :: rest)
  end.

Definition unresolvedExisting (existing : list Candidate) (matched : list string) : option Candidate :=
  head (filter (fun c => bool_decide (ca_item c = None) && negb (set_has (ca_requestId c) matched) = true) existing).

Definition withOwner (r : TaskAppRequest) (c : ConditionDecl) : ConditionDecl :=
  let s := cd_spec c in
  mkDecl (cd_id c) (mkConditionSpec (cs_type s) (cs_subject s) (cs_expected s) (cs_requestedAction s)
    (Some (default ("app:" +:+ rq_appId r) (cs_owner s))) (cs_reviewAfterMs s) (cs_progress s)).

(** The Conditions by request, and the publications that are left to send. *)
Definition admitTaskAppRequests (requests : list TaskAppRequest) (existingConditions : list ConditionDecl)
    : E Db (list (string * ConditionDecl) * list Publication) :=
  _ ← checks (checkRequests registry requests []);
  existing ← asks (fun d => existingCandidates d existingConditions);
  '(matches, matched) ← asks (fun d => matchRequests d claim existing [] requests);
  let fresh := newRequests matches in
  _ ← match fresh, unresolvedExisting existing matched with
      | r :: _, Some c => throw ("Cannot classify App dependency " +:+ rq_id r +:+ " while open request " +:+ ca_requestId c +:+
                                 " is unavailable")
      | _, _ => mret tt
      end;
  _ ← checks (checkDistinct [] fresh);
  _ ← match fresh with
      | [] => mret tt
      | _ => asks (fun d => assertAppTaskClaimCurrent (db_store d) claim)
      end;
  own ← reads (fun d => appId (db_store d));
  published ← admitAll fresh;
  mret (map (fun e => (rq_id e.1, withOwner e.1 (match e.2 with
                                                 | Some c => ca_condition c
                                                 | None => completionOf (requestIdOf own claim (rq_id e.1)) (rq_appId e.1)
                                                 end))) matches,
        match emit with Some _ => [] | None => published end).

End Admit.
End Identity.

(** ** Conditions of the Task *)

(** The request Conditions a Task is linked to, and those not yet true. *)
Definition linkedTaskAppDependencyConditions (s : store) (taskId : string)
    : res (list ConditionDecl * list ConditionDecl) :=
  tree ← Context.readTaskContext s (Context.mkInput [taskId] [] [] true None);
  let linked := omap (fun id =>
    match obj_get id (conditions tree) with
    | Some c => if String.eqb (cs_type (cond_spec c)) "app.dependency.updated" then Some c else None
    | None => None
    end) (default [] (obj_get taskId (resources tree) ≫= fun r => st_conditionIds (status r))) in
  let spec (c : AppTaskCondition) := mkDecl (cond_id c) (cond_spec c) in
  mret (map spec linked, map spec (filter (fun c => cond_state c <> cs_true) linked)).

Definition sameSpec (a b : ConditionSpec) : bool :=
  String.eqb (cs_type a) (cs_type b) && String.eqb (cs_subject a) (cs_subject b) && deep_eqb (cs_expected a) (cs_expected b) &&
  bool_decide (cs_requestedAction a = cs_requestedAction b) && bool_decide (cs_owner a = cs_owner b) &&
  bool_decide (cs_reviewAfterMs a = cs_reviewAfterMs b) && bool_decide (cs_progress a = cs_progress b).

(** A declaration that may replace the saved one. *)
Definition compatible (updates : list string) (current c : ConditionDecl) : bool :=
  set_has (cd_id c) updates && String.eqb (cs_type (cd_spec current)) (cs_type (cd_spec c)) &&
  String.eqb (cs_subject (cd_spec current)) (cs_subject (cd_spec c)) &&
  deep_eqb (cs_expected (cd_spec current)) (cs_expected (cd_spec c)).

Definition mergeCondition (updates : list string) (merged : obj ConditionDecl) (c : ConditionDecl) : res (obj ConditionDecl) :=
  match obj_get (cd_id c) merged with
  | Some current =>
      if sameSpec (cd_spec current) (cd_spec c) || compatible updates current c then mret (obj_set (cd_id c) c merged)
      else Throw ("Task result conflicts with existing Condition " +:+ cd_id c)
  | None => mret (obj_set (cd_id c) c merged)
  end.

Fixpoint mergeEach (updates : list string) (merged : obj ConditionDecl) (conditions : list ConditionDecl)
    : res (obj ConditionDecl) :=
  match conditions with
  | [] => mret merged
  | c :: conditions => merged ← mergeCondition updates merged c; mergeEach updates merged conditions
  end.

Definition mergeTaskConditions (conditions : list ConditionDecl) (compatibleUpdateIds : list string)
    : res (list ConditionDecl) :=
  merged ← mergeEach compatibleUpdateIds [] conditions;
  mret (obj_values merged).

End DependencyAdmission.
