(* ===== verification/DependencyLaws.v ===== *)
(** What holds of requests between Apps ([DependencyAdmission]): a request is
    saved once for its Task generation and name, whatever the attempt declares
    later. *)
From S2P Require Import Prelude Json TaskState TaskTree Transaction ResourceStore StoreInvariant StoreCommit Snapshot.
From S2P Require Import Context Approval Conditions Records Time TaskInputs TaskEvents TaskIntent TaskMutation.
From S2P Require Import TaskOutcome TaskAdmission TaskReplay TaskLease OutputPaths TaskClaim TaskContract TaskActions.
From S2P Require Import TaskSettle TaskRelease TaskControl TaskScenario Effects InboxStore ConversationRequests.
From S2P Require Import InboxAdmission EventSelector EventAdmission InboxHost InboxLaws HostLaws DependencyAdmission.

Module DependencyLaws.
Import ResourceStore TaskMutation TaskLease TaskContract.
Import Effects InboxStore InboxAdmission InboxHost InboxLaws HostLaws DependencyAdmission.

(** ** Texts *)

Lemma chars_inj a b : chars a = chars b -> a = b.
Proof. intros H. by rewrite <- (unchars_chars a), H, unchars_chars. Qed.

Lemma length_chars s : length (chars s) = String.length s.
Proof. induction s as [|c s IH]; [done|]. simpl. by f_equal. Qed.

Lemma append_inv_tail a b x y :
  String.length x = String.length y -> a +:+ x = b +:+ y -> x = y.
Proof.
  intros Hl E%(f_equal chars). rewrite !chars_append in E. apply chars_inj. apply app_inj_2 in E as [_ E]; [done|].
  by rewrite !length_chars.
Qed.

Lemma prefix_append p s : startsWith (p +:+ s) p = true.
Proof. rewrite prefix_startsWith, chars_append. apply bool_decide_true. by exists (chars s). Qed.

Lemma substring_length n s : (n <= String.length s)%nat -> String.length (String.substring 0 n s) = n.
Proof. revert s. induction n as [|n IH]; intros [|c s] Hn; simpl in *; [done|done|lia|]. rewrite IH; lia. Qed.

(** ** Keys *)

Section Laws.
Context `{Crypto}.

(** The digest is 64 hexadecimal digits long. *)
Definition hexDigest : Prop := forall text, String.length (sha256 text) = 64%nat.

Lemma identity_length app claim id : hexDigest -> String.length (taskRequestIdentity app claim id) = 24%nat.
Proof. intros Hd. unfold taskRequestIdentity. apply substring_length. rewrite Hd. lia. Qed.

(** Two names with one key have one row. *)
Lemma key_identity app claim a b : hexDigest ->
  requestKeyOf app claim a = requestKeyOf app claim b -> requestIdOf app claim a = requestIdOf app claim b.
Proof.
  intros Hd E. unfold requestIdOf. f_equal. unfold requestKeyOf in E.
  assert (forall x y z w : string, x +:+ y +:+ z +:+ w = (x +:+ y +:+ z) +:+ w) as Hassoc.
  { intros x y z w. apply chars_inj. by rewrite !chars_append, !app_assoc. }
  rewrite !Hassoc in E. eapply append_inv_tail; [|exact E]. by rewrite !identity_length.
Qed.

(** Keys of this form name the rows this code creates. *)
Definition ownKeys (app : string) (claim : AppTaskClaim) (t : inbox) : Prop :=
  forall id row name, t !! id = Some row -> c_idempotency_key (ident row) = Some (requestKeyOf app claim name) ->
    id = requestIdOf app claim name.

(** The rows after a creation: those from before, and the new one. *)
Definition rowsFrom (t : inbox) (id : string) (now : Z) (input : CreateAppInboxItem) (t' : inbox) : Prop :=
  forall i row, t' !! i = Some row ->
    (exists row0, t !! i = Some row0 /\ ident row = ident row0) \/ (i = id /\ ident row = ident (newRow id now input)).

Lemma create_rows t uuid now input :
  keeps (rowsFrom t (default ("app_" +:+ uuid) (cr_id input)) now input) (createAppInboxItem uuid now input).
Proof.
  unfold createAppInboxItem. keeps_walk; apply keeps_updates; intros t' Ht'.
  - unfold insertOrIgnore. destruct (_ || _); [done|]. cbn [snd]. intros i row [[<- <-]|[_ Hr]]%lookup_insert_Some; [by right|by apply Ht'].
  - unfold updateWhere. destruct (t' !! _) as [row0|] eqn:E; [|done]. destruct (bool_decide _); [|done]. cbn [snd].
    intros j row [[<- <-]|[_ Hr]]%lookup_insert_Some; [by apply Ht' in E|by apply Ht'].
Qed.

(** ** Saved requests *)

(** The row of a request, under the identity of its name. *)
Definition savedRequest (app : string) (claim : AppTaskClaim) (r : TaskAppRequest) (t : inbox) : Prop :=
  exists row, t !! requestIdOf app claim (rq_id r) = Some row /\ answers (requestCreate app claim r) row /\
    c_idempotency_key (ident row) = Some (requestKeyOf app claim (rq_id r)).

Lemma savedRequest_kept app claim r t t' : savedRequest app claim r t -> evolves t t' -> savedRequest app claim r t'.
Proof.
  intros (row & Hrow & Hans & Hkey) Hev. destruct (Hev _ _ Hrow) as (row' & Hrow' & Hkeep). exists row'. split_ands; [done| |].
  - by eapply answers_kept.
  - destruct Hkeep as (-> & _). done.
Qed.

Lemma create_request app claim now r t item b t1 :
  hexDigest -> inbox_ok t -> ownKeys app claim t -> json_wf (rq_data r) ->
  createAppInboxItem "" now (requestCreate app claim r) t = (Done (item, b), t1) ->
  inbox_ok t1 /\ evolves t t1 /\ ownKeys app claim t1 /\ savedRequest app claim r t1.
Proof.
  intros Hd Hok Hown Hwf Hrun.
  pose proof (run_keeps _ _ _ _ _ (create_since t "" now (requestCreate app claim r)) Hrun) as [Hok1 Hev]; [by split|].
  assert (ownKeys app claim t1) as Hown1.
  { intros i row name Hrow Hkey. assert (rowsFrom t (requestIdOf app claim (rq_id r)) now (requestCreate app claim r) t1) as Hrows.
    { refine (run_keeps _ _ _ _ _ (create_rows t "" now _) Hrun _). intros j row0 Hr. left. by exists row0. }
    destruct (Hrows i row Hrow) as [(row0 & Hrow0 & Hi)|[-> Hi]].
    - apply (Hown _ _ name Hrow0). by rewrite <- Hi.
    - apply key_identity; [done|]. rewrite Hi in Hkey. apply (inj Some). exact Hkey. }
  destruct (create_saved t "" now (requestCreate app claim r) item b t1 Hok) as (_ & row & Hrow & Hid & Hans); [done|done|done|].
  unfold identified in Hid.
  change (nonempty (cr_idempotencyKey (requestCreate app claim r))) with (Some (requestKeyOf app claim (rq_id r))) in Hid.
  destruct Hid as [Hkey _].
  pose proof (Hown1 _ _ _ Hrow Hkey) as Hit. rewrite Hit in Hrow. split_ands; try done. by exists row.
Qed.

Lemma admitNew_run emit now claim r d p d1 :
  admitNew emit now claim r d = (Done p, d1) ->
  let own := appId (db_store d) in
  db_store d1 = db_store d /\ p = mkPublication (requestIdOf own claim (rq_id r)) r (requestKeyOf own claim (rq_id r)) /\
  exists item b, createAppInboxItem "" now (requestCreate own claim r) (db_inbox d) = (Done (item, b), db_inbox d1).
Proof.
  intros Hrun own. unfold admitNew in Hrun. rewrite bind_reads in Hrun. fold own in Hrun.
  apply bind_run in Hrun as ([item b] & d2 & Hat & Hrun). apply atomic_done in Hat. rewrite asks_bind in Hat.
  destruct (assertAppTaskClaimCurrent _ _); [|done]. unfold onInbox, zoom in Hat.
  destruct (createAppInboxItem _ _ _ _) as [o t1] eqn:Ec. injection Hat as -> <-.
  assert (d1 = set_inbox t1 d /\ p = mkPublication (requestIdOf own claim (rq_id r)) r (requestKeyOf own claim (rq_id r))) as [-> ->].
  { destruct emit as [f|]; [destruct (f _); [|done]|]; by injection Hrun as <- <-. }
  split_ands; [done|done|]. simpl. eauto.
Qed.

Lemma admitAll_saved emit now claim requests d ps d1 :
  hexDigest -> admitAll emit now claim requests d = (Done ps, d1) -> Forall (fun r => json_wf (rq_data r)) requests ->
  let own := appId (db_store d) in
  inbox_ok (db_inbox d) -> ownKeys own claim (db_inbox d) ->
  db_store d1 = db_store d /\ map pb_request ps = requests /\ inbox_ok (db_inbox d1) /\ evolves (db_inbox d) (db_inbox d1) /\
  Forall (fun p => pb_requestId p = requestIdOf own claim (rq_id (pb_request p)) /\
    savedRequest own claim (pb_request p) (db_inbox d1)) ps.
Proof.
  intros Hd. revert d ps. induction requests as [|r requests IH]; intros d ps Hrun Hwf own Hok Hown.
  - injection Hrun as <- <-. split_ands; done.
  - apply Forall_cons in Hwf as [Hr Hwf]. simpl in Hrun. apply bind_run in Hrun as (p & d2 & Hp & Hrun).
    apply bind_run in Hrun as (rest & d3 & Hrest & [= <- <-]).
    destruct (admitNew_run _ _ _ _ _ _ _ Hp) as (Hst & -> & item & b & Hc). fold own in Hc |- *.
    destruct (create_request own claim now r _ _ _ _ Hd Hok Hown Hr Hc) as (Hok2 & Hev2 & Hown2 & Hsaved).
    destruct (IH d2 rest Hrest Hwf) as (Hst3 & Hmap & Hok3 & Hev3 & Hall); [done|by rewrite Hst|]. rewrite Hst in Hall. fold own in Hall.
    split_ands; [congruence|simpl; congruence|done|by etrans|]. constructor; [|done]. split; [done|]. by eapply savedRequest_kept.
Qed.

(** ** Finding a saved request again *)

Lemma rowToItem_key row item : rowToItem row = Ok item -> it_idempotencyKey item = optionalText (c_idempotency_key (ident row)).
Proof.
  unfold rowToItem, requiredText. destruct (nonblank (c_id _)); [|done]. simpl. destruct (nonblank (c_app_id _)); [|done]. simpl.
  destruct (nonblank (src_kind _)); [|done]. simpl. destruct (nonblank (src_id _)); [|done]. simpl.
  destruct (nonblank (inp_kind _)); [|done]. simpl. by intros [= <-].
Qed.

(** The identity depends on the Task and its generation only. *)
Lemma same_identity app claim claim' id :
  clm_taskId claim' = clm_taskId claim -> clm_generation claim' = clm_generation claim ->
  requestIdOf app claim' id = requestIdOf app claim id /\ generationPrefix app claim' = generationPrefix app claim /\
  callerOf app claim' = callerOf app claim.
Proof.
  intros Et Eg. unfold requestIdOf, taskRequestIdentity, generationPrefix, lineagePrefix, callerOf. by rewrite Et, Eg.
Qed.

Lemma matchesRequest_parts item input : matchesRequest item input = true ->
  src_kind (it_source item) = src_kind (cr_source input) /\ src_id (it_source item) = src_id (cr_source input) /\
  (forall c, cr_creator input = Some c -> it_creator item = Some c) /\ it_targetTaskId item = cr_targetTaskId input /\
  sameInput (it_input item) (cr_input input) = true.
Proof.
  unfold matchesRequest. intros Hm. reflect_bools. split_ands; try done.
  intros c Hc. rewrite Hc in *. by reflect_bools.
Qed.

Lemma saved_named claim claim' r d named :
  clm_taskId claim' = clm_taskId claim -> clm_generation claim' = clm_generation claim ->
  inbox_ok (db_inbox d) -> savedRequest (appId (db_store d)) claim r (db_inbox d) ->
  readNamedTaskRequest d claim' (rq_id r) = Ok named ->
  exists item, named = Some item /\ it_id item = requestIdOf (appId (db_store d)) claim (rq_id r).
Proof.
  intros Et Eg Hok (row & Hrow & (item & Hitem & Happ & Hm & _) & Hkey) Hread. set (own := appId (db_store d)) in *.
  destruct (same_identity own claim claim' (rq_id r) Et Eg) as (Eid & Epre & Ecal).
  pose proof (rowToItem_inv _ _ Hitem) as (_ & Hitid & _). rewrite (io_key _ Hok _ _ Hrow) in Hitid.
  unfold readNamedTaskRequest, namedExact in Hread. fold own in Hread. rewrite Eid, Epre, Ecal in Hread.
  assert (getAppInboxItem (db_inbox d) (requestIdOf own claim (rq_id r)) = Ok (Some item)) as Hget
    by (unfold getAppInboxItem; by rewrite Hrow, Hitem).
  rewrite Hget in Hread. cbn [mbind res_bind' mret res_ret' InboxStore.res_bind' InboxStore.res_ret'] in Hread.
  destruct (match nonempty _ with Some _ => _ | None => _ end) as [saved|e]; [|done].
  cbn [mbind res_bind' mret res_ret'] in Hread.
  destruct (matchesRequest_parts _ _ Hm) as (Hk & Hsrc & Hcr & _).
  assert (it_idempotencyKey item = Some (requestKeyOf own claim (rq_id r))) as Hik.
  { by rewrite (rowToItem_key _ _ Hitem), Hkey. }
  rewrite Hik in Hread. unfold createdBy in Hread. cbn [requestCreate cr_source cr_creator src_kind src_id] in Hk, Hsrc, Hcr.
  rewrite Hk, Hsrc, (Hcr _ eq_refl), (bool_decide_true (callerOf own claim = callerOf own claim)), !String.eqb_refl in Hread by done.
  unfold requestKeyOf in Hread at 1. rewrite prefix_append, orb_true_r in Hread.
  injection Hread as <-. eauto.
Qed.

Lemma matchRequest_saved claim claim' existing matched r r' d m :
  clm_taskId claim' = clm_taskId claim -> clm_generation claim' = clm_generation claim ->
  inbox_ok (db_inbox d) -> savedRequest (appId (db_store d)) claim r (db_inbox d) -> rq_id r' = rq_id r ->
  matchRequest d claim' existing matched r' = Ok m ->
  exists c, m = Some c /\ cd_id (ca_condition c) = "app-request:" +:+ requestIdOf (appId (db_store d)) claim (rq_id r).
Proof.
  intros Et Eg Hok Hs Er. unfold matchRequest. rewrite Er.
  destruct (readNamedTaskRequest d claim' (rq_id r)) as [named|] eqn:En; [|done].
  destruct (saved_named _ _ _ _ _ Et Eg Hok Hs En) as (item & -> & Hid). cbn [mbind res_bind'].
  destruct (_ || _ || _); [done|]. intros [= <-]. eexists. split; [done|]. simpl. by rewrite Hid.
Qed.

Lemma matchRequests_saved claim claim' existing r d requests : forall matched matches matched',
  clm_taskId claim' = clm_taskId claim -> clm_generation claim' = clm_generation claim ->
  inbox_ok (db_inbox d) -> savedRequest (appId (db_store d)) claim r (db_inbox d) ->
  matchRequests d claim' existing matched requests = Ok (matches, matched') ->
  Forall (fun e => rq_id e.1 = rq_id r -> exists c, e.2 = Some c /\
    cd_id (ca_condition c) = "app-request:" +:+ requestIdOf (appId (db_store d)) claim (rq_id r)) matches.
Proof.
  induction requests as [|r' requests IH]; intros matched matches matched' Et Eg Hok Hs Hrun; simpl in Hrun.
  - injection Hrun as <- <-. constructor.
  - destruct (matchRequest d claim' existing matched r') as [m|] eqn:Em; [|done]. cbn [mbind res_bind'] in Hrun.
    destruct (matchRequests d claim' existing _ requests) as [[rest matched1]|] eqn:Er; [|done]. cbn [mbind res_bind'] in Hrun.
    injection Hrun as <- <-. constructor; [|by eapply IH]. intros Hid. by eapply matchRequest_saved.
Qed.

Lemma matched_requests d claim existing matched requests matches matched' :
  matchRequests d claim existing matched requests = Ok (matches, matched') -> forall e, e ∈ matches -> e.1 ∈ requests.
Proof.
  revert matched matches matched'. induction requests as [|r requests IH]; intros matched matches matched' Hrun e He; simpl in Hrun.
  - injection Hrun as <- <-. by apply not_elem_of_nil in He.
  - destruct (matchRequest d claim existing matched r) as [m|] eqn:Em; [|done]. cbn [mbind res_bind'] in Hrun.
    destruct (matchRequests d claim existing _ requests) as [[rest matched1]|] eqn:Er; [|done]. cbn [mbind res_bind'] in Hrun.
    injection Hrun as <- <-. apply elem_of_cons in He as [->|He]; [by left|right; by eapply IH].
Qed.

Lemma admitAll_requests emit now claim requests d ps d1 :
  admitAll emit now claim requests d = (Done ps, d1) -> map pb_request ps = requests.
Proof.
  revert d ps. induction requests as [|r requests IH]; intros d ps Hrun; [by injection Hrun as <- <-|].
  simpl in Hrun. apply bind_run in Hrun as (p & d2 & Hp & Hrun). apply bind_run in Hrun as (rest & d3 & Hrest & [= <- <-]).
  destruct (admitNew_run _ _ _ _ _ _ _ Hp) as (_ & -> & _). simpl. f_equal. by eapply IH.
Qed.

Lemma newRequests_spec matches r : r ∈ newRequests matches -> (r, None) ∈ matches.
Proof. unfold newRequests. intros ([r' [c|]] & Hin & [= ->])%list_elem_of_omap. done. Qed.

(** What a run that returned did, step by step. *)
Lemma admit_run registry emit now claim requests existing d conds pubs d1 :
  admitTaskAppRequests registry emit now claim requests existing d = (Done (conds, pubs), d1) ->
  let own := appId (db_store d) in
  exists candidates matches matched ps,
    matchRequests d claim candidates [] requests = Ok (matches, matched) /\
    admitAll emit now claim (newRequests matches) d = (Done ps, d1) /\
    conds = map (fun e => (rq_id e.1, withOwner e.1 (match e.2 with
                | Some c => ca_condition c
                | None => completionOf (requestIdOf own claim (rq_id e.1)) (rq_appId e.1) end))) matches /\
    (pubs = [] \/ pubs = ps) /\ (emit = None -> pubs = ps).
Proof.
  intros Hrun own. unfold admitTaskAppRequests in Hrun. rewrite checks_bind in Hrun.
  destruct (checkRequests _ _ _); [|done]. rewrite asks_bind in Hrun. destruct (existingCandidates d existing) as [cs|]; [|done].
  rewrite asks_bind in Hrun. destruct (matchRequests d claim cs [] requests) as [[matches matched]|] eqn:Em; [|done].
  exists cs, matches, matched. apply bind_run in Hrun as ([] & d2 & H2 & Hrun).
  assert (d2 = d) as -> by (destruct (newRequests matches), (unresolvedExisting cs matched); (done || by injection H2 as ->)).
  rewrite checks_bind in Hrun. destruct (checkDistinct _ _); [|done]. apply bind_run in Hrun as ([] & d3 & H3 & Hrun).
  assert (d3 = d) as -> by (destruct (newRequests matches); unfold asks in H3; by injection H3).
  rewrite bind_reads in Hrun. apply bind_run in Hrun as (ps & d4 & Hps & [= <- <- <-]). exists ps.
  split_ands; try done; destruct emit; auto. done.
Qed.

End Laws.

(** ** Properties *)

(** C30.  A request to another App is submitted once.  When an attempt's request
    was admitted, its row is in the inbox with the App, the target and the input
    that were asked for.  At any later time, whatever happened to the inbox, an
    attempt of the same Task generation that names the request again - with
    whatever other requests and Conditions - submits nothing for that name: the
    call throws, or it returns the Condition of the same row. *)
Theorem task_request_submitted_once `{Crypto} registry now claim requests existing d conds pubs d1 p
    registry' emit' now' claim' requests' existing' d2 conds' pubs' d3
    (Hdigest : hexDigest)
    (Hok : inbox_ok (db_inbox d))
    (Hkeys : ownKeys (appId (db_store d)) claim (db_inbox d))
    (Hdata : Forall (fun r => json_wf (rq_data r)) requests)
    (Hrun : admitTaskAppRequests registry None now claim requests existing d = (Done (conds, pubs), d1))
    (Hp : p ∈ pubs)
    (Hlater : inbox_since (db_inbox d1) (db_inbox d2))
    (Happ : appId (db_store d2) = appId (db_store d))
    (Htask : clm_taskId claim' = clm_taskId claim)
    (Hgeneration : clm_generation claim' = clm_generation claim)
    (Hagain : admitTaskAppRequests registry' emit' now' claim' requests' existing' d2 = (Done (conds', pubs'), d3)) :
  (exists row item, db_inbox d1 !! pb_requestId p = Some row /\ rowToItem row = Ok item /\
     it_appId item = rq_appId (pb_request p) /\ it_targetTaskId item = rq_taskId (pb_request p) /\
     sameInput (it_input item) (requestInput (pb_request p)) = true) /\
  (forall p', p' ∈ pubs' -> rq_id (pb_request p') <> rq_id (pb_request p)) /\
  (forall c, (rq_id (pb_request p), c) ∈ conds' -> cd_id c = "app-request:" +:+ pb_requestId p).
Proof.
  destruct (admit_run _ _ _ _ _ _ _ _ _ _ Hrun) as (cs & matches & matched & ps & Hm & Hall & _ & _ & Hpubs).
  rewrite Hpubs in Hp by done. assert (Forall (fun r => json_wf (rq_data r)) (newRequests matches)) as Hwf.
  { rewrite Forall_forall in Hdata |- *. intros r Hr. apply Hdata. apply newRequests_spec in Hr.
    by apply (matched_requests _ _ _ _ _ _ _ Hm (r, None)). }
  destruct (admitAll_saved None now claim _ d ps d1 Hdigest Hall Hwf Hok Hkeys) as (_ & _ & _ & _ & Hsaved).
  rewrite Forall_forall in Hsaved. destruct (Hsaved p Hp) as [Hid Hs]. destruct Hlater as [Hok2 Hev].
  pose proof (savedRequest_kept _ _ _ _ _ Hs Hev) as Hs2. rewrite <- Happ in Hs2, Hid.
  destruct (admit_run _ _ _ _ _ _ _ _ _ _ Hagain) as (cs' & matches' & matched' & ps' & Hm' & Hall' & -> & Hpubs' & _).
  pose proof (matchRequests_saved claim claim' cs' _ d2 _ _ _ _ Htask Hgeneration Hok2 Hs2 Hm') as Hreuse.
  rewrite Forall_forall in Hreuse. split_ands.
  - destruct Hs as (row & Hrow & (item & Hitem & Ha & Hmr & _) & _). rewrite Happ in Hid. rewrite <- Hid in Hrow.
    destruct (matchesRequest_parts _ _ Hmr) as (_ & _ & _ & Ht & Hi). exists row, item. done.
  - intros p' Hp' E. assert (p' ∈ ps') as Hin by (destruct Hpubs' as [->| ->]; [by apply not_elem_of_nil in Hp'|done]).
    assert (pb_request p' ∈ newRequests matches') as Hn.
    { rewrite <- (admitAll_requests _ _ _ _ _ _ _ Hall'). apply list_elem_of_fmap. eauto. }
    apply newRequests_spec in Hn. destruct (Hreuse _ Hn E) as (c & Hc & _). done.
  - intros c (e & [= E1 ->] & He)%list_elem_of_fmap. destruct (Hreuse e He (eq_sym E1)) as (x & -> & Hx). simpl. by rewrite Hx, Hid.
Qed.

(** A digest of 64 characters. *)
Definition padding : string := "0000000000000000000000000000000000000000000000000000000000000000".
Definition padded_digest : Crypto := fun text => String.substring 0 64 (text +:+ padding).

Lemma padded_digest_hex : @hexDigest padded_digest.
Proof.
  intros text. apply substring_length. rewrite <- length_chars, chars_append, length_app, !length_chars.
  change (String.length padding) with 64%nat. lia.
Qed.

Definition design_request : TaskAppRequest := TaskContract.mkRequest "design" "studio" None "message" (JStr "a logo").
Definition asking_db : Db := mkDb TaskScenario.claimed_app ∅ ∅ ∅ ∅ ∅ ∅ [].
Definition asked : out (list (string * ConditionDecl) * list Publication) * Db :=
  admitTaskAppRequests (H := padded_digest) None None TaskScenario.start TaskScenario.sample_claim [design_request] [] asking_db.
Definition design_published : Publication :=
  mkPublication (requestIdOf (H := padded_digest) (appId TaskScenario.claimed_app) TaskScenario.sample_claim "design") design_request
    (requestKeyOf (H := padded_digest) (appId TaskScenario.claimed_app) TaskScenario.sample_claim "design").
Definition asked_again : out (list (string * ConditionDecl) * list Publication) * Db :=
  admitTaskAppRequests (H := padded_digest) None None (TaskScenario.start + 5) TaskScenario.sample_claim [design_request] [] asked.2.

Lemma asked_since : inbox_since (db_inbox asking_db) (db_inbox asked.2).
Proof.
  destruct asked as [o d1] eqn:E. destruct o as [[conds pubs]|]; [|vm_compute in E; discriminate E].
  destruct (admit_run (H := padded_digest) _ _ _ _ _ _ _ _ _ _ E) as (cs & matches & matched & ps & Hm & Hall & _).
  assert (Forall (fun r => json_wf (rq_data r)) (newRequests matches)) as Hwf.
  { apply Forall_forall. intros r Hr%newRequests_spec. pose proof (matched_requests (H := padded_digest) _ _ _ _ _ _ _ Hm _ Hr) as Hin.
    cbn [fst] in Hin. apply list_elem_of_singleton in Hin as ->. exact I. }
  destruct (admitAll_saved (H := padded_digest) None _ _ _ asking_db ps d1 padded_digest_hex Hall Hwf empty_inbox_ok)
    as (_ & _ & Hok & Hev & _); [|by split].
  intros id row name Hrow. discriminate Hrow.
Qed.

Lemma task_request_submitted_once_witness :
  exists conds', asked_again.1 = Done (conds', []) /\
    forall c, ("design", c) ∈ conds' -> cd_id c = "app-request:" +:+ pb_requestId design_published.
Proof.
  destruct (asked.1) as [[conds pubs]|] eqn:E1; [|vm_compute in E1; discriminate E1].
  destruct (asked_again.1) as [[conds' pubs']|] eqn:E2; [|vm_compute in E2; discriminate E2].
  destruct (task_request_submitted_once (H := padded_digest) None TaskScenario.start TaskScenario.sample_claim [design_request] []
    asking_db conds pubs asked.2 design_published None None (TaskScenario.start + 5) TaskScenario.sample_claim [design_request] []
    asked.2 conds' pubs' asked_again.2) as (_ & _ & Hc).
  - exact padded_digest_hex.
  - exact empty_inbox_ok.
  - intros id row name Hrow. discriminate Hrow.
  - repeat constructor.
  - rewrite <- E1. apply surjective_pairing.
  - vm_compute in E1. injection E1 as <- <-. vm_compute. left.
  - split; [apply asked_since|apply (reflexivity (R := evolves))].
  - vm_compute. reflexivity.
  - reflexivity.
  - reflexivity.
  - rewrite <- E2. apply surjective_pairing.
  - exists conds'. split; [|exact Hc]. vm_compute in E2. by injection E2 as <- <-.
Defined.

End DependencyLaws.
