(* ===== verification/TaskCommunication.v ===== *)
(** Communication of a running attempt
    ([src/app/core/tasks/task-communication.ts], [readTaskInputs] of
    [src/app/core/tasks/app-task-inputs.ts]): messages, Request updates and
    Topic decisions through the reply context of an input the Task accepted.

    The published facts are behind the interface [AppTaskEvents], as in the
    source: the saved journal, or the facts a preview proposes.  [W] is the state
    the interface runs on, of which the database is a part. *)
From S2P Require Import Prelude Json TaskState TaskTree Transaction ResourceStore StoreInvariant StoreCommit Snapshot.
From S2P Require Import Context Approval Conditions Records Time TaskInputs TaskEvents TaskIntent TaskMutation.
From S2P Require Import TaskOutcome TaskAdmission TaskLease TaskContract Effects InboxStore ConversationRequests.
From S2P Require Import ConversationTopics InboxAdmission.

Module TaskCommunication.
Import ResourceStore TaskInputs TaskEvents TaskMutation TaskLease TaskContract.
Import Effects ConversationRequests ConversationTopics InboxStore InboxAdmission.

#[local] Instance res_bind' : MBind res := fun A B f x => match x with Ok a => f a | Throw e => Throw e end.
#[local] Instance res_ret' : MRet res := @Ok.

(** ** Data *)

Inductive TopicDecision : Type := t_none | t_new (title : string) | t_existing (id : string).

(** A change, with the JSON text it is compared by. *)
Record TaskCommunication : Type := mkCommunication {
  tc_json : json;
  tc_id : string;
  tc_inputId : string;
  tc_message : option string;
  tc_replyId : option string;
  tc_requestUpdates : option (list AppConversationRequestUpdate);
  tc_topic : option TopicDecision }.

(** Fields of a value the schema has accepted. *)
Definition textOf (v : option json) : string := match v with Some (JStr s) => s | _ => "" end.
Definition optionalTextOf (v : option json) : option string := match v with Some (JStr s) => Some s | _ => None end.
Definition itemsOf (v : option json) : option (list json) := match v with Some (JArr l) => Some l | _ => None end.
Definition integerOf (v : option json) : Z := match v with Some (JNum n) => number_to_Z n | _ => 0 end.

Definition dispositionOf (v : option json) : option Disposition :=
  if str_is v "fulfilled" then Some fulfilled
  else if str_is v "withdrawn" then Some withdrawn
  else if str_is v "unfulfilled" then Some unfulfilled
  else None.

Definition refOf (v : json) : TaskRef := mkTaskRef (textOf (prop v "appId")) (textOf (prop v "taskId")).

Definition updateOf (v : json) : AppConversationRequestUpdate :=
  mkUpdate (textOf (prop v "id")) (integerOf (prop v "expectedRevision"))
    (map (fun i => textOf (Some i)) <$> itemsOf (prop v "inputIds")) (optionalTextOf (prop v "scope"))
    (dispositionOf (prop v "disposition")) (optionalTextOf (prop v "reason"))
    (map refOf <$> itemsOf (prop v "taskRefs")).

Definition topicOf (v : option json) : option TopicDecision :=
  match v with
  | Some t =>
      if str_is (prop t "kind") "none" then Some t_none
      else if str_is (prop t "kind") "new" then Some (t_new (textOf (prop t "title")))
      else if str_is (prop t "kind") "existing" then Some (t_existing (textOf (prop t "id")))
      else None
  | None => None
  end.

Definition communicationOf (v : json) : TaskCommunication :=
  mkCommunication v (textOf (prop v "id")) (textOf (prop v "inputId")) (optionalTextOf (prop v "message"))
    (optionalTextOf (prop v "replyId")) (map updateOf <$> itemsOf (prop v "requestUpdates")) (topicOf (prop v "topic")).

Definition dispositionName (d : Disposition) : string :=
  match d with fulfilled => "fulfilled" | withdrawn => "withdrawn" | unfulfilled => "unfulfilled" end.

Definition refJson (r : TaskRef) : json := JObj [("appId", JStr (ref_appId r)); ("taskId", JStr (ref_taskId r))].

Definition requestJson (r : AppConversationRequest) : json :=
  JObj ([("id", JStr (req_id r)); ("revision", JNum (num (req_revision r))); ("scope", JStr (req_scope r));
         ("status", JStr (if req_closed r then "closed" else "open"))] ++
        match req_topicId r with Some t => [("topicId", JStr t)] | None => [] end ++
        [("taskRefs", JArr (map refJson (req_taskRefs r)))] ++
        match req_closure r with
        | Some c => [("closure", JObj [("disposition", JStr (dispositionName (cl_disposition c)));
                                       ("reason", JStr (cl_reason c)); ("messageId", JStr (cl_messageId c))])]
        | None => []
        end).

(** ** Published facts *)

Record AppTaskEmission : Type := mkEmission {
  em_type : string;
  em_data : obj json;
  em_target : option (obj json) }.

Record AppTaskEvents (W : Type) : Type := mkTaskEvents {
  te_read : string -> string -> W -> res (option (obj json));
  te_publish : string -> AppTaskEmission -> E W Z }.
Arguments mkTaskEvents {W} _ _.
Arguments te_read {W} _ _ _ _.
Arguments te_publish {W} _ _ _.

(** ** Authority of an input *)

Definition requestOf (a : AppTaskAdmission) : option json :=
  match adm_inputEvent a with
  | Some e => record_field (obj_get "data" e) "request"
  | None => None
  end.

Definition sameValue (v : option json) (w : json) : bool := match v with Some v => deep_eqb v w | None => false end.

Definition acceptedBy (own : string) (claim : AppTaskClaim) (item : AppInboxItem) (a : AppTaskAdmission) : bool :=
  bool_decide (is_Some (it_conversationId item)) && String.eqb (it_appId item) own &&
  String.eqb (adm_taskId a) (clm_taskId claim) && (adm_taskGeneration a <=? clm_generation claim) &&
  str_is (record_field (requestOf a) "id") (it_id item) &&
  sameValue (record_field (requestOf a) "source") (sourceJson (it_source item)) &&
  sameValue (record_field (requestOf a) "input") (inputJson (it_input item)).

Definition noContext : string := "Communication requires an input accepted by this Task with saved reply context".

Definition readTaskCommunicationInput (d : Db) (claim : AppTaskClaim) (inputId : string) : res AppInboxItem :=
  item ← getAppInboxItem (db_inbox d) inputId;
  match item with
  | None => Throw noContext
  | Some item =>
      admission ← match it_taskAdmissionKey item with
                  | Some key => found ← readAdmissions (db_store d) [key]; mret (obj_get key found)
                  | None => mret None
                  end;
      match admission with
      | Some a => if acceptedBy (appId (db_store d)) claim item a then mret item else Throw noContext
      | None => Throw noContext
      end
  end.

(** ** The Task of a Request *)

(** [LIKE]: ['%'] is any text, ['_'] any character, letters without case. *)
Fixpoint like (pattern : list ascii) : list ascii -> bool :=
  match pattern with
  | [] => fun text => match text with [] => true | _ => false end
  | c :: pattern =>
      if Ascii.eqb c "%"%char then
        fix any (text : list ascii) : bool :=
          like pattern text || match text with [] => false | _ :: text => any text end
      else fun text =>
        match text with
        | [] => false
        | x :: text => (Ascii.eqb c "_"%char || String.eqb (sqlLower (unchars [c])) (sqlLower (unchars [x]))) && like pattern text
        end
  end.

Definition updatedBy (attemptId : string) (row : RequestRow) : bool :=
  String.eqb (rq_update_key row) ("attempt:" +:+ attemptId) ||
  like (chars ("request:" +:+ attemptId +:+ ":%")) (chars (rq_update_key row)).

(** The Task whose attempt last saved the Request. *)
Definition requestOwner (d : Db) (row : RequestRow) : option string :=
  head (omap (fun e => if updatedBy e.1 row then Some (ar_task_id e.2) else None)
    (map_to_list (ResourceStore.attempts (db_store d)))).

(** The saved inputs a Request was accepted from. *)
Definition linkedInputs (d : Db) (appId conversationId requestId : string) : list string :=
  omap (fun l => let '(a, c, i, r) := l in
    if String.eqb a appId && String.eqb c conversationId && String.eqb r requestId && bool_decide (is_Some (db_inbox d !! i))
    then Some i else None) (elements (db_requestInputs d)).

Fixpoint readInputs (d : Db) (claim : AppTaskClaim) (ids : list string) : res (list AppInboxItem) :=
  match ids with
  | [] => mret []
  | id :: ids => item ← readTaskCommunicationInput d claim id; rest ← readInputs d claim ids; mret (item :: rest)
  end.

(** The inputs an update names are accepted and of this Conversation. *)
Fixpoint checkOrigins (d : Db) (claim : AppTaskClaim) (conversationId : string) (ids : list string) : res unit :=
  match ids with
  | [] => mret tt
  | id :: ids =>
      origin ← readTaskCommunicationInput d claim id;
      if bool_decide (it_conversationId origin = Some conversationId) then checkOrigins d claim conversationId ids
      else Throw "Request inputs must belong to the same Conversation"
  end.

(** ** Applying communication *)

Section Communication.
Context `{Crypto} (now : Z) (claim : AppTaskClaim).
Context {W : Type} (getDb : W -> Db) (setDb : Db -> W -> W) (events : AppTaskEvents W).

Definition onDb {A} (m : E Db A) : E W A := zoom getDb setDb m.

Definition localKey (id : string) : string := "communication:" +:+ id.

Definition communicationIdentity (app : string) (id : string) : string :=
  sha256 (JSON_stringify (JArr [JStr app; JStr (clm_taskId claim); JNum (num (clm_generation claim)); JStr id])).

(** The fact an earlier call published under this name. *)
Definition savedFact (id : string) (w : W) : res (option (obj json)) :=
  updated ← te_read events "app.task.communication.updated" (localKey id) w;
  match updated with
  | Some data => mret (Some data)
  | None => te_read events "conversation.message.created" (localKey id) w
  end.

(** The receipt of an earlier call with the same content. *)
Definition savedReceipt (change : TaskCommunication) (data : obj json) : res json :=
  if negb (sameValue (obj_get "communication" data) (tc_json change)) then
    Throw "Communication id was reused for different content"
  else match obj_get "receipt" data with
       | Some r => if str_is (prop r "id") (tc_id change) then mret r
                   else Throw "Saved communication receipt is unavailable"
       | None => Throw "Saved communication receipt is unavailable"
       end.

(** The Topic the change decides on. *)
Definition decideTopic (change : TaskCommunication) (item : AppInboxItem) (conversationId : string) : E Db (option string) :=
  current ← asks (fun d => readConversationInputTopicId (db_inbox d) (db_topics d) (db_selections d) (db_events d) item);
  topicId ← match tc_topic change with
            | None => mret current
            | Some t_none => mret None
            | Some (t_existing id) =>
                topic ← asks (fun d => readConversationTopic (db_topics d) (it_appId item) conversationId id);
                if bool_decide (topic = None) then throw "Topic does not belong to this Conversation" else mret (Some id)
            | Some (t_new title) =>
                let id := "task-topic:" +:+ communicationIdentity (it_appId item) (tc_id change) in
                _ ← zoom db_topics set_topics (createConversationTopic now
                      (mkCreateTopic id (it_appId item) conversationId title "agent" (src_id (it_source item))));
                mret (Some id)
            end;
  _ ← match tc_topic change with
      | Some _ => writes (fun d => set_selections
                    (<[(it_appId item, conversationId, it_id item) := (topicId, now)]> (db_selections d)) d)
      | None => mret tt
      end;
  mret topicId.

(** The message that explains the change: a new one, or one published before. *)
Definition decideMessage (change : TaskCommunication) (item : AppInboxItem) (conversationId : string) : E W (option string) :=
  match nonempty (tc_replyId change) with
  | None => mret (match nonempty (tc_message change) with
                  | Some _ => Some ("task-message:" +:+ communicationIdentity (it_appId item) (tc_id change))
                  | None => None
                  end)
  | Some replyId =>
      prior ← asks (te_read events "conversation.message.created" (localKey replyId));
      match prior with
      | Some data =>
          match record_field (obj_get "communication" data) "inputId", obj_get "messageId" data with
          | Some (JStr inputId), Some (JStr messageId) =>
              if str_is (obj_get "conversationId" data) conversationId then
                _ ← asks (fun w => readTaskCommunicationInput (getDb w) claim inputId);
                mret (Some messageId)
              else throw "replyId must name a published explanation in this Conversation from this Task generation"
          | _, _ => throw "replyId must name a published explanation in this Conversation from this Task generation"
          end
      | None => throw "replyId must name a published explanation in this Conversation from this Task generation"
      end
  end.

(** One Request update: the Task accepted every input the Request came from. *)
Definition updateRequest (item : AppInboxItem) (conversationId : string) (topicId messageId : option string)
    (identity : string) (update : AppConversationRequestUpdate) : E Db unit :=
  let app := it_appId item in
  linked ← reads (fun d => linkedInputs d app conversationId (up_id update));
  row ← reads (fun d => db_requests d !! (app, conversationId, up_id update));
  _ ← match linked, row with
      | [], Some row =>
          owner ← reads (fun d => requestOwner d row);
          if bool_decide (owner = Some (clm_taskId claim)) then mret tt
          else throw "Request has no saved acceptance relationship to this Task"
      | _, _ => mret tt
      end;
  _ ← asks (fun d => readInputs d claim linked);
  let ids := default [it_id item] (up_inputIds update) in
  _ ← asks (fun d => checkOrigins d claim conversationId ids);
  selected ← reads (fun d => hasConversationInputTopicSelection (db_selections d) item);
  box ← reads db_inbox;
  _ ← onRequests (applyConversationRequestUpdates box
        (mkUpdates app conversationId topicId selected [update] ("communication:" +:+ identity) messageId
           (Some (mkCreator app (Some (clm_taskId claim))))) now);
  links ← asks (fun d => linkConversationRequestInputs (db_requests d) app conversationId (up_id update) ids (db_requestInputs d));
  writes (set_requestInputs links).

(** The answer of a successful change. *)
Definition receiptOf (d : Db) (change : TaskCommunication) (item : AppInboxItem) (conversationId : string)
    (messageId : option string) : json :=
  JObj ([("id", JStr (tc_id change))] ++
        match nonempty messageId with Some m => [("messageId", JStr m)] | None => [] end ++
        match default [] (tc_requestUpdates change) with
        | [] => []
        | us => [("requests", JArr (map (fun u =>
                   match readConversationRequest (db_requests d) (it_appId item) conversationId (up_id u) with
                   | Some r => requestJson r
                   | None => JNull
                   end) us))]
        end).

Definition optionalField (k : string) (v : option string) : obj json :=
  match nonempty v with Some s => [(k, JStr s)] | None => [] end.

Definition updatedEmission (change : TaskCommunication) (item : AppInboxItem) (conversationId : string)
    (messageId : option string) (receipt : json) : AppTaskEmission :=
  mkEmission "app.task.communication.updated"
    ([("appId", JStr (it_appId item)); ("conversationId", JStr conversationId); ("communication", tc_json change);
      ("receipt", receipt)] ++ optionalField "messageId" messageId)
    (Some [("appId", JStr (it_appId item))]).

Definition messageEmission (change : TaskCommunication) (item : AppInboxItem) (conversationId : string)
    (topicId messageId : option string) (text : string) : AppTaskEmission :=
  mkEmission "conversation.message.created"
    [("appId", JStr (it_appId item)); ("conversationId", JStr conversationId);
     ("communication", JObj [("id", JStr (tc_id change)); ("inputId", JStr (tc_inputId change))]);
     ("messageId", JStr (default "" messageId));
     ("author", JObj [("kind", JStr "agent"); ("id", JStr (clm_agent claim))]);
     ("text", JStr text); ("replyTo", JStr (src_id (it_source item)));
     ("metadata", JObj ([("requestId", JStr (it_id item)); ("communicationId", JStr (tc_id change));
        ("taskRefs", JArr [refJson (mkTaskRef (it_appId item) (clm_taskId claim))])] ++
        optionalField "topicId" topicId ++ optionalField "channel" (it_channel item) ++
        optionalField "channelTargetId" (it_channelTargetId item) ++
        optionalField "channelThreadId" (it_channelThreadId item) ++
        match it_channelMessageId item with
        | Some n => if n =? 0 then [] else [("channelMessageId", JNum (num n))]
        | None => []
        end))]
    (Some [("appId", JStr (it_appId item))]).

(** A change that was not applied before. *)
Definition applyNew (change : TaskCommunication) (item : AppInboxItem) (conversationId : string) : E W json :=
  topicId ← onDb (decideTopic change item conversationId);
  messageId ← decideMessage change item conversationId;
  let identity := communicationIdentity (it_appId item) (tc_id change) in
  _ ← onDb (for_each (updateRequest item conversationId topicId messageId identity) (default [] (tc_requestUpdates change)));
  _ ← match tc_topic change with
      | Some _ => onDb (onInbox (writes (fun t => (updateWhere (it_id item) (fun _ => true) (set_topic_id topicId) t).2)))
      | None => mret tt
      end;
  receipt ← reads (fun w => receiptOf (getDb w) change item conversationId messageId);
  _ ← te_publish events (localKey (tc_id change)) (updatedEmission change item conversationId messageId receipt);
  _ ← match nonempty (tc_message change) with
      | Some text => _ ← te_publish events (localKey (tc_id change))
                           (messageEmission change item conversationId topicId messageId text); mret tt
      | None => mret tt
      end;
  mret receipt.

Definition applyChange (change : TaskCommunication) : E W json :=
  item ← asks (fun w => readTaskCommunicationInput (getDb w) claim (tc_inputId change));
  if bool_decide (is_Some (nonempty (tc_message change))) && bool_decide (is_Some (nonempty (tc_replyId change))) then
    throw "Publish a message or cite replyId, not both"
  else if bool_decide (nonempty (tc_message change) = None) && bool_decide (tc_topic change = None) &&
          Nat.eqb (length (default [] (tc_requestUpdates change))) 0 then
    throw "Communication requires a message, Request update or Topic decision"
  else
  saved ← asks (savedFact (tc_id change));
  match saved with
  | Some data => checks (savedReceipt change data)
  | None => applyNew change item (default "" (it_conversationId item))
  end.

Fixpoint applyTaskCommunication (changes : list TaskCommunication) : E W (list json) :=
  match changes with
  | [] => mret []
  | change :: changes => receipt ← applyChange change; rest ← applyTaskCommunication changes; mret (receipt :: rest)
  end.

End Communication.

(** ** Preview *)

Section Preview.
Context `{Crypto} `{SchemaChecker} (now : Z) (claim : AppTaskClaim) (events : AppTaskEvents Db).

(** The facts of a preview: those it proposes, by type and key, before the saved ones. *)
Abbreviation Proposal := (Db * gmap (string * string) (obj json))%type.

Definition previewEvents : AppTaskEvents Proposal :=
  mkTaskEvents
    (fun type key w => match w.2 !! (type, key) with
                       | Some data => Ok (Some data)
                       | None => te_read events type key w.1
                       end)
    (fun key e => _ ← writes (fun w : Proposal => (w.1, <[(em_type e, key) := em_data e]> w.2)); mret 0).

Definition previewRun (changes : list TaskCommunication) : E Proposal (list json) :=
  _ ← asks (fun w : Proposal => assertAppTaskClaimCurrent (db_store w.1) claim);
  applyTaskCommunication now claim fst (fun d w => (d, w.2)) previewEvents changes.

(** [None]: the changes would be accepted.  The savepoint of the run is always
    rolled back: nothing of it is in the result. *)
Definition validateTaskCommunication (changes : list json) (d : Db) : option string :=
  match admitTaskChanges (JObj [("communication", JArr changes)]) with
  | Throw e => Some e
  | Ok _ =>
      match (previewRun (map communicationOf changes) (d, ∅)).1 with
      | Done _ => None
      | Raise _ e => Some e
      end
  end.

End Preview.

(** ** Settlement *)

(** Inputs the Conversation's own Task answered with this attempt are done. *)
Definition settleTaskCommunicationInputs (now : Z) (claim : AppTaskClaim) : E Db unit :=
  writes (fun d =>
    let covered (key : string) := match admissions (db_store d) !! key with
      | Some a => String.eqb (adm_taskId a) (clm_taskId claim) &&
                  bool_decide (adm_resultAttemptId a = Some (clm_attemptId claim))
      | None => false
      end in
    set_inbox ((fun row =>
      if String.eqb (c_app_id (ident row)) (appId (db_store d)) &&
         columnIs (c_execution_task_id (state row)) (clm_taskId claim) &&
         negb (bool_decide (c_status (state row) = i_done)) && bool_decide (c_lease_owner (state row) = None) &&
         match c_task_admission_key (state row) with Some key => covered key | None => false end
      then mkRow (ident row) (state row |> set_status i_done |> set_completed_at (Some now)
                                |> set_changed_at (Some now) |> set_updated_at now)
      else row) <$> db_inbox d) d).

(** ** Inputs of a claim *)

Record InputCommunication : Type := mkInputCommunication {
  ic_conversationId : string;
  ic_replyTo : string;
  ic_topicId : option string;
  ic_inReplyTo : option string;
  ic_requestIds : list string }.

(** [original] is the request as it was admitted. *)
Record TaskInput : Type := mkTaskInput {
  tin_original : json;
  tin_key : string;
  tin_communication : option InputCommunication }.

Definition notAdmitted : string := "Task input does not belong to this Task admission".

(** The Task that owns a saved input. *)
Definition executingTask (item : AppInboxItem) : option string :=
  match it_executionTaskId item with Some t => Some t | None => taskWait item end.

Definition readTaskInput (d : Db) (taskId : string) (generation : Z) (found : obj AppTaskAdmission) (key : string)
    : res TaskInput :=
  match obj_get key found with
  | None => Throw notAdmitted
  | Some a =>
      if negb (String.eqb (adm_taskId a) taskId) || (generation <? adm_taskGeneration a) || negb (truthy (requestOf a))
      then Throw notAdmitted
      else
        let original := default JNull (requestOf a) in
        item ← (if startsWith key "conversation-follow-up:" then mret None
                else getAppInboxItem (db_inbox d) (textOf (prop original "id")));
        match item with
        | None => mret (mkTaskInput original key None)
        | Some item =>
            if negb (String.eqb (it_appId item) (appId (db_store d))) ||
               negb (bool_decide (it_taskAdmissionKey item = Some key)) ||
               negb (bool_decide (executingTask item = Some taskId)) ||
               negb (sameValue (prop original "source") (sourceJson (it_source item))) ||
               negb (sameValue (prop original "input") (inputJson (it_input item)))
            then Throw "Task input does not match its saved communication or return context"
            else match it_conversationId item with
                 | None => mret (mkTaskInput original key None)
                 | Some conversationId =>
                     topicId ← readConversationInputTopicId (db_inbox d) (db_topics d) (db_selections d) (db_events d) item;
                     mret (mkTaskInput original key (Some (mkInputCommunication conversationId (src_id (it_source item)) topicId
                       (it_replyToSourceId item)
                       (map (fun r => req_id r.1) (listConversationInputRequests (db_requests d) (db_requestInputs d)
                          (it_appId item) conversationId [it_id item])))))
                 end
        end
  end.

Fixpoint readEachInput (d : Db) (taskId : string) (generation : Z) (found : obj AppTaskAdmission) (keys : list string)
    : res (list TaskInput) :=
  match keys with
  | [] => mret []
  | key :: keys =>
      input ← readTaskInput d taskId generation found key;
      rest ← readEachInput d taskId generation found keys;
      mret (input :: rest)
  end.

Definition readTaskInputs (d : Db) (taskId : string) (generation : Z) (events : list AppTaskTriggerEvent)
    (continuedInputKeys : list string) : res (list TaskInput) :=
  let keys := taskInputAdmissionKeys events continuedInputKeys in
  found ← readAdmissions (db_store d) keys;
  readEachInput d taskId generation found keys.

(** ** The response of a result *)

Definition fromHuman (i : TaskInput) : bool := str_is (record_field (prop (tin_original i) "source") "kind") "human".

Definition conversationOf (i : TaskInput) : string := default "" (ic_conversationId <$> tin_communication i).

Definition responseOf `{Crypto} (input : TaskInput) (text : string) : TaskCommunication :=
  let id := "response-" +:+ String.substring 0 32 (sha256 (tin_key input)) in
  let inputId := textOf (prop (tin_original input) "id") in
  mkCommunication (JObj [("id", JStr id); ("inputId", JStr inputId); ("message", JStr text)]) id inputId (Some text)
    None None None.

Definition taskResultCommunication `{Crypto} (d : Db) (claim : AppTaskClaim) (response : option string)
    (inputKeys : option (list string)) (changes : option (list TaskCommunication)) : res (option (list TaskCommunication)) :=
  match nonempty response with
  | None => mret changes
  | Some text =>
      all ← readTaskInputs d (clm_taskId claim) (clm_generation claim)
              (match inputKeys with Some _ => [] | None => clm_events claim end)
              (match inputKeys with Some keys => keys | None => clm_continuedInputKeys claim end);
      let inputs := filter (fun i => is_Some (tin_communication i)) all in
      match last inputs with
      | None => mret changes
      | Some latest =>
          if existsb (fun c => bool_decide (is_Some (nonempty (tc_message c)))) (default [] changes) then
            Throw "Use response or explicit communication messages for this result, not both"
          else if negb (Nat.eqb (length (set_of (map conversationOf inputs))) 1) then
            Throw "Multiple reply destinations require explicit communication inputId"
          else
            let input := default latest (last (filter (fun i => fromHuman i = true) inputs)) in
            mret (Some (default [] changes ++ [responseOf input text]))
      end
  end.

End TaskCommunication.
