(* ===== verification/CommunicationLaws.v ===== *)
(** What holds of Task communication ([TaskCommunication]), for any journal of
    published facts that keeps what was published ([Facts]): a change that was
    applied can be sent again, and it reaches nothing outside the Conversation
    of an input the Task accepted. *)
From S2P Require Import Prelude Json TaskState TaskTree Transaction ResourceStore StoreInvariant StoreCommit Snapshot.
From S2P Require Import Context Approval Conditions Records Time TaskInputs TaskEvents TaskIntent TaskMutation.
From S2P Require Import TaskOutcome TaskAdmission TaskReplay TaskLease OutputPaths TaskClaim TaskContract TaskActions.
From S2P Require Import TaskSettle TaskRelease TaskControl TaskScenario Effects InboxStore ConversationRequests.
From S2P Require Import ConversationTopics InboxAdmission InboxLaws TaskCommunication.

Module CommunicationLaws.
Import ResourceStore TaskInputs TaskEvents TaskMutation TaskLease TaskContract.
Import Effects ConversationRequests ConversationTopics InboxStore InboxAdmission TaskCommunication.

(** ** Journals *)

(** What communication relies on: the database is a part of the state; reading
    facts does not depend on the other tables; what was published reads back with
    its fields, and publishing changes no other fact and no other table. *)
Class Facts {W : Type} (getDb : W -> Db) (setDb : Db -> W -> W) (events : AppTaskEvents W) : Prop := {
  db_get_set d w : getDb (setDb d w) = d;
  db_set_get w : setDb (getDb w) w = w;
  db_set_set d d' w : setDb d (setDb d' w) = setDb d w;
  facts_frame d w type key :
    db_events d = db_events (getDb w) -> db_store d = db_store (getDb w) -> te_read events type key (setDb d w) = te_read events type key w;
  publish_kept key e w n w' : te_publish events key e w = (Done n, w') ->
    exists rows, getDb w' = set_events rows (getDb w);
  publish_read key e w n w' : te_publish events key e w = (Done n, w') ->
    exists data, te_read events (em_type e) key w' = Ok (Some data) /\
      forall k v, k <> "idempotencyKey" -> k <> "emission" -> obj_get k (em_data e) = Some v -> obj_get k data = Some v;
  publish_other key e w n w' type key' : te_publish events key e w = (Done n, w') ->
    (type, key') <> (em_type e, key) -> te_read events type key' w' = te_read events type key' w }.

Section Laws.
Context `{Crypto} (now : Z) (claim : AppTaskClaim).
Context {W : Type} (getDb : W -> Db) (setDb : Db -> W -> W) (events : AppTaskEvents W) `{!Facts getDb setDb events}.

(** ** Rows a change may touch *)

(** The rows keep everything but their Topic. *)
Definition sameRows (t t' : inbox) : Prop :=
  forall id row, t !! id = Some row -> exists topic, t' !! id = Some (mkRow (ident row) (set_topic_id topic (state row))).

Definition sameWork (d d' : Db) : Prop :=
  db_store d' = db_store d /\ sameRows (db_inbox d) (db_inbox d') /\ db_topicTasks d' = db_topicTasks d.

Lemma sameRows_refl t : sameRows t t.
Proof. intros id [i [s]] Hrow. exists s. exact Hrow. Qed.

#[export] Instance sameWork_preorder : PreOrder sameWork.
Proof.
  split.
  - intros d. split; [done|split; [apply sameRows_refl|done]].
  - intros d1 d2 d3 (S1 & R1 & T1) (S2 & R2 & T2). unfold sameWork. split; [congruence|split; [|congruence]].
    intros id row Hrow. destruct (R1 id row Hrow) as [topic H1]. destruct (R2 id _ H1) as [topic' H2]. exists topic'. exact H2.
Qed.

(** The item of a row whose Topic changed. *)
Lemma retopic_item i c topic item :
  rowToItem (mkRow i c) = Ok item -> exists item', rowToItem (mkRow i (set_topic_id topic c)) = Ok item' /\
    it_id item' = it_id item /\ it_appId item' = it_appId item /\ it_conversationId item' = it_conversationId item /\
    it_source item' = it_source item /\ it_input item' = it_input item /\ it_taskAdmissionKey item' = it_taskAdmissionKey item.
Proof.
  unfold rowToItem. cbn [ident state]. destruct (requiredText (c_id i) _); [|done]. simpl.
  destruct (requiredText (c_app_id i) _); [|done]. simpl. destruct (requiredText (src_kind _) _); [|done]. simpl.
  destruct (requiredText (src_id _) _); [|done]. simpl. destruct (requiredText (inp_kind _) _); [|done]. simpl.
  intros [= <-]. eexists. split; [done|]. done.
Qed.

(** An input stays accepted. *)
Lemma input_kept d d' inputId item :
  sameWork d d' -> readTaskCommunicationInput d claim inputId = Ok item ->
  exists item', readTaskCommunicationInput d' claim inputId = Ok item' /\ it_conversationId item' = it_conversationId item /\
    it_appId item' = it_appId item /\ it_id item' = it_id item.
Proof.
  intros (Hst & Hrows & _). unfold readTaskCommunicationInput, getAppInboxItem.
  destruct (db_inbox d !! inputId) as [[i s]|] eqn:Erow; [|done].
  destruct (Hrows _ _ Erow) as [topic ->]. rewrite Hst. cbn [ident state].
  destruct (rowToItem (mkRow i s)) as [it|] eqn:Eit; [|done].
  destruct (retopic_item i s topic it Eit) as (it' & -> & Eid & Eapp & Econv & Esrc & Ein & Ekey).
  cbn [mbind res_bind' mret res_ret' InboxStore.res_bind' InboxStore.res_ret']. rewrite Ekey.
  destruct (match it_taskAdmissionKey it with Some _ => _ | None => _ end) as [[a|]|]; [|done|done].
  cbn [mbind res_bind']. unfold acceptedBy. rewrite Eid, Eapp, Econv, Esrc, Ein.
  destruct (_ && _); [|done]. intros [= <-]. by exists it'.
Qed.

(** ** What a change may write *)

(** Requests outside [K] keep their rows, the links of Requests only grow, and no
    fact is published. *)
Record scoped (K : string * string * string -> Prop) (d0 d : Db) : Prop := {
  sc_work : sameWork d0 d;
  sc_events : db_events d = db_events d0;
  sc_links : db_requestInputs d0 ⊆ db_requestInputs d;
  sc_requests : forall k, ~ K k -> db_requests d !! k = db_requests d0 !! k }.

Lemma scoped_refl K d : scoped K d d.
Proof. by split. Qed.

Lemma keeps_decideTopic K d0 change item conversationId : keeps (scoped K d0) (decideTopic now claim change item conversationId).
Proof.
  assert (forall x d, scoped K d0 d -> scoped K d0 (set_topics x d)) as Ht by (intros x d []; by split).
  assert (forall c, keeps (scoped K d0) (zoom db_topics set_topics (createConversationTopic now c))) as Hz.
  { intros c d Hd. unfold zoom. destruct (createConversationTopic now c (db_topics d)). by apply Ht. }
  unfold decideTopic. keeps_walk; try apply Hz. all: apply keeps_writes; intros d []; by split.
Qed.

Lemma saved_elsewhere input now' prepared t k :
  (forall p, p ∈ prepared -> k <> (ui_appId input, ui_conversationId input, req_id p.1)) ->
  fold_left (saveRequest input now') prepared t !! k = t !! k.
Proof.
  revert t. induction prepared as [|p prepared IH]; intros t Hk; [done|]. simpl. rewrite IH by set_solver.
  unfold saveRequest. destruct p.2; [done|]. apply lookup_insert_ne. intros E. apply (Hk p); [set_solver|done].
Qed.

Lemma prepareUpdate_id t input u p : prepareUpdate t input u = Done p -> req_id p.1 = up_id u.
Proof.
  unfold prepareUpdate. cbv zeta.
  repeat match goal with |- (if ?b then Raise _ _ else _) = _ -> _ => destruct b; [done|] end. by intros [= <-].
Qed.

(** An update of one Request writes that Request only. *)
Lemma apply_elsewhere box input now' t k u :
  ui_updates input = [u] -> k <> (ui_appId input, ui_conversationId input, up_id u) ->
  (applyConversationRequestUpdates box input now' t).2 !! k = t !! k.
Proof.
  intros Hu Hk. unfold applyConversationRequestUpdates.
  destruct (prepareConversationRequestUpdates box t input) as [prepared|] eqn:E; [|done]. cbn [snd].
  apply saved_elsewhere. intros p Hp. enough (req_id p.1 = up_id u) as -> by done.
  unfold prepareConversationRequestUpdates in E. destruct (negb _); [done|].
  destruct (match ui_actor input with Some _ => _ | None => _ end); [done|]. rewrite Hu in E. simpl in E.
  destruct (prepareUpdate t input u) as [q|] eqn:Eq; [|done]. injection E as <-.
  apply list_elem_of_singleton in Hp as ->. by eapply prepareUpdate_id.
Qed.

Lemma linkInputs_grow t app conversationId requestId ids links links' :
  linkConversationRequestInputs t app conversationId requestId ids links = Ok links' -> links ⊆ links'.
Proof.
  assert (forall l x, x ⊆ fold_left (fun (y : requestInputs) j => {[(app, conversationId, j, requestId)]} ∪ y) l x) as Hgrow.
  { intros l. induction l as [|j l IH]; intros x; [reflexivity|]. simpl. etrans; [|apply IH]. set_solver. }
  unfold linkConversationRequestInputs. destruct ids as [|i ids]; [intros [= <-]; reflexivity|].
  intros E. case_bool_decide; [|discriminate E]. injection E as <-. apply (Hgrow (i :: ids)).
Qed.

Lemma keeps_updateRequest K d0 item conversationId topicId messageId identity u :
  K (it_appId item, conversationId, up_id u) ->
  keeps (scoped K d0) (updateRequest now claim item conversationId topicId messageId identity u).
Proof.
  intros HK. unfold updateRequest. repeat (apply bind_keeps; [solve [keeps_walk]|intros ?]).
  apply bind_keeps.
  - intros d [Hw He Hl Hr]. unfold onRequests, zoom.
    match goal with |- context [applyConversationRequestUpdates ?b ?i ?n ?t] =>
      pose proof (fun k => apply_elsewhere b i n t k u eq_refl) as Hel; destruct (applyConversationRequestUpdates b i n t) as [o t'] end.
    cbn [snd] in *. split; try done. intros k Hk. cbn [db_requests set_requests]. rewrite Hel; [by apply Hr|].
    intros ->. by apply Hk.
  - intros [] d Hd. rewrite asks_bind. destruct (linkConversationRequestInputs _ _ _ _ _ _) as [links|] eqn:E; [|done].
    apply linkInputs_grow in E. destruct Hd as [Hw He Hl Hr]. split; try done. cbn [writes snd db_requestInputs set_requestInputs].
    by etrans.
Qed.

Lemma keeps_retopic K d0 id topic :
  keeps (scoped K d0) (onInbox (writes (fun t => (updateWhere id (fun _ => true) (set_topic_id topic) t).2))).
Proof.
  intros d [(Hs & Hr & Ht) He Hl Hq]. split; try done. split; [done|split; [|done]].
  cbn. intros i row Hrow. destruct (Hr i row Hrow) as [p Hp]. unfold updateWhere. destruct (db_inbox d !! id) as [r|] eqn:E; [|by exists p].
  cbn [snd]. destruct (decide (i = id)) as [->|Hne].
  - exists topic. rewrite lookup_insert_eq. rewrite Hp in E. injection E as <-. done.
  - exists p. by rewrite lookup_insert_ne.
Qed.

(** ** Runs *)

Lemma onDb_done {A} (m : E Db A) w a w' :
  onDb getDb setDb m w = (Done a, w') -> exists d', m (getDb w) = (Done a, d') /\ w' = setDb d' w.
Proof. unfold onDb, zoom. destruct (m (getDb w)) as [o d']. intros [= -> <-]. eauto. Qed.

Lemma for_each_run {A} (f : A -> E Db unit) l d d' : for_each f l d = (Done tt, d') ->
  forall a, a ∈ l -> exists l1 l2 d1 d2, l = l1 ++ a :: l2 /\ for_each f l1 d = (Done tt, d1) /\ f a d1 = (Done tt, d2) /\
    for_each f l2 d2 = (Done tt, d').
Proof.
  revert d. induction l as [|x l IH]; intros d Hrun a Ha; [by apply not_elem_of_nil in Ha|].
  simpl in Hrun. apply bind_run in Hrun as ([] & d1 & Hx & Hrest). apply elem_of_cons in Ha as [->|Ha].
  - exists [], l, d, d1. done.
  - destruct (IH d1 Hrest a Ha) as (l1 & l2 & d2 & d3 & -> & H1 & H2 & H3). exists (x :: l1), l2, d2, d3.
    split_ands; [done| |done|done]. simpl. by rewrite (bind_done _ _ _ _ _ Hx).
Qed.

(** The keys of the Requests a change updates. *)
Definition updatedKeys (change : TaskCommunication) (item : AppInboxItem) (conversationId : string)
    (k : string * string * string) : Prop :=
  exists u, u ∈ default [] (tc_requestUpdates change) /\ k = (it_appId item, conversationId, up_id u).

(** The Task accepted the inputs of a Request. *)
Definition accepts (d : Db) (inputId : string) : Prop := exists item, readTaskCommunicationInput d claim inputId = Ok item.

Lemma readInputs_each d ids items : readInputs d claim ids = Ok items -> forall i, i ∈ ids -> accepts d i.
Proof.
  revert items. induction ids as [|id ids IH]; intros items Hr i Hi; [by apply not_elem_of_nil in Hi|]. simpl in Hr.
  destruct (readTaskCommunicationInput d claim id) as [item|] eqn:E; [|done]. cbn [mbind res_bind'] in Hr.
  destruct (readInputs d claim ids) as [rest|] eqn:Er; [|done]. apply elem_of_cons in Hi as [->|Hi]; [by exists item|by eapply IH].
Qed.

Lemma updateRequest_authority item conversationId topicId messageId identity u d d' i :
  updateRequest now claim item conversationId topicId messageId identity u d = (Done tt, d') ->
  (it_appId item, conversationId, i, up_id u) ∈ db_requestInputs d -> is_Some (db_inbox d !! i) -> accepts d i.
Proof.
  unfold updateRequest. rewrite !bind_reads. intros Hrun Hl Hi. apply bind_run in Hrun as (x & d1 & Hx & Hrun).
  assert (d1 = d) as ->.
  { destruct (linkedInputs _ _ _ _) as [|j l]; [|by injection Hx as _ <-].
    destruct (db_requests d !! _) as [row|]; [|by injection Hx as _ <-].
    rewrite bind_reads in Hx. destruct (bool_decide _); [by injection Hx as _ <-|done]. }
  rewrite asks_bind in Hrun. destruct (readInputs d claim (linkedInputs _ _ _ _)) as [items|] eqn:Er; [|done].
  eapply readInputs_each; [exact Er|]. apply list_elem_of_omap. exists (it_appId item, conversationId, i, up_id u).
  split; [by apply elem_of_elements|]. rewrite !String.eqb_refl, bool_decide_true by done. done.
Qed.

Lemma scoped_trans K d1 d2 d3 : scoped K d1 d2 -> scoped K d2 d3 -> scoped K d1 d3.
Proof.
  intros [W1 E1 L1 R1] [W2 E2 L2 R2]. split; [by etrans|congruence|by etrans|].
  intros k Hk. by rewrite R2, R1.
Qed.

(** What a new change does before it publishes, and what it publishes. *)
Lemma applyNew_run change item conversationId w r w' :
  applyNew now claim getDb setDb events change item conversationId w = (Done r, w') ->
  exists d messageId n w1,
    scoped (updatedKeys change item conversationId) (getDb w) d /\
    (forall u i, u ∈ default [] (tc_requestUpdates change) ->
       (it_appId item, conversationId, i, up_id u) ∈ db_requestInputs (getDb w) -> is_Some (db_inbox (getDb w) !! i) -> accepts d i) /\
    r = receiptOf d change item conversationId messageId /\
    te_publish events (localKey (tc_id change)) (updatedEmission change item conversationId messageId r) (setDb d w) = (Done n, w1) /\
    (w' = w1 \/ exists e m, em_type e = "conversation.message.created" /\ te_publish events (localKey (tc_id change)) e w1 = (Done m, w')).
Proof.
  intros Hrun. set (K := updatedKeys change item conversationId). unfold applyNew in Hrun.
  apply bind_run in Hrun as (topicId & w2 & H2 & Hrun). apply onDb_done in H2 as (d2 & H2 & ->).
  pose proof (keeps_decideTopic K (getDb w) change item conversationId _ (scoped_refl K _)) as S2. rewrite H2 in S2. cbn [snd] in S2.
  apply bind_run in Hrun as (messageId & w3 & H3 & Hrun). assert (w3 = setDb d2 w) as ->.
  { unfold decideMessage in H3. destruct (nonempty (tc_replyId change)); [|by injection H3].
    rewrite asks_bind in H3. destruct (te_read events _ _ _) as [[data|]|]; [|done|done].
    destruct (record_field _ _) as [[]|]; try done. destruct (obj_get "messageId" data) as [[]|]; try done.
    destruct (str_is _ _); [|done]. rewrite asks_bind in H3. destruct (readTaskCommunicationInput _ _ _); [|done].
    by injection H3. }
  apply bind_run in Hrun as ([] & w4 & H4 & Hrun). apply onDb_done in H4 as (d4 & H4 & ->). rewrite db_get_set in H4. rewrite db_set_set in Hrun.
  assert (forall l, (forall u, u ∈ l -> u ∈ default [] (tc_requestUpdates change)) ->
    keeps (scoped K (getDb w)) (for_each (updateRequest now claim item conversationId topicId messageId
      (communicationIdentity claim (it_appId item) (tc_id change))) l)) as Hkeep.
  { intros l. induction l as [|u l IH]; intros Hsub; [apply done_keeps|]. apply bind_keeps; [|intros []; apply IH; set_solver].
    apply keeps_updateRequest. exists u. split; [apply Hsub; set_solver|done]. }
  pose proof (Hkeep _ (fun u Hu => Hu) d2 S2) as S4. rewrite H4 in S4. cbn [snd] in S4.
  apply bind_run in Hrun as ([] & w5 & H5 & Hrun).
  assert (exists d5, w5 = setDb d5 w /\ scoped K (getDb w) d5 /\ sameWork d4 d5) as (d5 & -> & S5 & Hw5).
  { destruct (tc_topic change) as [t|].
    - apply onDb_done in H5 as (d5 & H5 & ->). rewrite db_get_set in H5. rewrite db_set_set. exists d5. split; [done|].
      split.
      + pose proof (keeps_retopic K (getDb w) (it_id item) topicId d4 S4) as HH. by rewrite H5 in HH.
      + pose proof (keeps_retopic K d4 (it_id item) topicId d4 (scoped_refl K d4)) as HH. rewrite H5 in HH. by destruct HH.
    - injection H5 as <-. exists d4. done. }
  rewrite bind_reads, db_get_set in Hrun. apply bind_run in Hrun as (n & w6 & H6 & Hrun).
  apply bind_run in Hrun as ([] & w7 & H7 & Hrun). injection Hrun as <- <-.
  exists d5, messageId, n, w6. split_ands; [done| |done|done|].
  - intros u i Hu Hl Hi. destruct (for_each_run _ _ _ _ H4 u Hu) as (l1 & l2 & da & db & Hsplit & Ha & Hb & Hc).
    assert (scoped K (getDb w) da) as Sa.
    { pose proof (Hkeep l1) as Hk. specialize (Hk ltac:(intros x Hx; rewrite Hsplit; set_solver) d2 S2). by rewrite Ha in Hk. }
    assert (accepts da i) as [it Hit].
    { eapply updateRequest_authority; [exact Hb|by apply (sc_links _ _ _ Sa)|].
      destruct Hi as [row Hrow]. destruct (sc_work _ _ _ Sa) as (_ & Hr & _). destruct (Hr i row Hrow) as [p Hp]. by eexists. }
    assert (sameWork da d4) as Wa.
    { pose proof (keeps_updateRequest (fun _ => True) da item conversationId topicId messageId
        (communicationIdentity claim (it_appId item) (tc_id change)) u I da (scoped_refl _ _)) as Sb. rewrite Hb in Sb. cbn [snd] in Sb.
      assert (keeps (scoped (fun _ => True) da) (for_each (updateRequest now claim item conversationId topicId messageId
        (communicationIdentity claim (it_appId item) (tc_id change))) l2)) as Hk2.
      { apply keeps_for_each. intros x. by apply keeps_updateRequest. }
      pose proof (Hk2 db Sb) as Sc. rewrite Hc in Sc. by destruct Sc. }
    destruct (input_kept _ _ _ _ (transitivity Wa Hw5) Hit) as (it' & Hit' & _). by exists it'.
  - destruct (nonempty (tc_message change)) as [text|]; [|left; by injection H7].
    apply bind_run in H7 as (m & w8 & H8 & [= ->]). right. eexists _, m. split; [|exact H8]. done.
Qed.

(** ** Changes that were applied *)

Record grows (w w' : W) : Prop := {
  gr_work : sameWork (getDb w) (getDb w');
  gr_links : db_requestInputs (getDb w) ⊆ db_requestInputs (getDb w');
  gr_facts : forall id data, savedFact events id w = Ok (Some data) -> savedFact events id w' = Ok (Some data) }.

#[local] Instance grows_preorder : PreOrder grows.
Proof.
  split; [by intros w; split|]. intros w1 w2 w3 [A1 B1 C1] [A2 B2 C2]. split; [by etrans|by etrans|auto].
Qed.

(** The parts of [applyChange] before the journal is read. *)
Definition admissible (change : TaskCommunication) : bool :=
  negb (bool_decide (is_Some (nonempty (tc_message change))) && bool_decide (is_Some (nonempty (tc_replyId change)))) &&
  negb (bool_decide (nonempty (tc_message change) = None) && bool_decide (tc_topic change = None) &&
        Nat.eqb (length (default [] (tc_requestUpdates change))) 0).

(** The change was applied and answered with [r]. *)
Definition answered (w : W) (change : TaskCommunication) (r : json) : Prop :=
  accepts (getDb w) (tc_inputId change) /\ admissible change = true /\
  exists data, savedFact events (tc_id change) w = Ok (Some data) /\ savedReceipt change data = Ok r.

Lemma answered_again w change r :
  answered w change r -> applyChange now claim getDb setDb events change w = (Done r, w).
Proof.
  intros ([item Hitem] & Had & data & Hsaved & Hr). unfold applyChange. rewrite asks_bind, Hitem.
  unfold admissible in Had. apply andb_true_iff in Had as [->%negb_true_iff ->%negb_true_iff].
  rewrite asks_bind, Hsaved. unfold checks. by rewrite Hr.
Qed.

Lemma answered_kept w w' change r : answered w change r -> grows w w' -> answered w' change r.
Proof.
  intros ([item Hitem] & Had & data & Hsaved & Hr) [Hw _ Hf]. split; [|split; [done|]].
  - destruct (input_kept _ _ _ _ Hw Hitem) as (item' & Hi & _). by exists item'.
  - exists data. split; [by apply Hf|done].
Qed.

Lemma localKey_inj a b : localKey a = localKey b -> a = b.
Proof. unfold localKey. apply (inj (String.append _)). Qed.

(** Publishing under a new name. *)
Lemma publish_grows key e w n w' :
  te_publish events key e w = (Done n, w') ->
  sameWork (getDb w) (getDb w') /\ db_requestInputs (getDb w') = db_requestInputs (getDb w) /\
  db_requests (getDb w') = db_requests (getDb w).
Proof.
  intros Hp. destruct (publish_kept _ _ _ _ _ Hp) as [rows ->]. split; [|done].
  split; [done|split; [apply sameRows_refl|done]].
Qed.

Lemma savedFact_other key e w n w' id :
  te_publish events key e w = (Done n, w') -> localKey id <> key -> savedFact events id w' = savedFact events id w.
Proof.
  intros Hp Hne. unfold savedFact. rewrite !(publish_other _ _ _ _ _ _ _ Hp) by (intros [= _ ?]; done). done.
Qed.

Lemma savedFact_frame K d w id : scoped K (getDb w) d -> savedFact events id (setDb d w) = savedFact events id w.
Proof. intros [(Hs & _) He _ _]. unfold savedFact. by rewrite !facts_frame. Qed.

(** The run of one change: nothing is lost, and the change is answered. *)
Lemma applyChange_run change w r w' :
  json_wf (tc_json change) -> applyChange now claim getDb setDb events change w = (Done r, w') ->
  grows w w' /\ answered w' change r.
Proof.
  intros Hwf Hrun. unfold applyChange in Hrun. rewrite asks_bind in Hrun.
  destruct (readTaskCommunicationInput (getDb w) claim (tc_inputId change)) as [item|] eqn:Ei; [|done].
  assert (admissible change = true) as Had.
  { unfold admissible. destruct (bool_decide _ && bool_decide _); [done|]. destruct (bool_decide _ && _ && _); done. }
  pose proof Had as Had'. unfold admissible in Had'. apply andb_true_iff in Had' as [E1%negb_true_iff E2%negb_true_iff].
  rewrite E1, E2, asks_bind in Hrun. destruct (savedFact events (tc_id change) w) as [[data|]|] eqn:Es; [| |done].
  - unfold checks in Hrun. destruct (savedReceipt change data) as [r0|] eqn:Er; [|done]. injection Hrun as <- <-.
    split; [reflexivity|]. split; [by exists item|split; [done|]]. by exists data.
  - apply applyNew_run in Hrun as (d & messageId & n & w1 & Hsc & _ & Hr & Hp & Hlast).
    assert (forall id, localKey id <> localKey (tc_id change) -> savedFact events id w' = savedFact events id w) as Hother.
    { intros id Hne. destruct Hlast as [->|(e & m & _ & Hp2)].
      - rewrite (savedFact_other _ _ _ _ _ _ Hp Hne). by eapply savedFact_frame.
      - rewrite (savedFact_other _ _ _ _ _ _ Hp2 Hne), (savedFact_other _ _ _ _ _ _ Hp Hne). by eapply savedFact_frame. }
    destruct (publish_grows _ _ _ _ _ Hp) as (W1 & L1 & _). rewrite db_get_set in W1, L1.
    assert (grows w w') as Hgrow.
    { assert (sameWork (getDb w1) (getDb w') /\ db_requestInputs (getDb w') = db_requestInputs (getDb w1)) as [W2 L2].
      { destruct Hlast as [->|(e & m & _ & Hp2)]; [done|]. by destruct (publish_grows _ _ _ _ _ Hp2) as (? & ? & _). }
      split.
      - etrans; [apply (sc_work _ _ _ Hsc)|]. by etrans.
      - rewrite L2, L1. apply (sc_links _ _ _ Hsc).
      - intros id data Hd. rewrite Hother; [done|]. intros E%localKey_inj. subst. by rewrite Es in Hd. }
    split; [done|]. split; [|split; [done|]].
    + destruct (input_kept _ _ _ _ (gr_work _ _ Hgrow) Ei) as (item' & Hi & _). by exists item'.
    + destruct (publish_read _ _ _ _ _ Hp) as (data & Hread & Hfields). exists data. split.
      * unfold savedFact. assert (te_read events "app.task.communication.updated" (localKey (tc_id change)) w' = Ok (Some data)) as ->; [|done].
        destruct Hlast as [->|(e & m & He & Hp2)]; [done|]. rewrite (publish_other _ _ _ _ _ _ _ Hp2); [done|]. rewrite He. by intros [= ?].
      * unfold savedReceipt. rewrite (Hfields "communication" (tc_json change)) by done. cbn [sameValue]. rewrite TaskReplay.deep_eqb_refl by done.
        cbn [negb]. rewrite (Hfields "receipt" r) by done. rewrite Hr at 1. cbn. by rewrite String.eqb_refl.
Qed.

Lemma applyAll_run changes w rs w' :
  Forall (fun c => json_wf (tc_json c)) changes -> applyTaskCommunication now claim getDb setDb events changes w = (Done rs, w') ->
  grows w w' /\ Forall2 (answered w') changes rs.
Proof.
  intros Hwf. revert w rs. induction changes as [|c changes IH]; intros w rs Hrun.
  - injection Hrun as <- <-. split; [reflexivity|constructor].
  - apply Forall_cons in Hwf as [Hc Hwf]. simpl in Hrun. apply bind_run in Hrun as (r & w1 & Hr & Hrun).
    apply bind_run in Hrun as (rest & w2 & Hrest & [= <- <-]).
    destruct (applyChange_run _ _ _ _ Hc Hr) as [G1 A1]. destruct (IH Hwf _ _ Hrest) as [G2 A2].
    split; [by etrans|]. constructor; [by eapply answered_kept|done].
Qed.

Lemma answered_all w changes rs :
  Forall2 (answered w) changes rs -> applyTaskCommunication now claim getDb setDb events changes w = (Done rs, w).
Proof.
  induction 1 as [|c r changes rs Hc _ IH]; [done|]. simpl. rewrite (bind_done _ _ _ _ _ (answered_again _ _ _ Hc)).
  by rewrite (bind_done _ _ _ _ _ IH).
Qed.

(** ** The reach of changes *)

#[local] Instance RequestRow_eq_dec : EqDecision RequestRow.
Proof. solve_decision. Defined.

(** The Request [k] belongs to a Conversation of an accepted input that one of the
    changes names, and the Task accepted every input [k] was accepted from. *)
Definition authorized (w w' : W) (changes : list TaskCommunication) (k : string * string * string) : Prop :=
  exists change item conversationId u, change ∈ changes /\
    readTaskCommunicationInput (getDb w') claim (tc_inputId change) = Ok item /\ it_conversationId item = Some conversationId /\
    u ∈ default [] (tc_requestUpdates change) /\ k = (it_appId item, conversationId, up_id u) /\
    (forall i, (k.1.1, k.1.2, i, k.2) ∈ db_requestInputs (getDb w) ->
       is_Some (db_inbox (getDb w) !! i) -> accepts (getDb w') i).

Lemma accepts_kept d d' i : sameWork d d' -> accepts d i -> accepts d' i.
Proof. intros Hw [item Hi]. destruct (input_kept _ _ _ _ Hw Hi) as (item' & Hi' & _). by exists item'. Qed.

Lemma accepted_conversation d inputId item : readTaskCommunicationInput d claim inputId = Ok item ->
  it_conversationId item = Some (default "" (it_conversationId item)).
Proof.
  unfold readTaskCommunicationInput. destruct (getAppInboxItem _ _) as [[it|]|]; [|done|done]. cbn [mbind res_bind'].
  destruct (match it_taskAdmissionKey it with Some _ => _ | None => _ end) as [[a|]|]; [|done|done]. cbn [mbind res_bind'].
  destruct (acceptedBy _ _ _ _) eqn:Ea; [|done]. intros [= <-]. unfold acceptedBy in Ea.
  repeat (apply andb_true_iff in Ea as [Ea _]). apply bool_decide_eq_true in Ea as [c ->]. done.
Qed.

Lemma applyChange_reach change w r w' k :
  json_wf (tc_json change) -> applyChange now claim getDb setDb events change w = (Done r, w') ->
  db_requests (getDb w') !! k <> db_requests (getDb w) !! k -> authorized w w' [change] k.
Proof.
  intros Hwf Hrun Hne. destruct (applyChange_run _ _ _ _ Hwf Hrun) as [[Hw _ _] _]. unfold applyChange in Hrun. rewrite asks_bind in Hrun.
  destruct (readTaskCommunicationInput (getDb w) claim (tc_inputId change)) as [item|] eqn:Ei; [|done].
  destruct (bool_decide _ && bool_decide _); [done|]. destruct (bool_decide _ && _ && _); [done|]. rewrite asks_bind in Hrun.
  destruct (savedFact events (tc_id change) w) as [[data|]|]; [| |done].
  { unfold checks in Hrun. destruct (savedReceipt change data); [|done]. injection Hrun as _ <-. done. }
  pose proof (accepted_conversation _ _ _ Ei) as Hc. set (conv := default "" (it_conversationId item)) in *.
  apply applyNew_run in Hrun as (d & messageId & n & w1 & Hsc & Hauth & _ & Hp & Hlast).
  assert (sameWork d (getDb w') /\ db_requests (getDb w') = db_requests d) as [Hdw Hreq].
  { destruct (publish_grows _ _ _ _ _ Hp) as (W1 & _ & R1). rewrite db_get_set in W1, R1.
    destruct Hlast as [->|(e & m & _ & Hp2)]; [done|]. destruct (publish_grows _ _ _ _ _ Hp2) as (W2 & _ & R2).
    split; [by etrans|congruence]. }
  destruct (decide (k ∈ map (fun u => (it_appId item, conv, up_id u)) (default [] (tc_requestUpdates change)))) as [Hin|Hn].
  - apply list_elem_of_fmap in Hin as (u & -> & Hu). destruct (input_kept _ _ _ _ Hw Ei) as (item' & Hi' & Hc' & Ha' & _).
    exists change, item', conv, u. rewrite Ha', Hc'. split_ands; [set_solver|done|done|done|done|]. intros i Hl Hi.
    apply (accepts_kept d); [done|]. by eapply Hauth.
  - destruct Hne. rewrite Hreq. apply (sc_requests _ _ _ Hsc). intros (u & Hu & ->). apply Hn, list_elem_of_fmap. by exists u.
Qed.

Lemma authorized_widen w0 w1 w2 w3 changes changes' k :
  grows w0 w1 -> grows w2 w3 -> (forall c, c ∈ changes -> c ∈ changes') ->
  authorized w1 w2 changes k -> authorized w0 w3 changes' k.
Proof.
  intros [W0 L0 _] [W2 _ _] Hsub (change & item & conv & u & Hin & Hi & Hc & Hu & Hk & Hall).
  destruct (input_kept _ _ _ _ W2 Hi) as (item' & Hi' & Hc' & Ha' & _). exists change, item', conv, u.
  rewrite Ha', Hc'. split_ands; [by apply Hsub|done|done|done|done|]. intros i Hl Hb. apply (accepts_kept (getDb w2)); [done|].
  apply Hall; [by apply L0|]. destruct Hb as [row Hrow]. destruct W0 as (_ & Hr & _). destruct (Hr i row Hrow) as [p Hp]. by eexists.
Qed.

Lemma applyAll_reach changes w rs w' k :
  Forall (fun c => json_wf (tc_json c)) changes -> applyTaskCommunication now claim getDb setDb events changes w = (Done rs, w') ->
  db_requests (getDb w') !! k <> db_requests (getDb w) !! k -> authorized w w' changes k.
Proof.
  intros Hwf. revert w rs. induction changes as [|c changes IH]; intros w rs Hrun Hne; [injection Hrun as _ <-; done|].
  apply Forall_cons in Hwf as [Hc Hwf]. simpl in Hrun. apply bind_run in Hrun as (r & w1 & Hr & Hrun).
  apply bind_run in Hrun as (rest & w2 & Hrest & [= _ <-]).
  destruct (applyChange_run _ _ _ _ Hc Hr) as [G1 _]. destruct (applyAll_run _ _ _ _ Hwf Hrest) as [G2 _].
  destruct (decide (db_requests (getDb w1) !! k = db_requests (getDb w) !! k)) as [E|E].
  - eapply (authorized_widen w w1 w2 w2 changes); [done|reflexivity|set_solver|]. eapply IH; [done|done|]. by rewrite E.
  - eapply (authorized_widen w w w1 w2 [c]); [reflexivity|done|set_solver|]. by eapply applyChange_reach.
Qed.

End Laws.
(** ** A plain journal

    The facts are rows of the event table, marked with their key. *)

Definition factOf (type key : string) (e : EventRow) : option (obj json) :=
  match er_data e with
  | JObj o => if String.eqb (er_type e) type && str_is (obj_get "emission" o) key then Some o else None
  | _ => None
  end.

Definition plainJournal : AppTaskEvents Db :=
  mkTaskEvents (fun type key d => Ok (head (omap (factOf type key) (db_events d))))
    (fun key e => _ ← writes (fun d => set_events (mkEventRow (Z.of_nat (length (db_events d)) + 1) (em_type e)
                                 (JObj (("emission", JStr key) :: em_data e)) :: db_events d) d);
                  reads (fun d => Z.of_nat (length (db_events d)))).

#[export] Instance plain_facts : Facts (fun d => d) (fun d _ => d) plainJournal.
Proof.
  split; try done.
  - intros d w type key He _. cbn. by rewrite He.
  - intros key e w n w' [= _ <-]. by eexists.
  - intros key e w n w' [= _ <-]. eexists. split.
    + cbn. unfold factOf at 1. cbn. by rewrite !String.eqb_refl.
    + intros k v _ Hk Hv. cbn [obj_get]. rewrite (proj2 (String.eqb_neq _ _)); [exact Hv|]. congruence.
  - intros key e w n w' type key' [= _ <-] Hne.
    assert (factOf type key' (mkEventRow (Z.of_nat (length (db_events w)) + 1) (em_type e) (JObj (("emission", JStr key) :: em_data e))) = None) as Hno.
    { unfold factOf. cbn [er_data er_type obj_get]. change (String.eqb "emission" "emission") with true. cbn [str_is].
      destruct (String.eqb_spec (em_type e) type), (String.eqb_spec key key'); try done. congruence. }
    cbn -[factOf]. by rewrite Hno.
Qed.

(** ** Properties *)


(** Communication reaches only what the Task accepted.  A batch of changes
    alters no Task, no admission and no input but for its Topic.  A Request it
    changed belongs to the Conversation of an input the Task accepted, named by
    one of the changes, and the Task accepted every saved input that Request came
    from: a shared Conversation or a reference does not give authority. *)
Theorem communication_scoped `{Crypto} now claim {W} (getDb : W -> Db) setDb events changes w receipts w'
    (Hfacts : Facts getDb setDb events)
    (Hwf : Forall (fun c => json_wf (tc_json c)) changes)
    (Hrun : applyTaskCommunication now claim getDb setDb events changes w = (Done receipts, w')) :
  db_store (getDb w') = db_store (getDb w) /\
  (forall id row, db_inbox (getDb w) !! id = Some row ->
     exists topic, db_inbox (getDb w') !! id = Some (mkRow (ident row) (set_topic_id topic (state row)))) /\
  (forall k, db_requests (getDb w') !! k <> db_requests (getDb w) !! k -> authorized claim getDb w w' changes k).
Proof.
  destruct (applyAll_run now claim getDb setDb events changes w receipts w' Hwf Hrun) as [[(Hs & Hr & _) _ _] _].
  split_ands; [done|done|]. intros k Hk. by eapply applyAll_reach.
Qed.

(** ** A sample *)

Definition talk_admission : AppTaskAdmission :=
  mkAdmission "t1" 1 "" "" (Some [("data", JObj [("request", JObj [("id", JStr "app_1");
    ("source", sourceJson (mkSource "human" "u1")); ("input", inputJson (mkInput "message" (JStr "hello")))])])])
    None None None None None.

Definition talk_box : inbox :=
  (updateWhere "app_1" (fun _ => true)
     (fun c => c |> set_waiting_on_kind (Some "task") |> set_waiting_on_id (Some "t1") |> set_task_admission_key (Some "task:app_1"))
     (createAppInboxItem "1" 10 (mkCreate None "demo" None None None None (Some "c1") (Some (num 1)) None None None None None
       (mkSource "human" "u1") (mkInput "message" (JStr "hello")) (Some (num 7)) (Some "k1")) ∅).2).2.

Definition talk_db : Db :=
  mkDb (set_admissions (<["task:app_1" := talk_admission]> (admissions TaskScenario.claimed_app)) TaskScenario.claimed_app)
    talk_box ∅ ∅ ∅ ∅ ∅ [].

Definition greeting : TaskCommunication := communicationOf
  (JObj [("id", JStr "greet"); ("inputId", JStr "app_1"); ("message", JStr "hi");
         ("requestUpdates", JArr [JObj [("id", JStr "r1"); ("expectedRevision", JNum (num 0)); ("scope", JStr "say hi");
                                        ("disposition", JStr "open")]]);
         ("topic", JObj [("kind", JStr "new"); ("title", JStr "Greetings")])]).

Definition greeted : out (list json) * Db :=
  applyTaskCommunication (H := TaskScenario.sample_digest) 20 TaskScenario.sample_claim (fun d => d) (fun d _ => d) plainJournal
    [greeting] talk_db.

Lemma greeting_wf : json_wf (tc_json greeting).
Proof.
  cbn [greeting communicationOf tc_json json_wf map fst].
  split_ands; try exact I; apply (bool_decide_unpack _); vm_compute; exact I.
Qed.

Lemma greeted_done : exists receipts, greeted.1 = Done receipts /\ length receipts = 1%nat.
Proof.
  destruct greeted.1 as [receipts|] eqn:E; [|vm_compute in E; discriminate E]. exists receipts. split; [done|].
  vm_compute in E. by injection E as <-.
Qed.


Lemma communication_scoped_witness :
  authorized TaskScenario.sample_claim (fun d => d) talk_db greeted.2 [greeting] ("demo", "c1", "r1").
Proof.
  destruct greeted_done as (receipts & E & _).
  destruct (communication_scoped (H := TaskScenario.sample_digest) 20 TaskScenario.sample_claim
    (fun d => d) (fun d _ => d) plainJournal [greeting] talk_db receipts greeted.2) as (_ & _ & Hk).
  - exact plain_facts.
  - constructor; [exact greeting_wf|constructor].
  - rewrite <- E. apply surjective_pairing.
  - apply Hk. vm_compute. discriminate.
Defined.

(** A Topic that is chosen by its short reference: the reference is saved as the
    Topic of the input and of its Requests, and the Topic has another id. *)
Definition noted_db : Db :=
  set_topics {["topic_abcd1234ef" := mkTopic "demo" "c1" "Notes" "agent" "u1" 5]} talk_db.
Definition short_change : TaskCommunication := communicationOf
  (JObj [("id", JStr "note"); ("inputId", JStr "app_1");
         ("requestUpdates", JArr [JObj [("id", JStr "r1"); ("expectedRevision", JNum (num 0)); ("scope", JStr "take a note");
                                        ("disposition", JStr "open")]]);
         ("topic", JObj [("kind", JStr "existing"); ("id", JStr "abcd1234")])]).
Definition noted : out (list json) * Db :=
  applyTaskCommunication (H := TaskScenario.sample_digest) 20 TaskScenario.sample_claim (fun d => d) (fun d _ => d) plainJournal
    [short_change] noted_db.

Example short_ref_saved_as_topic :
  is_done noted.1 = true /\
  (fst <$> default None (match readConversationTopic (db_topics noted.2) "demo" "c1" "abcd1234" with Ok t => Some t | Throw _ => None end))
    = Some "topic_abcd1234ef" /\
  (rq_topic_id <$> db_requests noted.2 !! ("demo", "c1", "r1")) = Some (Some "abcd1234") /\
  (c_topic_id ∘ state <$> db_inbox noted.2 !! "app_1") = Some (Some "abcd1234").
Proof. split_ands; vm_compute; reflexivity. Qed.

End CommunicationLaws.
