(* ===== verification/TaskChanges.v ===== *)
(** Changes of a running attempt ([src/app/core/tasks/task-changes.ts]): one
    admission path for requests to other Apps, Conditions, actions and
    communication.  All of it commits in one transaction, together with the final
    settlement when there is one, and a change that was admitted before returns
    its saved receipt.

    What is published after the commit is the result: the publications of new
    requests and the Tasks that became ready.  [validateAction] and
    [validateCondition] are the App's policy; [events] is the journal of
    published facts. *)
From S2P Require Import Prelude Json TaskState TaskTree Transaction ResourceStore StoreInvariant StoreCommit Snapshot.
From S2P Require Import Context Approval Conditions Records Time TaskInputs TaskEvents TaskIntent TaskMutation.
From S2P Require Import TaskOutcome TaskAdmission TaskLease TaskContract TaskActions TaskSettle Effects InboxStore.
From S2P Require Import ConversationRequests ConversationTopics InboxAdmission EventSelector EventAdmission InboxHost.
From S2P Require Import DependencyAdmission TaskCommunication.

Module TaskChanges.
Import ResourceStore TaskInputs TaskMutation TaskOutcome TaskLease TaskContract TaskActions TaskSettle.
Import Effects InboxStore InboxAdmission InboxHost DependencyAdmission TaskCommunication.

#[local] Instance res_bind' : MBind res := fun A B f x => match x with Ok a => f a | Throw e => Throw e end.
#[local] Instance res_ret' : MRet res := @Ok.

(** ** Changes as JSON *)

Definition actionJson (a : TaskAction) : json :=
  match a with
  | unblock_task taskId generation reason =>
      JObj [("kind", JStr "unblock-task"); ("taskId", JStr taskId); ("expectedGeneration", JNum (num generation));
            ("reason", JStr reason)]
  | retire_condition conditionId generation reason =>
      JObj [("kind", JStr "retire-condition"); ("conditionId", JStr conditionId);
            ("expectedConditionGeneration", JNum (num generation)); ("reason", JStr reason)]
  end.

Definition declJson (c : ConditionDecl) : json := JObj (declFields c).

Definition conditionJson (c : TaskCondition) : json :=
  match c with
  | external_condition id spec => declJson (mkDecl id spec)
  | request_condition requestId progress =>
      JObj (("requestId", JStr requestId) :: match progress with Some p => [("progress", JStr (progressName p))] | None => [] end)
  end.

Definition appRequestJson (r : TaskAppRequest) : json :=
  JObj ([("id", JStr (rq_id r)); ("appId", JStr (rq_appId r))] ++
        match rq_taskId r with Some t => [("taskId", JStr t)] | None => [] end ++
        [("input", JObj [("kind", JStr (rq_kind r)); ("data", rq_data r)])]).

(** The declared communication of admitted changes. *)
Definition communicationItems (changes : TaskReconcileResult) : list json :=
  match res_communication changes with Some (JArr l) => l | _ => [] end.

(** Nothing to apply. *)
Definition isEmpty (changes : TaskReconcileResult) : bool :=
  Nat.eqb (length (res_requests changes)) 0 && Nat.eqb (length (res_conditions changes)) 0 &&
  Nat.eqb (length (res_actions changes)) 0 && Nat.eqb (length (communicationItems changes)) 0.

Definition emptyReceipt : TaskChangeReceipt := mkChangeReceipt [] [] [] None.

Section Key.
Context `{Crypto}.

(** A digest of the value with the keys of every object in order. *)
Definition changeKey (value : json) : string := sha256 (JSON_stringify (Conditions.stableValue value)).

Definition operationKeyOf (changes : TaskReconcileResult) (inputKeys : list string) : string :=
  changeKey (JObj ([("requests", JArr (map appRequestJson (res_requests changes)));
                    ("conditions", JArr (map conditionJson (res_conditions changes)));
                    ("actions", JArr (map actionJson (res_actions changes)));
                    ("inputKeys", JArr (map JStr inputKeys))] ++
                   match communicationItems changes with [] => [] | l => [("communication", JArr l)] end)).

Definition actionKeyOf (a : TaskAction) : string := changeKey (JObj [("action", actionJson a)]).

(** ** Conditions *)

Definition interestOf (c : TaskCondition) : option ProgressInterest :=
  match c with external_condition _ spec => cs_progress spec | request_condition _ p => p end.

(** The Condition an earlier or a new declaration names. *)
Definition declaredId (d : Db) (claim : AppTaskClaim) (c : TaskCondition) : res string :=
  match c with
  | external_condition id _ => mret id
  | request_condition requestId _ => resolved ← resolveTaskRequestCondition d claim requestId; mret (cd_id resolved)
  end.

Definition findDecl (id : string) (l : list ConditionDecl) : option ConditionDecl :=
  head (filter (fun c => cd_id c = id) l).

(** An explicit attention choice that differs from the saved one. *)
Fixpoint interestChanged (d : Db) (claim : AppTaskClaim) (linked : list ConditionDecl) (conditions : list TaskCondition)
    : res bool :=
  match conditions with
  | [] => mret false
  | c :: conditions =>
      match interestOf c with
      | None => interestChanged d claim linked conditions
      | Some p =>
          id ← declaredId d claim c;
          match findDecl id linked with
          | Some saved => if bool_decide (default immediate (cs_progress (cd_spec saved)) = p)
                          then interestChanged d claim linked conditions else mret true
          | None => interestChanged d claim linked conditions
          end
      end
  end.

Definition explicitConditions (conditions : list TaskCondition) : list ConditionDecl :=
  omap (fun c => match c with external_condition id spec => Some (mkDecl id spec) | _ => None end) conditions.

Definition with_progress (p : ProgressInterest) (c : ConditionDecl) : ConditionDecl :=
  let s := cd_spec c in
  mkDecl (cd_id c) (mkConditionSpec (cs_type s) (cs_subject s) (cs_expected s) (cs_requestedAction s) (cs_owner s)
    (cs_reviewAfterMs s) (Some p)).

(** A reference to a request, submitted now or before. *)
Definition referenceOf (d : Db) (claim : AppTaskClaim) (submitted : list (string * ConditionDecl)) (linked : list ConditionDecl)
    (requestId : string) (progress : option ProgressInterest) : res ConditionDecl :=
  resolved ← match head (omap (fun e => if String.eqb e.1 requestId then Some e.2 else None) submitted) with
             | Some c => mret c
             | None => resolveTaskRequestCondition d claim requestId
             end;
  let previous := findDecl (cd_id resolved) linked in
  let progress := match progress with
    | Some p => Some p
    | None => match previous with Some c => cs_progress (cd_spec c) | None => Some next_wake end
    end in
  let base := default resolved previous in
  mret (match progress with Some p => with_progress p base | None => base end).

Fixpoint referencesOf (d : Db) (claim : AppTaskClaim) (submitted : list (string * ConditionDecl)) (linked : list ConditionDecl)
    (conditions : list TaskCondition) : res (list ConditionDecl) :=
  match conditions with
  | [] => mret []
  | request_condition requestId progress :: conditions =>
      c ← referenceOf d claim submitted linked requestId progress;
      rest ← referencesOf d claim submitted linked conditions;
      mret (c :: rest)
  | external_condition _ _ :: conditions => referencesOf d claim submitted linked conditions
  end.

Definition retiredIds (actions : list TaskAction) : list string :=
  omap (fun a => match a with retire_condition id _ _ => Some id | _ => None end) actions.

(** ** Actions *)

(** The first objection of the App's policy. *)
Fixpoint objections {A} (validate : A -> option string) (l : list A) : res unit :=
  match l with
  | [] => mret tt
  | a :: l => match nonempty (validate a) with Some problem => Throw problem | None => objections validate l end
  end.

(** Actions with a receipt are not applied again. *)
Definition savedAction (d : Db) (claim : AppTaskClaim) (a : TaskAction) : option TaskChangeReceipt :=
  readTaskChangeReceipt (db_store d) (clm_taskId claim) (clm_generation claim) (actionKeyOf a).

Definition newActions (d : Db) (claim : AppTaskClaim) (actions : list TaskAction) : list TaskAction :=
  filter (fun a => savedAction d claim a = None) actions.

Definition replayedActions (d : Db) (claim : AppTaskClaim) (actions : list TaskAction) : list string :=
  flat_map (fun a => match savedAction d claim a with Some r => cr_actionsApplied r | None => [] end) actions.

End Key.

(** ** Admission *)

(** An operation of the Task store. *)
Definition onStore {A} (m : M A) : E Db A := fun d => let '(r, s) := m (db_store d) in (of_res r, set_store s d).

Record AdmittedChanges : Type := mkAdmitted {
  ad_receipt : TaskChangeReceipt;
  ad_publications : list Publication }.

Section Changes.
Context `{Crypto} `{SchemaChecker} (registry : option (list AppDef)) (events : AppTaskEvents Db).
Context (validateAction : TaskAction -> option string) (validateCondition : ConditionDecl -> option string).
Context (now : Z) (claim : AppTaskClaim) (acceptedLiveEventIds : option (list Z)).

(** Changes that have no receipt, or whose attention choice is new. *)
Definition admitFresh (changes : TaskReconcileResult) (inputKeys : list string) (key : string)
    (linked unfinished : list ConditionDecl) : E Db AdmittedChanges :=
  let conditions := res_conditions changes in
  _ ← checks (objections validateAction (res_actions changes));
  _ ← checks (objections validateCondition (explicitConditions conditions));
  explicit ← checks (mergeTaskConditions (explicitConditions conditions) []);
  _ ← checks (mergeTaskConditions (linked ++ explicit) (map cd_id linked));
  '(submitted, publications) ← admitTaskAppRequests registry None now claim (res_requests changes) unfinished;
  references ← asks (fun d => referencesOf d claim submitted linked conditions);
  let declaredIds := map cd_id (references ++ explicit) in
  merged ← checks (mergeTaskConditions (linked ++ references ++ explicit) (map cd_id (references ++ linked)));
  let resolved := filter (fun c => set_has (cd_id c) declaredIds = true) merged in
  if existsb (fun c => set_has (cd_id c) (retiredIds (res_actions changes))) resolved then
    throw "Task changes cannot retire and redeclare the same Condition"
  else
  actions ← reads (fun d => newActions d claim (res_actions changes));
  replayed ← reads (fun d => replayedActions d claim (res_actions changes));
  communication ← match communicationItems changes with
                  | [] => mret None
                  | l => receipts ← applyTaskCommunication now claim (fun d => d) (fun d _ => d) events (map communicationOf l);
                         mret (Some (JArr receipts))
                  end;
  receipt ← onStore (applyRunningTaskChanges now claim
    (mkChanges key (map actionKeyOf actions) replayed
       (map (fun e => mkRequestReceipt e.1 (after "id:" (cs_subject (cd_spec e.2)))) submitted)
       communication (map declJson resolved) (map actionJson actions) (Some (res_facts changes))
       (mkResultScope acceptedLiveEventIds (Some inputKeys) false)));
  mret (mkAdmitted receipt publications).

Definition admitChanges (changes : TaskReconcileResult) : E Db AdmittedChanges :=
  _ ← asks (fun d => assertAppTaskClaimCurrent (db_store d) claim);
  if isEmpty changes then mret (mkAdmitted emptyReceipt [])
  else
  inputKeys ← onStore (readTaskChangeInputKeys claim (res_inputKeys changes) acceptedLiveEventIds);
  let key := operationKeyOf changes inputKeys in
  previous ← reads (fun d => readTaskChangeReceipt (db_store d) (clm_taskId claim) (clm_generation claim) key);
  '(linked, unfinished) ← asks (fun d => linkedTaskAppDependencyConditions (db_store d) (clm_taskId claim));
  match previous with
  | Some receipt =>
      changed ← asks (fun d => interestChanged d claim linked (res_conditions changes));
      if (changed : bool) then admitFresh changes inputKeys key linked unfinished
      else mret (mkAdmitted receipt [])
  | None => admitFresh changes inputKeys key linked unfinished
  end.

Record Applied : Type := mkApplied {
  ap_receipt : TaskChangeReceipt;
  ap_publications : list Publication;
  ap_readied : list string }.

(** The Tasks whose readiness is published. *)
Definition readied (actions : list TaskAction) : list string :=
  omap (fun a => match a with unblock_task taskId _ _ => Some taskId | _ => None end) actions.

(** [settle]: the final settlement, which joins the transaction. *)
Definition applyTaskChanges (settle : TaskChangeReceipt -> E Db unit) (output : json) : E Db Applied :=
  changes ← checks (admitTaskChanges output);
  admitted ← atomic (a ← admitChanges changes; _ ← settle (ad_receipt a); mret a);
  mret (mkApplied (ad_receipt admitted) (ad_publications admitted) (readied (res_actions changes))).

End Changes.
End TaskChanges.
