(* ===== verification/ChangesLaws.v ===== *)
(** What holds of the changes of a running attempt ([TaskChanges]): the receipt
    of an admitted change is saved with the attempt, which stays the Task's
    running one, so that sending the change again returns the receipt. *)
From S2P Require Import Prelude Json TaskState TaskTree Transaction ResourceStore StoreInvariant StoreCommit StoreEffects.
From S2P Require Import Snapshot Context Approval Conditions Records Time TaskInputs TaskEvents TaskIntent TaskMutation.
From S2P Require Import TaskOutcome TaskAdmission TaskLease OutputPaths TaskClaim TaskContract TaskActions TaskSettle.
From S2P Require Import TaskRelease TaskControl TaskQueries TaskLaws TaskScenario TaskOwnership TaskReconciler TaskReplay.
From S2P Require Import TaskAnswers Effects InboxStore ConversationRequests ConversationTopics InboxAdmission EventSelector.
From S2P Require Import EventAdmission InboxHost InboxLaws DependencyAdmission DependencyLaws TaskCommunication CommunicationLaws TaskChanges.

Module ChangesLaws.
Import ResourceStore TaskTree TaskInputs TaskMutation TaskOutcome TaskLease TaskContract TaskActions TaskSettle.
Import TaskLaws StoreEffects TaskOwnership TaskAnswers.

(** ** The claimed Task in the tree *)

Definition owner_view (r : AppTaskResource) : option string * Z := (st_currentAttemptId (status r), md_generation (metadata r)).

(** The tree keeps its attempts, and the owner and generation of the Task. *)
Definition frame (t : string) (tree tree' : TaskTree) : Prop :=
  attempts tree' = attempts tree /\ owner_view <$> obj_get t (resources tree') = owner_view <$> obj_get t (resources tree).

#[export] Instance frame_preorder t : PreOrder (frame t).
Proof. split; [by intros tree|]. intros a b c [A1 R1] [A2 R2]. split; congruence. Qed.

Lemma frame_upd t k f tree : (forall r, owner_view (f r) = owner_view r) -> frame t tree (updResource k f tree).
Proof.
  intros Hf. split; [apply upd_resource_attempts|]. rewrite upd_resource_get. case_cond; [|done].
  destruct (obj_get t (resources tree)); [|done]. simpl. by rewrite Hf.
Qed.

Lemma frame_other t k f tree : k <> t -> frame t tree (updResource k f tree).
Proof. intros Hne. split; [apply upd_resource_attempts|]. rewrite upd_resource_get, (proj2 (String.eqb_neq _ _)); done. Qed.

Lemma touch_view now f r : st_currentAttemptId (f (status r)) = st_currentAttemptId (status r) -> owner_view (touchResource now f r) = owner_view r.
Proof. intros Hf. unfold owner_view. by rewrite touch_current, Hf. Qed.

Lemma frame_same t tree tree' : attempts tree' = attempts tree -> resources tree' = resources tree -> frame t tree tree'.
Proof. intros Ha Hr. split; congruence. Qed.

Lemma frame_actions app now claim tree actions tree' lines r :
  obj_get (clm_taskId claim) (resources tree) = Some r -> st_phase (status r) = running ->
  applyTaskActions app now tree claim actions = Ok (tree', lines) -> frame (clm_taskId claim) tree tree'.
Proof.
  intros Hr Hrun ([] & Hv & H)%res_bind_Ok. unfold validateTaskActions in Hv. destruct (Nat.ltb _ _); [done|].
  assert (forall a, a ∈ actions -> kindIs a "retire-condition" = false ->
    textField (default [] (actionFields a)) "taskId" <> clm_taskId claim) as Hother.
  { intros a Ha Hk Eq. destruct (unblocks_other _ _ _ _ _ Hv Ha Hk) as (r' & Hr' & Hn). rewrite Eq in Hr'. congruence. }
  clear Hv Hr. revert tree lines H.
  induction actions as [|a actions IH]; intros tree lines; cbn [applyEach]; [by intros [= <- _]|].
  intros ([t1 line] & H1 & H)%res_bind_Ok. apply res_bind_Ok in H as ([t2 ls] & H2 & [= <- <-]).
  transitivity t1; [|eapply IH; [|exact H2]; intros b Hb; apply Hother; by right].
  unfold applyAction in H1. destruct (kindIs a "retire-condition") eqn:Ek.
  - injection H1 as <- _. unfold unlinkExactTaskCondition. case_cond; [|reflexivity].
    etrans; [|by apply frame_same]. apply frame_upd. intros r0. by apply touch_view.
  - apply res_bind_Ok in H1 as (r1 & _ & H1). apply res_bind_Ok in H1 as ([] & _ & [= <- _]).
    apply frame_other, (Hother a); [by left|done].
Qed.

Lemma frame_materialize now t l tree tree' : materializeWaitingConditions now t l tree = Ok tree' -> frame t tree tree'.
Proof.
  intros (ds & _ & H)%res_bind_Ok. apply res_bind_Ok in H as (t1 & H1 & [= <-]).
  transitivity t1; [|etrans; [|by apply frame_same]; apply frame_upd; intros r; by apply touch_view].
  revert tree H1. generalize (obj_values ds) as decls. intros decls. induction decls as [|d decls IH]; intros tree; cbn [materializeAll];
    [intros [= <-]; reflexivity|]. intros (t2 & H2 & H)%res_bind_Ok. transitivity t2; [|by apply IH].
  unfold materializeOne in H2. apply res_bind_Ok in H2 as (sp & _ & H2). repeat case_cond_in H2; simplify_eq; try reflexivity;
    try by apply frame_same. etrans; [|apply frame_upd]; [by apply frame_same|]. intros r. unfold owner_view, rebaseWaits. by case_cond.
Qed.

Lemma frame_retain s t wait keys tree tree' : retainKeys s t wait keys tree = Ok tree' -> frame t tree tree'.
Proof.
  revert tree. induction keys as [|k keys IH]; intros tree; cbn [retainKeys]; [intros [= <-]; reflexivity|].
  intros (r & Hr & H)%res_bind_Ok. apply res_bind_Ok in H as (r' & Hw%retain_waits & H). etrans; [|by eapply IH].
  unfold taskOf in Hr. destruct (obj_get t (resources tree)) as [r0|] eqn:E; [|done]. injection Hr as ->. split; [done|].
  simpl. rewrite obj_get_set, String.eqb_refl, E. simpl. destruct Hw as (Em & _ & Es). unfold owner_view. by rewrite Em, Es.
Qed.

(** ** The commit of changes *)

(** Only the attempt whose version moved is written. *)
Lemma scope_rows s s' now tree scope tree' a y :
  sound s -> derived s None tree -> obj_wf (attempts tree) -> att_id y = a ->
  sc_originalAttemptVersions scope = map (fun x => (att_id x, att_resourceVersion x)) (obj_values (attempts tree)) ->
  attempts tree' = obj_set a y (attempts tree) -> obj_has a (attempts tree) = true -> att_taskId y ∈ sc_writeTaskIds scope ->
  obj_get a (sc_originalAttemptVersions scope) <> Some (att_resourceVersion y) ->
  commitScope now scope tree' (fun m => m) s = (Ok tt, s') ->
  ResourceStore.attempts s' !! a = Some (attemptRow y) /\ (forall b, b <> a -> ResourceStore.attempts s' !! b = ResourceStore.attempts s !! b) /\
  m_app_metadata s' = m_app_metadata s /\ (forall k, admissions s' !! k = admissions s !! k) /\ appId s' = appId s.
Proof.
  intros Hs Hd Hwf Hy Hver Hatt Hhas Hin Hv H. unfold commitScope in H. run_step H m s1. apply run_commit in H as [_ Hm].
  unfold finishResourceMutationScope in E. apply res_bind_Ok in E as (ws & _ & [= <-]).
  assert (forall k x, (k, x) ∈ attempts tree -> att_id x = k) as Hids.
  { intros k x Hx. destruct (dv_attempts _ _ _ Hd k x Hx) as (x0 & Hx0 & E1 & _). rewrite E1. eapply stored_attempt_id; [apply Hs|done]. }
  assert (forall x, x ∈ obj_values (attempts tree') -> x = y \/ (x ∈ obj_values (attempts tree) /\ att_id x <> a)) as Hvals.
  { intros x ([k z] & -> & Hz)%list_elem_of_fmap. rewrite Hatt in Hz. simpl.
    pose proof (obj_get_wf _ _ _ (obj_set_wf _ _ _ Hwf) Hz) as Hget. rewrite obj_get_set in Hget.
    destruct (String.eqb_spec a k) as [->|Hne]; [left; congruence|right].
    apply obj_get_Some_elem in Hget. split; [apply list_elem_of_fmap; by exists (k, z)|]. rewrite (Hids k z Hget). congruence. }
  pose proof (fun b => applyMutation_attempt_rows _ _ _ _ _ b Hm) as Hrows. cbn [mu_attempts mu_deleteAttemptIds] in Hrows.
  split_ands.
  - rewrite Hrows, <- Hy, lastBy_unique; [done| |].
    + apply list_elem_of_filter. split; [split|].
      * apply elem_of_tracks. by left.
      * rewrite tracks_versions. by rewrite Hy.
      * apply list_elem_of_fmap. exists (a, y). split; [done|]. rewrite Hatt. apply obj_get_Some_elem. by rewrite obj_get_set, String.eqb_refl.
    + intros x [_ Hx]%list_elem_of_filter Ex. destruct (Hvals x Hx) as [->|[_ Hne]]; [done|]. congruence.
  - intros b Hb. rewrite Hrows. destruct (lastBy _ _ b) as [x|] eqn:El; [|done].
    apply lastBy_Some in El as [[[_ Hx2] Hx]%list_elem_of_filter Ex]. destruct Hx2.
    rewrite tracks_versions, Hver, (original_version s None tree); [|apply Hs|done].
    destruct (Hvals x Hx) as [->|[([k z] & -> & Hz)%list_elem_of_fmap _]]; [congruence|]. simpl.
    by rewrite (Hids k z Hz), (obj_get_wf _ _ _ Hwf Hz).
  - by eapply applyMutation_metadata.
  - intros k. by rewrite (applyMutation_admissions _ _ _ _ _ _ Hm).
  - by eapply applyMutation_appId.
Qed.

(** What changes of a running attempt leave in the store: their receipt with the
    attempt, and the claim as it was. *)
Lemma changes_run now claim input s receipt s' :
  sound s -> applyRunningTaskChanges now claim input s = (Ok receipt, s') ->
  exists x lines, ResourceStore.attempts s !! clm_attemptId claim = Some x /\
    ResourceStore.attempts s' !! clm_attemptId claim = Some (attemptRow (recordChangeReceipts input lines receipt (ar_attempt x))) /\
    (forall b, b <> clm_attemptId claim -> ResourceStore.attempts s' !! b = ResourceStore.attempts s !! b) /\
    att_taskId (ar_attempt x) = clm_taskId claim /\ att_taskGeneration (ar_attempt x) = clm_generation claim /\
    assertAppTaskClaimCurrent s' claim = Ok tt /\
    m_app_metadata s' = m_app_metadata s /\ (forall k, admissions s' !! k = admissions s !! k) /\ appId s' = appId s.
Proof.
  intros Hs Hrun. unfold applyRunningTaskChanges in Hrun. run_step Hrun tree s1. rename E into Hctx.
  destruct (matchingTaskAttempt tree claim) as [[r x]|] eqn:Em; [|done].
  destruct (match_owns _ _ _ _ _ _ Hs Hctx Em) as (Hphase & Htask & Hid & Hne & Hgen).
  pose proof (match_task _ _ _ _ Em) as (Hr & Hx & Hc & _). pose proof (context_derived s _ tree None Hctx) as Hd.
  pose proof (context_attempts_wf _ _ _ Hctx) as Hwf.
  run_step Hrun keys s1. run_step Hrun u s1. run_step Hrun u1 s1. run_step Hrun pr s1. destruct pr as [tree1 lines].
  rename E2 into Hacts. run_step Hrun tree2 s1. rename E2 into Hmat. run_step Hrun tree3 s1. rename E2 into Hret. cbv zeta in Hrun.
  run_step Hrun v s2. destruct v. rename E2 into Hcommit. injection Hrun as Hreceipt Hs2. rewrite Hreceipt in Hcommit. subst s2.
  set (scope := beginResourceMutationScope tree claim (rc_actions input)) in *.
  set (y := recordChangeReceipts input lines receipt x).
  set (tree' := tree3 |> updAttempt (clm_attemptId claim) (recordChangeReceipts input lines receipt)
                      |> updResource (clm_taskId claim) (touchResource now (fun st => st))) in *.
  assert (frame (clm_taskId claim) tree tree3) as Hframe.
  { transitivity tree1; [by eapply frame_actions|]. transitivity tree2; [|by eapply frame_retain].
    destruct (rc_conditions input); [injection Hmat as <-; reflexivity|by eapply frame_materialize]. }
  destruct Hframe as [Ha3 Hr3]. rewrite Hr in Hr3.
  assert (attempts tree' = obj_set (clm_attemptId claim) y (attempts tree)) as Hatt.
  { unfold tree'. cbv beta. rewrite upd_resource_attempts. unfold updAttempt. rewrite Ha3, Hx. done. }
  assert (derived s None tree') as Hd'.
  { assert (derived s None tree1) as Hd1 by by eapply derived_actions.
    assert (derived s None tree2) as Hd2 by (destruct (rc_conditions input); [by injection Hmat as <-|by eapply derived_materialize]).
    assert (derived s None tree3) as Hd3 by by eapply derived_retainKeys.
    apply derived_touch; [|done]. apply derived_upd_attempt; [done|]. intros z. auto. }
  assert (clm_taskId claim <> "") as Hnt by by eapply match_settles.
  assert (clm_taskId claim ∈ sc_writeTaskIds scope) as Hin by (eapply elem_of_begin; [exact Hr|done|by left]).
  pose proof (context_attempts _ _ _ _ _ Hctx (obj_get_Some_elem _ _ _ Hx)) as Hrow.
  unfold readAttempt in Hrow. destruct (ResourceStore.attempts s !! clm_attemptId claim) as [row|] eqn:Erow; [|done]. injection Hrow as Hrow.
  destruct (scope_rows s s' now tree scope tree' (clm_attemptId claim) y Hs Hd Hwf) as (R1 & R2 & R3 & R4 & R5); auto.
  { apply begin_versions. }
  { unfold obj_has. by rewrite Hx. }
  { unfold y. simpl. by rewrite Htask. }
  { unfold scope. rewrite begin_versions, (original_version s None tree), Hx by (done || apply Hs). simpl. intros [= Hv].
    unfold y, recordChangeReceipts in Hv. simpl in Hv. lia. }
  assert (exists r', obj_get (clm_taskId claim) (resources tree') = Some r' /\ owner_view r' = owner_view r) as (r' & Hr' & Hview).
  { unfold tree'. cbv beta. rewrite upd_resource_get, String.eqb_refl, upd_attempt_resources.
    destruct (obj_get (clm_taskId claim) (resources tree3)) as [r3|]; [|done]. injection Hr3 as Hv3.
    simpl. eexists. split; [done|]. rewrite touch_view by done. unfold owner_view. congruence. }
  exists row, lines. rewrite Hrow. split_ands; auto.
  destruct (scope_commit s s' None now scope tree' (fun m => m) Hs Hd' ltac:(done) ltac:(auto with may) ltac:(done) Hcommit) as [_ Hread].
  destruct (Hread _ _ Hin Hr') as [Hread' _]. unfold assertAppTaskClaimCurrent. rewrite Hread'.
  assert (readAttempt s' (clm_attemptId claim) = Some y) as -> by (unfold readAttempt; by rewrite R1).
  unfold matchingTaskAttempt in Em. rewrite Hr, Hx in Em. destruct (bool_decide _) eqn:Eg in Em; [|done].
  apply bool_decide_eq_true in Eg. injection Eg as Eg. unfold owner_view in Hview. injection Hview as Hcur Hg.
  unfold matchingClaimAttempt in *. rewrite Hcur. change (att_state y) with (att_state x).
  change (att_taskGeneration y) with (att_taskGeneration x). change (att_handler y) with (att_handler x).
  change (att_specHash y) with (att_specHash x). destruct (_ && _ && _ && _ && _); [|done].
  rewrite (bool_decide_true (is_Some _)), (bool_decide_true (_ = Some _)) by (try done; simpl; congruence). done.
Qed.

(** ** Receipts *)

Import Effects InboxStore InboxAdmission InboxHost DependencyAdmission DependencyLaws TaskCommunication CommunicationLaws TaskChanges.

Lemma generation_elem s t g x :
  x ∈ generationAttempts s t g <->
  exists a row, ResourceStore.attempts s !! a = Some row /\ ar_task_id row = t /\ ar_task_generation row = g /\ x = ar_attempt row.
Proof.
  unfold generationAttempts. rewrite list_elem_of_fmap. split.
  - intros (row & -> & Hrow). rewrite (merge_sort_Permutation newestAttempt) in Hrow.
    apply list_elem_of_filter in Hrow as [[Ht Hg] Hrow]. apply list_elem_of_fmap in Hrow as ([a row'] & -> & Hin).
    apply elem_of_map_to_list in Hin. by exists a, row'.
  - intros (a & row & Hrow & Ht & Hg & ->). exists row. split; [done|]. rewrite (merge_sort_Permutation newestAttempt).
    apply list_elem_of_filter. split; [done|]. apply list_elem_of_fmap. exists (a, row). split; [done|]. by apply elem_of_map_to_list.
Qed.

Lemma head_omap_None {A B} (f : A -> option B) l : head (omap f l) = None -> forall x, x ∈ l -> f x = None.
Proof.
  induction l as [|y l IH]; intros Hh x Hx; [by apply not_elem_of_nil in Hx|]. simpl in Hh. destruct (f y) eqn:E; [done|].
  apply elem_of_cons in Hx as [->|Hx]; [done|by apply IH].
Qed.

Lemma head_omap_unique {A B} (f : A -> option B) l x b :
  x ∈ l -> f x = Some b -> (forall y c, y ∈ l -> f y = Some c -> c = b) -> head (omap f l) = Some b.
Proof.
  intros Hx Hf Hu. destruct (head (omap f l)) as [c|] eqn:E; [|by rewrite (head_omap_None f l E x Hx) in Hf].
  f_equal. assert (c ∈ omap f l) as Hc by (destruct (omap f l); [done|injection E as <-; by left]).
  apply list_elem_of_omap in Hc as (y & Hy & Hfy). eauto.
Qed.

(** The receipt of changes that had none is found under its key. *)
Lemma receipt_found now claim input s receipt s' :
  sound s -> applyRunningTaskChanges now claim input s = (Ok receipt, s') ->
  readTaskChangeReceipt s (clm_taskId claim) (clm_generation claim) (rc_operationKey input) = None ->
  readTaskChangeReceipt s' (clm_taskId claim) (clm_generation claim) (rc_operationKey input) = Some receipt.
Proof.
  intros Hs Hrun Hnone. destruct (changes_run _ _ _ _ _ _ Hs Hrun) as (x & lines & Hx & Hy & Hother & Ht & Hg & _).
  set (y := recordChangeReceipts input lines receipt (ar_attempt x)) in *. unfold readTaskChangeReceipt in *.
  apply (head_omap_unique _ _ y).
  - apply generation_elem. exists (clm_attemptId claim), (attemptRow y). split_ands; try done.
  - unfold y, recordChangeReceipts. simpl. by rewrite obj_get_set, String.eqb_refl.
  - intros z c (a & row & Hrow & Et & Eg & ->)%generation_elem Hz. destruct (decide (a = clm_attemptId claim)) as [->|Hne].
    + rewrite Hy in Hrow. injection Hrow as <-. unfold y, recordChangeReceipts in Hz. simpl in Hz.
      rewrite obj_get_set, String.eqb_refl in Hz. by injection Hz.
    + rewrite Hother in Hrow by done. pose proof (head_omap_None _ _ Hnone (ar_attempt row)) as Hn. simpl in Hn.
      rewrite Hn in Hz; [done|]. apply generation_elem. by exists a, row.
Qed.

(** ** Runs of changes *)

Lemma onStore_done {A} (m : M A) d a d' :
  onStore m d = (Done a, d') -> exists s', m (db_store d) = (Ok a, s') /\ d' = set_store s' d.
Proof. unfold onStore. destruct (m (db_store d)) as [[x|e] s']; [|done]. intros [= -> <-]. eauto. Qed.

Lemma admit_store `{Crypto} registry emit now claim requests existing d r d1 :
  admitTaskAppRequests registry emit now claim requests existing d = (Done r, d1) -> db_store d1 = db_store d.
Proof.
  destruct r as [conds pubs]. intros Hrun. destruct (admit_run _ _ _ _ _ _ _ _ _ _ Hrun) as (cs & ms & matched & ps & _ & Hall & _).
  clear Hrun. revert d ps Hall. generalize (newRequests ms) as l. intros l. induction l as [|q l IH]; intros d ps Hall; [by injection Hall as _ <-|].
  simpl in Hall. apply bind_run in Hall as (p & d2 & Hp & Hall). apply bind_run in Hall as (rest & d3 & Hrest & [= _ <-]).
  destruct (admitNew_run _ _ _ _ _ _ _ Hp) as (Hst & _). rewrite <- Hst. by eapply IH.
Qed.

Lemma readAdmissions_same s s' keys :
  m_app_metadata s' = m_app_metadata s -> (forall k, admissions s' !! k = admissions s !! k) ->
  readAdmissions s' keys = readAdmissions s keys.
Proof.
  intros Hm Ha. apply map_eq in Ha. unfold readAdmissions, Context.readTaskContext. rewrite Hm. destruct (m_app_metadata s); [|done].
  cbn. unfold Context.contextAdmissions. by rewrite Ha.
Qed.

(** Reading the covered inputs a change names. *)
Lemma named_keys claim keys live s ks s' :
  readTaskChangeInputKeys claim (Some keys) live s = (Ok ks, s') ->
  s' = s /\ ks = set_of keys /\ forall s2, m_app_metadata s2 = m_app_metadata s -> (forall k, admissions s2 !! k = admissions s !! k) ->
    readTaskChangeInputKeys claim (Some keys) live s2 = (Ok (set_of keys), s2).
Proof.
  unfold readTaskChangeInputKeys. intros Hrun. run_step Hrun tree s1. apply run_gets in Hrun as [Hk ->].
  unfold resultInputKeys in Hk. cbn [rs_inputKeys] in Hk. destruct (_ || _) eqn:Eb in Hk; [done|].
  apply res_bind_Ok in Hk as (adms & Hadm & Hk). apply res_bind_Ok in Hk as ([] & Hchk & [= <-]). split_ands; try done.
  intros s2 Hm Ha. pose proof (readAdmissions_same s s2 keys Hm Ha) as Hsame. rewrite Hadm in Hsame. unfold readContext, Context.readTaskContext in *. rewrite gets_bind, Hm.
  destruct (m_app_metadata s) as [md|]; [|done]. unfold gets, resultInputKeys. cbn [rs_inputKeys]. rewrite Eb.
  rewrite Hsame. cbn [mbind res_bind]. by rewrite Hchk.
Qed.

Lemma no_interest_changed `{Crypto} d claim linked conditions :
  (forall c, c ∈ conditions -> interestOf c = None) -> interestChanged d claim linked conditions = Ok false.
Proof.
  induction conditions as [|c conditions IH]; intros Hc; [done|]. cbn [interestChanged]. rewrite (Hc c) by (by left).
  apply IH. intros x Hx. apply Hc. by right.
Qed.

Lemma fresh_run `{Crypto} registry events validateAction validateCondition now claim live changes inputKeys key linked unfinished d a d1 :
  Facts (fun d => d) (fun d _ => d) events -> Forall json_wf (communicationItems changes) ->
  admitFresh registry events validateAction validateCondition now claim live changes inputKeys key linked unfinished d = (Done a, d1) ->
  exists input, rc_operationKey input = key /\
    applyRunningTaskChanges now claim input (db_store d) = (Ok (ad_receipt a), db_store d1).
Proof.
  intros Hf Hwf Hrun. unfold admitFresh in Hrun. rewrite checks_bind in Hrun. destruct (objections validateAction _); [|done].
  rewrite checks_bind in Hrun. destruct (objections validateCondition _); [|done]. rewrite checks_bind in Hrun.
  destruct (mergeTaskConditions (explicitConditions _) []) as [explicit|]; [|done]. rewrite checks_bind in Hrun.
  destruct (mergeTaskConditions (linked ++ explicit) _); [|done]. apply bind_run in Hrun as ([submitted pubs] & d2 & H2 & Hrun).
  apply admit_store in H2. rewrite asks_bind in Hrun. destruct (referencesOf _ _ _ _ _) as [refs|]; [|done]. rewrite checks_bind in Hrun.
  destruct (mergeTaskConditions (linked ++ refs ++ explicit) _) as [merged|]; [|done]. destruct (existsb _ _); [done|].
  rewrite !bind_reads in Hrun. apply bind_run in Hrun as (comm & d3 & H3 & Hrun).
  assert (db_store d3 = db_store d2) as Hst3.
  { destruct (communicationItems changes) as [|j l]; [by injection H3 as _ <-|].
    apply bind_run in H3 as (rs & d4 & H3 & [= _ <-]).
    assert (Forall (fun c => json_wf (tc_json c)) (map communicationOf (j :: l))) as Hwf' by (apply Forall_fmap; exact Hwf).
    destruct (applyAll_run now claim (fun d => d) (fun d _ => d) events _ _ _ _ Hwf' H3) as [[(Hs & _) _ _] _]. done. }
  apply bind_run in Hrun as (receipt & d4 & H4 & [= <- <-]). apply onStore_done in H4 as (s' & H4 & ->). rewrite Hst3, H2 in H4.
  eexists. split; [|exact H4]. done.
Qed.

(** A call whose receipt is saved returns it. *)
Lemma saved_replay `{Crypto} registry events validateAction validateCondition now claim live changes keys s r d :
  isEmpty changes = false -> res_inputKeys changes = Some keys -> (forall c, c ∈ res_conditions changes -> interestOf c = None) ->
  readTaskChangeInputKeys claim (Some keys) live s = (Ok (set_of keys), s) -> is_Some (m_app_metadata s) ->
  m_app_metadata (db_store d) = m_app_metadata s -> (forall k, admissions (db_store d) !! k = admissions s !! k) ->
  assertAppTaskClaimCurrent (db_store d) claim = Ok tt ->
  readTaskChangeReceipt (db_store d) (clm_taskId claim) (clm_generation claim) (operationKeyOf changes (set_of keys)) = Some r ->
  admitChanges registry events validateAction validateCondition now claim live changes d = (Done (mkAdmitted r []), d).
Proof.
  intros Hempty Hkeys Hinterest Hks [md Hmd] Hm Ha Hc Hr. destruct (named_keys _ _ _ _ _ _ Hks) as (_ & _ & Hagain).
  unfold admitChanges. rewrite asks_bind, Hc, Hempty, Hkeys.
  assert (onStore (readTaskChangeInputKeys claim (Some keys) live) d = (Done (set_of keys), d)) as Hk.
  { unfold onStore. rewrite (Hagain (db_store d) Hm Ha). by destruct d. }
  rewrite (bind_done _ _ _ _ _ Hk), bind_reads, asks_bind, Hr.
  assert (exists p, linkedTaskAppDependencyConditions (db_store d) (clm_taskId claim) = Ok p) as ([l u] & ->).
  { unfold linkedTaskAppDependencyConditions, Context.readTaskContext. rewrite Hm, Hmd. cbn. eauto. }
  rewrite asks_bind, no_interest_changed by done. done.
Qed.

Lemma call_raises `{Crypto} `{SchemaChecker} registry events validateAction validateCondition now claim live settle output d c e d2 :
  applyTaskChanges registry events validateAction validateCondition now claim live settle output d = (Raise c e, d2) -> d2 = d.
Proof.
  unfold applyTaskChanges. rewrite checks_bind. destruct (admitTaskChanges output) as [changes|]; [|by intros [= _ _ <-]].
  match goal with |- (atomic ?m ≫= _) _ = _ -> _ => destruct (atomic m d) as [[x|c0 e0] d3] eqn:Ea end.
  - by rewrite (bind_done _ _ _ _ _ Ea).
  - rewrite (bind_raise _ _ _ _ _ _ Ea). intros [= _ _ <-]. by eapply atomic_raise.
Qed.

(** ** Properties *)

(** Calls that are not joined with a settlement. *)
Definition noSettlement (r : TaskChangeReceipt) : E Db unit := mret tt.


Definition design_changes : json :=
  JObj [("inputKeys", JArr []);
        ("requests", JArr [JObj [("id", JStr "design"); ("appId", JStr "studio");
                                 ("input", JObj [("kind", JStr "message"); ("data", JStr "a logo")])]]);
        ("conditions", JArr [JObj [("requestId", JStr "design")]])].

#[local] Instance schema_checker : SchemaChecker := {| Check := validates; firstError := fun _ _ => None |}.

Definition design_call (d : Db) : out Applied * Db :=
  applyTaskChanges (H := TaskScenario.sample_digest) None plainJournal (fun _ => None) (fun _ => None) (TaskScenario.start + 1500)
    TaskScenario.sample_claim None noSettlement design_changes d.

Definition designed : out Applied * Db := design_call asking_db.


End ChangesLaws.
