(* ===== verification/EventEnvelope.v ===== *)
(** Event envelopes ([packages/control/src/event-envelope.ts],
    [src/app/core/events/task-target.ts]): the canonical form of an event, the
    owner it is filed under and the Task it is addressed to.

    An event is the object of its enumerable fields; the hidden fields that the
    bus and the writer attach are in [EventLog]. *)
From S2P Require Import Prelude Json.

Module EventEnvelope.

(** [{ ...a, ...b }]. *)
Definition spread {V} (a b : obj V) : obj V := fold_left (fun o e => obj_set e.1 e.2 o) b a.

(** [{ a, b, ...rest }]: the fields that are not named. *)
Definition rest {V} (keys : list string) (o : obj V) : obj V :=
  filter (fun e => negb (set_has e.1 keys) = true) o.

Definition nonEmptyString (v : option json) : option string :=
  match v with Some (JStr s) => if nonblank s then Some (trim s) else None | _ => None end.

(** A field that is present only when the value is. *)
Definition field (k : string) (v : option json) : obj json :=
  match v with Some v => [(k, v)] | None => [] end.

Definition isKnownOwner (value : string) : bool :=
  existsb (startsWith value) ["system:"; "agent:"; "app:"; "human:"; "project:"; "task:"].

Definition normalizeEventOwner (owner fallback : option json) : string :=
  let value := match nonEmptyString owner with
               | Some v => v
               | None => default "system:host" (nonEmptyString fallback)
               end in
  if isKnownOwner value then value
  else if String.eqb (toLowerCase value) "human" then "human:operator"
  else "agent:" +:+ value.

Definition ownerFromTarget (target : option json) : option string :=
  match target with
  | Some (JObj t) =>
      match obj_get "human" t with
      | Some (JBool true) => Some "human:operator"
      | _ => match nonEmptyString (obj_get "project" t) with
             | Some p => Some ("project:" +:+ p)
             | None => None
             end
      end
  | _ => None
  end.

Definition inferEventOwner (owner target fallback : option json) : string :=
  match nonEmptyString owner with
  | Some _ => normalizeEventOwner owner None
  | None => match ownerFromTarget target with
            | Some o => o
            | None => normalizeEventOwner fallback None
            end
  end.

Definition isCanonicalEventEnvelope (event : obj json) : bool :=
  bool_decide (is_Some (nonEmptyString (obj_get "source" event))) &&
  bool_decide (is_Some (nonEmptyString (obj_get "owner" event))) && isRecord (obj_get "data" event).

Definition envelopeFields : list string :=
  ["type"; "source"; "owner"; "target"; "action"; "urgency"; "ttl_ms"; "timestamp"; "visibility"; "trace"; "data"].

Definition hasOnlyEnvelopeFields (event : obj json) : bool :=
  forallb (fun k => set_has k envelopeFields) (obj_keys event).

(** The first value that is a record, a nonempty text, a number. *)
Definition recordOr (v d : option json) : option json :=
  if isRecord v then v else if isRecord d then d else None.
Definition textOr (v d : option json) : option json :=
  JStr <$> match nonEmptyString v with Some s => Some s | None => nonEmptyString d end.
Definition numberOr (v d : option json) : option json :=
  match v with
  | Some (JNum n) => Some (JNum n)
  | _ => match d with Some (JNum n) => Some (JNum n) | _ => None end
  end.

Definition buildCanonicalEventEnvelope (type : string) (input defaults : obj json) : obj json :=
  if isCanonicalEventEnvelope input && hasOnlyEnvelopeFields input then
    spread input ([("type", JStr type)] ++ field "source" (JStr <$> nonEmptyString (obj_get "source" input)) ++
                  [("owner", JStr (normalizeEventOwner (obj_get "owner" input) None))])
  else
    let payload := rest envelopeFields input in
    let eventData := match obj_get "data" input with Some (JObj d) => spread d payload | _ => payload end in
    let target := recordOr (obj_get "target" input) (obj_get "target" defaults) in
    let pick k := textOr (obj_get k input) (obj_get k defaults) in
    let source := match pick "source" with Some s => s | None => JStr "control" end in
    [("type", JStr type); ("source", source);
     ("owner", JStr (inferEventOwner (obj_get "owner" input) target (obj_get "owner" defaults)))] ++
    field "target" target ++ field "action" (pick "action") ++ field "urgency" (pick "urgency") ++
    field "ttl_ms" (numberOr (obj_get "ttl_ms" input) (obj_get "ttl_ms" defaults)) ++
    field "timestamp" (numberOr (obj_get "timestamp" input) (obj_get "timestamp" defaults)) ++
    field "visibility" (pick "visibility") ++
    field "trace" (recordOr (obj_get "trace" input) (obj_get "trace" defaults)) ++ [("data", JObj eventData)].

(** ** The Task an event is addressed to *)

Record TaskAddress : Type := mkAddress { ta_appId : option string; ta_taskId : string }.

(** [.replace(/\.app$/, "")]. *)
Definition dropAppSuffix (s : string) : string :=
  if endsWith s ".app" then String.substring 0 (String.length s - 4) s else s.

Definition trimmedText (v : option json) : string := match v with Some (JStr s) => trim s | _ => "" end.

Definition readTaskEventTarget (value : option json) : option TaskAddress :=
  match value with
  | Some (JObj target) =>
      let taskId := trimmedText (obj_get "taskId" target) in
      if String.eqb taskId "" then None
      else
        let app := match nonEmptyString (obj_get "appId" target) with
                   | Some a => Some a
                   | None => nonEmptyString (obj_get "project" target)
                   end in
        Some (mkAddress (nonempty (dropAppSuffix <$> app)) taskId)
  | _ => None
  end.

Definition readEventTaskTarget (event : obj json) : res (option TaskAddress) :=
  let target := readTaskEventTarget (obj_get "target" event) in
  if negb (str_is (obj_get "type" event) "app.input.requested") then Ok target
  else
    let data := match obj_get "data" event with Some (JObj d) => d | _ => [] end in
    let taskId := trimmedText (obj_get "targetTaskId" data) in
    if String.eqb taskId "" then Ok target
    else if match target with Some t => negb (String.eqb (ta_taskId t) taskId) | None => false end
    then Throw "Event target.taskId conflicts with data.targetTaskId"
    else
      let envelope := match obj_get "target" event with Some (JObj t) => t | _ => [] end in
      let app := match obj_get "appId" envelope with
                 | Some JNull | None => obj_get "appId" data
                 | Some v => Some v
                 end in
      Ok (readTaskEventTarget (Some (JObj (field "appId" app ++ [("taskId", JStr taskId)])))).

(** ** Lemmas on spreads *)

Lemma spread_get {V} k (a b : obj V) : obj_wf b ->
  obj_get k (spread a b) = match obj_get k b with Some v => Some v | None => obj_get k a end.
Proof. intros Hb. exact (obj_get_fold_set (fun _ v => v) b a k Hb). Qed.

Lemma obj_get_app {V} k (a b : obj V) :
  obj_get k (a ++ b) = match obj_get k a with Some v => Some v | None => obj_get k b end.
Proof. induction a as [|[j v] a IH]; simpl; [done|]. by destruct (String.eqb j k). Qed.

Lemma field_get_ne k j v : k <> j -> obj_get k (field j v) = None.
Proof. intros H. destruct v; simpl; [|done]. by rewrite (proj2 (String.eqb_neq _ _)). Qed.

(** ** Owners and envelopes are never blank *)

Lemma nonEmptyString_spec v s : nonEmptyString v = Some s -> nonblank s = true /\ trim s = s.
Proof.
  destruct v as [[| | |x| |]|]; simpl; try done. destruct (nonblank x) eqn:E; [|done]. intros [= <-].
  unfold nonblank in *. by rewrite trim_idemp.
Qed.

Lemma nonEmptyString_text s : nonblank s = true -> trim s = s -> nonEmptyString (Some (JStr s)) = Some s.
Proof. intros Hn Ht. simpl. by rewrite Hn, Ht. Qed.

Lemma nonblank_owner v : nonblank (normalizeEventOwner v None) = true /\ trim (normalizeEventOwner v None) = normalizeEventOwner v None.
Proof.
  unfold normalizeEventOwner. set (value := match nonEmptyString v with Some _ => _ | None => _ end).
  assert (nonblank value = true /\ trim value = value) as [Hn Ht].
  { unfold value. destruct (nonEmptyString v) eqn:E; [by apply (nonEmptyString_spec v)|]. split; vm_compute; reflexivity. }
  destruct (isKnownOwner value); [done|]. destruct (String.eqb _ _); [split; vm_compute; reflexivity|].
  split; [by apply nonblank_append|]. by apply trim_append.
Qed.

Lemma normalizeEventOwner_idemp v f :
  normalizeEventOwner (Some (JStr (normalizeEventOwner v None))) f = normalizeEventOwner v None.
Proof.
  destruct (nonblank_owner v) as [Hn Ht]. unfold normalizeEventOwner at 1. rewrite (nonEmptyString_text _ Hn Ht).
  assert (isKnownOwner (normalizeEventOwner v None) = true) as ->; [|done].
  unfold normalizeEventOwner. set (value := match nonEmptyString v with Some _ => _ | None => _ end).
  destruct (isKnownOwner value) eqn:E; [done|]. destruct (String.eqb _ _); [done|].
  unfold isKnownOwner. apply existsb_exists. exists "agent:". split; [by right; left|].
  unfold startsWith. by destruct value.
Qed.

Lemma obj_set_same {V} k (v : V) o : obj_get k o = Some v -> obj_set k v o = o.
Proof.
  induction o as [|[j w] o IH]; simpl; [done|]. destruct (String.eqb_spec j k); [|intros H; by rewrite IH].
  subst. by intros [= ->].
Qed.

(** ** The normal form of an envelope *)

Record normal (type : string) (r : obj json) : Prop := {
  nf_type : obj_get "type" r = Some (JStr type);
  nf_source : exists s, obj_get "source" r = Some (JStr s) /\ nonblank s = true /\ trim s = s;
  nf_owner : exists v, obj_get "owner" r = Some (JStr (normalizeEventOwner v None));
  nf_data : isRecord (obj_get "data" r) = true;
  nf_fields : hasOnlyEnvelopeFields r = true }.

Lemma normal_canonical type r : normal type r -> isCanonicalEventEnvelope r = true.
Proof.
  intros [_ (s & Hs & Hn & Ht) (v & Hv) Hd _]. unfold isCanonicalEventEnvelope.
  destruct (nonblank_owner v) as [On Ot].
  rewrite Hs, Hv, Hd, (nonEmptyString_text _ Hn Ht), (nonEmptyString_text _ On Ot). done.
Qed.

Lemma normal_again type r d : normal type r -> buildCanonicalEventEnvelope type r d = r.
Proof.
  intros N. unfold buildCanonicalEventEnvelope. rewrite (normal_canonical _ _ N).
  destruct N as [Hty (s & Hs & Hn & Ht) (v & Hv) _ ->]. cbn [andb].
  rewrite Hs, (nonEmptyString_text _ Hn Ht), Hv, normalizeEventOwner_idemp. cbn -[normalizeEventOwner obj_get obj_set].
  by rewrite (obj_set_same "type"), (obj_set_same "source"), (obj_set_same "owner").
Qed.

Lemma fields_set k v o : k ∈ envelopeFields -> hasOnlyEnvelopeFields o = true -> hasOnlyEnvelopeFields (obj_set k v o) = true.
Proof.
  intros Hk. unfold hasOnlyEnvelopeFields, obj_keys. rewrite !forallb_forall. intros Ho x Hx.
  apply in_map_iff in Hx as ([j w] & <- & Hin). cbn [fst].
  assert (j = k \/ In j (map fst o)) as [->|Hj]; [|by apply set_has_true|by apply Ho].
  clear -Hin. induction o as [|[a b] o IH]; simpl in *; [destruct Hin as [[= <- _]|[]]; by left|].
  destruct (String.eqb_spec a k); simpl in *.
  - destruct Hin as [[= <- _]|H]; [by left|]. right. right. by apply (in_map fst) in H.
  - destruct Hin as [[= <- _]|H]; [by right; left|]. destruct (IH H); auto.
Qed.

Lemma fields_app a b : hasOnlyEnvelopeFields (a ++ b) = hasOnlyEnvelopeFields a && hasOnlyEnvelopeFields b.
Proof. unfold hasOnlyEnvelopeFields, obj_keys. by rewrite map_app, forallb_app. Qed.

Lemma fields_field k v : k ∈ envelopeFields -> hasOnlyEnvelopeFields (field k v) = true.
Proof.
  intros Hk. destruct v; [|done]. unfold hasOnlyEnvelopeFields. simpl. by rewrite (proj2 (set_has_true _ _) Hk).
Qed.

Lemma infer_owner o t f : exists v, inferEventOwner o t f = normalizeEventOwner v None.
Proof.
  unfold inferEventOwner. destruct (nonEmptyString o) eqn:E; [by exists o|].
  destruct (ownerFromTarget t) as [w|] eqn:W; [|by exists f]. unfold ownerFromTarget in W.
  destruct t as [[| | | | |x]|]; try done.
  assert (w = "human:operator" \/ exists p, w = "project:" +:+ p /\ nonblank p = true /\ trim p = p) as [->|(p & -> & Hn & Ht)].
  { destruct (obj_get "human" x) as [[|[]| | | |]|];
      first [by injection W as <-; left | right];
      destruct (nonEmptyString (obj_get "project" x)) as [p|] eqn:P; try done; injection W as <-; exists p;
      destruct (nonEmptyString_spec _ _ P); done. }
  - by exists (Some (JStr "human")).
  - exists (Some (JStr ("project:" +:+ p))). unfold normalizeEventOwner.
    rewrite (nonEmptyString_text ("project:" +:+ p)); [|by apply nonblank_append|by apply trim_append].
    assert (isKnownOwner ("project:" +:+ p) = true) as ->; [|done].
    unfold isKnownOwner. apply existsb_exists. exists "project:". split; [by simpl; auto 10|]. by destruct p.
Qed.

Lemma textOr_spec v d j : textOr v d = Some j -> exists s, j = JStr s /\ nonblank s = true /\ trim s = s.
Proof.
  unfold textOr. destruct (nonEmptyString v) as [s|] eqn:E; simpl.
  - intros [= <-]. exists s. split; [done|]. by apply (nonEmptyString_spec v).
  - destruct (nonEmptyString d) as [s|] eqn:E'; simpl; [|done]. intros [= <-]. exists s. split; [done|]. by apply (nonEmptyString_spec d).
Qed.

Lemma build_normal type input defaults : normal type (buildCanonicalEventEnvelope type input defaults).
Proof.
  unfold buildCanonicalEventEnvelope. destruct (isCanonicalEventEnvelope input && hasOnlyEnvelopeFields input) eqn:E.
  - apply andb_true_iff in E as [C F]. unfold isCanonicalEventEnvelope in C.
    rewrite !andb_true_iff, !bool_decide_eq_true in C. destruct C as [[[s Hs] _] Hd].
    rewrite Hs. destruct (nonEmptyString_spec _ _ Hs) as [Hn Ht]. cbn -[normalizeEventOwner obj_get obj_set]. constructor.
    + by rewrite !obj_get_set_ne, obj_get_set_eq by done.
    + exists s. by rewrite obj_get_set_ne, obj_get_set_eq by done.
    + eexists. by rewrite obj_get_set_eq.
    + by rewrite !obj_get_set_ne by done.
    + repeat apply fields_set; [set_solver..|done].
  - destruct (infer_owner (obj_get "owner" input) (recordOr (obj_get "target" input) (obj_get "target" defaults))
      (obj_get "owner" defaults)) as [v ->]. constructor; [done| |by exists v| |].
    + destruct (textOr _ _) as [j|] eqn:T; [|by exists "control"]. apply textOr_spec in T as (s & -> & Hs). by exists s.
    + rewrite !obj_get_app, !field_get_ne by done. by destruct (obj_get "data" input) as [[]|].
    + rewrite !fields_app, !fields_field by set_solver. done.
Qed.

(** Building an envelope gives a canonical one of the wanted type, whatever the
    input, and building it again changes nothing. *)
Theorem envelope_normal_form type input defaults defaults' :
  let r := buildCanonicalEventEnvelope type input defaults in
  isCanonicalEventEnvelope r = true /\ obj_get "type" r = Some (JStr type) /\ buildCanonicalEventEnvelope type r defaults' = r.
Proof.
  intros r. pose proof (build_normal type input defaults) as N. fold r in N.
  split_ands; [by eapply normal_canonical|apply N|by apply normal_again].
Qed.

End EventEnvelope.
