(* ===== verification/EventLog.v ===== *)
(** The event journal: rows, and what is computed for a row
    ([src/lib/db-writer.ts], [src/lib/artifacts.ts], tables in
    [src/lib/db/schema.ts], the hidden fields of [src/app/core/events/bus.ts]).

    A JSON column or file holds the value it encodes; its text, where lengths and
    digests are taken, is [JSON_stringify] of that value. *)
From S2P Require Import Prelude Json TaskState TaskTree Transaction ResourceStore Approval Conditions Records TaskEvents.
From S2P Require Import TaskContract EventEnvelope.

Module EventLog.
Import Conditions TaskEvents TaskContract EventEnvelope.

(** ** Events *)

Record EventTaskEmissionFence : Type := mkFence {
  fn_appId : string;
  fn_taskId : string;
  fn_taskGeneration : Z;
  fn_attemptId : string;
  fn_localKey : string }.

Inductive DeliveryRoute : Type := direct | noop.

#[export] Instance DeliveryRoute_eq_dec : EqDecision DeliveryRoute.
Proof. solve_decision. Defined.

Record DeliveryResult : Type := mkDelivery {
  dr_by : string;
  dr_route : option DeliveryRoute;
  dr_note : option string;
  dr_appAdmission : bool }.

(** An event object: its fields, the hidden fields of its producer (the fence of
    a Task emission, the marks of trusted ingress, of the event interface and of
    record-only publication) and those the writer and the bus attach.
    [ev_undefinedTarget] are the fields its [target] has with the value
    [undefined]: they are not part of the JSON, but a spread copies them. *)
Record AgentEvent : Type := mkEvent {
  ev_fields : obj json;
  ev_fence : option EventTaskEmissionFence;
  ev_ingressSource : option string;
  ev_interfaceInput : bool;
  ev_recordOnly : bool;
  ev_undefinedTarget : list string;
  ev_rowId : option Z;
  ev_deduplicated : bool;
  ev_redelivery : bool;
  ev_appRedelivery : bool;
  ev_delivery : option DeliveryResult }.

Definition newEvent (fields : obj json) : AgentEvent :=
  mkEvent fields None None false false [] None false false false None.

Definition with_fields (x : obj json) (e : AgentEvent) : AgentEvent :=
  mkEvent x (ev_fence e) (ev_ingressSource e) (ev_interfaceInput e) (ev_recordOnly e) (ev_undefinedTarget e) (ev_rowId e) (ev_deduplicated e)
    (ev_redelivery e) (ev_appRedelivery e) (ev_delivery e).
Definition with_rowId (x : Z) (e : AgentEvent) : AgentEvent :=
  mkEvent (ev_fields e) (ev_fence e) (ev_ingressSource e) (ev_interfaceInput e) (ev_recordOnly e) (ev_undefinedTarget e) (Some x) (ev_deduplicated e)
    (ev_redelivery e) (ev_appRedelivery e) (ev_delivery e).
Definition with_retry (deduplicated recordOnly redelivery appRedelivery : bool) (e : AgentEvent) : AgentEvent :=
  mkEvent (ev_fields e) (ev_fence e) (ev_ingressSource e) (ev_interfaceInput e) recordOnly (ev_undefinedTarget e) (ev_rowId e) deduplicated
    redelivery appRedelivery (ev_delivery e).
Definition with_delivery (x : option DeliveryResult) (e : AgentEvent) : AgentEvent :=
  mkEvent (ev_fields e) (ev_fence e) (ev_ingressSource e) (ev_interfaceInput e) (ev_recordOnly e) (ev_undefinedTarget e) (ev_rowId e) (ev_deduplicated e)
    (ev_redelivery e) (ev_appRedelivery e) x.

Definition eventType (e : AgentEvent) : string := match obj_get "type" (ev_fields e) with Some (JStr t) => t | _ => "" end.

(** ** Tables *)

Inductive DeliveryStatus : Type := ds_pending | ds_accepted | ds_unhandled.

#[export] Instance DeliveryStatus_eq_dec : EqDecision DeliveryStatus.
Proof. solve_decision. Defined.

(** The columns that index what an event is about. *)
Record Correlation : Type := mkCorrelation {
  co_sessionId : option string;
  co_workflowRunId : option string;
  co_projectId : option string;
  co_taskId : option string;
  co_attemptId : option string;
  co_handler : option string;
  co_metricId : option string;
  co_alertId : option string;
  co_escalationId : option string;
  co_status : option string;
  co_durationMs : option number }.

(** The columns written once, when the event is appended. *)
Record EventColumns : Type := mkColumns {
  ec_event_type : string;
  ec_source : option string;
  ec_owner : option string;
  ec_data : obj json;
  ec_envelope_json : obj json;
  ec_body_ref : option string;
  ec_body_sha256 : string;
  ec_body_bytes : Z;
  ec_correlation : Correlation;
  ec_timestamp : Z;
  ec_urgency : string;
  ec_ttl_ms : option number;
  ec_idempotency_key : option string;
  ec_idempotency_scope : string;
  ec_idempotency_hash : option string;
  ec_ingress_source : string;
  ec_record_only : bool }.

(** The delivery receipt. *)
Record Receipt : Type := mkReceipt {
  rc_delivery_status : DeliveryStatus;
  rc_accepted_by : option string;
  rc_accepted_at : option Z;
  rc_delivery_route : option DeliveryRoute;
  rc_delivery_note : option string;
  rc_app_admission_pending : option bool }.

Record StoredEvent : Type := mkStored { se_columns : EventColumns; se_receipt : Receipt }.

Record TraceRow : Type := mkTrace {
  tw_trace_id : string;
  tw_parent_event_id : option Z;
  tw_detail : bool }.

Inductive LinkType : Type := lk_reference | lk_closure.

#[export] Instance LinkType_eq_dec : EqDecision LinkType.
Proof. solve_decision. Defined.

Record LinkRow : Type := mkLink {
  lw_from : Z;
  lw_to : Z;
  lw_type : LinkType;
  lw_label : string;
  lw_created_at : Z }.

Inductive PairStatus : Type := pr_open | pr_orphan | pr_closed.

#[export] Instance PairStatus_eq_dec : EqDecision PairStatus.
Proof. solve_decision. Defined.

Record PairRow : Type := mkPairRow {
  pw_pair_name : string;
  pw_correlation_key : string;
  pw_open_event_id : Z;
  pw_close_event_id : option Z;
  pw_owner : option string;
  pw_status : PairStatus;
  pw_opened_at : Z;
  pw_expected_close_at : Z;
  pw_closed_at : option Z;
  pw_note : option string }.

(** The journal: the tables, with [links] and [pairs] in the order of their ids,
    the last id given out, and the files of event bodies. *)
Record Log : Type := mkLog {
  rows : gmap Z StoredEvent;
  lastId : Z;
  traces : gmap Z TraceRow;
  links : list LinkRow;
  pairs : list PairRow;
  files : gmap string json }.

Definition set_rows (x : gmap Z StoredEvent) (l : Log) : Log := mkLog x (lastId l) (traces l) (links l) (pairs l) (files l).
Definition set_lastId (x : Z) (l : Log) : Log := mkLog (rows l) x (traces l) (links l) (pairs l) (files l).
Definition set_traces (x : gmap Z TraceRow) (l : Log) : Log := mkLog (rows l) (lastId l) x (links l) (pairs l) (files l).
Definition set_links (x : list LinkRow) (l : Log) : Log := mkLog (rows l) (lastId l) (traces l) x (pairs l) (files l).
Definition set_pairs (x : list PairRow) (l : Log) : Log := mkLog (rows l) (lastId l) (traces l) (links l) x (files l).
Definition set_files (x : gmap string json) (l : Log) : Log := mkLog (rows l) (lastId l) (traces l) (links l) (pairs l) x.

Definition emptyLog : Log := mkLog ∅ 0 ∅ [] [] ∅.

Definition newestFirst (a b : Z * StoredEvent) : Prop := b.1 <= a.1.
#[export] Instance newestFirst_dec : RelDecision newestFirst.
Proof. intros a b. unfold newestFirst. apply _. Defined.

(** [SELECT ... WHERE p ORDER BY id DESC]. *)
Definition newest (p : Z -> StoredEvent -> bool) (l : Log) : list (Z * StoredEvent) :=
  merge_sort newestFirst (filter (fun e => p e.1 e.2 = true) (map_to_list (rows l))).

(** ** Fields of an event *)

Definition eventPayload (event : obj json) : obj json :=
  if isCanonicalEventEnvelope event then match obj_get "data" event with Some (JObj d) => d | _ => [] end
  else rest ["type"] event.

(** A field of the envelope, or of the payload of a flat event. *)
Definition envelopeField (k : string) (event : obj json) : option json :=
  if isCanonicalEventEnvelope event then obj_get k event else obj_get k (eventPayload event).

Definition textOf (v : option json) : option string := match v with Some (JStr s) => Some s | _ => None end.

Definition eventSource (event : obj json) (fallback : option json) : option string :=
  match textOf (envelopeField "source" event) with Some s => Some s | None => textOf fallback end.
Definition eventOwner (event : obj json) (fallback : option json) : option string :=
  match textOf (envelopeField "owner" event) with Some s => Some s | None => textOf fallback end.
Definition eventUrgency (event : obj json) : string := default "normal" (textOf (envelopeField "urgency" event)).
Definition eventTtlMs (event : obj json) : option number :=
  match envelopeField "ttl_ms" event with Some (JNum n) => Some n | _ => None end.

Definition stringValue (v : option json) : option string :=
  match v with
  | Some (JStr s) => if nonblank s then Some s else None
  | Some (JNum n) => if isFinite n then Some (String_of_number n) else None
  | _ => None
  end.

Fixpoint firstField {A} (read : option json -> option A) (payload : obj json) (keys : list string) : option A :=
  match keys with
  | [] => None
  | k :: keys => match read (obj_get k payload) with Some v => Some v | None => firstField read payload keys end
  end.

Definition stringField (payload : obj json) (keys : list string) : option string := firstField stringValue payload keys.
Definition numberField (payload : obj json) (keys : list string) : option number :=
  firstField (fun v => match v with Some (JNum n) => if isFinite n then Some n else None | _ => None end) payload keys.

Definition eventCorrelation (payload : obj json) : Correlation :=
  mkCorrelation (stringField payload ["sessionId"; "session_id"; "sourceSessionId"])
    (stringField payload ["workflowRunId"; "workflow_run_id"])
    (stringField payload ["projectId"; "project_id"; "project"])
    (stringField payload ["taskId"; "task_id"])
    (stringField payload ["attemptId"; "attempt_id"])
    (stringField payload ["handler"])
    (stringField payload ["metricId"; "metric_id"; "metric"])
    (stringField payload ["alertId"; "alert_id"])
    (stringField payload ["escalationId"; "escalation_id"])
    (stringField payload ["status"])
    (numberField payload ["durationMs"; "duration_ms"]).

(** A Task emission indexes its producer, not its destination. *)
Definition producedBy (fence : option EventTaskEmissionFence) (c : Correlation) : Correlation :=
  match fence with
  | Some f => mkCorrelation (co_sessionId c) (co_workflowRunId c) (Some (fn_appId f)) (Some (fn_taskId f)) (Some (fn_attemptId f))
                (co_handler c) (co_metricId c) (co_alertId c) (co_escalationId c) (co_status c) (co_durationMs c)
  | None => c
  end.

Definition ingressSource (event : AgentEvent) (fallback : option string) : string :=
  if ev_interfaceInput event then "event-interface"
  else match ev_ingressSource event with
       | Some s => if nonblank s then trim s else default "internal" fallback
       | None => default "internal" fallback
       end.

Definition idempotencyScope (c : Correlation) (owner : option string) : string :=
  match co_projectId c with
  | Some s => s
  | None => match co_taskId c with
            | Some s => s
            | None => match co_workflowRunId c with
                      | Some s => s
                      | None => match co_sessionId c with Some s => s | None => default "global" owner end
                      end
            end
  end.

Definition idempotencyKeyOf (payload : obj json) : string := trimmedText (obj_get "idempotencyKey" payload).

Definition stableEventValue (v : json) : json := stableValue v.

Definition idempotencyInput (event : AgentEvent) (payload : obj json) : json :=
  let record := ev_fields event in
  if isCanonicalEventEnvelope record then
    JObj (rest (["data"; "timestamp"; "trace"] ++ (if ev_interfaceInput event then ["source"; "owner"] else [])) record ++
          [("data", JObj payload)])
  else JObj [("type", JStr (eventType event)); ("data", JObj (rest ["timestamp"] payload))].

Definition idempotencyHash `{Crypto} (event : AgentEvent) (payload : obj json) : string :=
  sha256 (JSON_stringify (stableEventValue (idempotencyInput event payload))).

(** ** Bodies *)

Definition INLINE_EVENT_DATA_BYTES : nat := 4096.
Definition MAX_EVENT_PROJECTION_LENGTH : nat := 12000.

Definition textLength (v : json) : nat := String.length (JSON_stringify v).

Definition truncated (what : string) (n : nat) : string := "[TRUNCATED: " +:+ show_Z (Z.of_nat n) +:+ " " +:+ what +:+ "]".

Definition compactText (max : nat) (s : string) : string :=
  if Nat.leb (String.length s) max then s
  else String.substring 0 max s +:+ "..." +:+ truncated "chars" (String.length s).

Fixpoint compactEventValue (depth : nat) (value : json) {struct value} : json :=
  match value with
  | JStr s => JStr (compactText (if Nat.eqb depth 0 then 4000 else 2000) s)
  | JArr l =>
      if Nat.leb 6 depth then JStr "[TRUNCATED: maximum event data depth]"
      else JArr (firstn 50 (map (compactEventValue (S depth)) l) ++
                 (if Nat.ltb 50 (length l) then [JStr (truncated "more items" (length l - 50))] else []))
  | JObj o =>
      if Nat.leb 6 depth then JStr "[TRUNCATED: maximum event data depth]"
      else
        let kept := firstn 100 (map (fun e => (e.1, compactEventValue (S depth) e.2)) o) in
        JObj (if Nat.ltb 100 (length o)
              then obj_set "_truncatedProperties" (JNum (num (Z.of_nat (length o - 100)))) kept else kept)
  | v => v
  end.

(** [compactEventValue(payload) as Record<string, unknown>]. *)
Definition compactPayload (payload : obj json) : obj json :=
  match compactEventValue 0 (JObj payload) with JObj o => o | _ => [] end.

(** [v ?? d]. *)
Definition coalesce (v : option json) (d : json) : json :=
  match v with Some JNull | None => d | Some v => v end.

Definition priorityKeys : list string :=
  ["sessionId"; "agent"; "status"; "outcome"; "summary"; "error"; "workflowRunId"; "projectId"; "taskId"; "attemptId";
   "handler"; "metricId"; "metric"; "alertId"; "escalationId"; "durationMs"; "lane"; "reason"].

Definition isScalar (v : json) : bool := match v with JArr _ | JObj _ => false | _ => true end.

Definition orderedEntries (payload : obj json) : obj json :=
  let scalars := filter (fun e => isScalar e.2 = true) payload in
  flat_map (fun k => filter (fun e => String.eqb e.1 k = true) scalars) priorityKeys ++
  filter (fun e => negb (set_has e.1 priorityKeys) = true) scalars.

(** One scalar is kept when the text stays within the limit. *)
Definition keepEntry (fallback : obj json) (e : string * json) : obj json :=
  let candidate := obj_set e.1 (compactEventValue 1 e.2) fallback in
  if Nat.ltb MAX_EVENT_PROJECTION_LENGTH (textLength (JObj candidate)) then fallback else candidate.

Definition capEventData (payload : obj json) : obj json :=
  let original := textLength (JObj payload) in
  let originalLength := ("originalLength", JNum (num (Z.of_nat original))) in
  if Nat.leb original MAX_EVENT_PROJECTION_LENGTH then payload
  else
    let compacted := obj_set "_truncated" (coalesce (obj_get "_truncated" payload) (JObj [originalLength])) (compactPayload payload) in
    if Nat.leb (textLength (JObj compacted)) MAX_EVENT_PROJECTION_LENGTH then compacted
    else
      fold_left keepEntry (orderedEntries payload)
        [("_truncated", coalesce (obj_get "_truncated" payload)
            (JObj [originalLength; ("reason", JStr "event payload exceeded persistence limit")]))].

Record ArtifactDescriptor : Type := mkArtifact { af_ref : string; af_sha256 : string; af_bytes : Z }.

Definition newline : string := String.String (ascii_of_nat 10) "".

(** The text of a stored body: one JSON value and a line end. *)
Definition bodyText (v : json) : string := JSON_stringify v +:+ newline.

Definition describeText `{Crypto} (ref content : string) : ArtifactDescriptor :=
  mkArtifact ref (sha256 content) (Z.of_nat (byteLength content)).

Definition writeContentAddressedJson `{Crypto} (directory : string) (value : json) (fs : gmap string json)
    : ArtifactDescriptor * gmap string json :=
  let ref := directory +:+ "/" +:+ sha256 (bodyText value) +:+ ".json" in
  (describeText ref (bodyText value), match fs !! ref with Some _ => fs | None => <[ref := value]> fs end).

Definition readJsonArtifactWithDescriptor `{Crypto} (fs : gmap string json) (ref : string) : option (json * ArtifactDescriptor) :=
  v ← fs !! ref; Some (v, describeText ref (bodyText v)).

Definition prepareEventBody `{Crypto} (payload : obj json) (fs : gmap string json)
    : obj json * ArtifactDescriptor * gmap string json :=
  let inlineDescriptor := describeText "" (bodyText (JObj payload)) in
  if af_bytes inlineDescriptor <=? Z.of_nat INLINE_EVENT_DATA_BYTES then (payload, inlineDescriptor, fs)
  else
    let '(artifact, fs) := writeContentAddressedJson "event-bodies" (JObj payload) fs in
    (capEventData (spread (compactPayload payload)
       [("_truncated", JObj [("originalLength", JNum (num (Z.of_nat (textLength (JObj payload)))));
                             ("reason", JStr "full event body stored as artifact")]);
        ("_artifact", JObj [("ref", JStr (af_ref artifact)); ("sha256", JStr (af_sha256 artifact));
                            ("bytes", JNum (num (af_bytes artifact)))])]), artifact, fs).

(** [JSON.stringify(value, null, 2)]. *)
Fixpoint prettyJson (indent : nat) (v : json) {struct v} : string :=
  let pad n := unchars (repeat " "%char n) in
  let block opening closing (items : list string) :=
    opening +:+ newline +:+ String.concat ("," +:+ newline) (map (fun i => pad (indent + 2)%nat +:+ i) items) +:+ newline +:+
    pad indent +:+ closing in
  match v with
  | JArr [] => "[]"
  | JArr l => block "[" "]" (map (prettyJson (indent + 2)) l)
  | JObj [] => "{}"
  | JObj o => block "{" "}" (map (fun e => JSON_string e.1 +:+ ": " +:+ prettyJson (indent + 2) e.2) o)
  | v => JSON_stringify v
  end.

(** ** Escalations *)

Definition objectValue (v : option json) : option (obj json) := match v with Some (JObj o) => Some o | _ => None end.
Definition arrayValue (v : option json) : option (list json) := match v with Some (JArr l) => Some l | _ => None end.
Definition textValue (v : option json) : option string := nonEmptyString v.

(** [o?.k]. *)
Definition at_ (o : option (obj json)) (k : string) : option json := o ≫= obj_get k.

Fixpoint firstText (values : list (option json)) : option string :=
  match values with
  | [] => None
  | v :: values => match textValue v with Some s => Some s | None => firstText values end
  end.

Definition firstEscalationResumeCondition (payload : obj json) : option string :=
  let resume := objectValue (obj_get "resume" payload) in
  let facts := objectValue (match obj_get "facts" payload with Some JNull | None => obj_get "evidence" payload | v => v end) in
  let finishParams := objectValue (at_ facts "finishParams") in
  let firstBlocker := objectValue (arrayValue (at_ finishParams "blockers") ≫= head) in
  firstText [obj_get "resumeCondition" payload; obj_get "resume_condition" payload; at_ resume "condition";
    at_ resume "resumeCondition"; at_ finishParams "resumeCondition"; at_ finishParams "resume_condition";
    at_ finishParams "next_steps"; at_ finishParams "nextSteps"; at_ firstBlocker "context"; at_ firstBlocker "reason";
    obj_get "blockedOn" payload; obj_get "requestedAction" payload].

(** Whether the payload of an escalation is completed. *)
Definition completesEscalation (eventType : string) (payload : obj json) : bool :=
  String.eqb eventType "escalation.created" && bool_decide (is_Some (firstEscalationResumeCondition payload)).

Definition normalizePersistedEscalationPayload (eventType : string) (payload : obj json) : obj json :=
  if negb (String.eqb eventType "escalation.created") then payload
  else match firstEscalationResumeCondition payload with
       | None => payload
       | Some resumeCondition =>
           let resume :=
             match objectValue (obj_get "resume" payload) with
             | Some resume =>
                 Some (JObj (if bool_decide (is_Some (textValue (obj_get "condition" resume))) ||
                                bool_decide (is_Some (textValue (obj_get "resumeCondition" resume)))
                             then resume else obj_set "condition" (JStr resumeCondition) resume))
             | None =>
                 match textValue (obj_get "sourceSessionId" payload) with
                 | Some sourceSessionId =>
                     Some (JObj [("kind", JStr "session"); ("sessionId", JStr sourceSessionId); ("condition", JStr resumeCondition)])
                 | None => None
                 end
             end in
           spread payload ([("resumeCondition", JStr resumeCondition)] ++ field "resume" resume)
       end.

(** ** Pairs of events *)

Definition keyPart (v : option json) : option string :=
  match v with
  | Some (JStr s) => if nonblank s then Some (trim s) else None
  | Some (JNum n) => if isFinite n then Some (String_of_number n) else None
  | _ => None
  end.

Record PairContract : Type := mkContract {
  pc_name : string;
  pc_open : string;
  pc_closes : list string;
  pc_timeoutMs : Z;
  pc_key : obj json -> option string;
  pc_allowEarlierClose : option bool;
  pc_preferExplicitOpenEventId : option bool }.

Definition sessionKey (payload : obj json) : option string := keyPart (obj_get "sessionId" payload).
Definition workflowKey (payload : obj json) : option string := keyPart (obj_get "workflowRunId" payload).
Definition handlerKey (payload : obj json) : option string :=
  match keyPart (obj_get "handlerRunId" payload) with
  | Some k => Some k
  | None => match keyPart (obj_get "workflowRunId" payload) with
            | Some k => Some k
            | None => keyPart (obj_get "handler" payload)
            end
  end.
Definition escalationKey (payload : obj json) : option string := keyPart (obj_get "escalationId" payload).
Definition cliTaskKey (payload : obj json) : option string := keyPart (obj_get "taskId" payload).

Definition DEFAULT_UNACCEPTED_TTL_MS : Z := 2 * 60 * 1000.
Definition DEFAULT_PAIR_TTL_MS : Z := 45 * 60 * 1000.

Definition PAIR_CONTRACTS : list PairContract :=
  [mkContract "session" "session.start" ["session.idle"; "session.end"] (60 * 60 * 1000) sessionKey None None;
   mkContract "handler" "handler.started" ["handler.completed"; "handler.failed"] DEFAULT_PAIR_TTL_MS handlerKey None None;
   mkContract "workflow" "workflow.started" ["workflow.completed"; "workflow.failed"; "workflow.blocked"; "workflow.interrupted"]
     DEFAULT_PAIR_TTL_MS workflowKey None None;
   mkContract "escalation" "escalation.created" ["escalation.resolved"; "escalation.dismissed"] (24 * 60 * 60 * 1000)
     escalationKey None None;
   mkContract "cli.task.request" "cli.task.requested" ["cli.task.started"; "cli.task.failed"] (60 * 60 * 1000) cliTaskKey None None;
   mkContract "cli.task" "cli.task.started" ["cli.task.completed"; "cli.task.failed"; "cli.task.orphaned"] DEFAULT_PAIR_TTL_MS
     cliTaskKey None None].

Definition openingPair (eventType : string) : option PairContract :=
  List.find (fun c => String.eqb (pc_open c) eventType) PAIR_CONTRACTS.
Definition closingPairs (eventType : string) : list PairContract :=
  filter (fun c => set_has eventType (pc_closes c) = true) PAIR_CONTRACTS.

(** The column that holds the key of a pair, if one does. *)
Definition pairCorrelationColumn (pair : PairContract) : option (Correlation -> option string) :=
  if String.eqb (pc_name pair) "session" then Some co_sessionId
  else if String.eqb (pc_name pair) "workflow" then Some co_workflowRunId
  else if String.eqb (pc_name pair) "escalation" then Some co_escalationId
  else if String.eqb (pc_name pair) "cli.task" || String.eqb (pc_name pair) "cli.task.request" then Some co_taskId
  else None.

(** The event a payload names as the one it follows. *)
Definition openEventIdOf (payload : obj json) : number :=
  Number_of (match obj_get "openEventId" payload with Some JNull | None => obj_get "open_event_id" payload | v => v end).

End EventLog.
