(* ===== verification/EventTraces.v ===== *)
(** Causal traces of events ([src/lib/db/event-traces.ts], the operations of a
    running Host): each stored event has a trace with an optional parent, and
    links to the events it refers to or closes.  The repair of older journals in
    the same file is not modelled. *)
From S2P Require Import Prelude Json EventEnvelope EventLog.

Module EventTraces.
Import EventEnvelope EventLog.

(** ** Reading *)

Definition positiveInteger (v : option json) : option Z :=
  let n := match v with Some (JNum n) => n | Some (JStr s) => Number_of_string s | _ => NaN end in
  if isInteger n && (0 <? number_to_Z n) then Some (number_to_Z n) else None.

Definition linkType (v : option json) : LinkType := if str_is v "closure" then lk_closure else lk_reference.
Definition linkTypeText (t : LinkType) : string := match t with lk_closure => "closure" | lk_reference => "reference" end.

Definition eventExists (l : Log) (eventId : option Z) : bool :=
  match eventId with Some id => negb (id =? 0) && bool_decide (is_Some (rows l !! id)) | None => false end.

Definition defaultTraceId (eventId : Z) : string := "event:" +:+ show_Z eventId.

Definition eventTraceId (l : Log) (eventId : Z) : string :=
  match traces l !! eventId ≫= (fun t => nonEmptyString (Some (JStr (tw_trace_id t)))) with
  | Some id => id
  | None => defaultTraceId eventId
  end.

Definition linkJson (k : LinkRow) : json :=
  JObj ([("eventId", JNum (num (lw_to k))); ("type", JStr (linkTypeText (lw_type k)))] ++
        field "label" (JStr <$> nonempty (Some (lw_label k)))).

Record TraceMetadata : Type := mkTraceMetadata { tm_trace : json; tm_visibility : string }.

Definition readEventTraceMetadata (l : Log) (eventId : Z) : option TraceMetadata :=
  match traces l !! eventId with
  | None => None
  | Some row =>
      let found := map linkJson (filter (fun k => lw_from k = eventId) (links l)) in
      Some (mkTraceMetadata
        (JObj ([("traceId", JStr (tw_trace_id row))] ++
               field "parentEventId" ((fun p => JNum (num p)) <$> tw_parent_event_id row) ++
               match found with [] => [] | _ => [("links", JArr found)] end))
        (if tw_detail row then "detail" else "default"))
  end.

(** ** Traces that events declare *)

Record TraceLink : Type := mkTraceLink { tl_eventId : Z; tl_type : LinkType; tl_label : option string }.

Record EventTraceInput : Type := mkTraceInput {
  ti_traceId : string;
  ti_parentEventId : option Z;
  ti_links : list TraceLink }.

Definition parseLink (v : json) : option TraceLink :=
  match v with
  | JObj item =>
      match positiveInteger (obj_get "eventId" item) with
      | Some id => Some (mkTraceLink id (linkType (obj_get "type" item)) (nonEmptyString (obj_get "label" item)))
      | None => None
      end
  | _ => None
  end.

Definition parseEventTrace (value : option json) : option EventTraceInput :=
  match value with
  | Some (JObj v) =>
      match nonEmptyString (obj_get "traceId" v) with
      | Some traceId =>
          Some (mkTraceInput traceId (positiveInteger (obj_get "parentEventId" v))
                  (match obj_get "links" v with Some (JArr items) => omap parseLink items | _ => [] end))
      | None => None
      end
  | _ => None
  end.

Definition eventVisibility (event : obj json) : bool := str_is (obj_get "visibility" event) "detail".

Definition eventDataRecord (event : obj json) : obj json :=
  match obj_get "data" event with Some (JObj d) => d | _ => event end.

Definition dataEventId (data : obj json) (keys : list string) : option Z := firstField positiveInteger data keys.

Definition isEscalationClosureEvent (type : option string) : bool :=
  match type with Some t => set_has t ["escalation.resolved"; "escalation.dismissed"] | None => false end.

Definition isEscalationFollowupEvent (type : option string) : bool :=
  isEscalationClosureEvent type ||
  match type with
  | Some t => set_has t ["escalation.resume_attempted"; "escalation.resume_started"; "escalation.resume_failed"]
  | None => false
  end.

Definition findPriorEscalationCreated (l : Log) (escalationId : string) (eventId : Z) : option Z :=
  fst <$> head (newest (fun id e => String.eqb (ec_event_type (se_columns e)) "escalation.created" && negb (id =? eventId) &&
    bool_decide (co_escalationId (ec_correlation (se_columns e)) = Some escalationId)) l).

Definition hasDeclaredLink (trace : option EventTraceInput) (eventId : option Z) (type : LinkType) : bool :=
  match trace, eventId with
  | Some t, Some id => existsb (fun k => (tl_eventId k =? id) && bool_decide (tl_type k = type)) (ti_links t)
  | _, _ => false
  end.

(** ** Writing *)

Definition sameLink (a b : LinkRow) : bool :=
  (lw_from a =? lw_from b) && (lw_to a =? lw_to b) && bool_decide (lw_type a = lw_type b) && String.eqb (lw_label a) (lw_label b).

(** [INSERT OR IGNORE INTO event_trace_links]. *)
Definition addLink (k : LinkRow) (l : Log) : Log :=
  if existsb (sameLink k) (links l) then l else set_links (links l ++ [k]) l.

Definition addDeclared (eventId createdAt : Z) (l : Log) (k : TraceLink) : Log :=
  if eventExists l (Some (tl_eventId k))
  then addLink (mkLink eventId (tl_eventId k) (tl_type k) (default "" (tl_label k)) createdAt) l
  else l.

(** What an event says about its place in the trace. *)
Definition typeOf (event : obj json) : option string := nonEmptyString (obj_get "type" event).
Definition openedBy (event : obj json) : option Z := dataEventId (eventDataRecord event) ["openEventId"; "open_event_id"].

Definition escalationCreatedId (event : obj json) (eventId : Z) (l : Log) : option Z :=
  match nonEmptyString (obj_get "escalationId" (eventDataRecord event)) with
  | Some escalationId => if isEscalationFollowupEvent (typeOf event) then findPriorEscalationCreated l escalationId eventId else None
  | None => None
  end.

Definition inferredParentEventId (event : obj json) (eventId : Z) (l : Log) : option Z :=
  if eventExists l (openedBy event) then openedBy event
  else if eventExists l (escalationCreatedId event eventId l) then escalationCreatedId event eventId l else None.

Definition traceOf (event : obj json) (eventId : Z) (l : Log) : TraceRow :=
  let trace := parseEventTrace (obj_get "trace" event) in
  let inferred := inferredParentEventId event eventId l in
  let declaredParent := trace ≫= ti_parentEventId in
  mkTrace (match trace with
           | Some t => ti_traceId t
           | None => match inferred with Some p => eventTraceId l p | None => defaultTraceId eventId end
           end)
    (if eventExists l declaredParent then declaredParent else inferred) (eventVisibility event).

(** A link to an event that exists and is not declared by the trace itself. *)
Definition addImplied (trace : option EventTraceInput) (eventId : Z) (to_ : option Z) (type : LinkType) (label : string) (createdAt : Z)
    (l : Log) : Log :=
  match to_ with
  | Some id => if eventExists l to_ && negb (hasDeclaredLink trace to_ type) then addLink (mkLink eventId id type label createdAt) l else l
  | None => l
  end.

Definition persistEventTrace (event : obj json) (eventId createdAt : Z) (l : Log) : Log :=
  if negb (0 <? eventId) then l
  else
    let trace := parseEventTrace (obj_get "trace" event) in
    let created := escalationCreatedId event eventId l in
    let l := set_traces (<[eventId := traceOf event eventId l]> (traces l)) l in
    let l := fold_left (addDeclared eventId createdAt) (match trace with Some t => ti_links t | None => [] end) l in
    let l := addImplied trace eventId (openedBy event) lk_closure (default "openEventId" (typeOf event)) createdAt l in
    addImplied trace eventId created (if isEscalationClosureEvent (typeOf event) then lk_closure else lk_reference)
      (default "escalation.followup" (typeOf event)) createdAt l.

Definition closesAlready (closeEventId openEventId : Z) (k : LinkRow) : bool :=
  (lw_from k =? closeEventId) && (lw_to k =? openEventId) && bool_decide (lw_type k = lk_closure).

Definition persistEventClosure (closeEventId openEventId : Z) (label : string) (createdAt : Z) (l : Log) : Log :=
  if negb (eventExists l (Some closeEventId)) || negb (eventExists l (Some openEventId)) then l
  else
    let traceId := eventTraceId l openEventId in
    let l := set_traces (alter (fun t => mkTrace traceId
               (match tw_parent_event_id t with Some p => Some p | None => Some openEventId end) (tw_detail t))
               closeEventId (traces l)) l in
    if existsb (closesAlready closeEventId openEventId) (links l) then l
    else set_links (links l ++ [mkLink closeEventId openEventId lk_closure label createdAt]) l.

End EventTraces.
