(* ===== verification/EventProjections.v ===== *)
(** The tables that events project into besides the journal: sessions
    ([src/lib/db/sessions.ts]), evaluations ([src/lib/db/evaluations.ts]), metric
    thresholds and alerts ([src/lib/db/metric-mutation.ts]), and the Task an
    escalation came from ([src/lib/escalation-feedback.ts]).

    The fields of a session event have the types its TypeScript type declares; a
    field of another type reads as absent. *)
From S2P Require Import Prelude Json TaskEvents EventEnvelope EventLog.

Module EventProjections.
Import TaskEvents EventEnvelope EventLog.

(** ** Sessions *)

Record TaskBinding : Type := mkBinding {
  tb_appId : string;
  tb_taskId : string;
  tb_generation : Z;
  tb_attemptId : string }.

Definition taskBinding (value : option json) : option TaskBinding :=
  match value with
  | Some (JObj v) =>
      let appId := trimmedText (obj_get "appId" v) in
      let taskId := trimmedText (obj_get "taskId" v) in
      let attemptId := trimmedText (obj_get "attemptId" v) in
      match obj_get "generation" v with
      | Some (JNum g) =>
          if String.eqb appId "" || String.eqb taskId "" || String.eqb attemptId "" || negb (isInteger g) || (number_to_Z g <? 1)
          then None else Some (mkBinding appId taskId (number_to_Z g) attemptId)
      | _ => None
      end
  | _ => None
  end.

Record SessionDbEntry : Type := mkSessionEntry {
  sn_sessionId : string;
  sn_agent : string;
  sn_task : string;
  sn_status : string;
  sn_kind : option string;
  sn_source : option string;
  sn_parentSessionId : option string;
  sn_requestId : option string;
  sn_workflowRunId : option string;
  sn_projectId : option string;
  sn_taskBinding : option TaskBinding;
  sn_stepLabel : option string;
  sn_startedAt : Z;
  sn_endedAt : option Z;
  sn_error : option string;
  sn_outcome : option string;
  sn_opCount : option number;
  sn_lastActivityAt : option Z }.

Record SessionRow : Type := mkSessionRow {
  sr_agent : string;
  sr_task : string;
  sr_task_artifact : ArtifactDescriptor;
  sr_result : option ArtifactDescriptor;
  sr_status : string;
  sr_kind : option string;
  sr_source : option string;
  sr_parentSessionId : option string;
  sr_requestId : option string;
  sr_workflowRunId : option string;
  sr_projectId : option string;
  sr_binding : option TaskBinding;
  sr_stepLabel : option string;
  sr_startedAt : Z;
  sr_endedAt : option Z;
  sr_error : option string;
  sr_outcome : option string;
  sr_opCount : number;
  sr_lastActivityAt : option Z }.

Definition MAX_TASK_PREVIEW_LENGTH : nat := 2000.

Definition taskPreview (task : string) : string :=
  if Nat.leb (String.length task) MAX_TASK_PREVIEW_LENGTH then task
  else String.substring 0 MAX_TASK_PREVIEW_LENGTH task +:+ newline +:+ "...[full task in session meta; " +:+
       show_Z (Z.of_nat (String.length task)) +:+ " chars]".

Definition sessionMetaRef (sessionId : string) : string := "sessions/" +:+ sessionId +:+ "/meta.json".

(** [COALESCE(a, b)]. *)
Definition or_null {A} (a b : option A) : option A := match a with Some x => Some x | None => b end.

Definition greater (a b : number) : number := if number_ltb b a then a else b.

(** The later activity of the two. *)
Definition laterActivity (new old : option Z) : option Z :=
  match new, old with
  | None, _ => old
  | Some n, None => Some n
  | Some n, Some o => if o <? n then Some n else Some o
  end.

Definition insertedSession `{Crypto} (e : SessionDbEntry) : SessionRow :=
  mkSessionRow (sn_agent e) (taskPreview (sn_task e)) (describeText (sessionMetaRef (sn_sessionId e)) (sn_task e)) None
    (sn_status e) (Some (default "job" (sn_kind e))) (sn_source e) (sn_parentSessionId e) (sn_requestId e) (sn_workflowRunId e)
    (sn_projectId e) (sn_taskBinding e) (sn_stepLabel e) (sn_startedAt e) (sn_endedAt e) (sn_error e) (sn_outcome e)
    (default (num 0) (sn_opCount e)) (Some (default (sn_startedAt e) (sn_lastActivityAt e))).

Definition mergedSession (new old : SessionRow) : SessionRow :=
  let fresh := negb (String.eqb (sr_task new) "") in
  mkSessionRow (sr_agent new) (if fresh then sr_task new else sr_task old)
    (mkArtifact (af_ref (sr_task_artifact new)) (af_sha256 (sr_task_artifact (if fresh then new else old)))
       (af_bytes (sr_task_artifact (if fresh then new else old))))
    (sr_result old) (sr_status new) (or_null (sr_kind new) (sr_kind old)) (or_null (sr_source new) (sr_source old))
    (or_null (sr_parentSessionId new) (sr_parentSessionId old)) (or_null (sr_requestId new) (sr_requestId old))
    (or_null (sr_workflowRunId new) (sr_workflowRunId old)) (or_null (sr_projectId new) (sr_projectId old)) (sr_binding new)
    (or_null (sr_stepLabel new) (sr_stepLabel old)) (sr_startedAt new) (or_null (sr_endedAt new) (sr_endedAt old))
    (or_null (sr_error new) (sr_error old)) (or_null (sr_outcome new) (sr_outcome old)) (greater (sr_opCount new) (sr_opCount old))
    (laterActivity (sr_lastActivityAt new) (sr_lastActivityAt old)).

Definition upsertSession `{Crypto} (e : SessionDbEntry) (t : gmap string SessionRow) : gmap string SessionRow :=
  let new := insertedSession e in
  <[sn_sessionId e := match t !! sn_sessionId e with Some old => mergedSession new old | None => new end]> t.

Record SessionUpdate : Type := mkSessionUpdate {
  su_status : string;
  su_endedAt : option Z;
  su_error : option string;
  su_outcome : option string;
  su_opCount : option number;
  su_lastActivityAt : option Z;
  su_resultArtifact : option ArtifactDescriptor }.

Definition updateSessionDb (sessionId : string) (f : SessionUpdate) (t : gmap string SessionRow) : gmap string SessionRow :=
  alter (fun r => mkSessionRow (sr_agent r) (sr_task r) (sr_task_artifact r) (or_null (su_resultArtifact f) (sr_result r))
    (su_status f) (sr_kind r) (sr_source r) (sr_parentSessionId r) (sr_requestId r) (sr_workflowRunId r) (sr_projectId r)
    (sr_binding r) (sr_stepLabel r) (sr_startedAt r) (or_null (su_endedAt f) (sr_endedAt r)) (or_null (su_error f) (sr_error r))
    (or_null (su_outcome f) (sr_outcome r)) (greater (default (num 0) (su_opCount f)) (sr_opCount r))
    (laterActivity (su_lastActivityAt f) (sr_lastActivityAt r))) sessionId t.

Definition updateSessionProgress (now : Z) (sessionId : string) (opCount : option number) (lastActivityAt : option Z)
    (t : gmap string SessionRow) : gmap string SessionRow :=
  alter (fun r => mkSessionRow (sr_agent r) (sr_task r) (sr_task_artifact r) (sr_result r) (sr_status r) (sr_kind r) (sr_source r)
    (sr_parentSessionId r) (sr_requestId r) (sr_workflowRunId r) (sr_projectId r) (sr_binding r) (sr_stepLabel r) (sr_startedAt r)
    (sr_endedAt r) (sr_error r) (sr_outcome r) (greater (default (num 0) opCount) (sr_opCount r))
    (laterActivity (Some (default now lastActivityAt)) (sr_lastActivityAt r))) sessionId t.

Definition readSessionLastActivityAt (t : gmap string SessionRow) (sessionId : string) : option Z :=
  t !! sessionId ≫= sr_lastActivityAt.

(** ** Evaluations *)

Record EvaluationProjection : Type := mkEvaluation {
  en_sessionId : string;
  en_agent : string;
  en_quality : number;
  en_efficiency : number;
  en_productiveCalls : number;
  en_wastedCalls : number;
  en_verdict : string;
  en_issues : list string;
  en_overall : obj json;
  en_evaluatedByHeuristic : bool;
  en_createdAt : number;
  en_skipped : bool }.

Definition recordOrEmpty (v : option json) : obj json := match v with Some (JObj o) => o | _ => [] end.
Definition finiteNumber (v : option json) : option number :=
  match v with Some (JNum n) => if isFinite n then Some n else None | _ => None end.
Definition score (v : option json) : option number :=
  n ← finiteNumber v; if number_leb (num 0) n && number_leb n (num 1) then Some n else None.
Definition optionalCount (v : option json) : option number :=
  match v with
  | None => Some (num 0)
  | Some _ => n ← finiteNumber v; if isSafeInteger n && number_leb (num 0) n then Some n else None
  end.

Fixpoint texts (l : list json) : option (list string) :=
  match l with
  | [] => Some []
  | JStr s :: l => (s ::.) <$> texts l
  | _ => None
  end.

Definition optionalTextList (v : option json) : option (list string) :=
  match v with
  | None => Some []
  | Some (JArr l) => ss ← texts l; Some (take 100 (filter (fun s => s <> "") (map trim ss)))
  | _ => None
  end.

Definition evaluationProjectionFromEventData (now : Z) (envelope : obj json) : option EvaluationProjection :=
  let evaluation := recordOrEmpty (obj_get "evaluation" envelope) in
  let text k := trimmedText (obj_get k evaluation) in
  quality ← score (obj_get "quality" evaluation);
  efficiency ← score (obj_get "efficiency" evaluation);
  productiveCalls ← optionalCount (obj_get "productiveCalls" evaluation);
  wastedCalls ← optionalCount (obj_get "wastedCalls" evaluation);
  issues ← optionalTextList (obj_get "issues" evaluation);
  signals ← optionalTextList (obj_get "signals" evaluation);
  evaluatedByHeuristic ← match obj_get "evaluatedByHeuristic" envelope with
                         | None => Some true | Some (JBool b) => Some b | _ => None end;
  createdAt ← match obj_get "createdAt" evaluation with None => Some (num now) | v => finiteNumber v end;
  if String.eqb (text "sessionId") "" || String.eqb (text "agent") "" || String.eqb (text "verdict") "" ||
     negb (isSafeInteger createdAt) || number_leb createdAt (num 0) ||
     match obj_get "overall" evaluation with None | Some (JObj _) => false | _ => true end
  then None
  else
    let source := default "evaluation.recorded" (nonempty (Some (trimmedText (obj_get "source" envelope)))) in
    let optional k v := field k (JStr <$> nonempty (Some v)) in
    Some (mkEvaluation (text "sessionId") (text "agent") quality efficiency productiveCalls wastedCalls (text "verdict") issues
      (spread (recordOrEmpty (obj_get "overall" evaluation))
         ([("source", JStr source)] ++ optional "lane" (text "lane") ++ optional "routeReason" (text "reason") ++
          match signals with [] => [] | _ => [("outputSignals", JArr (map JStr signals))] end))
      evaluatedByHeuristic createdAt (String.eqb (text "verdict") "skipped")).

Definition upsertEvaluationProjection (p : EvaluationProjection) (t : gmap string EvaluationProjection)
    : gmap string EvaluationProjection := <[en_sessionId p := p]> t.

Definition hasEvaluation (t : gmap string EvaluationProjection) (sessionId : string) : bool := bool_decide (is_Some (t !! sessionId)).

(** ** Metrics *)

Record MetricRow : Type := mkMetric { mr_threshold : number; mr_updated_at : number }.
Record AlertRow : Type := mkAlert { al_metric_id : string; al_resolved_at : option number }.

Record Tables : Type := mkTables {
  sessions : gmap string SessionRow;
  evaluations : gmap string EvaluationProjection;
  metrics : gmap string MetricRow;
  alerts : gmap Z AlertRow }.

Definition set_sessions (x : gmap string SessionRow) (t : Tables) : Tables := mkTables x (evaluations t) (metrics t) (alerts t).
Definition set_evaluations (x : gmap string EvaluationProjection) (t : Tables) : Tables :=
  mkTables (sessions t) x (metrics t) (alerts t).
Definition set_metrics (x : gmap string MetricRow) (t : Tables) : Tables := mkTables (sessions t) (evaluations t) x (alerts t).
Definition set_alerts (x : gmap Z AlertRow) (t : Tables) : Tables := mkTables (sessions t) (evaluations t) (metrics t) x.

Definition applyMetricMutation (type : string) (data : obj json) (timestamp : number) (t : Tables) : res Tables :=
  match obj_get "metricId" data with
  | Some (JStr metricId) =>
      if negb (nonblank metricId) then Throw "Metric change requires a metricId"
      else if String.eqb type "metric.threshold_changed" then
        match finiteNumber (obj_get "to" data) with
        | None => Throw "Metric change requires a finite threshold"
        | Some to_ =>
            match metrics t !! metricId with
            | None => Throw ("Metric not found: " +:+ metricId)
            | Some _ => Ok (set_metrics (<[metricId := mkMetric to_ timestamp]> (metrics t)) t)
            end
        end
      else
        match obj_get "alertId" data with
        | Some (JNum n) =>
            if negb (isSafeInteger n) || (number_to_Z n <=? 0) then Throw "Alert resolution requires a positive alertId"
            else match alerts t !! number_to_Z n with
                 | Some a =>
                     if String.eqb (al_metric_id a) metricId
                     then Ok (set_alerts (<[number_to_Z n := mkAlert metricId (or_null (al_resolved_at a) (Some timestamp))]> (alerts t)) t)
                     else Throw ("Alert not found for metric " +:+ metricId +:+ ": " +:+ String_of_number n)
                 | None => Throw ("Alert not found for metric " +:+ metricId +:+ ": " +:+ String_of_number n)
                 end
        | _ => Throw "Alert resolution requires a positive alertId"
        end
  | _ => Throw "Metric change requires a metricId"
  end.

(** ** Escalations *)

(** The escalation an id or a key names. *)
Definition readEscalation (l : Log) (id key : option json) : option StoredEvent :=
  let n := Number_of id in
  let named := match key with Some (JStr k) => k | _ => "" end in
  snd <$> head (newest (fun i e => String.eqb (ec_event_type (se_columns e)) "escalation.created" &&
    (if isSafeInteger n && (0 <? number_to_Z n) then i =? number_to_Z n
     else bool_decide (co_escalationId (ec_correlation (se_columns e)) = Some named))) l).

Definition escalationFeedbackTarget (l : Log) (t : gmap string SessionRow) (data : obj json) : option TaskAddress :=
  let first := readEscalation l (match obj_get "openEventId" data with Some JNull | None => obj_get "open_event_id" data | v => v end)
                 (obj_get "escalationId" data) in
  origin ← match first with
           | Some e => if truthy (obj_get "parentEscalationId" (ec_data (se_columns e)))
                       then readEscalation l None (obj_get "parentEscalationId" (ec_data (se_columns e))) else Some e
           | None => None
           end;
  let c := ec_correlation (se_columns origin) in
  match nonempty (co_projectId c), nonempty (co_taskId c) with
  | Some appId, Some taskId => Some (mkAddress (Some appId) taskId)
  | _, _ =>
      let resume := recordOrEmpty (obj_get "resume" (ec_data (se_columns origin))) in
      sessionId ← match co_sessionId c with
                  | Some s => Some s
                  | None => if str_is (obj_get "kind" resume) "session" then textOf (obj_get "sessionId" resume) else None
                  end;
      b ← (t !! sessionId ≫= sr_binding);
      appId ← nonempty (Some (tb_appId b));
      taskId ← nonempty (Some (tb_taskId b));
      Some (mkAddress (Some appId) taskId)
  end.

End EventProjections.
