(* ===== verification/EventJournal.v ===== *)
(** The writer of the event journal ([src/lib/db-writer.ts]): an event is
    appended once, in one transaction with its trace, the wake of the exact Task
    it is addressed to, the pairs it opens and closes, and what it projects.

    [Hub] is the part of the database the writer touches: the journal, the Task
    stores of all Apps, and the projected tables.  Files of event bodies are
    written inside the transaction and stay when it is rolled back.  The retries
    of a locked database are not modelled. *)
From S2P Require Import Prelude Json TaskState TaskTree Transaction ResourceStore Records Time TaskEvents Effects.
From S2P Require Import EventEnvelope EventLog EventTraces EventProjections EventAdmission.

Module EventJournal.
Import ResourceStore Time TaskEvents Effects EventEnvelope EventLog EventTraces EventProjections.

#[local] Existing Instances EventAdmission.PlanStatus_eq_dec EventAdmission.CommandStatus_eq_dec.

Record Hub : Type := mkHub {
  log : Log;
  stores : gmap string store;
  tables : Tables }.

Definition set_log (x : Log) (h : Hub) : Hub := mkHub x (stores h) (tables h).
Definition set_stores (x : gmap string store) (h : Hub) : Hub := mkHub (log h) x (tables h).
Definition set_tables (x : Tables) (h : Hub) : Hub := mkHub (log h) (stores h) x.

Definition onLog (f : Log -> Log) : E Hub unit := writes (fun h => set_log (f (log h)) h).

(** [BEGIN ... COMMIT], or a savepoint of the caller's transaction; a throw rolls
    the tables back, not the files. *)
Definition eventWrite {A} (m : E Hub A) : E Hub A := fun h =>
  match m h with
  | (Done a, h') => (Done a, h')
  | (Raise c e, h') => (Raise c e, set_log (set_files (files (log h')) (log h)) h)
  end.

(** ** Idempotency *)

(** The row of the unique index [idx_events_idempotency]. *)
Definition keyedRow (l : Log) (type ingress scope key : string) : option (Z * StoredEvent) :=
  head (filter (fun e =>
    let c := se_columns e.2 in
    String.eqb (ec_event_type c) type && String.eqb (ec_ingress_source c) ingress && String.eqb (ec_idempotency_scope c) scope &&
    bool_decide (ec_idempotency_key c = Some key) && negb (String.eqb key "") = true) (map_to_list (rows l))).

(** The fields of the first publication, on the event sent again. *)
Definition restoredFields (l : Log) (id : Z) (c : EventColumns) (fields : obj json) : obj json :=
  spread fields (field "source" (JStr <$> ec_source c) ++ field "owner" (JStr <$> ec_owner c) ++
                 [("timestamp", JNum (num (ec_timestamp c)))] ++
                 field "trace" (tm_trace <$> readEventTraceMetadata l id)).

Definition isNoop (r : option DeliveryRoute) : bool := bool_decide (r = Some noop).

(** The receipt of an event that is already stored. *)
Definition retried (l : Log) (id : Z) (stored : StoredEvent) (event : AgentEvent) : AgentEvent :=
  let c := se_columns stored in
  let r := se_receipt stored in
  let waiting := bool_decide (rc_app_admission_pending r = Some true) in
  let accepted := bool_decide (rc_delivery_status r = ds_accepted) in
  let appOnly := waiting && accepted && negb (isNoop (rc_delivery_route r)) in
  let again := negb accepted || isNoop (rc_delivery_route r) in
  let event := with_rowId id (with_fields (restoredFields l id c (ev_fields event)) event) in
  let event := match rc_accepted_by r with
               | Some by_ =>
                   if negb waiting && accepted && negb (isNoop (rc_delivery_route r))
                   then with_delivery (Some (mkDelivery by_ (rc_delivery_route r) None false)) event else event
               | None => event
               end in
  with_retry true (ec_record_only c) (ev_redelivery event || appOnly || again) (ev_appRedelivery event || appOnly) event.

(** ** The fence of a Task emission *)

Definition ownsEmission (now : Z) (f : EventTaskEmissionFence) (h : Hub) : bool :=
  match stores h !! fn_appId f with
  | None => false
  | Some s =>
      match tasks s !! fn_taskId f, ResourceStore.attempts s !! fn_attemptId f with
      | Some t, Some a =>
          bool_decide (row_current_attempt_id t = Some (fn_attemptId f)) && bool_decide (m_authority s = Some "resources") &&
          (row_generation t =? fn_taskGeneration f) && (ar_task_generation a =? fn_taskGeneration f) &&
          bool_decide (ar_attempt_state a = at_running) && (now <? default 0 (ar_lease_until a))
      | _, _ => false
      end
  end.

Definition staleEmission (f : EventTaskEmissionFence) : string :=
  "Task emission fence rejected stale attempt " +:+ fn_attemptId f +:+ " for " +:+ fn_appId f +:+ "/" +:+ fn_taskId f +:+ "@" +:+
  show_Z (fn_taskGeneration f).

(** ** Waking the exact Task *)

Definition wakeRow (taskId : string) (canonical : obj json) (observedAt : Z) (row : TaskRow) : TaskRow :=
  let observedAtIso := toISOString observedAt in
  let previousEvents := match row_trigger row with Some t => triggerEvents t | None => [] end in
  let trigger := mkTrigger taskId (row_generation row)
    (match row_trigger row with Some t => tr_resourceVersion t + 1 | None => 1 end)
    (Some (previousEvents ++ [mkTriggerEvent canonical observedAtIso])) canonical observedAtIso in
  let version := row_resource_version row + 1 in
  let resource := row_resource row in
  mkRow (row_generation row) version (row_observed_generation row) (row_phase row) (row_lane row) true true
    (row_next_check_at row) (row_lease_until row) (row_current_attempt_id row) observedAt
    (with_metadata (with_md_resourceVersion version (metadata resource)) resource) (Some trigger).

(** [INSERT OR IGNORE INTO app_task_events]. *)
Definition noteEvent (taskId : string) (eventId observedAt : Z) (s : store) : store :=
  let key := (taskId, "event:" +:+ show_Z eventId) in
  match ResourceStore.events s !! key with
  | Some _ => s
  | None => ResourceStore.set_events (<[key := observedAt]> (ResourceStore.events s)) s
  end.

Definition wakeStore (taskId : string) (canonical : obj json) (eventId observedAt : Z) (s : store) : store :=
  bumpRevision (set_tasks (alter (wakeRow taskId canonical observedAt) taskId (tasks s)) (noteEvent taskId eventId observedAt s)).

Definition persistExactTaskWake (fields target : obj json) (eventId observedAt : Z) : E Hub unit :=
  match readTaskEventTarget (Some (JObj target)) with
  | Some (mkAddress (Some appId) taskId) =>
      found ← reads (fun h => stores h !! appId);
      match found with
      | Some s =>
          if negb (bool_decide (m_authority s = Some "resources")) then mret tt
          else if bool_decide (tasks s !! taskId = None)
          then throw ("Task emission target does not exist: " +:+ appId +:+ "/" +:+ taskId)
          else writes (fun h => set_stores (<[appId := wakeStore taskId (obj_set "eventId" (JNum (num eventId)) fields) eventId
                                                      observedAt s]> (stores h)) h)
      | None => mret tt
      end
  | _ => mret tt
  end.

(** ** Pairs *)

Definition isLive (p : PairRow) : bool := bool_decide (pw_status p = pr_open) || bool_decide (pw_status p = pr_orphan).

Definition closePair (closeEventId closedAt : Z) (note : string) (p : PairRow) : PairRow :=
  mkPairRow (pw_pair_name p) (pw_correlation_key p) (pw_open_event_id p) (Some closeEventId) (pw_owner p) pr_closed
    (pw_opened_at p) (pw_expected_close_at p) (Some closedAt) (Some note).

(** Closing the live pairs that match; [COALESCE(note, note')]. *)
Definition closePairs (matches : PairRow -> bool) (closeEventId closedAt : Z) (note : string) (l : Log) : Log :=
  set_pairs (map (fun p => if isLive p && matches p then closePair closeEventId closedAt (default note (pw_note p)) p else p) (pairs l)) l.

Definition livePairs (matches : PairRow -> bool) (l : Log) : list PairRow := filter (fun p => isLive p && matches p = true) (pairs l).

(** The pairs are closed, then each closure joins the trace. *)
Definition closeWithTrace (matches : PairRow -> bool) (closeEventId closedAt : Z) (note : string) (l : Log) : Log :=
  fold_left (fun l p => persistEventClosure closeEventId (pw_open_event_id p) (pw_pair_name p) closedAt l)
    (livePairs matches l) (closePairs matches closeEventId closedAt note l).

Definition closePairForFollowup (payload : obj json) (closeEventId closedAt : Z) (l : Log) : Log :=
  let n := openEventIdOf payload in
  if isInteger n && (0 <? number_to_Z n)
  then closeWithTrace (fun p => pw_open_event_id p =? number_to_Z n) closeEventId closedAt "closed by follow-up event" l
  else l.

Definition closeConventionPair (eventType : string) (payload : obj json) (closeEventId closedAt : Z) (l : Log) (pair : PairContract)
    : Log :=
  let n := openEventIdOf payload in
  if bool_decide (pc_preferExplicitOpenEventId pair = Some true) && isFinite n && number_ltb (num 0) n then l
  else match nonempty (pc_key pair payload) with
       | Some key => closeWithTrace (fun p => String.eqb (pw_pair_name p) (pc_name pair) && String.eqb (pw_correlation_key p) key)
                       closeEventId closedAt ("closed by " +:+ eventType) l
       | None => l
       end.

Definition closeConventionPairs (eventType : string) (payload : obj json) (closeEventId closedAt : Z) (l : Log) : Log :=
  fold_left (closeConventionPair eventType payload closeEventId closedAt) (closingPairs eventType) l.

(** The newest earlier event that closes the pair. *)
Definition earlierClose (pair : PairContract) (key : string) (openEventId : Z) (l : Log) : option (Z * StoredEvent) :=
  let closes e := set_has (ec_event_type (se_columns e)) (pc_closes pair) in
  match pairCorrelationColumn pair with
  | Some column =>
      head (newest (fun id e => closes e && bool_decide (column (ec_correlation (se_columns e)) = Some key) &&
                                negb (id =? openEventId)) l)
  | None =>
      List.find (fun e => bool_decide (pc_key pair (ec_data (se_columns e.2)) = Some key))
        (take 200 (newest (fun id e => closes e && negb (id =? openEventId)) l))
  end.

Definition closeConventionPairFromEarlierEvent (pair : PairContract) (key : string) (openEventId openedAt : Z) (l : Log) : Log :=
  if bool_decide (pc_allowEarlierClose pair = Some false) then l
  else match earlierClose pair key openEventId l with
       | Some (closeEventId, e) =>
           let closed p := isLive p && String.eqb (pw_pair_name p) (pc_name pair) && String.eqb (pw_correlation_key p) key &&
                           (pw_open_event_id p =? openEventId) in
           let l := set_pairs (map (fun p => if closed p
                      then closePair closeEventId (Z.max openedAt (ec_timestamp (se_columns e)))
                             ("closed by earlier " +:+ ec_event_type (se_columns e)) p else p) (pairs l)) l in
           persistEventClosure closeEventId openEventId (pc_name pair) openedAt l
       | None => l
       end.

Definition openConventionPair (eventType : string) (payload : obj json) (openEventId : Z) (owner : option string) (openedAt : Z)
    (l : Log) : Log :=
  match openingPair eventType with
  | None => l
  | Some contract =>
      match nonempty (pc_key contract payload) with
      | None => l
      | Some key =>
          closeConventionPairFromEarlierEvent contract key openEventId openedAt
            (set_pairs (pairs l ++ [mkPairRow (pc_name contract) key openEventId None owner pr_open openedAt
               (openedAt + pc_timeoutMs contract) None (Some ("opened by " +:+ eventType))]) l)
      end
  end.

(** ** Appending an event *)

Definition nullable (s : option string) : json := match s with Some s => JStr s | None => JNull end.

(** The envelope that is kept with the row. *)
Definition storedEnvelope (event : AgentEvent) (source owner : option string) (timestamp : Z) : obj json :=
  let fields := ev_fields event in
  let metadata := if isCanonicalEventEnvelope fields then rest ["data"; "trace"; "visibility"] fields
                  else [("type", JStr (eventType event))] in
  spread metadata ([("type", JStr (eventType event)); ("source", nullable source); ("owner", nullable owner);
                    ("timestamp", JNum (num timestamp)); ("urgency", JStr (eventUrgency fields))] ++
                   field "ttl_ms" (JNum <$> eventTtlMs fields)).

Definition newReceipt : Receipt := mkReceipt ds_pending None None None None (Some true).

(** The [INSERT] with the trigger that gives every event a trace. *)
Definition appendRow (c : EventColumns) (l : Log) : Z * Log :=
  let id := lastId l + 1 in
  (id, set_lastId id (set_rows (<[id := mkStored c newReceipt]> (rows l))
         (set_traces (match traces l !! id with
                      | Some _ => traces l
                      | None => <[id := mkTrace (defaultTraceId id) None false]> (traces l)
                      end) l))).

(** [{ ...payload, ...target }]: an [undefined] field of the target hides that of
    the payload. *)
Definition correlated (event : AgentEvent) (payload target : obj json) : obj json :=
  rest (ev_undefinedTarget event) (spread payload target).

Section Insert.
Context `{Crypto} (now : Z).

(** What an event is stored with. *)
Record Prepared : Type := mkPrepared {
  pp_event : AgentEvent;
  pp_payload : obj json;
  pp_target : obj json;
  pp_correlation : Correlation;
  pp_key : string;
  pp_ingress : string;
  pp_scope : string;
  pp_hash : string }.

Definition prepareInsert (event : AgentEvent) (payload : obj json) (source owner : option string) : Prepared :=
  let persistedPayload := normalizePersistedEscalationPayload (eventType event) payload in
  let event := if completesEscalation (eventType event) payload && isCanonicalEventEnvelope (ev_fields event)
               then with_fields (obj_set "data" (JObj persistedPayload) (ev_fields event)) event else event in
  let target := recordOrEmpty (obj_get "target" (ev_fields event)) in
  let correlation := producedBy (ev_fence event) (eventCorrelation (correlated event persistedPayload target)) in
  mkPrepared event persistedPayload target correlation (idempotencyKeyOf persistedPayload) (ingressSource event source)
    (idempotencyScope correlation owner) (idempotencyHash event persistedPayload).

Definition columnsOf (p : Prepared) (source owner : option string) (data : obj json) (artifact : ArtifactDescriptor) : EventColumns :=
  let event := pp_event p in
  let key := nonempty (Some (pp_key p)) in
  mkColumns (eventType event) source owner data (storedEnvelope event source owner now) (nonempty (Some (af_ref artifact)))
    (af_sha256 artifact) (af_bytes artifact) (pp_correlation p) now (eventUrgency (ev_fields event)) (eventTtlMs (ev_fields event))
    key (pp_scope p) (match key with Some _ => Some (pp_hash p) | None => None end) (pp_ingress p) (ev_recordOnly event).

Definition wakesTask (event : AgentEvent) : bool :=
  bool_decide (is_Some (ev_fence event)) || set_has (eventType event) ["escalation.resolved"; "escalation.dismissed"].

(** A new row with everything that is committed together with it. *)
Definition appendEvent (p : Prepared) (payload : obj json) (source owner : option string) (project : E Hub unit) : E Hub AgentEvent :=
  let event := pp_event p in
  l ← reads log;
  let '(data, artifact, fs) := prepareEventBody (pp_payload p) (files l) in
  _ ← onLog (set_files fs);
  rowId ← (fun h => let '(id, l) := appendRow (columnsOf p source owner data artifact) (log h) in (Done id, set_log l h)) : E Hub Z;
  _ ← onLog (persistEventTrace (ev_fields event) rowId now);
  _ ← (if wakesTask event then persistExactTaskWake (ev_fields event) (pp_target p) rowId now else mret tt);
  _ ← onLog (closePairForFollowup payload rowId now);
  _ ← onLog (closeConventionPairs (eventType event) payload rowId now);
  _ ← onLog (openConventionPair (eventType event) payload rowId (eventOwner (ev_fields event) None) now);
  _ ← project;
  mret (with_rowId rowId event).

Definition insertEventRow (event : AgentEvent) (payload : obj json) (source owner : option string) (project : E Hub unit)
    : E Hub AgentEvent :=
  let p := prepareInsert event payload source owner in
  eventWrite (
    existing ← reads (fun h => if String.eqb (pp_key p) "" then None
                               else keyedRow (log h) (eventType event) (pp_ingress p) (pp_scope p) (pp_key p));
    match existing with
    | Some (id, stored) =>
        if bool_decide (ec_idempotency_hash (se_columns stored) = Some (pp_hash p))
        then reads (fun h => retried (log h) id stored (pp_event p))
        else throw ("Idempotency key " +:+ pp_key p +:+ " was already used with different event input")
    | None =>
        owned ← reads (fun h => match ev_fence event with Some f => ownsEmission now f h | None => true end);
        if negb owned then throw (match ev_fence event with Some f => staleEmission f | None => "" end)
        else appendEvent p payload source owner project
    end).

(** ** The handler of the bus *)

Definition DURABLE_COMMAND_EVENTS : list string :=
  ["fork"; "input"; "steer"; "cancel"; "cancel_all"; "resume"; "reload"; "restart"; "shutdown"].

Definition noProjection : E Hub unit := mret tt.

Definition onTables (f : Tables -> Tables) : E Hub unit := writes (fun h => set_tables (f (tables h)) h).
Definition onSessions (f : gmap string SessionRow -> gmap string SessionRow) : E Hub unit :=
  onTables (fun t => set_sessions (f (sessions t)) t).

Definition text (payload : obj json) (k : string) : option string := textOf (obj_get k payload).
Definition numeric (payload : obj json) (k : string) : option number :=
  match obj_get k payload with Some (JNum n) => Some n | _ => None end.

Definition sessionEntry (fields payload : obj json) : SessionDbEntry :=
  mkSessionEntry (default "" (text payload "sessionId")) (default "" (text payload "agent")) (default "" (text payload "task"))
    "running" (text payload "kind") (or_null (text payload "source") (eventSource fields None)) (text payload "parentSessionId")
    (text payload "requestId") (text payload "workflowRunId") (text payload "projectId") (taskBinding (obj_get "taskBinding" payload))
    (text payload "stepLabel") now None None None None None.

(** The result file of a session; [undefined] fields are not written. *)
Definition sessionResult (sessionId : string) (payload : obj json) : obj json :=
  [("schemaVersion", JNum (num 1)); ("sessionId", JStr sessionId)] ++
  flat_map (fun k => field k (obj_get k payload)) ["status"; "outcome"; "error"; "summary"; "opCount"; "turnCount"; "finishParams"] ++
  [("endedAt", JNum (num now))].

Definition writeSessionResult (sessionId : string) (payload : obj json) : E Hub ArtifactDescriptor :=
  let ref := "sessions/" +:+ sessionId +:+ "/result.json" in
  let value := JObj (sessionResult sessionId payload) in
  _ ← onLog (fun l => set_files (<[ref := value]> (files l)) l);
  mret (describeText ref (prettyJson 0 value +:+ newline)).

Definition metricTimestamp (fields : obj json) : number :=
  match obj_get "timestamp" fields with Some (JNum n) => n | _ => num now end.

(** [{ ...payload, k: payload.k ?? v, ... }]. *)
Definition messagePayload (payload : obj json) : obj json :=
  spread payload [("intent", coalesce (obj_get "intent" payload) JNull); ("artifact", coalesce (obj_get "artifact" payload) JNull);
                  ("priority", coalesce (obj_get "priority" payload) (JStr "P2"))].

Definition addressJson (a : TaskAddress) : json :=
  JObj (field "appId" (JStr <$> ta_appId a) ++ [("taskId", JStr (ta_taskId a))]).

(** The event of a decision about an escalation, with the Task it goes back to. *)
Definition addressedFeedback (h : Hub) (fields : obj json) : obj json :=
  let payload := eventPayload fields in
  let addressed := readTaskEventTarget (obj_get "target" fields) in
  let target := match addressed with
                | Some (mkAddress (Some a) t) => Some (mkAddress (Some a) t)
                | _ => escalationFeedbackTarget (log h) (sessions (tables h)) payload
                end in
  spread fields (field "target" (addressJson <$> target) ++
    [("data", JObj (obj_set "feedbackRoute" (JStr (match target with Some _ => "task" | None => "unresolved" end)) payload))]).

(** A canonical domain event is appended; a malformed one is not. *)
Definition canonically (event : AgentEvent) (m : E Hub AgentEvent) : E Hub AgentEvent :=
  if isCanonicalEventEnvelope (ev_fields event) then m else mret event.

Definition handler (event : AgentEvent) : E Hub AgentEvent :=
  let fields := ev_fields event in
  let payload := eventPayload fields in
  let type := eventType event in
  let sessionId := default "" (text payload "sessionId") in
  let ofAgent := insertEventRow event payload (eventSource fields (obj_get "agent" payload)) (eventOwner fields (obj_get "agent" payload))
                   noProjection in
  let plain project := insertEventRow event payload (eventSource fields None) (eventOwner fields None) project in
  if String.eqb type "session.start" then
    canonically event (_ ← onSessions (upsertSession (sessionEntry fields payload)); ofAgent)
  else if String.eqb type "session.end" then
    canonically event (
      artifact ← writeSessionResult sessionId payload;
      _ ← onSessions (updateSessionDb sessionId (mkSessionUpdate (default "" (text payload "status")) (Some now)
            (text payload "error") (text payload "outcome") (numeric payload "opCount") (Some now) (Some artifact)));
      ofAgent)
  else if String.eqb type "session.idle" then
    canonically event (
      _ ← onSessions (updateSessionDb sessionId (mkSessionUpdate "idle" None (text payload "error") (text payload "summary")
            (numeric payload "opCount") (Some now) None));
      ofAgent)
  else if String.eqb type "message.created" then
    canonically event (insertEventRow event (messagePayload payload) (eventSource fields None) (eventOwner fields None) noProjection)
  else if String.eqb type "evaluation.recorded" then
    canonically event (
      match evaluationProjectionFromEventData now payload with
      | None => throw "evaluation.recorded requires a valid sessionId, agent, quality, efficiency, and verdict"
      | Some projection => plain (onTables (fun t => set_evaluations (upsertEvaluationProjection projection (evaluations t)) t))
      end)
  else if String.eqb type "metric.threshold_changed" || String.eqb type "metric.alert_resolved" then
    plain (t ← asks (fun h => applyMetricMutation type payload (metricTimestamp fields) (tables h)); onTables (fun _ => t))
  else if String.eqb type "escalation.resolved" || String.eqb type "escalation.dismissed" then
    fields' ← reads (fun h => addressedFeedback h fields);
    insertEventRow (with_fields fields' event) (eventPayload fields') (eventSource fields' None) (eventOwner fields' None) noProjection
  else if set_has type DURABLE_COMMAND_EVENTS || startsWith type "trigger." then plain noProjection
  else if includes type "." then canonically event (plain noProjection)
  else mret event.

(** ** Delivery receipts *)

Inductive DeliveryOutcome : Type :=
| delivered (r : DeliveryResult)
| undelivered (note : string).

(** A failed required route reopens what only storage had accepted. *)
Definition reopened (note : string) (r : Receipt) : Receipt :=
  if bool_decide (rc_delivery_status r = ds_pending) || bool_decide (rc_delivery_status r = ds_unhandled) ||
     (bool_decide (rc_delivery_status r = ds_accepted) && isNoop (rc_delivery_route r))
  then mkReceipt (if bool_decide (rc_delivery_status r = ds_accepted) then ds_pending else rc_delivery_status r)
         None None (Some direct) (Some note) (rc_app_admission_pending r)
  else r.

(** Whether an accepted delivery is written over a receipt. *)
Definition acceptsOver (route : DeliveryRoute) (recordOnly : bool) (r : Receipt) : bool :=
  negb (bool_decide (route = noop)) ||
  (bool_decide (rc_delivery_status r = ds_pending) && negb (bool_decide (rc_delivery_route r = Some direct))) ||
  (bool_decide (rc_delivery_status r = ds_accepted) && isNoop (rc_delivery_route r)) ||
  (bool_decide (rc_delivery_status r = ds_unhandled) && bool_decide (rc_delivery_route r = None) && recordOnly).

Definition acceptedReceipt (result : DeliveryResult) (recordOnly : bool) (r : Receipt) : Receipt :=
  let route := default direct (dr_route result) in
  let r := if acceptsOver route recordOnly r
           then mkReceipt ds_accepted (Some (dr_by result)) (Some now) (Some route) (dr_note result) (rc_app_admission_pending r)
           else r in
  if dr_appAdmission result
  then mkReceipt (rc_delivery_status r) (rc_accepted_by r) (rc_accepted_at r) (rc_delivery_route r) (rc_delivery_note r) (Some false)
  else r.

Definition recordedReceipt (outcome : DeliveryOutcome) (e : StoredEvent) : StoredEvent :=
  mkStored (se_columns e) (match outcome with
                           | delivered r => acceptedReceipt r (ec_record_only (se_columns e)) (se_receipt e)
                           | undelivered note => reopened note (se_receipt e)
                           end).

Definition recordDelivery (event : AgentEvent) (outcome : DeliveryOutcome) (l : Log) : Log :=
  match ev_rowId event with
  | Some id => set_rows (alter (recordedReceipt outcome) id (rows l)) l
  | None => l
  end.

End Insert.

(** ** Housekeeping *)

Definition sweepStalePairs (now : Z) (l : Log) : Log :=
  set_pairs (map (fun p =>
    if bool_decide (pw_status p = pr_open) && (pw_expected_close_at p <? now)
    then mkPairRow (pw_pair_name p) (pw_correlation_key p) (pw_open_event_id p) (pw_close_event_id p) (pw_owner p) pr_orphan
           (pw_opened_at p) (pw_expected_close_at p) (pw_closed_at p)
           (Some (default "expected closing event did not arrive before timeout" (pw_note p)))
    else p) (pairs l)) l.

(** What the writer keeps in memory, with the tables its sweep touches. *)
Record Writer : Type := mkWriter {
  wr_log : Log;
  wr_admissions : EventAdmission.Journal;
  wr_reconciled : bool;
  wr_lastHousekeepingAt : Z;
  wr_intervalMs : Z }.

Definition hasPendingPlan (j : EventAdmission.Journal) (eventId : Z) : bool :=
  match EventAdmission.plans j !! eventId with
  | Some p => bool_decide (EventAdmission.pr_status p = EventAdmission.plan_pending)
  | None => false
  end.

(** [timestamp + COALESCE(ttl_ms, ?) < ?]. *)
Definition expired (now : Z) (c : EventColumns) : bool :=
  match ec_ttl_ms c with
  | Some (Fin q) => Qle_bool (inject_Z (ec_timestamp c) + q) (inject_Z now) && negb (Qeq_bool (inject_Z (ec_timestamp c) + q) (inject_Z now))
  | Some _ => false
  | None => ec_timestamp c + DEFAULT_UNACCEPTED_TTL_MS <? now
  end.

Definition expires (now : Z) (j : EventAdmission.Journal) (id : Z) (e : StoredEvent) : bool :=
  bool_decide (rc_delivery_status (se_receipt e) = ds_pending) && expired now (se_columns e) &&
  (bool_decide (is_Some (rc_app_admission_pending (se_receipt e))) || hasPendingPlan j id).

Definition markUnhandled (e : StoredEvent) : StoredEvent :=
  let r := se_receipt e in
  mkStored (se_columns e) (mkReceipt ds_unhandled (rc_accepted_by r) (rc_accepted_at r) (rc_delivery_route r)
    (Some (default "no responsible consumer accepted event before timeout" (rc_delivery_note r))) (rc_app_admission_pending r)).

Definition isUnhandled (l : Log) (id : Z) : bool :=
  match rows l !! id with Some e => bool_decide (rc_delivery_status (se_receipt e) = ds_unhandled) | None => false end.

Definition unhandledNote : string := "origin event became unhandled before App admission".

Definition supersedeCommand (now : Z) (l : Log) (key : Z * string) (c : EventAdmission.CommandRow) : EventAdmission.CommandRow :=
  if bool_decide (EventAdmission.cr_status c = EventAdmission.cmd_pending) &&
     String.eqb (EventAdmission.cr_route_kind c) "exact-task" && isUnhandled l key.1
  then EventAdmission.mkCommandRow (EventAdmission.cr_route_kind c) (EventAdmission.cr_route_id c)
         (EventAdmission.cr_resolved_snapshot_id c) (EventAdmission.cr_payload_version c) (EventAdmission.cr_payload c)
         EventAdmission.cmd_superseded (Some (default unhandledNote (EventAdmission.cr_last_error c)))
         (EventAdmission.cr_admitted_at c) now
  else c.

Definition hasCommand (status : EventAdmission.CommandStatus) (j : EventAdmission.Journal) (eventId : Z) : bool :=
  existsb (fun c => bool_decide (EventAdmission.cr_status c.2 = status)) (EventAdmission.planRows j eventId).

Definition supersedePlan (now : Z) (l : Log) (j : EventAdmission.Journal) (id : Z) (p : EventAdmission.PlanRow) : EventAdmission.PlanRow :=
  if bool_decide (EventAdmission.pr_status p = EventAdmission.plan_pending) && isUnhandled l id &&
     hasCommand EventAdmission.cmd_superseded j id && negb (hasCommand EventAdmission.cmd_pending j id)
  then EventAdmission.mkPlanRow (EventAdmission.pr_registry_snapshot_id p) (EventAdmission.pr_registry_generation p)
         EventAdmission.plan_superseded (Some (default unhandledNote (EventAdmission.pr_last_error p)))
         (EventAdmission.pr_created_at p) now (Some (default now (EventAdmission.pr_completed_at p)))
  else p.

Definition sweepUnacceptedEvents (now : Z) (w : Writer) : Writer :=
  let l := wr_log w in
  let j := wr_admissions w in
  let swept := map_imap (fun id e => Some (if expires now j id e then markUnhandled e else e)) (rows l) in
  let newly := existsb (fun e => expires now j e.1 e.2) (map_to_list (rows l)) in
  let l := set_rows swept l in
  if wr_reconciled w && negb newly then mkWriter l j (wr_reconciled w) (wr_lastHousekeepingAt w) (wr_intervalMs w)
  else
    let commands := map_imap (fun key c => Some (supersedeCommand now l key c)) (EventAdmission.commands j) in
    let j := EventAdmission.mkJournal (EventAdmission.plans j) commands (EventAdmission.seen j) in
    let plans := map_imap (fun id p => Some (supersedePlan now l j id p)) (EventAdmission.plans j) in
    mkWriter l (EventAdmission.mkJournal plans commands (EventAdmission.seen j)) true (wr_lastHousekeepingAt w) (wr_intervalMs w).

Definition runHousekeeping (now : Z) (w : Writer) : Writer :=
  if now - wr_lastHousekeepingAt w <? wr_intervalMs w then w
  else sweepUnacceptedEvents now
         (mkWriter (sweepStalePairs now (wr_log w)) (wr_admissions w) (wr_reconciled w) now (wr_intervalMs w)).

(** ** Reading *)

(** [findPersistedEventId]: the row of an earlier publication with this identity and input. *)
Definition findPersistedEventId `{Crypto} (l : Log) (event : AgentEvent) : option Z :=
  let fields := ev_fields event in
  let payload := eventPayload fields in
  let key := idempotencyKeyOf payload in
  if String.eqb key "" then None
  else
    let scope := idempotencyScope (eventCorrelation (correlated event payload (recordOrEmpty (obj_get "target" fields)))) (eventOwner fields None) in
    match keyedRow l (eventType event) (ingressSource event (eventSource fields None)) scope key with
    | Some (id, stored) =>
        if bool_decide (ec_idempotency_hash (se_columns stored) = Some (idempotencyHash event payload)) && (0 <? id) &&
           (id <=? MAX_SAFE_INTEGER) then Some id else None
    | None => None
    end.

End EventJournal.
