(* ===== verification/EventBus.v ===== *)
(** The event bus ([src/app/core/events/bus.ts], class [EventBus] and its
    helpers): an event is persisted, then offered to the durable routes, the
    first and the normal subscribers, its delivery is recorded, and listeners are
    notified later from bounded queues of their own.

    [W] is the rest of the Host.  Subscribers, the persistence subscriber and the
    delivery recorder are programs on the state of the bus and of the Host, so
    that a subscriber may emit events itself.  A loop over subscribers runs over
    the subscribers registered when it starts.  Timers and listener callbacks are
    steps of their own; log output is not modelled. *)
From S2P Require Import Prelude Json Effects EventEnvelope EventLog EventTraces EventJournal.

Module EventBus.
Import Effects EventEnvelope EventLog EventTraces EventJournal.

(** ** Traces *)

(** [event.trace?.traceId]. *)
Definition traceIdOf (trace : option json) : option json :=
  match trace with Some (JObj t) => match obj_get "traceId" t with Some JNull => None | v => v end | _ => None end.

Definition childEventTrace (parent : option AgentEvent) : option json :=
  match parent with
  | None => None
  | Some event =>
      let trace := obj_get "trace" (ev_fields event) in
      match ev_rowId event with
      | Some id =>
          if 0 <? id then
            Some (JObj [("traceId", default (JStr (defaultTraceId id)) (traceIdOf trace)); ("parentEventId", JNum (num id))])
          else trace
      | None => trace
      end
  end.

Definition inheritedEventTrace (event : AgentEvent) (parent : option AgentEvent) : AgentEvent :=
  if truthy (obj_get "trace" (ev_fields event)) then event
  else match childEventTrace parent with
       | Some trace => if truthy (Some trace) then with_fields (obj_set "trace" trace (ev_fields event)) event else event
       | None => event
       end.

(** ** Deliveries *)

(** [eventData]: the payload of an event, or a flat event itself. *)
Definition eventData (event : AgentEvent) : obj json :=
  match obj_get "data" (ev_fields event) with Some (JObj d) => d | _ => ev_fields event end.

Definition isSessionEvent (event : AgentEvent) : bool := bool_decide (is_Some (textOf (obj_get "sessionId" (eventData event)))).

Definition normalizeDeliveryResult (result : option DeliveryResult) : option DeliveryResult :=
  match result with
  | Some r => if nonblank (dr_by r) then Some (mkDelivery (trim (dr_by r)) (dr_route r) (nonempty (dr_note r)) (dr_appAdmission r))
              else None
  | None => None
  end.

Definition preferredDelivery (current candidate : option DeliveryResult) : option DeliveryResult :=
  match current with
  | None => candidate
  | Some c =>
      let preferred := match candidate with
                       | Some d => if isNoop (dr_route c) && negb (isNoop (dr_route d)) then d else c
                       | None => c
                       end in
      let app := dr_appAdmission c || match candidate with Some d => dr_appAdmission d | None => false end in
      Some (if app then mkDelivery (dr_by preferred) (dr_route preferred) (dr_note preferred) true else preferred)
  end.

Definition hasKey (v : option json) : bool :=
  match v with Some (JStr s) => nonblank s | Some (JNum n) => isFinite n | _ => false end.

Definition hasPairCorrelationKey (event : AgentEvent) : bool :=
  let data := eventData event in
  let type := eventType event in
  if startsWith type "session." then hasKey (obj_get "sessionId" data)
  else if startsWith type "workflow." then hasKey (obj_get "workflowRunId" data)
  else if startsWith type "handler."
  then hasKey (obj_get "handlerRunId" data) || hasKey (obj_get "workflowRunId" data) || hasKey (obj_get "handler" data)
  else if startsWith type "cli.task." then hasKey (obj_get "taskId" data)
  else false.

Definition isPairTrackedEvent (eventType : string) : bool :=
  set_has eventType ["session.start"; "session.end"; "session.idle"; "workflow.started"; "workflow.completed"; "workflow.failed";
    "workflow.blocked"; "workflow.interrupted"; "handler.started"; "handler.completed"; "handler.failed"; "cli.task.requested";
    "cli.task.started"; "cli.task.completed"; "cli.task.failed"; "cli.task.orphaned"].

Definition pairTrackerFallback (event : AgentEvent) : option DeliveryResult :=
  if isPairTrackedEvent (eventType event) && hasPairCorrelationKey event
  then Some (mkDelivery "event-pair-tracker" (Some direct) (Some "lifecycle event accepted by pair tracker") false)
  else None.

Definition recordOnlyDelivery : DeliveryResult :=
  mkDelivery "event-interface:record" (Some noop) (Some "record-only event persisted; no responsible consumer required") false.

Definition routeFailed : string := "A required durable route failed; see linked subscriber.failed evidence".

(** ** Listeners *)

Record Listener : Type := mkListener {
  ls_label : string;
  ls_types : option (list string);
  ls_pending : list AgentEvent;
  ls_scheduled : bool;
  ls_active : bool;
  ls_dropped : Z }.

Definition EVENT_LISTENER_BACKLOG_LIMIT : nat := 256.
Definition EVENT_LISTENER_BATCH_SIZE : nat := 1.

Definition newListener (label : string) (types : option (list string)) : Listener :=
  mkListener (default "anonymous" (nonempty (Some (trim label)))) (match types with Some [] => None | t => t end) [] false true 0.

Definition wantsEvent (type : string) (s : Listener) : bool :=
  ls_active s && match ls_types s with Some types => set_has type types | None => true end.

(** One event for one listener; [true]: a timeout is set to drain it. *)
Definition notifyListener (event : AgentEvent) (s : Listener) : Listener * bool :=
  if negb (wantsEvent (eventType event) s) then (s, false)
  else
    let full := Nat.leb EVENT_LISTENER_BACKLOG_LIMIT (length (ls_pending s)) in
    let pending := if full then tail (ls_pending s) else ls_pending s in
    let dropped := if full then ls_dropped s + 1 else ls_dropped s in
    (mkListener (ls_label s) (ls_types s) (pending ++ [event]) true (ls_active s) dropped, negb (ls_scheduled s)).

(** The drain timeout fires: the batch to run, and the rest. *)
Definition drainStart (s : Listener) : list AgentEvent * Listener :=
  if negb (ls_active s) then ([], mkListener (ls_label s) (ls_types s) (ls_pending s) false false (ls_dropped s))
  else (take EVENT_LISTENER_BATCH_SIZE (ls_pending s),
        mkListener (ls_label s) (ls_types s) (drop EVENT_LISTENER_BATCH_SIZE (ls_pending s)) (ls_scheduled s) true 0).

(** The batch is done; [true]: the timeout is set again. *)
Definition drainEnd (s : Listener) : Listener * bool :=
  if ls_active s && bool_decide (ls_pending s <> []) then (s, true)
  else (mkListener (ls_label s) (ls_types s) (ls_pending s) false (ls_active s) (ls_dropped s), false).

Definition unlisten (s : Listener) : Listener := mkListener (ls_label s) (ls_types s) [] (ls_scheduled s) false (ls_dropped s).

(** ** The bus *)

Record Bus : Type := mkBus {
  bs_listeners : list Listener;
  bs_failures : list (obj json);
  bs_emitDepth : Z;
  bs_reporting : bool;
  bs_flushScheduled : bool }.

Definition set_listeners (x : list Listener) (b : Bus) : Bus :=
  mkBus x (bs_failures b) (bs_emitDepth b) (bs_reporting b) (bs_flushScheduled b).
Definition set_failures (x : list (obj json)) (b : Bus) : Bus :=
  mkBus (bs_listeners b) x (bs_emitDepth b) (bs_reporting b) (bs_flushScheduled b).
Definition set_emitDepth (x : Z) (b : Bus) : Bus :=
  mkBus (bs_listeners b) (bs_failures b) x (bs_reporting b) (bs_flushScheduled b).
Definition set_reporting (x : bool) (b : Bus) : Bus :=
  mkBus (bs_listeners b) (bs_failures b) (bs_emitDepth b) x (bs_flushScheduled b).
Definition set_flushScheduled (x : bool) (b : Bus) : Bus :=
  mkBus (bs_listeners b) (bs_failures b) (bs_emitDepth b) (bs_reporting b) x.

Definition emptyBus : Bus := mkBus [] [] 0 false false.

Definition listen (label : string) (types : option (list string)) (b : Bus) : Bus :=
  set_listeners (bs_listeners b ++ [newListener label types]) b.

Definition enqueueListenerEvent (event : AgentEvent) (b : Bus) : Bus :=
  set_listeners (map (fun s => (notifyListener event s).1) (bs_listeners b)) b.

(** [subscriber.failed] evidence waits for the end of the outermost emission. *)
Definition failureEvent (now : Z) (event : AgentEvent) (priority message : string) : obj json :=
  [("type", JStr "subscriber.failed"); ("source", JStr "event-bus"); ("owner", JStr "system:host"); ("timestamp", JNum (num now))] ++
  field "trace" (childEventTrace (Some event)) ++
  [("data", JObj [("originalEventType", JStr (eventType event)); ("subscriberPriority", JStr priority); ("error", JStr message)])].

Definition reportSubscriberFailure (now : Z) (event : AgentEvent) (priority message : string) (b : Bus) : Bus :=
  if String.eqb (eventType event) "subscriber.failed" then b
  else set_failures (bs_failures b ++ [failureEvent now event priority message]) b.

(** Schedules one report; [true]: the timeout is set. *)
Definition flushFailureEvents (b : Bus) : Bus :=
  if bs_reporting b || bs_flushScheduled b || bool_decide (bs_failures b = []) then b else set_flushScheduled true b.

Section Dispatch.
Context {W : Type} (now : Z).
Abbreviation S := (Bus * W)%type.

Definition onBus (f : Bus -> Bus) : E S unit := writes (fun s => (f s.1, s.2)).

Record Subscriber : Type := mkSubscriber {
  sb_label : option string;
  sb_run : AgentEvent -> E S (option DeliveryResult) }.

(** How the bus is set up.  [op_persist] is the persistence subscriber; when it
    joined a state transaction ([op_inTransaction]) the fan-out is handed to
    [op_afterCommit]. *)
Record Options : Type := mkOptions {
  op_persist : option (AgentEvent -> E S AgentEvent);
  op_inTransaction : S -> bool;
  op_afterCommit : AgentEvent -> E S unit;
  op_record : option (AgentEvent -> DeliveryOutcome -> E S unit);
  op_durable : list Subscriber;
  op_first : list Subscriber;
  op_normal : list Subscriber;
  op_context : option AgentEvent }.

Context (options : Options).

(** [try { m } finally { f }]. *)
Definition finally {A} (m : E S A) (f : S -> S) : E S A := fun s => let '(r, s') := m s in (r, f s').

(** One subscriber: an acceptance is preferred or kept, a throw is reported. *)
Definition offer (priority : string) (event : AgentEvent) (acc : option DeliveryResult * bool) (fn : Subscriber)
    : E S (option DeliveryResult * bool) :=
  catching (r ← sb_run fn event; mret (preferredDelivery acc.1 (normalizeDeliveryResult r), acc.2))
    (fun _ e => _ ← onBus (reportSubscriberFailure now event priority e); mret (acc.1, true)).

Fixpoint offerAll (priority : string) (event : AgentEvent) (fns : list Subscriber) (acc : option DeliveryResult * bool)
    : E S (option DeliveryResult * bool) :=
  match fns with
  | [] => mret acc
  | fn :: fns => acc ← offer priority event acc fn; offerAll priority event fns acc
  end.

(** The durable routes of this dispatch. *)
Definition selectedRoutes (label : option string) (event : AgentEvent) : list Subscriber :=
  filter (fun fn =>
    match nonempty label with Some l => bool_decide (sb_label fn = Some l) | None => true end &&
    (negb (ev_appRedelivery event) || bool_decide (sb_label fn = Some "app-inbox-route")) = true) (op_durable options).

Definition records (event : AgentEvent) (outcome : DeliveryOutcome) : E S unit :=
  match op_record options with Some r => r event outcome | None => mret tt end.

(** The acceptance that is recorded when no durable route failed. *)
Definition finalDelivery (delivery : option DeliveryResult) (event : AgentEvent) : option DeliveryResult :=
  match delivery with
  | Some d => Some d
  | None => match pairTrackerFallback event with
            | Some d => Some d
            | None => if ev_recordOnly event then Some recordOnlyDelivery else None
            end
  end.

(** Fan-out of a persisted event. *)
Definition fanOut (label : option string) (event : AgentEvent) : E S AgentEvent :=
  if ev_deduplicated event && negb (ev_redelivery event) then mret event
  else
    '(delivery, failed) ← offerAll "first" event (selectedRoutes label event) (None, false);
    '(delivery, _) ← (if ev_redelivery event then mret (delivery, false)
                      else '(delivery, _) ← offerAll "first" event (op_first options) (delivery, false);
                           offerAll "normal" event (op_normal options) (delivery, false));
    event ← (if (failed : bool) then _ ← records event (undelivered routeFailed); mret event
             else match finalDelivery delivery event with
                  | Some d => let event := with_delivery (Some d) event in _ ← records event (delivered d); mret event
                  | None => mret event
                  end);
    _ ← (if ev_redelivery event then mret tt else onBus (enqueueListenerEvent event));
    mret event.

Definition leave (s : S) : S :=
  let b := set_emitDepth (bs_emitDepth s.1 - 1) s.1 in
  ((if bs_emitDepth b =? 0 then flushFailureEvents b else b), s.2).

Definition dispatch (input : AgentEvent) (persist : bool) (durableRouteLabel : option string) : E S AgentEvent :=
  let event := inheritedEventTrace input (op_context options) in
  _ ← onBus (fun b => set_emitDepth (bs_emitDepth b + 1) b);
  finally (
    match (if persist then op_persist options else None) with
    | Some subscriber =>
        event ← subscriber event;
        deferred ← reads (op_inTransaction options);
        if (deferred : bool) then _ ← op_afterCommit options event; mret event
        else fanOut durableRouteLabel event
    | None => fanOut durableRouteLabel event
    end) leave.

Definition emit (input : AgentEvent) : E S AgentEvent := dispatch input true None.

Definition redeliverPersisted (input : AgentEvent) (eventId : Z) (durableRouteLabel : option string) : E S AgentEvent :=
  if negb (isSafeInteger (num eventId)) || (eventId <=? 0) then throw "Persisted event redelivery requires a positive event id"
  else dispatch (with_retry true (ev_recordOnly input) true (ev_appRedelivery input) (with_rowId eventId input)) false durableRouteLabel.

Definition fanoutPersisted (input : AgentEvent) (eventId : Z) : E S AgentEvent :=
  if negb (isSafeInteger (num eventId)) || (eventId <=? 0) then throw "Persisted event fan-out requires a positive event id"
  else dispatch (with_rowId eventId input) false None.

(** The timeout of [flushFailureEvents] fires: one report is emitted. *)
Definition fireFlush : E S unit :=
  _ ← onBus (set_flushScheduled false);
  b ← reads fst;
  if bs_reporting b then mret tt
  else match bs_failures b with
       | [] => mret tt
       | failure :: rest =>
           _ ← onBus (fun b => set_reporting true (set_failures rest b));
           finally (catching (_ ← emit (with_retry false true false false (newEvent failure)); mret tt) (fun _ _ => mret tt))
             (fun s => (flushFailureEvents (set_reporting false s.1), s.2))
       end.

(** A listener's callback threw. *)
Definition listenerFailed (event : AgentEvent) (message : string) : E S unit :=
  onBus (fun b => flushFailureEvents (reportSubscriberFailure now event "listener" message b)).

End Dispatch.

End EventBus.
