(* ===== verification/TaskEmissions.v ===== *)
(** Facts that Tasks publish ([src/app/core/events/persisted.ts],
    [src/app/core/state/task-emissions.ts],
    [src/app/core/tasks/app-task-emitter.ts]): an attempt publishes an event
    under a key of its own, which is scoped to the Task and its generation, and
    reads the original back.

    Rows without a stored envelope (written by older versions) are not modelled.
    Observers of publications and of events addressed to a live attempt are
    callbacks and not part of the result. *)
From S2P Require Import Prelude Json TaskState TaskEvents Effects EventEnvelope EventLog EventTraces EventProjections EventJournal EventBus.

Module TaskEmissions.
Import TaskEvents Effects EventEnvelope EventLog EventTraces EventProjections EventJournal EventBus.

#[local] Instance res_bind' : MBind res := fun A B f x => match x with Ok a => f a | Throw e => Throw e end.
#[local] Instance res_ret' : MRet res := @Ok.

(** ** Stored envelopes *)

Definition check (ok : bool) (error : string) : res unit := if ok then mret tt else Throw error.

Definition absentOr (p : json -> bool) (v : option json) : bool := match v with Some v => p v | None => true end.
Definition isText (v : json) : bool := match v with JStr _ => true | _ => false end.
Definition isNumber (v : json) : bool := match v with JNum n => isFinite n | _ => false end.

Definition textTargetKeys : list string := ["appId"; "project"; "taskId"; "executionId"; "sessionId"; "metricId"; "owner"].

Fixpoint checkTarget (target : obj json) (keys : list string) : res unit :=
  match keys with
  | [] => mret tt
  | k :: keys =>
      _ ← check (absentOr (fun v => if String.eqb k "human" then match v with JBool _ => true | _ => false end else isText v)
                   (obj_get k target)) ("Stored event envelope target." +:+ k +:+ " has an invalid type");
      checkTarget target keys
  end.

Definition nullOrText (k : string) (envelope : obj json) : res unit :=
  check (match obj_get k envelope with Some JNull | Some (JStr _) => true | _ => false end)
    ("Stored event envelope " +:+ k +:+ " must be a string or null").

Definition readPersistedEventEnvelope (envelope : obj json) (eventType : string) : res (obj json) :=
  _ ← check (match obj_get "type" envelope with Some (JStr t) => nonblank t | _ => false end)
        "Stored event envelope must be an object with an event type";
  _ ← check (str_is (obj_get "type" envelope) eventType) "Stored event envelope type disagrees with its record";
  _ ← nullOrText "source" envelope;
  _ ← nullOrText "owner" envelope;
  _ ← check (match obj_get "timestamp" envelope with Some v => isNumber v | None => false end)
        "Stored event envelope timestamp must be finite";
  _ ← check (match obj_get "urgency" envelope with Some (JStr u) => set_has u ["low"; "normal"; "high"; "immediate"] | _ => false end)
        "Stored event envelope urgency is invalid";
  _ ← check (absentOr isText (obj_get "action" envelope)) "Stored event envelope action must be a string";
  _ ← check (absentOr isNumber (obj_get "ttl_ms" envelope)) "Stored event envelope ttl_ms must be finite";
  _ ← check (absentOr (fun v => isRecord (Some v)) (obj_get "target" envelope)) "Stored event envelope target must be an object";
  _ ← checkTarget (recordOrEmpty (obj_get "target" envelope)) (textTargetKeys ++ ["human"]);
  mret envelope.

Section Persisted.
Context `{Crypto}.

(** The original body of a row; a damaged or truncated one is not used. *)
Definition storedBody (hasPersistDir : bool) (l : Log) (c : EventColumns) : option json :=
  let intact (d : ArtifactDescriptor) := String.eqb (af_sha256 d) (ec_body_sha256 c) && (af_bytes d =? ec_body_bytes c) in
  let ref := default "" (ec_body_ref c) in
  if nonblank ref then
    if negb hasPersistDir then None
    else '(value, descriptor) ← readJsonArtifactWithDescriptor (files l) ref; if intact descriptor then Some value else None
  else if intact (describeText "" (bodyText (JObj (ec_data c)))) then Some (JObj (ec_data c)) else None.

Definition loadPersistedEvent (hasPersistDir : bool) (l : Log) (eventId : Z) : option AgentEvent :=
  row ← rows l !! eventId;
  let c := se_columns row in
  envelope ← match readPersistedEventEnvelope (ec_envelope_json c) (ec_event_type c) with Ok e => Some e | Throw _ => None end;
  data ← storedBody hasPersistDir l c;
  match data with
  | JObj payload =>
      let metadata := readEventTraceMetadata l eventId in
      let fields := spread envelope ([("data", JObj payload)] ++ field "trace" (tm_trace <$> metadata) ++
                                     field "visibility" ((fun m => JStr (tm_visibility m)) <$> metadata)) in
      Some (with_retry false (ec_record_only c) false false (with_rowId eventId (newEvent fields)))
  | _ => None
  end.

(** ** Emissions of a Task *)

Record TaskEmissionScope : Type := mkScope { sc_appId : string; sc_taskId : string; sc_generation : Z }.

Definition taskEmissionIdentity (scope : TaskEmissionScope) (localKey : string) : res string :=
  let key := trim localKey in
  if String.eqb key "" || Nat.ltb 256 (String.length key) then Throw "Task emit localKey must contain 1-256 characters"
  else Ok ("task-emission:" +:+ JSON_stringify (JArr [JStr (sc_appId scope); JStr (sc_taskId scope);
             JNum (num (sc_generation scope)); JStr key])).

Definition legacyIdentity (scope : TaskEmissionScope) (localKey : string) : string :=
  "task:" +:+ sc_appId scope +:+ ":" +:+ sc_taskId scope +:+ ":" +:+ show_Z (sc_generation scope) +:+ ":emit:" +:+ trim localKey.

(** The rows of one key of a Task. *)
Definition emissionRow (scope : TaskEmissionScope) (type key : string) (c : EventColumns) : bool :=
  String.eqb (ec_event_type c) type && String.eqb (ec_ingress_source c) ("app-task:" +:+ sc_appId scope) &&
  String.eqb (ec_idempotency_scope c) (sc_appId scope) && bool_decide (ec_idempotency_key c = Some key) && negb (String.eqb key "") &&
  bool_decide (co_projectId (ec_correlation c) = Some (sc_appId scope)) &&
  bool_decide (co_taskId (ec_correlation c) = Some (sc_taskId scope)).

Definition emissionOf (l : Log) (scope : TaskEmissionScope) (type key : string) : option Z :=
  fst <$> head (filter (fun e => emissionRow scope type key (se_columns e.2) = true) (map_to_list (rows l))).

(** The row and its key; the current form of the key comes first. *)
Definition findTaskEmission (l : Log) (scope : TaskEmissionScope) (type localKey : string) : res (option (Z * string)) :=
  key ← taskEmissionIdentity scope localKey;
  let legacyKey := legacyIdentity scope localKey in
  mret (match emissionOf l scope type key with
        | Some id => Some (id, key)
        | None => (fun id => (id, legacyKey)) <$> emissionOf l scope type legacyKey
        end).

Definition verifies (scope : TaskEmissionScope) (localKey idempotencyKey : string) (data : obj json) : bool :=
  str_is (obj_get "idempotencyKey" data) idempotencyKey &&
  match obj_get "emission" data with
  | Some (JObj emission) =>
      str_is (obj_get "appId" emission) (sc_appId scope) && str_is (obj_get "taskId" emission) (sc_taskId scope) &&
      match obj_get "generation" emission with Some (JNum n) => number_eqb n (num (sc_generation scope)) | _ => false end &&
      str_is (obj_get "localKey" emission) (trim localKey)
  | _ => false
  end.

Definition readTaskEmission (hasPersistDir : bool) (l : Log) (scope : TaskEmissionScope) (type localKey : string)
    : res (option (Z * obj json)) :=
  found ← findTaskEmission l scope type localKey;
  match found with
  | None => mret None
  | Some (id, key) =>
      match loadPersistedEvent hasPersistDir l id ≫= (fun e => objectValue (obj_get "data" (ev_fields e))) with
      | Some data =>
          if verifies scope localKey key data then mret (Some (id, data))
          else Throw ("Published Task fact " +:+ show_Z id +:+ " could not be verified")
      | None => Throw ("Published Task fact " +:+ show_Z id +:+ " could not be verified")
      end
  end.

(** ** The emitter of an attempt *)

Record AppTaskEmission : Type := mkEmission {
  em_type : string;
  em_data : option (obj json);
  em_target : option (obj json);
  em_owner : option string;
  em_action : option string;
  em_urgency : option string;
  em_ttl_ms : option number }.

(** The attempt that publishes. *)
Record Emitter : Type := mkEmitter {
  et_appId : string;
  et_taskId : string;
  et_generation : Z;
  et_attemptId : string;
  et_agent : string;
  et_parent : option AgentEvent;
  et_communication : bool }.

Definition emitterApp (i : Emitter) : string := dropAppSuffix (trim (et_appId i)).
Definition emitterScope (i : Emitter) : TaskEmissionScope := mkScope (emitterApp i) (et_taskId i) (et_generation i).

(** What an attempt may not publish as an ordinary event. *)
Definition emissionAllowed (i : Emitter) (key : string) (emitted : AppTaskEmission) : res unit :=
  let type := em_type emitted in
  _ ← check (negb (String.eqb key "" || Nat.ltb 256 (String.length key))) "Task emit localKey must contain 1-256 characters";
  _ ← check (includes type ".") "Task emit requires a canonical dot-separated event type";
  _ ← check (negb (String.eqb type "project.approval.submitted")) "Formal human approval must use a Host-verified human ingress";
  _ ← check (negb (String.eqb type "conversation.message.created" || String.eqb type "app.task.communication.updated") ||
             et_communication i) "Use Task communication changes to publish through saved reply context";
  check (negb (String.eqb type "app.input.requested")) "Cross-App result work must use a typed Task dependency, not events.emit".

Definition emittedData (i : Emitter) (key idempotencyKey : string) (emitted : AppTaskEmission) : obj json :=
  spread (default [] (em_data emitted))
    [("idempotencyKey", JStr idempotencyKey);
     ("emission", JObj [("appId", JStr (emitterApp i)); ("taskId", JStr (et_taskId i)); ("generation", JNum (num (et_generation i)));
                        ("localKey", JStr key)])].

Definition emittedEvent (i : Emitter) (key idempotencyKey : string) (emitted : AppTaskEmission) : AgentEvent :=
  mkEvent ([("type", JStr (em_type emitted)); ("source", JStr ("app-task:" +:+ emitterApp i));
            ("owner", JStr (default ("agent:" +:+ et_agent i) (em_owner emitted)))] ++
           field "target" (JObj <$> em_target emitted) ++ field "action" (JStr <$> nonempty (em_action emitted)) ++
           field "urgency" (JStr <$> nonempty (em_urgency emitted)) ++ field "ttl_ms" (JNum <$> em_ttl_ms emitted) ++
           [("data", JObj (emittedData i key idempotencyKey emitted))] ++ field "trace" (childEventTrace (et_parent i)))
    (Some (mkFence (emitterApp i) (et_taskId i) (et_generation i) (et_attemptId i) key)) None false false [] None false false false None.

(** [emit], up to the fan-out of the bus: the event is handed to the writer.
    [context] is the event that is being handled, if any. *)
Definition emitFact (now : Z) (context : option AgentEvent) (i : Emitter) (localKey : string) (emitted : AppTaskEmission) : E Hub Z :=
  let key := trim localKey in
  _ ← checks (emissionAllowed i key emitted);
  found ← asks (fun h => findTaskEmission (log h) (emitterScope i) (em_type emitted) key);
  idempotencyKey ← checks (match found with Some (_, k) => Ok k | None => taskEmissionIdentity (emitterScope i) key end);
  accepted ← handler now (inheritedEventTrace (emittedEvent i key idempotencyKey emitted) context);
  match ev_rowId accepted with
  | Some id => if isSafeInteger (num id) && (0 <? id) then mret id
               else throw ("Task emission " +:+ key +:+ " did not receive a durable event identity")
  | None => throw ("Task emission " +:+ key +:+ " did not receive a durable event identity")
  end.

End Persisted.

End TaskEmissions.
