(* ===== verification/JournalLaws.v ===== *)
(** The event journal is append-only and consistent: rows keep what they were
    stored with, every event has a trace, traces, links and pairs lead to stored
    events, a closed pair has a closure in the trace, and an idempotency key names
    one row. *)
From S2P Require Import Prelude Json TaskState TaskTree Transaction ResourceStore StoreInvariant Records Time TaskEvents Effects.
From S2P Require Import EventEnvelope EventLog EventTraces EventProjections EventAdmission EventJournal.

Module JournalLaws.
Import ResourceStore TaskEvents Effects EventEnvelope EventLog EventTraces EventProjections EventJournal.

(** ** The invariant *)

Definition stored (l : Log) (id : Z) : Prop := is_Some (rows l !! id).

Definition linkKey (k : LinkRow) : Z * Z * LinkType * string := (lw_from k, lw_to k, lw_type k, lw_label k).

Definition closes (l : Log) (c o : Z) : Prop := exists k, k ∈ links l /\ lw_from k = c /\ lw_to k = o /\ lw_type k = lk_closure.

(** What the unique index covers. *)
Definition indexKey (e : StoredEvent) : option (string * string * string * string) :=
  let c := se_columns e in
  key ← nonempty (ec_idempotency_key c); Some (ec_event_type c, ec_ingress_source c, ec_idempotency_scope c, key).

(** The tables but the pairs. *)
Record core_ok (l : Log) : Prop := {
  jk_ids : forall id, stored l id -> 0 < id <= lastId l;
  jk_last : 0 <= lastId l;
  jk_traces : forall id, is_Some (traces l !! id) <-> stored l id;
  jk_parents : forall id t p, traces l !! id = Some t -> tw_parent_event_id t = Some p -> stored l p;
  jk_links : forall k, k ∈ links l -> stored l (lw_from k) /\ stored l (lw_to k);
  jk_unique : NoDup (map linkKey (links l));
  jk_keys : forall i j a b, rows l !! i = Some a -> rows l !! j = Some b -> indexKey a = indexKey b -> indexKey a <> None -> i = j }.

Definition pair_ok (l : Log) (p : PairRow) : Prop :=
  stored l (pw_open_event_id p) /\
  match pw_close_event_id p with
  | Some c => pw_status p = pr_closed /\ closes l c (pw_open_event_id p)
  | None => pw_status p <> pr_closed
  end.

Definition journal_ok (l : Log) : Prop := core_ok l /\ Forall (pair_ok l) (pairs l).

(** ** Steps that only add *)

(** Nothing is taken away, and the rows are the same. *)
Record extends (l l' : Log) : Prop := {
  ex_rows : rows l' = rows l;
  ex_last : lastId l' = lastId l;
  ex_pairs : pairs l' = pairs l;
  ex_files : files l' = files l;
  ex_links : forall k, k ∈ links l -> k ∈ links l' }.

#[export] Instance extends_preorder : PreOrder extends.
Proof.
  split; [by intros l; split|]. intros l1 l2 l3 [R1 A1 P1 F1 K1] [R2 A2 P2 F2 K2]. split; [congruence..|auto].
Qed.

Lemma extends_stored l l' id : extends l l' -> stored l' id <-> stored l id.
Proof. intros []. unfold stored. by rewrite ex_rows0. Qed.

Lemma extends_closes l l' c o : extends l l' -> closes l c o -> closes l' c o.
Proof. intros [] (k & Hk & H). exists k. auto. Qed.

Lemma extends_pairs l l' : extends l l' -> Forall (pair_ok l) (pairs l) -> Forall (pair_ok l') (pairs l').
Proof.
  intros He Hall. rewrite (ex_pairs _ _ He). eapply Forall_impl; [exact Hall|]. intros p [Ho Hc]. split; [by eapply extends_stored|].
  destruct (pw_close_event_id p); [|done]. destruct Hc as [? Hc]. split; [done|]. by eapply extends_closes.
Qed.

(** A step that extends the log and keeps its tables consistent. *)
Definition grows (f : Log -> Log) : Prop := forall l, core_ok l -> extends l (f l) /\ core_ok (f l).

Lemma grows_ok f l : grows f -> journal_ok l -> journal_ok (f l).
Proof. intros Hf [Hc Hp]. destruct (Hf l Hc) as [He Hc']. split; [done|]. by eapply extends_pairs. Qed.

Lemma eventExists_stored l id : core_ok l -> eventExists l (Some id) = true <-> stored l id.
Proof.
  intros Hc. unfold eventExists. rewrite andb_true_iff, negb_true_iff, Z.eqb_neq, bool_decide_eq_true. fold (stored l id).
  split; [by intros []|]. intros Hs. pose proof (jk_ids _ Hc _ Hs). split; [lia|done].
Qed.

Lemma sameLink_key a b : sameLink a b = true <-> linkKey a = linkKey b.
Proof.
  unfold sameLink, linkKey. rewrite !andb_true_iff, !Z.eqb_eq, bool_decide_eq_true, String.eqb_eq. split.
  - intros [[[H1 H2] H3] H4]. congruence.
  - intros [= H1 H2 H3 H4]. auto.
Qed.

Lemma append_link_ok k l :
  core_ok l -> stored l (lw_from k) -> stored l (lw_to k) -> linkKey k ∉ map linkKey (links l) ->
  core_ok (set_links (links l ++ [k]) l).
Proof.
  intros [] Hf Ht Hnew. constructor; try done; simpl.
  - intros x. rewrite elem_of_app, list_elem_of_singleton. intros [Hx| ->]; [exact (jk_links0 x Hx)|done].
  - rewrite map_app. apply NoDup_app. split_ands; [done| |apply NoDup_singleton].
    intros x Hx Hk. apply list_elem_of_singleton in Hk as ->. done.
Qed.

Lemma append_link_extends k l : extends l (set_links (links l ++ [k]) l).
Proof. split; try done. simpl. set_solver. Qed.

Lemma addLink_grows k l : core_ok l -> stored l (lw_from k) -> stored l (lw_to k) -> extends l (addLink k l) /\ core_ok (addLink k l).
Proof.
  intros Hc Hf Ht. unfold addLink. destruct (existsb (sameLink k) (links l)) eqn:E; [by split|].
  split; [apply append_link_extends|]. apply append_link_ok; try done.
  intros (x & Hx & Hin)%list_elem_of_fmap. apply not_true_iff_false in E. apply E. apply existsb_exists. exists x.
  split; [by apply list_elem_of_In|]. by apply sameLink_key.
Qed.

Lemma fold_grows {A} (f : Log -> A -> Log) xs l :
  (forall l x, core_ok l -> extends l (f l x) /\ core_ok (f l x)) -> core_ok l ->
  extends l (fold_left f xs l) /\ core_ok (fold_left f xs l).
Proof.
  intros Hf. revert l. induction xs as [|x xs IH]; intros l Hc; [by split|]. simpl.
  destruct (Hf l x Hc) as [He Hc']. destruct (IH _ Hc') as [He' Hc'']. split; [by etrans|done].
Qed.

(** ** Traces *)

Lemma set_trace_ok id t l :
  core_ok l -> stored l id -> (forall p, tw_parent_event_id t = Some p -> stored l p) ->
  core_ok (set_traces (<[id := t]> (traces l)) l).
Proof.
  intros [] Hs Hp. constructor; try done; simpl.
  - intros i. destruct (decide (i = id)) as [->|Hne]; [rewrite lookup_insert_eq; naive_solver|].
    rewrite lookup_insert_ne by done. apply jk_traces0.
  - intros i x p. destruct (decide (i = id)) as [->|Hne].
    + rewrite lookup_insert_eq. intros [= <-]. apply Hp.
    + rewrite lookup_insert_ne by done. apply jk_parents0.
Qed.

Lemma set_traces_extends x l : extends l (set_traces x l).
Proof. by split. Qed.

Lemma addDeclared_grows id at_ l k : stored l id -> core_ok l -> extends l (addDeclared id at_ l k) /\ core_ok (addDeclared id at_ l k).
Proof.
  intros Hs Hc. unfold addDeclared. destruct (eventExists l _) eqn:E; [|by split].
  apply eventExists_stored in E; [|done]. by apply addLink_grows.
Qed.

Lemma inferred_stored event id l p : core_ok l -> inferredParentEventId event id l = Some p -> stored l p.
Proof.
  intros Hc. unfold inferredParentEventId. destruct (eventExists l (openedBy event)) eqn:E.
  - intros H. rewrite H in E. by apply eventExists_stored.
  - destruct (eventExists l (escalationCreatedId event id l)) eqn:E'; [|done]. intros H. rewrite H in E'. by apply eventExists_stored.
Qed.

Lemma trace_parent event id l p : core_ok l -> tw_parent_event_id (traceOf event id l) = Some p -> stored l p.
Proof.
  intros Hc. unfold traceOf. cbn [tw_parent_event_id]. destruct (eventExists l (parseEventTrace _ ≫= _)) eqn:E.
  - intros H. rewrite H in E. by apply eventExists_stored.
  - by apply inferred_stored.
Qed.

Lemma addImplied_grows trace id to_ type label at_ l :
  stored l id -> core_ok l -> extends l (addImplied trace id to_ type label at_ l) /\ core_ok (addImplied trace id to_ type label at_ l).
Proof.
  intros Hs Hc. unfold addImplied. destruct to_ as [o|]; [|by split]. destruct (eventExists l (Some o)) eqn:E; [|by split].
  destruct (hasDeclaredLink _ _ _); [by split|]. apply eventExists_stored in E; [|done]. by apply addLink_grows.
Qed.

Lemma grows_then l f g :
  extends l (f l) /\ core_ok (f l) -> (extends l (f l) -> core_ok (f l) -> extends (f l) (g (f l)) /\ core_ok (g (f l))) ->
  extends l (g (f l)) /\ core_ok (g (f l)).
Proof. intros [He Hc] Hg. destruct (Hg He Hc) as [He' Hc']. split; [by etrans|done]. Qed.

Lemma persistEventTrace_grows event id at_ l :
  stored l id -> core_ok l -> extends l (persistEventTrace event id at_ l) /\ core_ok (persistEventTrace event id at_ l).
Proof.
  intros Hs Hc. unfold persistEventTrace. destruct (negb (0 <? id)); [by split|]. cbv zeta.
  set (created := escalationCreatedId event id l). clearbody created.
  apply (grows_then l (fun l => set_traces (<[id := traceOf event id l]> (traces l)) l)
    (fun l => addImplied _ id created _ _ at_ (addImplied _ id _ _ _ at_ (fold_left (addDeclared id at_) _ l)))).
  { split; [apply set_traces_extends|]. apply set_trace_ok; [done..|]. intros p. by apply trace_parent. }
  intros He Hc1. set (l1 := set_traces _ l) in *. assert (stored l1 id) as Hs1 by done. clearbody l1. clear -Hs1 Hc1.
  apply (grows_then l1 (fold_left (addDeclared id at_) _) (fun l => addImplied _ id created _ _ at_ (addImplied _ id _ _ _ at_ l))).
  { revert l1 Hs1 Hc1. induction (match parseEventTrace _ with Some t => ti_links t | None => [] end) as [|k ks IH]; intros l Hs Hc; [by split|].
    simpl. destruct (addDeclared_grows id at_ l k Hs Hc) as [He Hc1]. destruct (IH (addDeclared id at_ l k)) as [He' Hc']; [|done|].
    - by eapply extends_stored.
    - split; [by etrans|done]. }
  intros He2 Hc2. apply (extends_stored _ _ id) in He2 as Hs2. apply Hs2 in Hs1 as Hs3.
  apply (grows_then _ (addImplied _ id _ _ _ at_) (addImplied _ id created _ _ at_)); [by apply addImplied_grows|].
  intros He3 Hc3. apply addImplied_grows; [|done]. by eapply extends_stored.
Qed.

(** ** Closures *)

Lemma alter_trace_ok f id l :
  core_ok l -> (forall t p, traces l !! id = Some t -> tw_parent_event_id (f t) = Some p -> stored l p) ->
  core_ok (set_traces (alter f id (traces l)) l).
Proof.
  intros [] Hp. constructor; try done; simpl.
  - intros i. etrans; [|apply jk_traces0]. destruct (decide (i = id)) as [->|Hne].
    + rewrite lookup_alter_eq. by destruct (traces l !! id).
    + by rewrite lookup_alter_ne.
  - intros i t p. destruct (decide (i = id)) as [->|Hne].
    + rewrite lookup_alter_eq. destruct (traces l !! id) as [t0|] eqn:E; [|done]. intros [= <-]. by apply Hp.
    + rewrite lookup_alter_ne by done. apply jk_parents0.
Qed.

Lemma persistEventClosure_grows c o label at_ l :
  core_ok l -> extends l (persistEventClosure c o label at_ l) /\ core_ok (persistEventClosure c o label at_ l).
Proof.
  intros Hc. unfold persistEventClosure.
  destruct (eventExists l (Some c)) eqn:Ec; [|by split]. destruct (eventExists l (Some o)) eqn:Eo; [|by split]. cbn [negb orb].
  apply eventExists_stored in Ec, Eo; try done.
  match goal with |- context [set_traces (alter ?f c _) l] =>
    assert (core_ok (set_traces (alter f c (traces l)) l)) as Hc1; [|set (l1 := set_traces (alter f c (traces l)) l) in *] end.
  { apply alter_trace_ok; [done|]. intros t p Ht. simpl. destruct (tw_parent_event_id t) as [q|] eqn:E; intros [= <-]; [|done].
    by eapply jk_parents. }
  assert (extends l l1) as He by apply set_traces_extends. assert (stored l1 c /\ stored l1 o) as [Hs1 Hs2] by done. clearbody l1.
  destruct (existsb _ (links l1)) eqn:E; [by split|]. split; [etrans; [exact He|apply append_link_extends]|].
  apply append_link_ok; [done..|]. intros (x & Hx & Hin)%list_elem_of_fmap. apply not_true_iff_false in E. apply E.
  apply existsb_exists. exists x. split; [by apply list_elem_of_In|]. unfold closesAlready.
  injection Hx as <- <- <- _. by rewrite !Z.eqb_refl.
Qed.

Lemma persistEventClosure_closes c o label at_ l :
  core_ok l -> stored l c -> stored l o -> closes (persistEventClosure c o label at_ l) c o.
Proof.
  intros Hc Hs Ho. unfold persistEventClosure. rewrite !(proj2 (eventExists_stored _ _ Hc)) by done. cbn [negb orb].
  destruct (existsb _ _) eqn:E.
  - apply existsb_exists in E as (k & Hin & Hk). unfold closesAlready in Hk.
    rewrite !andb_true_iff, !Z.eqb_eq, bool_decide_eq_true in Hk. exists k. split; [by apply list_elem_of_In|naive_solver].
  - eexists. split; [apply elem_of_app; right; by apply list_elem_of_singleton|done].
Qed.

(** The closures of several pairs. *)
Lemma closures_grow c at_ ps l :
  core_ok l ->
  let l' := fold_left (fun l p => persistEventClosure c (pw_open_event_id p) (pw_pair_name p) at_ l) ps l in
  extends l l' /\ core_ok l' /\ (stored l c -> forall p, p ∈ ps -> stored l (pw_open_event_id p) -> closes l' c (pw_open_event_id p)).
Proof.
  cbv zeta. revert l. induction ps as [|q ps IH]; intros l Hc; simpl.
  - split_ands; [done..|]. intros _ p Hp. by apply not_elem_of_nil in Hp.
  - destruct (persistEventClosure_grows c (pw_open_event_id q) (pw_pair_name q) at_ l Hc) as [He Hc1].
    destruct (IH _ Hc1) as (He' & Hc' & Hcl). split_ands; [by etrans|done|]. intros Hs p Hp Ho.
    apply elem_of_cons in Hp as [->|Hp].
    + eapply extends_closes; [exact He'|]. by apply persistEventClosure_closes.
    + apply Hcl; [|done|]; by eapply extends_stored.
Qed.

(** ** Pairs *)

(** The same tables but for the pairs. *)
Lemma set_pairs_core ps l : core_ok l -> core_ok (set_pairs ps l).
Proof. by intros []. Qed.

Lemma pair_ok_set ps l p : pair_ok (set_pairs ps l) p <-> pair_ok l p.
Proof. done. Qed.

Lemma pair_ok_extends l l' p : extends l l' -> pair_ok l p -> pair_ok l' p.
Proof.
  intros He [Ho Hc]. split; [by eapply extends_stored|]. destruct (pw_close_event_id p); [|done].
  destruct Hc. split; [done|]. by eapply extends_closes.
Qed.

Lemma live_open l p : pair_ok l p -> isLive p = true -> pw_close_event_id p = None.
Proof.
  intros [_ Hc] Hl. destruct (pw_close_event_id p); [|done]. destruct Hc as [Hc _]. unfold isLive in Hl. rewrite Hc in Hl. done.
Qed.

(** What a step does to the tables when pairs change too. *)
Record advances (l l' : Log) : Prop := {
  ad_rows : rows l' = rows l;
  ad_last : lastId l' = lastId l;
  ad_files : files l' = files l }.

#[export] Instance advances_preorder : PreOrder advances.
Proof. split; [by intros l; split|]. intros l1 l2 l3 [] []. split; congruence. Qed.

Lemma extends_advances l l' : extends l l' -> advances l l'.
Proof. by intros []. Qed.

Lemma advances_stored l l' id : advances l l' -> stored l' id <-> stored l id.
Proof. intros []. unfold stored. by rewrite ad_rows0. Qed.

(** Closing pairs with their closures. *)
Lemma closed_pairs_ok (sel : PairRow -> bool) (note : PairRow -> string) c at_ (ps : list PairRow) l l' :
  journal_ok l -> stored l c -> (forall p, sel p = true -> isLive p = true) ->
  extends (set_pairs (map (fun p => if sel p then closePair c at_ (note p) p else p) (pairs l)) l) l' -> core_ok l' ->
  (forall p, p ∈ ps -> closes l' c (pw_open_event_id p)) -> (forall p, p ∈ pairs l -> sel p = true -> p ∈ ps) ->
  journal_ok l' /\ advances l l'.
Proof.
  intros [Hc Hp] Hs Hlive He Hc' Hcl Hin. split; [split; [done|]|].
  - rewrite (ex_pairs _ _ He). simpl. rewrite Forall_fmap, Forall_forall. intros p Hpin. simpl.
    rewrite Forall_forall in Hp. specialize (Hp p Hpin). destruct (sel p) eqn:E.
    + split; [eapply extends_stored; [exact He|]; apply Hp|]. split; [done|]. apply (Hcl p). by apply Hin.
    + eapply pair_ok_extends; [exact He|]. by apply pair_ok_set.
  - destruct He. split; [done..].
Qed.

Lemma closeWithTrace_ok sel c at_ note l :
  journal_ok l -> stored l c -> journal_ok (closeWithTrace sel c at_ note l) /\ advances l (closeWithTrace sel c at_ note l).
Proof.
  intros Hok Hs. pose proof Hok as [Hc Hp]. unfold closeWithTrace.
  destruct (closures_grow c at_ (livePairs sel l) (closePairs sel c at_ note l)) as (He & Hc' & Hcl); [by apply set_pairs_core|].
  apply (closed_pairs_ok (fun p => isLive p && sel p) (fun p => default note (pw_note p)) c at_ (livePairs sel l)); try done.
  - intros p. by rewrite andb_true_iff; intros [].
  - intros p Hin. apply Hcl; [done|done|]. apply list_elem_of_filter in Hin as [_ Hin]. rewrite Forall_forall in Hp.
    apply (Hp p Hin).
  - intros p Hin E. by apply list_elem_of_filter.
Qed.

(** Steps of the writer after the row is stored. *)
Definition steps (c : Z) (f : Log -> Log) : Prop := forall l, journal_ok l -> stored l c -> journal_ok (f l) /\ advances l (f l).

Lemma steps_fold {A} c (f : Log -> A -> Log) xs : (forall x, steps c (fun l => f l x)) -> steps c (fun l => fold_left f xs l).
Proof.
  intros Hf. induction xs as [|x xs IH]; intros l Hok Hs; [by split|]. simpl. destruct (Hf x l Hok Hs) as [Hok1 Ha].
  destruct (IH _ Hok1) as [Hok2 Ha2]; [by eapply advances_stored|]. split; [done|by etrans].
Qed.

Lemma followup_steps payload c at_ : steps c (closePairForFollowup payload c at_).
Proof. intros l Hok Hs. unfold closePairForFollowup. destruct (_ && _); [by apply closeWithTrace_ok|by split]. Qed.

Lemma closing_steps type payload c at_ : steps c (closeConventionPairs type payload c at_).
Proof.
  apply steps_fold. intros contract l Hok Hs. unfold closeConventionPair. destruct (_ && _); [by split|].
  destruct (nonempty _); [by apply closeWithTrace_ok|by split].
Qed.

Lemma newest_stored p l id e : (id, e) ∈ newest p l -> rows l !! id = Some e.
Proof.
  unfold newest. intros H. rewrite merge_sort_Permutation in H. apply list_elem_of_filter in H as [_ H].
  by apply elem_of_map_to_list in H.
Qed.

Lemma earlier_stored contract key id l c e : earlierClose contract key id l = Some (c, e) -> rows l !! c = Some e.
Proof.
  unfold earlierClose. destruct (pairCorrelationColumn contract) as [column|]; intros H.
  - eapply newest_stored. by eapply head_Some_elem_of.
  - apply find_some in H as [H _]. apply list_elem_of_In in H. eapply newest_stored.
    eapply subseteq_take; exact H.
Qed.

Lemma row_stored l id e : rows l !! id = Some e -> stored l id.
Proof. intros H. unfold stored. rewrite H. eauto. Qed.

Lemma opening_steps type payload c owner at_ : steps c (openConventionPair type payload c owner at_).
Proof.
  intros l Hok Hs. unfold openConventionPair. destruct (openingPair type) as [contract|]; [|by split].
  destruct (nonempty _) as [key|]; [|by split].
  match goal with |- context [set_pairs ?ps l] => set (l1 := set_pairs ps l) end.
  assert (journal_ok l1) as Hok1.
  { destruct Hok as [Hc Hp]. split; [by apply set_pairs_core|]. simpl. apply Forall_app. split; [done|]. by constructor. }
  assert (advances l l1) as Ha by done. assert (stored l1 c) as Hs1 by done. clearbody l1.
  unfold closeConventionPairFromEarlierEvent. destruct (bool_decide _); [by split|].
  destruct (earlierClose contract key c l1) as [[closer e]|] eqn:E; [|by split]. apply earlier_stored in E.
  assert (stored l1 closer) as Hcloser by (by eapply row_stored). pose proof Hok1 as [Hc1 Hp1].
  match goal with |- context [set_pairs (map ?f _) l1] =>
    destruct (persistEventClosure_grows closer c (pc_name contract) at_ (set_pairs (map f (pairs l1)) l1)) as [He Hc'];
      [by apply set_pairs_core|] end.
  edestruct (closed_pairs_ok (fun p => isLive p && String.eqb (pw_pair_name p) (pc_name contract) &&
      String.eqb (pw_correlation_key p) key && (pw_open_event_id p =? c))
    (fun _ => "closed by earlier " +:+ ec_event_type (se_columns e)) closer (Z.max at_ (ec_timestamp (se_columns e)))
    (filter (fun p => pw_open_event_id p = c) (pairs l1)) l1) as [Hok2 Ha2]; [done..| |exact He|exact Hc'| | |].
  - intros p. rewrite !andb_true_iff. by intros [[[] _] _].
  - intros p [<- _]%list_elem_of_filter. by apply persistEventClosure_closes; [apply set_pairs_core| |].
  - intros p Hin Hsel. rewrite !andb_true_iff, Z.eqb_eq in Hsel. apply list_elem_of_filter. naive_solver.
  - split; [done|by etrans].
Qed.

(** ** New rows *)

Lemma set_files_ok fs l : journal_ok (set_files fs l) <-> journal_ok l.
Proof.
  split; intros [[] Hp]; (split; [by constructor|]); eapply Forall_impl; [exact Hp| |exact Hp|]; done.
Qed.

Lemma keyedRow_None l type ingress scope key :
  keyedRow l type ingress scope key = None -> key <> "" ->
  forall id e, rows l !! id = Some e -> indexKey e <> Some (type, ingress, scope, key).
Proof.
  unfold keyedRow. intros H Hkey id e Hid Hk. apply head_None in H.
  assert ((id, e) ∈ (@nil (Z * StoredEvent))) as Hin; [|by apply not_elem_of_nil in Hin].
  rewrite <- H. apply list_elem_of_filter. split; [|by apply elem_of_map_to_list]. simpl. unfold indexKey in Hk.
  destruct (nonempty (ec_idempotency_key (se_columns e))) as [k|] eqn:E; [|done]. simpl in Hk. injection Hk as -> -> -> ->.
  apply nonempty_Some in E as [-> _]. rewrite !String.eqb_refl, bool_decide_true by done.
  by rewrite (proj2 (String.eqb_neq _ _) Hkey).
Qed.

Lemma keyedRow_Some l type ingress scope key id e :
  keyedRow l type ingress scope key = Some (id, e) -> rows l !! id = Some e /\ indexKey e = Some (type, ingress, scope, key).
Proof.
  unfold keyedRow. intros H. apply head_Some_elem_of, list_elem_of_filter in H as [Hk Hin]. apply elem_of_map_to_list in Hin.
  split; [done|]. cbv zeta in Hk. rewrite !andb_true_iff, !String.eqb_eq, bool_decide_eq_true, negb_true_iff, String.eqb_neq in Hk.
  destruct Hk as [[[[H1 H2] H3] H4] H5]. simpl in *. unfold indexKey. rewrite H4. simpl.
  rewrite (proj2 (String.eqb_neq _ _) H5). simpl. by rewrite H1, H2, H3.
Qed.

Lemma appendRow_ok c l :
  journal_ok l -> (forall id e, rows l !! id = Some e -> indexKey e = indexKey (mkStored c newReceipt) -> indexKey e = None) ->
  journal_ok (appendRow c l).2.
Proof.
  intros [[] Hp] Hfresh. unfold appendRow. set (id := lastId l + 1).
  assert (rows l !! id = None) as Hnew.
  { destruct (rows l !! id) eqn:E; [|done]. assert (stored l id) as Hs by (by eapply row_stored). apply jk_ids0 in Hs. lia. }
  assert (traces l !! id = None) as ->.
  { destruct (traces l !! id) eqn:E; [|done]. assert (is_Some (traces l !! id)) as Hs by eauto. apply jk_traces0 in Hs.
    destruct Hs as [? Hs]. congruence. }
  cbn [snd]. match goal with |- journal_ok ?x => set (l' := x) end.
  assert (forall i, stored l' i <-> i = id \/ stored l i) as Hst.
  { intros i. unfold stored, l'. simpl. destruct (decide (i = id)) as [->|Hne]; [rewrite lookup_insert_eq; naive_solver|].
    rewrite lookup_insert_ne by done. naive_solver. }
  split; [constructor|].
  - intros i. rewrite Hst. simpl. intros [->|Hi]; [lia|]. apply jk_ids0 in Hi. lia.
  - simpl. lia.
  - intros i. rewrite Hst, <- jk_traces0. simpl. destruct (decide (i = id)) as [->|Hne]; [rewrite lookup_insert_eq; naive_solver|].
    rewrite lookup_insert_ne by done. naive_solver.
  - intros i t p. simpl. rewrite Hst. destruct (decide (i = id)) as [->|Hne]; [rewrite lookup_insert_eq; by intros [= <-]|].
    rewrite lookup_insert_ne by done. eauto.
  - intros k Hk. rewrite !Hst. destruct (jk_links0 k Hk). auto.
  - exact jk_unique0.
  - intros i j a b. unfold l'. simpl. destruct (decide (i = id)) as [->|Hi]; destruct (decide (j = id)) as [->|Hj]; [done| | |].
    + rewrite lookup_insert_eq, lookup_insert_ne by done. intros [= <-] Hb E Hn. rewrite E in Hn. by rewrite (Hfresh j b) in Hn.
    + rewrite lookup_insert_eq, lookup_insert_ne by done. intros Ha [= <-] E Hn. by rewrite (Hfresh i a) in Hn.
    + rewrite !lookup_insert_ne by done. apply jk_keys0.
  - eapply Forall_impl; [exact Hp|]. intros p [Ho Hc]. split; [apply Hst; auto|].
    destruct (pw_close_event_id p); [|done]. destruct Hc as [? (k & ?)]. split; [done|]. by exists k.
Qed.

(** ** Rows are kept *)

Definition columnsKept (l l' : Log) : Prop :=
  forall id e, rows l !! id = Some e -> exists e', rows l' !! id = Some e' /\ se_columns e' = se_columns e.

#[export] Instance columnsKept_preorder : PreOrder columnsKept.
Proof.
  split; [intros l id e H; eauto|]. intros l1 l2 l3 H1 H2 id e He. destruct (H1 id e He) as (e1 & He1 & E1).
  destruct (H2 id e1 He1) as (e2 & He2 & E2). exists e2. split; [done|congruence].
Qed.

Lemma advances_kept l l' : advances l l' -> columnsKept l l'.
Proof. intros [Hr _ _] id e He. exists e. by rewrite Hr. Qed.

Lemma appendRow_kept c l : journal_ok l -> columnsKept l (appendRow c l).2.
Proof.
  intros [[] _] id e He. exists e. split; [|done]. simpl. rewrite lookup_insert_ne; [done|].
  apply row_stored in He. apply jk_ids0 in He. lia.
Qed.

Section Writer.
Context `{Crypto} (now : Z).

(** The log after an event was appended, before its projection runs. *)
Definition written (p : Prepared) (payload : obj json) (source owner : option string) (l : Log) : Log :=
  let '(data, artifact, fs) := prepareEventBody (pp_payload p) (files l) in
  let '(id, l) := appendRow (columnsOf now p source owner data artifact) (set_files fs l) in
  let event := pp_event p in
  openConventionPair (eventType event) payload id (eventOwner (ev_fields event) None) now
    (closeConventionPairs (eventType event) payload id now
      (closePairForFollowup payload id now (persistEventTrace (ev_fields event) id now l))).

(** The Task stores after the exact Task was woken. *)
Definition woken (fields target : obj json) (id : Z) (st st' : gmap string store) : Prop :=
  match readTaskEventTarget (Some (JObj target)) with
  | Some (mkAddress (Some app) taskId) =>
      match st !! app with
      | Some s =>
          if bool_decide (m_authority s = Some "resources")
          then is_Some (tasks s !! taskId) /\
               st' = <[app := wakeStore taskId (obj_set "eventId" (JNum (num id)) fields) id now s]> st
          else st' = st
      | None => st' = st
      end
  | _ => st' = st
  end.

Lemma wake_run fields target id h r h' :
  persistExactTaskWake fields target id now h = (r, h') ->
  log h' = log h /\ tables h' = tables h /\ (r = Done tt -> woken fields target id (stores h) (stores h')) /\ (r <> Done tt -> h' = h).
Proof.
  unfold persistExactTaskWake, woken. destruct (readTaskEventTarget _) as [[[app|] taskId]|]; [|by intros [= <- <-]..].
  rewrite bind_reads. destruct (stores h !! app) as [s|]; [|by intros [= <- <-]].
  destruct (bool_decide (m_authority s = Some "resources")); [|by intros [= <- <-]]. cbn [negb].
  case_bool_decide as E; [by intros [= <- <-]|]. intros [= <- <-]. split_ands; try done.
  intros _. split; [|done]. destruct (tasks s !! taskId); [eauto|done].
Qed.

(** A run of the append. *)
Lemma append_run p payload source owner project h ev h' :
  appendEvent now p payload source owner project h = (Done ev, h') ->
  ev = with_rowId (lastId (log h) + 1) (pp_event p) /\
  exists st, (if wakesTask (pp_event p) then woken (ev_fields (pp_event p)) (pp_target p) (lastId (log h) + 1) (stores h) st
              else st = stores h) /\
    project (mkHub (written p payload source owner (log h)) st (tables h)) = (Done tt, h').
Proof.
  unfold appendEvent, written. rewrite bind_reads. destruct (prepareEventBody _ _) as [[data artifact] fs].
  unfold onLog. rewrite writes_bind. cbn [set_log log]. intros Hrun.
  apply bind_run in Hrun as (id & h1 & Hid & Hrun). cbv beta in Hid. cbn [log set_log] in Hid.
  destruct (appendRow _ (set_files fs (log h))) as [id' l1] eqn:Ea.
  injection Hid as <- <-. assert (id' = lastId (log h) + 1) as Hid' by (injection Ea as <- _; done).
  rewrite writes_bind in Hrun. apply bind_run in Hrun as ([] & h2 & Hw & Hrun). rewrite !writes_bind in Hrun.
  apply bind_run in Hrun as ([] & h3 & Hp & [= <- <-]). rewrite <- Hid'. split; [done|].
  destruct (wakesTask (pp_event p)).
  - apply wake_run in Hw as (Hl & Ht & Hw & _). exists (stores h2). split; [by apply Hw|].
    cbn in Hl, Ht. rewrite Hl in Hp. unfold set_log in Hp. cbn in Hp. rewrite <- Ht. exact Hp.
  - injection Hw as <-. exists (stores h). split; [done|]. exact Hp.
Qed.

Definition freshKey (p : Prepared) (type : string) (l : Log) : Prop :=
  pp_key p = "" \/ keyedRow l type (pp_ingress p) (pp_scope p) (pp_key p) = None.

Lemma columns_key p source owner data artifact :
  indexKey (mkStored (columnsOf now p source owner data artifact) newReceipt) =
  (if String.eqb (pp_key p) "" then None else Some (eventType (pp_event p), pp_ingress p, pp_scope p, pp_key p)).
Proof. unfold indexKey, columnsOf. cbn. destruct (String.eqb (pp_key p) "") eqn:E; cbn; [done|]. by rewrite E. Qed.

(** The appended log is consistent and keeps the earlier rows. *)
Lemma written_ok p payload source owner l :
  journal_ok l -> freshKey p (eventType (pp_event p)) l ->
  journal_ok (written p payload source owner l) /\ columnsKept l (written p payload source owner l) /\
  exists data artifact fs, prepareEventBody (pp_payload p) (files l) = (data, artifact, fs) /\
    rows (written p payload source owner l) =
      <[lastId l + 1 := mkStored (columnsOf now p source owner data artifact) newReceipt]> (rows l) /\
    lastId (written p payload source owner l) = lastId l + 1 /\ files (written p payload source owner l) = fs.
Proof.
  intros Hok Hfresh. unfold written. destruct (prepareEventBody _ _) as [[data artifact] fs] eqn:Eb.
  set (c := columnsOf now p source owner data artifact).
  assert (journal_ok (set_files fs l)) as Hokf by (by apply set_files_ok).
  assert (journal_ok (appendRow c (set_files fs l)).2) as Hok1.
  { apply appendRow_ok; [done|]. intros id e He. unfold c. rewrite columns_key. destruct (String.eqb_spec (pp_key p) ""); [done|].
    intros E. destruct Hfresh as [?|Hf]; [done|]. exfalso. by eapply (keyedRow_None _ _ _ _ _ Hf). }
  pose proof (appendRow_kept c (set_files fs l) Hokf) as Hkept.
  assert (stored (appendRow c (set_files fs l)).2 (lastId l + 1)) as Hs by (unfold stored; simpl; rewrite lookup_insert_eq; eauto).
  assert (rows (appendRow c (set_files fs l)).2 = <[lastId l + 1 := mkStored c newReceipt]> (rows l)) as Hrows by done.
  destruct (appendRow c (set_files fs l)) as [id l1] eqn:Ea. assert (id = lastId l + 1) as -> by (by injection Ea as <- _).
  assert (lastId l1 = lastId l + 1 /\ files l1 = fs) as [Hlast Hfs] by (by injection Ea as <-).
  cbn [snd] in *. clear Ea.
  destruct (persistEventTrace_grows (ev_fields (pp_event p)) (lastId l + 1) now l1) as [He2 Hc2]; [done|apply Hok1|].
  pose proof (extends_pairs _ _ He2 (proj2 Hok1)) as Hp2. set (l2 := persistEventTrace _ _ _ l1) in *.
  assert (journal_ok l2) as Hok2 by (by split). assert (advances l1 l2) as Ha2 by (by apply extends_advances). clearbody l2.
  assert (stored l2 (lastId l + 1)) as Hs2 by (by eapply advances_stored).
  destruct (followup_steps payload (lastId l + 1) now l2 Hok2 Hs2) as [Hok3 Ha3]. set (l3 := closePairForFollowup _ _ _ l2) in *. clearbody l3.
  assert (stored l3 (lastId l + 1)) as Hs3 by (by eapply advances_stored).
  destruct (closing_steps (eventType (pp_event p)) payload (lastId l + 1) now l3 Hok3 Hs3) as [Hok4 Ha4].
  set (l4 := closeConventionPairs _ _ _ _ l3) in *. clearbody l4. assert (stored l4 (lastId l + 1)) as Hs4 by (by eapply advances_stored).
  destruct (opening_steps (eventType (pp_event p)) payload (lastId l + 1) (eventOwner (ev_fields (pp_event p)) None) now l4 Hok4 Hs4)
    as [Hok5 Ha5].
  assert (advances l1 (openConventionPair (eventType (pp_event p)) payload (lastId l + 1) (eventOwner (ev_fields (pp_event p)) None) now l4))
    as Ha by (etrans; [exact Ha2|]; etrans; [exact Ha3|]; by etrans). split_ands; [done| |].
  - etrans; [exact Hkept|]. by apply advances_kept.
  - exists data, artifact, fs. destruct Ha as [-> -> ->]. by rewrite Hrows.
Qed.

(** A projection writes neither the journal nor the Task stores. *)
Definition quiet (project : E Hub unit) : Prop := forall h, log (project h).2 = log h /\ stores (project h).2 = stores h.

Lemma prepare_type event payload source owner : eventType (pp_event (prepareInsert event payload source owner)) = eventType event.
Proof.
  unfold prepareInsert. cbn [pp_event]. destruct (_ && _); [|done]. unfold eventType. cbn. by rewrite obj_get_set_ne.
Qed.

(** What one call of the writer does. *)
Inductive inserted (event : AgentEvent) (payload : obj json) (source owner : option string) (h : Hub) : out AgentEvent -> Hub -> Prop :=
| ins_failed c e fs : inserted event payload source owner h (Raise c e) (set_log (set_files fs (log h)) h)
| ins_retried id row :
    let p := prepareInsert event payload source owner in
    pp_key p <> "" -> keyedRow (log h) (eventType event) (pp_ingress p) (pp_scope p) (pp_key p) = Some (id, row) ->
    ec_idempotency_hash (se_columns row) = Some (pp_hash p) ->
    inserted event payload source owner h (Done (retried (log h) id row (pp_event p))) h
| ins_appended st tbl :
    let p := prepareInsert event payload source owner in
    freshKey p (eventType event) (log h) ->
    (forall f, ev_fence event = Some f -> ownsEmission now f h = true) ->
    (if wakesTask (pp_event p) then woken (ev_fields (pp_event p)) (pp_target p) (lastId (log h) + 1) (stores h) st else st = stores h) ->
    inserted event payload source owner h (Done (with_rowId (lastId (log h) + 1) (pp_event p)))
      (mkHub (written p payload source owner (log h)) st tbl).

Lemma insert_run event payload source owner project h :
  quiet project ->
  let '(r, h') := insertEventRow now event payload source owner project h in inserted event payload source owner h r h'.
Proof.
  intros Hq. unfold insertEventRow, eventWrite. set (p := prepareInsert event payload source owner). rewrite bind_reads.
  destruct (if String.eqb (pp_key p) "" then None else _) as [[id row]|] eqn:E.
  - destruct (String.eqb_spec (pp_key p) "") as [|Hk]; [done|]. case_bool_decide as Hh; [|by apply ins_failed].
    by apply (ins_retried event payload source owner h id row).
  - assert (freshKey p (eventType event) (log h)) as Hf.
    { unfold freshKey. destruct (String.eqb_spec (pp_key p) ""); [by left|by right]. }
    rewrite bind_reads. destruct (match ev_fence event with Some f => ownsEmission now f h | None => true end) eqn:Ho; cbn [negb].
    2: { by apply ins_failed. }
    destruct (appendEvent _ _ _ _ _ _ h) as [[ev|c e] h'] eqn:Ea; [|by apply ins_failed].
    apply append_run in Ea as (-> & st & Hw & Hp). specialize (Hq (mkHub (written p payload source owner (log h)) st (tables h))).
    rewrite Hp in Hq. destruct Hq as [Hl Hst]. destruct h' as [l' st' tbl]. cbn in Hl, Hst. subst.
    apply ins_appended; [done| |done]. intros f Hfence. by rewrite Hfence in Ho.
Qed.

(** The writer keeps the journal consistent and its rows as they are. *)
Lemma inserted_ok event payload source owner h r h' :
  inserted event payload source owner h r h' -> journal_ok (log h) -> journal_ok (log h') /\ columnsKept (log h) (log h').
Proof.
  intros [c e fs|id row p Hk Hrow Hh|st tbl p Hf Ho Hw] Hok; cbn [log set_log].
  - split; [by apply set_files_ok|]. intros i x Hx. by exists x.
  - done.
  - destruct (written_ok p payload source owner (log h) Hok) as (Hok' & Hkept & _); [|done].
    unfold freshKey, p in *. by rewrite prepare_type.
Qed.

(** ** Delivery *)

(** A receipt that names a consumer stays. *)
Definition acceptedDirectly (r : Receipt) : Prop :=
  rc_delivery_status r = ds_accepted /\ rc_delivery_route r <> Some noop /\ is_Some (rc_accepted_by r).

Definition receiptsKept (l l' : Log) : Prop :=
  forall id e, rows l !! id = Some e -> exists e', rows l' !! id = Some e' /\ se_columns e' = se_columns e /\
    (acceptedDirectly (se_receipt e) -> acceptedDirectly (se_receipt e')).

#[export] Instance receiptsKept_preorder : PreOrder receiptsKept.
Proof.
  split; [intros l id e He; eauto|]. intros l1 l2 l3 H1 H2 id e He. destruct (H1 id e He) as (e1 & He1 & E1 & R1).
  destruct (H2 id e1 He1) as (e2 & He2 & E2 & R2). exists e2. split_ands; [done|congruence|auto].
Qed.

Lemma recorded_kept outcome e :
  acceptedDirectly (se_receipt e) -> acceptedDirectly (se_receipt (recordedReceipt now outcome e)).
Proof.
  intros Ha. destruct e as [c r]. destruct Ha as (Hs & Hr & Hb). unfold acceptedDirectly. cbn in Hs, Hr, Hb. destruct outcome as [d|note]; cbn.
  - unfold acceptedReceipt. destruct (acceptsOver _ _ r) eqn:E.
    + assert (dr_route d <> Some noop) as Hd.
      { intros Hd. unfold acceptsOver in E. rewrite Hd, Hs in E. cbn in E. unfold isNoop in E. by rewrite (bool_decide_false _ Hr) in E. }
      assert (default direct (dr_route d) <> noop) as Hd' by (destruct (dr_route d) as [[]|]; naive_solver).
      destruct (dr_appAdmission d); cbn; (split_ands; [done|congruence|by eexists]).
    + destruct (dr_appAdmission d); by split_ands.
  - unfold reopened. rewrite Hs. cbn. unfold isNoop. rewrite (bool_decide_false _ Hr). by split_ands.
Qed.

(** ** The handler *)

(** A call of the handler appends the event, perhaps completed, after touching
    only its projections; or it leaves everything as it was. *)
Inductive handled (event : AgentEvent) (h : Hub) (r : out AgentEvent) (h' : Hub) : Prop :=
| hd_skipped : h' = h -> (forall e, r = Done e -> e = event) -> handled event h r h'
| hd_inserted e payload source owner h0 fs :
    log h0 = set_files fs (log h) -> stores h0 = stores h -> ev_fence e = ev_fence event -> eventType e = eventType event ->
    inserted e payload source owner h0 r h' -> handled event h r h'.

Lemma quiet_none : quiet noProjection.
Proof. by intros h. Qed.

Lemma quiet_tables f : quiet (onTables f).
Proof. by intros h. Qed.

Lemma quiet_metric type payload t :
  quiet (x ← asks (fun h => applyMetricMutation type payload t (tables h)); onTables (fun _ => x)).
Proof. intros h. rewrite asks_bind. by destruct (applyMetricMutation _ _ _ _). Qed.

Lemma insert_handled event e payload source owner project h0 h fs r h' :
  quiet project -> log h0 = set_files fs (log h) -> stores h0 = stores h -> ev_fence e = ev_fence event -> eventType e = eventType event ->
  insertEventRow now e payload source owner project h0 = (r, h') -> handled event h r h'.
Proof.
  intros Hq Hl Hs Hf Ht Hrun. pose proof (insert_run e payload source owner project h0 Hq) as Hi. rewrite Hrun in Hi.
  by eapply hd_inserted.
Qed.

Lemma same_files h : log h = set_files (files (log h)) (log h).
Proof. by destruct (log h). Qed.

Lemma canonically_handled event m h r h' :
  (m h = (r, h') -> handled event h r h') -> canonically event m h = (r, h') -> handled event h r h'.
Proof.
  intros Hm. unfold canonically. destruct (isCanonicalEventEnvelope _); [done|]. intros [= <- <-]. apply hd_skipped; [done|congruence].
Qed.

Lemma feedback_type h fields :
  obj_get "type" (addressedFeedback h fields) = obj_get "type" fields.
Proof.
  unfold addressedFeedback. cbv zeta. rewrite spread_get.
  - rewrite obj_get_app, field_get_ne by done. cbn [obj_get]. by destruct (String.eqb_spec "data" "type").
  - destruct (match readTaskEventTarget _ with Some (mkAddress (Some a) t) => _ | _ => _ end); unfold obj_wf, obj_keys; cbn;
      repeat constructor; set_solver.
Qed.

Lemma writeSession_bind {A} sessionId payload (k : ArtifactDescriptor -> E Hub A) h : exists d fs,
  (writeSessionResult now sessionId payload ≫= k) h = k d (set_log (set_files fs (log h)) h).
Proof. by eexists _, _. Qed.

Lemma handler_run event h r h' : handler now event h = (r, h') -> handled event h r h'.
Proof.
  unfold handler. cbv zeta. pose proof (same_files h) as Hsame.
  destruct (String.eqb (eventType event) "session.start").
  { apply canonically_handled. unfold onSessions, onTables. rewrite writes_bind. by eapply insert_handled. }
  destruct (String.eqb (eventType event) "session.end").
  { apply canonically_handled.
    match goal with |- (writeSessionResult _ ?i ?p ≫= ?k) h = _ -> _ => destruct (writeSession_bind i p k h) as (d & fs & ->) end.
    unfold onSessions, onTables. rewrite writes_bind. by eapply insert_handled. }
  destruct (String.eqb (eventType event) "session.idle").
  { apply canonically_handled. unfold onSessions, onTables. rewrite writes_bind. by eapply insert_handled. }
  destruct (String.eqb (eventType event) "message.created").
  { apply canonically_handled. by eapply insert_handled. }
  destruct (String.eqb (eventType event) "evaluation.recorded").
  { apply canonically_handled. destruct (evaluationProjectionFromEventData _ _).
    - eapply insert_handled; [apply quiet_tables|done..].
    - intros [= <- <-]. by apply hd_skipped. }
  destruct (String.eqb (eventType event) "metric.threshold_changed" || String.eqb (eventType event) "metric.alert_resolved").
  { eapply insert_handled; [apply quiet_metric|done..]. }
  destruct (String.eqb (eventType event) "escalation.resolved" || String.eqb (eventType event) "escalation.dismissed").
  { rewrite bind_reads. eapply insert_handled; [apply quiet_none|done..|]. unfold eventType. cbn. by rewrite feedback_type. }
  destruct (set_has _ _ || startsWith _ _); [by eapply insert_handled|].
  destruct (includes _ _); [apply canonically_handled; by eapply insert_handled|].
  intros [= <- <-]. apply hd_skipped; [done|congruence].
Qed.

Lemma handled_ok event h r h' : handled event h r h' -> journal_ok (log h) -> journal_ok (log h') /\ columnsKept (log h) (log h').
Proof.
  intros [-> _|e payload source owner h0 fs Hl _ _ _ Hi] Hok; [by split|].
  destruct (inserted_ok _ _ _ _ _ _ _ Hi) as [Hok' Hk]; [rewrite Hl; by apply set_files_ok|]. split; [done|]. by rewrite Hl in Hk.
Qed.

(** Rows are never changed by an append. *)
Lemma inserted_rows event payload source owner h r h' id e :
  inserted event payload source owner h r h' -> journal_ok (log h) -> rows (log h) !! id = Some e -> rows (log h') !! id = Some e.
Proof.
  intros [c m fs|i row p Hk Hrow Hh|st tbl p Hf Ho Hw] Hok He; [done|done|]. cbn [log].
  destruct (written_ok p payload source owner (log h) Hok) as (_ & _ & data & artifact & fs & _ & -> & _);
    [unfold freshKey, p in *; by rewrite prepare_type|].
  rewrite lookup_insert_ne; [done|]. apply row_stored, (jk_ids _ (proj1 Hok)) in He. lia.
Qed.

Lemma handled_receipts event h r h' : handled event h r h' -> journal_ok (log h) -> receiptsKept (log h) (log h').
Proof.
  intros [-> _|e payload source owner h0 fs Hl _ _ _ Hi] Hok; [done|]. intros id row Hrow. exists row. split_ands; [|done|done].
  eapply inserted_rows; [exact Hi| |]; rewrite Hl; [by apply set_files_ok|done].
Qed.

End Writer.

(** ** Deliveries and sweeps *)

(** Steps that change receipts only. *)
Lemma receipts_ok (f : Z -> StoredEvent -> StoredEvent) l l' :
  (forall id e, se_columns (f id e) = se_columns e) -> rows l' = map_imap (fun id e => Some (f id e)) (rows l) ->
  lastId l' = lastId l -> traces l' = traces l -> links l' = links l -> pairs l' = pairs l -> journal_ok l -> journal_ok l'.
Proof.
  intros Hf Hr Ha Ht Hk Hp [[] Hpairs].
  assert (forall id, rows l' !! id = f id <$> rows l !! id) as Hrow by (intros id; rewrite Hr, map_lookup_imap; by destruct (rows l !! id)).
  assert (forall id, stored l' id <-> stored l id) as Hst by (intros id; unfold stored; rewrite Hrow; apply fmap_is_Some).
  assert (forall id e, indexKey (f id e) = indexKey e) as Hkey by (intros id e; unfold indexKey; by rewrite Hf).
  split; [constructor|].
  - intros id. rewrite Hst, Ha. apply jk_ids0.
  - by rewrite Ha.
  - intros id. rewrite Hst, Ht. apply jk_traces0.
  - intros id t p. rewrite Hst, Ht. apply jk_parents0.
  - intros k. rewrite Hk, !Hst. apply jk_links0.
  - by rewrite Hk.
  - intros i j a b. rewrite !Hrow. intros (a0 & Ha0 & ->)%fmap_Some (b0 & Hb0 & ->)%fmap_Some. rewrite !Hkey. by apply jk_keys0.
  - rewrite Hp. eapply Forall_impl; [exact Hpairs|]. intros p [Ho Hc]. split; [by apply Hst|].
    destruct (pw_close_event_id p); [|done]. destruct Hc as [? (k & Hin & Hx)]. split; [done|]. exists k. by rewrite Hk.
Qed.

Lemma alter_imap {A} (f : A -> A) (i : Z) (m : gmap Z A) :
  alter f i m = map_imap (fun id e => Some (if bool_decide (id = i) then f e else e)) m.
Proof.
  apply map_eq. intros j. rewrite map_lookup_imap. destruct (decide (j = i)) as [->|Hne].
  - rewrite lookup_alter_eq. destruct (m !! i); [|done]. simpl. by rewrite bool_decide_true.
  - rewrite lookup_alter_ne by done. destruct (m !! j); [|done]. simpl. by rewrite bool_decide_false.
Qed.

Lemma delivery_ok now event outcome l :
  journal_ok l -> journal_ok (recordDelivery now event outcome l) /\ receiptsKept l (recordDelivery now event outcome l).
Proof.
  intros Hok. unfold recordDelivery. destruct (ev_rowId event) as [i|]; [|by split]. split.
  - apply (receipts_ok (fun id e => if bool_decide (id = i) then recordedReceipt now outcome e else e) l); try done; [|apply alter_imap].
    intros id e. by case_bool_decide.
  - intros id e He. simpl. destruct (decide (id = i)) as [->|Hne].
    + rewrite lookup_alter_eq, He. eexists. split_ands; [done|done|]. apply recorded_kept.
    + rewrite lookup_alter_ne by done. eauto.
Qed.

Lemma sweepPairs_ok now l : journal_ok l -> journal_ok (sweepStalePairs now l).
Proof.
  intros [Hc Hp]. split; [by apply set_pairs_core|]. simpl. apply Forall_fmap. eapply Forall_impl; [exact Hp|].
  intros p Hok. simpl. destruct (bool_decide (pw_status p = pr_open)) eqn:E; [|exact Hok]. destruct (_ <? now); [|exact Hok].
  apply bool_decide_eq_true in E. destruct Hok as [Ho Hcl]. split; [exact Ho|]. cbn. destruct (pw_close_event_id p); [|done].
  destruct Hcl. congruence.
Qed.

Lemma sweep_log now w :
  wr_log (sweepUnacceptedEvents now w) =
  set_rows (map_imap (fun id e => Some (if expires now (wr_admissions w) id e then markUnhandled e else e)) (rows (wr_log w))) (wr_log w).
Proof. unfold sweepUnacceptedEvents. cbv zeta. by destruct (wr_reconciled w && _). Qed.

Lemma sweep_ok now w : journal_ok (wr_log w) ->
  journal_ok (wr_log (sweepUnacceptedEvents now w)) /\ receiptsKept (wr_log w) (wr_log (sweepUnacceptedEvents now w)).
Proof.
  intros Hok. rewrite sweep_log. split.
  - apply (receipts_ok (fun id e => if expires now (wr_admissions w) id e then markUnhandled e else e) (wr_log w)); try done.
    intros id e. by destruct (expires _ _ _ _).
  - intros id e He. simpl. rewrite map_lookup_imap, He. simpl. eexists. split_ands; [done|by destruct (expires _ _ _ _)|].
    intros (Hs & Hr). unfold expires. rewrite bool_decide_false by congruence. done.
Qed.

(** ** Histories *)

Section Histories.
Context `{Crypto}.

Inductive hubOp : Type :=
| hub_event (now : Z) (event : AgentEvent)
| hub_delivery (now : Z) (event : AgentEvent) (outcome : DeliveryOutcome)
| hub_sweepPairs (now : Z)
| hub_sweepEvents (now : Z) (admissions : EventAdmission.Journal) (reconciled : bool).

Definition afterHub (h : Hub) (o : hubOp) : Hub :=
  match o with
  | hub_event now event => (handler now event h).2
  | hub_delivery now event outcome => set_log (recordDelivery now event outcome (log h)) h
  | hub_sweepPairs now => set_log (sweepStalePairs now (log h)) h
  | hub_sweepEvents now j reconciled => set_log (wr_log (sweepUnacceptedEvents now (mkWriter (log h) j reconciled 0 0))) h
  end.

Lemma afterHub_ok h o : journal_ok (log h) -> journal_ok (log (afterHub h o)) /\ receiptsKept (log h) (log (afterHub h o)).
Proof.
  intros Hok. destruct o as [now event|now event outcome|now|now j b]; cbn [afterHub log set_log].
  - destruct (handler now event h) as [r h'] eqn:E. apply handler_run in E. cbn [snd]. split; [by eapply handled_ok|by eapply handled_receipts].
  - by apply delivery_ok.
  - split; [by apply sweepPairs_ok|]. intros id e He. by exists e.
  - by apply (sweep_ok now (mkWriter (log h) j b 0 0)).
Qed.

Lemma hub_history h ops : journal_ok (log h) ->
  journal_ok (log (fold_left afterHub ops h)) /\ receiptsKept (log h) (log (fold_left afterHub ops h)).
Proof.
  revert h. induction ops as [|o ops IH]; intros h Hok; [by split|]. simpl. destruct (afterHub_ok h o Hok) as [Hok1 Hk1].
  destruct (IH _ Hok1) as [Hok2 Hk2]. split; [done|by etrans].
Qed.

Lemma empty_log_ok : journal_ok emptyLog.
Proof.
  split; [|by constructor]. constructor; cbn; try done.
  - intros id [x Hx]. cbn in Hx. by rewrite lookup_empty in Hx.
  - intros id. unfold stored. cbn. by rewrite !lookup_empty.
  - intros k Hk. by apply not_elem_of_nil in Hk.
  - constructor.
Qed.

(** ** Idempotency *)

Lemma keyedRow_found l id e type ingress scope key :
  core_ok l -> rows l !! id = Some e -> indexKey e = Some (type, ingress, scope, key) -> keyedRow l type ingress scope key = Some (id, e).
Proof.
  intros Hc He Hk. assert (key <> "") as Hne.
  { unfold indexKey in Hk. destruct (nonempty _) as [k|] eqn:E; [|done]. apply nonempty_Some in E as [_ E]. simpl in Hk. congruence. }
  destruct (keyedRow l type ingress scope key) as [[j e']|] eqn:E.
  - apply keyedRow_Some in E as [Hj Hk']. assert (j = id) as -> by (eapply (jk_keys _ Hc); [exact Hj|exact He|congruence|congruence]).
    congruence.
  - exfalso. by eapply keyedRow_None.
Qed.

(** The row that answers later publications under a key. *)
Definition answeredBy (p : Prepared) (type : string) (id : Z) (l : Log) : Prop :=
  exists e, rows l !! id = Some e /\ indexKey e = Some (type, pp_ingress p, pp_scope p, pp_key p) /\
    ec_idempotency_hash (se_columns e) = Some (pp_hash p).

Lemma answered_row_kept p type id l l' : receiptsKept l l' -> answeredBy p type id l -> answeredBy p type id l'.
Proof.
  intros Hk (e & He & Hkey & Hh). destruct (Hk id e He) as (e' & He' & Hc & _). exists e'. split_ands; [done| |by rewrite Hc].
  unfold indexKey in *. by rewrite Hc.
Qed.

Lemma inserted_answered now event payload source owner h ev h' :
  let p := prepareInsert event payload source owner in
  inserted now event payload source owner h (Done ev) h' -> journal_ok (log h) -> pp_key p <> "" ->
  exists id, ev_rowId ev = Some id /\ answeredBy p (eventType event) id (log h').
Proof.
  intros p Hi Hok Hkey. subst p. remember (Done ev) as r eqn:Er.
  destruct Hi as [c m fs|id row p Hk Hrow Hh|st tbl p Hf Ho Hw]; [done|injection Er as <-; subst p..].
  - exists id. apply keyedRow_Some in Hrow as [Hr Hx]. split; [|by exists row].
    unfold retried. cbv zeta. destruct (rc_accepted_by _); [|done]. by destruct (_ && _).
  - exists (lastId (log h) + 1). split; [done|]. cbn [log].
    destruct (written_ok now (prepareInsert event payload source owner) payload source owner (log h) Hok) as (_ & _ & data & artifact & fs & _ & Hr & _);
      [unfold freshKey in *; by rewrite prepare_type|].
    eexists. rewrite Hr, lookup_insert_eq. split_ands; [done| |].
    + rewrite columns_key. rewrite (proj2 (String.eqb_neq _ _) Hkey). by rewrite prepare_type.
    + unfold columnsOf. cbn [se_columns ec_idempotency_hash nonempty]. by rewrite (proj2 (String.eqb_neq _ _) Hkey).
Qed.

Lemma answered_retried l id row event : ev_rowId (retried l id row event) = Some id /\ ev_deduplicated (retried l id row event) = true.
Proof. unfold retried. cbv zeta. destruct (rc_accepted_by _); [|done]. by destruct (_ && _). Qed.

(** A later publication under an answered key. *)
Lemma answered_insert now event payload source owner project h id :
  let p := prepareInsert event payload source owner in
  journal_ok (log h) -> pp_key p <> "" ->
  (exists e, rows (log h) !! id = Some e /\ indexKey e = Some (eventType event, pp_ingress p, pp_scope p, pp_key p)) ->
  (answeredBy p (eventType event) id (log h) ->
     exists ev, insertEventRow now event payload source owner project h = (Done ev, h) /\ ev_rowId ev = Some id /\ ev_deduplicated ev = true) /\
  (~ answeredBy p (eventType event) id (log h) -> exists m, insertEventRow now event payload source owner project h = (Raise PlainError m, h)).
Proof.
  intros p [Hc _] Hkey (e & He & Hx). pose proof (keyedRow_found _ _ _ _ _ _ _ Hc He Hx) as Hrow.
  unfold insertEventRow, eventWrite. fold p. rewrite bind_reads, (proj2 (String.eqb_neq _ _) Hkey), Hrow. split.
  - intros (e' & He' & _ & Hh). assert (e' = e) as -> by congruence. rewrite bool_decide_true by done.
    eexists. split; [done|]. apply answered_retried.
  - intros Hno. rewrite bool_decide_false by (intros Hh; apply Hno; by exists e). eexists. unfold throw. f_equal.
    destruct h as [l st t]. cbn. by destruct l.
Qed.

(** C15.  The journal stays consistent and append-only.  Through any history of
    events, delivery receipts and sweeps, throwing calls included: event ids are
    positive and never reused; every event has a trace, and parents, links and
    pairs lead to stored events; a pair that is closed has a closure in the trace
    graph; an idempotency key names one event; a stored event keeps its columns,
    and once a consumer accepted it directly it stays accepted. *)
Theorem journal_consistent ops h
    (Hok : journal_ok (log h)) :
  let h' := fold_left afterHub ops h in
  journal_ok (log h') /\ receiptsKept (log h) (log h').
Proof. by apply hub_history. Qed.

(** C16.  An event with an idempotency key is published once.  After it was
    stored, and whatever happens in between, publishing it again stores nothing,
    changes nothing and returns the id of the first publication, marked as a
    duplicate; publishing different input under the same key is refused and
    changes nothing. *)
Theorem event_published_once now event payload source owner project h ev h1 ops now' project' event' payload' source' owner'
    (Hok : journal_ok (log h)) (Hquiet : quiet project)
    (Hkey : pp_key (prepareInsert event payload source owner) <> "")
    (Hrun : insertEventRow now event payload source owner project h = (Done ev, h1)) :
  let h2 := fold_left afterHub ops h1 in
  let p := prepareInsert event payload source owner in
  let p' := prepareInsert event' payload' source' owner' in
  (exists ev2, insertEventRow now' event payload source owner project' h2 = (Done ev2, h2) /\
     ev_rowId ev2 = ev_rowId ev /\ ev_deduplicated ev2 = true) /\
  (eventType event' = eventType event -> pp_ingress p' = pp_ingress p -> pp_scope p' = pp_scope p -> pp_key p' = pp_key p ->
   pp_hash p' <> pp_hash p -> exists m, insertEventRow now' event' payload' source' owner' project' h2 = (Raise PlainError m, h2)).
Proof.
  intros h2 p p'. pose proof (insert_run now event payload source owner project h Hquiet) as Hi. rewrite Hrun in Hi.
  destruct (inserted_answered _ _ _ _ _ _ _ _ Hi Hok Hkey) as (id & Hid & Hans).
  destruct (inserted_ok _ _ _ _ _ _ _ _ Hi Hok) as [Hok1 _]. destruct (hub_history h1 ops Hok1) as [Hok2 Hk]. fold h2 in Hok2, Hk.
  apply (answered_row_kept _ _ _ _ _ Hk) in Hans. pose proof Hans as (e & He & Hx & Hh). split.
  - rewrite Hid. destruct (answered_insert now' event payload source owner project' h2 id) as [Hy _]; [done|done|by exists e|].
    by apply Hy.
  - intros Ht Hin Hsc Hk' Hne. destruct (answered_insert now' event' payload' source' owner' project' h2 id) as [_ Hn]; [done| | |].
    + fold p'. rewrite Hk'. done.
    + exists e. fold p'. by rewrite Ht, Hin, Hsc, Hk'.
    + apply Hn. intros (e' & He' & _ & Hh'). fold p' in Hh'. assert (e' = e) as -> by congruence.
      rewrite Hh in Hh'. injection Hh' as Hh'. by apply Hne.
Qed.

End Histories.

(** ** Concrete runs *)

Definition test_hash : Crypto := fun s => s.
#[local] Existing Instance test_hash.

Definition empty_hub : Hub := mkHub emptyLog ∅ (mkTables ∅ ∅ ∅ ∅).

Definition note_fields (text : string) : obj json :=
  [("type", JStr "note.created"); ("source", JStr "cli"); ("owner", JStr "human:operator");
   ("data", JObj [("idempotencyKey", JStr "k1"); ("text", JStr text)])].

Definition note (text : string) : AgentEvent := newEvent (note_fields text).
Definition note_payload (text : string) : obj json := eventPayload (note_fields text).

Definition published : out AgentEvent * Hub :=
  insertEventRow 1000 (note "hello") (note_payload "hello") (Some "cli") (Some "human:operator") noProjection empty_hub.

(** A session that starts, ends, and is accepted. *)
Definition session_event (type : string) : AgentEvent :=
  newEvent [("type", JStr type); ("source", JStr "runner"); ("owner", JStr "agent:a");
            ("data", JObj [("sessionId", JStr "s1"); ("agent", JStr "a"); ("status", JStr "done")])].

Definition session_history : list hubOp :=
  [hub_event 1000 (session_event "session.start"); hub_event 2000 (session_event "session.end");
   hub_delivery 2001 (with_rowId 1 (session_event "session.start")) (delivered (mkDelivery "app" (Some direct) None true));
   hub_sweepPairs 9000000; hub_event 9000001 (note "hello"); hub_event 9000002 (note "other")].

Example session_pair_closed :
  let l := log (fold_left afterHub session_history empty_hub) in
  map (fun p => (pw_open_event_id p, pw_close_event_id p, pw_status p)) (pairs l) = [(1, Some 2, pr_closed)] /\
  map (fun k => (lw_from k, lw_to k)) (links l) = [(2, 1)] /\ lastId l = 3.
Proof. vm_compute. done. Qed.

Lemma journal_consistent_witness :
  journal_ok (log (fold_left afterHub session_history empty_hub)) /\
  receiptsKept (log empty_hub) (log (fold_left afterHub session_history empty_hub)).
Proof. apply (journal_consistent session_history empty_hub). exact empty_log_ok. Defined.

Lemma event_published_once_witness :
  let h2 := fold_left afterHub session_history published.2 in
  (exists ev2, insertEventRow 5000 (note "hello") (note_payload "hello") (Some "cli") (Some "human:operator") noProjection h2 =
     (Done ev2, h2) /\ ev_rowId ev2 = Some 1 /\ ev_deduplicated ev2 = true) /\
  exists m, insertEventRow 5000 (note "other") (note_payload "other") (Some "cli") (Some "human:operator") noProjection h2 =
    (Raise PlainError m, h2).
Proof.
  assert (exists ev, published = (Done ev, published.2) /\ ev_rowId ev = Some 1) as (ev & Hrun & Hid).
  { eexists. split; vm_compute; reflexivity. }
  destruct (event_published_once 1000 (note "hello") (note_payload "hello") (Some "cli") (Some "human:operator") noProjection empty_hub
    ev published.2 session_history 5000 noProjection (note "other") (note_payload "other") (Some "cli") (Some "human:operator")
    empty_log_ok quiet_none) as [(ev2 & H1 & H2 & H3) Hother].
  - vm_compute. discriminate.
  - exact Hrun.
  - split; [exists ev2; split; [exact H1|split; [by rewrite H2, Hid|exact H3]]|].
    apply Hother; [reflexivity|reflexivity|reflexivity|reflexivity|]. vm_compute. discriminate.
Defined.

End JournalLaws.
