(* ===== verification/EmissionLaws.v ===== *)
(** Facts that Tasks publish: only the attempt that owns a Task can add one, the
    exact Task an event is addressed to is woken in the same transaction, and the
    original reads back. *)
From S2P Require Import Prelude Json TaskState TaskTree Transaction ResourceStore StoreInvariant StoreCommit StoreEffects.
From S2P Require Import Records Time TaskEvents TaskLease TaskLaws TaskScenario TaskOwnership TaskReconciler Effects.
From S2P Require Import EventEnvelope EventLog EventTraces EventProjections EventJournal EventBus TaskEmissions JournalLaws.

Module EmissionLaws.
Import ResourceStore Time TaskEvents TaskOwnership Effects EventEnvelope EventLog EventTraces EventProjections EventJournal EventBus.
Import TaskEmissions JournalLaws.

(** ** The woken Task *)

Lemma wake_row_ok taskId fields at_ id row : row_ok id row -> row_ok id (wakeRow taskId fields at_ row).
Proof. intros []. by constructor. Qed.

(** The row of a Task after a wake. *)
Lemma wake_lookup taskId fields id at_ s t :
  tasks (wakeStore taskId fields id at_ s) !! t =
  (if bool_decide (t = taskId) then wakeRow taskId fields at_ <$> tasks s !! t else tasks s !! t).
Proof.
  unfold wakeStore. cbn. case_bool_decide as E; [subst; apply lookup_alter_eq|]. by rewrite lookup_alter_ne.
Qed.

Lemma wake_events taskId fields id at_ s t k :
  is_Some (ResourceStore.events (wakeStore taskId fields id at_ s) !! (t, k)) -> t = taskId \/ is_Some (ResourceStore.events s !! (t, k)).
Proof.
  unfold wakeStore, noteEvent. cbn. destruct (ResourceStore.events s !! (taskId, _)); [by right|]. cbn.
  destruct (decide ((t, k) = (taskId, "event:" +:+ show_Z id))) as [[= -> ->]|Hne]; [by left|]. rewrite lookup_insert_ne by done. by right.
Qed.

(** Waking a Task keeps its store consistent and its owner. *)
Lemma wake_sound taskId fields id at_ s : sound s -> is_Some (tasks s !! taskId) -> sound (wakeStore taskId fields id at_ s).
Proof.
  intros [[[] Hroutes] Howned] [row Hrow].
  assert (forall t, is_Some (tasks (wakeStore taskId fields id at_ s) !! t) <-> is_Some (tasks s !! t)) as Hdom.
  { intros t. rewrite wake_lookup. case_bool_decide; [apply fmap_is_Some|done]. }
  assert (forall t r, tasks (wakeStore taskId fields id at_ s) !! t = Some r -> exists r0, tasks s !! t = Some r0 /\
    status (row_resource r) = status (row_resource r0) /\ declaredRelations (row_resource r) = declaredRelations (row_resource r0)) as Hsame.
  { intros t r. rewrite wake_lookup. case_bool_decide; [|by exists r]. intros (r0 & -> & ->)%fmap_Some. by exists r0. }
  assert (forall t r0, tasks s !! t = Some r0 -> exists r, tasks (wakeStore taskId fields id at_ s) !! t = Some r /\
    status (row_resource r) = status (row_resource r0) /\ declaredRelations (row_resource r) = declaredRelations (row_resource r0)) as Hback.
  { intros t r0 Hr0. rewrite wake_lookup, Hr0. case_bool_decide; by eexists. }
  assert (relations (wakeStore taskId fields id at_ s) = relations s /\ routes (wakeStore taskId fields id at_ s) = routes s /\
          conditions (wakeStore taskId fields id at_ s) = conditions s /\ ResourceStore.attempts (wakeStore taskId fields id at_ s) = ResourceStore.attempts s)
    as (Hrel & Hrt & Hcond & Hatt) by (unfold wakeStore, noteEvent; by destruct (ResourceStore.events s !! _)).
  split; [split; [constructor|]|].
  - intros t r. rewrite wake_lookup. case_bool_decide; [|apply ok_rows0]. intros (r0 & Hr0 & ->)%fmap_Some. apply wake_row_ok. by apply ok_rows0.
  - intros t k Hk. apply Hdom. apply wake_events in Hk as [->|Hk]; [eauto|by eapply ok_events0].
  - intros x. rewrite Hrel, ok_relations0. split; intros (r & Hr & Hx).
    + destruct (Hback _ _ Hr) as (r' & Hr' & _ & E). exists r'. by rewrite E.
    + destruct (Hsame _ _ Hr) as (r' & Hr' & _ & E). exists r'. by rewrite <- E.
  - intros t c. rewrite Hrt, Hcond, Hdom. apply ok_routes0.
  - by rewrite Hatt.
  - by rewrite Hcond.
  - unfold wakeStore, noteEvent. by destruct (ResourceStore.events s !! _).
  - unfold wakeStore, noteEvent. by destruct (ResourceStore.events s !! _).
  - unfold wakeStore, noteEvent. by destruct (ResourceStore.events s !! _).
  - intros t c. rewrite Hrt. intros Hin. destruct (Hroutes t c Hin) as (r & Hr & Hc). destruct (Hback _ _ Hr) as (r' & Hr' & E & _).
    exists r'. by rewrite E.
  - intros t r. unfold readTask. intros (row' & Hr & ->)%fmap_Some. destruct (Hsame _ _ Hr) as (r0 & Hr0 & E & _).
    assert (readTask s t = Some (row_resource r0)) as Ht by (unfold readTask; by rewrite Hr0).
    destruct (Howned t _ Ht) as [[? ?]|(Hp & a & x & ?)]; [left|right]; unfold TaskLaws.idle, runs, readAttempt; rewrite E; [done|].
    split; [done|]. exists a, x. by rewrite Hatt.
Qed.

Lemma isSafeInteger_num z : isSafeInteger (num z) = (Z.abs z <=? MAX_SAFE_INTEGER).
Proof. unfold isSafeInteger, num, Q_is_int. cbn [Qnum Qden inject_Z]. rewrite Z.mod_1_r, Qfloor_Z. done. Qed.

Section Emissions.
Context `{Crypto} (now : Z) (context : option AgentEvent).

Definition sentEvent (i : Emitter) (localKey idempotencyKey : string) (e : AppTaskEmission) : AgentEvent :=
  inheritedEventTrace (emittedEvent i (trim localKey) idempotencyKey e) context.

Lemma inherited_hidden e parent :
  ev_fence (inheritedEventTrace e parent) = ev_fence e /\ ev_rowId (inheritedEventTrace e parent) = ev_rowId e /\
  ev_interfaceInput (inheritedEventTrace e parent) = ev_interfaceInput e /\
  ev_ingressSource (inheritedEventTrace e parent) = ev_ingressSource e /\
  forall k, k <> "trace" -> obj_get k (ev_fields (inheritedEventTrace e parent)) = obj_get k (ev_fields e).
Proof.
  unfold inheritedEventTrace. destruct (truthy _); [done|]. destruct (childEventTrace parent) as [t|]; [|done].
  destruct (truthy (Some t)); [|done]. split_ands; try done. intros k Hk. cbn. by rewrite obj_get_set_ne.
Qed.

Lemma sent_fence i key k e : ev_fence (sentEvent i key k e) =
  Some (mkFence (emitterApp i) (et_taskId i) (et_generation i) (et_attemptId i) (trim key)).
Proof. unfold sentEvent. by destruct (inherited_hidden (emittedEvent i (trim key) k e) context) as (-> & _). Qed.

(** How a publication ends. *)
Lemma emit_run i key e h r h' :
  emitFact now context i key e h = (r, h') ->
  (h' = h /\ exists c m, r = Raise c m) \/
  exists k acc, handler now (sentEvent i key k e) h = (acc, h') /\
    (forall found, findTaskEmission (log h) (emitterScope i) (em_type e) (trim key) = Ok found ->
       match found with Some (_, k') => k = k' | None => taskEmissionIdentity (emitterScope i) (trim key) = Ok k end) /\
    match r with
    | Done id => exists a, acc = Done a /\ ev_rowId a = Some id
    | Raise _ _ => forall a, acc = Done a -> forall id, ev_rowId a = Some id -> id <= 0 \/ MAX_SAFE_INTEGER < id
    end.
Proof.
  unfold emitFact. rewrite checks_bind. destruct (emissionAllowed i (trim key) e) as [[]|]; [|intros [= <- <-]; left; eauto].
  rewrite asks_bind. destruct (findTaskEmission _ _ _ _) as [found|]; [|intros [= <- <-]; left; eauto].
  rewrite checks_bind. destruct (match found with Some _ => _ | None => _ end) as [k|] eqn:Ek; [|intros [= <- <-]; left; eauto].
  intros Hrun. right. exists k. unfold mbind, E_bind in Hrun. fold (sentEvent i key k e) in Hrun.
  assert (forall x, @Ok (option (Z * string)) found = Ok x ->
    match x with Some (_, k') => k = k' | None => taskEmissionIdentity (emitterScope i) (trim key) = Ok k end) as Hfound.
  { intros x [= <-]. destruct found as [[? k']|]; congruence. }
  destruct (handler now (sentEvent i key k e) h) as [[a|c m] h1]; [|injection Hrun as <- <-; eexists; split_ands; done].
  destruct (ev_rowId a) as [id|] eqn:Eid.
  - destruct (isSafeInteger (num id) && (0 <? id)) eqn:Es.
    + injection Hrun as <- <-. eexists. split_ands; [done|done|]. by exists a.
    + injection Hrun as <- <-. eexists. split_ands; [done|done|]. intros a' [= <-] id' Hid'. rewrite Eid in Hid'. injection Hid' as <-.
      rewrite isSafeInteger_num in Es. apply andb_false_iff in Es as [Es|Es]; reflect_bools; lia.
  - injection Hrun as <- <-. eexists. split_ands; [done|done|]. intros a' [= <-] id'. congruence.
Qed.

(** The attempt owns its Task: it is the current, running attempt of this
    generation, and its lease has not run out. *)
Definition ownsTask (i : Emitter) (h : Hub) : Prop :=
  exists s t a lease, stores h !! emitterApp i = Some s /\ m_authority s = Some "resources" /\
    tasks s !! et_taskId i = Some t /\ row_generation t = et_generation i /\ row_current_attempt_id t = Some (et_attemptId i) /\
    ResourceStore.attempts s !! et_attemptId i = Some a /\ ar_task_generation a = et_generation i /\
    ar_attempt_state a = at_running /\ ar_lease_until a = Some lease /\ now < lease.

Lemma owns_fence i key h : 0 <= now ->
  ownsEmission now (mkFence (emitterApp i) (et_taskId i) (et_generation i) (et_attemptId i) key) h = true -> ownsTask i h.
Proof.
  intros Hnow. unfold ownsEmission. cbn [fn_appId fn_taskId fn_attemptId fn_taskGeneration].
  destruct (stores h !! emitterApp i) as [s|] eqn:Es; [|done]. destruct (tasks s !! et_taskId i) as [t|] eqn:Et; [|done].
  destruct (ResourceStore.attempts s !! et_attemptId i) as [a|] eqn:Ea; [|done].
  rewrite !andb_true_iff, !bool_decide_eq_true, !Z.eqb_eq, Z.ltb_lt. intros [[[[[Hc Hau] Hg] Hg'] Hst] Hl].
  destruct (ar_lease_until a) as [lease|] eqn:El; [|cbn in Hl; lia]. exists s, t, a, lease. cbn in Hl. by rewrite El.
Qed.

Lemma retried_rowId l id row e : ev_rowId (retried l id row e) = Some id.
Proof. apply answered_retried. Qed.

(** C17.  Only the owner of a Task publishes facts for it.  A publication that
    returns an id either found the fact an earlier call stored, and then no row
    and no Task changed, or it stored a new one, and then the attempt owned the
    Task: it was the current attempt of that generation, running, with a lease
    that had not run out.  A publication that is refused leaves every event and
    every Task as it was. *)
Theorem emission_fenced i key e h
    (Hok : journal_ok (log h)) (Hids : lastId (log h) < MAX_SAFE_INTEGER) (Hnow : 0 <= now) :
  let h' := (emitFact now context i key e h).2 in
  match (emitFact now context i key e h).1 with
  | Done id => (stored (log h) id /\ rows (log h') = rows (log h) /\ stores h' = stores h) \/
               (~ stored (log h) id /\ stored (log h') id /\ ownsTask i h)
  | Raise _ _ => rows (log h') = rows (log h) /\ stores h' = stores h
  end.
Proof.
  cbv zeta. destruct (emitFact now context i key e h) as [r h'] eqn:E. cbn [fst snd].
  apply emit_run in E as [[-> (c & m & ->)]|(k & acc & Hh & _ & Hr)]; [done|]. apply handler_run in Hh.
  destruct Hh as [-> Hskip|ev payload source owner h0 fs Hl Hst Hfence Htype Hi].
  { destruct r as [id|c m]; [|done]. destruct Hr as (a & -> & Ha). specialize (Hskip a eq_refl) as ->.
    unfold sentEvent in Ha. destruct (inherited_hidden (emittedEvent i (trim key) k e) context) as (_ & Hrow & _). by rewrite Hrow in Ha. }
  assert (journal_ok (log h0)) as Hok0 by (rewrite Hl; by apply set_files_ok). rewrite sent_fence in Hfence.
  assert (rows (log h0) = rows (log h) /\ lastId (log h0) = lastId (log h)) as [Hrows Hlast] by (by rewrite Hl).
  destruct Hi as [c m fs'|id row p Hkey Hrow Hhash|st tbl p Hf Ho Hw].
  - destruct r as [id|]; [by destruct Hr as (a & ? & _)|]. cbn. by rewrite Hrows.
  - rewrite Hrows, Hst. destruct r as [id'|]; [|done]. left. destruct Hr as (a & [= <-] & Ha). rewrite retried_rowId in Ha.
    injection Ha as <-. apply keyedRow_Some in Hrow as [Hrow _]. rewrite Hrows in Hrow. by apply row_stored in Hrow.
  - destruct r as [id'|].
    + right. destruct Hr as (a & [= <-] & Ha). cbn in Ha. injection Ha as <-. rewrite Hlast. split_ands.
      * intros Hs. apply (jk_ids _ (proj1 Hok)) in Hs. lia.
      * destruct (written_ok now p payload source owner (log h0) Hok0) as (_ & _ & d & ar & f & _ & Hr' & _);
          [unfold freshKey, p in *; by rewrite prepare_type|]. cbn [log]. rewrite <- Hlast. eapply row_stored. rewrite Hr'. apply lookup_insert_eq.
      * eapply owns_fence; [done|]. specialize (Ho _ Hfence). unfold ownsEmission in *. by rewrite Hst in Ho.
    + exfalso. destruct (Hr _ eq_refl (lastId (log h0) + 1) eq_refl); pose proof (jk_last _ (proj1 Hok)); lia.
Qed.

(** ** Ordinary events *)

(** Events that are stored without a projection of their own. *)
Definition projectedTypes : list string :=
  ["session.start"; "session.end"; "session.idle"; "message.created"; "evaluation.recorded"; "metric.threshold_changed";
   "metric.alert_resolved"; "escalation.created"; "escalation.resolved"; "escalation.dismissed"].

Definition ordinary (e : AppTaskEmission) : Prop :=
  em_type e ∉ projectedTypes /\ forall o, em_owner e = Some o -> nonblank o = true.

Lemma ordinary_handler event h : eventType event ∉ projectedTypes -> isCanonicalEventEnvelope (ev_fields event) = true ->
  includes (eventType event) "." = true ->
  handler now event h = insertEventRow now event (eventPayload (ev_fields event)) (eventSource (ev_fields event) None)
    (eventOwner (ev_fields event) None) noProjection h.
Proof.
  intros Hno Hc Hdot. unfold handler. cbv zeta.
  assert (forall t, t ∈ projectedTypes -> String.eqb (eventType event) t = false) as Hne.
  { intros t Ht. apply String.eqb_neq. intros E. by rewrite E in Hno. }
  rewrite !Hne by (unfold projectedTypes; set_solver). cbn [orb]. destruct (set_has _ _ || startsWith _ _); [done|].
  rewrite Hdot. unfold canonically. by rewrite Hc.
Qed.

Lemma sent_get i key k e j : j <> "trace" ->
  obj_get j (ev_fields (sentEvent i key k e)) = obj_get j (ev_fields (emittedEvent i (trim key) k e)).
Proof. unfold sentEvent. apply inherited_hidden. Qed.

(** The fields of the event that is handed to the bus. *)
Lemma sent_fields i key k e :
  let f := ev_fields (sentEvent i key k e) in
  obj_get "type" f = Some (JStr (em_type e)) /\ obj_get "source" f = Some (JStr ("app-task:" +:+ emitterApp i)) /\
  obj_get "owner" f = Some (JStr (default ("agent:" +:+ et_agent i) (em_owner e))) /\
  obj_get "target" f = JObj <$> em_target e /\ obj_get "data" f = Some (JObj (emittedData i (trim key) k e)) /\
  obj_get "action" f = JStr <$> nonempty (em_action e) /\ obj_get "urgency" f = JStr <$> nonempty (em_urgency e) /\
  obj_get "ttl_ms" f = JNum <$> em_ttl_ms e.
Proof.
  cbv zeta. rewrite !sent_get by done. unfold emittedEvent. cbn [ev_fields].
  destruct (em_target e), (nonempty (em_action e)), (nonempty (em_urgency e)), (em_ttl_ms e), (childEventTrace (et_parent i));
    split_ands; reflexivity.
Qed.

Lemma sent_canonical i key k e : ordinary e -> isCanonicalEventEnvelope (ev_fields (sentEvent i key k e)) = true.
Proof.
  intros [_ Ho]. destruct (sent_fields i key k e) as (_ & Hs & Hw & _ & Hd & _). unfold isCanonicalEventEnvelope.
  rewrite Hs, Hw, Hd. cbn [nonEmptyString]. rewrite nonblank_append by reflexivity.
  assert (nonblank (default ("agent:" +:+ et_agent i) (em_owner e)) = true) as ->; [|done].
  destruct (em_owner e) as [o|] eqn:E; [by apply Ho|]. by apply nonblank_append.
Qed.

Lemma emit_allowed i key e h id h' : emitFact now context i key e h = (Done id, h') -> emissionAllowed i (trim key) e = Ok tt.
Proof. unfold emitFact. rewrite checks_bind. by destruct (emissionAllowed i (trim key) e) as [[]|]. Qed.

Lemma allowed_dot i key e : emissionAllowed i key e = Ok tt -> includes (em_type e) "." = true.
Proof. unfold emissionAllowed, check, mbind, res_bind'. repeat case_match; done. Qed.

Definition sentSource (i : Emitter) : option string := Some ("app-task:" +:+ emitterApp i).
Definition sentOwner (i : Emitter) (e : AppTaskEmission) : option string := Some (default ("agent:" +:+ et_agent i) (em_owner e)).
Definition sentBody (i : Emitter) (key k : string) (e : AppTaskEmission) : obj json := emittedData i (trim key) k e.
Definition prepared (i : Emitter) (key k : string) (e : AppTaskEmission) : Prepared :=
  prepareInsert (sentEvent i key k e) (sentBody i key k e) (sentSource i) (sentOwner i e).

Lemma sent_type i key k e : eventType (sentEvent i key k e) = em_type e.
Proof. destruct (sent_fields i key k e) as (Ht & _). unfold eventType. by rewrite Ht. Qed.

Lemma sent_handler i key k e h : ordinary e -> includes (em_type e) "." = true ->
  handler now (sentEvent i key k e) h =
  insertEventRow now (sentEvent i key k e) (sentBody i key k e) (sentSource i) (sentOwner i e) noProjection h.
Proof.
  intros Ho Hdot. pose proof (sent_canonical i key k e Ho) as Hc. rewrite ordinary_handler; rewrite ?sent_type; [|apply Ho|done..].
  destruct (sent_fields i key k e) as (_ & Hs & Hw & _ & Hd & _).
  unfold eventPayload, eventSource, eventOwner, envelopeField. by rewrite Hc, Hs, Hw, Hd.
Qed.

(** An ordinary event is stored as it was sent. *)
Lemma prepared_fields i key k e : ordinary e ->
  pp_event (prepared i key k e) = sentEvent i key k e /\ pp_payload (prepared i key k e) = sentBody i key k e /\
  pp_target (prepared i key k e) = default [] (em_target e).
Proof.
  intros [Hno _]. assert (String.eqb (em_type e) "escalation.created" = false) as Hne.
  { apply String.eqb_neq. intros E. apply Hno. rewrite E. unfold projectedTypes. set_solver. }
  unfold prepared, prepareInsert, completesEscalation, normalizePersistedEscalationPayload. rewrite sent_type, Hne. cbn.
  destruct (sent_fields i key k e) as (_ & _ & _ & Ht & _). rewrite Ht. by destruct (em_target e).
Qed.

(** A publication that stores a new ordinary event. *)
Lemma emit_appended i key e h id h' : journal_ok (log h) -> ordinary e -> emitFact now context i key e h = (Done id, h') ->
  ~ stored (log h) id ->
  exists k, (forall found, findTaskEmission (log h) (emitterScope i) (em_type e) (trim key) = Ok found ->
       match found with Some (_, k') => k = k' | None => taskEmissionIdentity (emitterScope i) (trim key) = Ok k end) /\
    id = lastId (log h) + 1 /\ freshKey (prepared i key k e) (em_type e) (log h) /\
    log h' = written now (prepared i key k e) (sentBody i key k e) (sentSource i) (sentOwner i e) (log h) /\
    woken now (ev_fields (sentEvent i key k e)) (default [] (em_target e)) id (stores h) (stores h').
Proof.
  intros Hok Ho Hrun Hnew. pose proof (allowed_dot _ _ _ (emit_allowed _ _ _ _ _ _ Hrun)) as Hdot.
  apply emit_run in Hrun as [[_ (? & ? & ?)]|(k & acc & Hh & Hfound & a & -> & Ha)]; [done|]. exists k. split; [done|].
  rewrite sent_handler in Hh by done.
  pose proof (insert_run now (sentEvent i key k e) (sentBody i key k e) (sentSource i) (sentOwner i e) noProjection h quiet_none) as Hi.
  rewrite Hh in Hi. destruct (prepared_fields i key k e Ho) as (Hev & _ & Htarget). unfold prepared in *.
  inversion Hi as [|id0 row p Hk Hrow Hhash|st tbl p Hfresh Hown Hw]; subst.
  - exfalso. apply Hnew. rewrite retried_rowId in Ha. injection Ha as <-. apply keyedRow_Some in Hrow as [Hrow _]. by apply row_stored in Hrow.
  - cbn in Ha. injection Ha as <-. rewrite sent_type in Hfresh. split_ands; try done. subst p. rewrite Hev, Htarget in Hw.
    unfold wakesTask in Hw. rewrite sent_fence in Hw. by rewrite bool_decide_eq_true_2 in Hw by eauto.
Qed.


(** ** Reading a fact back *)

Lemma dot_nonblank s : includes s "." = true -> nonblank s = true.
Proof.
  intros Hs. destruct (nonblank s) eqn:E; [done|]. exfalso. apply nonblank_false in E. induction s as [|c s IH]; [done|].
  apply Forall_cons in E as [Hc E]. cbn [includes] in Hs. apply orb_true_iff in Hs as [Hs|Hs]; [|by apply IH].
  cbn [String.prefix] in Hs. destruct (ascii_dec "." c) as [<-|]; done.
Qed.

(** A text that starts and ends with visible characters. *)
Lemma trim_bracketed p x : no_lead_ws (chars p) -> p <> "" -> trim (p +:+ "[" +:+ x +:+ "]") = p +:+ "[" +:+ x +:+ "]".
Proof.
  intros Hp Hne. apply trim_fixed. rewrite !chars_append. split; [by destruct p|]. by rewrite !app_assoc, reverse_app.
Qed.

Lemma ok_inj {A} (a b : A) : Ok a = Ok b -> a = b.
Proof. congruence. Qed.

Lemma identity_key scope localKey k : taskEmissionIdentity scope localKey = Ok k -> trim k = k /\ k <> "" /\ nonblank (trim localKey) = true.
Proof.
  unfold taskEmissionIdentity. destruct (String.eqb (trim localKey) "") eqn:E; [done|]. destruct (Nat.ltb _ _); [done|].
  intros Hk%ok_inj. subst k. split_ands; [by apply trim_bracketed|done|]. unfold nonblank. by rewrite trim_idemp, E.
Qed.

Lemma legacy_key scope localKey : nonblank (trim localKey) = true ->
  trim (legacyIdentity scope localKey) = legacyIdentity scope localKey /\ legacyIdentity scope localKey <> "".
Proof.
  intros Hk. unfold legacyIdentity. split; [|done]. apply trim_fixed. rewrite !chars_append. split; [done|].
  pose proof (proj1 (trim_fixed _) (trim_idemp localKey)) as [_ Hlast]. rewrite !app_assoc, reverse_app.
  assert (reverse (chars (trim localKey)) <> []) as Hne.
  { intros E. apply (f_equal reverse) in E. rewrite reverse_involutive in E.
    assert (nonblank (trim localKey) = false) as Hno; [|congruence]. apply nonblank_false. by rewrite E. }
  by destruct (reverse (chars (trim localKey))).
Qed.

Lemma emissionOf_Some l scope type key id : emissionOf l scope type key = Some id ->
  exists row, rows l !! id = Some row /\ emissionRow scope type key (se_columns row) = true.
Proof.
  unfold emissionOf. intros ([id' row] & Hin & ->)%fmap_Some. apply head_Some_elem_of, list_elem_of_filter in Hin as [Hr Hin].
  apply elem_of_map_to_list in Hin. eauto.
Qed.

Lemma emissionRow_index scope type key row : emissionRow scope type key (se_columns row) = true ->
  indexKey row = Some (type, "app-task:" +:+ sc_appId scope, sc_appId scope, key).
Proof.
  unfold emissionRow, indexKey. rewrite !andb_true_iff, !bool_decide_eq_true, !String.eqb_eq, negb_true_iff.
  intros [[[[[[-> ->] ->] ->] Hk] _] _]. cbn. by rewrite Hk.
Qed.

(** A row of a Task's key is the one the key names. *)
Lemma emissionOf_found l scope type key id row : core_ok l -> rows l !! id = Some row ->
  emissionRow scope type key (se_columns row) = true -> emissionOf l scope type key = Some id.
Proof.
  intros Hc Hrow Hr. destruct (emissionOf l scope type key) as [id'|] eqn:E.
  - apply emissionOf_Some in E as (row' & Hrow' & Hr'). f_equal. apply emissionRow_index in Hr, Hr'.
    eapply (jk_keys _ Hc); [exact Hrow'|exact Hrow|congruence|congruence].
  - exfalso. unfold emissionOf in E. apply fmap_None, head_None in E.
    assert ((id, row) ∈ (@nil (Z * StoredEvent))) as Hin; [|by apply not_elem_of_nil in Hin].
    rewrite <- E. apply list_elem_of_filter. split; [done|]. by apply elem_of_map_to_list.
Qed.

Lemma body_get i key k e :
  obj_get "idempotencyKey" (sentBody i key k e) = Some (JStr k) /\
  obj_get "emission" (sentBody i key k e) = Some (JObj [("appId", JStr (emitterApp i)); ("taskId", JStr (et_taskId i));
    ("generation", JNum (num (et_generation i))); ("localKey", JStr (trim key))]).
Proof.
  unfold sentBody, emittedData. rewrite !spread_get by (apply (bool_decide_eq_true_1 _); reflexivity). done.
Qed.

(** How the row of a publication is indexed. *)
Lemma prepared_index i key k e : ordinary e -> trim k = k ->
  pp_key (prepared i key k e) = k /\ pp_ingress (prepared i key k e) = "app-task:" +:+ emitterApp i /\
  pp_scope (prepared i key k e) = emitterApp i /\ co_projectId (pp_correlation (prepared i key k e)) = Some (emitterApp i) /\
  co_taskId (pp_correlation (prepared i key k e)) = Some (et_taskId i).
Proof.
  intros Ho Hk. destruct (prepared_fields i key k e Ho) as (Hev & Hp & _).
  assert (pp_key (prepared i key k e) = idempotencyKeyOf (pp_payload (prepared i key k e))) as Hkey by done.
  assert (pp_ingress (prepared i key k e) = ingressSource (pp_event (prepared i key k e)) (sentSource i)) as Hin by done.
  assert (forall c, producedBy (ev_fence (sentEvent i key k e)) c = producedBy (Some (mkFence (emitterApp i) (et_taskId i) (et_generation i)
    (et_attemptId i) (trim key))) c) as Hprod by (intros c; by rewrite sent_fence).
  split_ands.
  - rewrite Hkey, Hp. unfold idempotencyKeyOf, trimmedText. by rewrite (proj1 (body_get i key k e)), Hk.
  - rewrite Hin, Hev. unfold ingressSource, sentEvent.
    destruct (inherited_hidden (emittedEvent i (trim key) k e) context) as (_ & _ & -> & -> & _). done.
  - change (pp_scope (prepared i key k e)) with (idempotencyScope (pp_correlation (prepared i key k e)) (sentOwner i e)).
    unfold prepared, prepareInsert. cbn [pp_correlation]. destruct (_ && _); cbn [ev_fence with_fields]; by rewrite Hprod.
  - unfold prepared, prepareInsert. cbn [pp_correlation]. destruct (_ && _); cbn [ev_fence with_fields]; by rewrite Hprod.
  - unfold prepared, prepareInsert. cbn [pp_correlation]. destruct (_ && _); cbn [ev_fence with_fields]; by rewrite Hprod.
Qed.

(** A new publication is the first of its key. *)
Lemma appended_first i key e h id h' k : journal_ok (log h) -> ordinary e -> emitFact now context i key e h = (Done id, h') ->
  ~ stored (log h) id -> taskEmissionIdentity (emitterScope i) key = Ok k ->
  id = lastId (log h) + 1 /\ freshKey (prepared i key k e) (em_type e) (log h) /\
  log h' = written now (prepared i key k e) (sentBody i key k e) (sentSource i) (sentOwner i e) (log h).
Proof.
  intros Hok Ho Hrun Hnew Hk. destruct (emit_appended _ _ _ _ _ _ Hok Ho Hrun Hnew) as (k' & Hfound & Hid & Hfresh & Hl & _).
  assert (taskEmissionIdentity (emitterScope i) (trim key) = Ok k) as Hk2 by (unfold taskEmissionIdentity in *; by rewrite trim_idemp).
  destruct (identity_key _ _ _ Hk2) as (Htk & Hne & Hnb). rewrite trim_idemp in Hnb.
  destruct (legacy_key (emitterScope i) (trim key)) as [Htl Hnl]; [by rewrite trim_idemp|].
  assert (forall key' id', trim key' = key' -> key' <> "" -> k' = key' -> emissionOf (log h) (emitterScope i) (em_type e) key' = Some id' -> False)
    as Hno.
  { intros key' id' Ht' Hne' -> (row & Hrow & Hr)%emissionOf_Some. apply emissionRow_index in Hr.
    destruct (prepared_index i key key' e Ho Ht') as (E1 & E2 & E3 & _). destruct Hfresh as [E|Hf]; [congruence|].
    rewrite E1, E2, E3 in Hf. by eapply keyedRow_None. }
  unfold findTaskEmission in Hfound. rewrite Hk2 in Hfound. cbn in Hfound.
  destruct (emissionOf _ _ _ k) as [x|] eqn:E1; [exfalso; eapply (Hno k); [done..| |exact E1]; by apply (Hfound _ eq_refl)|].
  destruct (emissionOf _ _ _ (legacyIdentity _ _)) as [x|] eqn:E2; [exfalso; eapply Hno; [exact Htl|done| |exact E2]; by apply (Hfound _ eq_refl)|].
  specialize (Hfound _ eq_refl). cbn in Hfound. by simplify_eq.
Qed.

(** What the reader of a stored envelope accepts. *)
Record readable (e : AppTaskEmission) : Prop := {
  rd_urgency : default "normal" (nonempty (em_urgency e)) ∈ ["low"; "normal"; "high"; "immediate"];
  rd_ttl : forall n, em_ttl_ms e = Some n -> isFinite n = true;
  rd_target : checkTarget (default [] (em_target e)) (textTargetKeys ++ ["human"]) = Ok tt }.

Lemma rest_cons keys j v (o : obj json) : rest keys ((j, v) :: o) = if set_has j keys then rest keys o else (j, v) :: rest keys o.
Proof. unfold rest. cbn. destruct (set_has j keys); reflexivity. Qed.

Lemma rest_get k keys (o : obj json) : k ∉ keys -> obj_get k (rest keys o) = obj_get k o.
Proof.
  intros Hk. induction o as [|[j v] o IH]; [done|]. rewrite rest_cons. unfold set_has. case_bool_decide as Hj; cbn; rewrite IH; [|done].
  by destruct (String.eqb_spec j k) as [->|].
Qed.

Lemma sent_envelope i key k e : ordinary e -> includes (em_type e) "." = true -> readable e ->
  readPersistedEventEnvelope (storedEnvelope (sentEvent i key k e) (sentSource i) (sentOwner i e) now) (em_type e) =
  Ok (storedEnvelope (sentEvent i key k e) (sentSource i) (sentOwner i e) now).
Proof.
  intros Ho Hdot [Hu Httl Ht]. destruct (sent_fields i key k e) as (_ & _ & _ & Htarget & _ & Haction & Hurgency & Hms).
  pose proof (sent_canonical i key k e Ho) as Hc.
  set (env := storedEnvelope _ _ _ _).
  assert (forall j, obj_get j env = match obj_get j ([("type", JStr (em_type e)); ("source", nullable (sentSource i));
      ("owner", nullable (sentOwner i e)); ("timestamp", JNum (num now));
      ("urgency", JStr (default "normal" (nonempty (em_urgency e))))] ++ field "ttl_ms" (JNum <$> em_ttl_ms e)) with
    | Some v => Some v | None => obj_get j (rest ["data"; "trace"; "visibility"] (ev_fields (sentEvent i key k e))) end) as Hget.
  { intros j. unfold env, storedEnvelope. rewrite Hc, sent_type. unfold eventUrgency, eventTtlMs, envelopeField. rewrite Hc, Hurgency, Hms.
    assert (textOf (JStr <$> nonempty (em_urgency e)) = nonempty (em_urgency e)) as -> by (by destruct (nonempty (em_urgency e))).
    assert (match JNum <$> em_ttl_ms e with Some (JNum n) => Some n | _ => None end = em_ttl_ms e) as -> by (by destruct (em_ttl_ms e)).
    apply spread_get. destruct (em_ttl_ms e); apply (bool_decide_eq_true_1 _); reflexivity. }
  unfold readPersistedEventEnvelope, nullOrText.
  assert (obj_get "action" env = JStr <$> nonempty (em_action e)) as ->.
  { rewrite Hget, obj_get_app, field_get_ne, rest_get by (done || by apply (bool_decide_eq_false_1 _)). cbn [obj_get]. exact Haction. }
  assert (obj_get "target" env = JObj <$> em_target e) as ->.
  { rewrite Hget, obj_get_app, field_get_ne, rest_get by (done || by apply (bool_decide_eq_false_1 _)). cbn [obj_get]. exact Htarget. }
  assert (obj_get "ttl_ms" env = JNum <$> em_ttl_ms e) as ->.
  { rewrite Hget, obj_get_app. cbn [obj_get String.eqb]. destruct (em_ttl_ms e); [done|]. cbn. by rewrite rest_get, Hms by (by apply (bool_decide_eq_false_1 _)). }
  rewrite !Hget. cbn [obj_get app String.eqb Ascii.eqb Bool.eqb nullable sentSource sentOwner str_is isNumber].
  rewrite dot_nonblank, String.eqb_refl by done.
  unfold set_has. rewrite bool_decide_eq_true_2 by done.
  assert (absentOr isText (JStr <$> nonempty (em_action e)) = true) as -> by (by destruct (nonempty (em_action e))).
  assert (absentOr isNumber (JNum <$> em_ttl_ms e) = true) as ->.
  { destruct (em_ttl_ms e) as [n|] eqn:E; [|done]. cbn. by apply Httl. }
  assert (absentOr (fun v => isRecord (Some v)) (JObj <$> em_target e) = true) as -> by (by destruct (em_target e)).
  assert (recordOrEmpty (JObj <$> em_target e) = default [] (em_target e)) as -> by (by destruct (em_target e)).
  cbn [check mbind res_bind' mret res_ret']. by rewrite Ht.
Qed.

Definition bodyRef (body : obj json) : string := "event-bodies" +:+ "/" +:+ sha256 (bodyText (JObj body)) +:+ ".json".

(** The original body of a new row, inline or in its file. *)
Lemma stored_body (p : Prepared) source owner data artifact fs l l' :
  prepareEventBody (pp_payload p) (files l) = (data, artifact, fs) -> files l' = fs ->
  (forall v, files l !! bodyRef (pp_payload p) = Some v -> v = JObj (pp_payload p)) ->
  storedBody true l' (columnsOf now p source owner data artifact) = Some (JObj (pp_payload p)).
Proof.
  unfold prepareEventBody. intros Hb Hfs Hv. destruct (_ <=? _).
  - injection Hb as <- <- _. unfold storedBody, columnsOf. cbn [ec_body_ref ec_body_sha256 ec_body_bytes ec_data af_ref describeText].
    change (nonblank _) with false. cbv iota. cbn [af_sha256 af_bytes]. by rewrite String.eqb_refl, Z.eqb_refl.
  - cbn in Hb. injection Hb as _ <- Hfs'. unfold storedBody, columnsOf. cbn [ec_body_ref ec_body_sha256 ec_body_bytes ec_data af_ref].
    change (default "" _) with (bodyRef (pp_payload p)). unfold bodyRef at 1. rewrite nonblank_append by done. cbn [negb].
    assert (files l' !! bodyRef (pp_payload p) = Some (JObj (pp_payload p))) as Hf.
    { rewrite Hfs, <- Hfs'. change (_ +:+ _) with (bodyRef (pp_payload p)).
      destruct (files l !! bodyRef (pp_payload p)) as [v|] eqn:E; [by rewrite E, (Hv v eq_refl)|]. apply lookup_insert_eq. }
    unfold readJsonArtifactWithDescriptor. rewrite Hf. cbn. by rewrite String.eqb_refl, Z.eqb_refl.
Qed.

(** C19.  A published fact reads back as it was published.  When an attempt
    publishes an ordinary event under a new key of its own, with an urgency, a
    lifetime and a target the reader accepts, then reading that key returns the
    row's id and exactly the data that was sent, with the identity of the
    publication, whether the body is stored in the row or, because it is long, in
    a file.  The file is named by the digest of the body; no other body with the
    same digest may be stored. *)
Theorem published_fact_read_back i key e h id h' k
    (Hok : journal_ok (log h)) (Ho : ordinary e) (Hread : readable e) (Hrun : emitFact now context i key e h = (Done id, h'))
    (Hnew : ~ stored (log h) id) (Hk : taskEmissionIdentity (emitterScope i) key = Ok k)
    (Hbody : forall v, files (log h) !! bodyRef (emittedData i (trim key) k e) = Some v -> v = JObj (emittedData i (trim key) k e)) :
  readTaskEmission true (log h') (emitterScope i) (em_type e) key = Ok (Some (id, emittedData i (trim key) k e)).
Proof.
  pose proof (allowed_dot _ _ _ (emit_allowed _ _ _ _ _ _ Hrun)) as Hdot.
  destruct (appended_first _ _ _ _ _ _ _ Hok Ho Hrun Hnew Hk) as (-> & Hfresh & Hl). destruct (identity_key _ _ _ Hk) as (Htk & Hne & _).
  destruct (prepared_fields i key k e Ho) as (Hev & Hp & _). destruct (prepared_index i key k e Ho Htk) as (E1 & E2 & E3 & E4 & E5).
  destruct (written_ok now (prepared i key k e) (sentBody i key k e) (sentSource i) (sentOwner i e) (log h) Hok)
    as ([Hok' _] & _ & data & artifact & fs & Hb & Hrows & _ & Hfs); [by rewrite Hev, sent_type|]. rewrite <- Hl in Hok', Hrows, Hfs.
  set (row := mkStored (columnsOf now (prepared i key k e) (sentSource i) (sentOwner i e) data artifact) newReceipt) in *.
  assert (rows (log h') !! (lastId (log h) + 1) = Some row) as Hrow by (rewrite Hrows; apply lookup_insert_eq).
  assert (emissionRow (emitterScope i) (em_type e) k (se_columns row) = true) as Hr.
  { unfold emissionRow, row, columnsOf. cbn [se_columns ec_event_type ec_ingress_source ec_idempotency_scope ec_idempotency_key ec_correlation].
    rewrite Hev, sent_type, E1, E2, E3, E4, E5. cbn. rewrite !String.eqb_refl, (proj2 (String.eqb_neq _ _) Hne).
    by rewrite !bool_decide_eq_true_2. }
  unfold readTaskEmission, findTaskEmission. rewrite Hk. cbn [mbind res_bind' mret res_ret'].
  rewrite (emissionOf_found _ _ _ _ _ _ Hok' Hrow Hr).
  unfold loadPersistedEvent. rewrite Hrow. cbn [mbind option_bind]. 
  assert (readPersistedEventEnvelope (ec_envelope_json (se_columns row)) (ec_event_type (se_columns row)) =
          Ok (ec_envelope_json (se_columns row))) as ->.
  { unfold row. cbn [se_columns columnsOf ec_envelope_json ec_event_type]. rewrite Hev, sent_type. by apply sent_envelope. }
  assert (storedBody true (log h') (se_columns row) = Some (JObj (sentBody i key k e))) as ->.
  { rewrite <- Hp. eapply stored_body; [exact Hb|exact Hfs|]. by rewrite Hp. }
  cbn [mbind option_bind]. destruct (body_get i key k e) as [Hbk Hbe]. fold (sentBody i key k e).
  set (fields := spread _ _). assert (obj_get "data" fields = Some (JObj (sentBody i key k e))) as Hdata.
  { unfold fields. rewrite spread_get; [done|]. destruct (readEventTraceMetadata _ _); apply (bool_decide_eq_true_1 _); reflexivity. }
  cbn [with_retry with_rowId newEvent ev_fields]. rewrite Hdata. cbn [objectValue].
  unfold verifies. rewrite Hbk, Hbe. cbn. rewrite !String.eqb_refl. unfold num, number_eqb. by rewrite Qeq_bool_refl.
Qed.

End Emissions.

(** ** Concrete runs *)

#[local] Existing Instance test_hash.

Definition claimed_hub : Hub := mkHub emptyLog {["demo" := TaskScenario.claimed_app]} (mkTables ∅ ∅ ∅ ∅).

(** The attempt of the scenario, which has a lease, and one that was replaced. *)
Definition emitterOf (attemptId : string) : Emitter := mkEmitter "demo.app" "t1" 1 attemptId "builder" None false.
Definition sample_emitter : Emitter := emitterOf (TaskLease.clm_attemptId TaskScenario.sample_claim).

Definition sample_emission (text : string) : AppTaskEmission :=
  mkEmission "build.finished" (Some [("text", JStr text)]) (Some [("appId", JStr "demo"); ("taskId", JStr "root")]) None None
    (Some "high") None.

Definition publish (i : Emitter) (text : string) : out Z * Hub :=
  emitFact (TaskScenario.start + 2000) None i " result " (sample_emission text) claimed_hub.

(** A body that is stored in a file. *)
Definition long_text : string := unchars (repeat "x"%char 5000).

Example publications :
  (publish sample_emitter "ok").1 = Done 1 /\ (publish sample_emitter long_text).1 = Done 1 /\
  size (files (log (publish sample_emitter long_text).2)) = 1%nat /\
  (publish (emitterOf "old") "ok").1 = Raise PlainError "Task emission fence rejected stale attempt old for demo/t1@1" /\
  match stores (publish sample_emitter "ok").2 !! "demo" ≫= (fun s => tasks s !! "root") with
  | Some row => (row_changed row, row_ready row, row_resource_version row) | None => (false, false, 0) end = (true, true, 2).
Proof. vm_compute. done. Qed.

Lemma sample_ordinary text : ordinary (sample_emission text).
Proof. split; [apply (bool_decide_eq_true_1 _); reflexivity|done]. Qed.

Lemma sample_new text : ~ stored (log claimed_hub) text.
Proof. unfold stored. cbn. rewrite lookup_empty. by intros []. Qed.

Lemma publish_done text : (publish sample_emitter text).1 = Done 1 -> publish sample_emitter text = (Done 1, (publish sample_emitter text).2).
Proof. intros Hrun. rewrite <- Hrun. apply surjective_pairing. Qed.

Lemma emission_fenced_witness :
  let h' := (publish sample_emitter "ok").2 in
  match (publish sample_emitter "ok").1 with
  | Done id => (stored (log claimed_hub) id /\ rows (log h') = rows (log claimed_hub) /\ stores h' = stores claimed_hub) \/
               (~ stored (log claimed_hub) id /\ stored (log h') id /\ ownsTask (TaskScenario.start + 2000) sample_emitter claimed_hub)
  | Raise _ _ => rows (log h') = rows (log claimed_hub) /\ stores h' = stores claimed_hub
  end.
Proof.
  unfold publish. apply (emission_fenced (TaskScenario.start + 2000) None sample_emitter " result " (sample_emission "ok") claimed_hub).
  - exact empty_log_ok.
  - reflexivity.
  - discriminate.
Defined.


Lemma published_fact_read_back_witness :
  exists k, readTaskEmission true (log (publish sample_emitter long_text).2) (emitterScope sample_emitter) "build.finished" " result " =
    Ok (Some (1, emittedData sample_emitter (trim " result ") k (sample_emission long_text))).
Proof.
  assert ((publish sample_emitter long_text).1 = Done 1) as Hrun by (vm_compute; reflexivity). apply publish_done in Hrun.
  eexists. apply (published_fact_read_back (TaskScenario.start + 2000) None sample_emitter " result " (sample_emission long_text) claimed_hub 1).
  - exact empty_log_ok.
  - apply sample_ordinary.
  - split; [apply (bool_decide_eq_true_1 _); reflexivity|done|reflexivity].
  - exact Hrun.
  - apply sample_new.
  - vm_compute. reflexivity.
  - intros v. cbn. by rewrite lookup_empty.
Defined.

End EmissionLaws.
