(* ===== verification/BusLaws.v ===== *)
(** The event bus: what an emission does and what it records, and the queues of
    its listeners. *)
From S2P Require Import Prelude Json TaskEvents Effects EventEnvelope EventLog EventTraces EventProjections EventJournal EventBus JournalLaws.

Module BusLaws.
Import TaskEvents Effects EventEnvelope EventLog EventTraces EventProjections EventJournal EventBus JournalLaws.

(** ** The acceptance that is kept *)

Definition admits (d : DeliveryResult) : DeliveryResult := mkDelivery (dr_by d) (dr_route d) (dr_note d) true.
Definition effective (d : DeliveryResult) : bool := negb (isNoop (dr_route d)).

(** The first acceptance by a consumer that acts, or else the first one. *)
Definition best (ds : list DeliveryResult) : option DeliveryResult :=
  match List.find effective ds with Some d => Some d | None => head ds end.

(** It admits the event to an App when any of them did. *)
Definition chosen (ds : list DeliveryResult) : option DeliveryResult :=
  d ← best ds; Some (if existsb dr_appAdmission ds then admits d else d).

Lemma find_snoc {A} (f : A -> bool) l x :
  List.find f (l ++ [x]) = match List.find f l with Some y => Some y | None => if f x then Some x else None end.
Proof. induction l as [|y l IH]; [done|]. cbn. by destruct (f y). Qed.

Lemma existsb_snoc {A} (f : A -> bool) l x : existsb f (l ++ [x]) = existsb f l || f x.
Proof. rewrite existsb_app. cbn. by rewrite orb_false_r. Qed.

Lemma admitting_same d : dr_appAdmission d = true -> admits d = d.
Proof. destruct d as [b r n []]; done. Qed.

Lemma best_in ds d : best ds = Some d -> d ∈ ds.
Proof.
  unfold best. destruct (List.find effective ds) as [x|] eqn:E.
  - intros [= <-]. apply List.find_some in E as [E _]. by apply list_elem_of_In.
  - destruct ds; [done|]. intros [= <-]. apply list_elem_of_here.
Qed.

Lemma no_admission ds d : best ds = Some d -> existsb dr_appAdmission ds = false -> dr_appAdmission d = false.
Proof.
  intros Hd%best_in%list_elem_of_In Hno. destruct (dr_appAdmission d) eqn:E; [|done].
  assert (existsb dr_appAdmission ds = true) as Hyes; [|congruence]. apply existsb_exists. eauto.
Qed.

(** One more acceptance. *)
Lemma preferred_snoc ds d : preferredDelivery (chosen ds) (Some d) = chosen (ds ++ [d]).
Proof.
  unfold chosen at 2, best at 1. rewrite find_snoc, existsb_snoc. unfold chosen.
  destruct (best ds) as [b|] eqn:Hb.
  2: { assert (ds = []) as ->. { destruct ds as [|x ds]; [done|]. unfold best in Hb. by destruct (List.find _ _). }
       cbn. destruct (effective d), (dr_appAdmission d) eqn:E; cbn; by rewrite ?admitting_same. }
  pose proof (no_admission _ _ Hb) as Hno. pose proof Hb as Hb0. unfold best in Hb.
  assert (exists y, head (ds ++ [d]) = Some y /\ (List.find effective ds = None -> y = b)) as (y & Hy & Hyb).
  { destruct ds as [|x ds]; [done|]. exists x. split; [done|]. intros E. rewrite E in Hb. by injection Hb. }
  rewrite Hy. unfold preferredDelivery. cbn [mbind option_bind]. set (any := existsb dr_appAdmission ds) in *.
  assert (dr_route (if any then admits b else b) = dr_route b) as -> by (by destruct any).
  destruct (List.find effective ds) as [x|] eqn:Ef.
  - injection Hb as ->. apply List.find_some in Ef as [_ Ef]. apply negb_true_iff in Ef. rewrite Ef. cbn [andb].
    destruct any eqn:Ea; cbn; [done|]. rewrite Hno by done. cbn. by destruct (dr_appAdmission d).
  - specialize (Hyb eq_refl) as ->.
    assert (effective b = false) as Hbe.
    { apply best_in, list_elem_of_In in Hb0. by apply (List.find_none _ _ Ef). }
    apply negb_false_iff in Hbe. rewrite Hbe. cbn [andb]. fold (effective d).
    destruct (effective d), any eqn:Ea; cbn; rewrite ?Hno by done; cbn; [done| |done|]; destruct (dr_appAdmission d) eqn:Ed; cbn; done.
Qed.

Lemma preferred_none ds : preferredDelivery (chosen ds) None = chosen ds.
Proof.
  unfold chosen. destruct (best ds) as [b|] eqn:Hb; [|done]. cbn. pose proof (no_admission _ _ Hb) as Hno.
  destruct (existsb dr_appAdmission ds); cbn; [done|]. by rewrite Hno.
Qed.

(** ** Fan-out *)

Definition acceptance (r : out (option DeliveryResult)) : option DeliveryResult :=
  match r with Done d => normalizeDeliveryResult d | Raise _ _ => None end.

Definition failed (rs : list (out (option DeliveryResult))) : bool := existsb (fun r => negb (is_done r)) rs.
Definition acceptances (rs : list (out (option DeliveryResult))) : list DeliveryResult := omap acceptance rs.

Section Fanout.
Context {W : Type} (now : Z) (options : @Options W).
Abbreviation S := (Bus * W)%type.

(** Subscribers run in order, each on the state the one before left; the error
    of one is noted and the next one runs. *)
Inductive runsAll (priority : string) (event : AgentEvent) : list (@Subscriber W) -> S -> list (out (option DeliveryResult)) -> S -> Prop :=
| runs_nil s : runsAll priority event [] s [] s
| runs_ok fn fns s d s1 rs s2 : sb_run fn event s = (Done d, s1) -> runsAll priority event fns s1 rs s2 ->
    runsAll priority event (fn :: fns) s (Done d :: rs) s2
| runs_raise fn fns s c e s1 rs s2 : sb_run fn event s = (Raise c e, s1) ->
    runsAll priority event fns (reportSubscriberFailure now event priority e s1.1, s1.2) rs s2 ->
    runsAll priority event (fn :: fns) s (Raise c e :: rs) s2.

Lemma offerAll_runs priority event fns s ds f : exists rs s',
  runsAll priority event fns s rs s' /\
  offerAll now priority event fns (chosen ds, f) s = (Done (chosen (ds ++ acceptances rs), f || failed rs), s').
Proof.
  revert s ds f. induction fns as [|fn fns IH]; intros s ds f.
  { exists [], s. split; [constructor|]. cbn. by rewrite app_nil_r, orb_false_r. }
  cbn [offerAll]. unfold offer, catching, mbind, E_bind. destruct (sb_run fn event s) as [[d|c e] s1] eqn:E; cbn.
  - assert (preferredDelivery (chosen ds) (normalizeDeliveryResult d) = chosen (ds ++ option_list (normalizeDeliveryResult d))) as ->.
    { destruct (normalizeDeliveryResult d); cbn; [apply preferred_snoc|]. rewrite app_nil_r. apply preferred_none. }
    destruct (IH s1 (ds ++ option_list (normalizeDeliveryResult d)) f) as (rs & s' & Hr & ->). exists (Done d :: rs), s'.
    split; [by econstructor|]. rewrite <- app_assoc. cbn. by destruct (normalizeDeliveryResult d).
  - destruct (IH (reportSubscriberFailure now event priority e s1.1, s1.2) ds true) as (rs & s' & Hr & ->). exists (Raise c e :: rs), s'.
    split; [by econstructor|]. cbn. by rewrite orb_true_r.
Qed.

(** What is recorded: a failed durable route withholds acceptance. *)
Definition outcomeOf (durable others : list (out (option DeliveryResult))) (event : AgentEvent) : option DeliveryOutcome :=
  if failed durable then Some (undelivered routeFailed)
  else delivered <$> finalDelivery (chosen (acceptances (durable ++ others))) event.

Definition marked (outcome : option DeliveryOutcome) (event : AgentEvent) : AgentEvent :=
  match outcome with Some (delivered d) => with_delivery (Some d) event | _ => event end.

(** The record of the outcome, then the listeners. *)
Definition finish (event : AgentEvent) (outcome : option DeliveryOutcome) : E S AgentEvent :=
  let event := marked outcome event in
  _ ← match outcome with Some o => records options event o | None => mret tt end;
  _ ← (if ev_redelivery event then mret tt else onBus (enqueueListenerEvent event));
  mret event.

(** The runs of one fan-out: retries only run durable routes. *)
Definition fanned (event : AgentEvent) (label : option string) (s : S) (durable others : list (out (option DeliveryResult))) (s' : S) : Prop :=
  exists s1, runsAll "first" event (selectedRoutes options label event) s durable s1 /\
    if ev_redelivery event then others = [] /\ s' = s1
    else exists first normal s2, runsAll "first" event (op_first options) s1 first s2 /\
           runsAll "normal" event (op_normal options) s2 normal s' /\ others = first ++ normal.

Lemma acceptances_app a b : acceptances (a ++ b) = acceptances a ++ acceptances b.
Proof. unfold acceptances. induction a as [|x a IH]; [done|]. cbn. destruct (acceptance x); cbn; by rewrite IH. Qed.

Lemma finish_run event d (f : bool) s :
  (event ← (if f then _ ← records options event (undelivered routeFailed); mret event
            else match finalDelivery d event with
                 | Some d => let event := with_delivery (Some d) event in _ ← records options event (delivered d); mret event
                 | None => mret event
                 end);
   _ ← (if ev_redelivery event then mret tt else onBus (enqueueListenerEvent event));
   mret event) s = finish event (if f then Some (undelivered routeFailed) else delivered <$> finalDelivery d event) s.
Proof.
  unfold finish. destruct f; [|destruct (finalDelivery d event) as [x|]; [|done]]; cbn; unfold mbind, E_bind;
    match goal with |- context [records ?o ?e ?r ?t] => by destruct (records o e r t) as [[[]|] ?] end.
Qed.

Lemma fanOut_runs label event s : ev_deduplicated event && negb (ev_redelivery event) = false ->
  exists durable others s', fanned event label s durable others s' /\
    fanOut now options label event s = finish event (outcomeOf durable others event) s'.
Proof.
  intros Hnew. unfold fanOut. rewrite Hnew. unfold fanned, outcomeOf.
  destruct (offerAll_runs "first" event (selectedRoutes options label event) s [] false) as (rd & s1 & Hd & Erd).
  change (chosen []) with (@None DeliveryResult) in Erd. rewrite (bind_done _ _ _ _ _ Erd). cbn [app orb].
  destruct (ev_redelivery event) eqn:Er.
  - exists rd, [], s1. split; [eauto|]. by rewrite app_nil_r, <- finish_run.
  - destruct (offerAll_runs "first" event (op_first options) s1 (acceptances rd) false) as (rf & s2 & Hf & Erf).
    destruct (offerAll_runs "normal" event (op_normal options) s2 (acceptances rd ++ acceptances rf) false) as (rn & s3 & Hn & Ern).
    exists rd, (rf ++ rn), s3. split; [exists s1; split; [done|]; eauto 10|]. rewrite !acceptances_app, app_assoc, <- finish_run.
    erewrite bind_done; [|rewrite (bind_done _ _ _ _ _ Erf); exact Ern]. reflexivity.
Qed.

Definition entered (s : S) : S := (set_emitDepth (bs_emitDepth s.1 + 1) s.1, s.2).

Definition left {A} (r : out A * S) : out A * S := (r.1, leave r.2).

(** C20.  Persist first, then deliver, then record.  When the write of an event
    fails, the emission fails with its error and no subscriber runs.  Inside a
    state transaction the fan-out waits for the commit.  A retry that needs no
    delivery has no effect.  Otherwise the durable routes run in order, then the
    first and the normal subscribers (a retry runs the durable routes only); the
    error of one stops none of the others.  The outcome that is recorded is exact:
    a failed durable route withholds acceptance, and if none failed it is the first
    acceptance by a consumer that acts, or else the first acceptance, and it admits
    the event to an App when any acceptance did. *)
Theorem emission_outcome persist input s (Hp : op_persist options = Some persist) :
  let event := inheritedEventTrace input (op_context options) in
  let run := emit now options input s in
  match persist event (entered s) with
  | (Raise c e, s1) => run = left (Raise c e, s1)
  | (Done ev, s1) =>
      if op_inTransaction options s1 then
        run = left (match op_afterCommit options ev s1 with (Done _, s2) => (Done ev, s2) | (Raise c e, s2) => (Raise c e, s2) end)
      else if ev_deduplicated ev && negb (ev_redelivery ev) then run = left (Done ev, s1)
      else exists durable others s2, fanned ev None s1 durable others s2 /\
             run = left (finish ev (outcomeOf durable others ev) s2)
  end.
Proof.
  cbv zeta. unfold emit, dispatch. rewrite Hp. unfold onBus. rewrite writes_bind. fold (entered s). unfold finally, left.
  set (event := inheritedEventTrace _ _). destruct (persist event (entered s)) as [[ev|c e] s1] eqn:Ep.
  2: { by rewrite (bind_raise _ _ _ _ _ _ Ep). }
  rewrite (bind_done _ _ _ _ _ Ep), bind_reads. destruct (op_inTransaction options s1).
  - unfold mbind, E_bind. by destruct (op_afterCommit options ev s1) as [[?|? ?] s2].
  - destruct (ev_deduplicated ev && negb (ev_redelivery ev)) eqn:E; [by unfold fanOut; rewrite E|].
    destruct (fanOut_runs None ev s1 E) as (rd & ro & s2 & Hf & ->). exists rd, ro, s2. split; [done|]. by destruct (finish _ _ s2).
Qed.

End Fanout.

(** ** The bus of the Host: events are written to the journal *)

Section Journal.
Context `{Crypto} (now : Z) (routes first normal : list (@Subscriber Hub)) (context : option AgentEvent).
Abbreviation S := (Bus * Hub)%type.

Definition journalOptions : @Options Hub :=
  mkOptions (Some (fun event => zoom snd (fun h s => (s.1, h)) (handler now event))) (fun _ => false) (fun _ => mret tt)
    (Some (fun event outcome => writes (fun s => (s.1, set_log (recordDelivery now event outcome (log s.2)) s.2))))
    routes first normal context.

(** The receipt of a new event. *)
Definition receiptOf (outcome : option DeliveryOutcome) : Receipt :=
  match outcome with
  | Some (delivered d) => mkReceipt ds_accepted (Some (dr_by d)) (Some now) (Some (default direct (dr_route d))) (dr_note d)
                            (Some (negb (dr_appAdmission d)))
  | Some (undelivered note) => mkReceipt ds_pending None None (Some direct) (Some note) (Some true)
  | None => newReceipt
  end.

Lemma recorded_new o c : se_receipt (recordedReceipt now o (mkStored c newReceipt)) = receiptOf (Some o).
Proof.
  destruct o as [[by_ route note app]|note]; [|done]. cbn. unfold acceptedReceipt, acceptsOver. cbn.
  destruct route as [[]|]; cbn; by destruct app.
Qed.

Lemma handler_new event h ev h1 id : journal_ok (log h) -> handler now event h = (Done ev, h1) -> ev_rowId ev = Some id ->
  ~ stored (log h) id -> stored (log h1) id -> exists c, rows (log h1) !! id = Some (mkStored c newReceipt).
Proof.
  intros Hok Hrun Hid Hnew Hst. apply handler_run in Hrun. destruct Hrun as [->|e payload source owner h0 fs Hl _ _ _ Hi]; [done|].
  assert (journal_ok (log h0)) as Hok0 by (rewrite Hl; by apply set_files_ok).
  assert (rows (log h0) = rows (log h)) as Hrows by (by rewrite Hl).
  inversion Hi as [|id0 row p Hk Hrow Hhash|st tbl p Hf Ho Hw]; subst.
  - exfalso. apply Hnew. rewrite (proj1 (answered_retried _ _ _ _)) in Hid. injection Hid as <-.
    apply keyedRow_Some in Hrow as [Hrow _]. rewrite Hrows in Hrow. by apply row_stored in Hrow.
  - cbn in Hid. injection Hid as <-. destruct (written_ok now p payload source owner (log h0) Hok0) as (_ & _ & d & a & f & _ & Hr & _).
    { unfold freshKey, p in *. by rewrite prepare_type. }
    eexists. cbn [log]. rewrite Hr. apply lookup_insert_eq.
Qed.

Lemma runs_keep {A} (get : Hub -> A) priority event fns s rs s' :
  runsAll now priority event fns s rs s' -> (forall fn, fn ∈ fns -> forall t, get (sb_run fn event t).2.2 = get t.2) ->
  get s'.2 = get s.2.
Proof.
  induction 1 as [|fn fns s d s1 rs s2 E _ IH|fn fns s c e s1 rs s2 E _ IH]; intros Hk; [done| |].
  - rewrite IH by (intros g Hg; apply Hk; by right). specialize (Hk fn ltac:(left) s). by rewrite E in Hk.
  - rewrite IH by (intros g Hg; apply Hk; by right). specialize (Hk fn ltac:(left) s). by rewrite E in Hk.
Qed.

Lemma fanned_keep {A} (get : Hub -> A) event s durable others s' :
  fanned now journalOptions event None s durable others s' ->
  (forall fn, fn ∈ routes ++ first ++ normal -> forall t, get (sb_run fn event t).2.2 = get t.2) -> get s'.2 = get s.2.
Proof.
  intros (s1 & Hd & Ho) Hk. assert (get s1.2 = get s.2) as <-.
  { eapply runs_keep; [exact Hd|]. intros fn [_ Hin]%list_elem_of_filter. apply Hk. cbn in Hin. set_solver. }
  destruct (ev_redelivery event); [by destruct Ho as [_ ->]|]. destruct Ho as (rf & rn & s2 & Hf & Hn & _). cbn in Hf, Hn.
  assert (get s2.2 = get s1.2) as <-; (eapply runs_keep; [eassumption|]; intros fn Hin; apply Hk; set_solver).
Qed.

(** What recording an outcome leaves in the row. *)
Lemma finish_row event outcome s id c : ev_rowId event = Some id -> rows (log s.2) !! id = Some (mkStored c newReceipt) ->
  exists s' row, finish journalOptions event outcome s = (Done (marked outcome event), s') /\
    rows (log s'.2) !! id = Some row /\ se_receipt row = receiptOf outcome.
Proof.
  intros Hid Hrow. unfold finish. cbn zeta. set (ev := marked outcome event).
  assert (ev_rowId ev = Some id) as Hev by (unfold ev; by destruct outcome as [[]|]).
  clearbody ev.
  assert (exists s1 row, (match outcome with Some o => records journalOptions ev o | None => mret tt end) s = (Done tt, s1) /\
    rows (log s1.2) !! id = Some row /\ se_receipt row = receiptOf outcome) as (s1 & row & E & Hr & Hre).
  { destruct outcome as [o|]; [|by eexists s, _]. eexists _, (recordedReceipt now o (mkStored c newReceipt)).
    split; [reflexivity|]. split; [|apply recorded_new]. cbn [snd fst log set_log]. unfold recordDelivery. rewrite Hev. cbn.
    by rewrite lookup_alter_eq, Hrow. }
  rewrite (bind_done _ _ _ _ _ E). destruct (ev_redelivery ev); by eexists _, row.
Qed.


End Journal.

(** ** Listeners *)

(** A listener in use: its state, whether its timeout is set, whether a callback
    is running, what the callback was given, and what was offered to it. *)
Record Feed : Type := mkFeed {
  fd_listener : Listener;
  fd_timer : bool;
  fd_running : bool;
  fd_seen : list AgentEvent;
  fd_offered : list AgentEvent }.

Definition newFeed (label : string) (types : option (list string)) : Feed := mkFeed (newListener label types) false false [] [].

Inductive feedStep : Feed -> Feed -> Prop :=
| fs_event f e s' armed : notifyListener e (fd_listener f) = (s', armed) ->
    feedStep f (mkFeed s' (fd_timer f || armed) (fd_running f) (fd_seen f)
                  (if wantsEvent (eventType e) (fd_listener f) then fd_offered f ++ [e] else fd_offered f))
| fs_timeout f batch s' : fd_timer f = true -> drainStart (fd_listener f) = (batch, s') ->
    feedStep f (mkFeed s' false (ls_active (fd_listener f)) (fd_seen f ++ batch) (fd_offered f))
| fs_callback f s' armed : fd_running f = true -> drainEnd (fd_listener f) = (s', armed) ->
    feedStep f (mkFeed s' armed false (fd_seen f) (fd_offered f))
| fs_unlisten f : feedStep f (mkFeed (unlisten (fd_listener f)) (fd_timer f) (fd_running f) (fd_seen f) (fd_offered f)).

Record feed_ok (f : Feed) : Prop := {
  fo_bound : (length (ls_pending (fd_listener f)) <= EVENT_LISTENER_BACKLOG_LIMIT)%nat;
  fo_suffix : ls_pending (fd_listener f) `suffix_of` fd_offered f;
  fo_order : fd_seen f ++ ls_pending (fd_listener f) `sublist_of` fd_offered f;
  fo_all : ls_active (fd_listener f) = true -> (length (fd_offered f) <= EVENT_LISTENER_BACKLOG_LIMIT)%nat ->
           fd_seen f ++ ls_pending (fd_listener f) = fd_offered f;
  fo_scheduled : ls_scheduled (fd_listener f) = fd_timer f || fd_running f;
  fo_single : fd_timer f && fd_running f = false;
  fo_live : ls_active (fd_listener f) = true -> ls_pending (fd_listener f) <> [] -> ls_scheduled (fd_listener f) = true }.

Lemma feed_event f e s' armed : feed_ok f -> notifyListener e (fd_listener f) = (s', armed) ->
  feed_ok (mkFeed s' (fd_timer f || armed) (fd_running f) (fd_seen f)
             (if wantsEvent (eventType e) (fd_listener f) then fd_offered f ++ [e] else fd_offered f)).
Proof.
  destruct f as [s timer running seen offered]. intros [Hb Hsuf Hord Hall Hsch Hone Hlive]. cbn in *. unfold notifyListener.
  destruct (wantsEvent (eventType e) s) eqn:Ew; cbn [negb]; [|intros [= <- <-]; rewrite orb_false_r; by constructor].
  assert (0 < EVENT_LISTENER_BACKLOG_LIMIT)%nat as Hlim by (unfold EVENT_LISTENER_BACKLOG_LIMIT; lia).
  destruct (Nat.leb_spec EVENT_LISTENER_BACKLOG_LIMIT (length (ls_pending s))) as [Hfull|Hroom]; intros [= <- <-].
  - destruct (ls_pending s) as [|x pending]; [cbn in Hfull; lia|]. cbn in *. constructor; cbn.
    + rewrite length_app. cbn. lia.
    + apply suffix_snoc. by eapply suffix_cons_l.
    + rewrite app_assoc. apply sublist_app; [|done]. etrans; [|exact Hord]. apply sublist_app; [done|]. by constructor.
    + intros _. rewrite length_app. cbn. apply suffix_length in Hsuf. cbn in Hsuf. lia.
    + rewrite Hsch. by destruct timer, running.
    + rewrite Hsch. by destruct timer, running.
    + done.
  - constructor; cbn.
    + rewrite length_app. cbn. lia.
    + by apply suffix_snoc.
    + rewrite app_assoc. by apply sublist_app.
    + intros Ha. rewrite length_app. cbn. intros Hl. rewrite app_assoc, Hall by (done || lia). done.
    + rewrite Hsch. by destruct timer, running.
    + rewrite Hsch. by destruct timer, running.
    + done.
Qed.

Lemma feed_step f f' : feed_ok f -> feedStep f f' -> feed_ok f'.
Proof.
  intros Hok Hstep. destruct Hstep as [f e s' armed E|f batch s' Ht E|f s' armed Hr E|f]; [by apply feed_event| | |];
    destruct f as [s timer running seen offered]; destruct Hok as [Hb Hsuf Hord Hall Hsch Hone Hlive]; cbn in *.
  - subst timer. cbn in Hsch, Hone. unfold drainStart in E.
    destruct (ls_active s) eqn:Ha; cbn [negb] in E; injection E as <- <-.
    + unfold EVENT_LISTENER_BATCH_SIZE. destruct (ls_pending s) as [|x pending]; cbn in *.
      * constructor; cbn; rewrite ?app_nil_r in *; try done; lia.
      * constructor; cbn; rewrite ?drop_0, <- ?app_assoc; cbn; try done; [lia|by eapply suffix_cons_l].
    + constructor; cbn; rewrite ?app_nil_r; try done.
  - subst running. unfold drainEnd in E. destruct (ls_active s) eqn:Ha; cbn [andb] in E.
    + destruct (bool_decide (ls_pending s <> [])) eqn:Ep; injection E as <- <-; constructor; cbn; rewrite ?Hsch, ?orb_true_r; auto.
      intros _ Hne. by rewrite bool_decide_eq_true_2 in Ep.
    + injection E as <- <-. constructor; cbn; try done; congruence.
  - constructor; cbn; try done; [lia|apply suffix_nil|]. rewrite app_nil_r. etrans; [|exact Hord]. by apply sublist_inserts_r.
Qed.

(** C22.  A listener sees events in order and its backlog is bounded.  However
    emissions, timeouts, callbacks and the end of the subscription interleave: at
    most 256 events wait, they are the newest ones offered, what the callback was
    given and what waits is in the order of the emissions, without repetition; as
    long as no more than 256 events were offered none is lost; one callback runs
    at a time, and while events wait a timeout is set or a callback is running, so
    that they will be taken. *)
Theorem listener_feed label types f (Hrun : rtc feedStep (newFeed label types) f) :
  let s := fd_listener f in
  (length (ls_pending s) <= 256)%nat /\ ls_pending s `suffix_of` fd_offered f /\
  fd_seen f ++ ls_pending s `sublist_of` fd_offered f /\
  (ls_active s = true -> (length (fd_offered f) <= 256)%nat -> fd_seen f ++ ls_pending s = fd_offered f) /\
  ~ (fd_timer f = true /\ fd_running f = true) /\
  (ls_active s = true -> ls_pending s <> [] -> fd_timer f = true \/ fd_running f = true).
Proof.
  assert (feed_ok f) as [Hb Hsuf Hord Hall Hsch Hone Hlive].
  { assert (feed_ok (newFeed label types)) as H0 by (constructor; cbn; try done; unfold EVENT_LISTENER_BACKLOG_LIMIT; lia).
    induction Hrun; [done|]. eauto using feed_step. }
  cbv zeta. split_ands; try done.
  - intros [Ht Hr]. by rewrite Ht, Hr in Hone.
  - intros Ha Hp. apply orb_true_iff. rewrite <- Hsch. auto.
Qed.

(** ** Concrete runs *)

#[local] Existing Instance test_hash.

Definition says (label : string) (r : out (option DeliveryResult)) : @Subscriber Hub := mkSubscriber (Some label) (fun _ s => (r, s)).

Definition inbox_route : Subscriber := says "app-inbox-route" (Done (Some (mkDelivery " inbox " (Some direct) None true))).
Definition broken_route : Subscriber := says "facts" (Raise PlainError "disk full").
Definition logger : Subscriber := says "log" (Done (Some (mkDelivery "log" (Some noop) None false))).

Definition hostOptions (routes : list Subscriber) : Options := journalOptions 1000 routes [] [logger; broken_route] None.
Definition sent (routes : list Subscriber) : out AgentEvent * (Bus * Hub) :=
  emit 1000 (hostOptions routes) (note "hello") (listen "ui" None emptyBus, empty_hub).

(** The consumer that acts is kept before the log; a broken subscriber is
    reported, and only a broken durable route withholds acceptance. *)
Example receipts :
  let receipt routes := se_receipt <$> rows (log (sent routes).2.2) !! 1 in
  receipt [inbox_route] = Some (mkReceipt ds_accepted (Some "inbox") (Some 1000) (Some direct) None (Some false)) /\
  receipt [] = Some (mkReceipt ds_accepted (Some "log") (Some 1000) (Some noop) None (Some true)) /\
  receipt [inbox_route; broken_route] = Some (mkReceipt ds_pending None None (Some direct) (Some routeFailed) (Some true)) /\
  length (bs_failures (sent [inbox_route]).2.1) = 1%nat /\
  map (fun s => length (ls_pending s)) (bs_listeners (sent []).2.1) = [1%nat].
Proof. vm_compute. done. Qed.

Lemma emission_outcome_witness :
  exists ev s1 durable others s2, (handler 1000 (note "hello") empty_hub) = (Done ev, s1.2) /\
    fanned 1000 (hostOptions [broken_route]) ev None s1 durable others s2 /\
    sent [broken_route] = left (finish (hostOptions [broken_route]) ev (outcomeOf durable others ev) s2).
Proof.
  pose proof (emission_outcome 1000 (hostOptions [broken_route])
    (fun event => zoom snd (fun h s => (s.1, h)) (handler 1000 event)) (note "hello") (listen "ui" None emptyBus, empty_hub) eq_refl) as Hout.
  cbv zeta in Hout. change (inheritedEventTrace (note "hello") (op_context (hostOptions [broken_route]))) with (note "hello") in Hout.
  unfold zoom in Hout. change (entered (listen "ui" None emptyBus, empty_hub)).2 with empty_hub in Hout.
  destruct (handler 1000 (note "hello") empty_hub) as [[ev|c e] h1] eqn:E; [|by vm_compute in E].
  cbn [op_inTransaction hostOptions journalOptions] in Hout.
  assert (ev_deduplicated ev && negb (ev_redelivery ev) = false) as Hdup.
  { assert (match (handler 1000 (note "hello") empty_hub).1 with
            | Done x => ev_deduplicated x && negb (ev_redelivery x) | _ => true end = false) as Hd by (vm_compute; reflexivity).
    by rewrite E in Hd. }
  rewrite Hdup in Hout. destruct Hout as (durable & others & s2 & Hf & Hrun). eexists ev, (_, h1), durable, others, s2.
  split; [reflexivity|]. split; [exact Hf|exact Hrun].
Defined.

Lemma says_keeps label r event s id : rows (log (sb_run (says label r) event s).2.2) !! id = rows (log s.2) !! id.
Proof. done. Qed.


(** Two events, the first of which was taken. *)
Lemma listener_feed_witness :
  exists f, fd_seen f = [note "a"] /\ fd_seen f ++ ls_pending (fd_listener f) = [note "a"; note "b"] /\
    (ls_active (fd_listener f) = true -> ls_pending (fd_listener f) <> [] -> fd_timer f = true \/ fd_running f = true).
Proof.
  exists (mkFeed (mkListener "ui" None [note "b"] true true 0) false true [note "a"] [note "a"; note "b"]).
  split; [reflexivity|].
  pose proof (listener_feed "ui" None (mkFeed (mkListener "ui" None [note "b"] true true 0) false true [note "a"] [note "a"; note "b"])) as Hf.
  destruct Hf as (_ & _ & _ & Hall & _ & Hlive).
  - eapply rtc_l; [eapply (fs_event _ (note "a")); reflexivity|]. eapply rtc_l; [eapply (fs_event _ (note "b")); reflexivity|].
    eapply rtc_l; [eapply fs_timeout; reflexivity|]. apply rtc_refl.
  - split; [|exact Hlive]. apply Hall; [reflexivity|]. cbn. lia.
Defined.

End BusLaws.
