(* ===== verification/EventInterface.v ===== *)
(** The event interface ([src/app/core/events/interface.ts]) and the formal human
    approvals it admits ([src/app/core/events/approval.ts]): what callers may
    publish, with which address and under whose authority, and the receipts they
    get.

    Caller input is a JSON value.  What the composition tells the interface about
    Apps, agents, sessions and their input schemas is a parameter
    ([InterfaceOptions]); the bus is the program [emit]. *)
From S2P Require Import Prelude Json TaskState TaskTree Transaction ResourceStore RecoveryIndex Snapshot Context Approval Conditions.
From S2P Require Import Records TaskEvents Effects InboxStore EventEnvelope EventLog EventTraces EventProjections EventAdmission.
From S2P Require Import EventJournal EventBus TaskEmissions.

Module EventInterface.
Import Approval Effects TaskEvents EventEnvelope EventLog EventTraces EventProjections EventJournal EventBus.

#[export] Instance out_ret : MRet out := @Done.
#[export] Instance out_bind : MBind out := fun A B f m => match m with Done a => f a | Raise c e => Raise c e end.

(** ** Checks of a value *)

Definition fails {A} (message : string) : out A := Raise PlainError message.
Definition demand (ok : bool) (message : string) : out unit := if ok then mret tt else fails message.
Definition demandApproval (ok : bool) (message : string) : out unit := if ok then mret tt else Raise ApprovalValidationError message.

Definition optionalText (v : option json) : option string := nonEmptyString v.

Definition requiredText (v : option json) (field : string) : out string :=
  match optionalText v with Some s => mret s | None => fails (field +:+ " must be a non-empty string") end.

Definition optionalTextField (value : obj json) (key field : string) : out unit :=
  demand (match obj_get key value with Some v => bool_decide (is_Some (optionalText (Some v))) | None => true end)
    (field +:+ " must be a non-empty string").

Definition recordOf (v : option json) (field : string) : out (obj json) :=
  match v with Some (JObj o) => mret o | _ => fails (field +:+ " must be an object") end.

Definition positiveIntegerOf (v : option json) (field : string) : out Z :=
  match positive v with Some n => mret n | None => fails (field +:+ " must be a positive integer") end.

Definition isPositiveInteger (v : option json) : bool := bool_decide (is_Some (positive v)).

(** ** Caller input *)

Record EventTarget : Type := mkTarget {
  tg_appId : option string;
  tg_taskId : option string;
  tg_sessionId : option string }.

Record EventInput : Type := mkInput {
  ei_type : string;
  ei_target : option EventTarget;
  ei_data : obj json;
  ei_idempotencyKey : option string }.

Definition with_data (x : obj json) (i : EventInput) : EventInput := mkInput (ei_type i) (ei_target i) x (ei_idempotencyKey i).

Definition targetFields : list string := ["appId"; "taskId"; "sessionId"].

Definition targetField (k : string) (t : EventTarget) : option string :=
  if String.eqb k "appId" then tg_appId t else if String.eqb k "taskId" then tg_taskId t else tg_sessionId t.

Definition targetJson (t : EventTarget) : json := JObj (flat_map (fun k => field k (JStr <$> targetField k t)) targetFields).

(** The fields a normalized target has with the value [undefined]. *)
Definition undefinedFields (t : EventTarget) : list string := filter (fun k => targetField k t = None) targetFields.

Fixpoint checkTargetFields (entries : obj json) : out unit :=
  match entries with
  | [] => mret tt
  | (k, v) :: entries =>
      _ ← demand (bool_decide (is_Some (optionalText (Some v)))) ("Event target." +:+ k +:+ " must be a non-empty string");
      checkTargetFields entries
  end.

Definition normalizeTarget (value : option json) : out (option EventTarget) :=
  match value with
  | None => mret None
  | Some (JObj o) =>
      match filter (fun k => negb (set_has k targetFields) = true) (obj_keys o) with
      | k :: _ => fails ("Event target contains unsupported field '" +:+ k +:+ "'")
      | [] =>
          _ ← checkTargetFields o;
          let text k := optionalText (obj_get k o) in
          let target := mkTarget (text "appId") (text "taskId") (text "sessionId") in
          mret (match text "appId", text "taskId", text "sessionId" with None, None, None => None | _, _, _ => Some target end)
      end
  | Some _ => fails "Event target must be an object"
  end.

Definition normalizeInput (raw : json) : out EventInput :=
  match raw with
  | JObj o =>
      match filter (fun k => negb (set_has k ["type"; "target"; "data"; "idempotencyKey"]) = true) (obj_keys o) with
      | k :: _ => fails ("Event input contains Host-owned or unsupported field '" +:+ k +:+ "'")
      | [] =>
          type ← requiredText (obj_get "type" o) "Event type";
          _ ← demand (includes type ".") ("Event type '" +:+ type +:+ "' must be namespaced");
          data ← recordOf (obj_get "data" o) "Event data";
          target ← normalizeTarget (obj_get "target" o);
          _ ← optionalTextField o "idempotencyKey" "Event idempotencyKey";
          mret (mkInput type target data (optionalText (obj_get "idempotencyKey" o)))
      end
  | _ => fails "Event input must be an object"
  end.

(** [input.target?.[field]]. *)
Definition inputTarget (field : string) (input : EventInput) : option string := ei_target input ≫= targetField field.

Definition requiredTarget (input : EventInput) (field : string) : out string :=
  requiredText (JStr <$> inputTarget field input) (ei_type input +:+ " target." +:+ field).

(** The address the envelope or, as an alias, the payload gives. *)
Definition targetValue (input : EventInput) (field : string) : out (option string) :=
  let fromTarget := optionalText (JStr <$> inputTarget field input) in
  let fromData := optionalText (obj_get field (ei_data input)) in
  match fromTarget, fromData with
  | Some t, Some d => if String.eqb t d then mret (Some t) else fails ("Event target." +:+ field +:+ " conflicts with data." +:+ field)
  | Some t, None => mret (Some t)
  | None, d => mret d
  end.

Definition dropAgentPrefix (s : string) : string :=
  if startsWith s "agent:" then String.substring 6 (String.length s - 6) s else s.

Definition ownerOfInput (input : EventInput) : string :=
  let data k := optionalText (obj_get k (ei_data input)) in
  let appId := match optionalText (JStr <$> inputTarget "appId" input) with Some a => Some a | None => data "appId" end in
  match appId with
  | Some a => "app:" +:+ a
  | None =>
      match data "agent" with
      | Some a => "agent:" +:+ dropAgentPrefix a
      | None =>
          match data "to" with
          | Some r => if String.eqb r "human" then "system:host" else "agent:" +:+ dropAgentPrefix r
          | None => "system:host"
          end
      end
  end.

(** ** Formal approvals *)

Inductive ActorKind : Type := a_human | a_operator.

Record ApprovalIngressAuthorization : Type := mkAuthorization {
  au_kind : ActorKind;
  au_id : string;
  au_reference : string;
  au_evidence : obj json }.

Definition actorKindText (k : ActorKind) : string := match k with a_human => "human" | a_operator => "operator" end.

Definition HOST_APPROVAL_VERSION : Z := 1.

Definition hostStamp (source : string) (kind : ActorKind) (id reference : string) (evidence : obj json) : json :=
  JObj [("version", JNum (num HOST_APPROVAL_VERSION)); ("ingressSource", JStr source);
        ("actor", JObj [("kind", JStr (actorKindText kind)); ("id", JStr id)]);
        ("authorization", JObj [("reference", JStr reference); ("evidence", JObj evidence)])].

(** The payload with the Host's own stamp instead of the caller's. *)
Definition stampedData (source : string) (kind : ActorKind) (id reference : string) (evidence data : obj json) : obj json :=
  rest ["provenance"; "hostApproval"] data ++ [("hostApproval", hostStamp source kind id reference evidence)].

Definition stampApproval (input : EventInput) (source : string) (authorization : ApprovalIngressAuthorization) : out EventInput :=
  id ← requiredText (Some (JStr (au_id authorization))) "approval actor id";
  reference ← requiredText (Some (JStr (au_reference authorization))) "approval authorization reference";
  let data := stampedData source (au_kind authorization) id reference (au_evidence authorization) (ei_data input) in
  _ ← demandApproval (bool_decide (is_Some (readVerifiedApprovalDecision (ei_type input) (Some source) data)))
        "Formal approval requires a valid proposal and ingress attribution";
  mret (with_data data input).

Definition approvalDecision (text : option json) : option string :=
  match text with
  | Some (JStr s) =>
      let t := toLowerCase (trim s) in
      if set_has t ["approve"; "approved"] then Some "approve"
      else if set_has t ["reject"; "rejected"] then Some "reject"
      else if set_has t ["defer"; "deferred"] then Some "defer" else None
  | _ => None
  end.

(** The reply, stamped when the channel vouches for a human's exact decision. *)
Definition stampConversationApproval (input : EventInput) (source : string) (authorization : option ApprovalIngressAuthorization)
    : out EventInput :=
  let data := ei_data input in
  if negb (truthy (obj_get "approvalReply" data)) then mret input
  else
    supplied ← recordOf (obj_get "approvalReply" data) "approvalReply";
    let reply := field "target" (obj_get "target" supplied) ++ field "proposal" (obj_get "proposal" supplied) in
    let data := obj_set "approvalReply" (JObj reply) data in
    match authorization, approvalDecision (obj_get "text" data) with
    | Some authorization, Some decision =>
        if negb (str_is (obj_get "kind" (recordOrEmpty (obj_get "author" data))) "human") || negb (truthy (obj_get "replyTo" data))
        then mret (with_data data input)
        else
          target ← recordOf (obj_get "target" reply) "approvalReply.target";
          appId ← requiredText (obj_get "appId" target) "approvalReply App";
          taskId ← requiredText (obj_get "taskId" target) "approvalReply Task";
          let address := mkTarget (Some appId) (Some taskId) None in
          match stampApproval (mkInput "project.approval.submitted" (Some address)
                  ([("decision", JStr decision)] ++ field "proposal" (obj_get "proposal" reply)) None) source authorization with
          | Done stamped =>
              mret (with_data (obj_set "approvalReply" (JObj (spread [("target", targetJson address)] (ei_data stamped))) data) input)
          | Raise ApprovalValidationError _ => mret (with_data data input)
          | Raise c e => Raise c e
          end
    | _, _ => mret (with_data data input)
    end.

(** No entry of the proposal, or of its expected answer, may disagree with the
    payload. *)
Fixpoint checkAnchor (data : obj json) (skip : string -> bool) (entries : obj json) : out unit :=
  match entries with
  | [] => mret tt
  | (k, v) :: entries =>
      _ ← demandApproval (skip k || match obj_get k data with Some w => deep_eqb w v | None => true end)
            ("project.approval.submitted data." +:+ k +:+ " conflicts with the proposal anchor");
      checkAnchor data skip entries
  end.

Definition inputFields (input : EventInput) : obj json :=
  [("type", JStr (ei_type input))] ++ field "target" (targetJson <$> ei_target input) ++ [("data", JObj (ei_data input))] ++
  field "idempotencyKey" (JStr <$> ei_idempotencyKey input).

(** [AppTaskResourceStore.activeFromDb]. *)
Definition activeStore (stores : gmap string ResourceStore.store) (appId : string) : option ResourceStore.store :=
  let normalized := dropAppSuffix (trim appId) in
  if String.eqb normalized "" then None
  else s ← stores !! normalized; if bool_decide (ResourceStore.m_authority s = Some "resources") then Some s else None.

Definition currentCondition (s : ResourceStore.store) (taskId conditionId : string) : out (option AppTaskCondition) :=
  match Context.readTaskContext s (Context.mkInput [taskId] [] [] false (Some 0)) with
  | Ok tree => mret (obj_get conditionId (TaskTree.conditions tree))
  | Throw e => fails e
  end.

(** The Condition a proposal names, when it is the current human approval. *)
Definition checkCondition (c : AppTaskCondition) (conditionId subject requestedAction : string) (generation : Z) (expected : json)
    : out unit :=
  let spec := cond_spec c in
  _ ← demandApproval ((cond_generation c =? generation) && negb (bool_decide (cond_state c = cs_true)) &&
                      String.eqb (cs_type spec) "project.approval.submitted" && isHumanActionOwner (cs_owner spec))
        ("Condition " +:+ conditionId +:+ " is not the current human approval");
  _ ← demandApproval (String.eqb (cs_subject spec) subject) ("Condition " +:+ conditionId +:+ " subject changed");
  _ ← demandApproval (bool_decide (trim <$> cs_requestedAction spec = Some requestedAction))
        ("Condition " +:+ conditionId +:+ " requested action changed");
  demandApproval (deep_eqb (cs_expected spec) expected) ("Condition " +:+ conditionId +:+ " expected contract changed").

Definition validateCurrentApproval (stores : gmap string ResourceStore.store) (input : EventInput) : out unit :=
  let at_ k := "project.approval.submitted data.proposal." +:+ k in
  let data := ei_data input in
  appId ← requiredText (JStr <$> inputTarget "appId" input) "project.approval.submitted target.appId";
  taskId ← requiredText (JStr <$> inputTarget "taskId" input) "project.approval.submitted target.taskId";
  proposal ← recordOf (obj_get "proposal" data) "project.approval.submitted data.proposal";
  taskGeneration ← positiveIntegerOf (obj_get "taskGeneration" proposal) (at_ "taskGeneration");
  conditionId ← requiredText (obj_get "conditionId" proposal) (at_ "conditionId");
  conditionGeneration ← positiveIntegerOf (obj_get "conditionGeneration" proposal) (at_ "conditionGeneration");
  requestedAction ← requiredText (obj_get "requestedAction" proposal) (at_ "requestedAction");
  subject ← requiredText (obj_get "subject" proposal) (at_ "subject");
  expected ← match obj_get "expected" proposal with
             | Some v => mret v
             | None => Raise ApprovalValidationError "project.approval.submitted data.proposal.expected is required"
             end;
  let name := appId +:+ "/" +:+ taskId in
  match activeStore stores appId ≫= (fun s => (fun v => (s, v)) <$> RecoveryIndex.readTaskForView s taskId) with
  | None => Raise ApprovalValidationError ("Task " +:+ name +:+ " was not found")
  | Some (s, (resource, phase, closed)) =>
      _ ← demandApproval (md_generation (metadata resource) =? taskGeneration) ("Task " +:+ name +:+ " generation changed");
      _ ← demandApproval (negb closed && match phase with TaskState.pending | TaskState.running | TaskState.waiting | TaskState.attention => true | _ => false end)
            ("Task " +:+ name +:+ " is not awaiting approval");
      _ ← demandApproval (set_has conditionId (default [] (st_conditionIds (status resource))))
            ("Condition " +:+ conditionId +:+ " is not current for Task " +:+ name);
      found ← currentCondition s taskId conditionId;
      match found with
      | None => Raise ApprovalValidationError ("Condition " +:+ conditionId +:+ " was not found")
      | Some c =>
          _ ← checkCondition c conditionId subject requestedAction conditionGeneration expected;
          _ ← checkAnchor data (fun k => String.eqb k "expected") proposal;
          _ ← checkAnchor data (fun _ => false) (match expected with JObj e => e | _ => [] end);
          stamp ← recordOf (obj_get "hostApproval" data) "project.approval.submitted data.hostApproval";
          let event := spread (inputFields input) (field "source" (obj_get "ingressSource" stamp)) in
          demandApproval (Conditions.matchesAppTaskCondition None (Some c) event) ("Decision is not allowed by Condition " +:+ conditionId)
      end
  end.

(** ** What may be published *)

Inductive Delivery : Type := d_record | d_required.

#[export] Instance Delivery_eq_dec : EqDecision Delivery.
Proof. solve_decision. Defined.

Inductive TaskControlAction : Type := tc_retry | tc_close | tc_cancel | tc_reopen.

Record InterfaceOptions : Type := mkInterfaceOptions {
  io_validateAppInput : string -> obj json -> out unit;
  io_hasApp : string -> bool;
  io_hasAgent : string -> bool;
  io_hasSession : string -> bool;
  io_validateSessionControl : option (string -> option string -> out unit);
  io_conversationAppId : option string;
  io_conversationAgent : option string }.

(** A check reads the Task stores for approvals only. *)
Definition Check : Type := InterfaceOptions -> gmap string ResourceStore.store -> EventInput -> out unit.

Record EventDefinition : Type := mkDefinition {
  ed_taskControl : option TaskControlAction;
  ed_addressFields : list string;
  ed_delivery : Delivery;
  ed_validate : Check }.

Definition loadedApp (o : InterfaceOptions) (appId : string) : out unit := demand (io_hasApp o appId) ("App " +:+ appId +:+ " is not loaded").
Definition knownSession (o : InterfaceOptions) (sessionId : string) : out unit :=
  demand (io_hasSession o sessionId) ("Session " +:+ sessionId +:+ " does not exist").
Definition ownsSession (o : InterfaceOptions) (type : string) (sessionId : option string) : out unit :=
  match io_validateSessionControl o with Some check => check type sessionId | None => mret tt end.

Definition validateOptionalReason (input : EventInput) : out unit :=
  optionalTextField (ei_data input) "reason" (ei_type input +:+ " data.reason").

Definition validateTaskControl (requiresReason : bool) : Check := fun o _ input =>
  let at_ k := ei_type input +:+ " data." +:+ k in
  appId ← requiredTarget input "appId";
  _ ← requiredTarget input "taskId";
  _ ← loadedApp o appId;
  _ ← requiredText (JStr <$> ei_idempotencyKey input) (ei_type input +:+ " idempotencyKey");
  _ ← demand (isPositiveInteger (obj_get "expectedGeneration" (ei_data input))) (at_ "expectedGeneration" +:+ " must be a positive integer");
  _ ← demand (isPositiveInteger (obj_get "expectedResourceVersion" (ei_data input)))
        (at_ "expectedResourceVersion" +:+ " must be a positive integer");
  if requiresReason then _ ← requiredText (obj_get "reason" (ei_data input)) (at_ "reason"); mret tt else mret tt.

Definition isTaskRef (v : json) : bool :=
  match v with
  | JObj o => bool_decide (is_Some (optionalText (obj_get "appId" o))) && bool_decide (is_Some (optionalText (obj_get "taskId" o)))
  | _ => false
  end.

Definition validTaskRefs (v : option json) : bool :=
  match v with Some (JArr l) => Nat.leb (length l) 100 && forallb isTaskRef l | Some _ => false | None => true end.

Fixpoint optionalTextFields (value : obj json) (path : string) (keys : list string) : out unit :=
  match keys with
  | [] => mret tt
  | k :: keys => _ ← optionalTextField value k (path +:+ k); optionalTextFields value path keys
  end.

Definition validateMetadata (metadata : obj json) : out unit :=
  let path := "conversation.message.created data.metadata." in
  _ ← optionalTextFields metadata path ["channel"; "channelTargetId"; "channelThreadId"];
  _ ← demand (match obj_get "channelMessageId" metadata with Some v => isPositiveInteger (Some v) | None => true end)
        (path +:+ "channelMessageId must be a positive integer");
  _ ← optionalTextFields metadata path ["requestId"; "command"; "topicId"];
  _ ← match obj_get "followTask" metadata with
      | Some v =>
          followTask ← recordOf (Some v) (path +:+ "followTask");
          _ ← requiredText (obj_get "appId" followTask) (path +:+ "followTask.appId");
          _ ← requiredText (obj_get "taskId" followTask) (path +:+ "followTask.taskId"); mret tt
      | None => mret tt
      end;
  demand (validTaskRefs (obj_get "taskRefs" metadata))
    (path +:+ "taskRefs must be an array of at most 100 canonical Task identities").

Definition validateMessage : Check := fun o _ input =>
  let data := ei_data input in
  let path := "conversation.message.created data." in
  appId ← requiredTarget input "appId";
  _ ← loadedApp o appId;
  _ ← requiredText (obj_get "conversationId" data) (path +:+ "conversationId");
  _ ← optionalTextField data "messageId" (path +:+ "messageId");
  _ ← requiredText (obj_get "text" data) (path +:+ "text");
  author ← recordOf (obj_get "author" data) (path +:+ "author");
  kind ← requiredText (obj_get "kind" author) (path +:+ "author.kind");
  _ ← demand (set_has kind ["human"; "agent"; "tool"; "command"]) (path +:+ "author.kind is invalid");
  _ ← requiredText (obj_get "id" author) (path +:+ "author.id");
  _ ← demand (match obj_get "transient" data with Some (JBool _) | None => true | Some _ => false end) (path +:+ "transient must be boolean");
  _ ← optionalTextField data "replyTo" (path +:+ "replyTo");
  _ ← match obj_get "context" data with Some v => _ ← recordOf (Some v) (path +:+ "context"); mret tt | None => mret tt end;
  match obj_get "metadata" data with
  | Some v => metadata ← recordOf (Some v) (path +:+ "metadata"); validateMetadata metadata
  | None => mret tt
  end.

Definition validateAppInputRequest : Check := fun o _ input =>
  appId ← requiredTarget input "appId";
  _ ← optionalTextField (ei_data input) "targetTaskId" "app.input.requested data.targetTaskId";
  _ ← match readEventTaskTarget (inputFields input) with Ok _ => mret tt | Throw e => fails e end;
  appInput ← recordOf (obj_get "input" (ei_data input)) "app.input.requested data.input";
  _ ← loadedApp o appId;
  io_validateAppInput o appId appInput.

Definition validateStop : Check := fun o _ input =>
  appId ← requiredTarget input "appId";
  _ ← loadedApp o appId;
  _ ← requiredText (obj_get "conversationId" (ei_data input)) "conversationId";
  _ ← requiredText (obj_get "turnId" (ei_data input)) "turnId";
  demand (isPositiveInteger (obj_get "expectedRevision" (ei_data input))) "expectedRevision must be a positive integer".

Definition validateReopen : Check := fun o st input =>
  _ ← validateTaskControl true o st input;
  match obj_get "input" (ei_data input) with
  | Some v =>
      appInput ← recordOf (Some v) "app.task.reopen.requested data.input";
      appId ← requiredTarget input "appId";
      io_validateAppInput o appId appInput
  | None => mret tt
  end.

Definition validateClose : Check := fun o st input =>
  _ ← validateTaskControl true o st input;
  _ ← requiredText (obj_get "afterResult" (ei_data input)) "app.task.close.requested data.afterResult"; mret tt.

Definition validateChatStart : Check := fun o _ input =>
  _ ← demand (bool_decide (nonempty (JStr <$> inputTarget "appId" input) = None)) "App input must use app.input.requested";
  agent ← match optionalText (obj_get "agent" (ei_data input)) with
          | Some a => mret a | None => fails "chat.start.requested requires data.agent" end;
  _ ← (if bool_decide (Some agent = io_conversationAgent o) then
         _ ← demand (bool_decide (is_Some (Prelude.nonempty (io_conversationAppId o)))) "No Conversation App is configured";
         fails (agent +:+ " input must use app.input.requested")
       else mret tt);
  _ ← demand (io_hasAgent o agent) ("Agent " +:+ agent +:+ " is not loaded");
  _ ← requiredText (obj_get "message" (ei_data input)) "chat.start.requested data.message"; mret tt.

Definition validateSteer : Check := fun o _ input =>
  sessionId ← requiredTarget input "sessionId";
  _ ← requiredText (obj_get "message" (ei_data input)) "session.steer.requested data.message";
  _ ← knownSession o sessionId;
  ownsSession o (ei_type input) (Some sessionId).

Definition validateCancel : Check := fun o _ input =>
  sessionId ← requiredTarget input "sessionId";
  _ ← optionalTextField (ei_data input) "reason" "session.cancel.requested data.reason";
  _ ← knownSession o sessionId;
  ownsSession o (ei_type input) (Some sessionId).

Definition validateCancelAll : Check := fun o _ input => _ ← validateOptionalReason input; ownsSession o (ei_type input) None.

(** [/^[0-9a-f]{40}$/]. *)
Definition isCommit (s : string) : bool :=
  Nat.eqb (String.length s) 40 &&
  forallb (fun c => ((48 <=? chr c) && (chr c <=? 57)) || ((97 <=? chr c) && (chr c <=? 102))) (chars s).

Definition validateReload : Check := fun _ _ input =>
  _ ← validateOptionalReason input;
  demand (match obj_get "expectedSourceCommit" (ei_data input) with Some (JStr s) => isCommit s | Some _ => false | None => true end)
    "runtime.reload.requested data.expectedSourceCommit must be a 40-character lowercase Git commit".

Definition validateEvaluation : Check := fun o _ input =>
  appId ← requiredTarget input "appId";
  sessionId ← requiredTarget input "sessionId";
  _ ← loadedApp o appId;
  _ ← knownSession o sessionId;
  _ ← requiredText (obj_get "source" (ei_data input)) "evaluation.session.requested data.source";
  _ ← requiredText (obj_get "instructions" (ei_data input)) "evaluation.session.requested data.instructions"; mret tt.

Definition validateThreshold : Check := fun _ _ input =>
  _ ← requiredText (obj_get "metricId" (ei_data input)) "metric.threshold_changed data.metricId";
  _ ← demand (bool_decide (is_Some (finiteNumber (obj_get "to" (ei_data input))))) "metric.threshold_changed data.to must be a finite number";
  demand (match obj_get "from" (ei_data input) with
          | None | Some JNull => true | v => bool_decide (is_Some (finiteNumber v)) end)
    "metric.threshold_changed data.from must be a finite number or null".

Definition validateAlert : Check := fun _ _ input =>
  _ ← requiredText (obj_get "metricId" (ei_data input)) "metric.alert_resolved data.metricId";
  _ ← demand (isPositiveInteger (obj_get "alertId" (ei_data input))) "metric.alert_resolved data.alertId must be a positive integer";
  match obj_get "reason" (ei_data input) with
  | None | Some JNull => mret tt
  | Some _ => optionalTextField (ei_data input) "reason" "metric.alert_resolved data.reason"
  end.

Definition validateOwnerRequest : Check := fun _ _ input =>
  let given k := bool_decide (is_Some (optionalText (obj_get k (ei_data input)))) in
  _ ← requiredText (obj_get "reason" (ei_data input)) "project.owner.requested data.reason";
  demand (bool_decide (is_Some (optionalText (JStr <$> inputTarget "appId" input))) || given "project" || given "projectId" ||
          given "projectPath") "project.owner.requested requires a project target".

Definition validateApproval : Check := fun _ st input =>
  _ ← requiredText (obj_get "decision" (ei_data input)) "project.approval.submitted data.decision";
  validateCurrentApproval st input.

Definition validateComment : Check := fun _ _ input =>
  _ ← requiredText (obj_get "projectPath" (ei_data input)) "project.comment.created data.projectPath";
  _ ← requiredText (obj_get "comment" (ei_data input)) "project.comment.created data.comment";
  optionalTextField (ei_data input) "author" "project.comment.created data.author".

Definition EVENT_DEFINITIONS : list (string * EventDefinition) :=
  [("conversation.message.created", mkDefinition None ["appId"] d_required validateMessage);
   ("app.input.requested", mkDefinition None ["appId"; "taskId"] d_required validateAppInputRequest);
   ("app.task.retry.requested", mkDefinition (Some tc_retry) ["appId"; "taskId"] d_required (validateTaskControl false));
   ("conversation.turn.stop.requested", mkDefinition None ["appId"] d_required validateStop);
   ("app.task.cancel.requested", mkDefinition (Some tc_cancel) ["appId"; "taskId"] d_required (validateTaskControl true));
   ("app.task.reopen.requested", mkDefinition (Some tc_reopen) ["appId"; "taskId"] d_required validateReopen);
   ("app.task.close.requested", mkDefinition (Some tc_close) ["appId"; "taskId"] d_required validateClose);
   ("chat.start.requested", mkDefinition None [] d_required validateChatStart);
   ("session.steer.requested", mkDefinition None ["sessionId"] d_required validateSteer);
   ("session.cancel.requested", mkDefinition None ["sessionId"] d_required validateCancel);
   ("session.cancel_all.requested", mkDefinition None [] d_required validateCancelAll);
   ("runtime.reload.requested", mkDefinition None [] d_required validateReload);
   ("runtime.restart.requested", mkDefinition None [] d_required (fun _ _ => validateOptionalReason));
   ("runtime.shutdown.requested", mkDefinition None [] d_required (fun _ _ => validateOptionalReason));
   ("evaluation.session.requested", mkDefinition None ["appId"; "sessionId"] d_record validateEvaluation);
   ("metric.threshold_changed", mkDefinition None [] d_record validateThreshold);
   ("metric.alert_resolved", mkDefinition None [] d_record validateAlert);
   ("project.owner.requested", mkDefinition None [] d_record validateOwnerRequest);
   ("project.approval.submitted", mkDefinition None ["appId"; "taskId"] d_record validateApproval);
   ("project.comment.created", mkDefinition None [] d_record validateComment)].

Definition definitionOf (type : string) : option EventDefinition :=
  snd <$> List.find (fun e => String.eqb e.1 type) EVENT_DEFINITIONS.

Definition eventDeliveryContract (type : string) : Delivery := match definitionOf type with Some d => ed_delivery d | None => d_record end.
Definition taskControlAction (type : string) : option TaskControlAction := definitionOf type ≫= ed_taskControl.
Definition PUBLIC_EVENT_TYPES : list string := map fst EVENT_DEFINITIONS.

(** ** The event that is published *)

Record EventPublisherContext : Type := mkContext {
  pc_source : string;
  pc_inputSource : option InboxStore.AppInputSource;
  pc_allowUnregisteredFact : bool;
  pc_approvalAuthorization : option ApprovalIngressAuthorization }.

Fixpoint addressOf (input : EventInput) (fields : list string) : out (obj json) :=
  match fields with
  | [] => mret []
  | k :: fields =>
      value ← targetValue input k;
      others ← addressOf input fields;
      mret (field k (JStr <$> value) ++ others)
  end.

Definition sourceJson (source : string) (s : option InboxStore.AppInputSource) : json :=
  match s with
  | Some s => JObj [("kind", JStr (InboxStore.src_kind s)); ("id", JStr (InboxStore.src_id s))]
  | None => JObj [("kind", JStr "system"); ("id", JStr source)]
  end.

Definition canonicalData (input : EventInput) (address : obj json) (source : string) (inputSource : option InboxStore.AppInputSource)
    : obj json :=
  let data := spread (spread (ei_data input) address) (field "idempotencyKey" (JStr <$> ei_idempotencyKey input)) in
  if String.eqb (ei_type input) "app.input.requested" then obj_set "source" (sourceJson source inputSource) data else data.

Definition interfaceEvent (input : EventInput) (source : string) (data : obj json) : AgentEvent :=
  mkEvent ([("type", JStr (ei_type input)); ("source", JStr source); ("owner", JStr (ownerOfInput input))] ++
           field "target" (targetJson <$> ei_target input) ++ [("data", JObj data)])
    None (Some source) true false (match ei_target input with Some t => undefinedFields t | None => [] end) None false false false None.

Definition canonicalEvent (input : EventInput) (context : EventPublisherContext) : out AgentEvent :=
  source ← requiredText (Some (JStr (pc_source context))) "Event source";
  address ← addressOf input (match definitionOf (ei_type input) with Some d => ed_addressFields d | None => [] end);
  mret (interfaceEvent input source (canonicalData input address source (pc_inputSource context))).

Definition publicationInput (raw : json) (context : EventPublisherContext) : out EventInput :=
  input ← normalizeInput raw;
  if String.eqb (ei_type input) "conversation.message.created"
  then stampConversationApproval input (pc_source context) (pc_approvalAuthorization context)
  else if negb (String.eqb (ei_type input) "project.approval.submitted") then mret input
  else
    _ ← requiredText (obj_get "decision" (ei_data input)) "project.approval.submitted data.decision";
    match pc_approvalAuthorization context with
    | None => fails "Formal approval requires trusted ingress authorization"
    | Some authorization =>
        source ← requiredText (Some (JStr (pc_source context))) "Event source";
        stampApproval input source authorization
    end.

Definition findEventPublication `{Crypto} (l : Log) (raw : json) (context : EventPublisherContext) : out (option Z) :=
  input ← publicationInput raw context;
  event ← canonicalEvent input context;
  mret (findPersistedEventId l event).

(** ** Views *)

Record PublicEvent : Type := mkPublic {
  pe_id : option Z;
  pe_type : string;
  pe_source : option string;
  pe_owner : option string;
  pe_target : option EventTarget;
  pe_data : obj json;
  pe_timestamp : option number }.

(** Only the public address of a target, which is well formed by construction. *)
Definition publicTarget (v : option json) : option EventTarget :=
  match v with
  | Some (JObj t) =>
      let text k := optionalText (obj_get k t) in
      match text "appId", text "taskId", text "sessionId" with
      | None, None, None => None
      | a, t, s => Some (mkTarget a t s)
      end
  | _ => None
  end.

Definition publicEvent (event : AgentEvent) : PublicEvent :=
  let envelope := ev_fields event in
  mkPublic
    (match ev_rowId event with Some id => if isSafeInteger (num id) && (0 <? id) then Some id else None | None => None end)
    (eventType event) (optionalText (obj_get "source" envelope)) (optionalText (obj_get "owner" envelope))
    (publicTarget (obj_get "target" envelope))
    (match obj_get "data" envelope with
     | Some (JObj d) => d
     | _ => rest ["type"; "source"; "owner"; "target"; "timestamp"; "trace"] envelope
     end)
    (finiteNumber (obj_get "timestamp" envelope)).

Inductive LinkKind : Type := l_request | l_task | l_session | l_delivery | l_operation.

#[export] Instance LinkKind_eq_dec : EqDecision LinkKind.
Proof. solve_decision. Defined.

Record EventLink : Type := mkEventLink {
  el_kind : LinkKind;
  el_id : string;
  el_state : option string;
  el_summary : option string }.

(** The part of the database a view reads; [app_admission_error] is written by the
    composition. *)
Record Host : Type := mkHost {
  ho_hub : Hub;
  ho_admissions : EventAdmission.Journal;
  ho_inbox : gmap string InboxStore.InboxRow;
  ho_admissionErrors : gmap Z string }.

Definition addEventLink (links : list EventLink) (link : EventLink) : list EventLink :=
  if existsb (fun current => bool_decide (el_kind current = el_kind link) && String.eqb (el_id current) (el_id link)) links
  then links else links ++ [link].

Definition childOf (l : Log) (parent id : Z) : bool :=
  match traces l !! id with Some t => bool_decide (tw_parent_event_id t = Some parent) | None => false end.

Definition reloadLink (l : Log) (eventId : Z) : list EventLink :=
  match head (newest (fun id e => childOf l eventId id && String.eqb (ec_event_type (se_columns e)) "runtime.reload.finished") l) with
  | Some (id, e) =>
      let result := ec_data (se_columns e) in
      [mkEventLink l_operation ("event:" +:+ show_Z id)
         (Some (match obj_get "ok" result with Some (JBool true) => "succeeded" | _ => "failed" end))
         (optionalText (obj_get "summary" result))]
  | None => []
  end.

Definition inboxStatusText (s : InboxStore.AppInboxStatus) : string :=
  match s with InboxStore.i_pending => "pending" | InboxStore.i_handling => "handling" | InboxStore.i_done => "done" end.

(** The inbox row of an event, or else of its key. *)
Definition requestLink (h : Host) (appId : string) (eventId : Z) (key : string) : option EventLink :=
  let rows := InboxStore.select (fun r => String.eqb (InboxStore.c_app_id (InboxStore.ident r)) appId) (ho_inbox h) in
  let ofEvent r := bool_decide (InboxStore.c_origin_event_id (InboxStore.state r) = Some eventId) in
  let ofKey r := bool_decide (InboxStore.c_idempotency_key (InboxStore.ident r) = Some key) in
  row ← match List.find ofEvent rows with Some r => Some r | None => List.find ofKey rows end;
  Some (mkEventLink l_request (InboxStore.c_id (InboxStore.ident row))
          (Some (inboxStatusText (InboxStore.c_status (InboxStore.state row)))) None).

Definition sessionLink (h : Host) (sessionId : string) : option EventLink :=
  row ← sessions (tables (ho_hub h)) !! sessionId; Some (mkEventLink l_session sessionId (Some (sr_status row)) None).

(** The session a child event of type [session.start] names; the oldest comes first. *)
Definition startedSession (h : Host) (eventId : Z) : option EventLink :=
  let l := log (ho_hub h) in
  let known e := co_sessionId (ec_correlation (se_columns e)) ≫= sessionLink h in
  found ← last (newest (fun id e => childOf l eventId id && String.eqb (ec_event_type (se_columns e)) "session.start" &&
                                    bool_decide (is_Some (known e))) l);
  known found.2.

Definition commandStatusText (s : EventAdmission.CommandStatus) : string :=
  match s with
  | EventAdmission.cmd_pending => "pending" | EventAdmission.cmd_admitted => "admitted" | EventAdmission.cmd_superseded => "superseded"
  end.

Definition routeTasks (route : EventAdmission.AppEventAdmissionRoute) : list string :=
  set_of (EventAdmission.rt_conditionTaskIds route ++
    match EventAdmission.rt_body route with
    | EventAdmission.r_task (Some intent) => [String_of (obj_get "id" intent)]
    | EventAdmission.exact_task t => [t]
    | _ => []
    end).

Definition routeLinks (h : Host) (eventId : Z) (links : list EventLink) (c : EventAdmission.AppEventAdmissionCommand) : list EventLink :=
  let route := EventAdmission.cm_route c in
  let appId := EventAdmission.rt_appId route in
  let state := Some (commandStatusText (EventAdmission.cm_status c)) in
  let error := Prelude.nonempty (EventAdmission.cm_lastError c) in
  let links := fold_left (fun links t => addEventLink links (mkEventLink l_task (appId +:+ "/" +:+ t) state error)) (routeTasks route) links in
  let delivery summary := addEventLink links (mkEventLink l_delivery ("app-event:" +:+ show_Z eventId +:+ ":" +:+ appId) state
                            (Some (default summary (EventAdmission.cm_lastError c)))) in
  let pending := "App " +:+ appId +:+ " admission is pending" in
  match EventAdmission.rt_body route with
  | EventAdmission.r_inbox _ =>
      match requestLink h appId eventId ("subscription:" +:+ appId +:+ ":" +:+ EventAdmission.rt_routeId route +:+ ":event:" +:+ show_Z eventId) with
      | Some link => addEventLink links link
      | None => delivery pending
      end
  | EventAdmission.noop => delivery "App selected no work"
  | EventAdmission.unresolved _ _ => delivery pending
  | EventAdmission.r_task _ | EventAdmission.exact_task _ => links
  end.

Definition linksForEvent (h : Host) (eventId : Z) (eventType : string) (data : obj json) : out (list EventLink) :=
  let add links found := match found with Some link => addEventLink links link | None => links end in
  let key := default ("event:" +:+ show_Z eventId) (optionalText (obj_get "idempotencyKey" data)) in
  let fromHuman := str_is (obj_get "kind" (recordOrEmpty (obj_get "author" data))) "human" in
  let links := if String.eqb eventType "runtime.reload.requested" then reloadLink (log (ho_hub h)) eventId else [] in
  let links := match optionalText (obj_get "appId" data) with
               | Some appId =>
                   if String.eqb eventType "app.input.requested" || (String.eqb eventType "conversation.message.created" && fromHuman)
                   then add links (requestLink h appId eventId key) else links
               | None => links
               end in
  let links := add links (optionalText (obj_get "sessionId" data) ≫= sessionLink h) in
  let links := add links (startedSession h eventId) in
  match EventAdmission.getAppEventAdmissionPlan (ho_admissions h) eventId with
  | Ok plan => mret (fold_left (routeLinks h eventId) (match plan with Some p => EventAdmission.pl_commands p | None => [] end) links)
  | Throw e => fails e
  end.

Inductive DeliveryState : Type := v_recorded | v_accepted | v_unhandled | v_failed.

#[export] Instance DeliveryState_eq_dec : EqDecision DeliveryState.
Proof. solve_decision. Defined.

Record EventView : Type := mkView {
  vw_event : PublicEvent;
  vw_state : DeliveryState;
  vw_acceptedBy : option string;
  vw_note : option string;
  vw_links : list EventLink }.

Definition viewState (required : bool) (status : DeliveryStatus) : DeliveryState :=
  match status with
  | ds_unhandled => v_unhandled
  | ds_accepted => if required then v_accepted else v_recorded
  | ds_pending => v_recorded
  end.

Definition storedText (v : option string) : option string := optionalText (JStr <$> v).

Definition getEventView (h : Host) (eventId : Z) : out (option EventView) :=
  if negb (isSafeInteger (num eventId)) || (eventId <=? 0) then fails "eventId must be a positive integer"
  else
    match rows (log (ho_hub h)) !! eventId with
    | None => mret None
    | Some row =>
        let c := se_columns row in
        let r := se_receipt row in
        metadata ← match TaskEmissions.readPersistedEventEnvelope (ec_envelope_json c) (ec_event_type c) with
                   | Ok e => mret e | Throw e => fails e end;
        links ← linksForEvent h eventId (ec_event_type c) (ec_data c);
        let required := bool_decide (eventDeliveryContract (ec_event_type c) = d_required) in
        let state := viewState required (rc_delivery_status r) in
        let shown := publicEvent (newEvent (spread metadata [("data", JObj (ec_data c))])) in
        mret (Some (mkView
          (mkPublic (Some eventId) (pe_type shown) (pe_source shown) (pe_owner shown) (pe_target shown) (pe_data shown)
             (finiteNumber (obj_get "timestamp" metadata)))
          state (if required then storedText (rc_accepted_by r) else None)
          (if required || bool_decide (state = v_unhandled) || bool_decide (state = v_failed) then storedText (rc_delivery_note r) else None)
          (links ++ match storedText (ho_admissionErrors h !! eventId) with
                    | Some e => [mkEventLink l_delivery ("app-admission:" +:+ show_Z eventId) (Some "failed") (Some e)]
                    | None => []
                    end)))
    end.

(** ** Publication *)

Inductive ApprovalReceipt : Type :=
| ap_saved (decision : string) (eventId : Z)
| ap_reason (reason : string).

Record EventReceipt : Type := mkEventReceipt {
  er_eventId : Z;
  er_eventType : string;
  er_accepted : bool;
  er_links : list EventLink;
  er_approval : option ApprovalReceipt }.

Definition unauthorizedReply : string := "No valid, authorized proposal reply was supplied. Your text remains conversation.".

(** [!data.approvalReply || !approvalDecision(data.text)]. *)
Definition approvalReplyOf (data : obj json) : option (obj json) :=
  if truthy (obj_get "approvalReply" data) && bool_decide (is_Some (approvalDecision (obj_get "text" data)))
  then Some (recordOrEmpty (obj_get "approvalReply" data)) else None.

Definition conversationApprovalReceipt (l : Log) (eventId : Z) (source : string) (data : obj json) : option ApprovalReceipt :=
  reply ← approvalReplyOf data;
  Some (if negb (truthy (obj_get "hostApproval" reply)) then ap_reason unauthorizedReply
        else match head (filter (fun e => let c := se_columns e.2 in
                 String.eqb (ec_event_type c) "project.approval.submitted" && bool_decide (ec_source c = Some source) &&
                 bool_decide (ec_idempotency_key c = Some ("input-approval:" +:+ show_Z eventId)) = true) (map_to_list (rows l))) with
             | Some (id, e) => ap_saved (String_of (obj_get "decision" (ec_data (se_columns e)))) id
             | None => ap_reason "No approval recorded. Read the current proposal or discuss it with May."
             end).

Section Publication.
Context `{Crypto} {S : Type} (hostOf : S -> Host) (emit : AgentEvent -> E S AgentEvent) (options : InterfaceOptions).

Definition storesOf (s : S) : gmap string ResourceStore.store := stores (ho_hub (hostOf s)).
Definition logOf (s : S) : Log := log (ho_hub (hostOf s)).

Definition record_only (event : AgentEvent) : AgentEvent :=
  with_retry (ev_deduplicated event) true (ev_redelivery event) (ev_appRedelivery event) event.

(** A recorded decision keeps its receipt after the Condition changed. *)
Definition validated (definition : option EventDefinition) (input : EventInput) (event : AgentEvent) (s : S) : out unit :=
  if String.eqb (ei_type input) "project.approval.submitted" && bool_decide (is_Some (findPersistedEventId (logOf s) event)) then mret tt
  else match definition with Some d => ed_validate d options (storesOf s) input | None => mret tt end.

Definition durableId (emitted : AgentEvent) : option Z :=
  id ← ev_rowId emitted; if isSafeInteger (num id) && (0 <? id) then Some id else None.

Definition receiptOfView (input : EventInput) (context : EventPublisherContext) (eventId : Z) (view : EventView) (s : S) : EventReceipt :=
  let accepted := bool_decide (vw_state view = v_accepted) in
  mkEventReceipt eventId (ei_type input) accepted (vw_links view)
    (if String.eqb (ei_type input) "conversation.message.created" && accepted
     then conversationApprovalReceipt (logOf s) eventId (pc_source context) (ei_data input) else None).

(** A pure step that may throw. *)
Definition pure {A} (o : S -> out A) : E S A := fun s => (o s, s).

Definition publish (raw : json) (context : EventPublisherContext) : E S EventReceipt :=
  input ← pure (fun _ => publicationInput raw context);
  let definition := definitionOf (ei_type input) in
  _ ← pure (fun _ => demand (bool_decide (is_Some definition) || pc_allowUnregisteredFact context)
              ("Event type '" +:+ ei_type input +:+ "' is not admitted by this interface"));
  _ ← pure (fun _ => demand (negb (String.eqb (ei_type input) "app.task.reopen.requested" &&
                                   negb (String.eqb (pc_source context) "control-socket")))
              "Task reopening requires explicit operator control");
  event ← pure (fun _ => canonicalEvent input context);
  _ ← pure (validated definition input event);
  emitted ← emit (if bool_decide (ed_delivery <$> definition = Some d_required) then event else record_only event);
  match durableId emitted with
  | None => throw ("Event " +:+ ei_type input +:+ " was not durably persisted")
  | Some eventId =>
      view ← pure (fun s => getEventView (hostOf s) eventId);
      match view with
      | None => throw ("Persisted event " +:+ show_Z eventId +:+ " is unavailable")
      | Some view => reads (receiptOfView input context eventId view)
      end
  end.

(** A row id that is truthy. *)
Definition savedId (event : AgentEvent) : option Z := id ← ev_rowId event; if id =? 0 then None else Some id.

(** A target that was saved with a reply has no field that is [undefined]. *)
Definition savedTarget (e : AgentEvent) : AgentEvent :=
  mkEvent (ev_fields e) (ev_fence e) (ev_ingressSource e) (ev_interfaceInput e) (ev_recordOnly e) [] (ev_rowId e) (ev_deduplicated e)
    (ev_redelivery e) (ev_appRedelivery e) (ev_delivery e).

(** The decision of a saved reply, as an event of its own; the target is the one
    [stampConversationApproval] stored. *)
Definition deliverConversationApproval (event : AgentEvent) : E S (option ApprovalReceipt) :=
  let data := eventData event in
  match approvalReplyOf data with
  | None => mret None
  | Some reply =>
      if negb (truthy (obj_get "hostApproval" reply)) then mret (Some (ap_reason unauthorizedReply))
      else
        let decision := rest ["target"] reply in
        let target := publicTarget (obj_get "target" reply) in
        source ← pure (fun _ => requiredText (obj_get "source" (ev_fields event)) "Saved input source");
        _ ← pure (fun _ => demand (bool_decide (is_Some (readVerifiedApprovalDecision "project.approval.submitted" (Some source) decision)))
                             "Saved input has invalid approval attribution");
        match savedId event with
        | None => throw "Approval reply must be saved before delivery"
        | Some originalEventId =>
            let bound := mkInput "project.approval.submitted" target (obj_set "inputEventId" (JNum (num originalEventId)) decision)
                           (Some ("input-approval:" +:+ show_Z originalEventId)) in
            canonical ← pure (fun _ => canonicalEvent bound (mkContext source None false None));
            let canonical := savedTarget canonical in
            prior ← reads (fun s => findPersistedEventId (logOf s) canonical);
            valid ← (fun s => match prior with
                              | Some _ => (Done None, s)
                              | None => match validateCurrentApproval (storesOf s) bound with
                                        | Done _ => (Done None, s)
                                        | Raise ApprovalValidationError e => (Done (Some e), s)
                                        | Raise c e => (Raise c e, s)
                                        end
                              end) : E S (option string);
            match valid with
            | Some e => mret (Some (ap_reason (e +:+ ". No approval was recorded; your text remains conversation.")))
            | None =>
                emitted ← emit (record_only canonical);
                match savedId emitted with
                | None => throw "Approval decision was not durably saved"
                | Some id => mret (Some (ap_saved (String_of (obj_get "decision" decision)) id))
                end
            end
        end
  end.

(** Which events a subscriber of the interface is shown. *)
Definition shows (sessionIds : list string) (event : AgentEvent) : bool :=
  match sessionIds with
  | [] => true
  | _ => match obj_get "sessionId" (eventData event) with Some (JStr s) => set_has s sessionIds | _ => false end
  end.

End Publication.

End EventInterface.
