(* ===== verification/InterfaceLaws.v ===== *)
(** Publication through the event interface: a formal approval carries the
    authority of the Host's own ingress and answers a Condition that waits for it,
    and a publication with a key is confirmed by the id of its receipt. *)
From S2P Require Import Prelude Json TaskState TaskTree Transaction ResourceStore RecoveryIndex Approval Conditions Records.
From S2P Require Import TaskEvents Effects EventEnvelope EventLog EventTraces EventProjections EventJournal EventBus TaskEmissions.
From S2P Require Import EventAdmission InboxStore JournalLaws EmissionLaws BusLaws EventInterface.

Module InterfaceLaws.
Import Approval Effects TaskEvents EventEnvelope EventLog EventProjections EventJournal EventBus JournalLaws EventInterface.

(** ** Steps that may throw *)

Lemma bound_done {A B} (f : A -> out B) (o : out A) b : o ≫= f = Done b -> exists a, o = Done a /\ f a = Done b.
Proof. destruct o as [a|c e]; [by exists a|done]. Qed.

Lemma demand_done ok message u : demand ok message = Done u -> ok = true.
Proof. unfold demand. by destruct ok. Qed.

Lemma demandApproval_done ok message u : demandApproval ok message = Done u -> ok = true.
Proof. unfold demandApproval. by destruct ok. Qed.

Lemma requiredText_done v at_ t : requiredText v at_ = Done t -> optionalText v = Some t.
Proof. unfold requiredText. destruct (optionalText v); [by intros [= ->]|done]. Qed.

Lemma recordOf_done v at_ o : recordOf v at_ = Done o -> v = Some (JObj o).
Proof. unfold recordOf. destruct v as [[]|]; try done. by intros [= ->]. Qed.

Lemma pure_bind {S A B} (o : S -> out A) (f : A -> E S B) s :
  (pure o ≫= f) s = match o s with Done a => f a s | Raise c e => (Raise c e, s) end.
Proof. unfold pure, mbind, E_bind. by destruct (o s). Qed.

(** ** The event that is published *)

Lemma set_get_ne {V} k j (v : V) o : k <> j -> obj_get k (obj_set j v o) = obj_get k o.
Proof. intros. by rewrite obj_get_set_ne. Qed.

Lemma spread_other {V} k (a b : obj V) : k ∉ obj_keys b -> obj_get k (spread a b) = obj_get k a.
Proof.
  revert a. induction b as [|[j v] b IH]; intros a Hk; [done|]. apply not_elem_of_cons in Hk as [Hj Hk].
  unfold spread in *. cbn. by rewrite IH, set_get_ne.
Qed.

Lemma field_keys k v : obj_keys (field k v) ⊆ [k].
Proof. destruct v; cbn; set_solver. Qed.

Lemma address_keys input fields address : addressOf input fields = Done address -> obj_keys address ⊆ fields.
Proof.
  revert address. induction fields as [|k fields IH]; intros address; [by intros [= <-]|]. cbn [addressOf].
  intros (v & Hv & (others & Ho & [= <-])%bound_done)%bound_done. unfold obj_keys. rewrite map_app.
  pose proof (field_keys k (JStr <$> v)). specialize (IH _ Ho). unfold obj_keys in *. set_solver.
Qed.

Lemma definition_known type d : definitionOf type = Some d -> (type, d) ∈ EVENT_DEFINITIONS.
Proof.
  unfold definitionOf. intros ((t & d') & Hf & ->)%fmap_Some. apply List.find_some in Hf as [Hin Ht%String.eqb_eq]. cbn in Ht. subst t.
  by apply list_elem_of_In.
Qed.

Lemma canonical_done input context event : canonicalEvent input context = Done event -> exists source address,
  optionalText (Some (JStr (pc_source context))) = Some source /\
  addressOf input (match definitionOf (ei_type input) with Some d => ed_addressFields d | None => [] end) = Done address /\
  event = interfaceEvent input source (canonicalData input address source (pc_inputSource context)).
Proof.
  unfold canonicalEvent. intros (source & Hs%requiredText_done & (address & Ha & [= <-])%bound_done)%bound_done. by exists source, address.
Qed.

Lemma interface_fields input source data : let f := ev_fields (interfaceEvent input source data) in
  obj_get "type" f = Some (JStr (ei_type input)) /\ obj_get "source" f = Some (JStr source) /\
  obj_get "owner" f = Some (JStr (ownerOfInput input)) /\ obj_get "target" f = targetJson <$> ei_target input /\
  obj_get "data" f = Some (JObj data).
Proof. unfold interfaceEvent. cbn [ev_fields]. by destruct (ei_target input). Qed.

Lemma interface_data input source data : eventData (interfaceEvent input source data) = data.
Proof. destruct (interface_fields input source data) as (_ & _ & _ & _ & Hd). unfold eventData. by rewrite Hd. Qed.

(** The envelope adds the address, the key and the source, and keeps the rest. *)
Lemma canonical_other input address source inputSource fields k :
  addressOf input fields = Done address -> k ∉ "source" :: "idempotencyKey" :: fields ->
  obj_get k (canonicalData input address source inputSource) = obj_get k (ei_data input).
Proof.
  intros Ha%address_keys Hk. apply not_elem_of_cons in Hk as [Hs Hk]. apply not_elem_of_cons in Hk as [Hi Hk].
  assert (obj_get k (spread (spread (ei_data input) address) (field "idempotencyKey" (JStr <$> ei_idempotencyKey input))) =
          obj_get k (ei_data input)) as Hd.
  { rewrite !spread_other; [done|by intros ?%Ha|]. intros Hin%field_keys. by apply list_elem_of_singleton in Hin. }
  unfold canonicalData. destruct (String.eqb _ _); [by rewrite set_get_ne|done].
Qed.

(** ** Stamped approvals *)

Abbreviation APPROVAL := "project.approval.submitted".

(** The stamp of a channel, with its texts trimmed. *)
Definition vouched (source : string) (a : ApprovalIngressAuthorization) : json :=
  hostStamp source (au_kind a) (trim (au_id a)) (trim (au_reference a)) (au_evidence a).

Lemma text_trimmed s t : optionalText (Some (JStr s)) = Some t -> t = trim s.
Proof. unfold optionalText, nonEmptyString. destruct (nonblank s); [by intros [= <-]|done]. Qed.

Lemma rest_named k keys (o : obj json) : k ∈ keys -> obj_get k (rest keys o) = None.
Proof.
  intros Hk. induction o as [|[j v] o IH]; [done|]. rewrite EmissionLaws.rest_cons. unfold set_has. case_bool_decide as Hj; [done|]. cbn.
  destruct (String.eqb_spec j k); [by subst|done].
Qed.

Lemma stamp_done input source a stamped : stampApproval input source a = Done stamped ->
  ei_type stamped = ei_type input /\ ei_target stamped = ei_target input /\ ei_idempotencyKey stamped = ei_idempotencyKey input /\
  obj_get "hostApproval" (ei_data stamped) = Some (vouched source a) /\ obj_get "provenance" (ei_data stamped) = None /\
  is_Some (readVerifiedApprovalDecision (ei_type input) (Some source) (ei_data stamped)) /\
  ei_data stamped = rest ["provenance"; "hostApproval"] (ei_data input) ++ [("hostApproval", vouched source a)].
Proof.
  unfold stampApproval. intros (id & Hid%requiredText_done%text_trimmed & Hrun)%bound_done.
  apply bound_done in Hrun as (reference & Hr%requiredText_done%text_trimmed & Hrun). subst.
  apply bound_done in Hrun as (u & Hv%demandApproval_done%bool_decide_eq_true_1 & [= <-]). split_ands; [done..| | |done|done].
  - unfold with_data, stampedData. cbn [ei_data]. rewrite obj_get_app, rest_named by (by apply (bool_decide_eq_true_1 _)). done.
  - unfold with_data, stampedData. cbn [ei_data]. rewrite obj_get_app, rest_named by (by apply (bool_decide_eq_true_1 _)). done.
Qed.

Lemma reply_kept input source a replied : stampConversationApproval input source a = Done replied ->
  ei_type replied = ei_type input /\ ei_target replied = ei_target input /\ ei_idempotencyKey replied = ei_idempotencyKey input.
Proof.
  unfold stampConversationApproval. destruct (negb _); [by intros [= <-]|]. intros (supplied & _ & Hrun)%bound_done. cbv zeta in Hrun.
  destruct a as [a|]; [|by injection Hrun as <-]. destruct (approvalDecision _); [|by injection Hrun as <-].
  destruct (_ || _); [by injection Hrun as <-|]. repeat apply bound_done in Hrun as (? & _ & Hrun).
  destruct (stampApproval _ _ _) as [st|[] e]; (done || by injection Hrun as <-).
Qed.

(** What the interface makes of a formal approval. *)
Lemma approval_input raw context input : publicationInput raw context = Done input -> ei_type input = APPROVAL ->
  exists a source, pc_approvalAuthorization context = Some a /\ optionalText (Some (JStr (pc_source context))) = Some source /\
    obj_get "hostApproval" (ei_data input) = Some (vouched source a) /\ obj_get "provenance" (ei_data input) = None /\
    is_Some (readVerifiedApprovalDecision APPROVAL (Some source) (ei_data input)).
Proof.
  unfold publicationInput. intros (i & _ & Hrun)%bound_done Ht.
  destruct (String.eqb_spec (ei_type i) "conversation.message.created") as [E|_].
  { apply reply_kept in Hrun as [Hk _]. by rewrite Ht, E in Hk. }
  destruct (String.eqb_spec (ei_type i) APPROVAL) as [E|Hne]; cbn [negb] in Hrun; [|injection Hrun as ->; done].
  apply bound_done in Hrun as (d & _ & Hrun). destruct (pc_approvalAuthorization context) as [a|]; [|done].
  apply bound_done in Hrun as (source & Hs%requiredText_done & Hrun). apply stamp_done in Hrun as (_ & _ & _ & Hst & Hp & Hv & _).
  rewrite E in Hv. by exists a, source.
Qed.

(** A verified decision came through one of the two channels. *)
Lemma verified_trimmed type source data : is_Some (readVerifiedApprovalDecision type (Some source) data) ->
  optionalText (Some (JStr source)) = Some source.
Proof. intros [va [[= ->] _]%Conditions.verified_source]. by destruct (hs_ingressSource _). Qed.

(** What a stamp on a reply proves: a human's exact decision in answer to a
    message, through a channel that vouches for it. *)
Lemma reply_stamped input source a replied reply :
  stampConversationApproval input source a = Done replied -> obj_get "approvalReply" (ei_data replied) = Some (JObj reply) ->
  truthy (obj_get "hostApproval" reply) = true ->
  exists au decision appId taskId, a = Some au /\ approvalDecision (obj_get "text" (ei_data replied)) = Some decision /\
    str_is (obj_get "kind" (recordOrEmpty (obj_get "author" (ei_data replied)))) "human" = true /\
    truthy (obj_get "replyTo" (ei_data replied)) = true /\ optionalText (Some (JStr source)) = Some source /\
    optionalText (Some (JStr appId)) = Some appId /\ optionalText (Some (JStr taskId)) = Some taskId /\
    obj_get "target" reply = Some (targetJson (mkTarget (Some appId) (Some taskId) None)) /\
    obj_get "decision" reply = Some (JStr decision) /\ obj_get "hostApproval" reply = Some (vouched source au).
Proof.
  unfold stampConversationApproval. destruct (truthy (obj_get "approvalReply" (ei_data input))) eqn:Et; cbn [negb].
  2: { intros [= <-] Hr. by rewrite Hr in Et. }
  intros (supplied & _ & Hrun)%bound_done Hr Hst. cbv zeta in Hrun.
  set (plain := field "target" (obj_get "target" supplied) ++ field "proposal" (obj_get "proposal" supplied)) in *.
  assert (with_data (obj_set "approvalReply" (JObj plain) (ei_data input)) input = replied -> False) as Hno.
  { intros <-. cbn [with_data ei_data] in Hr. rewrite obj_get_set_eq in Hr. injection Hr as <-. revert Hst. unfold plain.
    by destruct (obj_get "target" supplied), (obj_get "proposal" supplied). }
  destruct a as [au|]; [|injection Hrun as Hrun; by apply Hno in Hrun].
  rewrite set_get_ne in Hrun by done.
  destruct (approvalDecision _) as [decision|] eqn:Ed; [|injection Hrun as Hrun; by apply Hno in Hrun].
  rewrite !set_get_ne in Hrun by done. destruct (_ || _) eqn:Ea; [injection Hrun as Hrun; by apply Hno in Hrun|].
  apply orb_false_iff in Ea as [Ha%negb_false_iff Ht%negb_false_iff].
  apply bound_done in Hrun as (target & _ & Hrun). apply bound_done in Hrun as (appId & Happ%requiredText_done & Hrun).
  apply bound_done in Hrun as (taskId & Htask%requiredText_done & Hrun).
  destruct (stampApproval _ _ _) as [st|[] e] eqn:Es; [|done..|injection Hrun as Hrun; by apply Hno in Hrun].
  injection Hrun as <-. apply stamp_done in Es as (_ & _ & _ & _ & _ & Hv & Hd). cbn [ei_type] in Hv.
  cbn [with_data ei_data] in Hr. rewrite obj_get_set_eq in Hr. injection Hr as <-. rewrite Hd. exists au, decision, appId, taskId.
  cbn [with_data ei_data]. rewrite !set_get_ne by done. split_ands; try done.
  - by eapply verified_trimmed.
  - apply nonEmptyString_spec in Happ as [? ?]. by apply nonEmptyString_text.
  - apply nonEmptyString_spec in Htask as [? ?]. by apply nonEmptyString_text.
  - by destruct (obj_get "proposal" plain).
  - by destruct (obj_get "proposal" plain).
  - by destruct (obj_get "proposal" plain).
Qed.

(** ** Decisions that are waited for *)

Definition dataOf (event : obj json) : obj json := match obj_get "data" event with Some (JObj d) => d | _ => event end.

(** The event decides a Condition of an open Task that waits for a human: the
    proposal names the current generation of the Task, and the Condition is one of
    its current ones, belongs to a human, is not yet fulfilled and accepts this very
    event. *)
Definition awaited (stores : gmap string ResourceStore.store) (appId taskId : string) (event : obj json) : Prop :=
  exists s resource phase proposal conditionId c,
    activeStore stores appId = Some s /\ RecoveryIndex.readTaskForView s taskId = Some (resource, phase, false) /\
    phase ∈ [TaskState.pending; TaskState.running; TaskState.waiting; TaskState.attention] /\
    obj_get "proposal" (dataOf event) = Some (JObj proposal) /\
    positive (obj_get "taskGeneration" proposal) = Some (md_generation (metadata resource)) /\
    conditionId ∈ default [] (st_conditionIds (status resource)) /\ currentCondition s taskId conditionId = Done (Some c) /\
    cs_type (cond_spec c) = APPROVAL /\ isHumanActionOwner (cs_owner (cond_spec c)) = true /\ cond_state c <> cs_true /\
    Conditions.matchesAppTaskCondition None (Some c) event = true.

(** A human approval looks at the type, the source, the stamp, the proposal and
    the decision of an event, and at nothing else. *)
Lemma human_match c event event' :
  cs_type (cond_spec c) = APPROVAL -> isHumanActionOwner (cs_owner (cond_spec c)) = true ->
  obj_get "type" event' = obj_get "type" event -> obj_get "source" event' = obj_get "source" event ->
  (forall k, k ∈ ["hostApproval"; "proposal"; "decision"] -> obj_get k (dataOf event') = obj_get k (dataOf event)) ->
  Conditions.matchesAppTaskCondition None (Some c) event = true -> Conditions.matchesAppTaskCondition None (Some c) event' = true.
Proof.
  intros Ht Ho Hty Hs Hd. assert (Conditions.matches c event' = Conditions.matches c event) as Hm.
  { unfold Conditions.matches. rewrite Hty, Ht, Ho. destruct (negb _); [done|]. cbn [andb]. rewrite String.eqb_refl. cbn [andb].
    unfold Conditions.matchesApproval. rewrite Hs. fold (dataOf event) (dataOf event'). unfold readVerifiedApprovalDecision.
    rewrite !Hd by (by apply (bool_decide_eq_true_1 _)). done. }
  unfold Conditions.matchesAppTaskCondition. rewrite Hm. destruct (bool_decide _); [done|]. destruct (Conditions.matches c event); [done|].
  assert (Conditions.isAppInputReport c event = false) as -> by (unfold Conditions.isAppInputReport; by rewrite Ht). done.
Qed.

Lemma condition_current c conditionId subject action generation expected u :
  checkCondition c conditionId subject action generation expected = Done u ->
  cs_type (cond_spec c) = APPROVAL /\ isHumanActionOwner (cs_owner (cond_spec c)) = true /\ cond_state c <> cs_true.
Proof.
  unfold checkCondition. intros (x & Hc%demandApproval_done & _)%bound_done.
  rewrite !andb_true_iff, negb_true_iff, String.eqb_eq in Hc. destruct Hc as [[[_ Hst] Ht] Ho]. split_ands; [done..|].
  by apply bool_decide_eq_false_1 in Hst.
Qed.

(** What the Host checked before it takes a decision. *)
Lemma current_awaited stores input u source stamp :
  validateCurrentApproval stores input = Done u -> obj_get "hostApproval" (ei_data input) = Some (JObj stamp) ->
  obj_get "ingressSource" stamp = Some source ->
  exists appId taskId, optionalText (JStr <$> inputTarget "appId" input) = Some appId /\
    optionalText (JStr <$> inputTarget "taskId" input) = Some taskId /\
    awaited stores appId taskId (spread (inputFields input) [("source", source)]).
Proof.
  unfold validateCurrentApproval. cbv zeta. intros Hrun Hstamp Hsrc.
  apply bound_done in Hrun as (appId & Ha%requiredText_done & Hrun). apply bound_done in Hrun as (taskId & Ht%requiredText_done & Hrun).
  apply bound_done in Hrun as (proposal & Hp%recordOf_done & Hrun). apply bound_done in Hrun as (tg & Htg & Hrun).
  do 4 apply bound_done in Hrun as (? & _ & Hrun). apply bound_done in Hrun as (expected & _ & Hrun).
  destruct (activeStore stores appId) as [s|] eqn:Es; [|done]. cbn in Hrun.
  destruct (RecoveryIndex.readTaskForView s taskId) as [[[resource phase] closed]|] eqn:Ev; [|done]. cbn in Hrun.
  apply bound_done in Hrun as (? & Hg%demandApproval_done%Z.eqb_eq & Hrun).
  apply bound_done in Hrun as (? & Hph%demandApproval_done & Hrun). apply andb_true_iff in Hph as [Hcl Hph].
  destruct closed; [done|]. apply bound_done in Hrun as (? & Hin%demandApproval_done & Hrun).
  apply bound_done in Hrun as (found & Hf & Hrun). destruct found as [c|]; [|done].
  apply bound_done in Hrun as (? & Hc%condition_current & Hrun). do 2 apply bound_done in Hrun as (? & _ & Hrun).
  rewrite Hstamp in Hrun. apply bound_done in Hrun as (o & [= <-] & Hrun). rewrite Hsrc in Hrun.
  apply demandApproval_done in Hrun. destruct Hc as (Hty & Ho & Hst).
  exists appId, taskId. split_ands; [done..|]. eexists s, resource, phase, proposal, _, c. split_ands; try done.
  - destruct phase; (done || by apply (bool_decide_eq_true_1 _)).
  - unfold inputFields. destruct (ei_target input), (ei_idempotencyKey input); exact Hp.
  - unfold positiveIntegerOf in Htg. destruct (positive _); [|done]. injection Htg as ->. by rewrite Hg.
  - by apply bool_decide_eq_true_1 in Hin.
Qed.

Lemma awaited_same stores appId taskId event event' :
  obj_get "type" event' = obj_get "type" event -> obj_get "source" event' = obj_get "source" event ->
  (forall k, k ∈ ["hostApproval"; "proposal"; "decision"] -> obj_get k (dataOf event') = obj_get k (dataOf event)) ->
  awaited stores appId taskId event -> awaited stores appId taskId event'.
Proof.
  intros Ht Hs Hd (s & r & phase & proposal & cid & c & H1 & H2 & H3 & H4 & H5 & H6 & H7 & H8 & H9 & H10 & H11).
  exists s, r, phase, proposal, cid, c. split_ands; try done.
  - rewrite Hd by (by apply (bool_decide_eq_true_1 _)). done.
  - by eapply human_match.
Qed.

Lemma apart (a b : list string) k : forallb (fun x => negb (set_has x b)) a = true -> k ∈ a -> k ∉ b.
Proof. rewrite forallb_forall. intros Hab Hk%list_elem_of_In%Hab. by apply negb_true_iff, bool_decide_eq_false_1 in Hk. Qed.

Lemma approval_fields : (match definitionOf APPROVAL with Some d => ed_addressFields d | None => [] end) = ["appId"; "taskId"].
Proof. reflexivity. Qed.

(** The decision as it is published is the one that was checked. *)
Lemma published_awaited stores input context event source a u :
  canonicalEvent input context = Done event -> ei_type input = APPROVAL ->
  optionalText (Some (JStr (pc_source context))) = Some source -> obj_get "hostApproval" (ei_data input) = Some (vouched source a) ->
  validateCurrentApproval stores input = Done u ->
  exists appId taskId, optionalText (JStr <$> inputTarget "appId" input) = Some appId /\
    optionalText (JStr <$> inputTarget "taskId" input) = Some taskId /\ awaited stores appId taskId (ev_fields event).
Proof.
  intros (source' & address & Hs & Ha & ->)%canonical_done Ht Hs' Hst Hv. assert (source' = source) as -> by congruence.
  destruct (current_awaited _ _ _ (JStr source) _ Hv Hst eq_refl) as (appId & taskId & Happ & Htask & Haw).
  exists appId, taskId. split_ands; [done..|]. destruct (interface_fields input source
    (canonicalData input address source (pc_inputSource context))) as (Hty & Hsrc & _ & _ & Hd).
  eapply awaited_same; [..|exact Haw].
  - rewrite Hty. by unfold inputFields.
  - rewrite Hsrc. unfold inputFields. by destruct (ei_target input), (ei_idempotencyKey input).
  - intros k Hk. unfold dataOf at 1. rewrite Hd. rewrite Ht, approval_fields in Ha.
    rewrite (canonical_other _ _ _ _ _ _ Ha) by (by eapply apart; [|exact Hk]). unfold dataOf, inputFields.
    by destruct (ei_target input), (ei_idempotencyKey input).
Qed.

Section Publications.
Context `{Crypto} {S : Type} (hostOf : S -> Host) (emit : AgentEvent -> E S AgentEvent) (options : InterfaceOptions).

(** A publication throws before it emits, or it emits its canonical event once. *)
Lemma publish_run raw context s : let run := publish hostOf emit options raw context s in
  (exists c e, run = (Raise c e, s)) \/
  exists input event, publicationInput raw context = Done input /\ canonicalEvent input context = Done event /\
    validated hostOf options (definitionOf (ei_type input)) input event s = Done tt /\
    let sent := if bool_decide (ed_delivery <$> definitionOf (ei_type input) = Some d_required) then event else record_only event in
    run.2 = (emit sent s).2 /\
    forall receipt s', run = (Done receipt, s') -> er_eventType receipt = ei_type input /\
      exists emitted, emit sent s = (Done emitted, s') /\ durableId emitted = Some (er_eventId receipt).
Proof.
  cbv zeta. unfold publish. rewrite pure_bind. destruct (publicationInput raw context) as [input|c e]; [|left; eauto].
  rewrite pure_bind. destruct (demand _ _) as [?|c e]; [|left; eauto]. rewrite pure_bind. destruct (demand _ _) as [?|c e]; [|left; eauto].
  rewrite pure_bind. destruct (canonicalEvent input context) as [event|c e] eqn:Ec; [|left; eauto]. rewrite pure_bind.
  destruct (validated _ _ _ _ _ _) as [[]|c e] eqn:Ev; [|left; eauto]. right. exists input, event. do 3 (split; [done|]).
  set (sent := if bool_decide _ then event else record_only event). unfold mbind, E_bind.
  destruct (emit sent s) as [[emitted|c e] s1]; [|split; [done|by intros ? ? [=]]].
  destruct (durableId emitted) as [id|] eqn:Ed; [|split; [done|by intros ? ? [=]]]. unfold pure.
  destruct (getEventView _ _) as [[view|]|c e]; [|split; [done|by intros ? ? [=]]..].
  split; [done|]. intros receipt s' [= <- <-]. split; [done|]. by exists emitted.
Qed.

(** C23.  No formal approval without authority.  When a caller publishes a human's
    decision, either the publication throws and nothing is emitted, or exactly one
    event is, and: the channel was authorized; the event carries the Host's stamp
    of that channel whatever stamp or provenance the payload claimed; it reads as a
    verified decision; and the same decision had been saved before, or the event,
    as it is emitted, decides a current Condition of an open Task that waits for a
    human.  A receipt names the row of that event. *)
Theorem approval_authentic raw context s i
    (Hraw : normalizeInput raw = Done i) (Htype : ei_type i = APPROVAL) :
  let run := publish hostOf emit options raw context s in
  (exists c e, run = (Raise c e, s)) \/
  exists a source input event,
    pc_approvalAuthorization context = Some a /\ optionalText (Some (JStr (pc_source context))) = Some source /\
    publicationInput raw context = Done input /\ canonicalEvent input context = Done event /\
    obj_get "hostApproval" (eventData event) = Some (vouched source a) /\ obj_get "provenance" (eventData event) = None /\
    is_Some (readVerifiedApprovalDecision APPROVAL (Some source) (eventData event)) /\
    (is_Some (findPersistedEventId (logOf hostOf s) event) \/
     exists appId taskId, optionalText (JStr <$> inputTarget "appId" input) = Some appId /\
       optionalText (JStr <$> inputTarget "taskId" input) = Some taskId /\ awaited (storesOf hostOf s) appId taskId (ev_fields event)) /\
    run.2 = (emit (record_only event) s).2 /\
    forall receipt s', run = (Done receipt, s') ->
      er_eventType receipt = APPROVAL /\ exists emitted, emit (record_only event) s = (Done emitted, s') /\ ev_rowId emitted = Some (er_eventId receipt).
Proof.
  cbv zeta. destruct (publish_run raw context s) as [?|(input & event & Hin & Hc & Hv & Hrun & Hreceipt)]; [by left|right].
  assert (ei_type input = APPROVAL) as Ht.
  { unfold publicationInput in Hin. rewrite Hraw in Hin. cbn in Hin. rewrite Htype in Hin. cbn in Hin.
    apply bound_done in Hin as (? & _ & Hin). destruct (pc_approvalAuthorization context); [|done].
    apply bound_done in Hin as (? & _ & Hin). apply stamp_done in Hin as [-> _]. done. }
  destruct (approval_input _ _ _ Hin Ht) as (a & source & Ha & Hs & Hst & Hp & Hver).
  rewrite Ht in Hrun, Hreceipt, Hv. cbn in Hrun, Hreceipt.
  pose proof Hc as (source' & address & Hs' & Had & E)%canonical_done. assert (source' = source) as -> by congruence.
  rewrite Ht, approval_fields in Had.
  assert (forall k, k ∉ ["source"; "idempotencyKey"; "appId"; "taskId"] -> obj_get k (eventData event) = obj_get k (ei_data input)) as Hdata.
  { intros k Hk. rewrite E, interface_data. by eapply canonical_other. }
  exists a, source, input, event. split_ands; try done.
  - by rewrite Hdata by (by apply (bool_decide_eq_false_1 _)).
  - by rewrite Hdata by (by apply (bool_decide_eq_false_1 _)).
  - unfold readVerifiedApprovalDecision. rewrite !Hdata by (by apply (bool_decide_eq_false_1 _)). exact Hver.
  - unfold validated in Hv. rewrite Ht in Hv. cbn [andb] in Hv. rewrite String.eqb_refl in Hv. cbn [andb] in Hv.
    destruct (bool_decide (is_Some (findPersistedEventId _ _))) eqn:Hf; [left; by apply bool_decide_eq_true_1 in Hf|right].
    cbn in Hv. apply bound_done in Hv as (? & _ & Hv). by eapply published_awaited.
  - intros receipt s' Hd. destruct (Hreceipt _ _ Hd) as (Hty & emitted & Hem & Hid). split; [done|]. exists emitted. split; [done|].
    unfold durableId in Hid. destruct (ev_rowId emitted); [|done]. cbn in Hid. by destruct (_ && _).
Qed.

Lemma savedId_row event id : savedId event = Some id -> ev_rowId event = Some id.
Proof. unfold savedId. destruct (ev_rowId event) as [i|]; [|done]. cbn. by destruct (i =? 0). Qed.

Lemma saved_decision event decision s :
  let run := (emitted ← emit event;
              match savedId emitted with
              | None => throw "Approval decision was not durably saved"
              | Some id => mret (Some (ap_saved decision id))
              end : E S (option ApprovalReceipt)) s in
  run.2 = (emit event s).2 /\
  forall d id s', run = (Done (Some (ap_saved d id)), s') -> d = decision /\
    exists emitted, emit event s = (Done emitted, s') /\ ev_rowId emitted = Some id.
Proof.
  cbv zeta. unfold mbind, E_bind. destruct (emit event s) as [[emitted|c e] s1]; [|by split].
  destruct (savedId emitted) as [i|] eqn:E; [|by split]. split; [done|]. intros d id s' [= <- <- <-]. split; [done|].
  exists emitted. split; [done|]. by apply savedId_row.
Qed.

(** Delivering a saved reply does nothing or emits one decision. *)
Lemma deliver_run saved s : let run := deliverConversationApproval hostOf emit saved s in
  (run.2 = s /\ forall d id, run.1 <> Done (Some (ap_saved d id))) \/
  exists reply source id canonical,
    let bound := mkInput APPROVAL (publicTarget (obj_get "target" reply)) (obj_set "inputEventId" (JNum (num id)) (rest ["target"] reply))
                   (Some ("input-approval:" +:+ show_Z id)) in
    obj_get "approvalReply" (eventData saved) = Some (JObj reply) /\ truthy (obj_get "hostApproval" reply) = true /\
    optionalText (obj_get "source" (ev_fields saved)) = Some source /\ ev_rowId saved = Some id /\
    canonicalEvent bound (mkContext source None false None) = Done canonical /\
    (is_Some (findPersistedEventId (logOf hostOf s) (savedTarget canonical)) \/ validateCurrentApproval (storesOf hostOf s) bound = Done tt) /\
    run.2 = (emit (record_only (savedTarget canonical)) s).2 /\
    forall d eid s', run = (Done (Some (ap_saved d eid)), s') -> d = String_of (obj_get "decision" (rest ["target"] reply)) /\
      exists emitted, emit (record_only (savedTarget canonical)) s = (Done emitted, s') /\ ev_rowId emitted = Some eid.
Proof.
  cbv zeta. unfold deliverConversationApproval, approvalReplyOf. destruct (truthy _ && _) eqn:Er; [|by left].
  apply andb_true_iff in Er as [Er _]. set (reply := recordOrEmpty _).
  destruct (truthy (obj_get "hostApproval" reply)) eqn:Es; [|by left]. cbn [negb].
  assert (obj_get "approvalReply" (eventData saved) = Some (JObj reply)) as Hreply.
  { unfold reply, recordOrEmpty in *. by destruct (obj_get "approvalReply" (eventData saved)) as [[]|]. }
  rewrite pure_bind. destruct (requiredText _ _) as [source|c e] eqn:Ht; [|by left]. apply requiredText_done in Ht.
  rewrite pure_bind. destruct (demand _ _) as [?|c e]; [|by left].
  destruct (savedId saved) as [id|] eqn:Eid; [|by left]. apply savedId_row in Eid.
  set (bound := mkInput APPROVAL (publicTarget (obj_get "target" reply)) (obj_set "inputEventId" (JNum (num id)) (rest ["target"] reply))
                   (Some ("input-approval:" +:+ show_Z id))).
  rewrite pure_bind. destruct (canonicalEvent bound _) as [canonical|c e] eqn:Ec; [|by left]. rewrite bind_reads.
  destruct (findPersistedEventId (logOf hostOf s) (savedTarget canonical)) as [prior|] eqn:Ep.
  - right. exists reply, source, id, canonical. do 5 (split; [done|]). split; [by left|]. erewrite bind_done by reflexivity. apply saved_decision.
  - destruct (validateCurrentApproval (storesOf hostOf s) bound) as [[]|c e] eqn:Ev.
    + right. exists reply, source, id, canonical. do 5 (split; [done|]). split; [by right|].
      erewrite bind_done by (cbn; rewrite Ev; reflexivity). apply saved_decision.
    + left. destruct c; (erewrite bind_done by (cbn; rewrite Ev; reflexivity)) || (erewrite bind_raise by (cbn; rewrite Ev; reflexivity)); done.
Qed.

(** C24.  A conversation decides only by a human's exact words.  When a published
    message is saved and its approval reply is delivered, either nothing is emitted
    and no decision is reported, or exactly one event is, and: the channel that
    published the message was authorized, a human wrote it in answer to a message,
    and its text is exactly an approval, a rejection or a deferral, which is the
    decision of the event; the event carries the stamp of that channel and the id of
    the message; and the same decision had been saved before, or the event decides a
    current Condition of an open Task that waits for a human.  A reported decision
    is that of the event and names its row. *)
Theorem reply_decides_exactly raw context input sent saved s
    (Hin : publicationInput raw context = Done input) (Htype : ei_type input = "conversation.message.created")
    (Hsent : canonicalEvent input context = Done sent)
    (Hdata : eventData saved = eventData sent) (Hsource : obj_get "source" (ev_fields saved) = obj_get "source" (ev_fields sent)) :
  let run := deliverConversationApproval hostOf emit saved s in
  (run.2 = s /\ forall d id, run.1 <> Done (Some (ap_saved d id))) \/
  exists a decision id event appId taskId,
    pc_approvalAuthorization context = Some a /\ approvalDecision (obj_get "text" (ei_data input)) = Some decision /\
    str_is (obj_get "kind" (recordOrEmpty (obj_get "author" (ei_data input)))) "human" = true /\
    truthy (obj_get "replyTo" (ei_data input)) = true /\ ev_rowId saved = Some id /\
    obj_get "decision" (eventData event) = Some (JStr decision) /\
    obj_get "hostApproval" (eventData event) = Some (vouched (pc_source context) a) /\
    obj_get "inputEventId" (eventData event) = Some (JNum (num id)) /\
    obj_get "target" (ev_fields event) = Some (targetJson (mkTarget (Some appId) (Some taskId) None)) /\
    (is_Some (findPersistedEventId (logOf hostOf s) event) \/ awaited (storesOf hostOf s) appId taskId (ev_fields event)) /\
    run.2 = (emit (record_only event) s).2 /\
    forall d eid s', run = (Done (Some (ap_saved d eid)), s') ->
      d = decision /\ exists emitted, emit (record_only event) s = (Done emitted, s') /\ ev_rowId emitted = Some eid.
Proof.
  cbv zeta. destruct (deliver_run saved s) as [?|(reply & source & id & canonical & Hr & Hst & Hs & Hid & Hc & Hprior & Hrun & Hdone)]; [by left|].
  right. pose proof Hsent as (source0 & address & Hs0 & Had & E)%canonical_done. rewrite Htype in Had.
  assert (obj_get "approvalReply" (ei_data input) = Some (JObj reply)) as Hreply.
  { rewrite <- Hr, Hdata, E, interface_data. symmetry. eapply canonical_other; [exact Had|]. by apply (bool_decide_eq_false_1 _). }
  unfold publicationInput in Hin. apply bound_done in Hin as (i & _ & Hin).
  destruct (String.eqb_spec (ei_type i) "conversation.message.created") as [Ei|Hne].
  2: { destruct (String.eqb_spec (ei_type i) APPROVAL) as [Ei|_]; cbn [negb] in Hin; [|by injection Hin as ->].
       apply bound_done in Hin as (? & _ & Hin). destruct (pc_approvalAuthorization context); [|done].
       apply bound_done in Hin as (? & _ & Hin). apply stamp_done in Hin as [Hk _]. by rewrite Htype, Ei in Hk. }
  destruct (reply_stamped _ _ _ _ _ Hin Hreply Hst) as (a & decision & appId & taskId & Ha & Hdec & Hau & Hto & Hpc & Happ & Htask & Htg & Hd & Hvo).
  assert (source0 = pc_source context) as -> by congruence.
  assert (source = pc_source context) as ->.
  { rewrite Hsource, E in Hs. destruct (interface_fields input (pc_source context)
      (canonicalData input address (pc_source context) (pc_inputSource context))) as (_ & Hsrc & _). rewrite Hsrc in Hs. congruence. }
  assert (publicTarget (obj_get "target" reply) = Some (mkTarget (Some appId) (Some taskId) None)) as Hpt.
  { rewrite Htg. cbn. unfold publicTarget. cbn [obj_get String.eqb]. cbn in Happ, Htask |- *. by rewrite Happ, Htask. }
  rewrite Hpt in Hc, Hprior. cbv zeta in Hc, Hprior.
  set (bound := mkInput _ _ _ _) in Hc, Hprior. pose proof Hc as (source' & address' & Hs' & Had' & E')%canonical_done.
  cbn [pc_source pc_inputSource] in Hs', E'. assert (source' = pc_source context) as -> by congruence.
  cbn [ei_type bound] in Had'. rewrite approval_fields in Had'.
  assert (forall k, k ∉ ["source"; "idempotencyKey"; "appId"; "taskId"] -> obj_get k (eventData (savedTarget canonical)) = obj_get k (ei_data bound)) as Hev.
  { intros k Hk. change (eventData (savedTarget canonical)) with (eventData canonical). rewrite E', interface_data. by eapply canonical_other. }
  assert (forall k, k <> "inputEventId" -> k <> "target" -> obj_get k (ei_data bound) = obj_get k reply) as Hb.
  { intros k Hk Hk'. cbn [ei_data bound]. rewrite set_get_ne by done. apply EmissionLaws.rest_get. set_solver. }
  exists a, decision, id, (savedTarget canonical), appId, taskId. do 5 (split; [done|]).
  rewrite !Hev by (by apply (bool_decide_eq_false_1 _)). rewrite !Hb, Hd, Hvo by done. do 2 (split; [done|]).
  split; [apply obj_get_set_eq|]. split.
  { change (ev_fields (savedTarget canonical)) with (ev_fields canonical). rewrite E'. by apply interface_fields. }
  split; [destruct Hprior as [?|Hv]; [by left|right]|].
  - destruct (published_awaited (storesOf hostOf s) bound _ canonical (pc_source context) a tt Hc eq_refl Hs') as (x & y & Hx & Hy & Haw); [|exact Hv|].
    { by rewrite Hb, Hvo. }
    cbn in Hx, Hy. cbn in Happ, Htask. rewrite Happ in Hx. rewrite Htask in Hy. injection Hx as ->. injection Hy as ->. exact Haw.
  - split; [done|]. intros d eid s' Hx. destruct (Hdone d eid s' Hx) as [-> Hem]. split; [|done].
    rewrite EmissionLaws.rest_get, Hd by set_solver. done.
Qed.

End Publications.

(** ** The bus as the interface sees it *)

(** The journal stays consistent and keeps its rows. *)
Definition keeps (l l' : Log) : Prop := journal_ok l -> journal_ok l' /\ receiptsKept l l'.

#[export] Instance keeps_preorder : PreOrder keeps.
Proof.
  split; [intros l Hl; by split|]. intros l1 l2 l3 H1 H2 Hl. destruct (H1 Hl) as [Hl2 K1]. destruct (H2 Hl2) as [Hl3 K2].
  split; [done|]. by etrans.
Qed.

(** What the interface relies on: an emission that returns went through the
    journal's handler, which named the row, and nothing that ran after it undid the
    write. *)
Class DurableBus `{Crypto} {S} (hostOf : S -> Host) (emit : AgentEvent -> E S AgentEvent) : Prop :=
  emit_durable event s ev s' : emit event s = (Done ev, s') ->
    exists now parent acc h, handler now (inheritedEventTrace event parent) (ho_hub (hostOf s)) = (Done acc, h) /\
      ev_rowId ev = ev_rowId acc /\ keeps (log h) (logOf hostOf s').

(** The bus of the Host writes events and receipts to the journal. *)
Section HostBus.
Context `{Crypto} (now : Z) (routes first normal : list (@Subscriber Host)) (parent : option AgentEvent).
Abbreviation S := (Bus * Host)%type.

Definition set_hub (x : Hub) (h : Host) : Host := mkHost x (ho_admissions h) (ho_inbox h) (ho_admissionErrors h).

Definition hostBusOptions : @Options Host :=
  mkOptions (Some (fun event => zoom (fun s => ho_hub s.2) (fun x s => (s.1, set_hub x s.2)) (handler now event)))
    (fun _ => false) (fun _ => mret tt)
    (Some (fun event outcome => writes (fun s => (s.1, set_hub (set_log (recordDelivery now event outcome (log (ho_hub s.2))) (ho_hub s.2)) s.2))))
    routes first normal parent.

Definition journalOf (s : S) : Log := log (ho_hub s.2).

(** Subscribers write the journal through its own operations. *)
Definition orderly (fn : @Subscriber Host) : Prop := forall event s, keeps (journalOf s) (journalOf (sb_run fn event s).2).

Lemma runs_kept priority event fns s rs s' :
  BusLaws.runsAll now priority event fns s rs s' -> Forall orderly fns -> keeps (journalOf s) (journalOf s').
Proof.
  induction 1 as [|fn fns s d s1 rs s2 E _ IH|fn fns s c e s1 rs s2 E _ IH]; intros Hf; [done|..].
  all: apply Forall_cons in Hf as [Hfn Hf]; specialize (Hfn event s); rewrite E in Hfn; etrans; [exact Hfn|]; by apply IH.
Qed.

Lemma fanned_kept event s durable others s' : BusLaws.fanned now hostBusOptions event None s durable others s' ->
  Forall orderly routes -> Forall orderly first -> Forall orderly normal -> keeps (journalOf s) (journalOf s').
Proof.
  intros (s1 & Hd & Ho) Hr Hf Hn. assert (keeps (journalOf s) (journalOf s1)) as Hk.
  { eapply runs_kept; [exact Hd|]. apply Forall_forall. intros fn [_ Hin]%list_elem_of_filter. rewrite Forall_forall in Hr. by apply Hr. }
  destruct (ev_redelivery event); [by destruct Ho as [_ ->]|]. destruct Ho as (rf & rn & s2 & H1 & H2 & _).
  etrans; [exact Hk|]. etrans; eapply runs_kept; eassumption.
Qed.

Lemma finish_kept event outcome s : exists s', BusLaws.finish hostBusOptions event outcome s = (Done (BusLaws.marked outcome event), s') /\
  keeps (journalOf s) (journalOf s').
Proof.
  unfold BusLaws.finish. cbv zeta. set (ev := BusLaws.marked outcome event).
  assert (exists s1, (match outcome with Some o => records hostBusOptions ev o | None => mret tt end) s = (Done tt, s1) /\
    keeps (journalOf s) (journalOf s1)) as (s1 & E & Hk).
  { destruct outcome as [o|]; [|by exists s]. eexists. split; [reflexivity|]. intros Hok. by apply delivery_ok. }
  rewrite (bind_done _ _ _ _ _ E). destruct (ev_redelivery ev); by eexists.
Qed.

#[export] Instance host_bus (Hr : Forall orderly routes) (Hf : Forall orderly first) (Hn : Forall orderly normal) :
  DurableBus snd (emit now hostBusOptions).
Proof.
  intros event [b host] ev s' Hrun. unfold emit, dispatch, onBus in Hrun. rewrite writes_bind in Hrun. unfold finally in Hrun.
  cbn [hostBusOptions op_persist op_context] in Hrun. set (sent := inheritedEventTrace event parent) in Hrun. unfold mbind, E_bind, zoom in Hrun.
  cbn [fst snd] in Hrun. destruct (handler now sent (ho_hub host)) as [[acc|c e] h] eqn:Eh; [|done]. cbn in Hrun.
  exists now, parent, acc, h. split; [done|]. destruct (ev_deduplicated acc && negb (ev_redelivery acc)) eqn:Ed.
  - unfold fanOut in Hrun. rewrite Ed in Hrun. injection Hrun as <- <-. done.
  - match type of Hrun with context [fanOut _ _ None acc ?s1] =>
      destruct (BusLaws.fanOut_runs now hostBusOptions None acc s1 Ed) as (rd & ro & s2 & Hfan & Efan);
      pose proof (fanned_kept _ _ _ _ _ Hfan Hr Hf Hn) as Hk end.
    rewrite Efan in Hrun. destruct (finish_kept acc (BusLaws.outcomeOf rd ro acc) s2) as (s3 & Ef & Hk3).
    rewrite Ef in Hrun. injection Hrun as <- <-. split; [by destruct (BusLaws.outcomeOf rd ro acc) as [[]|]|]. by etrans.
Qed.

End HostBus.

(** ** Confirmation *)

Lemma registered_public type d : definitionOf type = Some d -> type ∈ PUBLIC_EVENT_TYPES.
Proof. intros Hd%definition_known. unfold PUBLIC_EVENT_TYPES. apply list_elem_of_fmap. by exists (type, d). Qed.

(** A registered type goes to the journal as it was sent. *)
Lemma registered_handler `{Crypto} now event d h :
  definitionOf (eventType event) = Some d -> isCanonicalEventEnvelope (ev_fields event) = true ->
  exists project, quiet project /\
    handler now event h = insertEventRow now event (eventPayload (ev_fields event)) (eventSource (ev_fields event) None)
      (eventOwner (ev_fields event) None) project h.
Proof.
  intros Hp%registered_public Hc.
  assert (includes (eventType event) "." = true) as Hdot.
  { assert (forallb (fun t => includes t ".") PUBLIC_EVENT_TYPES = true) as Hall by reflexivity. rewrite forallb_forall in Hall.
    by apply Hall, list_elem_of_In. }
  assert (forall t, negb (set_has t PUBLIC_EVENT_TYPES) = true -> String.eqb (eventType event) t = false) as Hne.
  { intros t Ht%negb_true_iff%bool_decide_eq_false_1. apply String.eqb_neq. intros E. by rewrite E in Hp. }
  unfold handler. cbv zeta. rewrite (Hne "session.start"), (Hne "session.end"), (Hne "session.idle"), (Hne "message.created"),
    (Hne "evaluation.recorded"), (Hne "escalation.resolved"), (Hne "escalation.dismissed") by reflexivity.
  destruct (String.eqb (eventType event) "metric.threshold_changed" || String.eqb (eventType event) "metric.alert_resolved").
  { eexists. split; [apply quiet_metric|reflexivity]. }
  cbn [orb].
  exists noProjection. split; [apply quiet_none|]. destruct (set_has _ _ || startsWith _ _); [done|]. rewrite Hdot. unfold canonically.
  by rewrite Hc.
Qed.

Lemma rest_set k v keys (o : obj json) : k ∈ keys -> rest keys (obj_set k v o) = rest keys o.
Proof.
  intros Hk. assert (set_has k keys = true) as Hs by (by apply bool_decide_eq_true_2).
  induction o as [|[j w] o IH]; cbn [obj_set]; [by rewrite EmissionLaws.rest_cons, Hs|].
  destruct (String.eqb_spec j k) as [->|]; rewrite !EmissionLaws.rest_cons; [by rewrite Hs|]. by rewrite IH.
Qed.

Lemma inherited_form event parent : exists fields, inheritedEventTrace event parent = with_fields fields event /\
  (fields = ev_fields event \/ exists t, fields = obj_set "trace" t (ev_fields event)).
Proof.
  unfold inheritedEventTrace. assert (with_fields (ev_fields event) event = event) as E by (by destruct event).
  destruct (truthy _); [exists (ev_fields event); auto|]. destruct (childEventTrace parent) as [t|]; [|exists (ev_fields event); auto].
  destruct (truthy (Some t)); [eauto|exists (ev_fields event); auto].
Qed.

Lemma owner_nonblank input : nonblank (ownerOfInput input) = true.
Proof.
  unfold ownerOfInput. cbv zeta. repeat case_match; (reflexivity || by apply nonblank_append).
Qed.

Lemma interface_canonical input source data : nonblank source = true ->
  isCanonicalEventEnvelope (ev_fields (interfaceEvent input source data)) = true.
Proof.
  intros Hs. destruct (interface_fields input source data) as (_ & Hsrc & How & _ & Hd). unfold isCanonicalEventEnvelope.
  rewrite Hsrc, How, Hd. cbn [nonEmptyString]. by rewrite Hs, owner_nonblank.
Qed.

Lemma interface_payload input source data : nonblank source = true -> eventPayload (ev_fields (interfaceEvent input source data)) = data.
Proof.
  intros Hs. unfold eventPayload. rewrite interface_canonical by done. by destruct (interface_fields input source data) as (_ & _ & _ & _ & ->).
Qed.

(** The trace a bus adds changes nothing about the identity of an event. *)
Lemma inherited_identity `{Crypto} input source data parent ro : nonblank source = true ->
  let event := interfaceEvent input source data in
  let sent := inheritedEventTrace (if ro : bool then record_only event else event) parent in
  eventType sent = ei_type input /\ isCanonicalEventEnvelope (ev_fields sent) = true /\ ev_fence sent = None /\
  ev_interfaceInput sent = true /\ ev_undefinedTarget sent = ev_undefinedTarget event /\
  (forall k, k <> "trace" -> obj_get k (ev_fields sent) = obj_get k (ev_fields event)) /\
  idempotencyHash sent data = idempotencyHash event data.
Proof.
  intros Hs. cbv zeta. set (event := interfaceEvent input source data). set (e := if ro then record_only event else event).
  assert (ev_fields e = ev_fields event /\ ev_fence e = None /\ ev_interfaceInput e = true /\ ev_undefinedTarget e = ev_undefinedTarget event)
    as (Hf & Hfe & Hi & Hu) by (unfold e; by destruct ro).
  destruct (inherited_form e parent) as (fields & -> & Hfields). cbn [ev_fields ev_fence ev_interfaceInput ev_undefinedTarget with_fields].
  rewrite Hf in Hfields. assert (forall k, k <> "trace" -> obj_get k fields = obj_get k (ev_fields event)) as Hget.
  { intros k Hk. destruct Hfields as [->|[t ->]]; [done|]. by rewrite set_get_ne. }
  destruct (interface_fields input source data) as (Ht & Hsrc & How & _ & Hd). fold event in Ht, Hsrc, How, Hd.
  assert (forall g, (forall k, k <> "trace" -> obj_get k g = obj_get k (ev_fields event)) -> isCanonicalEventEnvelope g = true) as Hcan.
  { intros g Hg. unfold isCanonicalEventEnvelope. rewrite !Hg, Hsrc, How, Hd by done. cbn [nonEmptyString]. by rewrite Hs, owner_nonblank. }
  split_ands; try done; [|by apply Hcan|].
  - unfold eventType. cbn [ev_fields with_fields]. by rewrite Hget, Ht.
  - unfold idempotencyHash, idempotencyInput. cbn [ev_fields with_fields ev_interfaceInput]. rewrite (Hcan fields Hget), (Hcan _ (fun _ _ => eq_refl)), Hi.
    change (ev_interfaceInput event) with true. do 4 f_equal. destruct Hfields as [->|[t ->]]; [done|]. rewrite rest_set; [done|].
    by apply (bool_decide_eq_true_1 _).
Qed.

Lemma input_key raw context input key : publicationInput raw context = Done input -> ei_idempotencyKey input = Some key ->
  nonblank key = true /\ trim key = key.
Proof.
  unfold publicationInput. intros (i & Hi & Hrun)%bound_done Hk. assert (ei_idempotencyKey i = Some key) as Hik.
  { destruct (String.eqb (ei_type i) "conversation.message.created"); [apply reply_kept in Hrun as (_ & _ & E); congruence|].
    destruct (negb _); [by injection Hrun as ->|]. apply bound_done in Hrun as (? & _ & Hrun).
    destruct (pc_approvalAuthorization context); [|done]. apply bound_done in Hrun as (? & _ & Hrun).
    apply stamp_done in Hrun as (_ & _ & E & _). congruence. }
  unfold normalizeInput in Hi. destruct raw as [| | | | |o]; try done. destruct (filter _ (obj_keys o)); [|done].
  do 5 apply bound_done in Hi as (? & _ & Hi). injection Hi as <-. cbn in Hik. by apply nonEmptyString_spec in Hik.
Qed.

Lemma canonical_key input address source inputSource key : ei_idempotencyKey input = Some key ->
  obj_get "idempotencyKey" (canonicalData input address source inputSource) = Some (JStr key).
Proof.
  intros Hk. unfold canonicalData. rewrite Hk. cbn [fmap option_fmap option_map field spread fold_left fst snd].
  destruct (String.eqb _ _); [rewrite set_get_ne by done|]; apply obj_get_set_eq.
Qed.

Section Confirmed.
Context `{Crypto} {S : Type} (hostOf : S -> Host) (emit : AgentEvent -> E S AgentEvent) (options : InterfaceOptions).
Context `{!DurableBus hostOf emit}.

(** The row that a registered event with a key is stored in confirms it. *)
Lemma emitted_answers input context event key s ev s' ro :
  canonicalEvent input context = Done event -> ei_idempotencyKey input = Some key -> nonblank key = true -> trim key = key ->
  is_Some (definitionOf (ei_type input)) -> journal_ok (logOf hostOf s) ->
  emit (if ro : bool then record_only event else event) s = (Done ev, s') ->
  exists id scope, ev_rowId ev = Some id /\ journal_ok (logOf hostOf s') /\
    idempotencyScope (eventCorrelation (correlated event (eventPayload (ev_fields event)) (recordOrEmpty (obj_get "target" (ev_fields event)))))
      (eventOwner (ev_fields event) None) = scope /\
    exists row, rows (logOf hostOf s') !! id = Some row /\
      indexKey row = Some (ei_type input, "event-interface", scope, key) /\
      ec_idempotency_hash (se_columns row) = Some (idempotencyHash event (eventPayload (ev_fields event))).
Proof.
  intros (source & address & Hs & _ & Ee)%canonical_done Hk Hnb Htrim [d Hd] Hok Hrun.
  apply nonEmptyString_spec in Hs as [Hs _]. set (data := canonicalData input address source (pc_inputSource context)) in Ee.
  destruct (emit_durable _ _ _ _ Hrun) as (now & parent & acc & h & Hh & Hid & Hkeep). rewrite Ee in *. clear Hrun.
  destruct (inherited_identity input source data parent ro Hs) as (Ht & Hc & Hf & Hi & Hu & Hg & Hhash).
  set (e0 := interfaceEvent input source data) in *. set (sent := inheritedEventTrace _ parent) in *.
  destruct (interface_fields input source data) as (_ & Hsrc & How & Htg & Hdata). fold e0 in Hsrc, How, Htg, Hdata.
  assert (eventPayload (ev_fields e0) = data) as -> by (by apply interface_payload).
  assert (eventPayload (ev_fields sent) = data) as Hpay by (unfold eventPayload; by rewrite Hc, Hg, Hdata).
  assert (eventOwner (ev_fields e0) None = Some (ownerOfInput input)) as Howner
    by (unfold eventOwner, envelopeField, e0; rewrite interface_canonical by done; fold e0; by rewrite How).
  assert (eventOwner (ev_fields sent) None = Some (ownerOfInput input)) as Howner' by (unfold eventOwner, envelopeField; by rewrite Hc, Hg, How).
  destruct (registered_handler now sent d (ho_hub (hostOf s))) as (project & Hq & Ehandler); [by rewrite Ht|done|]. rewrite Ehandler in Hh.
  rewrite Hpay, Howner' in Hh. set (src := eventSource (ev_fields sent) None) in Hh.
  pose proof (insert_run now sent data src (Some (ownerOfInput input)) project (ho_hub (hostOf s)) Hq) as Hins. rewrite Hh in Hins.
  set (p := prepareInsert sent data src (Some (ownerOfInput input))).
  assert (pp_key p = key /\ pp_ingress p = "event-interface" /\ pp_hash p = idempotencyHash e0 data /\
    pp_scope p = idempotencyScope (eventCorrelation (correlated e0 data (recordOrEmpty (obj_get "target" (ev_fields e0)))))
      (Some (ownerOfInput input))) as (Pk & Pi & Ph & Psc).
  { assert (String.eqb (ei_type input) "escalation.created" = false) as Hne.
    { apply registered_public in Hd. apply String.eqb_neq. intros E. rewrite E in Hd. revert Hd. by apply (bool_decide_eq_false_1 _). }
    unfold p, prepareInsert, completesEscalation, normalizePersistedEscalationPayload. rewrite Ht, Hne. cbn [negb andb].
    cbn [pp_key pp_ingress pp_hash pp_scope]. split_ands; [|unfold ingressSource; by rewrite Hi|done|].
    - unfold idempotencyKeyOf, data. by rewrite (canonical_key _ _ _ _ key Hk).
    - rewrite Hf. unfold correlated. rewrite Hu, Hg by done. done. }
  destruct (inserted_answered _ _ _ _ _ _ _ _ Hins Hok) as (id & Hacc & Hans).
  { fold p. rewrite Pk. intros ->. done. }
  destruct (inserted_ok _ _ _ _ _ _ _ _ Hins Hok) as [Hok1 _]. destruct (Hkeep Hok1) as [Hok2 Hrc].
  destruct (answered_row_kept _ _ _ _ _ Hrc Hans) as (row & Hrow & Hx & Hhs). fold p in Hx, Hhs.
  exists id, (pp_scope p). rewrite Howner, <- Psc. split_ands; [congruence|done|done|]. exists row. rewrite Ht, Pi, Pk in Hx.
  split_ands; [done..|]. by rewrite Hhs, Ph.
Qed.

(** C25.  A receipt can be asked for again.  A publication of a registered type with
    an idempotency key that returned a receipt is confirmed, after any history of
    events, receipts and sweeps, by the id of that receipt, without emitting
    anything; and whatever that id confirms had the same canonical input, not just
    the same key. *)
Theorem publication_confirmed raw context s receipt s' input event key ops
    (Hok : journal_ok (logOf hostOf s)) (Hin : publicationInput raw context = Done input)
    (Hevent : canonicalEvent input context = Done event)
    (Hkey : ei_idempotencyKey input = Some key) (Hreg : is_Some (definitionOf (ei_type input)))
    (Hrun : publish hostOf emit options raw context s = (Done receipt, s')) :
  let l := log (fold_left afterHub ops (ho_hub (hostOf s'))) in
  findEventPublication l raw context = Done (Some (er_eventId receipt)) /\
  forall other, findPersistedEventId l other = Some (er_eventId receipt) ->
    idempotencyHash other (eventPayload (ev_fields other)) = idempotencyHash event (eventPayload (ev_fields event)).
Proof.
  cbv zeta. destruct (input_key _ _ _ _ Hin Hkey) as [Hnb Htrim].
  destruct (publish_run hostOf emit options raw context s) as [(c & e & E)|(i & ev & Hi & Hc & _ & _ & Hreceipt)]; [congruence|].
  assert (i = input) as -> by congruence. assert (ev = event) as -> by congruence.
  destruct (Hreceipt _ _ Hrun) as (_ & emitted & Hem & Hid). unfold durableId in Hid. destruct (ev_rowId emitted) as [id|] eqn:Er; [|done].
  cbn [mbind option_bind] in Hid. destruct (isSafeInteger (num id) && (0 <? id)) eqn:Esafe; [|done]. injection Hid as <-.
  assert (exists ro : bool, emit (if ro then record_only event else event) s = (Done emitted, s')) as [ro Hemit].
  { destruct (bool_decide _); [by exists false|by exists true]. }
  destruct (emitted_answers input context event key s emitted s' ro Hevent Hkey Hnb Htrim Hreg Hok Hemit)
    as (id' & scope & Hid' & Hok' & Hscope & row & Hrow & Hx & Hhash). assert (id' = id) as -> by congruence.
  destruct (hub_history (ho_hub (hostOf s')) ops Hok') as [Hok2 Hkept]. set (l := log (fold_left afterHub ops (ho_hub (hostOf s')))) in *.
  destruct (Hkept id row Hrow) as (row' & Hrow' & Hcols & _).
  assert (indexKey row' = Some (ei_type input, "event-interface", scope, key)) as Hx' by (unfold indexKey in *; by rewrite Hcols).
  rewrite <- Hcols in Hhash. pose proof (keyedRow_found l id row' _ _ _ _ (proj1 Hok2) Hrow' Hx') as Hfound. split.
  - unfold findEventPublication. rewrite Hin. cbn. rewrite Hevent. cbn. do 2 f_equal. unfold findPersistedEventId. cbv zeta.
    pose proof Hevent as (source & address & Hs & _ & E)%canonical_done. apply nonEmptyString_spec in Hs as [Hs _].
    assert (idempotencyKeyOf (eventPayload (ev_fields event)) = key) as ->.
    { rewrite E, interface_payload by done. unfold idempotencyKeyOf. by rewrite (canonical_key _ _ _ _ key Hkey). }
    destruct (String.eqb_spec key "") as [->|_]; [done|]. rewrite Hscope.
    assert (eventType event = ei_type input /\ ingressSource event (eventSource (ev_fields event) None) = "event-interface") as [-> ->] by (by rewrite E).
    rewrite Hfound, bool_decide_true by done. rewrite EmissionLaws.isSafeInteger_num in Esafe. apply andb_true_iff in Esafe as [Ea Eb].
    rewrite Eb. cbn [andb]. assert (id <=? MAX_SAFE_INTEGER = true) as ->; [|done]. reflect_bools; lia.
  - intros other. clear Hfound. unfold findPersistedEventId. cbv zeta. destruct (String.eqb _ ""); [done|].
    destruct (keyedRow _ _ _ _ _) as [[j stored]|] eqn:Ek; [|done]. apply keyedRow_Some in Ek as [Hj _].
    destruct (_ && (0 <? j) && _) eqn:Ehash; [|done]. intros [= ->]. apply andb_true_iff in Ehash as [Ehash _].
    apply andb_true_iff in Ehash as [Ehash%bool_decide_eq_true_1 _]. congruence.
Qed.

End Confirmed.


(** ** Concrete runs *)

#[local] Existing Instance test_hash.

Definition release_task : AppTaskResource :=
  mkResource (mkMetadata "t1" None 1 4 None)
    (mkSpec "root" "Ship it" [] None None None None None None None None None)
    (mkStatus 1 TaskState.waiting None None None None None None None None None None false None None None None
       (Some ["c9"]) None "2024-01-01T00:00:00.000Z").

Definition release_app : ResourceStore.store :=
  (ResourceStore.bootstrapSnapshot 0 "2024-01-01T00:00:00.000Z" "r1"
     (TaskTree.mkTree (Some 1) (Some "demo") None None None [("c9", Conditions.approval_condition)] [("t1", release_task)] [] [] [] [] [] [])
     [] (ResourceStore.emptyStore "demo" ∅ ∅)).2.

Definition release_host : Host :=
  mkHost (mkHub emptyLog {["demo" := release_app]} (mkTables ∅ ∅ ∅ ∅)) (EventAdmission.mkJournal ∅ ∅ ∅) ∅ ∅.

Definition release_proposal : json :=
  JObj [("taskGeneration", JNum (num 1)); ("conditionId", JStr "c9"); ("conditionGeneration", JNum (num 2));
        ("subject", JStr "task:t1"); ("requestedAction", JStr "Approve the release");
        ("expected", JObj Conditions.approval_expected)].

Definition release_target : json := JObj [("appId", JStr "demo"); ("taskId", JStr "t1")].

(** A caller that claims another stamp. *)
Definition release_approval (decision : string) : json :=
  JObj [("type", JStr "project.approval.submitted"); ("target", release_target);
        ("data", JObj [("decision", JStr decision); ("provenance", JStr "trust me"); ("hostApproval", JObj [("version", JNum (num 1))]);
                       ("proposal", release_proposal)]);
        ("idempotencyKey", JStr "approve-1")].

Definition telegram_channel (authorized : bool) : EventPublisherContext :=
  mkContext "telegram" None false (if authorized then Some (mkAuthorization a_human " hao " "chat:7" []) else None).

Definition release_options : InterfaceOptions :=
  mkInterfaceOptions (fun _ _ => Done tt) (fun a => String.eqb a "demo") (fun _ => false) (fun _ => false) None None None.

Definition release_emit : AgentEvent -> E (Bus * Host) AgentEvent := emit 1000 (hostBusOptions 1000 [] [] [] None).

Definition decide_release (decision : string) (authorized : bool) : out EventReceipt * (Bus * Host) :=
  publish snd release_emit release_options (release_approval decision) (telegram_channel authorized) (emptyBus, release_host).

(** Only an authorized channel and an allowed decision are admitted. *)
Example decisions :
  let answer d a := match (decide_release d a).1 with Done r => inl (er_eventId r) | Raise c e => inr e end in
  answer "approve" true = inl 1 /\ answer "later" true = inr "Decision is not allowed by Condition c9" /\
  answer "approve" false = inr "Formal approval requires trusted ingress authorization".
Proof. vm_compute. done. Qed.

Lemma find_empty event : findPersistedEventId emptyLog event = None.
Proof.
  unfold findPersistedEventId. cbv zeta. destruct (String.eqb _ ""); [done|].
  assert (forall t i sc k, keyedRow emptyLog t i sc k = None) as E; [|by rewrite E].
  intros. unfold keyedRow. change (rows emptyLog) with (∅ : gmap Z StoredEvent). by rewrite map_to_list_empty.
Qed.

Lemma approval_authentic_witness :
  is_done (decide_release "approve" true).1 = true /\
  exists event appId taskId,
    obj_get "hostApproval" (eventData event) = Some (vouched "telegram" (mkAuthorization a_human " hao " "chat:7" [])) /\
    awaited {["demo" := release_app]} appId taskId (ev_fields event).
Proof.
  assert (is_done (decide_release "approve" true).1 = true) as Hdone by (vm_compute; reflexivity). split; [exact Hdone|].
  destruct (normalizeInput (release_approval "approve")) as [i|c e] eqn:Ei; [|by vm_compute in Ei].
  assert (ei_type i = APPROVAL) as Ht.
  { assert (match normalizeInput (release_approval "approve") with Done i => ei_type i | Raise _ _ => "" end = APPROVAL) as E
      by (vm_compute; reflexivity). by rewrite Ei in E. }
  destruct (approval_authentic snd release_emit release_options (release_approval "approve") (telegram_channel true) (emptyBus, release_host) i Ei Ht)
    as [(c & e & E)|(a & source & input & event & Ha & Hs & _ & _ & Hst & _ & _ & Haw & _)].
  { unfold decide_release in Hdone. rewrite E in Hdone. discriminate Hdone. }
  injection Ha as <-. injection Hs as <-. exists event. destruct Haw as [Hf|(appId & taskId & _ & _ & Haw)].
  - change (logOf snd (emptyBus, release_host)) with emptyLog in Hf. rewrite find_empty in Hf. destruct Hf as [? Hf]. discriminate Hf.
  - exists appId, taskId. split; [exact Hst|exact Haw].
Defined.

(** A human answers the proposal in the conversation. *)
Definition release_reply (text : string) : json :=
  JObj [("type", JStr "conversation.message.created"); ("target", JObj [("appId", JStr "demo")]);
        ("data", JObj [("conversationId", JStr "chat"); ("text", JStr text); ("author", JObj [("kind", JStr "human"); ("id", JStr "hao")]);
                       ("replyTo", JStr "m1"); ("approvalReply", JObj [("target", release_target); ("proposal", release_proposal)])])].

Definition saved_reply (text : string) : out AgentEvent :=
  input ← publicationInput (release_reply text) (telegram_channel true);
  sent ← canonicalEvent input (telegram_channel true);
  mret (with_rowId 5 sent).

Definition deliver_reply (saved : AgentEvent) : out (option ApprovalReceipt) * (Bus * Host) :=
  deliverConversationApproval snd release_emit saved (emptyBus, release_host).

Example replies :
  let answer text := saved ← saved_reply text; (deliver_reply saved).1 in
  answer " Approved " = Done (Some (ap_saved "approve" 1)) /\ answer "approve, but tomorrow" = Done None /\
  answer "defer" = Done (Some (ap_reason "Decision is not allowed by Condition c9. No approval was recorded; your text remains conversation.")).
Proof. vm_compute. done. Qed.

Lemma reply_decides_exactly_witness :
  exists saved event, saved_reply " Approved " = Done saved /\ obj_get "decision" (eventData event) = Some (JStr "approve") /\
    obj_get "inputEventId" (eventData event) = Some (JNum (num 5)) /\
    (deliver_reply saved).2 = (release_emit (record_only event) (emptyBus, release_host)).2.
Proof.
  destruct (publicationInput (release_reply " Approved ") (telegram_channel true)) as [input|c e] eqn:Ei; [|by vm_compute in Ei].
  destruct (canonicalEvent input (telegram_channel true)) as [sent|c e] eqn:Es.
  2: { assert (is_done (saved_reply " Approved ") = true) as E by (vm_compute; reflexivity). unfold saved_reply in E. rewrite Ei in E. cbn [mbind out_bind] in E.
       rewrite Es in E. discriminate E. }
  assert (saved_reply " Approved " = Done (with_rowId 5 sent)) as Hsaved by (unfold saved_reply; rewrite Ei; cbn [mbind out_bind]; rewrite Es; reflexivity).
  assert (match publicationInput (release_reply " Approved ") (telegram_channel true) with
          | Done i => ei_type i = "conversation.message.created" /\ approvalDecision (obj_get "text" (ei_data i)) = Some "approve"
          | Raise _ _ => False end) as Ht by (vm_compute; done).
  rewrite Ei in Ht. destruct Ht as [Ht Hdec].
  assert (match saved_reply " Approved " with
          | Done saved => (deliver_reply saved).1 = Done (Some (ap_saved "approve" 1)) | Raise _ _ => False end) as Hd by (vm_compute; reflexivity).
  rewrite Hsaved in Hd.
  destruct (reply_decides_exactly snd release_emit (release_reply " Approved ") (telegram_channel true) input sent (with_rowId 5 sent)
    (emptyBus, release_host) Ei Ht Es eq_refl eq_refl)
    as [[_ Hno]|(a & decision & id & event & appId & taskId & _ & Hdec' & _ & _ & Hid & Hdd & _ & Hie & _ & _ & Hrun & _)].
  - destruct (Hno "approve" 1 Hd).
  - exists (with_rowId 5 sent), event. injection Hid as <-. rewrite Hdec in Hdec'. injection Hdec' as <-.
    split; [exact Hsaved|]. split; [exact Hdd|]. split; [exact Hie|exact Hrun].
Defined.

Lemma publication_confirmed_witness :
  let l := log (fold_left afterHub [hub_sweepPairs 5000; hub_event 6000 (note "later")] (ho_hub (decide_release "approve" true).2.2)) in
  findEventPublication l (release_approval "approve") (telegram_channel true) = Done (Some 1).
Proof.
  destruct (publicationInput (release_approval "approve") (telegram_channel true)) as [input|c e] eqn:Ei; [|by vm_compute in Ei].
  destruct (decide_release "approve" true) as [[receipt|c e] s'] eqn:Er; [|by vm_compute in Er].
  assert (match (decide_release "approve" true).1 with Done r => er_eventId r = 1 | Raise _ _ => False end) as Hid by (vm_compute; reflexivity).
  rewrite Er in Hid. cbn in Hid.
  assert (match publicationInput (release_approval "approve") (telegram_channel true) with
          | Done i => ei_type i = APPROVAL /\ ei_idempotencyKey i = Some "approve-1" /\ is_done (canonicalEvent i (telegram_channel true)) = true
          | Raise _ _ => False end) as Ht by (vm_compute; repeat split; reflexivity).
  rewrite Ei in Ht. destruct Ht as (Ht & Hk & Hc). destruct (canonicalEvent input (telegram_channel true)) as [event|c e] eqn:Ec; [|discriminate Hc].
  assert (DurableBus snd release_emit) as Hbus by exact (host_bus 1000 [] [] [] None (Forall_nil_2 _) (Forall_nil_2 _) (Forall_nil_2 _)).
  assert (is_Some (definitionOf (ei_type input))) as Hreg by (rewrite Ht; eexists; reflexivity).
  unfold decide_release in Er. cbn [snd].
  destruct (publication_confirmed snd release_emit release_options (release_approval "approve") (telegram_channel true)
    (emptyBus, release_host) receipt s' input event "approve-1" [hub_sweepPairs 5000; hub_event 6000 (note "later")]
    empty_log_ok Ei Ec Hk Hreg Er) as [Hconf _].
  rewrite Hid in Hconf. exact Hconf.
Defined.

(** An input addressed to an App whose payload names the Task. *)
Definition aliased_input : json :=
  JObj [("type", JStr "app.input.requested"); ("target", JObj [("appId", JStr "demo")]);
        ("data", JObj [("taskId", JStr "t1"); ("input", JObj [("type", JStr "note")])])].

(** A normalized target has all three fields, some of them [undefined], and they
    hide the payload's when the row is indexed: the event names the Task, its row
    has no [task_id]. *)
Lemma app_target_hides_task :
  match (input ← publicationInput aliased_input (telegram_channel false); canonicalEvent input (telegram_channel false)) with
  | Done event =>
      obj_get "taskId" (eventData event) = Some (JStr "t1") /\
      co_taskId (pp_correlation (prepareInsert event (eventPayload (ev_fields event)) None None)) = None
  | Raise _ _ => False
  end.
Proof. vm_compute. done. Qed.

End InterfaceLaws.
